(* ===== verification/_CoqProject ===== *)
-Q . S2P
Prelude.v
Util.v
Subject.v
Sublist.v
SublistSpec.v
SublistQueue.v
SublistContract.v
Parser.v
ParserSpec.v
Client.v
ClientSession.v
Delivery.v
Protocol.v
Route.v
Cluster.v
ClusterSpec.v
ClusterMesh.v
ClusterView.v
Lifecycle.v
ReadLoop.v
Auth.v
ServerSafe.v
RingBuf.v
Health.v
HealthSpec.v
HealthElect.v
Msgp.v
Api.v
Store.v
Compact.v
Transfer.v
Peer.v
PeerSpec.v
Lex.v
LexSafe.v
LexRun.v
ConfParse.v
ConfText.v
ConfRound.v
Options.v
OptionsSpec.v
Monitor.v
SwpTcp.v
Swp.v
SwpNet.v
SwpGen.v
SwpRecv.v
SwpSend.v
SwpSafe.v
SwpContract.v
SwpWrite.v
