(* ===== verification/Prelude.v ===== *)
(** * A verification of gnatsd

    gnatsd is a message broker.  Clients connect over TCP and speak a line
    protocol; a subscription names a pattern of subjects, a publication a
    subject, and the server hands every publication to the subscriptions
    that match.  Servers form a full mesh of routes, over which they announce
    the interest of their clients and forward messages one hop.  This fork
    adds a health agent, which elects a leader of the cluster, a sliding
    window protocol for reliable streams over the broker, and peers, which
    keep checkpoints of an application and replicate them from the leader.

    ** Parts and files

    The files come in the order of their dependencies.

    - [Prelude] (this file): bytes and strings, machine integers with their
      wrap-around, the outcomes of fallible code ([Ok], [Fail], [Panic]), and
      lemmas on lists, options and strings that the others share.
    - [Util]: [server/util.go], [parseSize] and [parseInt64].
    - [Subject]: the subjects of [server/sublist.go]: tokens, validity and
      [matchLiteral], against the meaning of a pattern on a list of tokens.
    - [Sublist], [SublistSpec], [SublistQueue], [SublistContract]:
      [server/sublist.go], the trie of subscriptions with its cache.  The
      slices of queue groups live in an explicit heap, since the code shares
      and overwrites them.  The contract is a refinement of the set of live
      subscriptions over all histories of operations.
    - [Parser], [ParserSpec]: [server/parser.go], one definition for each
      group of states of the machine.  The handlers of the operations are the
      interface [Handlers]; the specification is a machine that takes one byte
      at a time, and the parser follows it for every cutting of the stream
      into buffers.
    - [Client], [ClientSession], [Delivery], [Protocol]: [server/client.go],
      [server/route.go] and parts of [server/server.go] in a state and error
      monad: the handlers of all operations, permissions, delivery, queue
      groups, limits on subscriptions, closing, interest over routes and the
      sids between servers.  [ClientSession] puts these handlers under the
      parser, [Delivery] has the theorems about publications, [Protocol] those
      about SUB, UNSUB and the formats between servers.
    - [Route]: how [server/route.go] makes, greets and dials the connections
      between servers; what happens when the INFO of the other end arrives, or
      a route is closed and dialed again, is in [Client].
      [Cluster], [ClusterSpec], [ClusterMesh], [ClusterView]: clusters of
      servers, each reduced to its routes and its dialing goroutines, as steps
      of dialing and of signals that arrive; their invariants; the full mesh;
      and the proof that the handlers of [Client] do to a server what the
      steps do to its view.
    - [Lifecycle]: [createClient] and [Shutdown] of [server/server.go] as steps
      between which everything else that a connection does can run, and the
      URLs of the server's INFO.  [ReadLoop]: [readLoop] of
      [server/client.go] around the parser.
    - [Auth]: the authenticators of [auth/] under CONNECT.
    - [ServerSafe]: an invariant on the whole store, and total triples for all
      handlers of [Client], [Route] and [Lifecycle]: the server does not panic.
    - [RingBuf]: the ring buffers of [health/rbuf.go] and [swp/overing.go].
    - [Health], [HealthSpec], [HealthElect]: the agent of [health/health.go]
      with [aloc.go], [btree.go], [setutil.go] and [config.go]: the sets of
      members, the order of the candidates, the election and the reports.
      The vendored B-tree is the class [BTree] with its documented laws,
      which sorted lists satisfy.
    - [Lex], [LexSafe], [LexRun]: [conf/lex.go], every state function of the
      lexer of configurations; [ConfParse], [ConfText], [ConfRound]:
      [conf/parse.go] and the grammar of configurations that it reads.
    - [Msgp]: the functions of the vendored msgpack library that the generated
      code calls, to append, read, skip and measure an object, with their
      errors; the class [Generated] with its laws [GeneratedLaws] is what a
      generated type gives: how its fields are written and read.
      [Api]: [peer/api/api.go] and [api_gen.go], the messages of peers and their
      generated serialisers as instances of that class.
    - [Store]: [boltsaver.go] and [inv.go], the entries that
      a peer keeps and their order; [Compact]: [peer/compact.go], the copy of
      its database in bounded transactions; [Transfer]: [peer/gcli/client.go]
      and [peer/gserv/server.go], an entry in checksummed chunks; [Peer],
      [PeerSpec]: [peer/peer.go] and [bcast.go], queries for the latest
      checkpoint, its distribution by the lead and its recovery, with the
      messages as the bytes and chunks that are sent.  The bolt
      library and the red-black tree are the classes [BoltTx] and [RBTree]
      with their laws, each with an instance.
    - [Options], [OptionsSpec]: [server/opts.go], [const.go],
      [ciphersuites_1.8.go] and [main.go], from a parsed configuration and the
      flags to the options; the order in which Go visits a map is an argument.
    - [Monitor]: [server/monitor.go] and [monitor_sort_opts.go], the pages of
      connections and routes; [sort.Sort] is the class [GoSort].
    - [SwpTcp]: the state machine of [swp/tcp.go].  [Swp]: one end of a session,
      [swp/recv.go], [sender.go], [flow.go], [retry.go], [retree.go] and parts
      of [swp.go], with a definition for each case of the two select loops.
      [SwpNet]: two ends over a network that loses, repeats and reorders, and
      that may drop the field [FromTcpState] of a packet.
      [SwpGen]: [swp/swp_gen.go] and [natsnet.go], the serialisers of packets
      and the network over NATS, which does drop that field.
      [SwpRecv], [SwpSend], [SwpSafe]: the invariants of the receiver, the
      sender and the handshake.  [SwpContract], [SwpWrite]: what a session
      guarantees, and the stream that an application writes.

    ** What the theorems show

    - Subscriptions: after any history of inserts, removals and matches, a match
      returns exactly the live subscriptions, cached or not; queue groups
      are partitioned by name; errors are characterised; and four runs
      show where the cache and the shared slices go wrong.
    - Protocol: parsing never panics or loops, does not depend on how the
      stream is cut, and runs exactly the operations of the text.  The server
      as a whole does not panic in any interleaving of connections, commands,
      timers and a shutdown in which the subjects of SUB keep their wildcards
      in tokens of their own and no subject ends in an empty token; a client
      that publishes on such a subject can make it panic.
    - Delivery: a publication on a subject that no cache holds reaches each
      matching subscription, each interested server and one member of each
      matching queue group once; a routed message goes one hop, to the queue
      member that it names or to the plain subscriptions of local clients;
      limits are exact; a refused publication changes nothing else.
    - Configuration: every text of the grammar parses to its entries; lexing
      always ends except inside an unterminated text, and panics only where
      a value is missing.
    - Connections: the limit on clients holds in every interleaving, each
      outcome of a new connection is characterised, and a shutdown closes
      every connection that it knows, withdraws its subscriptions, and no client
      or route is registered after it; when a read loop ends its connection is
      closed.
    - Clusters: however servers dial, greet, tell of each other, drop duplicate
      connections and dial again, a run that can go no further has linked all
      servers whose configured routes connect them, provided that their
      addresses lead to them; when they tell [0.0.0.0] as their host they can
      come to rest apart.  The INFO of a route changes a server as the steps
      of a cluster say.
    - Users: a CONNECT gives exactly the permissions of the last user of that
      name, to publish outside of [_SYS.] and to subscribe to subjects read as
      literals; a wildcard subscription gets around them.
    - Options: their type assertions are an exact type system, the order of
      the maps does not matter unless two keys write one field, and what a
      file decides is stated against the flags.
    - Monitor: pages list each connection once; which requests panic.
    - Peers: an entry survives its transfer and nothing else is accepted; a
      compaction loses nothing whatever fails; the lead's checkpoint reaches
      the followers whose answers came, and a new lead recovers the newest one
      when every peer holds one and answers; and the ways in which a checkpoint
      is lost, among them a follower's stream that fails, which takes the lead
      down.
    - Wire formats: what a generated serialiser writes is read back, fields
      come in any order among unknown ones, the declared sizes are enough, and
      decoding ends on every input; a packet over NATS loses one field, so that
      a keepalive there cannot stand in for a lost packet of a handshake.
    - Rings: both refine a bounded queue.
    - Election: a round elects the best agent that answered and not before the
      lease has run out; agents that heard the same agree; reports are exact;
      leases of one agent do not overlap, but those of two agents can.
    - Sessions: between ends with windows of one size, what is read is a prefix
      of what was sent in every interleaving; no panic with an honest peer,
      unless the handshake is retried or its SYN was refused by the network;
      unconsumed frames stay in the retry trees; and runs show a first frame
      that is lost for good and the two handshakes that panic.

    ** Bounds and fuel

    Loops are structural where the code walks over a list.  The others take
    fuel that is proved to be enough: the parser's loop takes the length of
    its buffer; a run of the lexer takes a multiple of the length of the text
    ([LexRun] shows that a run which uses it up never ends); the in-order
    loop of a receiver takes one more than its window; a TCP event is followed
    by at most two others; [WritePtrs] makes at most three rounds; decoding
    takes the length of its input, since each object that is read or skipped
    takes at least a byte.  The integers of
    the parser, of sizes and arguments, of configurations, of the sublist and of
    the wire formats are wrapped at their width with [wrap64] and its like; the
    counters of connections, subscriptions and the server ([nm], [cproto],
    [inMsgs], [outMsgs], [outBytes] and the like), and the sequence numbers and
    counters of a session, are unbounded.

    ** Not modelled

    Sockets, accept loops, the TLS handshake, timers as such, goroutine start and
    stop, logging, tracing, the command line flags and the monitor's pages of
    counters are I/O.  JSON, bcrypt, blake2b, X.509, URLs, interfaces, the
    clock, the environment and files are parameters.  The round trip estimates
    of a session use floats and only choose when to send again; they are
    arguments.  ASAP delivery and file transfer are built on the session with
    channels.  The generated serialisers are
    modelled on byte slices; their versions on streams, which the program
    calls only to send a file over a session, are not.  [fmt.Errorf] with a text from the network
    as its format is a parameter.  The read loop of a client
    is modelled without the tuning of its buffers.  In the model of a cluster
    the servers run, a dial reaches its server or finds none, every CONNECT is
    accepted, and a connection ends only when a server closes it.  Of
    [Shutdown] the listeners, the stop of the internal clients and the waits
    for the accept loops and goroutines are left out: that it comes to its end
    is shown of the part that closes the connections.

    ** This file

    The prelude. *)

From stdpp Require Export base tactics numbers list gmap strings.
From Stdlib Require Export ZArith Lia Ascii.
#[global] Set Warnings "-notation-overridden,-clear-no-such-hyp".

(** Go's [byte] is an [ascii]; Go's [[]byte] and [string] are both a list of
    bytes, so that the conversions between them are the identity. *)
Abbreviation byte := ascii.
Abbreviation bytes := (list ascii).

Declare Scope go_scope.
Delimit Scope go_scope with go.

(** The bytes of a literal of the source. *)
Definition bs (s : string) : bytes := String.list_ascii_of_string s.
Arguments bs s%_string.

(** The value of a byte, as an untyped Go integer. *)
Definition bval (b : byte) : Z := Z.of_N (N_of_ascii b).

Definition byte_of (z : Z) : byte := ascii_of_N (Z.to_N z).

(** The lower case of an ASCII letter. *)
Definition lower (b : byte) : byte :=
  let v := bval b in if (65 <=? v)%Z && (v <=? 90)%Z then byte_of (v + 32) else b.

Definition CR : byte := "013"%char.
Definition LF : byte := "010"%char.
Definition TAB : byte := "009"%char.
Definition SPC : byte := " "%char.

(** ** Machine integers *)

(** Wrap-around of Go's [int] and [int64] (64-bit two's complement). *)
Definition wrap64 (z : Z) : Z := ((z + 2 ^ 63) mod 2 ^ 64 - 2 ^ 63)%Z.
(** Wrap-around of [uint32] and [uint64]. *)
Definition wrapu32 (z : Z) : Z := (z mod 2 ^ 32)%Z.
Definition wrapu64 (z : Z) : Z := (z mod 2 ^ 64)%Z.

Definition in_int64 (z : Z) : Prop := (- 2 ^ 63 <= z < 2 ^ 63)%Z.

Lemma wrap64_id z : in_int64 z -> wrap64 z = z.
Proof. unfold in_int64, wrap64. intros ?. rewrite Z.mod_small; lia. Qed.

Lemma wrap64_range z : in_int64 (wrap64 z).
Proof.
  unfold in_int64, wrap64.
  pose proof (Z.mod_pos_bound (z + 2 ^ 63) (2 ^ 64)). lia.
Qed.

(** Wrapping only removes a multiple of the modulus. *)
Lemma wrap64_shift z k : wrap64 (z + k * 2 ^ 64) = wrap64 z.
Proof.
  unfold wrap64. f_equal. replace (z + k * 2 ^ 64 + 2 ^ 63)%Z
    with (z + 2 ^ 63 + k * 2 ^ 64)%Z by lia. by rewrite Z_mod_plus_full.
Qed.

Lemma wrap64_decomp z : exists k, wrap64 z = (z + k * 2 ^ 64)%Z.
Proof.
  exists (- ((z + 2 ^ 63) / 2 ^ 64))%Z. unfold wrap64.
  rewrite Z.mod_eq by lia. lia.
Qed.

Lemma wrap64_add_l a b : wrap64 (wrap64 a + b) = wrap64 (a + b).
Proof.
  destruct (wrap64_decomp a) as [k ->].
  rewrite <- (wrap64_shift (a + b) k). f_equal. lia.
Qed.

Lemma wrap64_mul_l a b : wrap64 (wrap64 a * b) = wrap64 (a * b).
Proof.
  destruct (wrap64_decomp a) as [k ->].
  rewrite <- (wrap64_shift (a * b) (k * b)). f_equal. lia.
Qed.

Lemma wrapu32_range z : (0 <= wrapu32 z < 2 ^ 32)%Z.
Proof. unfold wrapu32. apply Z.mod_pos_bound. lia. Qed.

(** ** Strings *)

(** Go's [<] on strings. *)
Fixpoint string_lt (a b : bytes) : bool :=
  match a, b with
  | _, [] => false
  | [], _ => true
  | x :: a', y :: b' =>
      if decide (bval x < bval y)%Z then true
      else if decide (bval x = bval y) then string_lt a' b' else false
  end.

Lemma bval_inj x y : bval x = bval y -> x = y.
Proof.
  unfold bval. intros H%N2Z.inj. rewrite <- (ascii_N_embedding x), <- (ascii_N_embedding y). by rewrite H.
Qed.

Lemma bval_range b : (0 <= bval b < 256)%Z.
Proof. unfold bval. pose proof (N_ascii_bounded b). lia. Qed.

Lemma string_lt_irrefl a : string_lt a a = false.
Proof. induction a as [|x a IH]; cbn; [done|]. by rewrite decide_False, decide_True by lia. Qed.

Lemma string_lt_trans a b c : string_lt a b = true -> string_lt b c = true -> string_lt a c = true.
Proof.
  revert b c. induction a as [|x a IH]; intros [|y b] [|z c]; cbn; try done.
  repeat case_decide; try done; try lia. apply IH.
Qed.

Lemma string_lt_total a b : string_lt a b = false -> string_lt b a = false -> a = b.
Proof.
  revert b. induction a as [|x a IH]; intros [|y b]; cbn; try done.
  repeat case_decide; try done; try lia. intros Hab Hba. f_equal; [by apply bval_inj|by apply IH].
Qed.

(** ** Outcomes *)

(** A result, an error with its text, or a run-time panic. *)
Inductive outcome (A : Type) :=
| Ok (x : A)
| Fail (msg : bytes)
| Panic.
Arguments Ok {A} x.
Arguments Fail {A} msg.
Arguments Panic {A}.

#[export] Instance outcome_ret : MRet outcome := fun A x => Ok x.
#[export] Instance outcome_bind : MBind outcome := fun A B k m =>
  match m with Ok x => k x | Fail msg => Fail msg | Panic => Panic end.

(** [for _, r := range ra]: what the body appends, up to the
    first failure. *)
Fixpoint traverse {A B} (f : A -> outcome B) (l : list A) : outcome (list B) :=
  match l with
  | [] => Ok []
  | x :: l' => y ← f x; ys ← traverse f l'; Ok (y :: ys)
  end.

(** ** Lists *)

Lemma bind_nil_Forall {A B} (f : A -> list B) (l : list A) :
  (forall x, x ∈ l -> f x = []) -> l ≫= f = [].
Proof.
  induction l as [|x l IH]; intros H; [done|].
  rewrite bind_cons, H, IH; [done| |]; set_solver.
Qed.

Lemma bind_ext_elem {A B} (f g : A -> list B) (l : list A) :
  (forall x, x ∈ l -> f x = g x) -> l ≫= f = l ≫= g.
Proof. intros H. apply Forall_bind_ext, Forall_forall, H. Qed.

Lemma delete_alter {A} (f : A -> A) i (l : list A) : delete i (alter f i l) = delete i l.
Proof. revert i. induction l as [|x l IH]; intros [|i]; simpl; [done..|]. f_equal. apply IH. Qed.

Lemma delete_insert_list {A} i (x : A) (l : list A) : delete i (<[i := x]> l) = delete i l.
Proof. revert i. induction l as [|y l IH]; intros [|i]; simpl; [done..|]. f_equal. apply IH. Qed.

#[export] Instance concat_Permutation {A} : Proper ((≡ₚ) ==> (≡ₚ)) (@concat A).
Proof.
  intros l l' E. induction E as [|x l l' _ IH|x y l|l1 l2 l3 _ IH1 _ IH2]; simpl.
  - done.
  - by rewrite IH.
  - rewrite !app_assoc. f_equiv. apply Permutation_app_comm.
  - by rewrite IH1.
Qed.

(** [sl[i] = sl[last]; sl = sl[:last]], Go's unordered removal. *)
Definition swap_remove {A} (i : nat) (l : list A) : list A :=
  match last l with
  | Some x => take (length l - 1) (<[i := x]> l)
  | None => l
  end.

Lemma swap_remove_Permutation {A} (l : list A) i x :
  l !! i = Some x -> l ≡ₚ x :: swap_remove i l.
Proof.
  intros Hi. unfold swap_remove. destruct l as [|y l0 _] using rev_ind; [done|].
  rewrite last_snoc, length_app, Nat.add_sub. simpl.
  destruct (decide (i < length l0)).
  - rewrite insert_app_l, take_app_length' by (by rewrite ?length_insert; lia).
    rewrite lookup_app_l in Hi by done.
    rewrite <- (take_drop_middle l0 i x Hi) at 1.
    rewrite insert_take_drop by done.
    rewrite <- !app_assoc. simpl. rewrite <- Permutation_middle. constructor.
    apply Permutation_app_head. symmetry. apply Permutation_cons_append.
  - assert (i = length l0) as ->.
    { apply lookup_lt_Some in Hi. rewrite length_app in Hi. simpl in Hi. lia. }
    rewrite list_lookup_middle in Hi by done. simplify_eq.
    rewrite insert_app_r_alt, take_app_length' by (by rewrite ?length_insert; lia).
    symmetry. apply Permutation_cons_append.
Qed.

Lemma filter_ext_elem {A} (P Q : A -> Prop) `{forall x, Decision (P x), forall x, Decision (Q x)}
    (l : list A) :
  (forall x, x ∈ l -> P x <-> Q x) -> filter P l = filter Q l.
Proof.
  induction l as [|x l IH]; intros HPQ; [done|]. rewrite !filter_cons, IH by set_solver.
  assert (P x <-> Q x) by (apply HPQ; left). repeat case_decide; naive_solver.
Qed.

(** Distributing a list over the classes of a function. *)
Section classes.
Context {A B : Type} `{EqDecision B} (f : A -> B).

Lemma bind_app_Permutation {C D} (g h : C -> list D) (l : list C) :
  l ≫= (fun c => g c ++ h c) ≡ₚ (l ≫= g) ++ (l ≫= h).
Proof.
  induction l as [|c l IH]; [done|]. rewrite !bind_cons, IH.
  rewrite <- !app_assoc. f_equiv. rewrite !app_assoc. f_equiv. apply Permutation_app_comm.
Qed.

Lemma bind_singleton_class (cs : list B) (x : A) : NoDup cs ->
  cs ≫= (fun c => if decide (f x = c) then [x] else []) =
  if decide (f x ∈ cs) then [x] else [].
Proof.
  induction 1 as [|c cs Hc Hnd IH]; [by rewrite decide_False by apply not_elem_of_nil|].
  rewrite bind_cons, IH. destruct (decide (f x = c)) as [<-|].
  - rewrite (decide_False (P := f x ∈ cs)) by done. rewrite decide_True; [done|left].
  - simpl. destruct (decide (f x ∈ cs)); [rewrite decide_True; [done|by right]|].
    rewrite decide_False; [done|]. by rewrite elem_of_cons; intros [].
Qed.

(** Collecting the elements of the classes [cs] selects the elements whose
    class is among them. *)
Lemma bind_filter_classes (cs : list B) (l : list A) : NoDup cs ->
  cs ≫= (fun c => filter (fun x => f x = c) l) ≡ₚ filter (fun x => f x ∈ cs) l.
Proof.
  intros Hcs. induction l as [|x l IH].
  { by rewrite bind_nil_Forall. }
  rewrite (bind_ext_elem _ (fun c => (if decide (f x = c) then [x] else []) ++
    filter (fun x => f x = c) l)).
  2:{ intros c _. rewrite filter_cons. by case_decide. }
  rewrite bind_app_Permutation, IH, bind_singleton_class by done.
  rewrite filter_cons. by case_decide.
Qed.
End classes.
