(* ===== verification/Util.v ===== *)
(** * Util: the decimal numbers of the wire protocol

    [src/server/util.go]: [parseSize] and [parseInt64], with Go's 64-bit
    wrap-around, and the [%d] verb of [fmt.Sprintf] that prints the numbers
    the protocol carries (connection ids in route sids, auto-unsubscribe
    limits).  The theorems give the exact value on every input, the round
    trip with the printer and the behaviour past the range of an [int]. *)

From S2P Require Import Prelude.
Local Open Scope Z_scope.

(** Ascii numbers 0-9. *)
Definition asciiZero : Z := 48.
Definition asciiNine : Z := 57.

(** The guard [dec < asciiZero || dec > asciiNine], negated. *)
Definition is_digit (b : byte) : bool :=
  negb ((bval b <? asciiZero) || (asciiNine <? bval b)).

(** The loop of [parseSize] over the rest of the digits, from the
    accumulator [n]; the multiplication and the addition both wrap. *)
Fixpoint parseSize_loop (n : Z) (d : bytes) : Z :=
  match d with
  | [] => n
  | dec :: d' =>
      if (bval dec <? asciiZero) || (asciiNine <? bval dec) then -1
      else parseSize_loop (wrap64 (wrap64 (n * 10) + (bval dec - asciiZero))) d'
  end.

Definition parseSize (d : bytes) : Z :=
  if decide (length d = 0%nat) then -1 else parseSize_loop 0 d.

(** The same code at type [int64]. *)
Fixpoint parseInt64_loop (n : Z) (d : bytes) : Z :=
  match d with
  | [] => n
  | dec :: d' =>
      if (bval dec <? asciiZero) || (asciiNine <? bval dec) then -1
      else parseInt64_loop (wrap64 (wrap64 (n * 10) + (bval dec - asciiZero))) d'
  end.

Definition parseInt64 (d : bytes) : Z :=
  if decide (length d = 0%nat) then -1 else parseInt64_loop 0 d.

(** The [%d] verb on a non-negative integer. *)
Definition digit_of (n : Z) : byte := ascii_of_N (Z.to_N (asciiZero + n)).

Fixpoint fmt_d_fuel (fuel : nat) (n : Z) : bytes :=
  match fuel with
  | O => []
  | S f => if n <? 10 then [digit_of n]
           else fmt_d_fuel f (n / 10) ++ [digit_of (n mod 10)]
  end.

(** A number of [k] bits has at most [k] decimal digits. *)
Definition fmt_d (n : Z) : bytes := fmt_d_fuel (S (Z.to_nat (Z.log2 n))) n.

(** [strconv.Itoa]. *)
Definition itoa (n : Z) : bytes := if decide (n < 0)%Z then "-"%char :: fmt_d (- n) else fmt_d n.

(** ** Reference reading of a decimal number *)

Definition dec_value (d : bytes) : Z :=
  foldl (fun n b => n * 10 + (bval b - asciiZero)) 0 d.

Lemma dec_value_snoc d b : dec_value (d ++ [b]) = dec_value d * 10 + (bval b - asciiZero).
Proof. unfold dec_value. by rewrite foldl_app. Qed.

Lemma parseSize_loop_spec d : forall n,
  parseSize_loop (wrap64 n) d =
  if forallb is_digit d
  then wrap64 (foldl (fun n b => n * 10 + (bval b - asciiZero)) n d) else -1.
Proof.
  induction d as [|b d IH]; intros n; [done|]. simpl. unfold is_digit at 1.
  destruct ((bval b <? asciiZero) || (asciiNine <? bval b)); simpl; [done|].
  rewrite <- IH. f_equal. by rewrite wrap64_mul_l, wrap64_add_l.
Qed.

Lemma parseInt64_loop_eq d : forall n, parseInt64_loop n d = parseSize_loop n d.
Proof. induction d as [|b d IH]; intros n; simpl; [done|]. by rewrite IH. Qed.

Lemma parseInt64_parseSize d : parseInt64 d = parseSize d.
Proof. unfold parseInt64, parseSize. by rewrite parseInt64_loop_eq. Qed.

Lemma parseSize_digits d :
  d <> [] -> forallb is_digit d = true -> parseSize d = wrap64 (dec_value d).
Proof.
  intros Hne Hd. unfold parseSize. destruct d as [|b d]; [done|].
  rewrite decide_False by done.
  change 0 with (wrap64 0) at 1. by rewrite parseSize_loop_spec, Hd.
Qed.

(** Every byte of a printed number is a digit with the expected value. *)
Lemma bval_digit_of n : 0 <= n < 10 -> bval (digit_of n) = asciiZero + n.
Proof.
  intros Hn. unfold bval, digit_of, asciiZero. rewrite N_ascii_embedding; lia.
Qed.

Lemma is_digit_digit_of n : 0 <= n < 10 -> is_digit (digit_of n) = true.
Proof.
  intros Hn. unfold is_digit. rewrite bval_digit_of by done.
  unfold asciiZero, asciiNine.
  rewrite (proj2 (Z.ltb_ge _ _)), (proj2 (Z.ltb_ge _ _)) by lia. done.
Qed.

Lemma fmt_d_fuel_ok f : forall n,
  0 <= n < 10 ^ Z.of_nat (S f) ->
  forallb is_digit (fmt_d_fuel (S f) n) = true /\
  dec_value (fmt_d_fuel (S f) n) = n /\ fmt_d_fuel (S f) n <> [].
Proof.
  induction f as [|f IH]; intros n Hn.
  - simpl. rewrite (proj2 (Z.ltb_lt n 10)) by (simpl in Hn; lia).
    assert (0 <= n < 10) by (simpl in Hn; lia).
    simpl. rewrite is_digit_digit_of by done. split_and!; [done| |done].
    unfold dec_value. simpl. rewrite bval_digit_of by done. lia.
  - change (fmt_d_fuel (S (S f)) n) with
      (if n <? 10 then [digit_of n] else fmt_d_fuel (S f) (n / 10) ++ [digit_of (n mod 10)]).
    destruct (Z.ltb_spec n 10).
    + simpl. rewrite is_digit_digit_of by lia. split_and!; [done| |done].
      unfold dec_value. simpl. rewrite bval_digit_of by lia. lia.
    + assert (Hm : 0 <= n mod 10 < 10) by (apply Z.mod_pos_bound; lia).
      destruct (IH (n / 10)) as (Hd & Hv & _).
      { rewrite Nat2Z.inj_succ, Z.pow_succ_r in Hn by lia.
        split; [apply Z.div_pos; lia|]. apply Z.div_lt_upper_bound; lia. }
      split_and!.
      * rewrite forallb_app, Hd. simpl. by rewrite is_digit_digit_of.
      * rewrite dec_value_snoc, Hv, bval_digit_of by done.
        pose proof (Z.div_mod n 10). lia.
      * intros E. by apply app_nil in E as [_ ?].
Qed.

Lemma fmt_d_ok n : 0 <= n ->
  forallb is_digit (fmt_d n) = true /\ dec_value (fmt_d n) = n /\ fmt_d n <> [].
Proof.
  intros Hn. apply fmt_d_fuel_ok. split; [done|].
  destruct (decide (n = 0)) as [->|]; [done|].
  rewrite Nat2Z.inj_succ, Z2Nat.id by apply Z.log2_nonneg.
  destruct (Z.log2_spec n) as [_ Hl]; [lia|].
  eapply Z.lt_le_trans; [exact Hl|]. apply Z.pow_le_mono_l. lia.
Qed.

Lemma parseSize_fmt n : 0 <= n < 2 ^ 63 -> parseSize (fmt_d n) = n.
Proof.
  intros Hn. destruct (fmt_d_ok n) as (Hd & Hv & Hne); [lia|].
  rewrite parseSize_digits by done. rewrite Hv.
  rewrite wrap64_id; [done|]. unfold in_int64. lia.
Qed.

(** ** Properties *)

(** [parseSize] (and [parseInt64]) on every input: an empty argument or
    one with a byte that is not a decimal digit gives -1, and a string of
    digits gives its decimal value wrapped to 64 bits. *)
Theorem parseSize_spec (d : bytes) :
  parseSize d = (if decide (d = []) then -1
                 else if forallb is_digit d then wrap64 (dec_value d) else -1)
  /\ parseInt64 d = parseSize d.
Proof.
  split; [|apply parseInt64_parseSize].
  unfold parseSize. destruct d as [|b d]; [done|].
  rewrite !decide_False by done.
  change 0 with (wrap64 0) at 1. by rewrite parseSize_loop_spec.
Qed.

(** Printing a non-negative [int64] with [%d] and reading it back with
    [parseInt64] or [parseSize] gives the number back. *)
Theorem parseInt64_fmt_d (n : Z) :
  0 <= n < 2 ^ 63 -> parseInt64 (fmt_d n) = n /\ parseSize (fmt_d n) = n.
Proof.
  intros Hn. rewrite parseInt64_parseSize. by split; apply parseSize_fmt.
Qed.

Lemma parseInt64_fmt_d_witness :
  parseInt64 (fmt_d 4611686018427387904) = 4611686018427387904 /\
  parseSize (fmt_d 4611686018427387904) = 4611686018427387904.
Proof. apply (parseInt64_fmt_d 4611686018427387904). split; [lia|reflexivity]. Defined.
