(* ===== verification/Subject.v ===== *)
(** * Subject: subjects, tokens and wildcards

    The subject language of [src/server/sublist.go]: the token split that
    [Insert], [Match] and [Remove] unroll, [IsValidSubject],
    [IsValidLiteralSubject] and the byte-level [matchLiteral] of the result
    cache.  [match_tokens] is the reference meaning of a pattern, token by
    token; the theorems relate the byte-level routine to it. *)

From S2P Require Import Prelude.

(** Common byte variables for wildcards and token separator. *)
Definition pwc : byte := "*"%char.
Definition fwc : byte := ">"%char.
Definition btsep : byte := "."%char.

(** ** Operations *)

(** The split loop; [cur] is [subject[start:i]]. *)
Fixpoint tokens_loop (cur subject : bytes) : list bytes :=
  match subject with
  | [] => [cur]
  | b :: subject' =>
      if decide (b = btsep) then cur :: tokens_loop [] subject'
      else tokens_loop (cur ++ [b]) subject'
  end.

Definition tokens (subject : bytes) : list bytes := tokens_loop [] subject.

(** The loop of [IsValidSubject] over the tokens, with its [sfwc] flag. *)
Fixpoint IsValidSubject_loop (sfwc : bool) (ts : list bytes) : bool :=
  match ts with
  | [] => true
  | t :: ts' =>
      if bool_decide (length t = 0) || sfwc then false
      else if decide (1 < length t) then IsValidSubject_loop sfwc ts'
      else if decide (head t = Some fwc) then IsValidSubject_loop true ts'
      else IsValidSubject_loop sfwc ts'
  end.

Definition IsValidSubject (subject : bytes) : bool :=
  if decide (subject = []) then false else IsValidSubject_loop false (tokens subject).

Fixpoint IsValidLiteralSubject_loop (ts : list bytes) : bool :=
  match ts with
  | [] => true
  | t :: ts' =>
      if decide (length t = 0) then false
      else if decide (1 < length t) then IsValidLiteralSubject_loop ts'
      else if decide (head t = Some pwc \/ head t = Some fwc) then false
      else IsValidLiteralSubject_loop ts'
  end.

Definition IsValidLiteralSubject (subject : bytes) : bool :=
  IsValidLiteralSubject_loop (tokens subject).

(** The inner loop of [matchLiteral] on a [*]: [rest] is [literal[li:]], and
    the index it leaves is the one before the next separator. *)
Fixpoint skip_token (rest : bytes) (li : Z) : Z :=
  match rest with
  | [] => (li - 1)%Z
  | x :: rest' => if decide (x = btsep) then (li - 1)%Z else skip_token rest' (li + 1)%Z
  end.

Fixpoint matchLiteral_loop (literal : bytes) (li : Z) (subject : bytes) : bool :=
  let ll := Z.of_nat (length literal) in
  match subject with
  | [] => (ll <=? li)%Z
  | b :: subject' =>
      if (ll <=? li)%Z then false
      else if decide (b = pwc) then
        matchLiteral_loop literal
          (skip_token (drop (Z.to_nat li) literal) li + 1)%Z subject'
      else if decide (b = fwc) then true
      else match literal !! Z.to_nat li with
           | Some x => if decide (b = x) then matchLiteral_loop literal (li + 1)%Z subject'
                       else false
           | None => false
           end
  end.

Definition matchLiteral (literal subject : bytes) : bool :=
  matchLiteral_loop literal 0 subject.

(** ** Reference meaning of a pattern *)

(** What [switch t[0]] selects in the trie. *)
Inductive tkey := KLit (t : bytes) | KPwc | KFwc.

#[export] Instance tkey_eq_dec : EqDecision tkey.
Proof. solve_decision. Defined.

Definition key_of (t : bytes) : tkey :=
  match t with
  | b :: _ => if decide (b = pwc) then KPwc else if decide (b = fwc) then KFwc else KLit t
  | [] => KLit t
  end.

Fixpoint match_keys (pat : list tkey) (lit : list bytes) : bool :=
  match pat, lit with
  | [], [] => true
  | KFwc :: _, _ :: _ => true
  | KPwc :: pat', _ :: lit' => match_keys pat' lit'
  | KLit t :: pat', x :: lit' => bool_decide (t = x) && match_keys pat' lit'
  | _, _ => false
  end.

(** The pattern [pat] covers the literal subject [lit]. *)
Definition subject_matches (pat lit : bytes) : bool :=
  match_keys (key_of <$> tokens pat) (tokens lit).

(** A token is a wildcard by itself or has no wildcard byte. *)
Definition plain_byte (b : byte) : bool := bool_decide (b <> pwc /\ b <> fwc).

Definition wf_token (t : bytes) : bool :=
  bool_decide (t = [pwc]) || bool_decide (t = [fwc]) ||
  (bool_decide (t <> []) && forallb plain_byte t).

Fixpoint wf_pattern_tokens (ts : list bytes) : bool :=
  match ts with
  | [] => true
  | [t] => wf_token t
  | t :: ts' => wf_token t && bool_decide (t <> [fwc]) && wf_pattern_tokens ts'
  end.

(** Wildcards stand alone in their token and [>] only in the last one. *)
Definition wf_pattern (subject : bytes) : bool := wf_pattern_tokens (tokens subject).

(** The last token of a literal subject is not empty. *)
Definition closed_literal (lit : bytes) : bool := bool_decide (last (tokens lit) <> Some []).

(** ** Tokens and their concatenation *)

Fixpoint join (ts : list bytes) : bytes :=
  match ts with
  | [] => []
  | [t] => t
  | t :: ts' => t ++ btsep :: join ts'
  end.

Definition no_sep (t : bytes) : Prop := btsep ∉ t.

Ltac solve_no_sep :=
  unfold no_sep in *;
  rewrite ?elem_of_app, ?list_elem_of_singleton, ?elem_of_cons, ?elem_of_nil in *;
  naive_solver.

Lemma join_cons t ts : ts <> [] -> join (t :: ts) = t ++ btsep :: join ts.
Proof. by destruct ts. Qed.

Lemma tokens_loop_ne cur s : tokens_loop cur s <> [].
Proof. revert cur. induction s; intros; simpl; [done|]. by case_decide. Qed.

Lemma tokens_ne s : tokens s <> [].
Proof. apply tokens_loop_ne. Qed.

Lemma join_tokens_loop s : forall cur, join (tokens_loop cur s) = cur ++ s.
Proof.
  induction s as [|b s IH]; intros cur; simpl; [by rewrite app_nil_r|].
  case_decide; subst.
  - rewrite join_cons by apply tokens_loop_ne. by rewrite IH.
  - rewrite IH. by rewrite <- app_assoc.
Qed.

Lemma join_tokens s : join (tokens s) = s.
Proof. apply join_tokens_loop. Qed.

Lemma tokens_loop_no_sep s : forall cur, no_sep cur -> Forall no_sep (tokens_loop cur s).
Proof.
  induction s as [|b s IH]; intros cur Hc; simpl; [by repeat constructor|].
  case_decide; subst.
  - constructor; [done|]. apply IH. solve_no_sep.
  - apply IH. solve_no_sep.
Qed.

Lemma tokens_no_sep s : Forall no_sep (tokens s).
Proof. apply tokens_loop_no_sep. solve_no_sep. Qed.

Lemma tokens_loop_app t s : forall cur, no_sep t ->
  tokens_loop cur (t ++ s) = tokens_loop (cur ++ t) s.
Proof.
  induction t as [|b t IH]; intros cur Ht; simpl; [by rewrite app_nil_r|].
  rewrite decide_False by solve_no_sep.
  rewrite IH by solve_no_sep. by rewrite <- app_assoc.
Qed.

Lemma tokens_join ts : ts <> [] -> Forall no_sep ts -> tokens (join ts) = ts.
Proof.
  intros Hne Hf. induction Hf as [|t ts Ht Hf IH]; [done|].
  destruct ts as [|u ts]; unfold tokens in *.
  - simpl. rewrite <- (app_nil_r t) at 1. by rewrite tokens_loop_app.
  - rewrite join_cons by done. rewrite tokens_loop_app by done. simpl.
    f_equal. by apply IH.
Qed.

Lemma tokens_inj s s' : tokens s = tokens s' -> s = s'.
Proof. intros E. by rewrite <- (join_tokens s), <- (join_tokens s'), E. Qed.

(** ** [matchLiteral] on suffixes *)

(** [matchLiteral] reads [literal[li:]] only: the same routine on suffixes. *)
Fixpoint skip_bytes (rest : bytes) : bytes :=
  match rest with
  | [] => []
  | x :: rest' => if decide (x = btsep) then rest else skip_bytes rest'
  end.

Fixpoint match_suffix (subject rest : bytes) : bool :=
  match subject with
  | [] => bool_decide (rest = [])
  | b :: subject' =>
      match rest with
      | [] => false
      | x :: rest' =>
          if decide (b = pwc) then match_suffix subject' (skip_bytes rest)
          else if decide (b = fwc) then true
          else if decide (b = x) then match_suffix subject' rest' else false
      end
  end.

Lemma skip_token_bytes rest : forall pre,
  let li := Z.of_nat (length pre) in
  exists k, (skip_token rest li + 1)%Z = Z.of_nat k /\ k <= length (pre ++ rest) /\
            drop k (pre ++ rest) = skip_bytes rest.
Proof.
  induction rest as [|x rest IH]; intros pre li; simpl.
  - exists (length pre). rewrite app_nil_r, drop_all. split_and!; [lia|done|done].
  - case_decide.
    + exists (length pre). rewrite drop_app_length, length_app. split_and!; [lia|lia|done].
    + destruct (IH (pre ++ [x])) as (k & Hk & Hle & Hd).
      rewrite <- app_assoc in Hd, Hle. exists k. split_and!; [|done|done].
      rewrite <- Hk. rewrite length_app, Nat2Z.inj_add. done.
Qed.

Lemma matchLiteral_loop_suffix literal subject : forall li,
  li <= length literal ->
  matchLiteral_loop literal (Z.of_nat li) subject = match_suffix subject (drop li literal).
Proof.
  induction subject as [|b subject IH]; intros li Hli; simpl.
  - case_bool_decide as E; [apply Z.leb_le|apply Z.leb_gt];
      apply (f_equal length) in E || (assert (length (drop li literal) <> 0)
        by (by intros ?%nil_length_inv)); rewrite length_drop in *; simpl in *; lia.
  - destruct (Z.leb_spec (Z.of_nat (length literal)) (Z.of_nat li)).
    { by rewrite drop_ge by lia. }
    rewrite Nat2Z.id. destruct (drop li literal) as [|x rest] eqn:E.
    { apply (f_equal length) in E. rewrite length_drop in E. simpl in E. lia. }
    assert (Hx : literal !! li = Some x).
    { rewrite <- (Nat.add_0_r li), <- lookup_drop, E. done. }
    rewrite Hx. case_decide.
    + pose proof (skip_token_bytes (x :: rest) (take li literal)) as (k & Hk & Hle & Hd).
      rewrite length_take_le in Hk by lia.
      rewrite <- E, take_drop in Hd, Hle. rewrite Hk, IH by done. by rewrite Hd, E.
    + case_decide; [done|]. case_decide; [|done].
      replace (Z.of_nat li + 1)%Z with (Z.of_nat (S li)) by lia.
      rewrite IH by lia. f_equal.
      erewrite drop_S in E by exact Hx. by inversion E.
Qed.

Lemma matchLiteral_suffix literal subject :
  matchLiteral literal subject = match_suffix subject literal.
Proof.
  unfold matchLiteral. change 0%Z with (Z.of_nat 0).
  rewrite matchLiteral_loop_suffix by lia. done.
Qed.

Lemma skip_bytes_token x rest : no_sep x -> skip_bytes (x ++ btsep :: rest) = btsep :: rest.
Proof.
  induction x as [|b x IH]; simpl; intros Hx; [done|].
  rewrite decide_False by solve_no_sep. apply IH. solve_no_sep.
Qed.

Lemma skip_bytes_all x : no_sep x -> skip_bytes x = [].
Proof.
  induction x as [|b x IH]; simpl; intros Hx; [done|].
  rewrite decide_False by solve_no_sep. apply IH. solve_no_sep.
Qed.

(** A run of plain bytes of the pattern is compared byte by byte. *)
Lemma match_suffix_plain t s rest : forallb plain_byte t = true ->
  match_suffix (t ++ s) rest =
  bool_decide (take (length t) rest = t) &&
  (match_suffix s (drop (length t) rest)).
Proof.
  revert rest. induction t as [|b t IH]; intros rest Ht; [done|].
  simpl in Ht. apply andb_prop in Ht as [Hb Ht].
  unfold plain_byte in Hb. apply bool_decide_eq_true_1 in Hb as [Hp Hf].
  destruct rest as [|x rest]; simpl; [done|].
  rewrite !decide_False by done. case_decide; subst.
  - rewrite IH by done. f_equal. apply bool_decide_ext. split; congruence.
  - rewrite bool_decide_eq_false_2; [done|congruence].
Qed.

Lemma take_token_eq t x rest : no_sep t -> no_sep x ->
  take (length t) (x ++ btsep :: rest) = t ->
  (t = x \/ exists y, x = t ++ y /\ y <> []).
Proof.
  revert x. induction t as [|b t IH]; intros x Ht Hx E.
  - destruct x; [by left|right; by eexists].
  - destruct x as [|b' x]; simpl in E; [simplify_eq; solve_no_sep|].
    injection E as -> E. destruct (IH x) as [->|(y & -> & Hy)]; [solve_no_sep..|done|by left|].
    right. by exists y.
Qed.

Lemma match_suffix_plain_all t rest : forallb plain_byte t = true ->
  match_suffix t rest = bool_decide (rest = t).
Proof.
  intros Ht. rewrite <- (app_nil_r t) at 1. rewrite match_suffix_plain by done. simpl.
  rewrite <- bool_decide_and. apply bool_decide_ext. split.
  - intros [E1 E2]. by rewrite <- (take_drop (length t) rest), E1, E2, app_nil_r.
  - intros ->. by rewrite take_ge, drop_ge by lia.
Qed.

Lemma match_suffix_pwc s rest : rest <> [] ->
  match_suffix (pwc :: s) rest = match_suffix s (skip_bytes rest).
Proof. by destruct rest. Qed.

Lemma match_suffix_sep s rest :
  match_suffix (btsep :: s) (btsep :: rest) = match_suffix s rest.
Proof. done. Qed.

(** [key_of] on a well-formed token. *)
Variant wf_token_view (t : bytes) : Prop :=
| wf_pwc : t = [pwc] -> wf_token_view t
| wf_fwc : t = [fwc] -> wf_token_view t
| wf_lit : t <> [] -> forallb plain_byte t = true -> key_of t = KLit t -> wf_token_view t.

Lemma wf_tokenP t : wf_token t = true -> wf_token_view t.
Proof.
  unfold wf_token. rewrite !orb_true_iff, andb_true_iff, !bool_decide_eq_true.
  intros [[?|?]|[Hne Hp]]; [by constructor 1|by constructor 2|constructor 3; try done].
  destruct t as [|b t]; [done|]. simpl in *.
  apply andb_prop in Hp as [Hb _]. apply bool_decide_eq_true_1 in Hb as [??].
  by rewrite !decide_False.
Qed.

(** The two tokens that start a literal subject line up with a plain token. *)
Lemma match_suffix_lit_token t pat lit :
  forallb plain_byte t = true -> no_sep t -> lit <> [] -> Forall no_sep lit ->
  match_suffix (t ++ btsep :: pat) (join lit) =
  match lit with
  | x :: (_ :: _) as lit' => bool_decide (t = x) && match_suffix pat (join (tail lit))
  | _ => false
  end.
Proof.
  intros Hp Ht Hne Hf. rewrite match_suffix_plain by done.
  destruct Hf as [|x lit Hx Hf]; [done|]. destruct lit as [|y lit].
  - simpl. case_bool_decide as E; [|done]. simpl.
    destruct (drop (length t) x) as [|z r] eqn:Ed; [done|]. simpl.
    assert (Hz : z ∈ x).
    { rewrite <- (take_drop (length t) x), Ed. set_solver. }
    rewrite decide_False; [done|]. intros <-. by apply Hx.
  - rewrite join_cons by done. simpl tail. generalize (join (y :: lit)); intros r.
    case_bool_decide as E; simpl.
    + destruct (take_token_eq _ _ _ Ht Hx E) as [->|(z & -> & Hz)].
      * rewrite bool_decide_eq_true_2 by done. by rewrite drop_app_length.
      * rewrite bool_decide_eq_false_2.
        2:{ intros E'%(f_equal length). rewrite length_app in E'.
            destruct z; simpl in E'; [done|lia]. }
        rewrite <- app_assoc, drop_app_length. destruct z as [|b z]; [done|]. simpl.
        rewrite decide_False; [done|]. intros <-. solve_no_sep.
    + rewrite bool_decide_eq_false_2; [done|]. intros ->.
      by rewrite take_app_length in E.
Qed.

Lemma match_suffix_keys pat : forall lit,
  pat <> [] -> wf_pattern_tokens pat = true -> Forall no_sep pat ->
  lit <> [] -> Forall no_sep lit -> last lit <> Some [] ->
  match_suffix (join pat) (join lit) = match_keys (key_of <$> pat) lit.
Proof.
  induction pat as [|t pat IH]; intros lit Hpne Hwf Hsep Hlne Hlsep Hlast; [done|].
  apply Forall_cons in Hsep as [Ht Hsep].
  assert (Hj : join lit <> []).
  { destruct lit as [|x [|y lit]]; [done|naive_solver|].
    rewrite join_cons by done. by destruct x. }
  destruct pat as [|u pat].
  - simpl in Hwf |- *. apply wf_tokenP in Hwf as [->| -> |Hne Hp Hk].
    + rewrite match_suffix_pwc by done. destruct lit as [|x [|y lit]]; [done| |].
      * simpl (join [x]). by rewrite skip_bytes_all by (by inversion Hlsep).
      * rewrite join_cons by done. by rewrite skip_bytes_token by (by inversion Hlsep).
    + simpl. destruct lit as [|x lit]; [done|]. by destruct (join (x :: lit)).
    + rewrite Hk, match_suffix_plain_all by done. destruct lit as [|x [|y lit]]; [done| |]; simpl.
      * rewrite andb_true_r. apply bool_decide_ext. split; congruence.
      * rewrite andb_false_r. apply bool_decide_eq_false_2. intros E.
        assert (btsep ∈ x ++ btsep :: join (y :: lit)) by set_solver.
        simpl in *. rewrite E in *. by apply Ht.
  - rewrite join_cons by done.
    change (wf_token t && bool_decide (t <> [fwc]) && wf_pattern_tokens (u :: pat) = true) in Hwf.
    rewrite !andb_true_iff, bool_decide_eq_true in Hwf. destruct Hwf as [[Hwf Hnf] Hwfp].
    apply wf_tokenP in Hwf as [->| -> |Hne Hp Hk]; [|done|].
    + rewrite fmap_cons. change ([pwc] ++ ?r) with (pwc :: r).
      rewrite match_suffix_pwc by done.
      destruct lit as [|x [|y lit]]; [done| |].
      * simpl (join [x]). rewrite skip_bytes_all by (by inversion Hlsep).
        simpl. by destruct (key_of u).
      * rewrite (join_cons x) by done.
        rewrite skip_bytes_token, match_suffix_sep by (by inversion Hlsep).
        rewrite (IH (y :: lit)); [done|done|done|done|done|by inversion Hlsep|done].
    + rewrite match_suffix_lit_token by done. rewrite fmap_cons, Hk.
      destruct lit as [|x [|y lit]]; [done| |].
      * simpl. destruct (key_of u); by rewrite andb_false_r.
      * change (tail (x :: y :: lit)) with (y :: lit).
        rewrite (IH (y :: lit)); [done|done|done|done|done|by inversion Hlsep|done].
Qed.

(** The byte-level test of the cache is the token-level meaning. *)
Lemma matchLiteral_matches literal subject :
  wf_pattern subject = true -> closed_literal literal = true ->
  matchLiteral literal subject = subject_matches subject literal.
Proof.
  unfold wf_pattern, closed_literal, subject_matches. intros Hw Hc%bool_decide_eq_true_1.
  rewrite matchLiteral_suffix.
  rewrite <- (join_tokens subject) at 1. rewrite <- (join_tokens literal) at 1.
  apply match_suffix_keys; auto using tokens_ne, tokens_no_sep.
Qed.

(** ** Validity of subjects *)

Lemma length_1_head (t : bytes) b : ¬ 1 < length t -> head t = Some b <-> t = [b].
Proof. destruct t as [|x [|y t]]; simpl; intros ?; [naive_solver|naive_solver|lia]. Qed.

Lemma IsValidLiteralSubject_loop_spec ts :
  IsValidLiteralSubject_loop ts = true <->
  Forall (fun t => t <> [] /\ t <> [pwc] /\ t <> [fwc]) ts.
Proof.
  induction ts as [|t ts IH]; simpl; [split; [constructor|done]|].
  rewrite Forall_cons, <- IH.
  destruct (decide (length t = 0)) as [E|E].
  { apply nil_length_inv in E as ->. naive_solver. }
  assert (t <> []) by (by intros ->).
  destruct (decide (1 < length t)) as [E1|E1].
  { split; [|naive_solver]. intros ?. split; [|done].
    split_and!; [done|intros ->..]; simpl in E1; lia. }
  case_decide as Hw; rewrite !length_1_head in Hw by done; naive_solver.
Qed.

(** A lone [>] is only ever the last token. *)
Fixpoint fwc_last (ts : list bytes) : Prop :=
  match ts with
  | [] => True
  | t :: ts' => (t = [fwc] -> ts' = []) /\ fwc_last ts'
  end.

Lemma IsValidSubject_loop_spec ts : forall sfwc,
  IsValidSubject_loop sfwc ts = true <->
  (sfwc = true -> ts = []) /\ Forall (.≠ []) ts /\ fwc_last ts.
Proof.
  induction ts as [|t ts IH]; intros sfwc; simpl.
  { split; [intros _; split_and!; [done|constructor|done]|done]. }
  rewrite Forall_cons.
  destruct sfwc; [rewrite orb_true_r; naive_solver|].
  rewrite orb_false_r. case_bool_decide as E.
  { apply nil_length_inv in E as ->. naive_solver. }
  assert (t <> []) by (by intros ->).
  destruct (decide (1 < length t)) as [E1|E1].
  { rewrite IH. assert (t <> [fwc]) by (intros ->; simpl in E1; lia). naive_solver. }
  case_decide as Hw; rewrite length_1_head in Hw by done; rewrite IH; naive_solver.
Qed.

(** ** Properties *)

(** The byte-level [matchLiteral] of the result cache decides the
    token-level meaning of the pattern: for a pattern whose wildcards stand
    alone in their tokens (with [>] last) and a literal subject whose last
    token is not empty, it returns true exactly when the pattern covers the
    subject. *)
Theorem matchLiteral_correct (literal subject : bytes) :
  wf_pattern subject = true -> closed_literal literal = true ->
  matchLiteral literal subject = subject_matches subject literal.
Proof. apply matchLiteral_matches. Qed.

Lemma matchLiteral_correct_witness :
  matchLiteral (bs "foo.bar.baz") (bs "foo.*.>") = true /\
  matchLiteral (bs "foo.bar") (bs "foo.*.>") = false.
Proof.
  split; rewrite matchLiteral_correct by (vm_compute; reflexivity);
    vm_compute; reflexivity.
Defined.

(** [IsValidSubject] accepts exactly the subjects without an empty token
    in which a lone [>] is only ever the last token, and
    [IsValidLiteralSubject] exactly those without an empty token and without
    a token that is a lone wildcard. *)
Theorem IsValidSubject_spec (subject : bytes) :
  (IsValidSubject subject = true <->
     Forall (.≠ []) (tokens subject) /\ fwc_last (tokens subject)) /\
  (IsValidLiteralSubject subject = true <->
     Forall (fun t => t <> [] /\ t <> [pwc] /\ t <> [fwc]) (tokens subject)).
Proof.
  split; [|apply IsValidLiteralSubject_loop_spec].
  unfold IsValidSubject. case_decide as E; [|rewrite IsValidSubject_loop_spec; naive_solver].
  subst. split; [done|]. intros [H _]. by apply Forall_inv in H.
Qed.
