(* ===== verification/Sublist.v ===== *)
(** * Sublist: the subscription trie and its result cache

    [src/server/sublist.go], whole but for the JSON statistics.  Levels and
    nodes are the mutually recursive [level] and [node]; the [nodes] map of a
    level is a [gmap].  A plain subscription list ([psubs]) is never shared
    outside its node, so it is a list.  The queue groups are not: [Match]
    puts the slice header of a node's group into its result, so the backing
    arrays live in an explicit [heap], and [append], truncation and removal
    write through it as Go does.  A dereference of a nil subscription is the
    outcome [None] (a run-time panic) of the operation.

    Every exported operation runs under the lock of the sublist, so each is
    one atomic step.  Two things the Go specification leaves open are
    parameters: the capacity [append] gives a new array ([growcap]) and the
    entry that a map iteration meets first when the cache is full ([ev]). *)

From S2P Require Import Prelude Subject.

(** ** Data *)

(** A [*subscription]: [sub_ptr] is its address, the other fields are those
    that are never assigned again once it is built ([sub_client] is the
    connection id of [sub.client], [None] for nil).  The counters [nm] and
    [max] are not read by this component. *)
Record subscription := Subscription {
  sub_ptr : N;
  sub_client : option N;
  sub_subject : bytes;
  sub_queue : option bytes;
  sub_sid : bytes;
}.

#[export] Instance subscription_eq_dec : EqDecision subscription.
Proof. solve_decision. Defined.

(** Backing arrays of [[]*subscription] slices; [None] is a nil pointer. *)
Record heap := Heap {
  h_next : N;
  h_arrs : gmap N (list (option subscription));
}.

(** A slice header; every slice of this component starts at index 0 of its
    array, so its capacity is the length of the array. *)
Record slice := Slice { s_arr : N; s_len : nat }.

Inductive node := Node (n_next : option level) (n_psubs : list subscription) (n_qsubs : list slice)
with level := Level (l_nodes : gmap bytes node) (l_pwc l_fwc : option node).

Definition n_next (n : node) := let 'Node x _ _ := n in x.
Definition n_psubs (n : node) := let 'Node _ x _ := n in x.
Definition n_qsubs (n : node) := let 'Node _ _ x := n in x.
Definition l_nodes (l : level) := let 'Level x _ _ := l in x.
Definition l_pwc (l : level) := let 'Level _ x _ := l in x.
Definition l_fwc (l : level) := let 'Level _ _ x := l in x.

Record SublistResult := Result { r_psubs : list subscription; r_qsubs : list slice }.

Record Sublist := MkSublist {
  sl_heap : heap;
  sl_genid : Z;      (* uint64 *)
  sl_matches : Z;    (* uint64 *)
  sl_cacheHits : Z;  (* uint64 *)
  sl_inserts : Z;    (* uint64 *)
  sl_removes : Z;    (* uint64 *)
  sl_cache : gmap bytes SublistResult;
  sl_root : level;
  sl_count : Z;      (* uint32 *)
}.

Inductive sl_error := ErrInvalidSubject | ErrNotFound.

#[export] Instance sl_error_eq_dec : EqDecision sl_error.
Proof. solve_decision. Defined.

Definition slCacheMax : nat := 1024.

Definition newNode : node := Node None [] [].
Definition newLevel : level := Level ∅ None None.
Definition NewSublist : Sublist :=
  MkSublist (Heap 0 ∅) 0 0 0 0 0 ∅ newLevel 0.

(** The node that [switch t[0]] selects, and the three assignments to it. *)
Definition get_node (l : level) (k : tkey) : option node :=
  match k with
  | KPwc => l_pwc l
  | KFwc => l_fwc l
  | KLit t => l_nodes l !! t
  end.

Definition set_node (l : level) (k : tkey) (n : node) : level :=
  let 'Level ns p f := l in
  match k with
  | KPwc => Level ns (Some n) f
  | KFwc => Level ns p (Some n)
  | KLit t => Level (<[t:=n]> ns) p f
  end.

Definition set_next (n : node) (l : option level) : node := Node l (n_psubs n) (n_qsubs n).

Section operations.
Context (growcap : nat -> nat -> nat).

(** ** Slices of the Go heap *)

Definition arr_of (h : heap) (s : slice) : list (option subscription) :=
  default [] (h_arrs h !! s_arr s).

(** The elements a slice shows. *)
Definition elems (h : heap) (s : slice) : list (option subscription) :=
  take (s_len s) (arr_of h s).

Definition alloc (h : heap) (a : list (option subscription)) (len : nat) : heap * slice :=
  (Heap (h_next h + 1) (<[h_next h := a]> (h_arrs h)), Slice (h_next h) len).

Definition write (h : heap) (s : slice) (a : list (option subscription)) : heap :=
  Heap (h_next h) (<[s_arr s := a]> (h_arrs h)).

(** [append(s, xs...)]: in place when the capacity allows it. *)
Definition append (h : heap) (s : slice) (xs : list (option subscription)) : heap * slice :=
  let a := arr_of h s in
  let need := s_len s + length xs in
  if decide (need <= length a)
  then (write h s (take (s_len s) a ++ xs ++ drop need a), Slice (s_arr s) need)
  else alloc h (take (s_len s) a ++ xs ++ replicate (growcap (length a) need - need) None) need.

(** [append([]*subscription(nil), xs...)]. *)
Definition append_nil (h : heap) (xs : list (option subscription)) : heap * slice :=
  alloc h (xs ++ replicate (growcap 0 (length xs) - length xs) None) (length xs).

(** [s[0]] dereferenced: [None] is the panic on a nil pointer. *)
Definition first_sub (h : heap) (s : slice) : option subscription := mjoin (elems h s !! 0).

(** [bytes.Equal(sub.queue, qr[0].queue)]. *)
Definition queue_equal (a b : option bytes) : bool := bool_decide (default [] a = default [] b).

(** ** Queue groups *)

(** The loop of [findQSliceForSub] from index [i]. *)
Fixpoint find_qslice (h : heap) (q : option bytes) (i : nat) (qsl : list slice)
  : option (option nat) :=
  match qsl with
  | [] => Some None
  | qr :: qsl' =>
      if decide (0 < s_len qr) then
        first ← first_sub h qr;
        if queue_equal q (sub_queue first) then Some (Some i)
        else find_qslice h q (S i) qsl'
      else find_qslice h q (S i) qsl'
  end.

(** [None] inside is the index -1. *)
Definition findQSliceForSub (h : heap) (sub : subscription) (qsl : list slice)
  : option (option nat) :=
  match sub_queue sub with
  | None => Some None
  | Some _ => find_qslice h (sub_queue sub) 0 qsl
  end.

(** The queue branch that [Insert] and [addToCache] share. *)
Definition add_qsub (h : heap) (sub : subscription) (qsubs : list slice)
  : option (heap * list slice) :=
  i ← findQSliceForSub h sub qsubs;
  match i with
  | Some i =>
      qr ← qsubs !! i;
      let '(h', qr') := append h qr [Some sub] in
      Some (h', <[i := qr']> qsubs)
  | None =>
      let '(h', qr') := alloc h [Some sub] 1 in
      Some (h', qsubs ++ [qr'])
  end.

(** ** Insert *)

(** The end of [Insert]: the subscription is added to its node. *)
Definition add_to_node (h : heap) (sub : subscription) (n : node) : option (heap * node) :=
  match sub_queue sub with
  | None => Some (h, Node (n_next n) (n_psubs n ++ [sub]) (n_qsubs n))
  | Some _ =>
      '(h', qs) ← add_qsub h sub (n_qsubs n);
      Some (h', Node (n_next n) (n_psubs n) qs)
  end.

(** The token loop of [Insert].  An error leaves the nodes made so far. *)
Fixpoint insert_level (sub : subscription) (h : heap) (l : level) (sfwc : bool)
    (toks : list bytes) : option (heap * level * option sl_error) :=
  match toks with
  | [] => Some (h, l, None)
  | t :: rest =>
      if bool_decide (length t = 0) || sfwc then Some (h, l, Some ErrInvalidSubject)
      else
        let k := key_of t in
        let n := default newNode (get_node l k) in
        let next := default newLevel (n_next n) in
        let n := set_next n (Some next) in
        match rest with
        | [] => '(h', n') ← add_to_node h sub n; Some (h', set_node l k n', None)
        | _ =>
            '(h', next', e) ← insert_level sub h next (bool_decide (k = KFwc)) rest;
            Some (h', set_node l k (set_next n (Some next')), e)
        end
  end.

(** [copyResult]'s loop over the queue groups. *)
Fixpoint copy_qsubs (h : heap) (qs : list slice) : heap * list slice :=
  match qs with
  | [] => (h, [])
  | qr :: qs' =>
      let '(h1, nqr) := append_nil h (elems h qr) in
      let '(h2, rest) := copy_qsubs h1 qs' in (h2, nqr :: rest)
  end.

Definition copyResult (h : heap) (r : SublistResult) : heap * SublistResult :=
  let '(h', qs) := copy_qsubs h (r_qsubs r) in (h', Result (r_psubs r) qs).

(** The body of [addToCache]'s loop on one entry. *)
Definition add_to_result (h : heap) (sub : subscription) (r : SublistResult)
  : option (heap * SublistResult) :=
  let '(h, nr) := copyResult h r in
  match sub_queue sub with
  | None => Some (h, Result (r_psubs nr ++ [sub]) (r_qsubs nr))
  | Some _ => '(h', qs) ← add_qsub h sub (r_qsubs nr); Some (h', Result (r_psubs nr) qs)
  end.

Fixpoint addToCache_loop (subject : bytes) (sub : subscription) (h : heap)
    (cache : gmap bytes SublistResult) (entries : list (bytes * SublistResult))
  : option (heap * gmap bytes SublistResult) :=
  match entries with
  | [] => Some (h, cache)
  | (k, r) :: entries' =>
      if matchLiteral k subject then
        '(h', nr) ← add_to_result h sub r;
        addToCache_loop subject sub h' (<[k := nr]> cache) entries'
      else addToCache_loop subject sub h cache entries'
  end.

Definition addToCache (subject : bytes) (sub : subscription) (h : heap)
    (cache : gmap bytes SublistResult) : option (heap * gmap bytes SublistResult) :=
  addToCache_loop subject sub h cache (map_to_list cache).

Definition Insert (s : Sublist) (sub : subscription) : option (Sublist * option sl_error) :=
  let subject := sub_subject sub in
  '(h, root, e) ← insert_level sub (sl_heap s) (sl_root s) false (tokens subject);
  match e with
  | Some e =>
      Some (MkSublist h (sl_genid s) (sl_matches s) (sl_cacheHits s) (sl_inserts s)
              (sl_removes s) (sl_cache s) root (sl_count s), Some e)
  | None =>
      '(h, cache) ← addToCache subject sub h (sl_cache s);
      Some (MkSublist h (wrapu64 (sl_genid s + 1)) (sl_matches s) (sl_cacheHits s)
              (wrapu64 (sl_inserts s + 1)) (sl_removes s) cache root
              (wrapu32 (sl_count s + 1)), None)
  end.

(** ** Match *)

(** The loop of [addNodeToResults] over the queue groups of a node. *)
Fixpoint add_qsubs_to_results (h : heap) (nqs rqs : list slice) : option (heap * list slice) :=
  match nqs with
  | [] => Some (h, rqs)
  | qr :: nqs' =>
      if decide (s_len qr = 0) then add_qsubs_to_results h nqs' rqs
      else
        first ← first_sub h qr;
        i ← findQSliceForSub h first rqs;
        match i with
        | Some i =>
            rq ← rqs !! i;
            let '(h', rq') := append h rq (elems h qr) in
            add_qsubs_to_results h' nqs' (<[i := rq']> rqs)
        | None => add_qsubs_to_results h nqs' (rqs ++ [qr])
        end
  end.

Definition addNodeToResults (h : heap) (n : node) (results : SublistResult)
  : option (heap * SublistResult) :=
  '(h', qs) ← add_qsubs_to_results h (n_qsubs n) (r_qsubs results);
  Some (h', Result (r_psubs results ++ n_psubs n) qs).

Definition addNodeToResults_if (h : heap) (n : option node) (results : SublistResult)
  : option (heap * SublistResult) :=
  match n with Some n => addNodeToResults h n results | None => Some (h, results) end.

(** The loop of [matchLevel] over the remaining tokens, with its variables
    [l], [n] and [pwc]; the recursive call starts with both nil. *)
Fixpoint matchLevel_loop (toks : list bytes) (l : option level) (n pwc : option node)
    (h : heap) (results : SublistResult) : option (heap * SublistResult) :=
  match toks with
  | [] =>
      '(h, results) ← addNodeToResults_if h n results;
      addNodeToResults_if h pwc results
  | t :: rest =>
      match l with
      | None => Some (h, results)
      | Some l =>
          '(h, results) ← addNodeToResults_if h (l_fwc l) results;
          let pwc := l_pwc l in
          '(h, results) ← match pwc with
            | Some p => matchLevel_loop rest (n_next p) None None h results
            | None => Some (h, results)
            end;
          let n := l_nodes l !! t in
          matchLevel_loop rest (n ≫= n_next) n pwc h results
      end
  end.

Definition matchLevel (l : option level) (toks : list bytes) (h : heap) (results : SublistResult)
  : option (heap * SublistResult) := matchLevel_loop toks l None None h results.

(** [for k := range s.cache { delete(s.cache, k); break }]: the iteration
    starts at an entry the run-time chooses. *)
Definition evict_one (ev : nat) (cache : gmap bytes SublistResult) : gmap bytes SublistResult :=
  match map_to_list cache !! (ev mod size cache) with
  | Some (k, _) => delete k cache
  | None => cache
  end.

Definition Match (ev : nat) (s : Sublist) (subject : bytes) : option (Sublist * SublistResult) :=
  let matches := wrapu64 (sl_matches s + 1) in
  match sl_cache s !! subject with
  | Some rc =>
      Some (MkSublist (sl_heap s) (sl_genid s) matches (wrapu64 (sl_cacheHits s + 1))
              (sl_inserts s) (sl_removes s) (sl_cache s) (sl_root s) (sl_count s), rc)
  | None =>
      '(h, result) ← matchLevel (Some (sl_root s)) (tokens subject) (sl_heap s) (Result [] []);
      let cache := <[subject := result]> (sl_cache s) in
      let cache := if decide (slCacheMax < size cache) then evict_one ev cache else cache in
      Some (MkSublist h (sl_genid s) matches (sl_cacheHits s) (sl_inserts s)
              (sl_removes s) cache (sl_root s) (sl_count s), result)
  end.

(** ** Remove *)

(** The first index at which the slice holds the pointer [sub]. *)
Definition index_of {A} `{EqDecision A} (x : A) (l : list A) : option nat :=
  fst <$> list_find (x =.) l.

(** [removeSubFromList] on a list that no one else references:
    [shrinkAsNeeded] keeps the elements. *)
Definition removeSubFromList (sub : subscription) (sl : list subscription)
  : list subscription * bool :=
  match index_of sub sl with
  | Some i => (swap_remove i sl, true)
  | None => (sl, false)
  end.

(** [shrinkAsNeeded]: the test [float32(csl-lsl)/float32(csl) > 0.50] is exact
    for the capacities (below 2^24) that [float32] represents. *)
Definition shrinkAsNeeded (h : heap) (s : slice) : heap * slice :=
  let csl := length (arr_of h s) in
  if decide (csl <= 8) then (h, s)
  else if decide (csl < 2 * (csl - s_len s)) then append_nil h (elems h s)
  else (h, s).

(** [removeSubFromList] on a queue group: the writes go to the array. *)
Definition removeSubFromSlice (h : heap) (sub : subscription) (s : slice)
  : heap * slice * bool :=
  match index_of (Some sub) (elems h s) with
  | Some i =>
      let a := arr_of h s in
      let last := s_len s - 1 in
      let a := <[last := None]> (<[i := mjoin (a !! last)]> a) in
      let '(h', s') := shrinkAsNeeded (write h s a) (Slice (s_arr s) last) in
      (h', s', true)
  | None => (h, s, false)
  end.

Definition removeFromNode (h : heap) (n : node) (sub : subscription)
  : option (heap * node * bool) :=
  match sub_queue sub with
  | None =>
      let '(ps, found) := removeSubFromList sub (n_psubs n) in
      Some (h, Node (n_next n) ps (n_qsubs n), found)
  | Some _ =>
      i ← findQSliceForSub h sub (n_qsubs n);
      match i with
      | Some i =>
          qr ← n_qsubs n !! i;
          let '(h', qr', found) := removeSubFromSlice h sub qr in
          let qs := <[i := qr']> (n_qsubs n) in
          let qs := if decide (s_len qr' = 0) then swap_remove i qs else qs in
          Some (h', Node (n_next n) (n_psubs n) qs, found)
      | None => Some (h, n, false)
      end
  end.

Definition numNodes (l : level) : nat :=
  size (l_nodes l) + (if l_pwc l then 1 else 0) + (if l_fwc l then 1 else 0).

Definition isEmpty (n : node) : bool :=
  bool_decide (length (n_psubs n) = 0) && bool_decide (length (n_qsubs n) = 0) &&
  match n_next n with
  | None => true
  | Some l => bool_decide (numNodes l = 0)
  end.

(** [l.pruneNode(n, t)]: the pointer comparisons find the field that
    [switch t[0]] read the node from. *)
Definition pruneNode (l : level) (k : tkey) : level :=
  let 'Level ns p f := l in
  match k with
  | KPwc => Level ns None f
  | KFwc => Level ns p None
  | KLit t => Level (delete t ns) p f
  end.

(** One step of the pruning loop, for the node [n] of the level [l]. *)
Definition set_or_prune (l : level) (k : tkey) (n : node) : level :=
  if isEmpty n then pruneNode l k else set_node l k n.

(** The token loop of [Remove], the removal from the last node and, on the
    way back, the pruning loop over [levels].  A level that is nil is only
    met below a node that does not exist. *)
Fixpoint remove_level (sub : subscription) (h : heap) (l : level) (sfwc : bool)
    (toks : list bytes) : option (heap * level * option sl_error) :=
  match toks with
  | [] => Some (h, l, Some ErrNotFound)
  | t :: rest =>
      if bool_decide (length t = 0) || sfwc then Some (h, l, Some ErrInvalidSubject)
      else
        let k := key_of t in
        match rest, get_node l k with
        | [], None => Some (h, l, Some ErrNotFound)
        | [], Some n =>
            '(h', n', found) ← removeFromNode h n sub;
            if found : bool then Some (h', set_or_prune l k n', None)
            else Some (h', set_node l k n', Some ErrNotFound)
        | t' :: _, None =>
            Some (h, l, Some (if bool_decide (length t' = 0) || bool_decide (k = KFwc)
                              then ErrInvalidSubject else ErrNotFound))
        | t' :: _, Some n =>
            match n_next n with
            | None =>
                Some (h, l, Some (if bool_decide (length t' = 0) || bool_decide (k = KFwc)
                                  then ErrInvalidSubject else ErrNotFound))
            | Some next =>
                '(h', next', e) ← remove_level sub h next (bool_decide (k = KFwc)) rest;
                let n' := set_next n (Some next') in
                match e with
                | None => Some (h', set_or_prune l k n', None)
                | Some e => Some (h', set_node l k n', Some e)
                end
            end
        end
  end.

(** [removeFromCache]. *)
Definition removeFromCache (subject : bytes) (cache : gmap bytes SublistResult)
  : gmap bytes SublistResult :=
  filter (fun kr => matchLiteral kr.1 subject = false) cache.

Definition Remove (s : Sublist) (sub : subscription) : option (Sublist * option sl_error) :=
  let subject := sub_subject sub in
  '(h, root, e) ← remove_level sub (sl_heap s) (sl_root s) false (tokens subject);
  match e with
  | Some e =>
      Some (MkSublist h (sl_genid s) (sl_matches s) (sl_cacheHits s) (sl_inserts s)
              (sl_removes s) (sl_cache s) root (sl_count s), Some e)
  | None =>
      Some (MkSublist h (wrapu64 (sl_genid s + 1)) (sl_matches s) (sl_cacheHits s)
              (sl_inserts s) (wrapu64 (sl_removes s + 1))
              (removeFromCache subject (sl_cache s)) root (wrapu32 (sl_count s - 1)), None)
  end.

End operations.

(** ** Accounting *)

Definition Count (s : Sublist) : Z := sl_count s.
Definition CacheCount (s : Sublist) : nat := size (sl_cache s).

(** [visitLevel], through the nodes of the level; a node without a next
    level has the depth of its parent. *)
Fixpoint visitLevel (l : level) (depth : nat) : nat :=
  let 'Level ns p f := l in
  if decide (size ns + (if p then 1 else 0) + (if f then 1 else 0) = 0) then depth
  else
    let depth := S depth in
    let visit_next n := match n with
                        | Node (Some l') _ _ => visitLevel l' depth
                        | Node None _ _ => depth
                        end in
    let maxDepth := map_fold (fun _ n m => max m (visit_next n)) depth ns in
    let maxDepth := match p with Some n => max maxDepth (visit_next n) | None => maxDepth end in
    match f with Some n => max maxDepth (visit_next n) | None => maxDepth end.

Definition numLevels (s : Sublist) : nat := visitLevel (sl_root s) 0.

(** The growth of the Go run-time for pointer slices of this size: at least
    what is needed, and at least double the old capacity. *)
Definition go_growcap (cap need : nat) : nat := max need (2 * cap).

(** ** The trie as a function of paths *)

(** A list that the nodes carry: their plain subscriptions or their queue
    groups.  A fresh node and a node that is pruned carry none. *)
Class NodeField {A : Type} (f : node -> list A) : Prop := {
  nf_new : f newNode = [];
  nf_empty : forall n, isEmpty n = true -> f n = [];
  nf_next : forall n l, f (set_next n l) = f n;
}.

Lemma isEmpty_spec n : isEmpty n = true ->
  n_psubs n = [] /\ n_qsubs n = [] /\ from_option (fun l => numNodes l = 0) True (n_next n).
Proof.
  unfold isEmpty. rewrite !andb_true_iff, !bool_decide_eq_true.
  intros [[Hp%nil_length_inv Hq%nil_length_inv] Hn]. split_and!; [done..|].
  destruct (n_next n); simpl; [by apply bool_decide_eq_true_1 in Hn|done].
Qed.

#[export] Instance psubs_field : NodeField n_psubs.
Proof. split; [done| |by intros []]. by intros n (? & _)%isEmpty_spec. Qed.

#[export] Instance qsubs_field : NodeField n_qsubs.
Proof. split; [done| |by intros []]. by intros n (_ & ? & _)%isEmpty_spec. Qed.

Section paths.
Context {A : Type} (f : node -> list A).

(** What the node carries that a path of keys leads to. *)
Fixpoint at_path (ks : list tkey) (l : level) : list A :=
  match ks with
  | [] => []
  | k :: ks' =>
      match get_node l k with
      | None => []
      | Some n =>
          match ks' with
          | [] => f n
          | _ => match n_next n with Some l' => at_path ks' l' | None => [] end
          end
      end
  end.

(** The same below a node. *)
Definition below (ks : list tkey) (n : node) : list A :=
  match ks with
  | [] => f n
  | _ => match n_next n with Some l' => at_path ks l' | None => [] end
  end.

Lemma at_path_cons k ks l : at_path (k :: ks) l = from_option (below ks) [] (get_node l k).
Proof. simpl. destruct (get_node l k); [|done]. by destruct ks. Qed.

Lemma below_cons k ks n : below (k :: ks) n = from_option (at_path (k :: ks)) [] (n_next n).
Proof. done. Qed.
End paths.

Lemma get_set_node l k n k' :
  get_node (set_node l k n) k' = if decide (k = k') then Some n else get_node l k'.
Proof.
  destruct l as [ns p f], k as [t| |], k' as [t'| |]; simpl; try done.
  rewrite lookup_insert. repeat case_decide; congruence.
Qed.

Lemma get_prune_node l k k' :
  get_node (pruneNode l k) k' = if decide (k = k') then None else get_node l k'.
Proof.
  destruct l as [ns p f], k as [t| |], k' as [t'| |]; simpl; try done.
  rewrite lookup_delete. repeat case_decide; congruence.
Qed.

Lemma get_node_empty l k : numNodes l = 0 -> get_node l k = None.
Proof.
  destruct l as [ns p f]. unfold numNodes. simpl. intros E.
  destruct p, f; simpl in E; try lia.
  destruct k; simpl; try done.
  assert (ns = ∅) as -> by (apply map_size_empty_inv; lia). apply lookup_empty.
Qed.

(** The node [Insert] continues with. *)
Definition reach_node (o : option node) : node :=
  set_next (default newNode o) (Some (default newLevel (n_next (default newNode o)))).

Section field.
Context {A : Type} (f : node -> list A) `{!NodeField f}.

Lemma at_path_empty ks l : numNodes l = 0 -> at_path f ks l = [].
Proof. intros E. destruct ks as [|k ks]; [done|]. by rewrite at_path_cons, get_node_empty. Qed.

Lemma at_path_newLevel ks : at_path f ks newLevel = [].
Proof. by apply at_path_empty. Qed.

Lemma below_empty ks n : isEmpty n = true -> below f ks n = [].
Proof.
  intros He. destruct ks as [|k ks]; [by apply nf_empty|].
  apply isEmpty_spec in He as (_ & _ & Hn). rewrite below_cons.
  destruct (n_next n); [|done]. by apply at_path_empty.
Qed.

Lemma at_path_set l k n k' ks :
  at_path f (k' :: ks) (set_node l k n) =
  if decide (k = k') then below f ks n else at_path f (k' :: ks) l.
Proof. rewrite !at_path_cons, get_set_node. by case_decide. Qed.

Lemma at_path_set_or_prune l k n k' ks :
  at_path f (k' :: ks) (set_or_prune l k n) =
  if decide (k = k') then below f ks n else at_path f (k' :: ks) l.
Proof.
  unfold set_or_prune. destruct (isEmpty n) eqn:E; [|apply at_path_set].
  rewrite !at_path_cons, get_prune_node. case_decide; [|done].
  by rewrite below_empty.
Qed.

Lemma below_reach ks o : below f ks (reach_node o) = from_option (below f ks) [] o.
Proof.
  destruct ks as [|k ks].
  - unfold reach_node. simpl. rewrite nf_next. destruct o; [done|apply nf_new].
  - rewrite below_cons. destruct o as [[[l|] ps qs]|]; try done; apply at_path_newLevel.
Qed.
End field.

(** Paths of a subscription. *)
Definition sub_keys (sub : subscription) : list tkey := key_of <$> tokens (sub_subject sub).

Definition is_plain (sub : subscription) : bool := bool_decide (sub_queue sub = None).

(** [Insert]'s own validity check on the tokens. *)
Fixpoint insertable (sfwc : bool) (toks : list bytes) : bool :=
  match toks with
  | [] => true
  | t :: rest => negb (bool_decide (length t = 0) || sfwc) &&
                 insertable (bool_decide (key_of t = KFwc)) rest
  end.

(** [l'] is [l] with the node at [path] replaced by [n]. *)
Definition path_updated (path : list tkey) (n : node) (l l' : level) : Prop :=
  forall A (f : node -> list A), NodeField f ->
  forall ks, at_path f ks l' = if decide (ks = path) then f n else at_path f ks l.

(** No field of any node differs. *)
Definition path_same (l l' : level) : Prop :=
  forall A (f : node -> list A), NodeField f -> forall ks, at_path f ks l' = at_path f ks l.

(** [n] carries what the trie shows at [path]. *)
Definition node_shows (path : list tkey) (l : level) (n : node) : Prop :=
  forall A (f : node -> list A), NodeField f -> f n = at_path f path l.

(** One level up: only what is below the key [k] changes. *)
Lemma path_updated_step path k n0 n l l0 l0' l' :
  (forall A (f : node -> list A), NodeField f -> forall ks,
     at_path f ks l' = match ks with
                       | k' :: ks' => if decide (k = k') then below f ks' n0 else at_path f ks l
                       | [] => [] end) ->
  n_next n0 = Some l0' -> (forall A (f : node -> list A), NodeField f -> f n0 = at_path f [k] l) ->
  (forall A (f : node -> list A), NodeField f -> forall k' ks,
     at_path f (k :: k' :: ks) l = at_path f (k' :: ks) l0) ->
  path <> [] -> path_updated path n l0 l0' -> path_updated (k :: path) n l l'.
Proof.
  intros Hl' Hn0 Hf0 Hl0 Hne Hup A f Hf ks. rewrite (Hl' A f Hf).
  destruct ks as [|k' ks]; [done|]. destruct (decide (k = k')) as [<-|].
  2:{ rewrite decide_False by congruence. done. }
  destruct ks as [|k' ks].
  { rewrite decide_False by congruence. by apply Hf0. }
  rewrite below_cons, Hn0. change (from_option _ _ (Some l0')) with (at_path f (k' :: ks) l0').
  rewrite (Hup A f Hf).
  destruct (decide (k' :: ks = path)) as [<-|].
  - by rewrite decide_True.
  - rewrite decide_False by congruence. symmetry. by apply Hl0.
Qed.

Section exact.
Context (growcap : nat -> nat -> nat).

Lemma add_to_node_next h sub n h' n' :
  add_to_node growcap h sub n = Some (h', n') -> n_next n' = n_next n.
Proof.
  unfold add_to_node. destruct (sub_queue sub); [|by intros ?; simplify_eq].
  intros ([? ?] & _ & ?)%bind_Some. by simplify_eq.
Qed.

(** The exact effect of the token loop of [Insert]: the node at the path of
    the tokens becomes what [add_to_node] makes of it. *)
Lemma insert_level_exact sub toks : forall h l sfwc,
  toks <> [] ->
  if insertable sfwc toks then
    exists n, node_shows (key_of <$> toks) l n /\
      match add_to_node growcap h sub n with
      | None => insert_level growcap sub h l sfwc toks = None
      | Some (h', n') => exists l', insert_level growcap sub h l sfwc toks = Some (h', l', None) /\
          path_updated (key_of <$> toks) n' l l'
      end
  else exists l', insert_level growcap sub h l sfwc toks = Some (h, l', Some ErrInvalidSubject) /\
      path_same l l'.
Proof.
  induction toks as [|t rest IH]; intros h l sfwc Hne; [done|]. simpl.
  destruct (bool_decide (length t = 0) || sfwc); simpl; [by eexists|].
  change (set_next (default newNode (get_node l (key_of t))) _) with
    (reach_node (get_node l (key_of t))).
  set (n0 := reach_node (get_node l (key_of t))).
  assert (Hshow : forall A (f : node -> list A), NodeField f -> forall ks,
    below f ks n0 = at_path f (key_of t :: ks) l)
    by (intros; unfold n0; by rewrite below_reach, at_path_cons).
  destruct rest as [|t' rest].
  - simpl. exists n0. split; [by intros A f Hf; rewrite <- Hshow|].
    destruct (add_to_node growcap h sub n0) as [[h1 n1]|] eqn:Ea; simpl; [|done].
    eexists. split; [done|]. apply add_to_node_next in Ea.
    intros A f Hf [|k ks]; [done|]. rewrite at_path_set by done.
    destruct (decide (key_of t = k)) as [<-|]; [|by rewrite decide_False by congruence].
    destruct ks as [|k' ks]; [by rewrite decide_True|]. rewrite decide_False by congruence.
    by rewrite below_cons, Ea, <- below_cons, Hshow.
  - set (next := default newLevel _).
    specialize (IH h next (bool_decide (key_of t = KFwc)) ltac:(done)).
    assert (Hn0 : forall A (f : node -> list A), NodeField f -> forall k ks,
      at_path f (key_of t :: k :: ks) l = at_path f (k :: ks) next) by (intros; by rewrite <- Hshow).
    assert (Hup : forall next' n', path_updated (key_of <$> t' :: rest) n' next next' ->
      path_updated (key_of <$> t :: t' :: rest) n' l
        (set_node l (key_of t) (set_next n0 (Some next')))).
    { intros next' n' Hup. rewrite fmap_cons.
      eapply (path_updated_step _ _ (set_next n0 (Some next'))); [|done| | |done|done].
      - intros A f Hf [|k ks]; [done|]. by rewrite at_path_set.
      - intros A f Hf. rewrite nf_next. by rewrite <- Hshow.
      - by intros; apply Hn0. }
    destruct (insertable (bool_decide (key_of t = KFwc)) (t' :: rest)).
    + destruct IH as (n & Hn & IH). exists n. split.
      { intros A f Hf. rewrite (Hn A f Hf). symmetry. by apply Hn0. }
      destruct (add_to_node growcap h sub n) as [[h1 n1]|].
      * destruct IH as (next' & -> & Hu). simpl. eexists. split; [done|]. by apply Hup.
      * by rewrite IH.
    + destruct IH as (next' & -> & Hs). simpl. eexists. split; [done|].
      intros A f Hf [|k ks]; [done|]. rewrite at_path_set by done.
      destruct (decide (key_of t = k)) as [<-|]; [|done].
      destruct ks as [|k' ks]; [simpl below; rewrite nf_next; by rewrite <- Hshow|].
      rewrite below_cons. simpl n_next. change (from_option _ _ (Some next')) with (at_path f (k' :: ks) next').
      by rewrite (Hs A f Hf), Hn0.
Qed.

Lemma removeFromNode_next h n sub h' n' found :
  removeFromNode growcap h n sub = Some (h', n', found) -> n_next n' = n_next n.
Proof.
  unfold removeFromNode. destruct (sub_queue sub) as [q|].
  - intros ([i|] & _ & Hi)%bind_Some; [|by simplify_eq].
    apply bind_Some in Hi as (qr & _ & Hi).
    destruct (removeSubFromSlice growcap h sub qr) as [[? ?] ?]. by simplify_eq.
  - destruct (removeSubFromList sub (n_psubs n)). by intros ?; simplify_eq.
Qed.

Lemma removeFromNode_newNode h sub : removeFromNode growcap h newNode sub = Some (h, newNode, false).
Proof. unfold removeFromNode, findQSliceForSub. by destruct (sub_queue sub). Qed.

(** The trie shows nothing at a path that leaves it. *)
Lemma remove_absent h sub l P e :
  (forall A (f : node -> list A), NodeField f -> at_path f P l = []) ->
  exists n, node_shows P l n /\
    match removeFromNode growcap h n sub with
    | None => (Some (h, l, Some e) : option (heap * level * option sl_error)) = None
    | Some (h', n', found) => exists l',
        Some (h, l, Some e) = Some (h', l', if found : bool then None else Some e) /\
        path_updated P n' l l'
    end.
Proof.
  intros Hl. exists newNode. split; [intros A f Hf; rewrite Hl by done; apply nf_new|].
  rewrite removeFromNode_newNode. exists l. split; [done|]. intros A f Hf ks.
  case_decide; [subst|done]. by rewrite Hl, nf_new.
Qed.

Lemma path_updated_same path n l : node_shows path l n -> path_updated path n l l.
Proof. intros Hn A f Hf ks. case_decide; [|done]. subst. symmetry. by apply Hn. Qed.

(** The exact effect of the token loop of [Remove] with its pruning. *)
Lemma remove_level_exact sub toks : forall h l sfwc,
  toks <> [] ->
  if insertable sfwc toks then
    exists n, node_shows (key_of <$> toks) l n /\
      match removeFromNode growcap h n sub with
      | None => remove_level growcap sub h l sfwc toks = None
      | Some (h', n', found) => exists l',
          remove_level growcap sub h l sfwc toks =
            Some (h', l', if found : bool then None else Some ErrNotFound) /\
          path_updated (key_of <$> toks) n' l l'
      end
  else exists l' e, remove_level growcap sub h l sfwc toks = Some (h, l', Some e) /\ path_same l l'.
Proof.
  induction toks as [|t rest IH]; intros h l sfwc Hne; [done|]. simpl.
  destruct (bool_decide (length t = 0) || sfwc); simpl; [by do 2 eexists|].
  assert (Hset : forall n n' (b : bool), get_node l (key_of t) = Some n ->
    forall A (f : node -> list A), NodeField f -> forall k ks,
    at_path f (k :: ks) (if b then set_or_prune l (key_of t) n' else set_node l (key_of t) n') =
    if decide (key_of t = k) then below f ks n' else at_path f (k :: ks) l).
  { intros n n' b Hn A f Hf k ks. destruct b; [by apply at_path_set_or_prune|by apply at_path_set]. }
  assert (Hshow : forall n, get_node l (key_of t) = Some n -> forall A (f : node -> list A) ks,
    at_path f (key_of t :: ks) l = below f ks n) by (intros n Hn A f ks; by rewrite at_path_cons, Hn).
  destruct rest as [|t' rest]; destruct (get_node l (key_of t)) as [n|] eqn:En.
  - exists n. split; [by intros A f Hf; rewrite (Hshow n)|].
    destruct (removeFromNode growcap h n sub) as [[[h1 n1] found]|] eqn:Er; simpl; [|done].
    exists (if found then set_or_prune l (key_of t) n1 else set_node l (key_of t) n1).
    split; [by destruct found|]. apply removeFromNode_next in Er.
    intros A f Hf [|k ks]; [done|]. rewrite (Hset n) by done.
    destruct (decide (key_of t = k)) as [<-|]; [|by rewrite decide_False by congruence].
    destruct ks as [|k' ks]; [by rewrite decide_True|]. rewrite decide_False by congruence.
    by rewrite below_cons, Er, <- below_cons, (Hshow n).
  - simpl. apply remove_absent. intros A f Hf. by rewrite at_path_cons, En.
  - assert (Hmiss : n_next n = None -> if insertable (bool_decide (key_of t = KFwc)) (t' :: rest)
      then exists n0, node_shows (key_of <$> t :: t' :: rest) l n0 /\
        match removeFromNode growcap h n0 sub with
        | None => (Some (h, l, Some ErrNotFound) : option (heap * level * option sl_error)) = None
        | Some (h', n', found) => exists l',
          Some (h, l, Some ErrNotFound) =
            Some (h', l', if found : bool then None else Some ErrNotFound) /\
          path_updated (key_of <$> t :: t' :: rest) n' l l' end
      else True).
    { intros Hx. destruct (insertable _ _); [|done]. apply remove_absent. intros A f Hf.
      rewrite fmap_cons, (Hshow n) by done. by rewrite fmap_cons, below_cons, Hx. }
    destruct (n_next n) as [next|] eqn:Enx.
    2:{ specialize (Hmiss eq_refl). simpl in Hmiss |- *.
        destruct (bool_decide (length t' = 0) || bool_decide (key_of t = KFwc)); simpl in *;
          [by do 2 eexists|]. destruct (insertable _ rest); [done|by do 2 eexists]. }
    clear Hmiss. specialize (IH h next (bool_decide (key_of t = KFwc)) ltac:(done)).
    assert (Hn0 : forall A (f : node -> list A) k ks,
      at_path f (key_of t :: k :: ks) l = at_path f (k :: ks) next)
      by (intros; by rewrite (Hshow n), below_cons, Enx).
    destruct (insertable (bool_decide (key_of t = KFwc)) (t' :: rest)).
    + destruct IH as (m & Hm & IH). exists m. split.
      { intros A f Hf. rewrite (Hm A f Hf). symmetry. apply Hn0. }
      destruct (removeFromNode growcap h m sub) as [[[h1 m1] found]|]; [|by rewrite IH].
      destruct IH as (next' & -> & Hup). simpl.
      set (n' := set_next n (Some next')).
      exists (if found then set_or_prune l (key_of t) n' else set_node l (key_of t) n').
      split; [by destruct found|].
      eapply (path_updated_step _ (key_of t) n' _ l next next'); [|done| |by intros; apply Hn0|done|done].
      * intros A f Hf [|k ks]; [done|]. by rewrite (Hset n).
      * intros A f Hf. unfold n'. rewrite nf_next. by rewrite (Hshow n).
    + destruct IH as (next' & e & -> & Hs). simpl. do 2 eexists. split; [done|].
      intros A f Hf [|k ks]; [done|]. rewrite (Hset n _ false) by done.
      destruct (decide (key_of t = k)) as [<-|]; [|done].
      destruct ks as [|k' ks]; [simpl below; rewrite nf_next; by rewrite (Hshow n)|].
      rewrite below_cons. simpl n_next. change (from_option _ _ (Some next')) with (at_path f (k' :: ks) next').
      by rewrite (Hs A f Hf), Hn0.
  - assert (Ha : forall A (f : node -> list A), at_path f (key_of <$> t :: t' :: rest) l = [])
      by (intros; by rewrite fmap_cons, at_path_cons, En).
    simpl. destruct (bool_decide (length t' = 0) || bool_decide (key_of t = KFwc)); simpl;
      [by do 2 eexists|].
    destruct (insertable _ rest); [|by do 2 eexists]. apply remove_absent. intros. apply Ha.
Qed.
End exact.

(** ** Plain subscriptions *)

Abbreviation psubs_at := (at_path n_psubs).

(** What inserting [sub] at the path [path] adds to the path [ks]. *)
Definition added (sub : subscription) (path ks : list tkey) : list subscription :=
  if is_plain sub && bool_decide (ks = path) then [sub] else [].

(** What a removal with outcome [e] takes from a path. *)
Definition removed (e : option sl_error) sub path ks : list subscription :=
  match e with None => added sub path ks | Some _ => [] end.

Lemma removeSubFromList_spec sub sl sl' found :
  removeSubFromList sub sl = (sl', found) ->
  found = bool_decide (sub ∈ sl) /\
  if found then sl ≡ₚ sub :: sl' else sl' = sl.
Proof.
  unfold removeSubFromList, index_of.
  destruct (list_find (sub =.) sl) as [[i x]|] eqn:E; simpl; intros ?; simplify_eq.
  - apply list_find_Some in E as (Hi & -> & _). split; [|by apply swap_remove_Permutation].
    symmetry. apply bool_decide_eq_true_2. eauto using list_elem_of_lookup_2.
  - apply list_find_None in E. split; [|done]. symmetry. apply bool_decide_eq_false_2.
    intros Hin. by rewrite Forall_forall in E; apply (E sub).
Qed.

Section plain.
Context (growcap : nat -> nat -> nat).

Lemma add_to_node_psubs h sub n h' n' :
  add_to_node growcap h sub n = Some (h', n') ->
  n_next n' = n_next n /\ n_psubs n' = n_psubs n ++ (if is_plain sub then [sub] else []).
Proof.
  unfold add_to_node, is_plain. destruct (sub_queue sub); simpl.
  - intros ([h1 qs] & _ & ?)%bind_Some. simplify_eq/=. by rewrite app_nil_r.
  - intros ?. by simplify_eq/=.
Qed.

Lemma removeFromNode_psubs h n sub h' n' found :
  removeFromNode growcap h n sub = Some (h', n', found) ->
  n_next n' = n_next n /\
  n_psubs n ≡ₚ (if found && is_plain sub then [sub] else []) ++ n_psubs n' /\
  (is_plain sub = true -> found = bool_decide (sub ∈ n_psubs n)).
Proof.
  unfold removeFromNode, is_plain. destruct (sub_queue sub) as [q|]; simpl.
  - intros (i & _ & Hi)%bind_Some. rewrite andb_false_r. destruct i as [i|]; simplify_eq/=; [|done].
    apply bind_Some in Hi as (qr & _ & Hi).
    destruct (removeSubFromSlice growcap h sub qr) as [[h1 qr1] f1]. by simplify_eq/=.
  - destruct (removeSubFromList sub (n_psubs n)) as [ps f] eqn:E.
    apply removeSubFromList_spec in E as [Hf Hp]. intros ?; simplify_eq/=.
    rewrite andb_true_r. split_and!; [done| |done]. by destruct (bool_decide _); subst.
Qed.

Lemma insert_level_psubs sub toks h l sfwc h' l' e :
  toks <> [] -> insert_level growcap sub h l sfwc toks = Some (h', l', e) ->
  e = (if insertable sfwc toks then None else Some ErrInvalidSubject) /\
  forall ks, psubs_at ks l' =
    psubs_at ks l ++ (if insertable sfwc toks then added sub (key_of <$> toks) ks else []).
Proof.
  intros Hne Hi. pose proof (insert_level_exact growcap sub toks h l sfwc Hne) as Hx.
  destruct (insertable sfwc toks).
  - destruct Hx as (n & Hn & Hx).
    destruct (add_to_node growcap h sub n) as [[h1 n1]|] eqn:Ha; [|congruence].
    destruct Hx as (l1 & Hx & Hup). rewrite Hi in Hx. simplify_eq. split; [done|].
    intros ks. rewrite (Hup _ n_psubs _). apply add_to_node_psubs in Ha as [_ ->].
    unfold added. case_decide; subst.
    + rewrite (Hn _ n_psubs _), bool_decide_eq_true_2, andb_true_r by done. done.
    + by rewrite bool_decide_eq_false_2, andb_false_r, app_nil_r.
  - destruct Hx as (l1 & Hx & Hs). rewrite Hi in Hx. simplify_eq. split; [done|].
    intros ks. by rewrite app_nil_r, (Hs _ n_psubs _).
Qed.

Lemma remove_level_psubs sub toks h l sfwc h' l' e :
  toks <> [] -> remove_level growcap sub h l sfwc toks = Some (h', l', e) ->
  forall ks, psubs_at ks l ≡ₚ removed e sub (key_of <$> toks) ks ++ psubs_at ks l'.
Proof.
  intros Hne Hi ks. pose proof (remove_level_exact growcap sub toks h l sfwc Hne) as Hx.
  destruct (insertable sfwc toks).
  - destruct Hx as (n & Hn & Hx).
    destruct (removeFromNode growcap h n sub) as [[[h1 n1] found]|] eqn:Hr; [|congruence].
    destruct Hx as (l1 & Hx & Hup). rewrite Hi in Hx. simplify_eq.
    rewrite (Hup _ n_psubs _). apply removeFromNode_psubs in Hr as (_ & Hp & _).
    rewrite (Hn _ n_psubs _) in Hp. unfold removed, added.
    case_decide; [subst; rewrite bool_decide_eq_true_2 by done|rewrite bool_decide_eq_false_2 by done].
    + rewrite Hp. by destruct found, (is_plain sub).
    + rewrite andb_false_r. by destruct found.
  - destruct Hx as (l1 & e1 & Hx & Hs). rewrite Hi in Hx. simplify_eq.
    by rewrite (Hs _ n_psubs _).
Qed.

(** A plain subscription that is there is removed. *)
Lemma remove_level_found sub toks h l sfwc :
  is_plain sub = true -> insertable sfwc toks = true -> toks <> [] ->
  sub ∈ psubs_at (key_of <$> toks) l ->
  exists h' l', remove_level growcap sub h l sfwc toks = Some (h', l', None).
Proof.
  intros Hp Hi Hne Hin. pose proof (remove_level_exact growcap sub toks h l sfwc Hne) as Hx.
  rewrite Hi in Hx. destruct Hx as (n & Hn & Hx). rewrite <- (Hn _ n_psubs _) in Hin.
  unfold removeFromNode in Hx. apply bool_decide_eq_true_1 in Hp. rewrite Hp in Hx.
  destruct (removeSubFromList sub (n_psubs n)) as [ps found] eqn:E.
  apply removeSubFromList_spec in E as [-> _]. rewrite bool_decide_eq_true_2 in Hx by done.
  destruct Hx as (l' & -> & _). eauto.
Qed.
End plain.

(** ** What a match visits *)

(** The paths whose patterns cover the literal tokens. *)
Fixpoint covers (toks : list bytes) : list (list tkey) :=
  match toks with
  | [] => [[]]
  | t :: rest =>
      [KFwc] :: ((KPwc ::.) <$> covers rest) ++ ((KLit t ::.) <$> covers rest)
  end.

Lemma covers_ne t rest ks : ks ∈ covers (t :: rest) -> ks <> [].
Proof. simpl. rewrite elem_of_cons, elem_of_app, !list_elem_of_fmap. naive_solver. Qed.

Section visit.
Context {A : Type} (f : node -> list A) `{!NodeField f}.

Definition opt_field (n : option node) : list A := from_option f [] n.

(** The lists that [matchLevel] meets, in its order. *)
Fixpoint visit (toks : list bytes) (l : option level) (n pwc : option node) : list A :=
  match toks with
  | [] => opt_field n ++ opt_field pwc
  | t :: rest =>
      match l with
      | None => []
      | Some l =>
          opt_field (l_fwc l) ++
          (match l_pwc l with Some p => visit rest (n_next p) None None | None => [] end) ++
          visit rest (l_nodes l !! t ≫= n_next) (l_nodes l !! t) (l_pwc l)
      end
  end.

Definition level_at (toks : list bytes) (l : option level) : list A :=
  match l with Some l => covers toks ≫= (fun ks => at_path f ks l) | None => [] end.

Lemma covers_step (g : list tkey -> list A) t rest :
  covers (t :: rest) ≫= g =
  g [KFwc] ++ (covers rest ≫= (fun ks => g (KPwc :: ks))) ++
              (covers rest ≫= (fun ks => g (KLit t :: ks))).
Proof.
  simpl. f_equal. rewrite bind_app. f_equal; by rewrite list_fmap_bind.
Qed.

(** Below a key, for the paths of the remaining tokens. *)
Lemma level_at_key k l t rest :
  (covers (t :: rest) ≫= (fun ks => at_path f (k :: ks) l)) =
  level_at (t :: rest) (get_node l k ≫= n_next).
Proof.
  unfold level_at. destruct (get_node l k) as [n|] eqn:E.
  - change (Some n ≫= n_next) with (n_next n). destruct (n_next n) as [l'|] eqn:En.
    + apply bind_ext_elem. intros ks Hks%covers_ne. simpl. rewrite E, En. by destruct ks.
    + apply bind_nil_Forall. intros ks Hks%covers_ne. simpl. rewrite E, En. by destruct ks.
  - apply bind_nil_Forall. intros ks _. simpl. by rewrite E.
Qed.

Lemma visit_covers toks : forall l n pwc,
  visit toks l n pwc ≡ₚ
  match toks with [] => opt_field n ++ opt_field pwc | _ => level_at toks l end.
Proof.
  induction toks as [|t rest IH]; intros l n pwc; [done|].
  destruct l as [l|]; [|done]. simpl visit. unfold level_at at 1. rewrite covers_step.
  replace (at_path f [KFwc] l) with (opt_field (l_fwc l)) by (simpl; by destruct (l_fwc l)).
  f_equiv. destruct rest as [|t' rest].
  - simpl. rewrite !app_nil_r. unfold opt_field.
    destruct (l_pwc l), (l_nodes l !! t); simpl; rewrite ?app_nil_r; try done.
    apply Permutation_app_comm.
  - rewrite (level_at_key KPwc), (level_at_key (KLit t)), IH. f_equiv; [|done].
    simpl get_node. destruct (l_pwc l) as [p|]; [apply IH|done].
Qed.
End visit.

Section match_exact.
Context (growcap : nat -> nat -> nat).

Lemma add_qsubs_app a : forall h b rqs,
  add_qsubs_to_results growcap h (a ++ b) rqs =
  '(h', rqs') ← add_qsubs_to_results growcap h a rqs; add_qsubs_to_results growcap h' b rqs'.
Proof.
  induction a as [|qr a IH]; intros h b rqs; simpl; [done|]. case_decide; [apply IH|].
  destruct (first_sub h qr) as [fs|]; simpl; [|done].
  destruct (findQSliceForSub h fs rqs) as [[i|]|]; simpl; [|apply IH|done].
  destruct (rqs !! i) as [rq|]; simpl; [|done].
  destruct (append growcap h rq (elems h qr)) as [h' rq']. apply IH.
Qed.

(** The result of adding a list of queue groups and of plain subscriptions. *)
Definition add_all (h : heap) (r : SublistResult) (qs : list slice) (ps : list subscription)
  : option (heap * SublistResult) :=
  '(h', rqs) ← add_qsubs_to_results growcap h qs (r_qsubs r);
  Some (h', Result (r_psubs r ++ ps) rqs).

Lemma add_all_app h r q1 p1 q2 p2 :
  ('(h', r') ← add_all h r q1 p1; add_all h' r' q2 p2) = add_all h r (q1 ++ q2) (p1 ++ p2).
Proof.
  unfold add_all. rewrite add_qsubs_app.
  destruct (add_qsubs_to_results growcap h q1 (r_qsubs r)) as [[h1 rqs]|]; simpl; [|done].
  destruct (add_qsubs_to_results growcap h1 q2 rqs) as [[h2 rqs2]|]; simpl; [|done].
  by rewrite app_assoc.
Qed.

Lemma add_all_nil h r : add_all h r [] [] = Some (h, r).
Proof. unfold add_all. simpl. rewrite app_nil_r. by destruct r. Qed.

Lemma addNodeToResults_all h n r :
  addNodeToResults_if growcap h n r = add_all h r (opt_field n_qsubs n) (opt_field n_psubs n).
Proof. destruct n as [n|]; [done|]. by rewrite add_all_nil. Qed.

(** [matchLevel] adds the groups and subscriptions of the nodes it visits. *)
Lemma matchLevel_loop_visit toks : forall l n pwc h r,
  matchLevel_loop growcap toks l n pwc h r =
  add_all h r (visit n_qsubs toks l n pwc) (visit n_psubs toks l n pwc).
Proof.
  induction toks as [|t rest IH]; intros l n pwc h r; simpl.
  { rewrite <- add_all_app, addNodeToResults_all. destruct (add_all _ _ _ _) as [[h1 r1]|]; [|done].
    simpl. by rewrite addNodeToResults_all. }
  destruct l as [l|]; [|by rewrite add_all_nil].
  rewrite <- !add_all_app, addNodeToResults_all.
  destruct (add_all h r (opt_field n_qsubs (l_fwc l)) _) as [[h1 r1]|]; [|done]. simpl.
  destruct (l_pwc l) as [p|]; simpl.
  - rewrite <- add_all_app, IH. destruct (add_all h1 r1 _ _) as [[h2 r2]|]; [|done]. simpl. apply IH.
  - apply IH.
Qed.
End match_exact.
