(* ===== verification/SublistSpec.v ===== *)
(** * SublistSpec: what the sublist promises

    A sublist is meant to be a multiset of subscriptions that [Match] filters
    by the meaning of their subjects.  This file states that contract for the
    plain subscriptions as a refinement: after any history of operations the
    trie and every cache entry show exactly the live subscriptions
    ([sl_inv]). *)

From S2P Require Import Prelude Subject Sublist.

(** ** Histories of operations *)

Inductive sl_op :=
| OpInsert (sub : subscription)
| OpRemove (sub : subscription)
| OpMatch (ev : nat) (subject : bytes).

Section histories.
Context (growcap : nat -> nat -> nat).

Definition sl_step (s : Sublist) (op : sl_op) : option Sublist :=
  match op with
  | OpInsert sub => fst <$> Insert growcap s sub
  | OpRemove sub => fst <$> Remove growcap s sub
  | OpMatch ev subject => fst <$> Match growcap ev s subject
  end.

Fixpoint sl_run (s : Sublist) (ops : list sl_op) : option Sublist :=
  match ops with
  | [] => Some s
  | op :: ops' => s' ← sl_step s op; sl_run s' ops'
  end.

End histories.

(** ** The abstract multiset *)

Definition remove_one {A} `{EqDecision A} (x : A) (l : list A) : list A :=
  match index_of x l with Some i => delete i l | None => l end.

Definition plain_step (live : list subscription) (op : sl_op) : list subscription :=
  match op with
  | OpInsert sub =>
      if is_plain sub && insertable false (tokens (sub_subject sub)) then sub :: live else live
  | OpRemove sub => if is_plain sub then remove_one sub live else live
  | OpMatch _ _ => live
  end.

(** The live subscriptions that cover a literal subject. *)
Definition interested (live : list subscription) (subject : bytes) : list subscription :=
  filter (fun x => subject_matches (sub_subject x) subject = true) live.

(** A pattern is well formed, or the sublist refuses it. *)
Definition subject_ok (subject : bytes) : bool :=
  wf_pattern subject || negb (insertable false (tokens subject)).

Definition op_ok (op : sl_op) : bool :=
  match op with
  | OpInsert sub | OpRemove sub => subject_ok (sub_subject sub)
  | OpMatch _ subject => closed_literal subject
  end.

(** ** Paths and meaning *)

Fixpoint keys_ok (ks : list tkey) : bool :=
  match ks with
  | [] => true
  | k :: ks' => (bool_decide (k <> KFwc) || bool_decide (ks' = [])) && keys_ok ks'
  end.

Lemma covers_match ks toks :
  keys_ok ks = true -> ks ∈ covers toks <-> match_keys ks toks = true.
Proof.
  revert ks. induction toks as [|t rest IH]; intros ks Hok; simpl.
  { rewrite list_elem_of_singleton. destruct ks as [|[] ?]; simpl; naive_solver. }
  rewrite elem_of_cons, elem_of_app, !list_elem_of_fmap.
  destruct ks as [|k ks]; [simpl; naive_solver|].
  simpl in Hok. rewrite andb_true_iff, orb_true_iff, !bool_decide_eq_true in Hok.
  destruct Hok as [Hf Hok]. specialize (IH ks Hok). destruct k as [u| |]; simpl.
  - rewrite andb_true_iff, bool_decide_eq_true, <- IH. naive_solver.
  - rewrite <- IH. naive_solver.
  - naive_solver.
Qed.

Lemma NoDup_covers toks : NoDup (covers toks).
Proof.
  induction toks as [|t rest IH]; simpl; [apply NoDup_singleton|].
  apply NoDup_cons. split.
  { rewrite elem_of_app, !list_elem_of_fmap. naive_solver. }
  apply NoDup_app. split_and!; [by apply (NoDup_fmap_2 _)| |by apply (NoDup_fmap_2 _)].
  intros ks. rewrite !list_elem_of_fmap. naive_solver.
Qed.

Lemma wf_pattern_insertable_gen ts :
  wf_pattern_tokens ts = true ->
  keys_ok (key_of <$> ts) = true /\
  forall sfwc, (sfwc = true -> ts = []) -> insertable sfwc ts = true.
Proof.
  induction ts as [|t ts IH]; intros Hw; [done|].
  assert (Ht : wf_token t = true /\ (ts <> [] -> t <> [fwc]) /\ wf_pattern_tokens ts = true).
  { destruct ts; [naive_solver|].
    change (wf_token t && bool_decide (t <> [fwc]) && wf_pattern_tokens (l :: ts) = true) in Hw.
    rewrite !andb_true_iff, bool_decide_eq_true in Hw. naive_solver. }
  destruct Ht as (Ht & Hf & Hts). destruct (IH Hts) as [Hk Hi].
  assert (Hkf : key_of t = KFwc -> ts = []).
  { intros E. destruct (decide (ts = [])) as [|Hne]; [done|]. exfalso.
    apply wf_tokenP in Ht as [->| -> |_ _ E']; [done|by apply Hf|congruence]. }
  assert (Hl : length t <> 0).
  { apply wf_tokenP in Ht as [->| -> |Hne _ _]; [done|done|]. by intros ?%nil_length_inv. }
  split.
  - rewrite fmap_cons. simpl. rewrite Hk, andb_true_r, orb_true_iff, !bool_decide_eq_true.
    destruct (decide (key_of t = KFwc)) as [E|]; [right; by rewrite (Hkf E)|by left].
  - intros sfwc Hs. simpl. destruct sfwc; [by specialize (Hs eq_refl)|].
    rewrite bool_decide_eq_false_2 by done. simpl. apply Hi.
    rewrite bool_decide_eq_true. apply Hkf.
Qed.

Lemma wf_pattern_insertable s : wf_pattern s = true -> insertable false (tokens s) = true.
Proof. intros [_ H]%wf_pattern_insertable_gen. by apply H. Qed.

Lemma wf_pattern_keys_ok x : wf_pattern (sub_subject x) = true -> keys_ok (sub_keys x) = true.
Proof. by intros [? _]%wf_pattern_insertable_gen. Qed.

(** ** The refinement invariant *)

Record sl_inv (s : Sublist) (live : list subscription) : Prop := {
  inv_trie : forall ks,
    psubs_at ks (sl_root s) ≡ₚ filter (fun x => sub_keys x = ks) live;
  inv_live : Forall (fun x => is_plain x = true /\ wf_pattern (sub_subject x) = true) live;
  inv_cache : forall k r, sl_cache s !! k = Some r -> closed_literal k = true ->
    r_psubs r ≡ₚ interested live k;
}.

Lemma sl_inv_new : sl_inv NewSublist [].
Proof.
  split; simpl.
  - intros ks. by rewrite (at_path_newLevel n_psubs).
  - constructor.
  - intros k r. by rewrite lookup_empty.
Qed.

(** What the trie shows for a literal subject. *)
Lemma level_at_interested s live subject :
  sl_inv s live -> level_at n_psubs (tokens subject) (Some (sl_root s)) ≡ₚ interested live subject.
Proof.
  intros [Ht Hl _]. unfold level_at.
  assert (E : covers (tokens subject) ≫= (fun ks => psubs_at ks (sl_root s)) ≡ₚ
              covers (tokens subject) ≫= (fun ks => filter (fun x => sub_keys x = ks) live)).
  { induction (covers (tokens subject)) as [|ks kss IH]; [done|].
    rewrite !bind_cons, IH, (Ht ks). done. }
  rewrite E, bind_filter_classes by apply NoDup_covers.
  unfold interested. erewrite filter_ext_elem; [done|].
  intros x Hx. rewrite Forall_forall in Hl. destruct (Hl _ Hx) as [_ Hw].
  apply covers_match. by apply wf_pattern_keys_ok.
Qed.

Section refinement.
Context (growcap : nat -> nat -> nat).

Lemma evict_one_sub ev cache k r : evict_one ev cache !! k = Some r -> cache !! k = Some r.
Proof.
  unfold evict_one. destruct (map_to_list cache !! _) as [[k' r']|]; [|done].
  by intros [_ ?]%lookup_delete_Some.
Qed.

Lemma Match_inv ev s live subject s' r :
  sl_inv s live -> Match growcap ev s subject = Some (s', r) ->
  sl_inv s' live /\ (closed_literal subject = true -> r_psubs r ≡ₚ interested live subject).
Proof.
  intros Hinv. unfold Match. destruct (sl_cache s !! subject) as [rc|] eqn:Ec.
  { intros ?; simplify_eq. split; [|by apply Hinv]. by destruct Hinv. }
  intros ([h res] & Hm & ?)%bind_Some. simplify_eq.
  assert (Hres : r_psubs r ≡ₚ interested live subject).
  { unfold matchLevel in Hm. rewrite matchLevel_loop_visit in Hm.
    apply bind_Some in Hm as ([h1 qs] & _ & ?). simplify_eq. simpl.
    rewrite (visit_covers n_psubs), <- (level_at_interested s) by done.
    pose proof (tokens_ne subject). by destruct (tokens subject). }
  split; [|done]. split; simpl; [apply Hinv..|].
  intros k r' Hk Hc.
  assert (Hk' : <[subject := r]> (sl_cache s) !! k = Some r')
    by (case_decide; eauto using evict_one_sub).
  apply lookup_insert_Some in Hk' as [[<- <-]|[_ Hk']]; [done|]. by eapply Hinv.
Qed.

Lemma copyResult_psubs h r h' r' : copyResult growcap h r = (h', r') -> r_psubs r' = r_psubs r.
Proof. unfold copyResult. destruct (copy_qsubs growcap h (r_qsubs r)). by intros [= <- <-]. Qed.

Lemma add_to_result_psubs h sub r h' r' :
  add_to_result growcap h sub r = Some (h', r') ->
  r_psubs r' = r_psubs r ++ (if is_plain sub then [sub] else []).
Proof.
  unfold add_to_result, is_plain. destruct (copyResult growcap h r) as [h1 nr] eqn:E.
  apply copyResult_psubs in E as <-. destruct (sub_queue sub); simpl.
  - intros ([? ?] & _ & ?)%bind_Some. simplify_eq/=. by rewrite app_nil_r.
  - intros ?. by simplify_eq/=.
Qed.

Lemma addToCache_loop_lookup subject sub entries : forall h cache h' cache',
  NoDup entries.*1 ->
  addToCache_loop growcap subject sub h cache entries = Some (h', cache') ->
  forall k r', cache' !! k = Some r' ->
    (k ∉ entries.*1 /\ cache !! k = Some r') \/
    exists r, (k, r) ∈ entries /\
      if matchLiteral k subject
      then r_psubs r' = r_psubs r ++ (if is_plain sub then [sub] else [])
      else cache !! k = Some r'.
Proof.
  induction entries as [|[k0 r0] entries IH]; intros h cache h' cache' Hnd Hl k r' Hk.
  { simplify_eq/=. left. split; [apply not_elem_of_nil|done]. }
  apply NoDup_cons in Hnd as [Hk0 Hnd]. simpl in Hl.
  destruct (matchLiteral k0 subject) eqn:Em.
  - apply bind_Some in Hl as ([h1 nr] & Ha%add_to_result_psubs & Hl).
    destruct (IH _ _ _ _ Hnd Hl k r' Hk) as [[Hn Hl']|(r & Hr & Hp)].
    + apply lookup_insert_Some in Hl' as [[-> ->]|[Hne Hl']].
      * right. exists r0. split; [left|]. by rewrite Em.
      * left. split; [|done]. by rewrite fmap_cons, elem_of_cons; intros [].
    + right. exists r. split; [by right|].
      assert (k <> k0) by (intros ->; apply Hk0; by apply (list_elem_of_fmap_2 fst) in Hr).
      destruct (matchLiteral k subject); [done|]. by rewrite lookup_insert_ne in Hp.
  - destruct (IH _ _ _ _ Hnd Hl k r' Hk) as [[Hn Hl']|(r & Hr & Hp)].
    + destruct (decide (k = k0)) as [->|].
      * right. exists r0. split; [left|]. by rewrite Em.
      * left. split; [|done]. by rewrite fmap_cons, elem_of_cons; intros [].
    + right. exists r. split; [by right|done].
Qed.

(** An entry after [addToCache] comes from an entry before it. *)
Lemma addToCache_lookup subject sub h cache h' cache' k r' :
  addToCache growcap subject sub h cache = Some (h', cache') -> cache' !! k = Some r' ->
  exists r, cache !! k = Some r /\
    if matchLiteral k subject
    then r_psubs r' = r_psubs r ++ (if is_plain sub then [sub] else []) else r' = r.
Proof.
  intros Ha Hk. destruct (addToCache_loop_lookup _ _ _ _ _ _ _
    (NoDup_fst_map_to_list cache) Ha k r' Hk) as [[Hn Hl]|(r & Hr & Hp)].
  - exfalso. apply Hn. apply elem_of_map_to_list in Hl.
    by apply (list_elem_of_fmap_2 fst) in Hl.
  - apply elem_of_map_to_list in Hr. exists r. split; [done|].
    destruct (matchLiteral k subject); [done|congruence].
Qed.

(** The sublists differ in their counters only. *)
Lemma sl_inv_same s s' live :
  (forall ks, psubs_at ks (sl_root s') ≡ₚ psubs_at ks (sl_root s)) ->
  sl_cache s' = sl_cache s -> sl_inv s live -> sl_inv s' live.
Proof.
  intros Hr Hc [Ht Hl Hk]. split; [|done|by rewrite Hc].
  intros ks. by rewrite Hr.
Qed.

Lemma interested_cons x live k :
  interested (x :: live) k =
  if subject_matches (sub_subject x) k then x :: interested live k else interested live k.
Proof. unfold interested. rewrite filter_cons. by destruct (subject_matches _ _). Qed.

Lemma interested_Permutation live live' k :
  live ≡ₚ live' -> interested live k ≡ₚ interested live' k.
Proof. intros E. unfold interested. by rewrite E. Qed.

Lemma Insert_inv s live sub s' e :
  sl_inv s live -> subject_ok (sub_subject sub) = true ->
  Insert growcap s sub = Some (s', e) -> sl_inv s' (plain_step live (OpInsert sub)).
Proof.
  intros Hinv Hok. unfold Insert.
  intros ([[h root] e1] & Hi & Hs)%bind_Some.
  apply insert_level_psubs in Hi as [He Hp]; [|apply tokens_ne].
  unfold plain_step. unfold subject_ok in Hok.
  destruct (insertable false (tokens (sub_subject sub))) eqn:Ei; rewrite He in Hs.
  2:{ simplify_eq. rewrite andb_false_r. eapply sl_inv_same; [| |exact Hinv]; [|done].
      intros ks. simpl. by rewrite Hp, app_nil_r. }
  rewrite orb_false_r in Hok. rewrite andb_true_r.
  apply bind_Some in Hs as ([h1 cache1] & Ha & ?). simplify_eq.
  destruct Hinv as [Ht Hl Hc]. split; simpl.
  - intros ks. rewrite Hp, Ht. unfold added. fold (sub_keys sub).
    destruct (is_plain sub); simpl; [|by rewrite app_nil_r].
    rewrite filter_cons. case_bool_decide; case_decide; subst; try done; simpl.
    + symmetry. apply Permutation_cons_append.
    + by rewrite app_nil_r.
  - destruct (is_plain sub) eqn:E; [|done]. by constructor.
  - intros k r' Hk Hclosed.
    destruct (addToCache_lookup _ _ _ _ _ _ _ _ Ha Hk) as (r & Hr & Hp').
    rewrite matchLiteral_matches in Hp' by done.
    specialize (Hc k r Hr Hclosed).
    destruct (is_plain sub); rewrite ?interested_cons;
      destruct (subject_matches (sub_subject sub) k); subst; try done;
      rewrite Hp', Hc; [|by rewrite app_nil_r].
    symmetry. apply Permutation_cons_append.
Qed.

Lemma remove_one_spec {A} `{EqDecision A} (x : A) l :
  (x ∈ l /\ l ≡ₚ x :: remove_one x l) \/ (x ∉ l /\ remove_one x l = l).
Proof.
  unfold remove_one, index_of. destruct (list_find (x =.) l) as [[i y]|] eqn:E; simpl.
  - apply list_find_Some in E as (Hi & -> & _). left.
    split; [by eapply list_elem_of_lookup_2|]. by apply delete_Permutation.
  - apply list_find_None in E. right. split; [|done].
    rewrite Forall_forall in E. intros Hin. by apply (E x).
Qed.

Lemma Remove_inv s live sub s' e :
  sl_inv s live -> subject_ok (sub_subject sub) = true ->
  Remove growcap s sub = Some (s', e) ->
  sl_inv s' (plain_step live (OpRemove sub)) /\ (is_plain sub = true -> e = None <-> sub ∈ live).
Proof.
  intros Hinv Hok. unfold Remove.
  intros ([[h root] e1] & Hi & Hs)%bind_Some.
  assert (Hp : forall ks, psubs_at ks (sl_root s) ≡ₚ
    removed e1 sub (sub_keys sub) ks ++ psubs_at ks root)
    by (eapply remove_level_psubs; [apply tokens_ne|exact Hi]).
  assert (Hlive : is_plain sub = true -> e1 <> None -> sub ∉ live).
  { intros Hpl He1 Hin. pose proof (inv_live _ _ Hinv) as Hl.
    rewrite Forall_forall in Hl. destruct (Hl _ Hin) as [_ Hw].
    destruct (remove_level_found growcap sub (tokens (sub_subject sub)) (sl_heap s) (sl_root s) false)
      as (? & ? & E); [done|by apply wf_pattern_insertable|apply tokens_ne| |congruence].
    change (sub ∈ psubs_at (sub_keys sub) (sl_root s)).
    rewrite (inv_trie _ _ Hinv). by apply list_elem_of_filter. }
  unfold plain_step. destruct e1 as [e1|]; simplify_eq.
  { assert (E : (if is_plain sub then remove_one sub live else live) = live).
    { destruct (is_plain sub) eqn:E; [|done].
      destruct (remove_one_spec sub live) as [[? _]|[_ ?]]; [|done]. by destruct Hlive. }
    rewrite E. split; [|intros Hpl; specialize (Hlive Hpl); naive_solver].
    eapply sl_inv_same; [| |exact Hinv]; [|done]. intros ks. simpl. by rewrite (Hp ks). }
  assert (Hl' : live ≡ₚ (if is_plain sub then [sub] else []) ++
     (if is_plain sub then remove_one sub live else live)).
  { destruct (is_plain sub) eqn:E; [|done].
    destruct (remove_one_spec sub live) as [[_ ?]|[Hn _]]; [done|].
    exfalso. apply Hn. specialize (Hp (sub_keys sub)).
    rewrite (inv_trie _ _ Hinv) in Hp. unfold removed, added in Hp.
    rewrite E, bool_decide_eq_true_2 in Hp by done. simpl in Hp.
    assert (Hin : sub ∈ filter (fun x => sub_keys x = sub_keys sub) live) by (rewrite Hp; left).
    by apply list_elem_of_filter in Hin as [_ ?]. }
  split; [|intros E; rewrite E in Hl'; split; [|done]; intros _; rewrite Hl'; left].
  set (live' := if is_plain sub then remove_one sub live else live) in *.
  destruct Hinv as [Ht Hl Hc]. split; simpl.
  - intros ks. specialize (Hp ks). rewrite Ht, Hl', filter_app in Hp.
    unfold removed, added in Hp. destruct (is_plain sub); simpl in Hp; [|done].
    rewrite filter_cons in Hp. fold (sub_keys sub) in Hp.
    case_decide as Ek; [rewrite bool_decide_eq_true_2 in Hp by done|
                        rewrite bool_decide_eq_false_2 in Hp by congruence]; simpl in Hp.
    + by apply Permutation_cons_inv in Hp.
    + done.
  - rewrite Hl' in Hl. by apply Forall_app in Hl as [_ ?].
  - intros k r Hk Hclosed. apply map_lookup_filter_Some in Hk as [Hk Hm]. simpl in Hm.
    rewrite (Hc k r Hk Hclosed), (interested_Permutation _ _ k Hl').
    destruct (is_plain sub) eqn:E; [|done]. simpl. rewrite interested_cons.
    assert (Hw : wf_pattern (sub_subject sub) = true).
    { rewrite Forall_forall in Hl. apply Hl. rewrite Hl'. left. }
    by rewrite <- matchLiteral_matches, Hm.
Qed.
End refinement.
