(* ===== verification/SublistQueue.v ===== *)
(** * SublistQueue: queue groups in the heap

    The queue groups of the trie and of cached results share backing arrays.
    This file states what holds of them: every array of the trie belongs to
    one group of one node, an array that a cached result shares belongs to a
    node whose path covers the cached subject, and no visible element is nil.
    It follows that no operation panics and that a match that is not answered
    from the cache returns the right groups. *)

From S2P Require Import Prelude Subject Sublist SublistSpec.

(** ** Slices and what they show *)

(** The queue of a group member, as [bytes.Equal] compares it. *)
Definition queue_name (x : subscription) : bytes := default [] (sub_queue x).

(** The slice is allocated, not empty, and shows queue subscriptions only. *)
Record solid (h : heap) (s : slice) : Prop := {
  solid_alloc : (s_arr s < h_next h)%N;
  solid_pos : 0 < s_len s;
  solid_cap : s_len s <= length (arr_of h s);
  solid_elems : Forall (fun o => exists x, o = Some x /\ is_plain x = false) (elems h s);
}.

(** The members a slice shows. *)
Definition members (h : heap) (s : slice) : list subscription := omap id (elems h s).

Lemma members_elems h s : solid h s -> elems h s = Some <$> members h s.
Proof.
  intros [_ _ _ H]. unfold members. induction H as [|o l (x & -> & _) _ IH]; [done|].
  simpl. by f_equal.
Qed.

Lemma members_length h s : solid h s -> length (members h s) = s_len s.
Proof.
  intros Hs. rewrite <- (length_fmap Some), <- members_elems by done.
  unfold elems. rewrite length_take. pose proof (solid_cap _ _ Hs). lia.
Qed.

Lemma members_queue h s x : solid h s -> x ∈ members h s -> is_plain x = false.
Proof.
  intros Hs Hx. destruct Hs as [_ _ _ H]. rewrite Forall_forall in H.
  unfold members in Hx. apply list_elem_of_omap in Hx as (o & Ho & Hi).
  destruct (H o Ho) as (y & -> & ?). by simplify_eq/=.
Qed.

Lemma first_sub_solid h s : solid h s -> first_sub h s = head (members h s).
Proof.
  intros Hs. unfold first_sub. rewrite members_elems by done.
  by destruct (members h s).
Qed.

Lemma members_head h s : solid h s -> exists x xs, members h s = x :: xs.
Proof.
  intros Hs. pose proof (members_length h s Hs). pose proof (solid_pos _ _ Hs).
  destruct (members h s); simpl in *; [lia|eauto].
Qed.

(** ** Finding a group *)

Definition group_name (g : list subscription) : option bytes := queue_name <$> head g.

(** The pure counterpart of [find_qslice]. *)
Definition find_group (q : bytes) (gs : list (list subscription)) : option nat :=
  fst <$> list_find (fun g => group_name g = Some q) gs.

Lemma find_qslice_group h q qsl : forall i,
  Forall (solid h) qsl ->
  find_qslice h q i qsl = Some (Nat.add i <$> find_group (default [] q) (members h <$> qsl)).
Proof.
  induction qsl as [|s qsl IH]; intros i Hs; [done|].
  apply Forall_cons in Hs as [Hs Hqs]. simpl.
  rewrite decide_True by apply Hs.
  rewrite first_sub_solid by done.
  destruct (members_head h s Hs) as (x & xs & E). rewrite E. simpl.
  unfold find_group, queue_equal. simpl.
  assert (Hn : group_name (x :: xs) = Some (default [] (sub_queue x))) by done.
  destruct (decide (default [] q = default [] (sub_queue x))) as [Eq|Ne].
  - rewrite bool_decide_eq_true_2 by done. rewrite decide_True by congruence. simpl.
    do 2 f_equal. lia.
  - rewrite bool_decide_eq_false_2 by done. rewrite decide_False by congruence.
    rewrite IH by done. unfold find_group.
    destruct (list_find _ _) as [[j ?]|]; simpl; [|done]. do 2 f_equal. lia.
Qed.

Lemma findQSliceForSub_group h sub qsl :
  is_plain sub = false -> Forall (solid h) qsl ->
  findQSliceForSub h sub qsl = Some (find_group (queue_name sub) (members h <$> qsl)).
Proof.
  intros Hp Hs. unfold findQSliceForSub, queue_name.
  apply bool_decide_eq_false_1 in Hp. destruct (sub_queue sub) eqn:E; [|done].
  rewrite find_qslice_group by done. simpl. by destruct (find_group _ _).
Qed.

(** ** Effects on the heap *)

Abbreviation all_queue := (Forall (fun x => is_plain x = false)).

(** From [h] to [h'], at most the elements behind one of the slices [qs] in
    its array were overwritten, by queue subscriptions. *)
Record keeps (h h' : heap) (qs : list slice) : Prop := {
  keeps_next : (h_next h <= h_next h')%N;
  keeps_frame : forall t, (s_arr t < h_next h)%N ->
    (forall s, s ∈ qs -> s_arr t = s_arr s -> s_len t <= s_len s) -> elems h' t = elems h t;
  keeps_solid : forall t, solid h t -> solid h' t;
}.

(** Every slice of [qs'] extends one of [qs] or is newer than [h]. *)
Definition extends (h : heap) (qs qs' : list slice) : Prop :=
  forall s', s' ∈ qs' ->
    (exists s, s ∈ qs /\ s_arr s' = s_arr s /\ s_len s <= s_len s') \/ (h_next h <= s_arr s')%N.

Lemma keeps_refl h qs : keeps h h qs.
Proof. by split. Qed.

Lemma keeps_weaken h h' qs qs' : qs ⊆ qs' -> keeps h h' qs -> keeps h h' qs'.
Proof. intros Hsub [N F S]. split; [done| |done]. intros t Ht Hl. apply F; [done|]. eauto. Qed.

Lemma keeps_trans h1 h2 h3 qs qs' :
  keeps h1 h2 qs -> keeps h2 h3 qs' -> extends h1 qs qs' -> keeps h1 h3 qs.
Proof.
  intros [N1 F1 S1] [N2 F2 S2] He. split; [lia| |auto]. intros t Ht Hl.
  rewrite F2; [by apply F1|lia|]. intros s' Hs' E.
  destruct (He s' Hs') as [(s & Hs & E' & Hle)|]; [|lia].
  transitivity (s_len s); [|done]. apply Hl; [done|congruence].
Qed.

(** What a slice of [members ys] on top of the old heap looks like. *)
Record shows (h : heap) (s : slice) (ys : list subscription) : Prop := {
  shows_solid : solid h s;
  shows_members : members h s = ys;
}.

Lemma shows_intro h s ys rest :
  h_arrs h !! s_arr s = Some ((Some <$> ys) ++ rest) -> (s_arr s < h_next h)%N ->
  s_len s = length ys -> ys <> [] -> all_queue ys -> shows h s ys.
Proof.
  intros Ha Hn Hl Hne Hq.
  assert (He : elems h s = Some <$> ys).
  { unfold elems, arr_of. rewrite Ha. simpl. rewrite take_app_le by (rewrite length_fmap; lia).
    apply take_ge. rewrite length_fmap. lia. }
  split.
  - split; [done| | |].
    + destruct ys; [done|simpl in *; lia].
    + unfold arr_of. rewrite Ha. simpl. rewrite length_app, length_fmap. lia.
    + rewrite He, Forall_fmap. eapply Forall_impl; [exact Hq|]. simpl. eauto.
  - unfold members. rewrite He. clear. induction ys; simpl; [done|]. by f_equal.
Qed.

Lemma solid_arr h s : solid h s -> arr_of h s = (Some <$> members h s) ++ drop (s_len s) (arr_of h s).
Proof. intros Hs. rewrite <- members_elems by done. unfold elems. by rewrite take_drop. Qed.

Lemma all_queue_members h s : solid h s -> all_queue (members h s).
Proof. intros Hs. rewrite Forall_forall. intros x. by apply members_queue. Qed.

Lemma keeps_alloc h a len qs : keeps h (alloc h a len).1 qs.
Proof.
  assert (Ha : forall t, (s_arr t < h_next h)%N -> arr_of (alloc h a len).1 t = arr_of h t).
  { intros t Ht. unfold arr_of. simpl. by rewrite lookup_insert_ne by lia. }
  split; [simpl; lia| |].
  - intros t Ht _. unfold elems. by rewrite Ha.
  - intros t [H1 H2 H3 H4]. split; [simpl; lia|done| |]; unfold elems; by rewrite Ha.
Qed.

Lemma alloc_shows h ys rest :
  ys <> [] -> all_queue ys ->
  let '(h', s') := alloc h ((Some <$> ys) ++ rest) (length ys) in
  shows h' s' ys /\ s_arr s' = h_next h /\ s_len s' = length ys.
Proof.
  intros Hne Hq. simpl. split; [|done].
  eapply shows_intro; simpl; [apply lookup_insert_eq|lia|done..].
Qed.

Section heap_effects.
Context (growcap : nat -> nat -> nat).

Lemma append_nil_shows h ys qs :
  ys <> [] -> all_queue ys ->
  let '(h', s') := append_nil growcap h (Some <$> ys) in
  shows h' s' ys /\ keeps h h' qs /\ (h_next h <= s_arr s')%N.
Proof.
  intros Hne Hq. unfold append_nil.
  pose proof (alloc_shows h ys (replicate (growcap 0 (length (Some <$> ys)) - length (Some <$> ys)) None) Hne Hq) as Ha.
  pose proof (keeps_alloc h ((Some <$> ys) ++ replicate (growcap 0 (length (Some <$> ys)) - length (Some <$> ys)) None)
    (length (Some <$> ys)) qs) as Hk.
  rewrite length_fmap in *. destruct (alloc _ _ _) as [h' s'].
  destruct Ha as (? & Hs & ?). split_and!; [done..|]. lia.
Qed.

(** Writing queue subscriptions behind the elements of a slice, in place. *)
Lemma overwrite_keeps h s ys :
  solid h s -> all_queue ys -> s_len s + length ys <= length (arr_of h s) ->
  keeps h (write h s ((Some <$> members h s ++ ys) ++ drop (s_len s + length ys) (arr_of h s))) [s].
Proof.
  intros Hs Hq Hc. set (a := _ ++ drop _ _).
  pose proof (members_length h s Hs) as Hlen.
  assert (Hmq : all_queue (members h s ++ ys)) by (apply Forall_app; auto using all_queue_members).
  assert (Hla : length a = length (arr_of h s)).
  { unfold a. rewrite length_app, length_fmap, length_app, Hlen, length_drop. lia. }
  assert (Hto : forall t, s_arr s <> s_arr t -> arr_of (write h s a) t = arr_of h t)
    by (intros t Ht; unfold arr_of, write; simpl; by rewrite lookup_insert_ne).
  assert (Hts : forall t, s_arr s = s_arr t ->
    arr_of (write h s a) t = a /\ arr_of h t = arr_of h s)
    by (intros t Ht; unfold arr_of, write; simpl; by rewrite Ht, lookup_insert_eq).
  split; [done| |].
  - intros t Hta Htl. unfold elems. destruct (decide (s_arr s = s_arr t)) as [E|E]; [|by rewrite Hto].
    specialize (Htl s ltac:(left) (eq_sym E)). destruct (Hts t E) as [-> ->]. unfold a.
    rewrite solid_arr at 2 by done. rewrite fmap_app, <- app_assoc.
    rewrite !take_app_le by (rewrite length_fmap; lia). done.
  - intros t [H1 H2 H3 H4].
    destruct (decide (s_arr s = s_arr t)) as [E|E];
      [|split; try done; unfold elems; by rewrite Hto].
    destruct (Hts t E) as [Ew Et]. unfold elems in H4. rewrite Et in H3, H4.
    split; [done|done|by rewrite Ew, Hla|]. unfold elems. rewrite Ew.
    rewrite Forall_lookup in H4 |- *. intros i o Ho. apply lookup_take_Some in Ho as [Ho Hi].
    unfold a in Ho. apply lookup_app_Some in Ho as [Ho|[Hge Ho]].
    + rewrite list_lookup_fmap in Ho. apply fmap_Some in Ho as (x & Hx & ->).
      exists x. split; [done|]. rewrite Forall_lookup in Hmq. by eapply Hmq.
    + rewrite lookup_drop, length_fmap, length_app in Ho. rewrite length_fmap, length_app in Hge.
      apply (H4 i). rewrite lookup_take_lt by done. rewrite <- Ho. f_equal. lia.
Qed.

Lemma append_shows h s ys :
  solid h s -> ys <> [] -> all_queue ys ->
  let '(h', s') := append growcap h s (Some <$> ys) in
  shows h' s' (members h s ++ ys) /\ keeps h h' [s] /\
  s_len s' = s_len s + length ys /\ (s_arr s' = s_arr s \/ (h_next h <= s_arr s')%N).
Proof.
  intros Hs Hne Hq. unfold append. rewrite length_fmap.
  assert (Hm : members h s ++ ys <> []) by (by destruct (members h s)).
  assert (Hmq : all_queue (members h s ++ ys)) by (apply Forall_app; auto using all_queue_members).
  pose proof (members_length h s Hs) as Hlen.
  assert (Ht : forall rest, take (s_len s) (arr_of h s) ++ (Some <$> ys) ++ rest =
    (Some <$> (members h s ++ ys)) ++ rest).
  { intros rest. change (take _ _) with (elems h s).
    by rewrite members_elems, fmap_app, <- app_assoc. }
  rewrite !Ht. case_decide as Hc.
  - split_and!; [|by apply overwrite_keeps|done|by left].
    eapply shows_intro; simpl; [by rewrite lookup_insert_eq|apply Hs| |done|done].
    rewrite length_app. lia.
  - assert (El : s_len s + length ys = length (members h s ++ ys)) by (rewrite length_app; lia).
    rewrite El. split_and!; [by apply (alloc_shows h)|apply (keeps_alloc h _ 0)|done|right; simpl; lia].
Qed.

(** ** Lists of groups *)

(** The groups [qs] show [gs], each in an array of its own. *)
Record groups_ok (h : heap) (qs : list slice) (gs : list (list subscription)) : Prop := {
  go_solid : Forall (solid h) qs;
  go_sep : NoDup (s_arr <$> qs);
  go_members : members h <$> qs = gs;
}.

Lemma members_frame h h' qs t : keeps h h' qs -> solid h t ->
  (forall s, s ∈ qs -> s_arr t = s_arr s -> s_len t <= s_len s) -> members h' t = members h t.
Proof. intros Hk Ht Hf. unfold members. by rewrite (keeps_frame _ _ _ Hk t (solid_alloc _ _ Ht) Hf). Qed.

(** Groups in other arrays do not change. *)
Lemma groups_ok_frame h h' qs ts gs : keeps h h' qs -> groups_ok h ts gs ->
  (forall s t, s ∈ qs -> t ∈ ts -> s_arr t = s_arr s -> s_len t <= s_len s) -> groups_ok h' ts gs.
Proof.
  intros Hk [Hs Hn <-] Hf. rewrite Forall_forall in Hs. split; [|done|].
  - rewrite Forall_forall. intros t Ht. by apply Hk, Hs.
  - apply list_fmap_ext. intros i t Ht%list_elem_of_lookup_2.
    eapply members_frame; eauto.
Qed.

Lemma fresh_NoDup h qs s i : Forall (solid h) qs -> NoDup (s_arr <$> qs) ->
  (h_next h <= s_arr s)%N -> NoDup (s_arr <$> <[i := s]> qs).
Proof.
  intros Hs Hn Hf. rewrite list_fmap_insert. revert i. induction qs as [|t qs IH]; intros i; [done|].
  apply Forall_cons in Hs as [Ht Hs]. rewrite fmap_cons, NoDup_cons in Hn. destruct Hn as [Hnt Hn].
  assert (Hlt : forall a, a ∈ s_arr <$> qs -> (a < h_next h)%N).
  { intros a (u & -> & Hu)%list_elem_of_fmap. rewrite Forall_forall in Hs. by apply Hs. }
  destruct i as [|i]; simpl.
  - apply NoDup_cons. split; [|done]. intros ?%Hlt. lia.
  - apply NoDup_cons. split; [|by apply IH]. intros Hin. apply list_elem_of_lookup in Hin as [j Hj].
    apply list_lookup_insert_Some in Hj as [(_ & E & _)|[_ Hj]].
    + pose proof (solid_alloc _ _ Ht). lia.
    + apply Hnt. by eapply list_elem_of_lookup_2.
Qed.

Lemma groups_append h qs gs i rq ys :
  groups_ok h qs gs -> qs !! i = Some rq -> ys <> [] -> all_queue ys ->
  let '(h', rq') := append growcap h rq (Some <$> ys) in
  groups_ok h' (<[i := rq']> qs) (alter (.++ ys) i gs) /\ keeps h h' [rq] /\
  extends h [rq] [rq'].
Proof.
  intros [Hs Hn Hm] Hi Hne Hq.
  assert (Hrq : solid h rq) by (rewrite Forall_lookup in Hs; by eapply Hs).
  pose proof (append_shows h rq ys Hrq Hne Hq) as Ha.
  destruct (append growcap h rq (Some <$> ys)) as [h' rq'].
  destruct Ha as ([Hs' Hm'] & Hk & Hl & Harr). split_and!; [|done|].
  2:{ intros s ->%list_elem_of_singleton. destruct Harr; [left|by right].
      exists rq. split_and!; [left|done|lia]. }
  assert (Hother : forall j t, j <> i -> qs !! j = Some t -> members h' t = members h t).
  { intros j t Hj Ht. eapply members_frame; [done|rewrite Forall_lookup in Hs; by eapply Hs|].
    intros s ->%list_elem_of_singleton E. exfalso. apply Hj.
    eapply (NoDup_lookup _ _ _ (s_arr rq) Hn); rewrite list_lookup_fmap; [rewrite Ht|rewrite Hi]; simpl; congruence. }
  split.
  - apply Forall_insert; [|done]. eapply Forall_impl; [exact Hs|]. apply Hk.
  - destruct Harr as [E|]; [|by eapply fresh_NoDup].
    rewrite list_fmap_insert, E, list_insert_id; [done|]. by rewrite list_lookup_fmap, Hi.
  - rewrite list_fmap_insert, Hm', <- Hm. apply list_eq. intros j.
    destruct (decide (j = i)) as [->|Hj].
    + rewrite list_lookup_insert_eq by (rewrite length_fmap; by eapply lookup_lt_Some).
      by rewrite list_lookup_alter_eq, list_lookup_fmap, Hi.
    + rewrite list_lookup_insert_ne, list_lookup_alter_ne by done.
      rewrite !list_lookup_fmap. destruct (qs !! j) as [t|] eqn:Ht; [|done]. simpl. f_equal. eauto.
Qed.

(** The pure counterpart of adding a group to a result. *)
Definition add_group (gs : list (list subscription)) (ys : list subscription)
  : list (list subscription) :=
  match group_name ys ≫= (fun q => find_group q gs) with
  | Some i => alter (.++ ys) i gs
  | None => gs ++ [ys]
  end.

Lemma add_group_head gs ys x xs : ys = x :: xs ->
  add_group gs ys = match find_group (queue_name x) gs with
                    | Some i => alter (.++ ys) i gs
                    | None => gs ++ [ys]
                    end.
Proof. by intros ->. Qed.

Lemma groups_push h qs gs s :
  groups_ok h qs gs -> solid h s -> s_arr s ∉ s_arr <$> qs ->
  groups_ok h (qs ++ [s]) (gs ++ [members h s]).
Proof.
  intros [Hs Hn <-] Hss Hni. split.
  - apply Forall_app. auto.
  - rewrite fmap_app. apply NoDup_app. split_and!; [done| |apply NoDup_singleton].
    intros a Ha. by intros ->%list_elem_of_singleton.
  - by rewrite fmap_app.
Qed.

Lemma find_group_lookup q gs i : find_group q gs = Some i -> i < length gs.
Proof.
  unfold find_group. intros ([j g] & Hj & ->)%fmap_Some.
  apply list_find_Some in Hj as (? & _). by eapply lookup_lt_Some.
Qed.

Lemma groups_fresh h qs gs a : groups_ok h qs gs -> a ∈ s_arr <$> qs -> (a < h_next h)%N.
Proof.
  intros [Hs _ _] (s & -> & H)%list_elem_of_fmap. rewrite Forall_forall in Hs. by apply Hs.
Qed.

Lemma extends_refl h qs : extends h qs qs.
Proof. intros s Hs. left. eauto. Qed.

Lemma extends_insert h qs i rq rq' :
  qs !! i = Some rq -> extends h [rq] [rq'] -> extends h qs (<[i := rq']> qs).
Proof.
  intros Hi He s Hs. apply list_elem_of_lookup in Hs as [j Hj].
  apply list_lookup_insert_Some in Hj as [(_ & <- & _)|[_ Hj]].
  - destruct (He rq') as [(s & ->%list_elem_of_singleton & ?)|]; [left| |by right].
    left. exists rq. split; [by eapply list_elem_of_lookup_2|done].
  - left. exists s. split; [by eapply list_elem_of_lookup_2|done].
Qed.

Lemma extends_trans h1 h2 qs1 qs2 qs3 : (h_next h1 <= h_next h2)%N ->
  extends h1 qs1 qs2 -> extends h2 qs2 qs3 -> extends h1 qs1 qs3.
Proof.
  intros Hn H1 H2 s Hs. destruct (H2 s Hs) as [(t & Ht & E & Hl)|]; [|right; lia].
  destruct (H1 t Ht) as [(u & Hu & E' & Hl')|]; [left|right; lia].
  exists u. split_and!; [done|congruence|lia].
Qed.

Lemma add_qsub_groups h qs gs sub :
  groups_ok h qs gs -> is_plain sub = false ->
  exists h' qs', add_qsub growcap h sub qs = Some (h', qs') /\
    groups_ok h' qs' (add_group gs [sub]) /\ keeps h h' qs /\ extends h qs qs'.
Proof.
  intros Hg Hp. unfold add_qsub. rewrite findQSliceForSub_group by (done || apply Hg).
  rewrite (go_members _ _ _ Hg). unfold add_group. simpl.
  destruct (find_group (queue_name sub) gs) as [i|] eqn:Ef.
  - apply find_group_lookup in Ef. rewrite <- (go_members _ _ _ Hg), length_fmap in Ef.
    apply lookup_lt_is_Some_2 in Ef as [rq Hi]. rewrite Hi. simpl.
    pose proof (groups_append h qs gs i rq [sub] Hg Hi) as Ha. simpl in Ha.
    destruct (append growcap h rq [Some sub]) as [h' rq'].
    destruct Ha as (Ha & Hk & He); [done|by constructor|].
    do 2 eexists. split_and!; [done|done| |by eapply extends_insert].
    eapply keeps_weaken; [|done]. intros s ->%list_elem_of_singleton. by eapply list_elem_of_lookup_2.
  - do 2 eexists. split; [done|].
    destruct (alloc_shows h [sub] []) as ([Hs Hm] & Harr & _); [done|by constructor|].
    assert (Hk : keeps h (alloc h [Some sub] 1).1 qs) by apply keeps_alloc.
    simpl in *. split_and!; [|done|].
    + rewrite <- Hm. apply groups_push; [|done|].
      * eapply groups_ok_frame; [apply (keeps_alloc h [Some sub] 1 [])|done|].
        by intros ? ? ?%elem_of_nil.
      * intros Hin%(groups_fresh _ _ _ _ Hg). simpl in Hin. lia.
    + intros s [Hs'| ->%list_elem_of_singleton]%elem_of_app; [by apply extends_refl|right; simpl; lia].
Qed.

(** The loop over the groups of the visited nodes. *)
Lemma add_qsubs_to_results_groups nqs : forall h rqs gs ns,
  groups_ok h rqs gs -> groups_ok h nqs ns ->
  (forall a, a ∈ s_arr <$> rqs -> a ∉ s_arr <$> nqs) ->
  exists h' rqs', add_qsubs_to_results growcap h nqs rqs = Some (h', rqs') /\
    groups_ok h' rqs' (foldl add_group gs ns) /\
    keeps h h' (rqs ++ nqs) /\ extends h (rqs ++ nqs) rqs'.
Proof.
  induction nqs as [|qr nqs IH]; intros h rqs gs ns Hr Hn Hd.
  { destruct Hn as [_ _ <-]. do 2 eexists. split_and!; [done|done|apply keeps_refl|].
    rewrite app_nil_r. apply extends_refl. }
  assert (Hqr : solid h qr) by (by eapply Forall_inv, Hn).
  assert (Hnq : groups_ok h nqs (members h <$> nqs)).
  { destruct Hn as [[_ ?]%Forall_cons Hnd _]. rewrite fmap_cons in Hnd.
    apply NoDup_cons in Hnd as [_ ?]. by split. }
  rewrite <- (go_members _ _ _ Hn). simpl.
  rewrite decide_False by (pose proof (solid_pos _ _ Hqr); lia).
  destruct (members_head h qr Hqr) as (x & xs & Ex). rewrite first_sub_solid, Ex by done. simpl.
  assert (Hx : is_plain x = false) by (eapply members_queue; [done|rewrite Ex; left]).
  rewrite findQSliceForSub_group, (go_members _ _ _ Hr) by (done || apply Hr). simpl.
  rewrite <- Ex, members_elems, (add_group_head gs _ x xs Ex) by done.
  pose proof (go_sep _ _ _ Hn) as Hsep. rewrite fmap_cons, NoDup_cons in Hsep.
  destruct (find_group (queue_name x) gs) as [i|] eqn:Ef.
  - apply find_group_lookup in Ef. rewrite <- (go_members _ _ _ Hr), length_fmap in Ef.
    apply lookup_lt_is_Some_2 in Ef as [rq Hi]. rewrite Hi. simpl.
    pose proof (groups_append h rqs gs i rq (members h qr) Hr Hi) as Ha.
    destruct (append growcap h rq (Some <$> members h qr)) as [h1 rq'].
    destruct Ha as (Ha & Hk & He); [by rewrite Ex|by apply all_queue_members|].
    assert (Hrq : rq ∈ rqs) by (by eapply list_elem_of_lookup_2).
    assert (Hdq : forall t, t ∈ nqs -> s_arr t <> s_arr rq).
    { intros t Ht E. apply (Hd (s_arr rq)); [by apply list_elem_of_fmap_2|].
      rewrite <- E. right. by apply list_elem_of_fmap_2. }
    destruct (IH h1 (<[i := rq']> rqs) _ (members h <$> nqs) Ha) as (h' & rqs' & -> & Hg & Hk' & He').
    { eapply groups_ok_frame; [done..|]. intros s t ->%list_elem_of_singleton Ht E. by destruct (Hdq t). }
    { intros a (s & -> & Hs)%list_elem_of_fmap Hin.
      destruct (extends_insert _ _ _ _ _ Hi He s Hs) as [(s0 & Hs0 & E & _)|Hf].
      - apply (Hd (s_arr s0)); [by apply list_elem_of_fmap_2|right; by rewrite <- E].
      - pose proof (groups_fresh _ _ _ _ Hnq Hin). lia. }
    assert (Hext : extends h (rqs ++ qr :: nqs) (<[i := rq']> rqs ++ nqs)).
    { intros s [Hs|Hs]%elem_of_app.
      - destruct (extends_insert _ _ _ _ _ Hi He s Hs) as [(s0 & ? & ?)|]; [left|by right].
        exists s0. rewrite elem_of_app. auto.
      - left. exists s. rewrite elem_of_app, elem_of_cons. auto. }
    do 2 eexists. split_and!; [done|done| |].
    + eapply keeps_trans; [|exact Hk'|done]. eapply keeps_weaken; [|done].
      intros s ->%list_elem_of_singleton. rewrite elem_of_app. auto.
    + eapply extends_trans; [apply Hk|done|done].
  - destruct (IH h (rqs ++ [qr]) (gs ++ [members h qr]) (members h <$> nqs))
      as (h' & rqs' & -> & Hg & Hk & He).
    + apply groups_push; [done|done|]. intros Hin. apply (Hd _ Hin). left.
    + done.
    + intros a. rewrite fmap_app, elem_of_app.
      intros [Ha| ->%list_elem_of_singleton] Hin; [apply (Hd _ Ha); by right|by apply Hsep].
    + rewrite <- app_assoc in Hk, He. eauto 10.
Qed.
End heap_effects.

(** ** Copies and the cache *)

Section cache_effects.
Context (growcap : nat -> nat -> nat).

Lemma copy_qsubs_groups qs : forall h,
  Forall (solid h) qs ->
  let '(h', qs') := copy_qsubs growcap h qs in
  groups_ok h' qs' (members h <$> qs) /\ keeps h h' [] /\ extends h [] qs'.
Proof.
  induction qs as [|s qs IH]; intros h Hs.
  { simpl. split_and!; [by repeat constructor|apply keeps_refl|]. by intros s ?%elem_of_nil. }
  apply Forall_cons in Hs as [Hs Hqs]. cbn [copy_qsubs]. rewrite members_elems by done.
  destruct (members_head h s Hs) as (x & xs & Ex).
  pose proof (append_nil_shows growcap h (members h s) []) as Ha.
  destruct (append_nil growcap h (Some <$> members h s)) as [h1 s1].
  destruct Ha as ([Hs1 Hm1] & Hk1 & Hf1); [by rewrite Ex|by apply all_queue_members|].
  assert (Hnil : forall (h h' : heap) t, keeps h h' [] -> solid h t -> members h' t = members h t).
  { intros ? ? t Hk Ht. eapply members_frame; [done..|]. by intros ? ?%elem_of_nil. }
  specialize (IH h1 (Forall_impl _ _ _ Hqs (keeps_solid _ _ _ Hk1))).
  destruct (copy_qsubs growcap h1 qs) as [h2 qs2]. destruct IH as ([Hs2 Hn2 Hm2] & Hk2 & He2).
  assert (Hf2 : forall s', s' ∈ qs2 -> (h_next h1 <= s_arr s')%N).
  { intros s' Hs'. destruct (He2 s' Hs') as [(? & ?%elem_of_nil & _)|]; done. }
  pose proof (solid_alloc _ _ Hs1). pose proof (keeps_next _ _ _ Hk1).
  cbv beta iota zeta. split_and!.
  - split.
    + constructor; [by apply Hk2|done].
    + rewrite fmap_cons. apply NoDup_cons. split; [|done].
      intros (s' & E & Hs'%Hf2)%list_elem_of_fmap. lia.
    + rewrite !fmap_cons, Hm2, (Hnil h1 h2), Hm1 by done. f_equal.
      apply list_fmap_ext. intros i t Ht. apply Hnil; [done|]. rewrite Forall_lookup in Hqs. by eapply Hqs.
  - eapply keeps_trans; [done..|]. by intros ? ?%elem_of_nil.
  - intros s' [->|Hs'%Hf2]%elem_of_cons; right; lia.
Qed.

Lemma add_to_result_groups h sub r :
  Forall (solid h) (r_qsubs r) ->
  exists h' r', add_to_result growcap h sub r = Some (h', r') /\
    Forall (solid h') (r_qsubs r') /\ keeps h h' [] /\ extends h [] (r_qsubs r').
Proof.
  intros Hs. unfold add_to_result, copyResult.
  pose proof (copy_qsubs_groups (r_qsubs r) h Hs) as Hc.
  destruct (copy_qsubs growcap h (r_qsubs r)) as [h1 qs1]. destruct Hc as (Hg & Hk & He).
  destruct (sub_queue sub) as [q|] eqn:Eq; simpl; [|do 2 eexists; split_and!; [done|apply Hg|done|done]].
  destruct (add_qsub_groups growcap h1 qs1 _ sub Hg) as (h2 & qs2 & -> & Hg2 & Hk2 & He2).
  { apply bool_decide_eq_false_2. congruence. }
  simpl. do 2 eexists. split_and!; [done|apply Hg2|by eapply keeps_trans|].
  eapply extends_trans; [apply Hk|done|done].
Qed.
End cache_effects.

(** ** Names of groups *)

(** A group is not empty and all its members have its name. *)
Definition group_ok (g : list subscription) : Prop :=
  g <> [] /\ forall x, x ∈ g -> group_name g = Some (queue_name x).

(** No two groups have the same name. *)
Record named (gs : list (list subscription)) : Prop := {
  named_ok : Forall group_ok gs;
  named_sep : NoDup (group_name <$> gs);
}.

#[export] Instance named_Permutation : Proper ((≡ₚ) ==> iff) named.
Proof. intros gs gs' E. split; intros [H1 H2]; split; by rewrite ?E in *; rewrite <- ?E in *. Qed.

Lemma group_ok_permutation g g' : g ≡ₚ g' -> group_ok g -> group_ok g' /\ group_name g' = group_name g.
Proof.
  intros E [Hne Hg].
  assert (Hn : group_name g' = group_name g).
  { destruct g' as [|x g']; [by apply Permutation_nil_r in E|]. symmetry. apply Hg. rewrite E. left. }
  split; [|done]. split.
  - intros ->. by apply Permutation_nil_r in E.
  - intros x Hx. rewrite Hn. apply Hg. by rewrite E.
Qed.

Lemma group_ok_app g ys : group_ok g -> group_ok ys -> group_name ys = group_name g ->
  group_ok (g ++ ys) /\ group_name (g ++ ys) = group_name g.
Proof.
  intros [Hg Hgn] [Hy Hyn] E.
  assert (Hn : group_name (g ++ ys) = group_name g) by (by destruct g).
  split; [|done]. split; [by destruct g|]. intros x [Hx|Hx]%elem_of_app; rewrite Hn; [auto|].
  rewrite <- E. auto.
Qed.

Lemma group_name_head g : group_ok g -> exists x xs, g = x :: xs /\ group_name g = Some (queue_name x).
Proof. intros [Hne _]. destruct g as [|x xs]; [done|]. eauto. Qed.

Lemma add_group_named gs ys :
  named gs -> group_ok ys ->
  named (add_group gs ys) /\ concat (add_group gs ys) ≡ₚ concat gs ++ ys.
Proof.
  intros [Hok Hsep] Hy. destruct (group_name_head ys Hy) as (x & xs & E & En).
  rewrite (add_group_head gs ys x xs E). unfold find_group.
  destruct (list_find _ gs) as [[i g]|] eqn:Ef; simpl.
  - apply list_find_Some in Ef as (Hi & Hg & _).
    assert (Hgok : group_ok g) by (rewrite Forall_lookup in Hok; by eapply Hok).
    destruct (group_ok_app g ys Hgok Hy) as [Ha Han]; [congruence|].
    pose proof (delete_Permutation gs i g Hi) as Ep.
    assert (Ep' : alter (.++ ys) i gs ≡ₚ (g ++ ys) :: delete i gs).
    { rewrite <- (delete_alter (.++ ys) i gs). apply delete_Permutation.
      by rewrite list_lookup_alter_eq, Hi. }
    rewrite Ep'. rewrite Ep in Hok, Hsep. split.
    + apply Forall_cons in Hok as [_ Hok]. split; [by constructor|].
      rewrite fmap_cons, Han. done.
    + transitivity (concat (g :: delete i gs) ++ ys); [|by rewrite <- Ep].
      simpl. rewrite <- !app_assoc. f_equiv. apply Permutation_app_comm.
  - apply list_find_None in Ef. split.
    + split; [apply Forall_app; auto|]. rewrite fmap_app. apply NoDup_app.
      split_and!; [done| |apply NoDup_singleton].
      intros n (g & -> & Hg)%list_elem_of_fmap Hin%list_elem_of_singleton.
      rewrite Forall_forall in Ef. apply (Ef g Hg). congruence.
    + rewrite concat_app. simpl. by rewrite app_nil_r.
Qed.

Lemma merge_named ns : forall gs, named gs -> Forall group_ok ns ->
  named (foldl add_group gs ns) /\ concat (foldl add_group gs ns) ≡ₚ concat gs ++ concat ns.
Proof.
  induction ns as [|g ns IH]; intros gs Hg Hn; simpl; [by rewrite app_nil_r|].
  apply Forall_cons in Hn as [Hgok Hn]. destruct (add_group_named gs g Hg Hgok) as [Hg' Hc].
  destruct (IH _ Hg' Hn) as [? Hc']. split; [done|]. by rewrite Hc', Hc, app_assoc.
Qed.

(** ** Removal from a group *)

(** Only the array [a] was written to. *)
Record clobbers (h h' : heap) (a : N) : Prop := {
  clobbers_next : (h_next h <= h_next h')%N;
  clobbers_frame : forall t, (s_arr t < h_next h)%N -> s_arr t <> a -> elems h' t = elems h t;
  clobbers_solid : forall t, solid h t -> s_arr t <> a -> solid h' t;
}.

Lemma clobbers_write h s a : clobbers h (write h s a) (s_arr s).
Proof.
  assert (Ha : forall t, s_arr t <> s_arr s -> arr_of (write h s a) t = arr_of h t)
    by (intros t Ht; unfold arr_of, write; simpl; by rewrite lookup_insert_ne).
  split; [done| |].
  - intros t _ Ht. unfold elems. by rewrite Ha.
  - intros t [H1 H2 H3 H4] Ht. split; [done|done| |]; unfold elems; by rewrite Ha.
Qed.

Lemma clobbers_keeps h h1 h2 a : clobbers h h1 a -> keeps h1 h2 [] -> clobbers h h2 a.
Proof.
  intros [N1 F1 S1] [N2 F2 S2]. split; [lia| |auto].
  intros t Ht Hne. rewrite F2; [auto|lia|]. by intros ? ?%elem_of_nil.
Qed.

Lemma swap_remove_take {A} (l : list A) i y : last l = Some y ->
  swap_remove i l = take (length l - 1) (<[i := y]> l).
Proof. unfold swap_remove. by intros ->. Qed.

Lemma index_of_spec {A} `{EqDecision A} (x : A) l :
  match index_of x l with Some i => l !! i = Some x | None => x ∉ l end.
Proof.
  unfold index_of. destruct (list_find (x =.) l) as [[i y]|] eqn:E; simpl.
  - by apply list_find_Some in E as (? & -> & _).
  - apply list_find_None in E. rewrite Forall_forall in E. intros Hx. by apply (E x).
Qed.

Section removal.
Context (growcap : nat -> nat -> nat).

(** The slice after the swap with the last element, before shrinking. *)
Lemma remove_write_elems h s i sub :
  solid h s -> members h s !! i = Some sub ->
  let a := arr_of h s in
  let last := s_len s - 1 in
  let h' := write h s (<[last := None]> (<[i := mjoin (a !! last)]> a)) in
  elems h' (Slice (s_arr s) last) = Some <$> swap_remove i (members h s) /\
  length (arr_of h' (Slice (s_arr s) last)) = length a.
Proof.
  intros Hs Hi a lst h'. pose proof (members_length h s Hs) as Hl. pose proof (solid_pos _ _ Hs) as Hp.
  assert (Ea : arr_of h' (Slice (s_arr s) lst) = <[lst := None]> (<[i := mjoin (a !! lst)]> a))
    by (unfold arr_of at 1, h', write; simpl; by rewrite lookup_insert_eq).
  split; [|by rewrite Ea, !length_insert].
  unfold elems. rewrite Ea. simpl. rewrite take_insert_ge by lia.
  destruct (last (members h s)) as [y|] eqn:Ey; [|apply last_None in Ey; rewrite Ey in Hl; simpl in Hl; lia].
  rewrite (swap_remove_take _ _ y Ey), Hl. fold lst.
  rewrite last_lookup, Hl in Ey. replace (Nat.pred (s_len s)) with lst in Ey by lia.
  apply lookup_lt_Some in Hi as Hlt.
  assert (Ha : a !! lst = Some (Some y)).
  { unfold a. rewrite solid_arr by done. rewrite lookup_app_l by (rewrite length_fmap; lia).
    by rewrite list_lookup_fmap, Ey. }
  rewrite Ha. simpl. unfold a. rewrite solid_arr by done.
  rewrite insert_app_l by (rewrite length_fmap; lia).
  rewrite take_app_le by (rewrite length_insert, length_fmap; lia).
  by rewrite <- list_fmap_insert, fmap_take.
Qed.

Lemma removeSubFromSlice_shows h sub s :
  solid h s ->
  let '(h', s', found) := removeSubFromSlice growcap h sub s in
  found = bool_decide (sub ∈ members h s) /\
  if found then
    clobbers h h' (s_arr s) /\ (s_arr s' = s_arr s \/ (h_next h <= s_arr s')%N) /\
    exists ms, members h s ≡ₚ sub :: ms /\ s_len s' = length ms /\ (ms <> [] -> shows h' s' ms)
  else h' = h /\ s' = s.
Proof.
  intros Hs. unfold removeSubFromSlice. pose proof (index_of_spec (Some sub) (elems h s)) as Hi.
  destruct (index_of (Some sub) (elems h s)) as [i|].
  2:{ split; [|done]. symmetry. apply bool_decide_eq_false_2. intros Hin. apply Hi.
      rewrite members_elems by done. by apply list_elem_of_fmap_2. }
  rewrite members_elems, list_lookup_fmap in Hi by done.
  apply fmap_Some in Hi as (y & Hi & [= <-]).
  destruct (remove_write_elems h s i sub Hs Hi) as [He Hc].
  pose proof (clobbers_write h s (<[s_len s - 1:=None]>
    (<[i:=mjoin (arr_of h s !! (s_len s - 1))]> (arr_of h s)))) as Hw.
  set (h1 := write h s _) in *. set (s1 := Slice (s_arr s) (s_len s - 1)) in *.
  set (ms := swap_remove i (members h s)) in *.
  pose proof (swap_remove_Permutation _ _ _ Hi) as Hp. fold ms in Hp.
  pose proof (members_length h s Hs) as Hl. rewrite (Permutation_length Hp) in Hl. simpl in Hl.
  assert (Hq : all_queue ms).
  { pose proof (all_queue_members h s Hs) as Hall. rewrite Hp in Hall. by apply Forall_cons in Hall as [_ ?]. }
  assert (Hf : true = bool_decide (sub ∈ members h s)).
  { symmetry. apply bool_decide_eq_true_2. by eapply list_elem_of_lookup_2. }
  assert (Hs1 : ms <> [] -> shows h1 s1 ms).
  { intros Hne. eapply shows_intro; [|apply (solid_alloc _ _ Hs)|simpl; lia|done|done].
    assert (El : elems h1 s1 ++ drop (s_len s1) (arr_of h1 s1) = arr_of h1 s1) by apply take_drop.
    rewrite He in El. rewrite El. unfold arr_of, h1, write. simpl. by rewrite lookup_insert_eq. }
  unfold shrinkAsNeeded. destruct (decide (_ <= 8)); [|destruct (decide (_ < 2 * _))]; simpl.
  - split_and!; [done..|by left|]. exists ms. split_and!; [done|simpl; lia|done].
  - rewrite He. pose proof (keeps_alloc h1) as Hk. split_and!; [done| |right; apply Hw|].
    + eapply clobbers_keeps; [done|]. apply (Hk _ 0).
    + exists ms. split_and!; [done|by rewrite length_fmap|]. intros Hne.
      pose proof (append_nil_shows growcap h1 ms [] Hne Hq) as Ha. by apply Ha.
  - split_and!; [done..|by left|]. exists ms. split_and!; [done|simpl; lia|done].
Qed.

Lemma groups_ok_perm h qs qs' gs :
  qs ≡ₚ qs' -> groups_ok h qs gs -> groups_ok h qs' (members h <$> qs') /\ gs ≡ₚ (members h <$> qs').
Proof.
  intros E [Hs Hn <-]. split; [split; [by rewrite <- E|by rewrite <- E|done]|by rewrite E].
Qed.

(** The groups in other arrays after a removal. *)
Lemma groups_ok_clobbered h h' a qs gs :
  clobbers h h' a -> groups_ok h qs gs -> a ∉ s_arr <$> qs -> groups_ok h' qs gs.
Proof.
  intros Hc [Hs Hn <-] Ha. rewrite Forall_forall in Hs.
  assert (Hne : forall t, t ∈ qs -> s_arr t <> a).
  { intros t Ht E. apply Ha. rewrite <- E. by apply list_elem_of_fmap_2. }
  split; [|done|].
  - rewrite Forall_forall. intros t Ht. apply (clobbers_solid _ _ _ Hc); auto.
  - apply list_fmap_ext. intros i t Ht%list_elem_of_lookup_2. unfold members.
    rewrite (clobbers_frame _ _ _ Hc); [done|apply Hs, Ht|auto].
Qed.

Lemma named_member gs g x :
  named gs -> g ∈ gs -> group_name g = Some (queue_name x) -> x ∈ concat gs -> x ∈ g.
Proof.
  intros [Hok Hsep] Hg Hn (g' & Hx & Hg')%list_elem_of_In%in_concat.
  apply list_elem_of_In in Hx, Hg'. rename Hx into Hg'', Hg' into Hx.
  rewrite Forall_forall in Hok. destruct (Hok g') as [_ Hn']; [done|].
  specialize (Hn' x Hx). apply list_elem_of_lookup in Hg as [i Hi], Hg'' as [j Hj].
  assert (i = j) as ->; [|congruence].
  eapply (NoDup_lookup _ _ _ (group_name g) Hsep); rewrite list_lookup_fmap; [by rewrite Hi|].
  rewrite Hj. simpl. congruence.
Qed.

Lemma find_group_None q gs : find_group q gs = None -> forall g, g ∈ gs -> group_name g <> Some q.
Proof. unfold find_group. intros E%fmap_None%list_find_None g Hg. rewrite Forall_forall in E. eauto. Qed.

Lemma find_group_Some q gs i : find_group q gs = Some i ->
  exists g, gs !! i = Some g /\ group_name g = Some q.
Proof. unfold find_group. intros ([j g] & Hj & ->)%fmap_Some. apply list_find_Some in Hj. naive_solver. Qed.

(** What is left when a group [m] of [m :: rest] loses the member [sub]. *)
Lemma named_shrink m ms rest sub :
  named (m :: rest) -> m ≡ₚ sub :: ms -> ms <> [] ->
  named (ms :: rest) /\ concat (m :: rest) ≡ₚ sub :: concat (ms :: rest).
Proof.
  intros [[Hok Hrest]%Forall_cons Hsep] E Hne. simpl. split; [|by rewrite E].
  destruct (group_ok_permutation _ _ E Hok) as [[_ Hn] En].
  destruct ms as [|x ms]; [done|]. simpl.
  assert (Hx : group_name (x :: ms) = group_name m).
  { rewrite <- En. symmetry. apply Hn. right. left. }
  split.
  - constructor; [|done]. split; [done|]. intros y Hy. rewrite Hx, <- En. apply Hn. by right.
  - rewrite fmap_cons, Hx. done.
Qed.

(** The list of groups after the group at [i] became [qr']. *)
Lemma shrunk_qsubs (qs : list slice) i qr qr' :
  qs !! i = Some qr ->
  (if decide (s_len qr' = 0) then swap_remove i (<[i := qr']> qs) else <[i := qr']> qs) ≡ₚ
  (if decide (s_len qr' = 0) then [] else [qr']) ++ delete i qs.
Proof.
  intros Hi. apply lookup_lt_Some in Hi.
  assert (Hi' : <[i := qr']> qs !! i = Some qr') by (by rewrite list_lookup_insert_eq).
  pose proof (delete_Permutation _ _ _ Hi') as Hd. rewrite delete_insert_list in Hd.
  case_decide; simpl; [|done].
  apply (Permutation_cons_inv (a := qr')). rewrite <- Hd. symmetry. by apply swap_remove_Permutation.
Qed.

(** The effect of a removal on the groups of a node. *)
Definition group_removed (h h' : heap) (qs qs' : list slice) gs (sub : subscription) : Prop :=
  exists a gs', a ∈ s_arr <$> qs /\ clobbers h h' a /\ groups_ok h' qs' gs' /\ named gs' /\
    concat gs ≡ₚ sub :: concat gs' /\
    forall s', s' ∈ qs' -> s_arr s' ∈ s_arr <$> qs \/ (h_next h <= s_arr s')%N.

Lemma remove_group_at h h' qs gs sub i qr qr' ms :
  groups_ok h qs gs -> named gs -> qs !! i = Some qr ->
  clobbers h h' (s_arr qr) -> (s_arr qr' = s_arr qr \/ (h_next h <= s_arr qr')%N) ->
  members h qr ≡ₚ sub :: ms -> s_len qr' = length ms -> (ms <> [] -> shows h' qr' ms) ->
  group_removed h h' qs
    (if decide (s_len qr' = 0) then swap_remove i (<[i := qr']> qs) else <[i := qr']> qs) gs sub.
Proof.
  intros Hg Hn Hi Hc Harr Hm Hl Hs.
  pose proof (delete_Permutation _ _ _ Hi) as Hp.
  destruct (groups_ok_perm _ _ _ _ Hp Hg) as [[Hgs Hgn Hgm] Hpg]. rewrite Hpg in Hn.
  apply Forall_cons in Hgs as [Hqr Hrest]. rewrite fmap_cons in Hgn. rewrite fmap_cons in Hpg, Hn.
  apply NoDup_cons in Hgn as [Hna Hgn].
  set (qs' := if decide _ then _ else _).
  pose proof (shrunk_qsubs qs i qr qr' Hi) as Hp'. fold qs' in Hp'.
  assert (Hrest' : groups_ok h' (delete i qs) (members h <$> delete i qs))
    by (eapply groups_ok_clobbered; [done|by split|done]).
  assert (Hqs : groups_ok h' (qr' :: delete i qs) (ms :: (members h <$> delete i qs)) \/ ms = []).
  { destruct (decide (ms = [])) as [|Hne]; [by right|left]. destruct (Hs Hne) as [Hs' Hm'].
    destruct Hrest' as [Hr1 Hr2 Hr3]. split; [by constructor| |by rewrite fmap_cons, Hm', Hr3].
    rewrite fmap_cons. apply NoDup_cons. split; [|done].
    destruct Harr as [->|Hf]; [done|]. intros Hin.
    assert (Hlt : (s_arr qr' < h_next h)%N); [|lia].
    apply list_elem_of_fmap in Hin as (t & -> & Ht). rewrite Forall_forall in Hrest. by apply Hrest. }
  exists (s_arr qr), (members h' <$> qs'). split_and!; [| |..].
  - rewrite Hp. left.
  - done.
  - destruct Hqs as [Hqs| ->]; simpl in Hl.
    + destruct (decide (s_len qr' = 0)).
      * eapply groups_ok_perm; [symmetry; exact Hp'|exact Hrest'].
      * eapply groups_ok_perm; [symmetry; exact Hp'|exact Hqs].
    + rewrite decide_True in Hp' by done. eapply groups_ok_perm; [symmetry; exact Hp'|exact Hrest'].
  - rewrite Hp'. destruct (decide (s_len qr' = 0)); simpl.
    + rewrite (go_members _ _ _ Hrest'). destruct Hn as [[_ ?]%Forall_cons Hns].
      rewrite fmap_cons in Hns. apply NoDup_cons in Hns as [_ ?]. by split.
    + destruct Hqs as [Hqs| ->]; [|done].
      change (list_fmap _ _ _ ?l) with (members h' <$> l).
      rewrite (shows_members _ _ _ (Hs ltac:(intros ->; done))), (go_members _ _ _ Hrest').
      eapply named_shrink; [exact Hn|exact Hm|]. by intros ->.
  - rewrite Hpg, Hp'. simpl. rewrite Hm. simpl. constructor.
    rewrite fmap_app, concat_app, (go_members _ _ _ Hrest'). f_equiv.
    destruct Hqs as [_| ->]; destruct (decide (s_len qr' = 0)) as [E|E]; simpl; try done.
    + rewrite E in Hl. by destruct ms.
    + rewrite app_nil_r, (shows_members _ _ _ (Hs ltac:(intros ->; done))). done.
  - intros s'. rewrite Hp'. intros [Hs'|Hs']%elem_of_app.
    + destruct (decide _); [by apply elem_of_nil in Hs'|]. apply list_elem_of_singleton in Hs' as ->.
      destruct Harr as [->|]; [left|by right]. apply list_elem_of_fmap_2. by eapply list_elem_of_lookup_2.
    + left. rewrite Hp. right. by apply list_elem_of_fmap_2.
Qed.

Lemma removeFromNode_groups h n gs sub :
  groups_ok h (n_qsubs n) gs -> named gs -> is_plain sub = false ->
  exists h' n', removeFromNode growcap h n sub = Some (h', n', bool_decide (sub ∈ concat gs)) /\
    n_psubs n' = n_psubs n /\
    if bool_decide (sub ∈ concat gs) then group_removed h h' (n_qsubs n) (n_qsubs n') gs sub
    else h' = h /\ n_qsubs n' = n_qsubs n.
Proof.
  intros Hg Hn Hp. unfold removeFromNode.
  assert (Hq : exists q, sub_queue sub = Some q).
  { apply bool_decide_eq_false_1 in Hp. destruct (sub_queue sub); [eauto|done]. }
  destruct Hq as [q ->]. rewrite findQSliceForSub_group, (go_members _ _ _ Hg) by (done || apply Hg).
  simpl. destruct (find_group (queue_name sub) gs) as [i|] eqn:Ef.
  - apply find_group_Some in Ef as (g & Hgi & Hgn). pose proof Hgi as Hgi'.
    rewrite <- (go_members _ _ _ Hg), list_lookup_fmap in Hgi.
    apply fmap_Some in Hgi as (qr & Hi & ->). rewrite Hi. simpl.
    assert (Hqr : solid h qr).
    { pose proof (go_solid _ _ _ Hg) as Hall. rewrite Forall_lookup in Hall. by eapply Hall. }
    pose proof (removeSubFromSlice_shows h sub qr Hqr) as Hr.
    destruct (removeSubFromSlice growcap h sub qr) as [[h' qr'] found]. destruct Hr as [Hf Hr].
    assert (Hiff : sub ∈ members h qr <-> sub ∈ concat gs).
    { split; [|intros; eapply named_member; [done|by eapply list_elem_of_lookup_2|done|done]].
      intros Hx. apply list_elem_of_In, in_concat. exists (members h qr).
      rewrite <- !list_elem_of_In. split; [by eapply list_elem_of_lookup_2|done]. }
    rewrite (bool_decide_ext _ _ Hiff) in Hf. subst found. do 2 eexists. split_and!; [done..|]. simpl.
    destruct (bool_decide (sub ∈ concat gs)).
    + destruct Hr as (Hc & Harr & ms & Hm & Hl & Hs). by eapply remove_group_at.
    + destruct Hr as [-> ->]. split; [done|]. pose proof (solid_pos _ _ Hqr).
      rewrite decide_False by lia. by rewrite list_insert_id.
  - do 2 eexists. rewrite bool_decide_eq_false_2; [done|].
    intros (g & Hx & Hg')%list_elem_of_In%in_concat. apply list_elem_of_In in Hx, Hg'.
    apply (find_group_None _ _ Ef g Hx). pose proof (named_ok _ Hn) as Hok.
    rewrite Forall_forall in Hok. destruct (Hok g Hx) as [_ Hgn]. by apply Hgn.
Qed.
End removal.

(** ** The trie and the cache *)

(** The groups of the trie by path, for the queue members [live]. *)
Record trie_ok (h : heap) (G : list tkey -> list slice) (live : list subscription) : Prop := {
  trie_groups : forall ks, groups_ok h (G ks) (members h <$> G ks);
  trie_named : forall ks, named (members h <$> G ks);
  trie_sep : forall ks ks' s s', s ∈ G ks -> s' ∈ G ks' -> s_arr s = s_arr s' -> ks = ks';
  trie_live : forall ks, concat (members h <$> G ks) ≡ₚ filter (fun x => sub_keys x = ks) live;
}.

(** A cached result shares arrays with nodes that cover its subject only. *)
Record entry_ok (h : heap) (G : list tkey -> list slice) (k : bytes) (r : SublistResult) : Prop := {
  entry_closed : closed_literal k = true;
  entry_solid : Forall (solid h) (r_qsubs r);
  entry_alias : forall s ks g, s ∈ r_qsubs r -> g ∈ G ks -> s_arr s = s_arr g ->
    ks ∈ covers (tokens k);
}.

Definition cache_ok (h : heap) (G : list tkey -> list slice) (cache : gmap bytes SublistResult) : Prop :=
  map_Forall (entry_ok h G) cache.

Lemma trie_alloc h G live ks g : trie_ok h G live -> g ∈ G ks -> (s_arr g < h_next h)%N.
Proof.
  intros Ht Hg. pose proof (go_solid _ _ _ (trie_groups _ _ _ Ht ks)) as Hs.
  rewrite Forall_forall in Hs. by apply Hs.
Qed.

Lemma trie_ok_ext h G G' live : (forall ks, G' ks = G ks) -> trie_ok h G live -> trie_ok h G' live.
Proof.
  intros E [H1 H2 H3 H4]. split; intros.
  - by rewrite E.
  - by rewrite E.
  - rewrite E in *. eauto.
  - by rewrite E.
Qed.

Lemma cache_ok_ext h G G' cache : (forall ks, G' ks = G ks) -> cache_ok h G cache -> cache_ok h G' cache.
Proof. intros E Hc k r Hr. destruct (Hc k r Hr) as [H1 H2 H3]. split; [done|done|]. intros. rewrite E in *. eauto. Qed.

(** A heap that keeps the groups of the trie. *)
Lemma trie_ok_keeps h h' qs G live : keeps h h' qs ->
  (forall ks t s, t ∈ G ks -> s ∈ qs -> s_arr t = s_arr s -> s_len t <= s_len s) ->
  trie_ok h G live -> trie_ok h' G live.
Proof.
  intros Hk Hf [H1 H2 H3 H4].
  assert (Hg : forall ks, groups_ok h' (G ks) (members h <$> G ks))
    by (intros ks; eapply groups_ok_frame; [done..|eauto]).
  split; [|intros ks; rewrite (go_members _ _ _ (Hg ks)); auto|done|intros ks; rewrite (go_members _ _ _ (Hg ks)); auto].
  intros ks. rewrite (go_members _ _ _ (Hg ks)). apply Hg.
Qed.

Lemma cache_ok_keeps h h' qs G cache : keeps h h' qs -> cache_ok h G cache -> cache_ok h' G cache.
Proof.
  intros Hk Hc k r Hr. destruct (Hc k r Hr) as [H1 H2 H3]. split; [done| |done].
  eapply Forall_impl; [exact H2|]. apply Hk.
Qed.

(** The groups with those at [P] replaced. *)
Definition upd (G : list tkey -> list slice) (P : list tkey) (qs : list slice) (ks : list tkey) : list slice :=
  if decide (ks = P) then qs else G ks.

(** The new groups at [P] use arrays of the old ones or new ones. *)
Definition from_arrays (h : heap) (qs qs' : list slice) : Prop :=
  forall s', s' ∈ qs' -> s_arr s' ∈ s_arr <$> qs \/ (h_next h <= s_arr s')%N.

Lemma extends_from h qs qs' : extends h qs qs' -> from_arrays h qs qs'.
Proof.
  intros He s' Hs'. destruct (He s' Hs') as [(s & Hs & E & _)|]; [left|by right].
  rewrite E. by apply list_elem_of_fmap_2.
Qed.

(** Replacing the groups of one node. *)
Lemma trie_ok_upd h h' G live live' P qs gs :
  trie_ok h G live -> from_arrays h (G P) qs ->
  groups_ok h' qs gs -> named gs -> concat gs ≡ₚ filter (fun x => sub_keys x = P) live' ->
  (forall ks, ks <> P -> groups_ok h' (G ks) (members h <$> G ks)) ->
  (forall ks, ks <> P -> filter (fun x => sub_keys x = ks) live' = filter (fun x => sub_keys x = ks) live) ->
  trie_ok h' (upd G P qs) live'.
Proof.
  intros Ht Hf Hg Hn Hl Hother Hlive.
  assert (Hm : forall ks, members h' <$> upd G P qs ks =
    if decide (ks = P) then gs else members h <$> G ks).
  { intros ks. unfold upd. case_decide; [apply Hg|]. by apply Hother. }
  assert (Hsep : forall ks s s', ks <> P -> s ∈ G ks -> s' ∈ qs -> s_arr s <> s_arr s').
  { intros ks s s' Hne Hs Hs' E. destruct (Hf s' Hs') as [Hin|Hfr].
    - apply list_elem_of_fmap in Hin as (t & Et & Hin). apply Hne.
      eapply (trie_sep _ _ _ Ht); [exact Hs|exact Hin|congruence].
    - pose proof (trie_alloc _ _ _ _ _ Ht Hs). lia. }
  split.
  - intros ks. rewrite Hm. unfold upd. case_decide; [done|]. by apply Hother.
  - intros ks. rewrite Hm. case_decide; [done|]. by apply (trie_named _ _ _ Ht).
  - intros ks ks' s s'. unfold upd. repeat case_decide; subst; try done; intros Hs Hs' E.
    + by edestruct (Hsep ks' s' s).
    + by edestruct (Hsep ks s s').
    + by eapply (trie_sep _ _ _ Ht).
  - intros ks. rewrite Hm. case_decide as E; [by rewrite E|]. rewrite Hlive by done. by apply (trie_live _ _ _ Ht).
Qed.

(** The entries that do not show an array of the node stay valid. *)
Lemma cache_ok_upd h h' G live P qs cache :
  trie_ok h G live -> from_arrays h (G P) qs ->
  cache_ok h G cache ->
  (forall k r, cache !! k = Some r -> Forall (solid h') (r_qsubs r)) -> cache_ok h' (upd G P qs) cache.
Proof.
  intros Ht Hf Hc Hs k r Hr. destruct (Hc k r Hr) as [H1 H2 H3]. split; [done|by eapply Hs|].
  intros s ks g Hin. unfold upd. case_decide as E; [|by apply H3]. rewrite E. intros Hg Ea.
  destruct (Hf g Hg) as [(t & Et & Hin')%list_elem_of_fmap|Hfr].
  - eapply H3; [done|exact Hin'|congruence].
  - rewrite Forall_forall in H2. pose proof (solid_alloc _ _ (H2 s Hin)). lia.
Qed.

Lemma groups_disjoint h G live P ks :
  trie_ok h G live -> ks <> P -> forall s t, s ∈ G P -> t ∈ G ks -> s_arr t <> s_arr s.
Proof. intros Ht Hne s t Hs Htt E. apply Hne. by eapply (trie_sep _ _ _ Ht). Qed.

Lemma trie_ok_insert h h' G live sub qs :
  trie_ok h G live ->
  groups_ok h' qs (add_group (members h <$> G (sub_keys sub)) [sub]) ->
  keeps h h' (G (sub_keys sub)) -> extends h (G (sub_keys sub)) qs ->
  trie_ok h' (upd G (sub_keys sub) qs) (sub :: live).
Proof.
  intros Ht Hg Hk He. pose proof (trie_named _ _ _ Ht (sub_keys sub)) as Hn.
  destruct (add_group_named _ [sub] Hn) as [Hn' Hc].
  { split; [done|]. by intros x ->%list_elem_of_singleton. }
  eapply trie_ok_upd; [done|by apply extends_from|done|done| | |].
  - rewrite Hc, filter_cons, decide_True by done. rewrite (trie_live _ _ _ Ht).
    symmetry. apply Permutation_cons_append.
  - intros ks Hne. eapply groups_ok_frame; [done|apply (trie_groups _ _ _ Ht)|].
    intros s t Hs Htt E. by destruct (groups_disjoint _ _ _ _ ks Ht Hne s t).
  - intros ks Hne. by rewrite filter_cons, decide_False by congruence.
Qed.

Lemma trie_ok_remove h h' G live live' sub qs :
  trie_ok h G live -> live ≡ₚ sub :: live' ->
  group_removed h h' (G (sub_keys sub)) qs (members h <$> G (sub_keys sub)) sub ->
  trie_ok h' (upd G (sub_keys sub) qs) live'.
Proof.
  intros Ht Hl (a & gs & Ha & Hcl & Hg & Hn & Hc & Hf).
  assert (Ht' : trie_ok h G (sub :: live')).
  { destruct Ht as [H1 H2 H3 H4]. split; [done..|]. intros ks. by rewrite H4, Hl. }
  eapply trie_ok_upd; [exact Ht'|done|done|done| | |].
  - apply (Permutation_cons_inv (a := sub)). rewrite <- Hc, (trie_live _ _ _ Ht'), filter_cons.
    by rewrite decide_True.
  - intros ks Hne. eapply groups_ok_clobbered; [done|apply (trie_groups _ _ _ Ht')|].
    intros (t & -> & Hin)%list_elem_of_fmap. apply list_elem_of_fmap in Ha as (s & E & Hs).
    by destruct (groups_disjoint _ _ _ _ ks Ht' Hne s t).
  - intros ks Hne. by rewrite filter_cons, decide_False by congruence.
Qed.

(** ** The operations *)

(** The groups of a trie by path. *)
Definition groups_at (l : level) (ks : list tkey) : list slice := at_path n_qsubs ks l.

Record q_inv (s : Sublist) (live : list subscription) : Prop := {
  q_trie : trie_ok (sl_heap s) (groups_at (sl_root s)) live;
  q_cache : cache_ok (sl_heap s) (groups_at (sl_root s)) (sl_cache s);
  q_live : Forall (fun x => wf_pattern (sub_subject x) = true) live;
}.

(** The multiset of queue subscriptions. *)
Definition queue_step (live : list subscription) (op : sl_op) : list subscription :=
  match op with
  | OpInsert sub =>
      if negb (is_plain sub) && insertable false (tokens (sub_subject sub)) then sub :: live else live
  | OpRemove sub => if is_plain sub then live else remove_one sub live
  | OpMatch _ _ => live
  end.

Lemma q_inv_new : q_inv NewSublist [].
Proof.
  assert (E : forall ks, groups_at newLevel ks = []) by (intros; apply (at_path_newLevel n_qsubs)).
  split; [|intros k r; simpl; by rewrite lookup_empty|constructor]. simpl.
  split; intros; rewrite ?E in *; try done.
  - by repeat constructor.
  - by repeat constructor.
  - by apply elem_of_nil in H.
Qed.

Section operations_inv.
Context (growcap : nat -> nat -> nat).

Lemma addToCache_loop_ok subject sub G live entries : forall h cache,
  trie_ok h G live -> cache_ok h G cache -> Forall (fun kr => entry_ok h G kr.1 kr.2) entries ->
  exists h' cache', addToCache_loop growcap subject sub h cache entries = Some (h', cache') /\
    trie_ok h' G live /\ cache_ok h' G cache'.
Proof.
  induction entries as [|[k r] entries IH]; intros h cache Ht Hc He; simpl; [eauto|].
  apply Forall_cons in He as [He Hes]. simpl in He.
  destruct (matchLiteral k subject); [|by apply IH].
  destruct (add_to_result_groups growcap h sub r) as (h1 & r1 & -> & Hs & Hk & Hx); [apply He|]. simpl.
  assert (Hnil : forall ks t s, t ∈ G ks -> s ∈ (@nil slice) -> s_arr t = s_arr s -> s_len t <= s_len s)
    by (by intros ? ? ? _ ?%elem_of_nil).
  apply IH.
  - by eapply trie_ok_keeps.
  - apply map_Forall_insert_2; [|by eapply cache_ok_keeps].
    split; [apply He|done|]. intros s ks g Hin Hg E.
    destruct (Hx s Hin) as [(? & ?%elem_of_nil & _)|Hf]; [done|].
    pose proof (trie_alloc _ _ _ _ _ Ht Hg). lia.
  - eapply Forall_impl; [exact Hes|]. intros [k' r'] [H1 H2 H3]. split; [done| |done].
    eapply Forall_impl; [exact H2|]. apply Hk.
Qed.

Lemma addToCache_ok subject sub G live h cache :
  trie_ok h G live -> cache_ok h G cache ->
  exists h' cache', addToCache growcap subject sub h cache = Some (h', cache') /\
    trie_ok h' G live /\ cache_ok h' G cache'.
Proof.
  intros Ht Hc. eapply addToCache_loop_ok; [done..|]. rewrite Forall_forall.
  intros [k r] Hin%elem_of_map_to_list. by apply Hc.
Qed.

(** Where the trie and the cache are after the token loop of [Insert]. *)
Lemma insert_level_q h root cache live sub :
  trie_ok h (groups_at root) live -> cache_ok h (groups_at root) cache ->
  let toks := tokens (sub_subject sub) in
  exists h' root', insert_level growcap sub h root false toks =
      Some (h', root', if insertable false toks then None else Some ErrInvalidSubject) /\
    trie_ok h' (groups_at root') (queue_step live (OpInsert sub)) /\
    cache_ok h' (groups_at root') cache.
Proof.
  intros Ht Hc toks.
  pose proof (insert_level_exact growcap sub toks h root false (tokens_ne _)) as Hx.
  unfold queue_step. fold toks. destruct (insertable false toks).
  2:{ destruct Hx as (l' & -> & Hs). do 2 eexists. rewrite andb_false_r.
      split_and!; [done|eapply trie_ok_ext; [|done]|eapply cache_ok_ext; [|done]];
        intros ks; apply (Hs _ n_qsubs _). }
  rewrite andb_true_r. destruct Hx as (n & Hn & Hx).
  assert (Hnq : n_qsubs n = groups_at root (sub_keys sub)) by apply (Hn _ n_qsubs _).
  unfold add_to_node in Hx. destruct (sub_queue sub) as [q|] eqn:Eq.
  - assert (Hp : is_plain sub = false) by (apply bool_decide_eq_false_2; congruence). rewrite Hp. simpl.
    pose proof (trie_groups _ _ _ Ht (sub_keys sub)) as Hg. rewrite <- Hnq in Hg.
    destruct (add_qsub_groups growcap h _ _ sub Hg Hp) as (h' & qs & Ea & Hg' & Hk & He).
    rewrite Ea in Hx. simpl in Hx. destruct Hx as (l' & -> & Hup). do 2 eexists. split; [done|].
    assert (Hu : forall ks, groups_at l' ks = upd (groups_at root) (sub_keys sub) qs ks)
      by (intros ks; apply (Hup _ n_qsubs _)).
    rewrite Hnq in *. split.
    + eapply trie_ok_ext; [exact Hu|]. by apply (trie_ok_insert h).
    + eapply cache_ok_ext; [exact Hu|]. eapply cache_ok_upd; [exact Ht|by apply extends_from|done|].
      intros k r Hr. eapply Forall_impl; [apply (Hc k r Hr)|]. apply Hk.
  - assert (Hp : is_plain sub = true) by (by apply bool_decide_eq_true_2). rewrite Hp.
    destruct Hx as (l' & -> & Hup). do 2 eexists.
    assert (Hu : forall ks, groups_at l' ks = groups_at root ks).
    { intros ks. unfold groups_at. rewrite (Hup _ n_qsubs _). case_decide as E; [|done]. simpl.
      rewrite Hnq, E. done. }
    split_and!; [done|by eapply trie_ok_ext|by eapply cache_ok_ext].
Qed.

Lemma Insert_q s live sub :
  q_inv s live -> subject_ok (sub_subject sub) = true ->
  exists s', Insert growcap s sub = Some (s',
      if insertable false (tokens (sub_subject sub)) then None else Some ErrInvalidSubject) /\
    q_inv s' (queue_step live (OpInsert sub)).
Proof.
  intros [Ht Hc Hl] Hok. unfold Insert.
  destruct (insert_level_q _ _ _ _ sub Ht Hc) as (h & root & -> & Ht' & Hc').
  set (live' := queue_step live (OpInsert sub)) in *. simpl.
  assert (Hl' : Forall (fun x => wf_pattern (sub_subject x) = true) live').
  { unfold live', queue_step. unfold subject_ok in Hok. destruct (is_plain sub); [done|].
    destruct (insertable _ _); [|done]. rewrite orb_false_r in Hok. by constructor. }
  destruct (insertable false (tokens (sub_subject sub))); [|eexists; split; [done|by split]].
  destruct (addToCache_ok (sub_subject sub) sub _ _ h (sl_cache s) Ht' Hc') as (h1 & c1 & -> & Ht1 & Hc1).
  eexists. split; [done|by split].
Qed.

Lemma covers_subject x k : wf_pattern (sub_subject x) = true ->
  sub_keys x ∈ covers (tokens k) <-> subject_matches (sub_subject x) k = true.
Proof. intros Hw. apply covers_match. by apply wf_pattern_keys_ok. Qed.

Lemma cache_ok_filter h G cache P `{!forall x, Decision (P x)} :
  cache_ok h G cache -> cache_ok h G (filter P cache).
Proof. intros Hc k r [Hr _]%map_lookup_filter_Some. by apply Hc. Qed.

(** [removeFromCache] drops every entry that shows an array of the node. *)
Lemma cache_ok_removed h h' G live sub qs cache :
  trie_ok h G live -> cache_ok h G cache -> wf_pattern (sub_subject sub) = true ->
  group_removed h h' (G (sub_keys sub)) qs (members h <$> G (sub_keys sub)) sub ->
  cache_ok h' (upd G (sub_keys sub) qs) (removeFromCache (sub_subject sub) cache).
Proof.
  intros Ht Hc Hw (a & gs & Ha & Hcl & _ & _ & _ & Hf).
  eapply cache_ok_upd; [exact Ht|exact Hf|by apply cache_ok_filter|].
  intros k r [Hr Hm]%map_lookup_filter_Some. simpl in Hm. destruct (Hc k r Hr) as [H1 H2 H3].
  rewrite Forall_forall in H2 |- *. intros s Hs. apply (clobbers_solid _ _ _ Hcl); [by apply H2|].
  intros Ea. apply list_elem_of_fmap in Ha as (g & E & Hg).
  specialize (H3 s _ g Hs Hg (eq_trans Ea E)). rewrite covers_subject, <- matchLiteral_matches in H3 by done.
  congruence.
Qed.

Lemma remove_one_nin (x : subscription) l : x ∉ l -> remove_one x l = l.
Proof. intros Hx. by destruct (remove_one_spec x l) as [[? _]|[_ ?]]. Qed.

Lemma Remove_q s live sub :
  q_inv s live -> subject_ok (sub_subject sub) = true ->
  exists s' e, Remove growcap s sub = Some (s', e) /\ q_inv s' (queue_step live (OpRemove sub)) /\
    (is_plain sub = false -> e = None <-> sub ∈ live).
Proof.
  intros [Ht Hc Hl] Hok. unfold Remove, queue_step. set (toks := tokens (sub_subject sub)).
  pose proof (remove_level_exact growcap sub toks (sl_heap s) (sl_root s) false (tokens_ne _)) as Hx.
  assert (Hlw : sub ∈ live -> wf_pattern (sub_subject sub) = true)
    by (rewrite Forall_forall in Hl; apply Hl).
  unfold subject_ok in Hok. fold toks in Hok. destruct (insertable false toks) eqn:Ei.
  2:{ destruct Hx as (l' & e & -> & Hs). simpl. do 2 eexists. split; [done|].
      assert (Hn : sub ∉ live) by (intros Hw%Hlw%wf_pattern_insertable; unfold toks in Ei; congruence).
      rewrite remove_one_nin by done. split; [|by split].
      assert (E : forall ks, groups_at l' ks = groups_at (sl_root s) ks) by (intros; apply (Hs _ n_qsubs _)).
      destruct (is_plain sub); (split; simpl; [by eapply trie_ok_ext|by eapply cache_ok_ext|done]). }
  rewrite orb_false_r in Hok. destruct Hx as (n & Hn & Hx).
  assert (Hnq : n_qsubs n = groups_at (sl_root s) (sub_keys sub)) by apply (Hn _ n_qsubs _).
  destruct (is_plain sub) eqn:Hp.
  - unfold removeFromNode in Hx. apply bool_decide_eq_true_1 in Hp as Hq. rewrite Hq in Hx.
    destruct (removeSubFromList sub (n_psubs n)) as [ps found]. destruct Hx as (l' & -> & Hup). simpl.
    assert (E : forall ks, groups_at l' ks = groups_at (sl_root s) ks).
    { intros ks. unfold groups_at. rewrite (Hup _ n_qsubs _). case_decide as E; [|done]. simpl. by rewrite Hnq, E. }
    destruct found; do 2 eexists; (split; [done|]); (split; [|done]);
      (split; simpl; [by eapply trie_ok_ext|eapply cache_ok_ext; [done|]|done]); [|done].
    by apply cache_ok_filter.
  - pose proof (trie_groups _ _ _ Ht (sub_keys sub)) as Hg. pose proof (trie_named _ _ _ Ht (sub_keys sub)) as Hnm.
    rewrite <- Hnq in Hg, Hnm.
    destruct (removeFromNode_groups growcap _ n _ sub Hg Hnm Hp) as (h' & n' & Er & _ & Hr).
    rewrite Er in Hx. destruct Hx as (l' & -> & Hup). simpl.
    assert (Hiff : sub ∈ concat (members (sl_heap s) <$> n_qsubs n) <-> sub ∈ live).
    { rewrite Hnq, (trie_live _ _ _ Ht), list_elem_of_filter. naive_solver. }
    rewrite (bool_decide_ext _ _ Hiff) in Hr |- *. clear Hiff.
    assert (E : forall ks, groups_at l' ks = upd (groups_at (sl_root s)) (sub_keys sub) (n_qsubs n') ks)
      by (intros ks; apply (Hup _ n_qsubs _)).
    destruct (bool_decide_reflect (sub ∈ live)) as [Hin|Hnin]; do 2 eexists; (split; [done|]); (split; [|done]).
    + destruct (remove_one_spec sub live) as [[_ Hlive]|[? _]]; [|done]. rewrite Hnq in Hr.
      split; simpl.
      * eapply trie_ok_ext; [exact E|]. by apply (trie_ok_remove (sl_heap s) h' _ live).
      * eapply cache_ok_ext; [exact E|]. by eapply cache_ok_removed.
      * rewrite Hlive in Hl. by apply Forall_cons in Hl as [_ ?].
    + destruct Hr as [-> Hq]. rewrite remove_one_nin by done.
      assert (E' : forall ks, groups_at l' ks = groups_at (sl_root s) ks).
      { intros ks. rewrite E. unfold upd. destruct (decide (ks = sub_keys sub)) as [->|]; [by rewrite Hq|done]. }
      split; simpl; [by eapply trie_ok_ext|by eapply cache_ok_ext|done].
Qed.

(** The groups of distinct nodes, together. *)
Lemma groups_of_paths h G live kss : trie_ok h G live -> NoDup kss ->
  groups_ok h (kss ≫= G) (members h <$> (kss ≫= G)) /\
  Forall group_ok (members h <$> (kss ≫= G)) /\
  concat (members h <$> (kss ≫= G)) ≡ₚ kss ≫= (fun ks => filter (fun x => sub_keys x = ks) live).
Proof.
  intros Ht. induction kss as [|ks kss IH]; intros Hnd; [by repeat constructor|].
  apply NoDup_cons in Hnd as [Hks Hnd]. destruct (IH Hnd) as ([Hs Hn _] & Hok & Hc).
  pose proof (trie_groups _ _ _ Ht ks) as [Hs0 Hn0 _].
  rewrite !bind_cons, fmap_app, concat_app. split_and!.
  - split; [by apply Forall_app| |by rewrite fmap_app]. rewrite fmap_app. apply NoDup_app. split_and!; [done| |done].
    intros a (g & -> & Hg)%list_elem_of_fmap (g' & E & Hg')%list_elem_of_fmap.
    apply list_elem_of_bind in Hg' as (ks' & Hg' & Hks'). apply Hks.
    by rewrite (trie_sep _ _ _ Ht _ _ _ _ Hg Hg' E).
  - apply Forall_app. split; [|done]. apply (trie_named _ _ _ Ht).
  - by rewrite Hc, (trie_live _ _ _ Ht).
Qed.

(** A slice of the trie with a given array is the only one. *)
Lemma trie_slice_unique h G live ks ks' t t' :
  trie_ok h G live -> t ∈ G ks -> t' ∈ G ks' -> s_arr t = s_arr t' -> t = t'.
Proof.
  intros Ht H H' E. assert (ks = ks') as -> by (by eapply (trie_sep _ _ _ Ht)).
  apply list_elem_of_lookup in H as [i Hi], H' as [j Hj].
  assert (i = j) as ->; [|congruence].
  eapply (NoDup_lookup _ _ _ (s_arr t) (go_sep _ _ _ (trie_groups _ _ _ Ht ks')));
    rewrite list_lookup_fmap; [by rewrite Hi|]. rewrite Hj. simpl. congruence.
Qed.

(** What an uncached match makes of the trie. *)
Lemma matchLevel_q h root live cache subject :
  trie_ok h (groups_at root) live -> cache_ok h (groups_at root) cache ->
  Forall (fun x => wf_pattern (sub_subject x) = true) live -> closed_literal subject = true ->
  exists h' r, matchLevel growcap (Some root) (tokens subject) h (Result [] []) = Some (h', r) /\
    trie_ok h' (groups_at root) live /\ cache_ok h' (groups_at root) cache /\
    entry_ok h' (groups_at root) subject r /\
    named (members h' <$> r_qsubs r) /\ concat (members h' <$> r_qsubs r) ≡ₚ interested live subject.
Proof.
  intros Ht Hc Hw Hcl. unfold matchLevel. rewrite matchLevel_loop_visit. unfold add_all.
  set (vs := visit n_qsubs _ _ _ _). set (G := groups_at root) in *.
  assert (Hv : vs ≡ₚ covers (tokens subject) ≫= G).
  { unfold vs. rewrite (visit_covers n_qsubs). pose proof (tokens_ne subject). by destruct (tokens subject). }
  destruct (groups_of_paths _ _ _ _ Ht (NoDup_covers (tokens subject))) as (Hg & Hok & Hcat).
  destruct (groups_ok_perm _ _ _ _ (symmetry Hv) Hg) as [Hg' Hp]. rewrite Hp in Hok, Hcat.
  destruct (add_qsubs_to_results_groups growcap vs h [] [] _ ltac:(by repeat constructor) Hg') as
    (h' & rqs & E & Hgr & Hk & He); [by intros a ?%elem_of_nil|].
  change (r_qsubs (Result [] [])) with (@nil slice). rewrite E. simpl. simpl in Hk, He.
  assert (Hin : forall s, s ∈ vs -> exists ks, ks ∈ covers (tokens subject) /\ s ∈ G ks).
  { intros s. rewrite Hv, list_elem_of_bind. naive_solver. }
  assert (Hf : forall ks t s, t ∈ G ks -> s ∈ vs -> s_arr t = s_arr s -> s_len t <= s_len s).
  { intros ks t s Hgt Hs Ea. destruct (Hin s Hs) as (ks' & _ & Hgs).
    by rewrite (trie_slice_unique _ _ _ _ _ _ _ Ht Hgt Hgs Ea). }
  do 2 eexists. split_and!; [done|by eapply trie_ok_keeps|by eapply cache_ok_keeps| | |].
  - split; [done|apply Hgr|]. simpl. intros s ks g Hs Hgg Ea.
    destruct (He s Hs) as [(t & Ht' & Et & _)|Hfr].
    + destruct (Hin t Ht') as (ks' & Hks' & Hgt).
      by rewrite (trie_sep _ _ _ Ht ks ks' g t Hgg Hgt) by congruence.
    + pose proof (trie_alloc _ _ _ _ _ Ht Hgg). lia.
  - simpl. rewrite (go_members _ _ _ Hgr). apply merge_named; [by repeat constructor|done].
  - simpl. rewrite (go_members _ _ _ Hgr). destruct (merge_named (members h <$> vs) []) as [_ ->];
      [by repeat constructor|done|]. simpl. rewrite Hcat, bind_filter_classes by apply NoDup_covers.
    unfold interested. erewrite filter_ext_elem; [done|]. intros x Hx.
    rewrite Forall_forall in Hw. by apply covers_subject, Hw.
Qed.

Lemma Match_q ev s live subject :
  q_inv s live -> closed_literal subject = true ->
  exists s' r, Match growcap ev s subject = Some (s', r) /\ q_inv s' live /\
    Forall (solid (sl_heap s')) (r_qsubs r) /\
    (sl_cache s !! subject = None ->
      named (members (sl_heap s') <$> r_qsubs r) /\
      concat (members (sl_heap s') <$> r_qsubs r) ≡ₚ interested live subject).
Proof.
  intros [Ht Hc Hl] Hcl. unfold Match. destruct (sl_cache s !! subject) as [rc|] eqn:Ec.
  { do 2 eexists. split_and!; [done|by split|by apply (Hc subject)|done]. }
  destruct (matchLevel_q _ _ _ _ subject Ht Hc Hl Hcl) as (h & r & -> & Ht' & Hc' & He & Hn & Hcat). simpl.
  do 2 eexists. split_and!; [done| |apply He|done]. split; simpl; [done| |done].
  assert (Hi : cache_ok h (groups_at (sl_root s)) (<[subject := r]> (sl_cache s)))
    by (by apply map_Forall_insert_2).
  case_decide; [|done]. intros k r' Hr. apply Hi. by eapply evict_one_sub.
Qed.
End operations_inv.
