(* ===== verification/SublistContract.v ===== *)
(** * SublistContract: the sublist as a multiset

    The contract of [src/server/sublist.go] and its proof: for a history of
    operations on valid subjects no operation panics, the sublist answers as a
    multiset of subscriptions filtered by the meaning of their subjects, and
    the cache stays within its bound.  The last part shows, by running the
    model, what happens outside these hypotheses. *)

From S2P Require Import Prelude Subject Sublist SublistSpec SublistQueue.

(** ** The abstract multiset *)

Definition spec_step (live : list subscription) (op : sl_op) : list subscription :=
  match op with
  | OpInsert sub => if insertable false (tokens (sub_subject sub)) then sub :: live else live
  | OpRemove sub => remove_one sub live
  | OpMatch _ _ => live
  end.

Definition spec_run (ops : list sl_op) : list subscription := foldl spec_step [] ops.

Definition plains (live : list subscription) : list subscription :=
  filter (fun x => is_plain x = true) live.

Definition queued (live : list subscription) : list subscription :=
  filter (fun x => is_plain x = false) live.

Lemma remove_one_cons {A} `{EqDecision A} (x y : A) l :
  remove_one x (y :: l) = if decide (x = y) then l else y :: remove_one x l.
Proof.
  unfold remove_one, index_of. simpl. case_decide; [done|].
  by destruct (list_find _ l) as [[i ?]|].
Qed.

Lemma filter_remove_one P `{!forall x : subscription, Decision (P x)} x l :
  filter P (remove_one x l) = if decide (P x) then remove_one x (filter P l) else filter P l.
Proof.
  induction l as [|y l IH]; [by case_decide|]. rewrite remove_one_cons, !filter_cons.
  destruct (decide (x = y)) as [<-|Hne].
  - destruct (decide (P x)); [|done]. by rewrite remove_one_cons, decide_True.
  - rewrite filter_cons, IH. destruct (decide (P y)), (decide (P x)); try done.
    by rewrite remove_one_cons, decide_False.
Qed.

Lemma plains_step live op : plains (spec_step live op) = plain_step (plains live) op.
Proof.
  unfold plains. destruct op as [sub|sub|]; simpl; [| |done].
  - destruct (insertable _ _); rewrite ?andb_false_r; [|done].
    rewrite filter_cons. by destruct (is_plain sub).
  - rewrite filter_remove_one. by destruct (is_plain sub).
Qed.

Lemma queued_step live op : queued (spec_step live op) = queue_step (queued live) op.
Proof.
  unfold queued. destruct op as [sub|sub|]; simpl; [| |done].
  - destruct (insertable _ _); rewrite ?andb_false_r; [|done].
    rewrite filter_cons. by destruct (is_plain sub).
  - rewrite filter_remove_one. by destruct (is_plain sub).
Qed.

Lemma elem_of_parts x live : x ∈ live <-> x ∈ (if is_plain x then plains live else queued live).
Proof.
  unfold plains, queued. destruct (is_plain x) eqn:E; rewrite list_elem_of_filter; naive_solver.
Qed.

Lemma interested_plains live k : interested (plains live) k = plains (interested live k).
Proof. unfold interested, plains. rewrite !list_filter_filter. apply list_filter_iff. naive_solver. Qed.

Lemma interested_queued live k : interested (queued live) k = queued (interested live k).
Proof. unfold interested, queued. rewrite !list_filter_filter. apply list_filter_iff. naive_solver. Qed.

(** ** The invariant *)

Record contract (s : Sublist) (live : list subscription) : Prop := {
  con_plain : sl_inv s (plains live);
  con_queue : q_inv s (queued live);
  con_count : sl_count s = wrapu32 (Z.of_nat (length live));
  con_cache : CacheCount s <= slCacheMax;
}.

Lemma contract_new : contract NewSublist [].
Proof. split; [apply sl_inv_new|apply q_inv_new|done|]. unfold CacheCount. simpl. rewrite map_size_empty. lia. Qed.

Section steps.
Context (growcap : nat -> nat -> nat).

Lemma wrapu32_succ n : wrapu32 (wrapu32 (Z.of_nat n) + 1) = wrapu32 (Z.of_nat (S n)).
Proof. unfold wrapu32. rewrite Zplus_mod_idemp_l. f_equal. lia. Qed.

Lemma wrapu32_pred n : wrapu32 (wrapu32 (Z.of_nat (S n)) - 1) = wrapu32 (Z.of_nat n).
Proof. unfold wrapu32. rewrite Zminus_mod_idemp_l. f_equal. lia. Qed.

Lemma Insert_contract s live sub :
  contract s live -> subject_ok (sub_subject sub) = true ->
  exists s', Insert growcap s sub = Some (s',
      if insertable false (tokens (sub_subject sub)) then None else Some ErrInvalidSubject) /\
    contract s' (spec_step live (OpInsert sub)).
Proof.
  intros [Hp Hq Hn Hc] Hok. destruct (Insert_q growcap s _ sub Hq Hok) as (s' & E & Hq').
  exists s'. split; [done|]. split.
  - rewrite plains_step. by eapply Insert_inv.
  - by rewrite queued_step.
  - unfold Insert in E. apply bind_Some in E as ([[h l] e] & _ & E). destruct e; simpl in *.
    + destruct (insertable _ _); by simplify_eq.
    + apply bind_Some in E as ([h1 c1] & _ & E). destruct (insertable _ _); simplify_eq; simpl.
      by rewrite Hn, wrapu32_succ.
  - unfold Insert in E. apply bind_Some in E as ([[h l] e] & _ & E). destruct e; simplify_eq; [done|].
    apply bind_Some in E as ([h1 c1] & Ha & E). simplify_eq. unfold CacheCount in *. simpl.
    etransitivity; [|exact Hc]. rewrite <- !(size_dom (D := gset bytes)). apply subseteq_size.
    intros k [r Hr]%elem_of_dom. apply elem_of_dom.
    destruct (addToCache_lookup _ _ _ _ _ _ _ _ _ Ha Hr) as (r0 & ? & _). eauto.
Qed.

Lemma Remove_contract s live sub :
  contract s live -> subject_ok (sub_subject sub) = true ->
  exists s' e, Remove growcap s sub = Some (s', e) /\ (e = None <-> sub ∈ live) /\
    contract s' (spec_step live (OpRemove sub)).
Proof.
  intros [Hp Hq Hn Hc] Hok. destruct (Remove_q growcap s _ sub Hq Hok) as (s' & e & E & Hq' & He).
  destruct (Remove_inv growcap s _ sub s' e Hp Hok E) as [Hp' Hpe].
  assert (Hiff : e = None <-> sub ∈ live).
  { rewrite elem_of_parts. destruct (is_plain sub); auto. }
  exists s', e. split_and!; [done..|]. split.
  - by rewrite plains_step.
  - by rewrite queued_step.
  - unfold Remove in E. apply bind_Some in E as ([[h l] e'] & _ & E). simpl.
    destruct (remove_one_spec sub live) as [[Hin Hr]|[Hin Hr]]; destruct e'; simplify_eq; simpl.
    + by apply Hiff in Hin.
    + rewrite Hn, (Permutation_length Hr). simpl length. by rewrite wrapu32_pred.
    + by rewrite Hr.
    + by destruct Hin; apply Hiff.
  - unfold Remove in E. apply bind_Some in E as ([[h l] e'] & _ & E). destruct e'; simplify_eq; [done|].
    unfold CacheCount in *. simpl. etransitivity; [|exact Hc]. apply map_size_filter.
Qed.

Lemma evict_one_size ev cache : 0 < size cache -> size (evict_one ev cache) = size cache - 1.
Proof.
  intros Hs. unfold evict_one.
  destruct (lookup_lt_is_Some_2 (map_to_list cache) (ev mod size cache)) as [[k r] E].
  { rewrite length_map_to_list. apply Nat.mod_upper_bound. lia. }
  rewrite E. apply list_elem_of_lookup_2, elem_of_map_to_list in E.
  rewrite map_size_delete, E. lia.
Qed.

Lemma Match_contract ev s live subject :
  contract s live -> closed_literal subject = true ->
  exists s' r, Match growcap ev s subject = Some (s', r) /\ contract s' live /\
    r_psubs r ≡ₚ plains (interested live subject) /\ Forall (solid (sl_heap s')) (r_qsubs r) /\
    (sl_cache s !! subject = None ->
      named (members (sl_heap s') <$> r_qsubs r) /\
      concat (members (sl_heap s') <$> r_qsubs r) ≡ₚ queued (interested live subject)).
Proof.
  intros [Hp Hq Hn Hc] Hcl. destruct (Match_q growcap ev s _ subject Hq Hcl) as (s' & r & E & Hq' & Hs & Hg).
  destruct (Match_inv growcap ev s _ subject s' r Hp E) as [Hp' Hr].
  rewrite interested_plains in Hr. rewrite interested_queued in Hg.
  exists s', r. split_and!; [done| |auto|done|done].
  split; [done|done| |]; unfold Match in E; destruct (sl_cache s !! subject) as [rc|] eqn:Ec; simplify_eq; try done.
  - by apply bind_Some in E as ([h r'] & _ & ?); simplify_eq.
  - apply bind_Some in E as ([h r'] & _ & ?). simplify_eq. unfold CacheCount in *. simpl.
    assert (Hsz : size (<[subject := r]> (sl_cache s)) = S (size (sl_cache s))) by (by apply map_size_insert_None).
    case_decide; [rewrite evict_one_size by lia|]; lia.
Qed.

(** No history of valid operations panics, and it implements the multiset. *)
Lemma sl_run_contract ops : forall s live,
  contract s live -> forallb op_ok ops = true ->
  exists s', sl_run growcap s ops = Some s' /\ contract s' (foldl spec_step live ops).
Proof.
  induction ops as [|op ops IH]; intros s live Hs Hok; [eauto|].
  simpl in Hok. apply andb_prop in Hok as [Ho Hok]. simpl.
  destruct op as [sub|sub|ev subject]; simpl in Ho |- *.
  - destruct (Insert_contract s live sub Hs Ho) as (s' & -> & Hs'). simpl. by apply IH.
  - destruct (Remove_contract s live sub Hs Ho) as (s' & e & -> & _ & Hs'). simpl. by apply IH.
  - destruct (Match_contract ev s live subject Hs Ho) as (s' & r & -> & Hs' & _). simpl. by apply IH.
Qed.
End steps.

(** ** Properties *)

(** A subscription of the examples below. *)
Definition ex_sub (p : N) (subject : string) (queue : option bytes) : subscription :=
  Subscription p (Some 1%N) (bs subject) queue (bs "1").

(** What a [Match] after a history returns: the plain subscriptions, the
    members of the queue groups (by address, [None] for nil) and the count. *)
Definition match_after (growcap : nat -> nat -> nat) (ops : list sl_op) (subject : bytes)
  : option (list subscription * list (list (option N)) * Z) :=
  s ← sl_run growcap NewSublist ops;
  '(s', r) ← Match growcap 0 s subject;
  Some (r_psubs r, map (fun g => map (option_map sub_ptr) (elems (sl_heap s') g)) (r_qsubs r),
        sl_count s).

(** A history with both kinds of subscription, a refused subject and a removal. *)
Definition ex_ops : list sl_op :=
  [OpInsert (ex_sub 1 "foo.*" None); OpInsert (ex_sub 2 "foo.bar" (Some (bs "q")));
   OpInsert (ex_sub 3 "foo..bar" None); OpMatch 0 (bs "foo.bar");
   OpInsert (ex_sub 4 ">" None); OpRemove (ex_sub 1 "foo.*" None)].

(** C1. After any history of inserts, removes and matches with valid
    subjects (a pattern that is well formed or refused, a literal subject
    that is closed), whatever capacities [append] picks and whichever entries
    the full cache evicts, no operation has panicked and [Match] on a closed
    literal returns, as its plain subscriptions, exactly the live ones whose
    subject matches it: the cache never shows. *)
Theorem sublist_match_refines (growcap : nat -> nat -> nat) (ops : list sl_op) (ev : nat) (subject : bytes)
  (Hok : forallb op_ok ops = true) (Hcl : closed_literal subject = true) :
  exists s s' r, sl_run growcap NewSublist ops = Some s /\ Match growcap ev s subject = Some (s', r) /\
    r_psubs r ≡ₚ plains (interested (spec_run ops) subject).
Proof.
  destruct (sl_run_contract growcap ops _ _ contract_new Hok) as (s & Hs & Hc).
  destruct (Match_contract growcap ev s _ subject Hc Hcl) as (s' & r & Hm & _ & Hr & _). eauto 10.
Qed.

Lemma sublist_match_refines_witness : 
  exists s s' r, sl_run go_growcap NewSublist ex_ops = Some s /\
    Match go_growcap 0 s (bs "foo.bar") = Some (s', r) /\
    r_psubs r ≡ₚ plains (interested (spec_run ex_ops) (bs "foo.bar")).
Proof. apply (sublist_match_refines go_growcap ex_ops 0 (bs "foo.bar")); vm_compute; reflexivity. Defined.

(** C18. Under the same hypotheses, a [Match] that the cache does not answer
    returns the live queue subscriptions that match, partitioned into one
    group per queue name: every group is inhabited, its members have one
    name, no two groups share it, and together they are the matching queue
    subscriptions (each with its multiplicity). *)
Theorem sublist_match_queue_groups (growcap : nat -> nat -> nat) (ops : list sl_op) (ev : nat) (subject : bytes)
  (Hok : forallb op_ok ops = true) (Hcl : closed_literal subject = true) :
  exists s s' r, sl_run growcap NewSublist ops = Some s /\ Match growcap ev s subject = Some (s', r) /\
    (sl_cache s !! subject = None ->
      named (members (sl_heap s') <$> r_qsubs r) /\
      concat (members (sl_heap s') <$> r_qsubs r) ≡ₚ queued (interested (spec_run ops) subject)).
Proof.
  destruct (sl_run_contract growcap ops _ _ contract_new Hok) as (s & Hs & Hc).
  destruct (Match_contract growcap ev s _ subject Hc Hcl) as (s' & r & Hm & _ & _ & _ & Hr). eauto 10.
Qed.

Lemma sublist_match_queue_groups_witness : 
  exists s s' r, sl_run go_growcap NewSublist ex_ops = Some s /\
    Match go_growcap 0 s (bs "foo.baz") = Some (s', r) /\
    (sl_cache s !! bs "foo.baz" = None ->
      named (members (sl_heap s') <$> r_qsubs r) /\
      concat (members (sl_heap s') <$> r_qsubs r) ≡ₚ queued (interested (spec_run ex_ops) (bs "foo.baz"))).
Proof. apply (sublist_match_queue_groups go_growcap ex_ops 0 (bs "foo.baz")); vm_compute; reflexivity. Defined.

(** C33. The outcome of every operation in such a history: [Insert] fails with
    ErrInvalidSubject on exactly the subjects its token loop refuses, [Remove]
    succeeds on exactly the live subscriptions, [Count] is the number of live
    subscriptions (modulo 2^32) and the cache never holds more than
    [slCacheMax] entries. *)
Theorem sublist_outcomes (growcap : nat -> nat -> nat) (ops : list sl_op) (sub : subscription)
  (Hok : forallb op_ok ops = true) (Hsub : subject_ok (sub_subject sub) = true) :
  exists s s1 s2 e, sl_run growcap NewSublist ops = Some s /\
    Insert growcap s sub = Some (s1,
      if insertable false (tokens (sub_subject sub)) then None else Some ErrInvalidSubject) /\
    Remove growcap s sub = Some (s2, e) /\ (e = None <-> sub ∈ spec_run ops) /\
    Count s = wrapu32 (Z.of_nat (length (spec_run ops))) /\ CacheCount s <= slCacheMax.
Proof.
  destruct (sl_run_contract growcap ops _ _ contract_new Hok) as (s & Hs & Hc).
  destruct (Insert_contract growcap s _ sub Hc Hsub) as (s1 & Hi & _).
  destruct (Remove_contract growcap s _ sub Hc Hsub) as (s2 & e & Hr & He & _).
  exists s, s1, s2, e. split_and!; [done..|apply Hc|apply Hc].
Qed.

Lemma sublist_outcomes_witness : 
  exists s s1 s2 e, sl_run go_growcap NewSublist ex_ops = Some s /\
    Insert go_growcap s (ex_sub 4 ">" None) = Some (s1,
      if insertable false (tokens (bs ">")) then None else Some ErrInvalidSubject) /\
    Remove go_growcap s (ex_sub 4 ">" None) = Some (s2, e) /\
    (e = None <-> ex_sub 4 ">" None ∈ spec_run ex_ops) /\
    Count s = wrapu32 (Z.of_nat (length (spec_run ex_ops))) /\ CacheCount s <= slCacheMax.
Proof. apply (sublist_outcomes go_growcap ex_ops (ex_sub 4 ">" None)); vm_compute; reflexivity. Defined.


(** A cached result outlives the subscription it names.  [matchLiteral]
    does not match a literal subject that ends in a separator, although the
    trie does, so [removeFromCache] keeps the entry: after SUB foo.*, a
    publish to "foo." and UNSUB, [Match] on "foo." still returns the removed
    subscription, for every growth of the slices. *)
Theorem stale_cache_after_remove (growcap : nat -> nat -> nat) :
  let sub := ex_sub 1 "foo.*" None in
  let ops := [OpInsert sub; OpMatch 0 (bs "foo."); OpRemove sub] in
  match_after growcap ops (bs "foo.") = Some ([sub], [], 0%Z) /\
  interested (spec_run ops) (bs "foo.") = [].
Proof. split; vm_compute; reflexivity. Qed.

(** The same stale entry crashes the server when it holds a queue group:
    removing the last member writes nil into the array the entry shares, and
    the next queue subscription that covers the subject dereferences it in
    [findQSliceForSub].  SUB foo.* q, PUB foo., UNSUB, SUB > q panics. *)
Theorem nil_queue_member_panics (growcap : nat -> nat -> nat) :
  let q := Some (bs "q") in
  let a := ex_sub 1 "foo.*" q in
  let b := ex_sub 2 ">" q in
  let ops := [OpInsert a; OpMatch 0 (bs "foo."); OpRemove a] in
  match_after growcap ops (bs "foo.") = Some ([], [[None]], 0%Z) /\
  sl_run growcap NewSublist (ops ++ [OpInsert b]) = None.
Proof. split; vm_compute; reflexivity. Qed.

(** Queue groups of cached results share the spare capacity of the trie's
    arrays.  With three members on foo.> and one each on foo.bar and foo.baz
    (all in queue q), a [Match] on foo.baz overwrites the cached group of
    foo.bar: the member that subscribed to foo.bar is gone from it and the
    one that subscribed to foo.baz stands in its place. *)
Theorem cached_queue_group_overwritten :
  let q := Some (bs "q") in
  let ops := [OpInsert (ex_sub 1 "foo.>" q); OpInsert (ex_sub 2 "foo.>" q);
              OpInsert (ex_sub 3 "foo.>" q); OpInsert (ex_sub 4 "foo.bar" q);
              OpInsert (ex_sub 5 "foo.baz" q); OpMatch 0 (bs "foo.bar")] in
  match_after go_growcap ops (bs "foo.bar") =
    Some ([], [[Some 1%N; Some 2%N; Some 3%N; Some 4%N]], 5%Z) /\
  match_after go_growcap (ops ++ [OpMatch 0 (bs "foo.baz")]) (bs "foo.bar") =
    Some ([], [[Some 1%N; Some 2%N; Some 3%N; Some 5%N]], 5%Z).
Proof. split; vm_compute; reflexivity. Qed.

(** A token that contains a wildcard byte among others means one thing
    to the trie and another to the cache: after a publish to foo.bar, a
    subscription to "foo.b*" is added to the cached result for foo.bar,
    while the trie takes "b*" as an ordinary token and, without the cached
    entry, does not return it. *)
Theorem partial_wildcard_joins_cache (growcap : nat -> nat -> nat) :
  let sub := ex_sub 1 "foo.b*" None in
  match_after growcap [OpMatch 0 (bs "foo.bar"); OpInsert sub] (bs "foo.bar") =
    Some ([sub], [], 1%Z) /\
  match_after growcap [OpInsert sub] (bs "foo.bar") = Some ([], [], 1%Z).
Proof. split; vm_compute; reflexivity. Qed.
