(* ===== verification/Parser.v ===== *)
(** * Parser: the protocol parser of a connection

    [src/server/parser.go], whole.  [parse] is a state machine that is fed the
    read buffers of a connection one after the other; between two calls it
    keeps its state, the argument line read so far ([argBuf]) and the payload
    read so far ([msgBuf]).  The handlers it calls ([processPub], ...) belong
    to the client and are an interface here ([Handlers]), which the client
    implements.

    Buffers are values: [argBuf] and [msgBuf] are copies of the read buffer
    (into the [scratch] array, in disjoint parts, or into a new array), and a
    part of an argument that still refers to the read buffer is cloned before
    [parse] returns.  Indices are Go's [int]: the index that jumps over a
    payload wraps around.  A run-time panic is an outcome of its own. *)

From S2P Require Import Prelude.

(** ** Data *)

(** [type pubArg]; nil is [None] where the code distinguishes it. *)
Record pubArg := PubArg {
  pa_subject : bytes;
  pa_reply : option bytes;
  pa_sid : option bytes;
  pa_szb : bytes;
  pa_size : Z;
}.

(** The parser constants. *)
Inductive pstate :=
| OP_START | OP_PLUS | OP_PLUS_O | OP_PLUS_OK | OP_MINUS | OP_MINUS_E | OP_MINUS_ER
| OP_MINUS_ERR | OP_MINUS_ERR_SPC | MINUS_ERR_ARG | OP_C | OP_CO | OP_CON | OP_CONN
| OP_CONNE | OP_CONNEC | OP_CONNECT | CONNECT_ARG | OP_P | OP_PU | OP_PUB | OP_PUB_SPC
| PUB_ARG | OP_PI | OP_PIN | OP_PING | OP_PO | OP_PON | OP_PONG | MSG_PAYLOAD | MSG_END
| OP_S | OP_SU | OP_SUB | OP_SUB_SPC | SUB_ARG | OP_U | OP_UN | OP_UNS | OP_UNSU | OP_UNSUB
| OP_UNSUB_SPC | UNSUB_ARG | OP_M | OP_MS | OP_MSG | OP_MSG_SPC | MSG_ARG | OP_I | OP_IN
| OP_INF | OP_INFO | INFO_ARG.

#[export] Instance pstate_eq_dec : EqDecision pstate.
Proof. solve_decision. Defined.

(** [type parseState], without the [scratch] array. *)
Record parseState := ParseState {
  state : pstate;
  as_ : Z;
  drop_ : Z;
  pa : pubArg;
  argBuf : option bytes;
  msgBuf : option bytes;
}.

Definition CLIENT : Z := 0.
Definition ROUTER : Z := 1.
Definition INTERNALCLI : Z := 2.

Definition MAX_CONTROL_LINE_SIZE : Z := 1024.
Definition LEN_CR_LF : Z := 2.
Definition PROTO_SNIPPET_SIZE : Z := 32.

(** The errors of the server the parser and the handlers return. *)
Inductive srv_error :=
| ErrAuthorization
| ErrMaxPayload
| ErrMaxControlLine
| ErrHandler (msg : bytes)
| ErrParser (typ : Z) (st : pstate) (i : Z) (snip : bytes).

(** ** The handlers *)

(** What the parser calls on its client; [St] is the rest of the client. *)
Class Handlers (St : Type) := {
  h_typ : St -> Z;
  h_maxControlLine : St -> option Z;  (* None: no server or no options *)
  h_isAuthTimerSet : St -> bool;
  h_processPub : bytes -> pubArg -> St -> St * pubArg * option srv_error;
  h_processMsgArgs : bytes -> pubArg -> St -> St * pubArg * option srv_error;
  h_processMsg : pubArg -> bytes -> St -> St;
  h_processSub : bytes -> St -> St * option srv_error;
  h_processUnsub : bytes -> St -> St * option srv_error;
  h_processConnect : bytes -> St -> St * option srv_error;
  h_processInfo : bytes -> St -> St * option srv_error;
  h_processPing : St -> St;
  h_processPong : St -> St;
  h_processErr : bytes -> St -> St;
  h_authViolation : St -> St;
  h_sendErr : bytes -> St -> St;
  h_closeConnection : St -> St;
}.

(** What the parser relies on: an accepted message has a size of at most
    [maxSize], the limit on the control line is fixed, and only CONNECT deals
    with the authorization timer (a handler never arms it). *)
Definition session_kept {St} `{Handlers St} (s s' : St) : Prop :=
  h_maxControlLine s' = h_maxControlLine s /\
  (h_isAuthTimerSet s = false -> h_isAuthTimerSet s' = false).

Definition size_ok (maxSize : Z) (p : pubArg) : Prop := (0 <= pa_size p <= maxSize)%Z.

(** The invariant of the client that the handlers keep is [inv]. *)
Class HandlersOk (St : Type) `{Handlers St} (maxSize : Z) (inv : St -> Prop) : Prop := {
  processPub_ok : forall arg p s s' p', inv s ->
    h_processPub arg p s = (s', p', None) -> size_ok maxSize p' /\ session_kept s s' /\ inv s';
  processMsgArgs_ok : forall arg p s s' p', inv s -> h_typ s <> CLIENT ->
    h_processMsgArgs arg p s = (s', p', None) -> size_ok maxSize p' /\ session_kept s s' /\ inv s';
  processMsg_ok : forall p msg s, inv s -> session_kept s (h_processMsg p msg s) /\ inv (h_processMsg p msg s);
  processSub_ok : forall arg s s', inv s -> h_processSub arg s = (s', None) -> session_kept s s' /\ inv s';
  processUnsub_ok : forall arg s s', inv s -> h_processUnsub arg s = (s', None) -> session_kept s s' /\ inv s';
  processInfo_ok : forall arg s s', inv s -> h_processInfo arg s = (s', None) -> session_kept s s' /\ inv s';
  processPing_ok : forall s, inv s -> session_kept s (h_processPing s) /\ inv (h_processPing s);
  processPong_ok : forall s, inv s -> session_kept s (h_processPong s) /\ inv (h_processPong s);
  processErr_ok : forall arg s, inv s -> session_kept s (h_processErr arg s) /\ inv (h_processErr arg s);
  processConnect_ok : forall arg s s', inv s ->
    h_processConnect arg s = (s', None) -> h_maxControlLine s' = h_maxControlLine s /\ inv s';
}.

(** The client: its parse state and the rest. *)
Record pclient (St : Type) := PClient { ps : parseState; rest : St }.
Arguments PClient {St} ps rest.
Arguments ps {St} _.
Arguments rest {St} _.

Section parser.
Context {St : Type} `{Handlers St}.

(** The largest size that [make] can allocate. *)
Context (maxAlloc : Z).

Implicit Types c : pclient St.

(** ** Steps *)

(** How the body of the loop ends: it goes on (after [i++]), one of the two
    error labels, a return, or a panic. *)
Inductive step_result :=
| Next (c : pclient St) (authSet : bool) (i : Z)
| ParseErr (c : pclient St) (i : Z)
| AuthErr (c : pclient St)
| Return (c : pclient St) (err : srv_error)
| Panic.

Definition set_state c (st : pstate) : pclient St :=
  let p := ps c in
  PClient (ParseState st (as_ p) (drop_ p) (pa p) (argBuf p) (msgBuf p)) (rest c).

Definition set_ps c st as0 drop0 pa0 ab mb : pclient St :=
  PClient (ParseState st as0 drop0 pa0 ab mb) (rest c).

Definition set_rest c (s : St) : pclient St := PClient (ps c) s.

(** [case 'X', 'x':] *)
Definition is_ch (b : byte) (u l : ascii) : bool := bool_decide (b = u) || bool_decide (b = l).

Definition is_blank (b : byte) : bool := bool_decide (b = SPC) || bool_decide (b = TAB).

(** [buf[lo:hi]]; [None] is the panic of slice bounds out of range. *)
Definition go_slice (buf : bytes) (lo hi : Z) : option bytes :=
  if decide (0 <= lo <= hi /\ hi <= Z.of_nat (length buf))%Z
  then Some (take (Z.to_nat (hi - lo)) (drop (Z.to_nat lo) buf))
  else None.

(** A keyword state: one letter leads to the next state. *)
Definition expect (u l : ascii) (st : pstate) c (a : bool) (i : Z) (b : byte) : step_result :=
  if is_ch b u l then Next (set_state c st) a i else ParseErr c i.

Definition expect_blank (st : pstate) c (a : bool) (i : Z) (b : byte) : step_result :=
  if is_blank b then Next (set_state c st) a i else ParseErr c i.

(** A space state: blanks are skipped, another byte starts the argument. *)
Definition skip_blank (st : pstate) c (a : bool) (i : Z) (b : byte) : step_result :=
  if is_blank b then Next c a i
  else let p := ps c in Next (set_ps c st i (drop_ p) (pa p) (argBuf p) (msgBuf p)) a i.

(** An argument state: ['\r'] sets [drop], ['\n'] ends the argument (from
    [argBuf], which [clear] resets, or from the read buffer), and other bytes
    extend [argBuf] when there is one. *)
Definition arg_state (clear : bool) (k : bytes -> pclient St -> step_result)
    (buf : bytes) c (a : bool) (i : Z) (b : byte) : step_result :=
  let p := ps c in
  if bool_decide (b = CR) then
    Next (set_ps c (state p) (as_ p) 1 (pa p) (argBuf p) (msgBuf p)) a i
  else if bool_decide (b = LF) then
    match argBuf p with
    | Some arg =>
        k arg (set_ps c (state p) (as_ p) (drop_ p) (pa p)
                 (if clear then None else argBuf p) (msgBuf p))
    | None =>
        match go_slice buf (as_ p) (i - drop_ p)%Z with
        | Some arg => k arg c
        | None => Panic
        end
    end
  else
    match argBuf p with
    | Some arg =>
        Next (set_ps c (state p) (as_ p) (drop_ p) (pa p) (Some (arg ++ [b])) (msgBuf p)) a i
    | None => Next c a i
    end.

(** [c.drop, c.as, c.state = 0, i+1, OP_START]. *)
Definition next_op c (i : Z) : pclient St :=
  let p := ps c in set_ps c OP_START (i + 1)%Z 0 (pa p) (argBuf p) (msgBuf p).

(** [if err := h(arg); err != nil { return err }] and back to the start. *)
Definition call_op (h : bytes -> St -> St * option srv_error) (a : bool) (i : Z)
    (arg : bytes) c : step_result :=
  let '(s, err) := h arg (rest c) in
  let c := set_rest c s in
  match err with
  | Some e => Return c e
  | None => Next (next_op c i) a i
  end.

(** [case OP_START]. *)
Definition step_start c (a : bool) (i : Z) (b : byte) : step_result :=
  if negb (is_ch b "C" "c") && a then AuthErr c
  else if is_ch b "P" "p" then Next (set_state c OP_P) a i
  else if is_ch b "S" "s" then Next (set_state c OP_S) a i
  else if is_ch b "U" "u" then Next (set_state c OP_U) a i
  else if is_ch b "M" "m" then
    (if decide (h_typ (rest c) = CLIENT) then ParseErr c i else Next (set_state c OP_M) a i)
  else if is_ch b "C" "c" then Next (set_state c OP_C) a i
  else if is_ch b "I" "i" then Next (set_state c OP_I) a i
  else if bool_decide (b = "+"%char) then Next (set_state c OP_PLUS) a i
  else if bool_decide (b = "-"%char) then Next (set_state c OP_MINUS) a i
  else ParseErr c i.

(** The end of a PUB line: the payload starts at [i+1] and the index jumps
    to its last byte, unless a saved buffer collects it. *)
Definition end_pub (a : bool) (i : Z) (arg : bytes) c : step_result :=
  let '(s, p', err) := h_processPub arg (pa (ps c)) (rest c) in
  let c := PClient (ps c) s in
  let p := ps c in
  match err with
  | Some e => Return (set_ps c (state p) (as_ p) (drop_ p) p' (argBuf p) (msgBuf p)) e
  | None =>
      let as0 := (i + 1)%Z in
      let c := set_ps c MSG_PAYLOAD as0 0 p' (argBuf p) (msgBuf p) in
      match msgBuf p with
      | None => Next c a (wrap64 (as0 + pa_size p' - LEN_CR_LF))
      | Some _ => Next c a i
      end
  end.

(** [case OP_P], [OP_PU], [OP_PUB], [OP_PUB_SPC], [PUB_ARG]. *)
Definition step_pub (buf : bytes) c (a : bool) (i : Z) (b : byte) : step_result :=
  match state (ps c) with
  | OP_P =>
      if is_ch b "U" "u" then Next (set_state c OP_PU) a i
      else if is_ch b "I" "i" then Next (set_state c OP_PI) a i
      else if is_ch b "O" "o" then Next (set_state c OP_PO) a i
      else ParseErr c i
  | OP_PU => expect "B" "b" OP_PUB c a i b
  | OP_PUB => expect_blank OP_PUB_SPC c a i b
  | OP_PUB_SPC => skip_blank PUB_ARG c a i b
  | _ => arg_state false (end_pub a i) buf c a i b
  end.

(** [case MSG_PAYLOAD]. *)
Definition step_payload (buf : bytes) c (a : bool) (i : Z) (b : byte) : step_result :=
  let p := ps c in
  match msgBuf p with
  | Some mb =>
      let toCopy := (pa_size (pa p) - Z.of_nat (length mb))%Z in
      let avail := (Z.of_nat (length buf) - i)%Z in
      let toCopy := if decide (avail < toCopy)%Z then avail else toCopy in
      match (if decide (0 < toCopy)%Z
             then x ← go_slice buf i (i + toCopy); Some (mb ++ x, (i + toCopy - 1)%Z)
             else Some (mb ++ [b], i)) with
      | None => Panic
      | Some (mb, i) =>
          let st := if decide (pa_size (pa p) <= Z.of_nat (length mb))%Z then MSG_END else MSG_PAYLOAD in
          Next (set_ps c st (as_ p) (drop_ p) (pa p) (argBuf p) (Some mb)) a i
      end
  | None =>
      if decide (pa_size (pa p) <= wrap64 (i - as_ p))%Z then Next (set_state c MSG_END) a i
      else Next c a i
  end.

(** [case MSG_END]. *)
Definition step_msg_end (buf : bytes) c (a : bool) (i : Z) (b : byte) : step_result :=
  let p := ps c in
  if bool_decide (b = LF) then
    match (match msgBuf p with Some mb => Some (mb ++ [b]) | None => go_slice buf (as_ p) (i + 1) end) with
    | None => Panic
    | Some mb =>
        let c := set_ps c (state p) (as_ p) (drop_ p) (pa p) (argBuf p) (Some mb) in
        if decide (Z.of_nat (length mb) <> wrap64 (pa_size (pa p) + LEN_CR_LF))%Z then ParseErr c i
        else
          let c := set_rest c (h_processMsg (pa p) mb (rest c)) in
          Next (set_ps c OP_START (i + 1)%Z 0 (pa p) None None) a i
    end
  else
    match msgBuf p with
    | Some mb => Next (set_ps c (state p) (as_ p) (drop_ p) (pa p) (argBuf p) (Some (mb ++ [b]))) a i
    | None => Next c a i
    end.

(** [case OP_S] to [SUB_ARG]. *)
Definition step_sub (buf : bytes) c (a : bool) (i : Z) (b : byte) : step_result :=
  match state (ps c) with
  | OP_S => expect "U" "u" OP_SU c a i b
  | OP_SU => expect "B" "b" OP_SUB c a i b
  | OP_SUB => expect_blank OP_SUB_SPC c a i b
  | OP_SUB_SPC => skip_blank SUB_ARG c a i b
  | _ => arg_state true (call_op h_processSub a i) buf c a i b
  end.

(** [case OP_U] to [UNSUB_ARG]. *)
Definition step_unsub (buf : bytes) c (a : bool) (i : Z) (b : byte) : step_result :=
  match state (ps c) with
  | OP_U => expect "N" "n" OP_UN c a i b
  | OP_UN => expect "S" "s" OP_UNS c a i b
  | OP_UNS => expect "U" "u" OP_UNSU c a i b
  | OP_UNSU => expect "B" "b" OP_UNSUB c a i b
  | OP_UNSUB => expect_blank OP_UNSUB_SPC c a i b
  | OP_UNSUB_SPC => skip_blank UNSUB_ARG c a i b
  | _ => arg_state true (call_op h_processUnsub a i) buf c a i b
  end.

(** [c.drop, c.state = 0, OP_START] at the end of a line. *)
Definition line_end (h : St -> St) c (a : bool) (i : Z) (b : byte) : step_result :=
  if bool_decide (b = LF) then
    let c := set_rest c (h (rest c)) in
    let p := ps c in
    Next (set_ps c OP_START (as_ p) 0 (pa p) (argBuf p) (msgBuf p)) a i
  else Next c a i.

(** [case OP_PI] to [OP_PONG]. *)
Definition step_pingpong c (a : bool) (i : Z) (b : byte) : step_result :=
  match state (ps c) with
  | OP_PI => expect "N" "n" OP_PIN c a i b
  | OP_PIN => expect "G" "g" OP_PING c a i b
  | OP_PING => line_end h_processPing c a i b
  | OP_PO => expect "N" "n" OP_PON c a i b
  | OP_PON => expect "G" "g" OP_PONG c a i b
  | _ => line_end h_processPong c a i b
  end.

(** The end of a CONNECT line: [authSet] is read again. *)
Definition end_connect (i : Z) (arg : bytes) c : step_result :=
  let '(s, err) := h_processConnect arg (rest c) in
  let c := set_rest c s in
  let p := ps c in
  match err with
  | Some e => Return c e
  | None => Next (set_ps c OP_START (as_ p) 0 (pa p) (argBuf p) (msgBuf p))
              (h_isAuthTimerSet s) i
  end.

(** [case OP_C] to [CONNECT_ARG]. *)
Definition step_connect (buf : bytes) c (a : bool) (i : Z) (b : byte) : step_result :=
  match state (ps c) with
  | OP_C => expect "O" "o" OP_CO c a i b
  | OP_CO => expect "N" "n" OP_CON c a i b
  | OP_CON => expect "N" "n" OP_CONN c a i b
  | OP_CONN => expect "E" "e" OP_CONNE c a i b
  | OP_CONNE => expect "C" "c" OP_CONNEC c a i b
  | OP_CONNEC => expect "T" "t" OP_CONNECT c a i b
  | OP_CONNECT => skip_blank CONNECT_ARG c a i b
  | _ => arg_state true (end_connect i) buf c a i b
  end.

(** The end of a MSG line: the index jumps to the byte before the one after
    the payload, whether or not a buffer is saved. *)
Definition end_msg (a : bool) (i : Z) (arg : bytes) c : step_result :=
  let '(s, p', err) := h_processMsgArgs arg (pa (ps c)) (rest c) in
  let c := PClient (ps c) s in
  let p := ps c in
  match err with
  | Some e => Return (set_ps c (state p) (as_ p) (drop_ p) p' (argBuf p) (msgBuf p)) e
  | None =>
      let as0 := (i + 1)%Z in
      Next (set_ps c MSG_PAYLOAD as0 0 p' (argBuf p) (msgBuf p)) a (wrap64 (as0 + pa_size p' - 1))
  end.

(** [case OP_M] to [MSG_ARG]. *)
Definition step_msg (buf : bytes) c (a : bool) (i : Z) (b : byte) : step_result :=
  match state (ps c) with
  | OP_M => expect "S" "s" OP_MS c a i b
  | OP_MS => expect "G" "g" OP_MSG c a i b
  | OP_MSG => expect_blank OP_MSG_SPC c a i b
  | OP_MSG_SPC => skip_blank MSG_ARG c a i b
  | _ => arg_state false (end_msg a i) buf c a i b
  end.

(** [case OP_I] to [INFO_ARG]. *)
Definition step_info (buf : bytes) c (a : bool) (i : Z) (b : byte) : step_result :=
  match state (ps c) with
  | OP_I => expect "N" "n" OP_IN c a i b
  | OP_IN => expect "F" "f" OP_INF c a i b
  | OP_INF => expect "O" "o" OP_INFO c a i b
  | OP_INFO => skip_blank INFO_ARG c a i b
  | _ => arg_state true (call_op h_processInfo a i) buf c a i b
  end.

(** [case OP_PLUS] to [MINUS_ERR_ARG]. *)
Definition step_ok_err (buf : bytes) c (a : bool) (i : Z) (b : byte) : step_result :=
  match state (ps c) with
  | OP_PLUS => expect "O" "o" OP_PLUS_O c a i b
  | OP_PLUS_O => expect "K" "k" OP_PLUS_OK c a i b
  | OP_PLUS_OK => line_end (fun s => s) c a i b
  | OP_MINUS => expect "E" "e" OP_MINUS_E c a i b
  | OP_MINUS_E => expect "R" "r" OP_MINUS_ER c a i b
  | OP_MINUS_ER => expect "R" "r" OP_MINUS_ERR c a i b
  | OP_MINUS_ERR => expect_blank OP_MINUS_ERR_SPC c a i b
  | OP_MINUS_ERR_SPC => skip_blank MINUS_ERR_ARG c a i b
  | _ => arg_state true (call_op (fun arg s => (h_processErr arg s, None)) a i) buf c a i b
  end.

(** [switch c.state]. *)
Definition step (buf : bytes) c (a : bool) (i : Z) (b : byte) : step_result :=
  match state (ps c) with
  | OP_START => step_start c a i b
  | OP_P | OP_PU | OP_PUB | OP_PUB_SPC | PUB_ARG => step_pub buf c a i b
  | MSG_PAYLOAD => step_payload buf c a i b
  | MSG_END => step_msg_end buf c a i b
  | OP_S | OP_SU | OP_SUB | OP_SUB_SPC | SUB_ARG => step_sub buf c a i b
  | OP_U | OP_UN | OP_UNS | OP_UNSU | OP_UNSUB | OP_UNSUB_SPC | UNSUB_ARG => step_unsub buf c a i b
  | OP_PI | OP_PIN | OP_PING | OP_PO | OP_PON | OP_PONG => step_pingpong c a i b
  | OP_C | OP_CO | OP_CON | OP_CONN | OP_CONNE | OP_CONNEC | OP_CONNECT | CONNECT_ARG =>
      step_connect buf c a i b
  | OP_M | OP_MS | OP_MSG | OP_MSG_SPC | MSG_ARG => step_msg buf c a i b
  | OP_I | OP_IN | OP_INF | OP_INFO | INFO_ARG => step_info buf c a i b
  | OP_PLUS | OP_PLUS_O | OP_PLUS_OK | OP_MINUS | OP_MINUS_E | OP_MINUS_ER | OP_MINUS_ERR
  | OP_MINUS_ERR_SPC | MINUS_ERR_ARG => step_ok_err buf c a i b
  end.

(** ** The loop *)

(** How the loop ends; [Fell] is the normal end, with the final index. *)
Inductive loop_result :=
| Fell (c : pclient St) (i : Z)
| LParseErr (c : pclient St) (i : Z)
| LAuthErr (c : pclient St)
| LReturn (c : pclient St) (err : srv_error)
| LPanic
| LFuel.

Fixpoint parse_loop (fuel : nat) (buf : bytes) c (a : bool) (i : Z) : loop_result :=
  match fuel with
  | O => LFuel
  | S fuel =>
      if decide (i < Z.of_nat (length buf))%Z then
        if decide (i < 0)%Z then LPanic
        else
          match buf !! Z.to_nat i with
          | None => LPanic
          | Some b =>
              match step buf c a i b with
              | Next c' a' i' => parse_loop fuel buf c' a' (wrap64 (i' + 1))
              | ParseErr c' i' => LParseErr c' i'
              | AuthErr c' => LAuthErr c'
              | Return c' e => LReturn c' e
              | Panic => LPanic
              end
          end
      else Fell c i
  end.

(** ** The end of the buffer *)

(** [clonePubArg]: the parts move to [argBuf] and keep their values. *)
Definition clonePubArg c : pclient St :=
  let p := ps c in
  let subject := pa_subject (pa p) in
  let reply := default [] (pa_reply (pa p)) in
  let sid := default [] (pa_sid (pa p)) in
  let ab := subject ++ reply ++ sid ++ pa_szb (pa p) in
  let ls := length subject in
  let lr := length reply in
  let li := length sid in
  let pa' := PubArg
    (take ls ab)
    (match pa_reply (pa p) with Some _ => Some (take lr (drop ls ab)) | None => None end)
    (match pa_sid (pa p) with Some _ => Some (take li (drop (ls + lr) ab)) | None => None end)
    (drop (ls + lr + li) ab) (pa_size (pa p)) in
  set_ps c (state p) (as_ p) (drop_ p) pa' (Some ab) (msgBuf p).

Definition is_arg_state (st : pstate) : bool :=
  match st with
  | SUB_ARG | UNSUB_ARG | PUB_ARG | MSG_ARG | MINUS_ERR_ARG | CONNECT_ARG | INFO_ARG => true
  | _ => false
  end.

Definition is_msg_state (st : pstate) : bool :=
  match st with MSG_PAYLOAD | MSG_END => true | _ => false end.

(** How [parse] ends: nil or an error, with the client, or a panic. *)
Inductive parse_result :=
| Parsed (c : pclient St)
| Failed (c : pclient St) (err : srv_error)
| Panicked
| NoFuel.

(** The split buffer of an argument: [None] is a panic. *)
Definition save_arg (buf : bytes) c (i : Z) : option (pclient St) :=
  let p := ps c in
  match argBuf p with
  | Some _ => Some c
  | None =>
      x ← go_slice buf (as_ p) (i - drop_ p);
      Some (set_ps c (state p) (as_ p) (drop_ p) (pa p) (Some x) (msgBuf p))
  end.

(** The split buffer of a message.  The inner [None] is the jump to
    [parseErr]. *)
Definition save_msg (buf : bytes) c : option (option (pclient St)) :=
  let c := match argBuf (ps c) with None => clonePubArg c | Some _ => c end in
  let p := ps c in
  let size := pa_size (pa p) in
  x ← go_slice buf (as_ p) (Z.of_nat (length buf));
  let c' := set_ps c (state p) (as_ p) (drop_ p) (pa p) (argBuf p) (Some x) in
  if decide (MAX_CONTROL_LINE_SIZE - Z.of_nat (length (default [] (argBuf p))) < size)%Z then
    let lim := wrap64 (size + LEN_CR_LF) in
    if decide (lim < Z.of_nat (length x))%Z then Some None
    else if decide (maxAlloc < lim)%Z then None
    else Some (Some c')
  else Some (Some c').

(** [protoSnippet], before it is quoted. *)
Definition protoSnippet (start : Z) (buf : bytes) : option bytes :=
  let stop := (start + PROTO_SNIPPET_SIZE)%Z in
  let bufSize := Z.of_nat (length buf) in
  if decide (bufSize <= start)%Z then Some []
  else
    let stop := if decide (bufSize < stop)%Z then (bufSize - 1)%Z else stop in
    go_slice buf start stop.

(** The label [parseErr]. *)
Definition parse_err c (i : Z) (buf : bytes) : parse_result :=
  let c := set_rest c (h_sendErr (bs "Unknown Protocol Operation") (rest c)) in
  match protoSnippet i buf with
  | Some snip => Failed c (ErrParser (h_typ (rest c)) (state (ps c)) i snip)
  | None => Panicked
  end.

(** What follows the loop. *)
Definition end_of_buffer (mcl : Z) (buf : bytes) c (i : Z) : parse_result :=
  match (if is_arg_state (state (ps c)) then save_arg buf c i else Some c) with
  | None => Panicked
  | Some c =>
      if is_arg_state (state (ps c)) &&
         bool_decide (mcl < Z.of_nat (length (default [] (argBuf (ps c)))))%Z
      then
        let s := h_sendErr (bs "Maximum Control Line Exceeded") (rest c) in
        Failed (set_rest c (h_closeConnection s)) ErrMaxControlLine
      else if is_msg_state (state (ps c)) && bool_decide (msgBuf (ps c) = None) then
        match save_msg buf c with
        | None => Panicked
        | Some None =>
            parse_err (match argBuf (ps c) with None => clonePubArg c | Some _ => c end) i buf
        | Some (Some c') => Parsed c'
        end
      else Parsed c
  end.

(** [parse]. *)
Definition parse (buf : bytes) c : parse_result :=
  let mcl := default MAX_CONTROL_LINE_SIZE (h_maxControlLine (rest c)) in
  match parse_loop (2 * length buf + 3) buf c (h_isAuthTimerSet (rest c)) 0 with
  | Fell c i => end_of_buffer mcl buf c i
  | LParseErr c i => parse_err c i buf
  | LAuthErr c => Failed (set_rest c (h_authViolation (rest c))) ErrAuthorization
  | LReturn c e => Failed c e
  | LPanic => Panicked
  | LFuel => NoFuel
  end.

(** The read loop: the buffers of a connection until [parse] fails. *)
Fixpoint parse_all (bufs : list bytes) c : parse_result :=
  match bufs with
  | [] => Parsed c
  | buf :: bufs' =>
      match parse buf c with
      | Parsed c' => parse_all bufs' c'
      | r => r
      end
  end.

End parser.

(** ** No panic, no endless loop *)

Section safety.
Context {St : Type} `{Handlers St} (maxSize : Z) (inv : St -> Prop) `{!HandlersOk St maxSize inv}.
Context (maxAlloc : Z).
Implicit Types c : pclient St.
Local Open Scope Z_scope.

Abbreviation zlen l := (Z.of_nat (length l)).

(** The states of the operation that a client may not use. *)
Definition is_m_state (st : pstate) : bool :=
  match st with OP_M | OP_MS | OP_MSG | OP_MSG_SPC | MSG_ARG => true | _ => false end.

(** The state of the parser at index [i] of [buf]. *)
Record buf_inv (buf : bytes) c (i : Z) : Prop := {
  bi_index : 0 <= i;
  bi_drop : 0 <= drop_ (ps c) <= 1;
  bi_arg : is_arg_state (state (ps c)) = true -> argBuf (ps c) = None ->
    0 <= as_ (ps c) < i;
  bi_in : is_msg_state (state (ps c)) = false -> msgBuf (ps c) = None /\ i <= zlen buf;
  bi_size : is_msg_state (state (ps c)) = true -> size_ok maxSize (pa (ps c));
  bi_msg : is_msg_state (state (ps c)) = true -> msgBuf (ps c) = None ->
    0 <= as_ (ps c) <= zlen buf /\ as_ (ps c) <= i + 1 /\
    (state (ps c) = MSG_END -> as_ (ps c) <= i);
  bi_rest : inv (rest c);
  bi_typ : is_m_state (state (ps c)) = true -> h_typ (rest c) <> CLIENT;
}.

(** What is left of the loop. *)
Definition loop_measure (buf : bytes) c (i : Z) : Z :=
  2 * (zlen buf - i) +
  (if decide (state (ps c) = MSG_PAYLOAD /\ msgBuf (ps c) = None) then 0 else 1).

(** A step goes on from a valid state, and gets closer to the end. *)
Definition step_good (buf : bytes) c (i : Z) (r : step_result (St := St)) : Prop :=
  match r with
  | Next c' _ i' =>
      buf_inv buf c' (wrap64 (i' + 1)) /\
      loop_measure buf c' (wrap64 (i' + 1)) < loop_measure buf c i
  | ParseErr _ i' => i' = i
  | Panic => False
  | _ => True
  end.

Context (buf : bytes) (Hmax : 0 <= maxSize) (Hbuf : zlen buf + maxSize + 4 < 2 ^ 63).

Lemma wrap_small z : - 2 ^ 63 <= z < 2 ^ 63 -> wrap64 z = z.
Proof. apply wrap64_id. Qed.

(** The common step: the index moves by one, outside of a payload. *)
Lemma good_next c c' i a :
  0 <= i < zlen buf -> buf_inv buf c i ->
  is_msg_state (state (ps c')) = false -> msgBuf (ps c') = None ->
  0 <= drop_ (ps c') <= 1 ->
  (is_arg_state (state (ps c')) = true -> argBuf (ps c') = None -> 0 <= as_ (ps c') <= i) ->
  inv (rest c') -> (is_m_state (state (ps c')) = true -> h_typ (rest c') <> CLIENT) ->
  step_good buf c i (Next c' a i).
Proof.
  intros Hi Hc Hst Hm Hd Ha Hinv Htyp. simpl. rewrite wrap_small by lia. split.
  - split; try lia; try congruence; try done.
    + intros Hs Hn. specialize (Ha Hs Hn). lia.
    + intros _. split; [done|lia].
  - unfold loop_measure. repeat case_decide; lia.
Qed.

Lemma good_expect c a i b u l st :
  0 <= i < zlen buf -> buf_inv buf c i -> is_msg_state (state (ps c)) = false ->
  is_arg_state st = false -> is_msg_state st = false -> is_m_state st = is_m_state (state (ps c)) ->
  step_good buf c i (expect u l st c a i b).
Proof.
  intros Hi Hc Hs Ha Hm Ht. unfold expect. destruct (bi_in _ _ _ Hc Hs).
  destruct (is_ch b u l); [|done]. apply good_next; simpl; [done..|apply Hc|congruence|apply Hc|].
  rewrite Ht. apply Hc.
Qed.

Lemma good_expect_blank c a i b st :
  0 <= i < zlen buf -> buf_inv buf c i -> is_msg_state (state (ps c)) = false ->
  is_arg_state st = false -> is_msg_state st = false -> is_m_state st = is_m_state (state (ps c)) ->
  step_good buf c i (expect_blank st c a i b).
Proof.
  intros Hi Hc Hs Ha Hm Ht. unfold expect_blank. destruct (bi_in _ _ _ Hc Hs).
  destruct (is_blank b); [|done]. apply good_next; simpl; [done..|apply Hc|congruence|apply Hc|].
  rewrite Ht. apply Hc.
Qed.

Lemma good_skip c a i b st :
  0 <= i < zlen buf -> buf_inv buf c i -> is_msg_state (state (ps c)) = false ->
  is_arg_state (state (ps c)) = false -> is_msg_state st = false ->
  is_m_state st = is_m_state (state (ps c)) -> step_good buf c i (skip_blank st c a i b).
Proof.
  intros Hi Hc Hs Ha Hm Ht. unfold skip_blank. destruct (bi_in _ _ _ Hc Hs).
  destruct (is_blank b); (apply good_next; simpl; [done..|apply Hc| |apply Hc|]).
  - congruence.
  - apply Hc.
  - lia.
  - rewrite Ht. apply Hc.
Qed.

Lemma go_slice_ok lo hi : 0 <= lo <= hi -> hi <= zlen buf -> is_Some (go_slice buf lo hi).
Proof. intros. unfold go_slice. rewrite decide_True by lia. eauto. Qed.

Lemma good_arg c a i b clear k :
  0 <= i < zlen buf -> buf_inv buf c i -> is_arg_state (state (ps c)) = true ->
  (forall arg c', state (ps c') = state (ps c) -> msgBuf (ps c') = None ->
     drop_ (ps c') = drop_ (ps c) -> rest c' = rest c -> step_good buf c i (k arg c')) ->
  step_good buf c i (arg_state clear k buf c a i b).
Proof.
  intros Hi Hc Ha Hk. unfold arg_state.
  assert (Hs : is_msg_state (state (ps c)) = false) by (by destruct (state (ps c))).
  destruct (bi_in _ _ _ Hc Hs). pose proof (bi_drop _ _ _ Hc). pose proof (bi_arg _ _ _ Hc Ha) as Has.
  destruct (bool_decide (b = CR)).
  { apply good_next; simpl; [done..|lia| |apply Hc|apply Hc]. intros _ Hn. specialize (Has Hn). lia. }
  destruct (bool_decide (b = LF)).
  - destruct (argBuf (ps c)) as [arg|]; [by apply Hk|]. specialize (Has eq_refl).
    destruct (go_slice_ok (as_ (ps c)) (i - drop_ (ps c))) as [arg ->]; [lia|lia|]. by apply Hk.
  - destruct (argBuf (ps c)) as [arg|] eqn:E; (apply good_next; simpl; [done..|lia| |apply Hc|apply Hc]); [done|].
    rewrite E. intros _ _. specialize (Has eq_refl). lia.
Qed.

Lemma good_call c a i h arg c' :
  0 <= i < zlen buf -> buf_inv buf c i -> msgBuf (ps c') = None -> rest c' = rest c ->
  (forall s', h arg (rest c) = (s', None) -> inv s') ->
  step_good buf c i (call_op h a i arg c').
Proof.
  intros Hi Hc Hm Hr Hh. unfold call_op. rewrite Hr.
  destruct (h arg (rest c)) as [s [e|]]; [done|].
  apply good_next; simpl; [done..|lia|done|by apply Hh|done].
Qed.

Lemma good_line_end c a i b h :
  0 <= i < zlen buf -> buf_inv buf c i -> is_msg_state (state (ps c)) = false ->
  is_arg_state (state (ps c)) = false -> inv (h (rest c)) -> step_good buf c i (line_end h c a i b).
Proof.
  intros Hi Hc Hs Ha Hh. unfold line_end. destruct (bi_in _ _ _ Hc Hs).
  destruct (bool_decide (b = LF)); apply good_next; simpl; try done; first [lia|apply Hc|congruence].
Qed.

Lemma good_start c a i b :
  0 <= i < zlen buf -> buf_inv buf c i -> state (ps c) = OP_START ->
  step_good buf c i (step_start c a i b).
Proof.
  intros Hi Hc Hs. unfold step_start.
  destruct (bi_in _ _ _ Hc) as [Hm _]; [by rewrite Hs|].
  assert (Hg : forall st, is_msg_state st = false -> is_arg_state st = false ->
    (is_m_state st = true -> h_typ (rest c) <> CLIENT) -> step_good buf c i (Next (set_state c st) a i)).
  { intros st H1 H2 H3. apply good_next; simpl; [done..|apply Hc|congruence|apply Hc|done]. }
  repeat (case_match; try done); by apply Hg.
Qed.

(** The jump over a payload. *)
Lemma good_jump c s p' a i k ab :
  0 <= i < zlen buf -> buf_inv buf c i -> is_msg_state (state (ps c)) = false ->
  size_ok maxSize p' -> 1 <= k <= 2 -> inv s ->
  step_good buf c i (Next (PClient (ParseState MSG_PAYLOAD (i + 1) 0 p' ab None) s) a
    (wrap64 (i + 1 + pa_size p' - k))).
Proof.
  intros Hi Hc Hs Hp Hk Hinv. unfold size_ok in Hp. simpl.
  rewrite (wrap_small (i + 1 + pa_size p' - k)) by lia. rewrite wrap_small by lia. split.
  - split; simpl; try lia; try congruence; try done. intros _ _. split_and!; [lia..|congruence].
  - unfold loop_measure. simpl.
    destruct (decide (state (ps c) = MSG_PAYLOAD /\ _)) as [[Hx _]|_]; [by rewrite Hx in Hs|].
    lia.
Qed.

Lemma good_payload c a i b :
  0 <= i < zlen buf -> buf_inv buf c i -> state (ps c) = MSG_PAYLOAD ->
  step_good buf c i (step_payload buf c a i b).
Proof.
  intros Hi Hc Hs. unfold step_payload.
  assert (Hms : is_msg_state (state (ps c)) = true) by (by rewrite Hs).
  pose proof (bi_size _ _ _ Hc Hms) as Hsz. pose proof (bi_msg _ _ _ Hc Hms) as Hm.
  pose proof (bi_drop _ _ _ Hc). unfold size_ok in Hsz.
  destruct (msgBuf (ps c)) as [mb|] eqn:Emb.
  - set (tc := if decide (_ < pa_size _ - _) then _ else _).
    assert (Htc : tc <= zlen buf - i) by (unfold tc; case_decide; lia).
    assert (Hn : forall st mb' i', i <= i' < zlen buf -> is_msg_state st = true ->
      step_good buf c i (Next (set_ps c st (as_ (ps c)) (drop_ (ps c)) (pa (ps c)) (argBuf (ps c)) (Some mb')) a i')).
    { intros st mb' i' Hi' Hst. simpl. rewrite wrap_small by lia. split.
      - split; simpl; try lia; try done; try congruence; [|apply Hc|]; by destruct st.
      - unfold loop_measure. repeat case_decide; lia. }
    destruct (decide (0 < tc)).
    + destruct (go_slice_ok i (i + tc)) as [x ->]; [lia..|]. simpl. apply Hn; [lia|]. by case_decide.
    + apply Hn; [lia|]. by case_decide.
  - specialize (Hm eq_refl). rewrite (wrap_small (i - _)) by lia.
    case_decide; simpl; rewrite wrap_small by lia; split.
    + split; simpl; try lia; try done; try congruence. apply Hc.
    + unfold loop_measure. simpl. repeat case_decide; naive_solver lia.
    + split; try done; try lia; try congruence; try apply Hc. by rewrite Hs.
    + unfold loop_measure. repeat case_decide; lia.
Qed.

Lemma good_msg_end c a i b :
  0 <= i < zlen buf -> buf_inv buf c i -> state (ps c) = MSG_END ->
  step_good buf c i (step_msg_end buf c a i b).
Proof.
  intros Hi Hc Hs. unfold step_msg_end.
  assert (Hms : is_msg_state (state (ps c)) = true) by (by rewrite Hs).
  pose proof (bi_size _ _ _ Hc Hms) as Hsz. pose proof (bi_msg _ _ _ Hc Hms) as Hm.
  pose proof (bi_drop _ _ _ Hc). unfold size_ok in Hsz.
  destruct (bool_decide (b = LF)).
  - destruct (match msgBuf (ps c) with Some mb => _ | None => _ end) as [mb|] eqn:E.
    + case_decide; [done|]. apply good_next; simpl; [done..|lia|done|exact (proj2 (processMsg_ok _ _ _ (bi_rest _ _ _ Hc)))|done].
    + destruct (msgBuf (ps c)); [done|]. specialize (Hm eq_refl).
      destruct (go_slice_ok (as_ (ps c)) (i + 1)) as [x Hx]; [|lia|congruence]. naive_solver lia.
  - destruct (msgBuf (ps c)) as [mb|] eqn:Emb; simpl; rewrite wrap_small by lia; split.
    + split; simpl; try lia; try congruence; try apply Hc; rewrite ?Hs in *; done.
    + unfold loop_measure. repeat case_decide; lia.
    + specialize (Hm eq_refl). split; try lia; try congruence; try apply Hc; rewrite ?Hs in *; try done.
    + unfold loop_measure. repeat case_decide; lia.
Qed.

Lemma good_end_pub c a i arg c' :
  0 <= i < zlen buf -> buf_inv buf c i -> is_msg_state (state (ps c)) = false ->
  msgBuf (ps c') = None -> rest c' = rest c -> step_good buf c i (end_pub a i arg c').
Proof.
  intros Hi Hc Hs Hm Hr. unfold end_pub. rewrite Hr.
  destruct (h_processPub arg (pa (ps c')) (rest c)) as [[s p'] [e|]] eqn:E; simpl; [done|].
  destruct (processPub_ok _ _ _ _ _ (bi_rest _ _ _ Hc) E) as (? & _ & ?).
  rewrite Hm. by apply good_jump; [done..|unfold LEN_CR_LF; lia|].
Qed.

Lemma good_end_msg c a i arg c' :
  0 <= i < zlen buf -> buf_inv buf c i -> state (ps c) = MSG_ARG ->
  msgBuf (ps c') = None -> rest c' = rest c -> step_good buf c i (end_msg a i arg c').
Proof.
  intros Hi Hc Hs Hm Hr. unfold end_msg. rewrite Hr.
  destruct (h_processMsgArgs arg (pa (ps c')) (rest c)) as [[s p'] [e|]] eqn:E; simpl; [done|].
  destruct (processMsgArgs_ok _ _ _ _ _ (bi_rest _ _ _ Hc) (bi_typ _ _ _ Hc ltac:(by rewrite Hs)) E) as (? & _ & ?).
  rewrite Hm. by apply good_jump; [done..|by rewrite Hs|done|lia|].
Qed.

Lemma good_end_connect c i arg c' :
  0 <= i < zlen buf -> buf_inv buf c i -> msgBuf (ps c') = None -> rest c' = rest c ->
  step_good buf c i (end_connect i arg c').
Proof.
  intros Hi Hc Hm Hr. unfold end_connect. rewrite Hr.
  destruct (h_processConnect arg (rest c)) as [s [e|]] eqn:E; [done|].
  apply good_next; simpl; [done..|lia|done| |done]. exact (proj2 (processConnect_ok _ _ _ (bi_rest _ _ _ Hc) E)).
Qed.

Lemma good_op_p c a i b st1 st2 st3 :
  0 <= i < zlen buf -> buf_inv buf c i -> is_msg_state (state (ps c)) = false ->
  Forall (fun st => is_arg_state st = false /\ is_msg_state st = false /\ is_m_state st = false) [st1; st2; st3] ->
  step_good buf c i (if is_ch b "U" "u" then Next (set_state c st1) a i
      else if is_ch b "I" "i" then Next (set_state c st2) a i
      else if is_ch b "O" "o" then Next (set_state c st3) a i
      else ParseErr c i).
Proof.
  intros Hi Hc Hs Hst. destruct (bi_in _ _ _ Hc Hs).
  assert (Hg : forall st, st ∈ [st1; st2; st3] -> step_good buf c i (Next (set_state c st) a i)).
  { intros st Hin. rewrite Forall_forall in Hst. destruct (Hst st Hin) as (? & ? & ?).
    apply good_next; simpl; [done..|apply Hc|congruence|apply Hc|congruence]. }
  repeat (case_match; try done); apply Hg; set_solver.
Qed.

Lemma step_ok c a i b :
  0 <= i < zlen buf -> buf_inv buf c i -> step_good buf c i (step buf c a i b).
Proof.
  intros Hi Hc. unfold step.
  assert (Hmsg : is_msg_state (state (ps c)) = false -> msgBuf (ps c) = None) by (intros; by eapply bi_in).
  destruct (state (ps c)) eqn:Es;
    try (by apply good_start); try (by apply good_payload); try (by apply good_msg_end);
    specialize (Hmsg eq_refl);
    unfold step_pub, step_sub, step_unsub, step_pingpong, step_connect, step_msg, step_info, step_ok_err;
    rewrite Es;
    lazymatch goal with
    | |- step_good _ _ _ (expect _ _ _ _ _ _ _) => apply good_expect
    | |- step_good _ _ _ (expect_blank _ _ _ _ _) => apply good_expect_blank
    | |- step_good _ _ _ (skip_blank _ _ _ _ _) => apply good_skip
    | |- step_good _ _ _ (line_end _ _ _ _ _) => apply good_line_end
    | |- step_good _ _ _ (arg_state _ _ _ _ _ _ _) => apply good_arg
    | |- _ => apply good_op_p
    end; rewrite ?Es; try done; try (by repeat constructor);
    try (exact (proj2 (processPing_ok _ (bi_rest _ _ _ Hc)))); try (exact (proj2 (processPong_ok _ (bi_rest _ _ _ Hc)))); try apply Hc;
    intros arg c' _ Hm' _ Hr';
    lazymatch goal with
    | |- step_good _ _ _ (call_op _ _ _ _ _) =>
        apply good_call; [done..|]; intros s' Hs';
        first [exact (proj2 (processSub_ok _ _ _ (bi_rest _ _ _ Hc) Hs'))
              | exact (proj2 (processUnsub_ok _ _ _ (bi_rest _ _ _ Hc) Hs'))
              | exact (proj2 (processInfo_ok _ _ _ (bi_rest _ _ _ Hc) Hs'))
              | injection Hs' as <-; exact (proj2 (processErr_ok _ _ (bi_rest _ _ _ Hc))) ]
    | |- step_good _ _ _ (end_pub _ _ _ _) => apply good_end_pub; by rewrite ?Es
    | |- step_good _ _ _ (end_msg _ _ _ _) => apply good_end_msg; by rewrite ?Es
    | |- _ => by apply good_end_connect
    end.
Qed.

(** The loop ends within its fuel and without a panic. *)
Lemma parse_loop_good fuel : forall c a i,
  buf_inv buf c i -> loop_measure buf c i < Z.of_nat fuel -> 0 < Z.of_nat fuel ->
  match parse_loop fuel buf c a i with
  | Fell c' i' => buf_inv buf c' i' /\ zlen buf <= i'
  | LParseErr _ i' => 0 <= i' < zlen buf
  | LPanic | LFuel => False
  | _ => True
  end.
Proof.
  induction fuel as [|fuel IH]; intros c a i Hc Hf Hpos; cbn [parse_loop]; [lia|].
  pose proof (bi_index _ _ _ Hc) as Hi.
  destruct (decide (i < zlen buf)) as [Hlt|Hge]; [|split; [done|lia]].
  rewrite decide_False by lia.
  destruct (lookup_lt_is_Some_2 buf (Z.to_nat i)) as [b ->]; [lia|].
  pose proof (step_ok c a i b ltac:(lia) Hc) as Hs.
  destruct (step buf c a i b) as [c' a' i'|c' i'|c'|c' e|] eqn:E; try done.
  - destruct Hs as [Hc' Hm]. apply IH; [done|lia|].
    unfold loop_measure at 1 in Hf. case_decide; lia.
  - simpl in Hs. lia.
Qed.

(** The state in which a connection waits for its next read buffer. *)
Record ready c : Prop := {
  ready_drop : 0 <= drop_ (ps c) <= 1;
  ready_arg : is_arg_state (state (ps c)) = true -> argBuf (ps c) <> None;
  ready_msg : is_msg_state (state (ps c)) = true -> msgBuf (ps c) <> None /\ size_ok maxSize (pa (ps c));
  ready_clear : is_msg_state (state (ps c)) = false -> msgBuf (ps c) = None;
  ready_rest : inv (rest c);
  ready_typ : is_m_state (state (ps c)) = true -> h_typ (rest c) <> CLIENT;
}.

Lemma ready_inv c : ready c -> buf_inv buf c 0.
Proof.
  intros [Hd Ha Hm Hcl Hinv Htyp]. split; [lia|done| | | | |done|done].
  - intros Hs Hn. by destruct (Ha Hs).
  - intros Hs. split; [auto|lia].
  - intros Hs. by apply Hm.
  - intros Hs Hn. by destruct (Hm Hs).
Qed.

Lemma clonePubArg_id c : ps (clonePubArg c) =
  let p := ps c in
  ParseState (state p) (as_ p) (drop_ p) (pa p)
    (Some (pa_subject (pa p) ++ default [] (pa_reply (pa p)) ++ default [] (pa_sid (pa p)) ++ pa_szb (pa p)))
    (msgBuf p).
Proof.
  unfold clonePubArg. simpl. destruct c as [[st as0 dr [subj rep sid szb sz] ab mb] s]. simpl.
  repeat f_equal.
  - by rewrite take_app_length.
  - rewrite drop_app_length. destruct rep; simpl; [|done]. by rewrite take_app_length.
  - rewrite app_assoc, <- length_app, drop_app_length. destruct sid; simpl; [|done]. by rewrite take_app_length.
  - rewrite app_assoc, (app_assoc (subj ++ _)), <- !length_app. apply drop_app_length.
Qed.

Lemma save_msg_good c i :
  buf_inv buf c i -> zlen buf <= i -> is_msg_state (state (ps c)) = true -> msgBuf (ps c) = None ->
  maxSize + 2 <= maxAlloc ->
  match save_msg maxAlloc buf c with
  | Some (Some c') => ready c'
  | Some None => True
  | None => False
  end.
Proof.
  intros Hc Hi Hs Hm Hal. unfold save_msg.
  destruct (bi_msg _ _ _ Hc Hs Hm) as ([Has1 Has2] & _).
  pose proof (bi_size _ _ _ Hc Hs) as Hsz. pose proof (bi_drop _ _ _ Hc).
  set (c1 := match argBuf (ps c) with None => _ | Some _ => _ end).
  assert (H1 : state (ps c1) = state (ps c) /\ as_ (ps c1) = as_ (ps c) /\ drop_ (ps c1) = drop_ (ps c) /\
    pa (ps c1) = pa (ps c) /\ rest c1 = rest c).
  { unfold c1. destruct (argBuf (ps c)); [done|]. by rewrite clonePubArg_id. }
  destruct H1 as (E1 & E2 & E3 & E4 & E5). rewrite E2.
  destruct (go_slice_ok (as_ (ps c)) (zlen buf)) as [x ->]; [lia..|]. simpl.
  assert (Hr : ready (set_ps c1 (state (ps c1)) (as_ (ps c)) (drop_ (ps c1)) (pa (ps c1)) (argBuf (ps c1)) (Some x))).
  { split; simpl; rewrite ?E1, ?E3, ?E4, ?E5; [done|intros Ha; by destruct (state (ps c))|done|congruence|apply Hc|apply Hc]. }
  unfold size_ok in Hsz. case_decide; [|done]. case_decide; [done|].
  rewrite decide_False; [done|]. rewrite E4. unfold LEN_CR_LF. rewrite wrap_small; lia.
Qed.

Lemma protoSnippet_ok i : 0 <= i -> is_Some (protoSnippet i buf).
Proof.
  intros Hi. unfold protoSnippet, PROTO_SNIPPET_SIZE. case_decide; [eauto|].
  apply go_slice_ok; case_decide; lia.
Qed.

Lemma parse_err_good c i : 0 <= i ->
  match parse_err c i buf with Failed _ _ => True | _ => False end.
Proof. intros Hi. unfold parse_err. by destruct (protoSnippet_ok i Hi) as [x ->]. Qed.

Lemma end_of_buffer_good mcl c i :
  buf_inv buf c i -> zlen buf <= i -> maxSize + 2 <= maxAlloc ->
  match end_of_buffer maxAlloc mcl buf c i with
  | Parsed c' => ready c'
  | Failed _ _ => True
  | Panicked | NoFuel => False
  end.
Proof.
  intros Hc Hi Hal. unfold end_of_buffer. pose proof (bi_drop _ _ _ Hc).
  destruct (is_arg_state (state (ps c))) eqn:Ha.
  - assert (Hms : is_msg_state (state (ps c)) = false) by (by destruct (state (ps c))).
    destruct (bi_in _ _ _ Hc Hms) as [Hm Hin].
    assert (Hs : exists c', save_arg buf c i = Some c' /\ state (ps c') = state (ps c) /\ ready c').
    { unfold save_arg. destruct (argBuf (ps c)) as [ab|] eqn:Eab.
      - exists c. split_and!; [done..|]. split; congruence || done || apply Hc.
      - pose proof (bi_arg _ _ _ Hc Ha Eab).
        destruct (go_slice_ok (as_ (ps c)) (i - drop_ (ps c))) as [x ->]; [lia..|]. simpl.
        eexists. split_and!; [done..|]. split; simpl; congruence || done || apply Hc. }
    destruct Hs as (c' & -> & Es & Hr). rewrite Es, Hms, Ha. simpl. by case_bool_decide.
  - rewrite Ha. simpl. destruct (is_msg_state (state (ps c))) eqn:Hms; simpl.
    + case_bool_decide as Hm.
      * pose proof (save_msg_good c i Hc Hi Hms Hm Hal) as Hsv.
        destruct (save_msg maxAlloc buf c) as [[c'|]|]; [done| |done].
        pose proof (parse_err_good (match argBuf (ps c) with None => clonePubArg c | Some _ => c end) i) as Hp.
        destruct (parse_err _ _ _); try done; exfalso; apply Hp; lia.
      * split; [done|congruence| |congruence|apply Hc|apply Hc]. intros _. split; [done|]. by apply (bi_size _ _ _ Hc).
    + destruct (bi_in _ _ _ Hc Hms). split; congruence || done || apply Hc.
Qed.

Lemma parse_good c : ready c -> maxSize + 2 <= maxAlloc ->
  match parse maxAlloc buf c with
  | Parsed c' => ready c'
  | Failed _ _ => True
  | Panicked | NoFuel => False
  end.
Proof.
  intros Hr Hal. unfold parse.
  assert (Hf : loop_measure buf c 0 < Z.of_nat (2 * length buf + 3))
    by (unfold loop_measure; case_decide; lia).
  pose proof (parse_loop_good _ c (h_isAuthTimerSet (rest c)) 0 (ready_inv c Hr) Hf ltac:(lia)) as Hl.
  destruct (parse_loop _ _ _ _ _) as [c' i'|c' i'|c'|c' e| |]; [|..|done|done]; [| |done..].
  - destruct Hl. by apply end_of_buffer_good.
  - pose proof (parse_err_good c' i' ltac:(lia)) as Hp. by destruct (parse_err _ _ _).
Qed.
End safety.
