(* ===== verification/ParserSpec.v ===== *)
(** * ParserSpec: the parser and the stream it reads

    The parser keeps indices into the current read buffer, jumps over
    payloads and saves what a buffer leaves unfinished.  This file gives the
    protocol as a machine that reads one byte at a time and has no buffers
    ([ref_step]), and shows that [parse] follows it on any cutting of the
    stream into buffers. *)

From S2P Require Import Prelude Util Parser.

(** ** The reference machine *)

Record rstate (St : Type) := RState {
  r_st : pstate;
  r_line : bytes;      (* the argument line so far *)
  r_cr : bool;         (* its '\r' has been read *)
  r_pa : pubArg;
  r_body : bytes;      (* the payload so far *)
  r_rest : St;
}.
Arguments RState {St} _ _ _ _ _ _.
Arguments r_st {St} _.
Arguments r_line {St} _.
Arguments r_cr {St} _.
Arguments r_pa {St} _.
Arguments r_body {St} _.
Arguments r_rest {St} _.

(** The first letter of an operation. *)
Definition start_next (typ : Z) (b : byte) : option pstate :=
  if is_ch b "P" "p" then Some OP_P
  else if is_ch b "S" "s" then Some OP_S
  else if is_ch b "U" "u" then Some OP_U
  else if is_ch b "M" "m" then (if decide (typ = CLIENT) then None else Some OP_M)
  else if is_ch b "C" "c" then Some OP_C
  else if is_ch b "I" "i" then Some OP_I
  else if bool_decide (b = "+"%char) then Some OP_PLUS
  else if bool_decide (b = "-"%char) then Some OP_MINUS
  else None.

(** The letter and the state that follow in a keyword. *)
Definition kw_letter (st : pstate) : option (ascii * ascii * pstate) :=
  match st with
  | OP_PU => Some ("B"%char, "b"%char, OP_PUB)
  | OP_S => Some ("U"%char, "u"%char, OP_SU)
  | OP_SU => Some ("B"%char, "b"%char, OP_SUB)
  | OP_U => Some ("N"%char, "n"%char, OP_UN)
  | OP_UN => Some ("S"%char, "s"%char, OP_UNS)
  | OP_UNS => Some ("U"%char, "u"%char, OP_UNSU)
  | OP_UNSU => Some ("B"%char, "b"%char, OP_UNSUB)
  | OP_PI => Some ("N"%char, "n"%char, OP_PIN)
  | OP_PIN => Some ("G"%char, "g"%char, OP_PING)
  | OP_PO => Some ("N"%char, "n"%char, OP_PON)
  | OP_PON => Some ("G"%char, "g"%char, OP_PONG)
  | OP_C => Some ("O"%char, "o"%char, OP_CO)
  | OP_CO => Some ("N"%char, "n"%char, OP_CON)
  | OP_CON => Some ("N"%char, "n"%char, OP_CONN)
  | OP_CONN => Some ("E"%char, "e"%char, OP_CONNE)
  | OP_CONNE => Some ("C"%char, "c"%char, OP_CONNEC)
  | OP_CONNEC => Some ("T"%char, "t"%char, OP_CONNECT)
  | OP_M => Some ("S"%char, "s"%char, OP_MS)
  | OP_MS => Some ("G"%char, "g"%char, OP_MSG)
  | OP_I => Some ("N"%char, "n"%char, OP_IN)
  | OP_IN => Some ("F"%char, "f"%char, OP_INF)
  | OP_INF => Some ("O"%char, "o"%char, OP_INFO)
  | OP_PLUS => Some ("O"%char, "o"%char, OP_PLUS_O)
  | OP_PLUS_O => Some ("K"%char, "k"%char, OP_PLUS_OK)
  | OP_MINUS => Some ("E"%char, "e"%char, OP_MINUS_E)
  | OP_MINUS_E => Some ("R"%char, "r"%char, OP_MINUS_ER)
  | OP_MINUS_ER => Some ("R"%char, "r"%char, OP_MINUS_ERR)
  | _ => None
  end.

(** The state after the blank that ends a keyword. *)
Definition kw_blank (st : pstate) : option pstate :=
  match st with
  | OP_PUB => Some OP_PUB_SPC
  | OP_SUB => Some OP_SUB_SPC
  | OP_UNSUB => Some OP_UNSUB_SPC
  | OP_MSG => Some OP_MSG_SPC
  | OP_MINUS_ERR => Some OP_MINUS_ERR_SPC
  | _ => None
  end.

Definition kw_next (st : pstate) (b : byte) : option pstate :=
  match st with
  | OP_P => if is_ch b "U" "u" then Some OP_PU
            else if is_ch b "I" "i" then Some OP_PI
            else if is_ch b "O" "o" then Some OP_PO else None
  | _ =>
      match kw_letter st with
      | Some (u, l, st') => if is_ch b u l then Some st' else None
      | None => st' ← kw_blank st; if is_blank b then Some st' else None
      end
  end.

(** The states that skip blanks before an argument. *)
Definition arg_after (st : pstate) : option pstate :=
  match st with
  | OP_PUB_SPC => Some PUB_ARG
  | OP_SUB_SPC => Some SUB_ARG
  | OP_UNSUB_SPC => Some UNSUB_ARG
  | OP_CONNECT => Some CONNECT_ARG
  | OP_MSG_SPC => Some MSG_ARG
  | OP_INFO => Some INFO_ARG
  | OP_MINUS_ERR_SPC => Some MINUS_ERR_ARG
  | _ => None
  end.

Section reference.
Context {St : Type} `{Handlers St}.

(** The largest control line. *)
Context (mcl : Z).

Implicit Types r : rstate St.

(** An operation is complete. *)
Definition r_done (p : pubArg) (s : St) : rstate St := RState OP_START [] false p [] s.

Definition r_called (p : pubArg) (res : St * option srv_error) : option (rstate St) :=
  match res with (s, None) => Some (r_done p s) | (_, Some _) => None end.

Definition r_payload (res : St * pubArg * option srv_error) : option (rstate St) :=
  match res with
  | (s, p, None) => Some (RState MSG_PAYLOAD [] false p [] s)
  | (_, _, Some _) => None
  end.

(** The end of the argument line of [r]. *)
Definition r_finish r : option (rstate St) :=
  let s := r_rest r in
  let p := r_pa r in
  match r_st r with
  | PUB_ARG => r_payload (h_processPub (r_line r) p s)
  | MSG_ARG => r_payload (h_processMsgArgs (r_line r) p s)
  | SUB_ARG => r_called p (h_processSub (r_line r) s)
  | UNSUB_ARG => r_called p (h_processUnsub (r_line r) s)
  | CONNECT_ARG => r_called p (h_processConnect (r_line r) s)
  | INFO_ARG => r_called p (h_processInfo (r_line r) s)
  | _ => Some (r_done p (h_processErr (r_line r) s))
  end.

Definition r_arg r (b : byte) : option (rstate St) :=
  if bool_decide (b = LF) then r_finish r
  else if r_cr r then None
  else if bool_decide (b = CR) then Some (RState (r_st r) (r_line r) true (r_pa r) [] (r_rest r))
  else if decide (mcl < Z.of_nat (length (r_line r ++ [b])))%Z then None
  else Some (RState (r_st r) (r_line r ++ [b]) false (r_pa r) [] (r_rest r)).

(** A line without argument: what precedes its end is ignored. *)
Definition r_line_end (h : St -> St) r (b : byte) : rstate St :=
  if bool_decide (b = LF) then r_done (r_pa r) (h (r_rest r)) else r.

(** The payload, then ["\r\n"]. *)
Definition r_pay r (b : byte) : option (rstate St) :=
  let size := pa_size (r_pa r) in
  let n := Z.of_nat (length (r_body r)) in
  let body := r_body r ++ [b] in
  let r' := RState MSG_PAYLOAD [] false (r_pa r) body (r_rest r) in
  if decide (n < size)%Z then Some r'
  else if decide (n = size) then (if bool_decide (b = CR) then Some r' else None)
  else if bool_decide (b = LF) then Some (r_done (r_pa r) (h_processMsg (r_pa r) body (r_rest r)))
  else None.

Definition ref_step r (b : byte) : option (rstate St) :=
  let s := r_rest r in
  match r_st r with
  | OP_START =>
      if negb (is_ch b "C" "c") && h_isAuthTimerSet s then None
      else st ← start_next (h_typ s) b; Some (RState st [] false (r_pa r) [] s)
  | OP_PING => Some (r_line_end h_processPing r b)
  | OP_PONG => Some (r_line_end h_processPong r b)
  | OP_PLUS_OK => Some (r_line_end (fun s => s) r b)
  | MSG_PAYLOAD => r_pay r b
  | MSG_END => None
  | _ =>
      if is_arg_state (r_st r) then r_arg r b
      else
        match arg_after (r_st r) with
        | Some st =>
            if is_blank b then Some r
            else if decide (mcl < 1)%Z then None
            else Some (RState st [b] false (r_pa r) [] s)
        | None => st ← kw_next (r_st r) b; Some (RState st [] false (r_pa r) [] s)
        end
  end.

Fixpoint ref_run r (l : bytes) : option (rstate St) :=
  match l with
  | [] => Some r
  | b :: l' => r' ← ref_step r b; ref_run r' l'
  end.

Lemma ref_run_app r l1 l2 : ref_run r (l1 ++ l2) = r' ← ref_run r l1; ref_run r' l2.
Proof.
  revert r. induction l1 as [|b l1 IH]; intros r; simpl; [done|].
  destruct (ref_step r b); simpl; [apply IH|done].
Qed.

Lemma body_run p (s : St) xs : forall body,
  (Z.of_nat (length body) + Z.of_nat (length xs) <= pa_size p)%Z ->
  ref_run (RState MSG_PAYLOAD [] false p body s) xs = Some (RState MSG_PAYLOAD [] false p (body ++ xs) s).
Proof.
  induction xs as [|b xs IH]; intros body Hl; cbn [ref_run]; [by rewrite app_nil_r|].
  simpl length in Hl. unfold ref_step. simpl. unfold r_pay. simpl.
  rewrite decide_True by lia. simpl. rewrite IH by (rewrite length_app; simpl; lia).
  by rewrite <- app_assoc.
Qed.

End reference.

(** ** The simulation *)

Section simulation.
Context {St : Type} `{Handlers St} (maxSize : Z) (inv : St -> Prop) `{!HandlersOk St maxSize inv}.
Context (maxAlloc mcl : Z) (buf : bytes).
Context (Hmax : (0 <= maxSize)%Z) (Hbuf : (Z.of_nat (length buf) + maxSize + 4 < 2 ^ 63)%Z).
Local Open Scope Z_scope.
Abbreviation zlen l := (Z.of_nat (length l)).

(** The bytes of the buffer from index [i] on. *)
Definition from (i : Z) : bytes := drop (Z.to_nat i) buf.

(** The parser at index [i] has read what the machine in state [r] has, and
    the last argument is left of the buffer. *)
Inductive rel : pclient St -> Z -> rstate St -> bytes -> Prop :=
| rel_op st as0 p s i :
    is_arg_state st = false -> is_msg_state st = false -> 0 <= i <= zlen buf ->
    rel (PClient (ParseState st as0 0 p None None) s) i (RState st [] false p [] s) (from i)
| rel_arg st as0 (cr : bool) p ab line s i :
    is_arg_state st = true -> zlen line <= mcl -> 0 <= i <= zlen buf ->
    (ab = Some line \/
     ab = None /\ 0 <= as0 < i /\ go_slice buf as0 (i - if cr then 1 else 0) = Some line) ->
    rel (PClient (ParseState st as0 (if cr then 1 else 0) p ab None) s) i
        (RState st line cr p [] s) (from i)
| rel_pay as0 p ab s i :
    size_ok maxSize p -> 0 <= as0 <= zlen buf -> 0 <= i -> as0 - 1 <= i <= as0 + pa_size p ->
    (i = as0 - 1 -> pa_size p = 0) ->
    rel (PClient (ParseState MSG_PAYLOAD as0 0 p ab None) s) i
        (RState MSG_PAYLOAD [] false p (take (Z.to_nat (i - as0)) (from as0)) s) (from (Z.max i as0))
| rel_end as0 p ab s i :
    size_ok maxSize p -> 0 <= as0 -> i = as0 + pa_size p + 1 -> i <= zlen buf ->
    rel (PClient (ParseState MSG_END as0 0 p ab None) s) i
        (RState MSG_PAYLOAD [] false p (take (Z.to_nat (pa_size p + 1)) (from as0)) s) (from i)
| rel_pay_saved as0 p ab mb s i :
    size_ok maxSize p -> zlen mb <= pa_size p -> 0 <= i <= zlen buf ->
    rel (PClient (ParseState MSG_PAYLOAD as0 0 p ab (Some mb)) s) i
        (RState MSG_PAYLOAD [] false p mb s) (from i)
| rel_end_saved as0 p ab mb s i :
    size_ok maxSize p -> pa_size p <= zlen mb <= pa_size p + 1 -> 0 <= i <= zlen buf ->
    rel (PClient (ParseState MSG_END as0 0 p ab (Some mb)) s) i
        (RState MSG_PAYLOAD [] false p mb s) (from i).

(** The states of a connection that may not be authorized yet. *)
Definition conn_state (st : pstate) : bool :=
  match st with
  | OP_START | OP_C | OP_CO | OP_CON | OP_CONN | OP_CONNE | OP_CONNEC | OP_CONNECT | CONNECT_ARG => true
  | _ => false
  end.

Record session (r : rstate St) (a : bool) : Prop := {
  ses_auth : a = h_isAuthTimerSet (r_rest r);
  ses_conn : conn_state (r_st r) = true \/ h_isAuthTimerSet (r_rest r) = false;
  ses_mcl : default MAX_CONTROL_LINE_SIZE (h_maxControlLine (r_rest r)) = mcl;
  ses_inv : inv (r_rest r);
  ses_typ : is_m_state (r_st r) = true -> h_typ (r_rest r) <> CLIENT;
}.

Lemma session_call r a s' st line cr p body :
  session r a -> session_kept (r_rest r) s' /\ inv s' -> conn_state (r_st r) = false ->
  is_m_state st = false -> session (RState st line cr p body s') a.
Proof.
  intros [Ha Hc Hm Hi Ht] [[Hk1 Hk2] Hi'] Hs Hst. destruct Hc as [Hc|Hc]; [congruence|]. specialize (Hk2 Hc).
  split; simpl; [congruence|by right|by rewrite Hk1|done|congruence].
Qed.

Lemma session_move r a st line cr p body :
  session r a -> (conn_state (r_st r) = true -> conn_state st = true) ->
  (is_m_state st = true -> is_m_state (r_st r) = true) ->
  session (RState st line cr p body (r_rest r)) a.
Proof. intros [Ha Hc Hm Hi Ht] Hs Hst. split; simpl; auto. destruct Hc; auto. Qed.

Lemma from_cons i b : 0 <= i -> buf !! Z.to_nat i = Some b -> from i = b :: from (i + 1).
Proof.
  intros Hi Hb. unfold from. rewrite (drop_S _ b) by done.
  replace (Z.to_nat (i + 1)) with (S (Z.to_nat i)) by lia. done.
Qed.

Lemma from_take i n : 0 <= i -> 0 <= n -> from i = take (Z.to_nat n) (from i) ++ from (i + n).
Proof.
  intros Hi Hn. rewrite <- (take_drop (Z.to_nat n) (from i)) at 1. f_equal. unfold from.
  rewrite drop_drop. f_equal. lia.
Qed.

Lemma zlen_from i : 0 <= i <= zlen buf -> zlen (from i) = zlen buf - i.
Proof. intros. unfold from. rewrite length_drop. lia. Qed.

Lemma go_slice_from lo hi : 0 <= lo <= hi -> hi <= zlen buf ->
  go_slice buf lo hi = Some (take (Z.to_nat (hi - lo)) (from lo)).
Proof. intros. unfold go_slice. by rewrite decide_True by lia. Qed.

Lemma take_snoc i n b : 0 <= i -> 0 <= n -> buf !! Z.to_nat (i + n) = Some b ->
  take (Z.to_nat (n + 1)) (from i) = take (Z.to_nat n) (from i) ++ [b].
Proof.
  intros Hi Hn Hb. replace (Z.to_nat (n + 1)) with (S (Z.to_nat n)) by lia.
  apply take_S_r. unfold from. rewrite lookup_drop, <- Hb. f_equal. lia.
Qed.

Lemma slice_one i b : 0 <= i < zlen buf -> buf !! Z.to_nat i = Some b ->
  go_slice buf i (i + 1 - 0) = Some [b].
Proof.
  intros Hi Hb. rewrite go_slice_from by lia. rewrite (from_cons i b) by (lia || done).
  by replace (Z.to_nat (i + 1 - 0 - i)) with 1%nat by lia.
Qed.

(** A step of the parser that the machine follows. *)
Definition followed (c : pclient St) (a : bool) (i : Z) (b : byte) (r' : rstate St) : Prop :=
  exists c' a' i' r1 rem, step buf c a i b = Next c' a' i' /\ rel c' (wrap64 (i' + 1)) r1 rem /\
    session r1 a' /\ ref_run mcl r1 rem = Some r'.

Lemma followed_intro c a i b r' c' a' i' r1 rem :
  step buf c a i b = Next c' a' i' -> rel c' (i' + 1) r1 rem -> in_int64 (i' + 1) ->
  session r1 a' -> ref_run mcl r1 rem = Some r' -> followed c a i b r'.
Proof. intros. do 5 eexists. rewrite wrap64_id by done. eauto. Qed.

Lemma step_kw st st' as0 d p s a i b :
  kw_next st b = Some st' ->
  step buf (PClient (ParseState st as0 d p None None) s) a i b =
    Next (PClient (ParseState st' as0 d p None None) s) a i /\
  is_arg_state st = false /\ is_msg_state st = false /\
  is_arg_state st' = false /\ is_msg_state st' = false /\ conn_state st' = conn_state st /\
  is_m_state st' = is_m_state st.
Proof.
  intros Hk. destruct st; simpl in Hk; try discriminate;
    unfold step, step_pub, step_sub, step_unsub, step_pingpong, step_connect, step_msg,
      step_info, step_ok_err, expect, expect_blank; simpl;
    repeat (case_match; simplify_eq; try done).
Qed.

Lemma step_spc st st' as0 d p s a i b :
  arg_after st = Some st' ->
  step buf (PClient (ParseState st as0 d p None None) s) a i b =
    (if is_blank b then Next (PClient (ParseState st as0 d p None None) s) a i
     else Next (PClient (ParseState st' i d p None None) s) a i) /\
  is_arg_state st' = true /\ conn_state st' = conn_state st /\ is_m_state st' = is_m_state st.
Proof.
  intros Hk. destruct st; simpl in Hk; simplify_eq;
    unfold step, step_pub, step_sub, step_unsub, step_connect, step_msg, step_info, step_ok_err, skip_blank;
    simpl; by destruct (is_blank b).
Qed.

Lemma step_start_next as0 d p (s : St) a i b st :
  negb (is_ch b "C" "c") && a = false -> start_next (h_typ s) b = Some st ->
  step_start (PClient (ParseState OP_START as0 d p None None) s) a i b =
    Next (PClient (ParseState st as0 d p None None) s) a i /\
  is_arg_state st = false /\ is_msg_state st = false /\ (a = true -> conn_state st = true) /\
  (is_m_state st = true -> h_typ s <> CLIENT).
Proof.
  intros Ha Hs. unfold step_start, start_next in *. rewrite Ha. simpl.
  destruct (is_ch b "C" "c") eqn:Ec; simpl in Ha.
  - apply orb_true_iff in Ec. rewrite !bool_decide_eq_true in Ec.
    destruct Ec as [-> | ->]; simpl in *; by simplify_eq.
  - subst a. repeat (case_match; simplify_eq; try done).
Qed.

Lemma sim_op st as0 p s a i b r' :
  let r := RState st [] false p [] s in
  is_arg_state st = false -> is_msg_state st = false -> 0 <= i < zlen buf -> buf !! Z.to_nat i = Some b -> session r a ->
  ref_run mcl r (b :: from (i + 1)) = Some r' ->
  followed (PClient (ParseState st as0 0 p None None) s) a i b r'.
Proof.
  intros r Ha Hm Hi Hb Hses Hrun. cbn [ref_run] in Hrun.
  apply bind_Some in Hrun as (r1 & Hstep & Hrun).
  assert (Hin : in_int64 (i + 1)) by (unfold in_int64; lia).
  assert (Hop : forall st' as1 p' s', is_arg_state st' = false -> is_msg_state st' = false ->
    rel (PClient (ParseState st' as1 0 p' None None) s') (i + 1) (RState st' [] false p' [] s') (from (i + 1)))
    by (intros; constructor; [done..|lia]).
  assert (Hline : forall h, r1 = r_line_end h r b -> session_kept s (h s) /\ inv (h s) -> conn_state st = false ->
    step buf (PClient (ParseState st as0 0 p None None) s) a i b =
      line_end h (PClient (ParseState st as0 0 p None None) s) a i b ->
    followed (PClient (ParseState st as0 0 p None None) s) a i b r').
  { intros h -> Hk Hcs Es. unfold line_end in Es. unfold r_line_end in Hrun.
    destruct (bool_decide (b = LF)); (eapply followed_intro; [exact Es|by apply Hop|done| |exact Hrun]);
      [|done]. by eapply session_call. }
  destruct (decide (st = OP_START)) as [->|Hst].
  { unfold ref_step in Hstep. simpl in Hstep. pose proof (ses_auth _ _ Hses) as Hau. simpl in Hau.
    rewrite <- Hau in Hstep. destruct (negb _ && a) eqn:Ea; [done|].
    apply bind_Some in Hstep as (st' & Hs & ?). simplify_eq.
    destruct (step_start_next as0 0 p s (h_isAuthTimerSet s) i b st' Ea Hs) as (Es & H1 & H2 & H3 & H4).
    eapply followed_intro; [exact Es|by apply Hop|done| |exact Hrun].
    split; simpl; [done| |apply Hses|apply (ses_inv _ _ Hses)|done]. destruct (h_isAuthTimerSet s); auto. }
  destruct (arg_after st) as [st'|] eqn:Eaf.
  { destruct (step_spc st st' as0 0 p s a i b Eaf) as (Es & H1 & H2 & H3).
    assert (Hstep' : (if is_blank b then Some r else if decide (mcl < 1) then None
      else Some (RState st' [b] false p [] s)) = Some r1).
    { unfold ref_step in Hstep. simpl in Hstep. by destruct st; simplify_eq/=. }
    destruct (is_blank b).
    - simplify_eq. eapply followed_intro; [exact Es|by apply Hop|done|done|exact Hrun].
    - destruct (decide (mcl < 1)); [done|]. simplify_eq.
      eapply followed_intro; [exact Es| |done| |exact Hrun].
      + apply (rel_arg st' i false); [done|simpl; lia|lia|]. right. split_and!; [done|lia|lia|].
        by apply slice_one.
      + apply (session_move r); [done|simpl; congruence..]. }
  unfold ref_step, r in Hstep.
  assert (Hcase : st = OP_PING \/ st = OP_PONG \/ st = OP_PLUS_OK \/
    exists st', kw_next st b = Some st' /\ r1 = RState st' [] false p [] s).
  { destruct st; simpl in Ha, Hm, Eaf, Hstep |- *; try discriminate; try congruence; try (by auto);
      do 3 right; apply bind_Some in Hstep as (st' & Hk & ?); exists st'; split; congruence. }
  destruct Hcase as [->|[->|[->|(st' & Hk & ->)]]].
  - eapply Hline; [simpl in Hstep; by simplify_eq|apply processPing_ok, (ses_inv _ _ Hses)|done|done].
  - eapply Hline; [simpl in Hstep; by simplify_eq|apply processPong_ok, (ses_inv _ _ Hses)|done|done].
  - eapply Hline; [simpl in Hstep; by simplify_eq|split; [done|apply (ses_inv _ _ Hses)]|done|done].
  - destruct (step_kw _ st' as0 0 p s a i b Hk) as (Es & _ & _ & H1 & H2 & H3 & H4).
    eapply followed_intro; [exact Es|by apply Hop|done| |exact Hrun].
    apply (session_move r); [done|simpl in *; congruence..].
Qed.

(** Running over a part of the payload. *)
Lemma body_skip p (s : St) body lo n r' :
  0 <= lo -> 0 <= n -> zlen body + n <= pa_size p ->
  ref_run mcl (RState MSG_PAYLOAD [] false p body s) (from lo) = Some r' ->
  ref_run mcl (RState MSG_PAYLOAD [] false p (body ++ take (Z.to_nat n) (from lo)) s) (from (lo + n)) = Some r'.
Proof.
  intros Hlo Hn Hl. rewrite (from_take lo n) at 1 by lia. rewrite ref_run_app, body_run; [done|].
  rewrite length_take. lia.
Qed.

Lemma sim_jump c p' s' a i k b r' ab :
  0 <= i < zlen buf -> 1 <= k <= 2 -> size_ok maxSize p' ->
  step buf c a i b = Next (PClient (ParseState MSG_PAYLOAD (i + 1) 0 p' ab None) s') a
    (wrap64 (i + 1 + pa_size p' - k)) ->
  session (RState MSG_PAYLOAD [] false p' [] s') a ->
  ref_run mcl (RState MSG_PAYLOAD [] false p' [] s') (from (i + 1)) = Some r' ->
  followed c a i b r'.
Proof.
  intros Hi Hk Hsz Es Hses Hrun. unfold size_ok in Hsz.
  rewrite wrap64_id in Es by (unfold in_int64; lia).
  set (j := i + 1 + pa_size p' - k + 1).
  eapply followed_intro; [exact Es|apply (rel_pay (i + 1)); [done|lia|lia|lia|lia]|unfold in_int64; lia| |].
  - destruct Hses. by split.
  - pose proof (body_skip p' s' [] (i + 1) (Z.max 0 (pa_size p' - k + 1)) r' ltac:(lia) ltac:(lia)) as Hb.
    simpl in Hb. specialize (Hb ltac:(lia) Hrun).
    replace (Z.max (i + 1 + pa_size p' - k + 1) (i + 1)) with (i + 1 + Z.max 0 (pa_size p' - k + 1)) by lia.
    replace (Z.to_nat (i + 1 + pa_size p' - k + 1 - (i + 1))) with (Z.to_nat (Z.max 0 (pa_size p' - k + 1))) by lia.
    done.
Qed.

(** The end of an argument line. *)
Lemma sim_finish st as0 d p ab line s a i b cr r' :
  let r := RState st line cr p [] s in
  let c := PClient (ParseState st as0 d p ab None) s in
  is_arg_state st = true -> 0 <= i < zlen buf -> session r a -> b = LF ->
  (ab = Some line \/ ab = None /\ go_slice buf as0 (i - d) = Some line) ->
  (r1 ← r_finish r; ref_run mcl r1 (from (i + 1))) = Some r' -> followed c a i b r'.
Proof.
  intros r c Hst Hi Hses -> Hab Hrun. apply bind_Some in Hrun as (r1 & Hfin & Hrun).
  assert (Harg : forall clear k, arg_state clear k buf c a i LF =
    k line (PClient (ParseState st as0 d p (if clear then None else ab) None) s)).
  { intros clear k. unfold arg_state, c. simpl.
    destruct Hab as [->|[-> ->]]; simpl; by destruct clear. }
  assert (Hin : in_int64 (i + 1)) by (unfold in_int64; lia).
  pose proof (ses_inv _ _ Hses) as Hinv. simpl in Hinv.
  assert (Hcall : forall h, (forall s', h line s = (s', None) -> session_kept s s' /\ inv s') ->
    step buf c a i LF = arg_state true (call_op h a i) buf c a i LF -> conn_state st = false ->
    r_called p (h line s) = Some r1 -> followed c a i LF r').
  { intros h Hk Es Hcs Hr. rewrite Harg in Es. unfold call_op in Es. simpl in Es. unfold r_called in Hr.
    destruct (h line s) as [s' [e|]] eqn:Eh; [done|]. simplify_eq.
    eapply followed_intro; [exact Es|apply rel_op; [done|done|lia]|done| |exact Hrun].
    eapply session_call; [done|by apply Hk|done|done]. }
  unfold r_finish, r in Hfin. simpl in Hfin.
  destruct st; try discriminate; simpl in Hfin.
  - eapply (Hcall (fun arg s => (h_processErr arg s, None))); [|done|done|done].
    intros s' [= <-]. by apply processErr_ok.
  - assert (Es : step buf c a i LF = arg_state true (end_connect i) buf c a i LF) by done.
    rewrite Harg in Es. unfold end_connect in Es. simpl in Es. unfold r_called in Hfin.
    destruct (h_processConnect line s) as [s' [e|]] eqn:Eh; [done|]. simplify_eq.
    eapply followed_intro; [exact Es|apply rel_op; [done|done|lia]|done| |exact Hrun].
    destruct (processConnect_ok _ _ _ Hinv Eh) as [Hm' Hi'].
    split; simpl; [done|by left| |done|done]. rewrite Hm'. apply Hses.
  - assert (Es : step buf c a i LF = arg_state false (end_pub a i) buf c a i LF) by done.
    rewrite Harg in Es. unfold end_pub in Es. simpl in Es. unfold r_payload in Hfin.
    destruct (h_processPub line p s) as [[s' p'] [e|]] eqn:Eh; [done|]. simplify_eq.
    destruct (processPub_ok _ _ _ _ _ Hinv Eh) as [Hsz Hk].
    eapply sim_jump; [done| |done|exact Es| |exact Hrun]; [unfold LEN_CR_LF; lia|].
    by eapply session_call.
  - eapply Hcall; [intros s' Es; exact (processSub_ok _ _ _ Hinv Es)|done..].
  - eapply Hcall; [intros s' Es; exact (processUnsub_ok _ _ _ Hinv Es)|done..].
  - assert (Es : step buf c a i LF = arg_state false (end_msg a i) buf c a i LF) by done.
    rewrite Harg in Es. unfold end_msg in Es. simpl in Es. unfold r_payload in Hfin.
    destruct (h_processMsgArgs line p s) as [[s' p'] [e|]] eqn:Eh; [done|]. simplify_eq.
    destruct (processMsgArgs_ok _ _ _ _ _ Hinv (ses_typ _ _ Hses eq_refl) Eh) as [Hsz Hk].
    eapply sim_jump; [done| |done|exact Es| |exact Hrun]; [lia|]. by eapply session_call.
  - eapply Hcall; [intros s' Es; exact (processInfo_ok _ _ _ Hinv Es)|done..].
Qed.

(** An argument byte that does not end the line. *)
Lemma step_arg_byte st as0 d p ab (s : St) a i b :
  is_arg_state st = true -> b <> LF ->
  step buf (PClient (ParseState st as0 d p ab None) s) a i b =
  Next (PClient (if bool_decide (b = CR) then ParseState st as0 1 p ab None
                 else ParseState st as0 d p ((.++ [b]) <$> ab) None) s) a i.
Proof.
  intros Hst Hb.
  destruct st; try discriminate;
    unfold step, step_pub, step_sub, step_unsub, step_connect, step_msg, step_info, step_ok_err, arg_state;
    simpl; case_bool_decide; try done; rewrite bool_decide_eq_false_2 by done; by destruct ab.
Qed.

Lemma sim_arg st as0 (cr : bool) p ab line s a i b r' :
  let r := RState st line cr p [] s in
  is_arg_state st = true -> zlen line <= mcl -> 0 <= i < zlen buf -> buf !! Z.to_nat i = Some b ->
  (ab = Some line \/
   ab = None /\ 0 <= as0 < i /\ go_slice buf as0 (i - if cr then 1 else 0) = Some line) ->
  session r a -> ref_run mcl r (b :: from (i + 1)) = Some r' ->
  followed (PClient (ParseState st as0 (if cr then 1 else 0) p ab None) s) a i b r'.
Proof.
  intros r Hst Hl Hi Hb Hab Hses Hrun.
  assert (Hstep : ref_step mcl r b = r_arg mcl r b) by (by destruct st).
  cbn [ref_run] in Hrun. rewrite Hstep in Hrun. unfold r_arg in Hrun.
  destruct (bool_decide_reflect (b = LF)) as [->|Hlf].
  { eapply (sim_finish st as0 _ p ab line s a i LF cr); [done..| |exact Hrun]. naive_solver. }
  simpl in Hrun. destruct cr; [done|].
  pose proof (step_arg_byte st as0 0 p ab s a i b Hst Hlf) as Es.
  assert (Hin : in_int64 (i + 1)) by (unfold in_int64; lia).
  destruct (bool_decide (b = CR)); simpl in Hrun.
  - eapply followed_intro; [exact Es|apply (rel_arg st as0 true p ab line); [done|done|lia|]|done| |exact Hrun].
    + destruct Hab as [?|(? & ? & Hg)]; [by left|right]. split_and!; [done|lia|lia|].
      by replace (i + 1 - 1) with (i - 0) by lia.
    + by apply (session_move r).
  - destruct (decide (mcl < zlen (line ++ [b]))); [done|]. simpl in Hrun.
    eapply followed_intro; [exact Es|apply (rel_arg st as0 false p); [done| |lia|]|done| |exact Hrun].
    + lia.
    + destruct Hab as [->|(-> & Has & Hg)]; [by left|right]. split_and!; [done|lia|lia|].
      rewrite go_slice_from in Hg |- * by lia. simplify_eq.
      replace (i + 1 - 0 - as0) with (i - as0 + 1) by lia.
      rewrite (take_snoc as0 (i - as0) b); [|lia|lia|]; [|by replace (as0 + (i - as0)) with i by lia].
      by replace (i - 0 - as0) with (i - as0) by lia.
    + by apply (session_move r).
Qed.

(** The payload in the buffer. *)
Lemma sim_pay as0 p ab s a i b r' :
  let r := RState MSG_PAYLOAD [] false p (take (Z.to_nat (i - as0)) (from as0)) s in
  size_ok maxSize p -> 0 <= as0 <= zlen buf -> 0 <= i < zlen buf -> buf !! Z.to_nat i = Some b ->
  as0 - 1 <= i <= as0 + pa_size p -> (i = as0 - 1 -> pa_size p = 0) ->
  session r a -> ref_run mcl r (from (Z.max i as0)) = Some r' ->
  followed (PClient (ParseState MSG_PAYLOAD as0 0 p ab None) s) a i b r'.
Proof.
  intros r Hsz Has Hi Hb Hr H0 Hses Hrun. pose proof Hsz as Hsz'. unfold size_ok in Hsz'.
  assert (Es : step buf (PClient (ParseState MSG_PAYLOAD as0 0 p ab None) s) a i b =
    Next (PClient (ParseState (if decide (pa_size p <= i - as0) then MSG_END else MSG_PAYLOAD) as0 0 p ab None) s) a i).
  { unfold step, step_payload. simpl. rewrite wrap64_id by (unfold in_int64; lia). by case_decide. }
  assert (Hin : in_int64 (i + 1)) by (unfold in_int64; lia).
  assert (Hses' : forall body, session (RState MSG_PAYLOAD [] false p body s) a) by (destruct Hses; by split).
  destruct (decide (i = as0 - 1)) as [Hneg|Hpos].
  { rewrite decide_False in Es by lia.
    eapply followed_intro; [exact Es|apply (rel_pay as0); [done|lia|lia|lia|lia]|done|apply Hses'|].
    replace (Z.max (i + 1) as0) with (Z.max i as0) by lia.
    by replace (Z.to_nat (i + 1 - as0)) with (Z.to_nat (i - as0)) by lia. }
  assert (Hx : take (Z.to_nat (i + 1 - as0)) (from as0) = take (Z.to_nat (i - as0)) (from as0) ++ [b]).
  { replace (i + 1 - as0) with (i - as0 + 1) by lia. apply take_snoc; [lia|lia|].
    by replace (as0 + (i - as0)) with i by lia. }
  assert (Hlen : zlen (take (Z.to_nat (i - as0)) (from as0)) = i - as0).
  { rewrite length_take. pose proof (zlen_from as0). lia. }
  rewrite Z.max_l, (from_cons i b) in Hrun by (lia || done). cbn [ref_run] in Hrun.
  unfold ref_step, r in Hrun. simpl in Hrun. unfold r_pay in Hrun. simpl in Hrun. rewrite Hlen, <- Hx in Hrun.
  destruct (decide (i - as0 < pa_size p)).
  - rewrite decide_False in Es by lia.
    eapply followed_intro; [exact Es|apply (rel_pay as0); [done|lia|lia|lia|lia]|done|apply Hses'|].
    rewrite Z.max_l by lia. exact Hrun.
  - assert (Hi' : i - as0 = pa_size p) by lia.
    rewrite decide_True in Es by lia. rewrite decide_True in Hrun by done.
    destruct (bool_decide (b = CR)); [|done]. simpl in Hrun.
    eapply followed_intro; [exact Es|apply (rel_end as0); [done|lia|lia|lia]|done|apply Hses'|].
    replace (pa_size p + 1) with (i + 1 - as0) by lia. exact Hrun.
Qed.

(** The message is complete. *)
Lemma sim_msg_done as0 p ab mbo s a i body r' :
  let r := RState MSG_PAYLOAD [] false p body s in
  size_ok maxSize p -> 0 <= i < zlen buf -> session r a -> zlen body = pa_size p + 1 ->
  (match mbo with Some mb => Some (mb ++ [LF]) | None => go_slice buf as0 (i + 1) end) = Some (body ++ [LF]) ->
  ref_run mcl (r_done p (h_processMsg p (body ++ [LF]) s)) (from (i + 1)) = Some r' ->
  followed (PClient (ParseState MSG_END as0 0 p ab mbo) s) a i LF r'.
Proof.
  intros r Hsz Hi Hses Hl Hmb Hrun. pose proof Hsz as Hsz'. unfold size_ok in Hsz'.
  assert (Es : step buf (PClient (ParseState MSG_END as0 0 p ab mbo) s) a i LF =
    Next (PClient (ParseState OP_START (i + 1) 0 p None None) (h_processMsg p (body ++ [LF]) s)) a i).
  { unfold step, step_msg_end. simpl. rewrite Hmb. rewrite decide_False; [done|].
    rewrite length_app. simpl. unfold LEN_CR_LF. rewrite wrap64_id by (unfold in_int64; lia). lia. }
  eapply followed_intro; [exact Es|apply rel_op; [done|done|lia]|unfold in_int64; lia| |exact Hrun].
  eapply session_call; [done|apply processMsg_ok, (ses_inv _ _ Hses)|done|done].
Qed.

Lemma sim_end as0 p ab s a i b r' :
  let r := RState MSG_PAYLOAD [] false p (take (Z.to_nat (pa_size p + 1)) (from as0)) s in
  size_ok maxSize p -> 0 <= as0 -> i = as0 + pa_size p + 1 -> i < zlen buf -> buf !! Z.to_nat i = Some b ->
  session r a -> ref_run mcl r (b :: from (i + 1)) = Some r' ->
  followed (PClient (ParseState MSG_END as0 0 p ab None) s) a i b r'.
Proof.
  intros r Hsz Has Hi Hlt Hb Hses Hrun. pose proof Hsz as Hsz'. unfold size_ok in Hsz'.
  assert (Hlen : zlen (take (Z.to_nat (pa_size p + 1)) (from as0)) = pa_size p + 1).
  { rewrite length_take. pose proof (zlen_from as0). lia. }
  cbn [ref_run] in Hrun. unfold ref_step, r in Hrun. simpl in Hrun. unfold r_pay in Hrun. simpl in Hrun.
  rewrite Hlen in Hrun. rewrite !decide_False in Hrun by lia.
  case_bool_decide as Hlf; [|done]. simpl in Hrun. rewrite Hlf in *.
  eapply sim_msg_done; [done|lia|exact Hses|done| |exact Hrun].
  rewrite go_slice_from by lia. rewrite <- (take_snoc as0 (pa_size p + 1) LF); [|lia|lia|].
  - do 3 f_equal. lia.
  - by replace (as0 + (pa_size p + 1)) with i by lia.
Qed.

Lemma sim_end_saved as0 p ab mb s a i b r' :
  let r := RState MSG_PAYLOAD [] false p mb s in
  size_ok maxSize p -> pa_size p <= zlen mb <= pa_size p + 1 -> 0 <= i < zlen buf ->
  session r a -> ref_run mcl r (b :: from (i + 1)) = Some r' ->
  followed (PClient (ParseState MSG_END as0 0 p ab (Some mb)) s) a i b r'.
Proof.
  intros r Hsz Hl Hi Hses Hrun. pose proof Hsz as Hsz'. unfold size_ok in Hsz'.
  cbn [ref_run] in Hrun. unfold ref_step, r in Hrun. simpl in Hrun. unfold r_pay in Hrun. simpl in Hrun.
  rewrite decide_False in Hrun by lia. destruct (decide (zlen mb = pa_size p)).
  - case_bool_decide as Hcr; [|done]. simpl in Hrun. subst b.
    eapply followed_intro; [done|apply rel_end_saved; [done|rewrite length_app; simpl; lia|lia]|
      unfold in_int64; lia| |exact Hrun]. destruct Hses. by split.
  - case_bool_decide as Hlf; [|done]. simpl in Hrun. subst b.
    by eapply sim_msg_done; [done|lia|exact Hses|lia|done|].
Qed.

(** The payload goes to the saved buffer. *)
Lemma sim_pay_saved as0 p ab mb s a i b r' :
  let r := RState MSG_PAYLOAD [] false p mb s in
  size_ok maxSize p -> zlen mb <= pa_size p -> 0 <= i < zlen buf -> buf !! Z.to_nat i = Some b ->
  session r a -> ref_run mcl r (from i) = Some r' ->
  followed (PClient (ParseState MSG_PAYLOAD as0 0 p ab (Some mb)) s) a i b r'.
Proof.
  intros r Hsz Hl Hi Hb Hses Hrun. pose proof Hsz as Hsz'. unfold size_ok in Hsz'.
  assert (Hses' : forall body, session (RState MSG_PAYLOAD [] false p body s) a) by (destruct Hses; by split).
  set (tc := if decide (zlen buf - i < pa_size p - zlen mb) then zlen buf - i else pa_size p - zlen mb).
  assert (Htc : 0 <= tc <= zlen buf - i /\ zlen mb + tc <= pa_size p /\
    (tc = zlen buf - i \/ zlen mb + tc = pa_size p)) by (unfold tc; case_decide; lia).
  destruct (decide (0 < tc)) as [Hpos|Hz].
  - assert (Hlx : zlen (take (Z.to_nat tc) (from i)) = tc)
      by (rewrite length_take; pose proof (zlen_from i); lia).
    assert (Es : step buf (PClient (ParseState MSG_PAYLOAD as0 0 p ab (Some mb)) s) a i b =
      Next (PClient (ParseState (if decide (pa_size p <= zlen (mb ++ take (Z.to_nat tc) (from i))) then MSG_END else MSG_PAYLOAD)
        as0 0 p ab (Some (mb ++ take (Z.to_nat tc) (from i)))) s) a (i + tc - 1)).
    { unfold step, step_payload. simpl. fold tc. rewrite decide_True by done.
      rewrite go_slice_from by lia. replace (i + tc - i) with tc by lia. done. }
    pose proof (body_skip p s mb i tc r' ltac:(lia) ltac:(lia) ltac:(lia) Hrun) as Hskip.
    assert (Hin : in_int64 (i + tc - 1 + 1)) by (unfold in_int64; lia).
    replace (i + tc) with (i + tc - 1 + 1) in Hskip by lia.
    case_decide as Hd; rewrite length_app in Hd;
      (eapply followed_intro; [exact Es| |done|apply Hses'|exact Hskip]).
    + apply rel_end_saved; [done|rewrite length_app; lia|lia].
    + apply rel_pay_saved; [done|rewrite length_app; lia|lia].
  - assert (Hfull : zlen mb = pa_size p) by lia.
    rewrite (from_cons i b) in Hrun by (lia || done). cbn [ref_run] in Hrun.
    unfold ref_step, r in Hrun. simpl in Hrun. unfold r_pay in Hrun. simpl in Hrun.
    rewrite decide_False, decide_True in Hrun by lia. case_bool_decide as Hcr; [|done]. simpl in Hrun.
    eapply followed_intro; [|apply (rel_end_saved as0 p ab (mb ++ [b]) s)| |apply Hses'|exact Hrun];
      [|done|rewrite length_app; simpl; lia|lia|unfold in_int64; lia].
    unfold step, step_payload. simpl. fold tc. rewrite decide_False by done.
    rewrite decide_True by (rewrite length_app; simpl; lia). done.
Qed.

(** One step. *)
Lemma step_sim c a i r rem r' b :
  rel c i r rem -> session r a -> 0 <= i < zlen buf -> buf !! Z.to_nat i = Some b ->
  ref_run mcl r rem = Some r' -> followed c a i b r'.
Proof.
  intros Hrel Hses Hi Hb Hrun. destruct Hrel.
  - rewrite (from_cons i b) in Hrun by (lia || done). by eapply sim_op.
  - rewrite (from_cons i b) in Hrun by (lia || done). by eapply sim_arg.
  - by eapply sim_pay.
  - rewrite (from_cons i b) in Hrun by (lia || done). eapply sim_end; try done. lia.
  - by eapply sim_pay_saved.
  - rewrite (from_cons i b) in Hrun by (lia || done). by eapply sim_end_saved.
Qed.

Lemma rel_past c i r rem : rel c i r rem -> zlen buf <= i -> rem = [].
Proof. intros [] Hi; unfold from; apply drop_ge; lia. Qed.

Lemma parse_loop_sim fuel : forall c a i r rem r',
  rel c i r rem -> session r a -> ref_run mcl r rem = Some r' ->
  parse_loop fuel buf c a i <> LFuel -> parse_loop fuel buf c a i <> LPanic ->
  exists c' a' i' rem', parse_loop fuel buf c a i = Fell c' i' /\ rel c' i' r' rem' /\ session r' a' /\ zlen buf <= i'.
Proof.
  induction fuel as [|fuel IH]; intros c a i r rem r' Hrel Hses Hrun Hf Hp; cbn [parse_loop] in *; [done|].
  destruct (decide (i < zlen buf)) as [Hlt|Hge].
  - destruct (decide (i < 0)); [done|].
    destruct (buf !! Z.to_nat i) as [b|] eqn:Hb; [|done].
    destruct (step_sim c a i r rem r' b Hrel Hses ltac:(lia) Hb Hrun)
      as (c' & a' & i' & r1 & rem1 & E & Hrel1 & Hses1 & Hrun1).
    rewrite E in *. by eapply IH.
  - rewrite (rel_past c i r rem) in Hrun by (done || lia). simpl in Hrun. simplify_eq.
    do 4 eexists. split_and!; [done|done|done|lia].
Qed.
End simulation.

Section streams.
Context {St : Type} `{Handlers St} (maxSize : Z) (inv : St -> Prop) `{!HandlersOk St maxSize inv}.
Context (maxAlloc mcl : Z) (Hmax : (0 <= maxSize)%Z) (Halloc : (maxSize + 2 <= maxAlloc)%Z).
Local Open Scope Z_scope.

(** The parser waits for the next buffer where the machine is in state [r]. *)
Definition waits (c : pclient St) (r : rstate St) : Prop :=
  forall buf, rel maxSize mcl buf c 0 r buf.

Lemma rel_inv buf (c : pclient St) i (r : rstate St) rem : rel maxSize mcl buf c i r rem ->
  (exists a, session inv mcl r a) -> buf_inv maxSize inv buf c i.
Proof.
  intros Hr [a Hses]. pose proof (ses_inv _ _ _ _ Hses) as Hinv. pose proof (ses_typ _ _ _ _ Hses) as Htyp. assert (forall b : bool, 0 <= (if b then 1 else 0) <= 1) by (intros []; lia).
  destruct Hr as [st ? ? ? ? H1 H2|st ? ? ? ? ? ? ? H1 ? ? H2|? ? ? ? ? Hsz|? ? ? ? ? Hsz| |];
    unfold size_ok in *; split; simpl; try lia; try done; try congruence.
  - intros _. split; [done|lia].
  - intros _ ->. destruct H2 as [|(_ & ? & _)]; [done|lia].
  - intros _. split; [done|lia].
  - by destruct st.
  - by destruct st.
  - intros _ _. split_and!; [lia..|done].
Qed.

Lemma save_msg_rel buf as0 st p ab (s : St) x :
  size_ok maxSize p -> go_slice buf as0 (Z.of_nat (length buf)) = Some x ->
  Z.of_nat (length x) <= pa_size p + 1 -> Z.of_nat (length buf) + maxSize + 4 < 2 ^ 63 ->
  exists ab', save_msg maxAlloc buf (PClient (ParseState st as0 0 p ab None) s) =
    Some (Some (PClient (ParseState st as0 0 p ab' (Some x)) s)).
Proof.
  intros Hsz Hx Hl Hb. unfold size_ok in Hsz. unfold save_msg. simpl.
  set (c1 := match ab with Some _ => _ | None => _ end).
  assert (Hc1 : exists ab', c1 = PClient (ParseState st as0 0 p ab' None) s).
  { unfold c1. destruct ab; [by eexists|]. pose proof (clonePubArg_id (PClient (ParseState st as0 0 p None None) s)) as E.
    destruct (clonePubArg _) as [p1 s1] eqn:Ec. simpl in E. unfold clonePubArg in Ec.
    injection Ec as _ <-. rewrite E. by eexists. }
  destruct Hc1 as [ab' ->]. simpl. rewrite Hx. simpl. exists ab'.
  case_decide; [|done]. unfold LEN_CR_LF. rewrite wrap64_id by (unfold in_int64; lia).
  by rewrite !decide_False by lia.
Qed.

Lemma end_of_buffer_sim buf (c : pclient St) i (r : rstate St) rem :
  Z.of_nat (length buf) + maxSize + 4 < 2 ^ 63 ->
  rel maxSize mcl buf c i r rem -> Z.of_nat (length buf) <= i ->
  exists c', end_of_buffer maxAlloc mcl buf c i = Parsed c' /\ waits c' r.
Proof.
  intros Hb Hrel Hi. unfold end_of_buffer.
  assert (Hpay : forall st as0 p ab (s : St) body, size_ok maxSize p -> 0 <= as0 <= Z.of_nat (length buf) ->
    is_msg_state st = true -> body = from buf as0 -> Z.of_nat (length body) <= pa_size p + 1 ->
    exists ab', save_msg maxAlloc buf (PClient (ParseState st as0 0 p ab None) s) =
      Some (Some (PClient (ParseState st as0 0 p ab' (Some body)) s))).
  { intros st as0 p ab s body Hsz Has Hst -> Hl.
    apply save_msg_rel; [done| |done|done]. rewrite go_slice_from by lia.
    f_equal. apply take_ge. pose proof (zlen_from buf as0 Has). lia. }
  destruct Hrel as [st as0 p s i Ha Hm Hin|st as0 cr p ab line s i Ha Hl Hin Hab|as0 p ab s i Hsz Has Hi0 Hr H0|
    as0 p ab s i Hsz Has -> Hin|as0 p ab mb s i Hsz Hl Hin|as0 p ab mb s i Hsz Hl Hin].
  - simpl. rewrite Ha. simpl. rewrite Ha, Hm. simpl. eexists. split; [done|].
    intros buf'. apply (rel_op maxSize mcl buf'); [done|done|lia].
  - assert (Hms : is_msg_state st = false) by (by destruct st). simpl. rewrite Ha. unfold save_arg. simpl.
    assert (Hw : waits (PClient (ParseState st as0 (if cr then 1 else 0) p (Some line) None) s) (RState st line cr p [] s)).
    { intros buf'. apply (rel_arg maxSize mcl buf'); [done|done|lia|by left]. }
    destruct Hab as [->|(-> & Has & Hg)]; simpl.
    + rewrite Ha, Hms. simpl. rewrite bool_decide_eq_false_2 by lia. eauto.
    + assert (i = Z.of_nat (length buf)) as -> by lia. rewrite Hg. simpl. rewrite Ha, Hms. simpl.
      rewrite bool_decide_eq_false_2 by lia. eauto.
  - simpl. pose proof (zlen_from buf as0 Has) as Hlf.
    assert (Hbody : take (Z.to_nat (i - as0)) (from buf as0) = from buf as0) by (apply take_ge; lia).
    rewrite Hbody. unfold size_ok in Hsz.
    destruct (Hpay MSG_PAYLOAD as0 p ab s _ Hsz Has eq_refl eq_refl ltac:(lia)) as [ab' ->].
    eexists. split; [done|]. intros buf'. apply (rel_pay_saved maxSize mcl buf'); [done|lia|lia].
  - simpl. unfold size_ok in Hsz. pose proof (zlen_from buf as0 ltac:(lia)) as Hlf.
    assert (Hbody : take (Z.to_nat (pa_size p + 1)) (from buf as0) = from buf as0) by (apply take_ge; lia).
    rewrite Hbody.
    destruct (Hpay MSG_END as0 p ab s _ Hsz ltac:(lia) eq_refl eq_refl ltac:(lia)) as [ab' ->].
    eexists. split; [done|]. intros buf'. apply (rel_end_saved maxSize mcl buf'); [done|lia|lia].
  - simpl. eexists. split; [done|]. intros buf'. apply (rel_pay_saved maxSize mcl buf'); [done|lia|lia].
  - simpl. eexists. split; [done|]. intros buf'. apply (rel_end_saved maxSize mcl buf'); [done|lia|lia].
Qed.

Lemma waits_rest c r : waits c r -> rest c = r_rest r.
Proof. intros Hw. by destruct (Hw []). Qed.

(** One buffer. *)
Lemma parse_sim buf c r r' :
  Z.of_nat (length buf) + maxSize + 4 < 2 ^ 63 ->
  waits c r -> session inv mcl r (h_isAuthTimerSet (rest c)) -> ref_run mcl r buf = Some r' ->
  exists c', parse maxAlloc buf c = Parsed c' /\ waits c' r' /\ session inv mcl r' (h_isAuthTimerSet (rest c')).
Proof.
  intros Hb Hw Hses Hrun. unfold parse.
  assert (Hmcl : default MAX_CONTROL_LINE_SIZE (h_maxControlLine (rest c)) = mcl)
    by (rewrite (waits_rest c r Hw); apply Hses).
  rewrite Hmcl. pose proof (Hw buf) as Hrel.
  set (f := (2 * length buf + 3)%nat).
  assert (Hf : loop_measure buf c 0 < Z.of_nat f) by (unfold loop_measure, f; case_decide; lia).
  pose proof (parse_loop_good maxSize inv buf Hmax Hb f c (h_isAuthTimerSet (rest c)) 0
    (rel_inv _ _ _ _ _ Hrel (ex_intro _ _ Hses)) Hf ltac:(lia)) as Hg.
  destruct (parse_loop_sim maxSize inv mcl buf Hmax Hb f c _ 0 r buf r' Hrel Hses Hrun)
    as (c' & a' & i' & rem' & E & Hrel' & Hses' & Hi').
  { intros E. by rewrite E in Hg. }
  { intros E. by rewrite E in Hg. }
  rewrite E. destruct (end_of_buffer_sim buf c' i' r' rem' Hb Hrel' Hi') as (c'' & -> & Hw').
  exists c''. split_and!; [done|done|]. rewrite (waits_rest _ _ Hw').
  destruct Hses' as [Ha Hc Hm Hi Ht]. by split.
Qed.

(** Any number of buffers. *)
Lemma parse_all_sim bufs : forall c r r',
  Forall (fun buf => Z.of_nat (length buf) + maxSize + 4 < 2 ^ 63) bufs ->
  waits c r -> session inv mcl r (h_isAuthTimerSet (rest c)) -> ref_run mcl r (concat bufs) = Some r' ->
  exists c', parse_all maxAlloc bufs c = Parsed c' /\ waits c' r'.
Proof.
  induction bufs as [|buf bufs IH]; intros c r r' Hb Hw Hses Hrun; simpl in *; [simplify_eq; eauto|].
  apply Forall_cons in Hb as [Hb Hbs]. rewrite ref_run_app in Hrun.
  apply bind_Some in Hrun as (r1 & Hr1 & Hrun).
  destruct (parse_sim buf c r r1 Hb Hw Hses Hr1) as (c1 & -> & Hw1 & Hses1). by eapply IH.
Qed.
End streams.

(** ** Operations of the protocol *)

Inductive cmd :=
| CSub (arg : bytes)
| CUnsub (arg : bytes)
| CConnect (arg : bytes)
| CInfo (arg : bytes)
| CErr (arg : bytes)
| CPing
| CPong
| COk
| CPub (arg payload : bytes)
| CMsg (arg payload : bytes).

Definition CRLF : bytes := [CR; LF].

(** Its text on the wire. *)
Definition encode (k : cmd) : bytes :=
  match k with
  | CSub arg => bs "SUB " ++ arg ++ CRLF
  | CUnsub arg => bs "UNSUB " ++ arg ++ CRLF
  | CConnect arg => bs "CONNECT " ++ arg ++ CRLF
  | CInfo arg => bs "INFO " ++ arg ++ CRLF
  | CErr arg => bs "-ERR " ++ arg ++ CRLF
  | CPing => bs "PING" ++ CRLF
  | CPong => bs "PONG" ++ CRLF
  | COk => bs "+OK" ++ CRLF
  | CPub arg payload => bs "PUB " ++ arg ++ CRLF ++ payload ++ CRLF
  | CMsg arg payload => bs "MSG " ++ arg ++ CRLF ++ payload ++ CRLF
  end.

(** An argument line: not empty, no leading blank, no line break, not longer
    than the limit. *)
Definition line_ok (mcl : Z) (arg : bytes) : bool :=
  match arg with
  | [] => false
  | b :: _ =>
      negb (is_blank b) && forallb (fun x => negb (bool_decide (x = CR)) && negb (bool_decide (x = LF))) arg &&
      bool_decide (Z.of_nat (length arg) <= mcl)%Z
  end.

Definition cmd_ok (mcl : Z) (k : cmd) : bool :=
  match k with
  | CSub arg | CUnsub arg | CConnect arg | CInfo arg | CErr arg | CPub arg _ | CMsg arg _ => line_ok mcl arg
  | CPing | CPong | COk => true
  end.

Section commands.
Context {St : Type} `{Handlers St} (mcl : Z).
Local Open Scope Z_scope.

(** The handlers that an operation calls, with the arguments that the last
    PUB or MSG left; [None] when it is refused. *)
Definition exec_call (p : pubArg) (res : St * option srv_error) : option (pubArg * St) :=
  match res with (s, None) => Some (p, s) | _ => None end.

Definition exec_payload (payload : bytes) (res : St * pubArg * option srv_error) : option (pubArg * St) :=
  match res with
  | (s, p, None) =>
      if decide (pa_size p = Z.of_nat (length payload)) then Some (p, h_processMsg p (payload ++ CRLF) s)
      else None
  | _ => None
  end.

Definition exec (k : cmd) (x : pubArg * St) : option (pubArg * St) :=
  let '(p, s) := x in
  match k with
  | CConnect arg => exec_call p (h_processConnect arg s)
  | _ =>
      if h_isAuthTimerSet s then None
      else
        match k with
        | CSub arg => exec_call p (h_processSub arg s)
        | CUnsub arg => exec_call p (h_processUnsub arg s)
        | CConnect arg => exec_call p (h_processConnect arg s)
        | CInfo arg => exec_call p (h_processInfo arg s)
        | CErr arg => Some (p, h_processErr arg s)
        | CPing => Some (p, h_processPing s)
        | CPong => Some (p, h_processPong s)
        | COk => Some (p, s)
        | CPub arg payload => exec_payload payload (h_processPub arg p s)
        | CMsg arg payload =>
            if decide (h_typ s = CLIENT) then None else exec_payload payload (h_processMsgArgs arg p s)
        end
  end.

Fixpoint exec_all (ks : list cmd) (x : pubArg * St) : option (pubArg * St) :=
  match ks with
  | [] => Some x
  | k :: ks' => x' ← exec k x; exec_all ks' x'
  end.

(** The machine on an argument line. *)
Lemma arg_run st p (s : St) xs : forall line more,
  is_arg_state st = true ->
  forallb (fun x => negb (bool_decide (x = CR)) && negb (bool_decide (x = LF))) xs = true ->
  Z.of_nat (length (line ++ xs)) <= mcl ->
  ref_run mcl (RState st line false p [] s) (xs ++ CRLF ++ more) =
    r1 ← r_finish (RState st (line ++ xs) true p [] s); ref_run mcl r1 more.
Proof.
  assert (Hst : forall r b, is_arg_state (r_st r) = true -> ref_step mcl r b = r_arg mcl r b).
  { intros r b Hr. unfold ref_step. by destruct (r_st r). }
  induction xs as [|b xs IH]; intros line more Ha Hx Hl.
  - rewrite app_nil_r in *. cbn [app CRLF ref_run]. rewrite Hst by done. simpl. by rewrite Hst.
  - simpl in Hx. rewrite !andb_true_iff, !negb_true_iff, !bool_decide_eq_false in Hx.
    destruct Hx as [[Hcr Hlf] Hx]. cbn [app ref_run]. rewrite Hst by done. unfold r_arg. simpl.
    rewrite (bool_decide_eq_false_2 (b = LF)), (bool_decide_eq_false_2 (b = CR)) by done.
    rewrite (app_assoc line [b] xs : line ++ b :: xs = (line ++ [b]) ++ xs) in Hl |- *.
    rewrite length_app in Hl. rewrite decide_False by lia. simpl. apply IH; [done|done|].
    rewrite length_app. lia.
Qed.

(** From the blank before an argument to the end of its line. *)
Lemma spc_run st st' p (s : St) arg more :
  arg_after st = Some st' -> line_ok mcl arg = true ->
  ref_run mcl (RState st [] false p [] s) (arg ++ CRLF ++ more) =
    r1 ← r_finish (RState st' arg true p [] s); ref_run mcl r1 more.
Proof.
  intros Haf Hl. destruct arg as [|b arg]; [done|]. unfold line_ok in Hl.
  rewrite !andb_true_iff, negb_true_iff, bool_decide_eq_true in Hl. destruct Hl as [[Hb Hx] Hlen].
  simpl in Hx. apply andb_prop in Hx as [_ Hx]. cbn [app ref_run].
  assert (Hstep : ref_step mcl (RState st [] false p [] s) b = Some (RState st' [b] false p [] s)).
  { simpl length in Hlen. unfold ref_step. destruct st; simpl in *; simplify_eq; simpl;
      rewrite Hb, decide_False by lia; done. }
  rewrite Hstep. cbn [mbind option_bind].
  rewrite (arg_run st' p s arg [b] more); [done|by destruct st; simplify_eq/=|done|done].
Qed.

Lemma payload_run p (s : St) payload more :
  pa_size p = Z.of_nat (length payload) ->
  ref_run mcl (RState MSG_PAYLOAD [] false p [] s) (payload ++ CRLF ++ more) =
  ref_run mcl (r_done p (h_processMsg p (payload ++ CRLF) s)) more.
Proof.
  intros Hsz. rewrite ref_run_app, (body_run mcl p s payload []) by (simpl; lia). simpl.
  assert (Hp : forall body b, ref_step mcl (RState MSG_PAYLOAD [] false p body s) b =
    r_pay (RState MSG_PAYLOAD [] false p body s) b) by done.
  rewrite Hp. unfold r_pay at 1. simpl. rewrite decide_False, decide_True by lia. simpl.
  rewrite Hp. unfold r_pay at 1. simpl. rewrite length_app. simpl.
  rewrite !decide_False by lia. simpl. by rewrite <- app_assoc.
Qed.

Lemma start_letter p (s : St) b st more :
  (h_isAuthTimerSet s = false \/ is_ch b "C" "c" = true) -> start_next (h_typ s) b = Some st ->
  ref_run mcl (r_done p s) (b :: more) = ref_run mcl (RState st [] false p [] s) more.
Proof.
  intros Hau Hs. cbn [ref_run]. unfold ref_step at 1. simpl.
  replace (negb (is_ch b "C" "c") && h_isAuthTimerSet s) with false.
  - by rewrite Hs.
  - destruct Hau as [->| ->]; [by rewrite andb_false_r|done].
Qed.

Lemma finish_call st p (s : St) arg res :
  r_finish (RState st arg true p [] s) = r_called p res ->
  forall p' s', exec_call p res = Some (p', s') -> r_finish (RState st arg true p [] s) = Some (r_done p' s').
Proof. intros -> p' s'. destruct res as [s0 [e|]]; simpl; intros; by simplify_eq. Qed.

Lemma finish_payload st p (s : St) arg payload res more :
  r_finish (RState st arg true p [] s) = r_payload res ->
  forall p' s', exec_payload payload res = Some (p', s') ->
  (r1 ← r_finish (RState st arg true p [] s); ref_run mcl r1 (payload ++ CRLF ++ more)) =
  ref_run mcl (r_done p' s') more.
Proof.
  intros -> p' s'. destruct res as [[s0 p0] [e|]]; simpl; [done|].
  case_decide as Hsz; [|done]. intros [= <- <-]. by apply payload_run.
Qed.

Ltac keyword_side :=
  first [done | by left | by right
        | unfold start_next; simpl; by rewrite decide_False].

(** The first letter [b], the rest [kw] of the keyword, the blanks, the line. *)
Lemma keyword_run b st0 kw st st' p (s : St) arg more :
  (h_isAuthTimerSet s = false \/ is_ch b "C" "c" = true) -> start_next (h_typ s) b = Some st0 ->
  ref_run mcl (RState st0 [] false p [] s) kw = Some (RState st [] false p [] s) ->
  arg_after st = Some st' -> line_ok mcl arg = true ->
  ref_run mcl (r_done p s) ((b :: kw) ++ arg ++ CRLF ++ more) =
    r1 ← r_finish (RState st' arg true p [] s); ref_run mcl r1 more.
Proof.
  intros Hau Hs Hkw Haf Hl. cbn [app]. rewrite (start_letter p s b st0) by done.
  rewrite ref_run_app, Hkw. cbn [mbind option_bind]. by apply spc_run.
Qed.

(** The machine runs an operation as [exec] says. *)
Lemma encode_run k p (s : St) p' s' more :
  cmd_ok mcl k = true -> exec k (p, s) = Some (p', s') ->
  ref_run mcl (r_done p s) (encode k ++ more) = ref_run mcl (r_done p' s') more.
Proof.
  intros Hok Hex.
  assert (Hau : h_isAuthTimerSet s = false \/ exists arg, k = CConnect arg).
  { unfold exec in Hex. destruct k; try (destruct (h_isAuthTimerSet s); [done|by left]). right. eauto. }
  destruct k as [arg|arg|arg|arg|arg| | | |arg payload|arg payload]; simpl in Hok; unfold exec in Hex;
    try (destruct Hau as [Hau|[? ?]]; [rewrite Hau in Hex|done]); unfold encode; rewrite <- ?app_assoc.
  - rewrite (keyword_run "S"%char OP_S (bs "UB ") OP_SUB_SPC SUB_ARG p s arg) by keyword_side. by erewrite finish_call.
  - rewrite (keyword_run "U"%char OP_U (bs "NSUB ") OP_UNSUB_SPC UNSUB_ARG p s arg) by keyword_side. by erewrite finish_call.
  - rewrite (keyword_run "C"%char OP_C (bs "ONNECT ") OP_CONNECT CONNECT_ARG p s arg) by keyword_side. by erewrite finish_call.
  - rewrite (keyword_run "I"%char OP_I (bs "NFO ") OP_INFO INFO_ARG p s arg) by keyword_side. by erewrite finish_call.
  - rewrite (keyword_run "-"%char OP_MINUS (bs "ERR ") OP_MINUS_ERR_SPC MINUS_ERR_ARG p s arg) by keyword_side. by simplify_eq.
  - etransitivity; [exact (start_letter p s "P"%char OP_P (bs "ING" ++ CRLF ++ more) (or_introl Hau) eq_refl)|]. by simplify_eq.
  - etransitivity; [exact (start_letter p s "P"%char OP_P (bs "ONG" ++ CRLF ++ more) (or_introl Hau) eq_refl)|]. by simplify_eq.
  - etransitivity; [exact (start_letter p s "+"%char OP_PLUS (bs "OK" ++ CRLF ++ more) (or_introl Hau) eq_refl)|]. by simplify_eq.
  - rewrite (keyword_run "P"%char OP_P (bs "UB ") OP_PUB_SPC PUB_ARG p s arg) by keyword_side. by erewrite finish_payload.
  - destruct (decide (h_typ s = CLIENT)) as [|Htyp]; [done|].
    rewrite (keyword_run "M"%char OP_M (bs "SG ") OP_MSG_SPC MSG_ARG p s arg) by keyword_side. by erewrite finish_payload.
Qed.
End commands.

Section theorems.
Context {St : Type} `{Handlers St} (mcl : Z).

Lemma encode_all_run ks : forall p (s : St) p' s' more,
  forallb (cmd_ok mcl) ks = true -> exec_all ks (p, s) = Some (p', s') ->
  ref_run mcl (r_done p s) (concat (encode <$> ks) ++ more) = ref_run mcl (r_done p' s') more.
Proof.
  induction ks as [|k ks IH]; intros p s p' s' more Hok Hex; [by simplify_eq/=|].
  simpl in Hok. apply andb_prop in Hok as [Hk Hks].
  apply bind_Some in Hex as ([p1 s1] & H1 & Hex). rewrite fmap_cons. simpl concat.
  rewrite <- app_assoc. erewrite encode_run by done. by apply IH.
Qed.
End theorems.

(** A connection that has just been set up. *)
Definition newParseState : parseState :=
  ParseState OP_START 0 0 (PubArg [] None None [] 0) None None.

Lemma waits_new {St} `{Handlers St} maxSize mcl p as0 (s : St) :
  waits maxSize mcl (PClient (ParseState OP_START as0 0 p None None) s) (r_done p s).
Proof. intros buf. apply (rel_op maxSize mcl buf); [done|done|lia]. Qed.

(** ** A recording client, for the examples *)

Inductive event :=
| EvPub (arg : bytes) | EvMsgArgs (arg : bytes) | EvMsg (size : Z) (msg : bytes)
| EvSub (arg : bytes) | EvUnsub (arg : bytes) | EvConnect (arg : bytes) | EvInfo (arg : bytes)
| EvPing | EvPong | EvErr (arg : bytes) | EvSend (err : bytes) | EvAuth | EvClose.

Record recorder := Recorder { rec_typ : Z; rec_timer : bool; rec_log : list event }.

Definition note (e : event) (s : recorder) : recorder :=
  Recorder (rec_typ s) (rec_timer s) (rec_log s ++ [e]).

(** The size is the last word of the line. *)
Fixpoint last_word (acc arg : bytes) : bytes :=
  match arg with
  | [] => acc
  | b :: arg' => if bool_decide (b = SPC) then last_word [] arg' else last_word (acc ++ [b]) arg'
  end.

Definition rec_size (arg : bytes) : Z := parseSize (last_word [] arg).

Definition rec_pub (ev : bytes -> event) (arg : bytes) (p : pubArg) (s : recorder)
  : recorder * pubArg * option srv_error :=
  let size := rec_size arg in
  if decide (0 <= size <= 65536)%Z then (note (ev arg) s, PubArg arg None None [] size, None)
  else (s, p, Some ErrMaxPayload).

#[export] Instance recorder_handlers : Handlers recorder := {
  h_typ := rec_typ;
  h_maxControlLine _ := Some 256%Z;
  h_isAuthTimerSet := rec_timer;
  h_processPub := rec_pub EvPub;
  h_processMsgArgs := rec_pub EvMsgArgs;
  h_processMsg p msg s := note (EvMsg (pa_size p) msg) s;
  h_processSub arg s := (note (EvSub arg) s, None);
  h_processUnsub arg s := (note (EvUnsub arg) s, None);
  h_processConnect arg s := (Recorder (rec_typ s) false (rec_log s ++ [EvConnect arg]), None);
  h_processInfo arg s := (note (EvInfo arg) s, None);
  h_processPing := note EvPing;
  h_processPong := note EvPong;
  h_processErr arg s := note (EvErr arg) s;
  h_authViolation := note EvAuth;
  h_sendErr err s := note (EvSend err) s;
  h_closeConnection := note EvClose;
}.

#[export] Instance recorder_ok : HandlersOk recorder 65536 (fun _ => True).
Proof.
  assert (Hp : forall ev arg p s s' p', rec_pub ev arg p s = (s', p', None) ->
    size_ok 65536 p' /\ session_kept s s' /\ True).
  { intros ev arg p s s' p'. unfold rec_pub. case_decide; [|done]. intros [= <- <-]. by split. }
  split; simpl; intros; simplify_eq; try done; by eapply Hp.
Qed.

(** ** Properties *)



(** C3. The parser does not depend on how the stream is cut into read
    buffers: if the byte-at-a-time machine accepts the stream and stops in a
    state [r'], then on every cutting of it [parse] succeeds on each buffer,
    the client ends in the state of [r'], and the parser waits where [r']
    is: inside an operation with its line or payload saved, or between two. *)
Theorem parse_any_cutting {St} `{Handlers St} (maxSize maxAlloc mcl : Z) (inv : St -> Prop) `{!HandlersOk St maxSize inv}
  (bufs : list bytes) (p : pubArg) (s : St) (r' : rstate St)
  (Hmax : (0 <= maxSize)%Z) (Halloc : (maxSize + 2 <= maxAlloc)%Z)
  (Hbufs : Forall (fun buf => Z.of_nat (length buf) + maxSize + 4 < 2 ^ 63)%Z bufs)
  (Hmcl : default MAX_CONTROL_LINE_SIZE (h_maxControlLine s) = mcl) (Hinv : inv s)
  (Hrun : ref_run mcl (r_done p s) (concat bufs) = Some r') :
  exists c', parse_all maxAlloc bufs (PClient (ParseState OP_START 0 0 p None None) s) = Parsed c' /\
    rest c' = r_rest r' /\ waits maxSize mcl c' r'.
Proof.
  destruct (parse_all_sim maxSize inv maxAlloc mcl Hmax Halloc bufs
    (PClient (ParseState OP_START 0 0 p None None) s) (r_done p s) r' Hbufs) as (c' & E & Hw).
  - apply waits_new.
  - by split; [|left|..].
  - done.
  - exists c'. split_and!; [done|by eapply waits_rest|done].
Qed.

Lemma parse_any_cutting_witness :
  let s := Recorder CLIENT false [] in
  let p := PubArg [] None None [] 0 in
  let r := RState MSG_PAYLOAD [] false (PubArg (bs "foo 5") None None [] 5) (bs "he")
             (Recorder CLIENT false [EvPing; EvPub (bs "foo 5")]) in
  exists c', parse_all (2 ^ 40) [bs "PI"; bs "NG" ++ CRLF ++ bs "PUB f"; bs "oo 5" ++ CRLF ++ bs "h"; bs "e"]
      (PClient (ParseState OP_START 0 0 p None None) s) = Parsed c' /\
    rest c' = r_rest r /\ waits 65536 256 c' r.
Proof.
  apply (parse_any_cutting 65536 _ _ (fun _ => True)); [lia|lia|repeat constructor; vm_compute; reflexivity|done|done|vm_compute; reflexivity].
Defined.

(** C15. What a client sends is what the server executes: for any list of
    well formed operations that the handlers accept one after the other, and
    any cutting of their text into read buffers, [parse] runs exactly those
    handlers in that order, with the argument lines and payloads that were
    sent, and ends between two operations. *)
Theorem parse_commands {St} `{Handlers St} (maxSize maxAlloc mcl : Z) (inv : St -> Prop) `{!HandlersOk St maxSize inv}
  (ks : list cmd) (bufs : list bytes) (p p' : pubArg) (s s' : St)
  (Hmax : (0 <= maxSize)%Z) (Halloc : (maxSize + 2 <= maxAlloc)%Z)
  (Hbufs : Forall (fun buf => Z.of_nat (length buf) + maxSize + 4 < 2 ^ 63)%Z bufs)
  (Hmcl : default MAX_CONTROL_LINE_SIZE (h_maxControlLine s) = mcl) (Hinv : inv s)
  (Hok : forallb (cmd_ok mcl) ks = true) (Hexec : exec_all ks (p, s) = Some (p', s'))
  (Hcut : concat bufs = concat (encode <$> ks)) :
  exists as', parse_all maxAlloc bufs (PClient (ParseState OP_START 0 0 p None None) s) =
    Parsed (PClient (ParseState OP_START as' 0 p' None None) s').
Proof.
  destruct (parse_all_sim maxSize inv maxAlloc mcl Hmax Halloc bufs
    (PClient (ParseState OP_START 0 0 p None None) s) (r_done p s) (r_done p' s') Hbufs) as (c' & E & Hw).
  - apply waits_new.
  - by split; [|left|..].
  - rewrite Hcut, <- (app_nil_r (concat _)). by rewrite (encode_all_run mcl ks p s p' s').
  - rewrite E. specialize (Hw []). inversion Hw; subst; try done. by eexists.
Qed.

Lemma parse_commands_witness :
  let ks := [CConnect (bs "{}"); CSub (bs "foo.* 1"); CPub (bs "foo.bar 2") (bs "ok"); CPing] in
  exists as', parse_all (2 ^ 40) [bs "CONNECT {}" ++ CRLF ++ bs "SUB foo"; bs ".* 1" ++ CRLF ++ bs "PUB foo.bar 2" ++ [CR];
      [LF] ++ bs "o"; bs "k" ++ [CR]; [LF] ++ bs "PING" ++ CRLF]
    (PClient (ParseState OP_START 0 0 (PubArg [] None None [] 0) None None) (Recorder CLIENT true [])) =
    Parsed (PClient (ParseState OP_START as' 0 (PubArg (bs "foo.bar 2") None None [] 2) None None)
      (Recorder CLIENT false [EvConnect (bs "{}"); EvSub (bs "foo.* 1"); EvPub (bs "foo.bar 2");
                              EvMsg 2 (bs "ok" ++ CRLF); EvPing])).
Proof.
  intros ks.
  apply (parse_commands 65536 (2 ^ 40) 256 (fun _ => True) ks); [lia|lia|repeat constructor; vm_compute; reflexivity|done|done|..];
    vm_compute; reflexivity.
Defined.

(** Authorization comes first: while the authorization timer is armed, a
    buffer that starts an operation other than CONNECT runs no handler but
    [authViolation] and [parse] returns ErrAuthorization. *)
Theorem parse_auth_first {St} `{Handlers St} (maxAlloc : Z) (b : byte) (buf : bytes) (p : parseState) (s : St)
  (Hstate : state p = OP_START) (Htimer : h_isAuthTimerSet s = true) (Hb : is_ch b "C" "c" = false) :
  parse maxAlloc (b :: buf) (PClient p s) = Failed (PClient p (h_authViolation s)) ErrAuthorization.
Proof.
  unfold parse. simpl. rewrite Htimer. unfold step. simpl. rewrite Hstate. unfold step_start.
  by rewrite Hb.
Qed.

Lemma parse_auth_first_witness :
  parse (2 ^ 40) (bs "PUB foo 0") (PClient newParseState (Recorder CLIENT true [])) =
  Failed (PClient newParseState (Recorder CLIENT true [EvAuth])) ErrAuthorization.
Proof.
  exact (parse_auth_first (2 ^ 40) "P"%char (bs "UB foo 0") newParseState (Recorder CLIENT true [])
    eq_refl eq_refl eq_refl).
Defined.
