(* ===== verification/Client.v ===== *)
(** * Client: connections, subscriptions and message delivery

    [src/server/client.go], with the parts of [src/server/route.go] and
    [src/server/server.go] that its operations call: the handlers the parser
    runs, delivery with auto-unsubscribe, permissions, and the propagation of
    interest to routes.

    A [server] is the whole shared store: every connection by its [cid], the
    maps [s.clients], [s.routes] and [s.remotes], the sublist, and the
    counters of every subscription by its address.  An operation is a state
    transformer [M]; [None] is a run-time panic.  Each handler runs to its
    end before another starts.  Tracing and logging are left out.

    What the code takes from outside is a parameter of the section: the
    outcome of a network write, the decoding of JSON, [%q], the password
    check, the random choices of the run-time and the growth of slices. *)

From S2P Require Import Prelude Util Subject Sublist Parser.

(** ** Flags *)

Definition connectReceived : Z := 1.
Definition firstPongSent : Z := 2.
Definition infoUpdated : Z := 4.

Definition flag_set (cf c : Z) : Z := Z.lor cf c.
Definition flag_isSet (cf c : Z) : bool := bool_decide (Z.land cf c <> 0%Z).
Definition flag_setIfNotSet (cf c : Z) : Z * bool :=
  if decide (Z.land cf c = 0%Z) then (Z.lor cf c, true) else (cf, false).
(** [*cf &= ^c] on a byte. *)
Definition flag_clear (cf c : Z) : Z := Z.land cf (Z.lxor c 255).

(** ** Data *)

Record clientOpts := ClientOpts {
  o_verbose : bool;
  o_pedantic : bool;
  o_authorization : bytes;
  o_username : bytes;
  o_password : bytes;
  o_name : bytes;
  o_lang : bytes;
  o_protocol : Z;
}.

Definition defaultOpts : clientOpts := ClientOpts true true [] [] [] [] [] 0.

Definition ClientProtoZero : Z := 0.
Definition ClientProtoInfo : Z := 1.

Record permissions := Permissions {
  perm_sub : Sublist;
  perm_pub : Sublist;
  perm_pcache : gmap bytes bool;
}.

Definition maxResultCacheSize : nat := 512.
Definition maxPermCacheSize : nat := 32.
Definition pruneSize : nat := 16.

Record readCache := ReadCache {
  rc_genid : Z;
  rc_results : option (gmap bytes SublistResult);
  rc_inMsgs : Z;
  rc_inBytes : Z;
  rc_subs : Z;
}.

(** A [*url.URL]: the host with its port, the user and the password. *)
Record URL := MkURL {
  url_Host : bytes;
  url_User : option (bytes * bytes);
}.

(** Learned from other routes, or configured. *)
Inductive RouteType := Implicit | Explicit.

#[export] Instance RouteType_eq_dec : EqDecision RouteType.
Proof. solve_decision. Defined.

Record route := Route {
  rt_remoteID : bytes;
  rt_didSolicit : bool;
  rt_retry : bool;
  rt_routeType : RouteType;
  rt_url : option URL;
  rt_authRequired : bool;
  rt_tlsRequired : bool;
}.

Definition set_remoteID (r : route) x := Route x (rt_didSolicit r) (rt_retry r) (rt_routeType r) (rt_url r) (rt_authRequired r) (rt_tlsRequired r).
Definition set_retry (r : route) x := Route (rt_remoteID r) (rt_didSolicit r) x (rt_routeType r) (rt_url r) (rt_authRequired r) (rt_tlsRequired r).

(** [c.nc]: open, closed by [clearConnection] but still set, or nil. *)
Inductive conn := NcOpen | NcShut | NcNil.

#[export] Instance conn_eq_dec : EqDecision conn.
Proof. solve_decision. Defined.

(** [c.atmr]: nil, running, or expired with its callback waiting for the lock. *)
Inductive timer := TNone | TSet | TFired.

#[export] Instance timer_eq_dec : EqDecision timer.
Proof. solve_decision. Defined.

Record client := Client {
  c_typ : Z;
  c_opts : clientOpts;
  c_nc : conn;
  c_mpay : Z;
  c_subs : gmap bytes subscription;
  c_perms : option permissions;
  c_cache : readCache;
  c_pcd : gset N;
  c_atmr : timer;
  c_pout : Z;
  c_route : option route;
  c_flags : Z;
  c_outMsgs : Z;
  c_outBytes : Z;
  c_out : list bytes;  (* what was written to the connection *)
}.

(** A [*User] of the configuration. *)
Record User := MkUser {
  u_username : bytes;
  u_password : bytes;
  u_permissions : option (list bytes * list bytes);  (* publish, subscribe *)
}.

(** The INFO that servers send to clients and to each other. *)
Record Info := MkInfo {
  info_ID : bytes;
  info_Version : bytes;
  info_GoVersion : bytes;
  info_Host : bytes;
  info_Port : Z;
  info_AuthRequired : bool;
  info_SSLRequired : bool;
  info_TLSRequired : bool;
  info_TLSVerify : bool;
  info_MaxPayload : Z;
  info_IP : bytes;
  info_ClientConnectURLs : list bytes;
  info_ServerRank : Z;
}.

Definition set_info_IP (i : Info) x := MkInfo (info_ID i) (info_Version i) (info_GoVersion i) (info_Host i) (info_Port i)
  (info_AuthRequired i) (info_SSLRequired i) (info_TLSRequired i) (info_TLSVerify i) (info_MaxPayload i) x
  (info_ClientConnectURLs i) (info_ServerRank i).

(** [info.clientConnectURLs] and [info.ClientConnectURLs]. *)
Record connectURLs := ConnectURLs { cu_set : gset bytes; cu_list : list bytes }.

(** The goroutines that dial a route: [connectToRoute], at once or by way of
    [reConnectToRoute]. *)
Inductive dialing :=
| DoConnect (rURL : URL) (tryForEver : bool)
| DoReConnect (rURL : option URL) (rtype : RouteType).

(** The settings of the cluster, and what the server keeps for its routes:
    its own INFO, the dialing goroutines it started, the connections that are
    not registered yet, and the URLs it tells its clients. *)
Record routing := Routing {
  rg_Routes : list URL;          (* opts.Routes *)
  rg_Username : bytes;           (* opts.Cluster *)
  rg_Password : bytes;
  rg_NoAdvertise : bool;
  rg_ConnectRetries : Z;
  rg_routeInfo : Info;
  rg_started : list dialing;
  rg_grTmpClients : gset N;
  rg_urls : connectURLs;
}.

Definition set_started (g : routing) x := Routing (rg_Routes g) (rg_Username g) (rg_Password g) (rg_NoAdvertise g)
  (rg_ConnectRetries g) (rg_routeInfo g) x (rg_grTmpClients g) (rg_urls g).
Definition set_tmp (g : routing) x := Routing (rg_Routes g) (rg_Username g) (rg_Password g) (rg_NoAdvertise g)
  (rg_ConnectRetries g) (rg_routeInfo g) (rg_started g) x (rg_urls g).
Definition set_urls (g : routing) x := Routing (rg_Routes g) (rg_Username g) (rg_Password g) (rg_NoAdvertise g)
  (rg_ConnectRetries g) (rg_routeInfo g) (rg_started g) (rg_grTmpClients g) x.

Record server := Server {
  sv_id : bytes;
  sv_running : bool;
  sv_maxControlLine : Z;
  sv_maxPingsOut : Z;
  sv_objs : gmap N client;       (* every client object *)
  sv_clients : gset N;           (* s.clients *)
  sv_routes : gset N;            (* s.routes *)
  sv_remotes : gmap bytes N;     (* s.remotes *)
  sv_sl : Sublist;
  sv_counts : gmap N (Z * Z);    (* sub.nm and sub.max *)
  sv_fresh : N;                  (* the next address of a subscription *)
  sv_cproto : Z;
  sv_outMsgs : Z;
  sv_outBytes : Z;
  sv_slowConsumers : Z;
  sv_infoJSON : bytes;
  sv_tick : nat;                 (* random choices made so far *)
  sv_rg : routing;
}.

(** The outcome of a write to a connection. *)
Inductive write_result := WOk | WTimeout | WErr.

#[export] Instance write_result_eq_dec : EqDecision write_result.
Proof. solve_decision. Defined.

(** ** The state monad with panics *)

Definition M (A : Type) : Type := server -> option (server * A).

#[export] Instance M_ret : MRet M := fun A x s => Some (s, x).
#[export] Instance M_bind : MBind M := fun A B k m s =>
  match m s with Some (s', x) => k x s' | None => None end.

Definition panic {A} : M A := fun _ => None.
Definition gets {A} (f : server -> A) : M A := fun s => Some (s, f s).
Definition modify (f : server -> server) : M unit := fun s => Some (f s, tt).

Definition set_objs (s : server) x := Server (sv_id s) (sv_running s) (sv_maxControlLine s)
  (sv_maxPingsOut s) x (sv_clients s) (sv_routes s) (sv_remotes s) (sv_sl s) (sv_counts s)
  (sv_fresh s) (sv_cproto s) (sv_outMsgs s) (sv_outBytes s) (sv_slowConsumers s) (sv_infoJSON s) (sv_tick s) (sv_rg s).
Definition set_sl (s : server) x := Server (sv_id s) (sv_running s) (sv_maxControlLine s)
  (sv_maxPingsOut s) (sv_objs s) (sv_clients s) (sv_routes s) (sv_remotes s) x (sv_counts s)
  (sv_fresh s) (sv_cproto s) (sv_outMsgs s) (sv_outBytes s) (sv_slowConsumers s) (sv_infoJSON s) (sv_tick s) (sv_rg s).
Definition set_counts (s : server) x := Server (sv_id s) (sv_running s) (sv_maxControlLine s)
  (sv_maxPingsOut s) (sv_objs s) (sv_clients s) (sv_routes s) (sv_remotes s) (sv_sl s) x
  (sv_fresh s) (sv_cproto s) (sv_outMsgs s) (sv_outBytes s) (sv_slowConsumers s) (sv_infoJSON s) (sv_tick s) (sv_rg s).
Definition set_fresh (s : server) x := Server (sv_id s) (sv_running s) (sv_maxControlLine s)
  (sv_maxPingsOut s) (sv_objs s) (sv_clients s) (sv_routes s) (sv_remotes s) (sv_sl s) (sv_counts s)
  x (sv_cproto s) (sv_outMsgs s) (sv_outBytes s) (sv_slowConsumers s) (sv_infoJSON s) (sv_tick s) (sv_rg s).
Definition set_maps (s : server) cl ro re cp := Server (sv_id s) (sv_running s) (sv_maxControlLine s)
  (sv_maxPingsOut s) (sv_objs s) cl ro re (sv_sl s) (sv_counts s)
  (sv_fresh s) cp (sv_outMsgs s) (sv_outBytes s) (sv_slowConsumers s) (sv_infoJSON s) (sv_tick s) (sv_rg s).
Definition set_stats (s : server) om ob sc := Server (sv_id s) (sv_running s) (sv_maxControlLine s)
  (sv_maxPingsOut s) (sv_objs s) (sv_clients s) (sv_routes s) (sv_remotes s) (sv_sl s) (sv_counts s)
  (sv_fresh s) (sv_cproto s) om ob sc (sv_infoJSON s) (sv_tick s) (sv_rg s).
Definition set_tick (s : server) x := Server (sv_id s) (sv_running s) (sv_maxControlLine s)
  (sv_maxPingsOut s) (sv_objs s) (sv_clients s) (sv_routes s) (sv_remotes s) (sv_sl s) (sv_counts s)
  (sv_fresh s) (sv_cproto s) (sv_outMsgs s) (sv_outBytes s) (sv_slowConsumers s) (sv_infoJSON s) x (sv_rg s).
Definition set_rg (s : server) x := Server (sv_id s) (sv_running s) (sv_maxControlLine s)
  (sv_maxPingsOut s) (sv_objs s) (sv_clients s) (sv_routes s) (sv_remotes s) (sv_sl s) (sv_counts s)
  (sv_fresh s) (sv_cproto s) (sv_outMsgs s) (sv_outBytes s) (sv_slowConsumers s) (sv_infoJSON s) (sv_tick s) x.
Definition set_infoJSON (s : server) x := Server (sv_id s) (sv_running s) (sv_maxControlLine s)
  (sv_maxPingsOut s) (sv_objs s) (sv_clients s) (sv_routes s) (sv_remotes s) (sv_sl s) (sv_counts s)
  (sv_fresh s) (sv_cproto s) (sv_outMsgs s) (sv_outBytes s) (sv_slowConsumers s) x (sv_tick s) (sv_rg s).

Definition with_opts (c : client) x := Client (c_typ c) x (c_nc c) (c_mpay c) (c_subs c) (c_perms c)
  (c_cache c) (c_pcd c) (c_atmr c) (c_pout c) (c_route c) (c_flags c) (c_outMsgs c) (c_outBytes c) (c_out c).
Definition with_nc (c : client) x := Client (c_typ c) (c_opts c) x (c_mpay c) (c_subs c) (c_perms c)
  (c_cache c) (c_pcd c) (c_atmr c) (c_pout c) (c_route c) (c_flags c) (c_outMsgs c) (c_outBytes c) (c_out c).
Definition with_subs (c : client) x := Client (c_typ c) (c_opts c) (c_nc c) (c_mpay c) x (c_perms c)
  (c_cache c) (c_pcd c) (c_atmr c) (c_pout c) (c_route c) (c_flags c) (c_outMsgs c) (c_outBytes c) (c_out c).
Definition with_perms (c : client) x := Client (c_typ c) (c_opts c) (c_nc c) (c_mpay c) (c_subs c) x
  (c_cache c) (c_pcd c) (c_atmr c) (c_pout c) (c_route c) (c_flags c) (c_outMsgs c) (c_outBytes c) (c_out c).
Definition with_cache (c : client) x := Client (c_typ c) (c_opts c) (c_nc c) (c_mpay c) (c_subs c) (c_perms c)
  x (c_pcd c) (c_atmr c) (c_pout c) (c_route c) (c_flags c) (c_outMsgs c) (c_outBytes c) (c_out c).
Definition with_pcd (c : client) x := Client (c_typ c) (c_opts c) (c_nc c) (c_mpay c) (c_subs c) (c_perms c)
  (c_cache c) x (c_atmr c) (c_pout c) (c_route c) (c_flags c) (c_outMsgs c) (c_outBytes c) (c_out c).
Definition with_atmr (c : client) x := Client (c_typ c) (c_opts c) (c_nc c) (c_mpay c) (c_subs c) (c_perms c)
  (c_cache c) (c_pcd c) x (c_pout c) (c_route c) (c_flags c) (c_outMsgs c) (c_outBytes c) (c_out c).
Definition with_pout (c : client) x := Client (c_typ c) (c_opts c) (c_nc c) (c_mpay c) (c_subs c) (c_perms c)
  (c_cache c) (c_pcd c) (c_atmr c) x (c_route c) (c_flags c) (c_outMsgs c) (c_outBytes c) (c_out c).
Definition with_route (c : client) x := Client (c_typ c) (c_opts c) (c_nc c) (c_mpay c) (c_subs c) (c_perms c)
  (c_cache c) (c_pcd c) (c_atmr c) (c_pout c) x (c_flags c) (c_outMsgs c) (c_outBytes c) (c_out c).
Definition with_flags (c : client) x := Client (c_typ c) (c_opts c) (c_nc c) (c_mpay c) (c_subs c) (c_perms c)
  (c_cache c) (c_pcd c) (c_atmr c) (c_pout c) (c_route c) x (c_outMsgs c) (c_outBytes c) (c_out c).
Definition with_out (c : client) om ob x := Client (c_typ c) (c_opts c) (c_nc c) (c_mpay c) (c_subs c) (c_perms c)
  (c_cache c) (c_pcd c) (c_atmr c) (c_pout c) (c_route c) (c_flags c) om ob x.

(** A pointer to a client object: nil is a panic. *)
Definition obj (cid : N) : M client := fun s =>
  match sv_objs s !! cid with Some c => Some (s, c) | None => None end.

Definition upd (cid : N) (f : client -> client) : M unit :=
  modify (fun s => set_objs s (alter f cid (sv_objs s))).

Definition when (b : bool) (m : M unit) : M unit := if b then m else mret tt.

Fixpoint forM {A} (l : list A) (f : A -> M unit) : M unit :=
  match l with
  | [] => mret tt
  | x :: l' => f x ;; forM l' f
  end.

Fixpoint Prune {V} (n : nat) (ks : list bytes) (m : gmap bytes V) : gmap bytes V :=
  match n, ks with
  | S n', k :: ks' => Prune n' ks' (delete k m)
  | _, _ => m
  end.

(** What a route takes from outside: [url.Parse] and the text of a URL, the address of the other
    end of a TCP connection, and the JSON of the server's INFO with the URLs
    it lists. *)
Record netEnv := NetEnv {
  ne_parse : bytes -> option URL;
  ne_String : URL -> bytes;
  ne_remoteIP : N -> option bytes;
  ne_infoJSON : list bytes -> bytes;
}.

(** [net.JoinHostPort]. *)
Definition JoinHostPort (host port : bytes) : bytes :=
  if bool_decide (":"%char ∈ host) || bool_decide ("%"%char ∈ host) then bs "[" ++ host ++ bs "]:" ++ port
  else host ++ bs ":" ++ port.

(** [hasThisRouteConfigured]; the hosts of URLs are ASCII. *)
Definition hasThisRouteConfigured (routes : list URL) (info : Info) : bool :=
  let urlToCheckExplicit := lower <$> JoinHostPort (info_Host info) (itoa (info_Port info)) in
  existsb (fun ri => bool_decide (lower <$> url_Host ri = urlToCheckExplicit)) routes.

(** [r.User = url.UserPassword(...)], when the other server asks for it. *)
Definition with_credentials (authRequired : bool) (user pass : bytes) (u : URL) : URL :=
  if authRequired then MkURL (url_Host u) (Some (user, pass)) else u.

(** The URL of a route that a connection has, or that its INFO gives. *)
Definition route_url (parse : bytes -> option URL) (r : route) (info : Info) : option URL :=
  match rt_url r with
  | Some u => Some u
  | None => parse (bs "nats-route://" ++ JoinHostPort (info_Host info) (itoa (info_Port info)) ++ bs "/")
  end.

(** [info.IP], where the others find the new server. *)
Definition remote_IP (text : URL -> bytes) (ip : option bytes) (u : URL) (info : Info) : bytes :=
  match ip with
  | Some ip => bs "nats-route://" ++ JoinHostPort ip (itoa (info_Port info)) ++ bs "/"
  | None => text u
  end.

Section operations.

(** The capacity of grown slices, the random choices, the outcome of a write
    (given what was written before), JSON, [%q] and the two authenticators
    ([None]: refused; [Some u]: accepted, with the user to register). *)
Context (growcap : nat -> nat -> nat) (choice : nat -> nat)
        (wr : N -> list bytes -> bytes -> write_result)
        (json_opts : bytes -> clientOpts -> clientOpts * option bytes)
        (json_info : bytes -> Info + bytes) (nenv : netEnv) (info_proto : Info -> bytes)
        (fmt_q : bytes -> bytes)
        (cAuth rAuth : option (clientOpts -> option (option User))).

(** A random choice. *)
Definition toss : M nat := fun s => Some (set_tick s (S (sv_tick s)), choice (sv_tick s)).

(** The operations of [s.sl]. *)
Definition sl_insert (sub : subscription) : M (option sl_error) := fun s =>
  match Insert growcap (sv_sl s) sub with Some (sl, e) => Some (set_sl s sl, e) | None => None end.

Definition sl_remove (sub : subscription) : M (option sl_error) := fun s =>
  match Remove growcap (sv_sl s) sub with Some (sl, e) => Some (set_sl s sl, e) | None => None end.

Definition sl_match_at (ev : nat) (subject : bytes) : M SublistResult := fun s =>
  match Match growcap ev (sv_sl s) subject with Some (sl, r) => Some (set_sl s sl, r) | None => None end.

Definition sl_match (subject : bytes) : M SublistResult := ev ← toss; sl_match_at ev subject.

(** [for subject := range m { delete(...); r++; if r > pruneSize { break } }]:
    the keys of the loop, from an entry that the run-time chooses. *)
Definition prune_keys {V} (ev : nat) (m : gmap bytes V) : list bytes :=
  let ks := (map_to_list m).*1 in
  let n := ev mod length ks in
  take (S pruneSize) (drop n ks ++ take n ks).

(** ** Output *)

Definition net_write (cid : N) (data : bytes) : M write_result :=
  c ← obj cid;
  if decide (c_nc c = NcOpen) then
    let res := wr cid (c_out c) data in
    when (bool_decide (res = WOk)) (upd cid (fun c => with_out c (c_outMsgs c) (c_outBytes c) (c_out c ++ [data])));;
    mret res
  else mret WErr.

(** [sendProto]; the result tells whether there was an error. *)
Definition sendProto (cid : N) (info : bytes) : M bool :=
  c ← obj cid;
  if decide (c_nc c = NcNil) then mret false
  else res ← net_write cid info; mret (bool_decide (res <> WOk)).

Definition crlf : bytes := [CR; LF].

Definition sendErr (cid : N) (err : bytes) : M unit :=
  sendProto cid (bs "-ERR '" ++ err ++ bs "'" ++ crlf);; mret tt.

Definition sendOK (cid : N) : M unit :=
  sendProto cid (bs "+OK" ++ crlf);;
  upd cid (fun c => with_pcd c ({[cid]} ∪ c_pcd c)).

(** [clearConnection]. *)
Definition clearConnection (cid : N) : M unit :=
  upd cid (fun c => if decide (c_nc c = NcNil) then c else with_nc c NcShut).

(** ** Interest for the routes *)

Definition RSID : bytes := bs "RSID".
Definition QRSID : bytes := bs "QRSID".

(** [routeSid]: [sub.client] must not be nil. *)
Definition routeSid (sub : subscription) : option bytes :=
  cid ← sub_client sub;
  let qi := if decide (0 < length (default [] (sub_queue sub))) then bs "Q" else [] in
  Some (qi ++ RSID ++ bs ":" ++ fmt_d (Z.of_N cid) ++ bs ":" ++ sub_sid sub).

Definition subProto (subject queue rsid : bytes) : bytes :=
  bs "SUB " ++ subject ++ bs " " ++ queue ++ bs " " ++ rsid ++ crlf.

Definition unsubProto (rsid maxStr : bytes) : bytes := bs "UNSUB " ++ rsid ++ maxStr ++ crlf.

Definition broadcastInterestToRoutes (proto : bytes) : M unit :=
  routes ← gets sv_routes;
  forM (elements routes) (fun r => sendProto r proto;; mret tt).

Definition lift {A} (o : option A) : M A := match o with Some x => mret x | None => panic end.

Definition broadcastSubscribe (sub : subscription) : M unit :=
  routes ← gets sv_routes;
  if decide (size routes = 0) then mret tt
  else rsid ← lift (routeSid sub);
    broadcastInterestToRoutes (subProto (sub_subject sub) (default [] (sub_queue sub)) rsid).

(** [sub.nm] and [sub.max]. *)
Definition counts (sub : subscription) : M (Z * Z) := gets (fun s => default (0, 0)%Z (sv_counts s !! sub_ptr sub)).

Definition set_sub_counts (sub : subscription) (nm max : Z) : M unit :=
  modify (fun s => set_counts s (<[sub_ptr sub := (nm, max)]> (sv_counts s))).

Definition broadcastUnSubscribe (sub : subscription) : M unit :=
  routes ← gets sv_routes;
  if decide (size routes = 0) then mret tt
  else rsid ← lift (routeSid sub);
    nm_max ← counts sub;
    let '(nm, max) := nm_max in
    let maxStr := if decide (0 < max /\ nm < max)%Z then bs " " ++ fmt_d max else [] in
    broadcastInterestToRoutes (unsubProto rsid maxStr).

(** ** Closing *)

(** [removeClient]. *)
Definition removeClient (cid : N) : M unit :=
  c ← obj cid;
  modify (fun s =>
    if decide (c_typ c = CLIENT) then
      set_maps s (sv_clients s ∖ {[cid]}) (sv_routes s) (sv_remotes s)
        (if decide (ClientProtoInfo <= o_protocol (c_opts c))%Z then (sv_cproto s - 1)%Z else sv_cproto s)
    else if decide (c_typ c = ROUTER) then
      set_maps s (sv_clients s) (sv_routes s ∖ {[cid]})
        (match c_route c with
         | Some r => if decide (sv_remotes s !! rt_remoteID r = Some cid)
                     then delete (rt_remoteID r) (sv_remotes s) else sv_remotes s
         | None => sv_remotes s
         end) (sv_cproto s)
    else s).

(** [startGoRoutine] of a goroutine that dials.  [grRunning] is [running]
    whenever the lock of the server is free. *)
Definition startDialing (d : dialing) : M unit :=
  modify (fun s => if sv_running s then set_rg s (set_started (sv_rg s) (rg_started (sv_rg s) ++ [d])) else s).

(** The end of [closeConnection]: a solicited route, or one to be retried, is
    dialed again unless the other end is connected or is this server. *)
Definition reconnect (c : client) : M unit :=
  match c_route c with
  | None => mret tt
  | Some r =>
      if (bool_decide (c_typ c = ROUTER) && rt_didSolicit r) || rt_retry r then
        s ← gets id;
        if negb (sv_running s) then mret tt
        else if decide (rt_remoteID r <> [] /\ is_Some (sv_remotes s !! rt_remoteID r)) then mret tt
        else if decide (rt_remoteID r = sv_id s) then mret tt
        else when (bool_decide (rt_routeType r <> Implicit) || rt_retry r) (startDialing (DoReConnect (rt_url r) (rt_routeType r)))
      else mret tt
  end.

(** [closeConnection]. *)
Definition closeConnection (cid : N) : M unit :=
  c ← obj cid;
  if decide (c_nc c = NcNil) then mret tt
  else
    upd cid (fun c => with_nc (with_atmr c TNone) NcNil);;
    removeClient cid;;
    forM (map_to_list (c_subs c)).*2 (fun sub =>
      sl_remove sub;;
      when (bool_decide (c_typ c <> ROUTER)) (broadcastUnSubscribe sub));;
    reconnect c.

(** ** Permissions *)

(** The permission subscriptions have no client, queue or sid. *)
Definition perm_insert (sl : option Sublist) (subject : bytes) : option Sublist :=
  sl ← sl; fst <$> Insert growcap sl (Subscription 0 None subject None []).

Definition RegisterUser (cid : N) (user : User) : M unit :=
  match u_permissions user with
  | None => mret tt
  | Some (publish, subscribe) =>
      pub ← lift (foldl perm_insert (Some NewSublist) publish);
      sub ← lift (foldl perm_insert (Some NewSublist) subscribe);
      upd cid (fun c => with_perms c (Some (Permissions sub pub ∅)))
  end.

(** ** Errors that close the connection *)

Definition authViolation (cid : N) : M unit := sendErr cid (bs "Authorization Violation");; closeConnection cid.
Definition authTimeout (cid : N) : M unit := sendErr cid (bs "Authorization Timeout");; closeConnection cid.
Definition maxConnExceeded (cid : N) : M unit := sendErr cid (bs "Maximum Connections Exceeded");; closeConnection cid.
Definition maxPayloadViolation (cid : N) : M unit := sendErr cid (bs "Maximum Payload Violation");; closeConnection cid.
Definition processErr (cid : N) : M unit := closeConnection cid.

(** ** CONNECT, PING, PONG *)

Definition checkAuth (cid : N) : M bool :=
  c ← obj cid;
  let check auth := match auth with
    | None => mret true
    | Some chk => match chk (c_opts c) with
                  | None => mret false
                  | Some None => mret true
                  | Some (Some u) => RegisterUser cid u;; mret true
                  end
    end in
  if decide (c_typ c = CLIENT) then check cAuth
  else if decide (c_typ c = ROUTER) then check rAuth
  else mret (bool_decide (c_typ c = INTERNALCLI)).

(** [processConnect] once the timer is stopped. *)
Definition connect_body (cid : N) (arg : bytes) : M (option srv_error) :=
  c ← obj cid;
  let '(opts, err) := json_opts arg (c_opts c) in
  upd cid (fun c => with_opts c opts);;
  match err with
  | Some e => mret (Some (ErrHandler e))
  | None =>
      upd cid (fun c => with_flags c (flag_set (c_flags c) connectReceived));;
      when (bool_decide (ClientProtoInfo <= o_protocol opts)%Z)
        (modify (fun s => set_maps s (sv_clients s) (sv_routes s) (sv_remotes s) (sv_cproto s + 1)%Z));;
      ok ← checkAuth cid;
      if negb ok then authViolation cid;; mret (Some ErrAuthorization)
      else if decide (c_typ c = CLIENT /\ ~ (ClientProtoZero <= o_protocol opts <= ClientProtoInfo)%Z) then
        sendErr cid (bs "Invalid Client Protocol");; closeConnection cid;;
        mret (Some (ErrHandler (bs "Invalid Client Protocol")))
      else if decide (c_typ c = ROUTER /\ o_lang opts <> []) then
        sendErr cid (bs "Attempted To Connect To Route Port");; closeConnection cid;;
        mret (Some (ErrHandler (bs "Attempted To Connect To Route Port")))
      else
        when (bool_decide (c_typ c = ROUTER)) (upd cid (fun c => with_route c
          (match c_route c with
           | Some r => Some (set_remoteID r (o_name opts))
           | None => None
           end)));;
        when (o_verbose opts) (sendOK cid);;
        mret None
  end.

(** [processConnect].  When the timer can no longer be stopped, it waits until
    the callback [authTimeout] has closed the connection. *)
Definition processConnect (cid : N) (arg : bytes) : M (option srv_error) :=
  c ← obj cid;
  upd cid (fun c => with_atmr c TNone);;
  if decide (c_atmr c = TFired) then authTimeout cid;; mret None
  else connect_body cid arg.

(** ** Routes *)

(** [sendLocalSubsToRoute]. *)
Definition local_subs (s : server) : list subscription :=
  elements (sv_clients s) ≫= (fun cid =>
    match sv_objs s !! cid with Some c => (map_to_list (c_subs c)).*2 | None => [] end).

Fixpoint local_protos (subs : list subscription) : option bytes :=
  match subs with
  | [] => Some []
  | sub :: subs' =>
      rsid ← routeSid sub;
      more ← local_protos subs';
      Some (subProto (sub_subject sub) (default [] (sub_queue sub)) rsid ++ more)
  end.

Definition sendLocalSubsToRoute (cid : N) : M unit :=
  subs ← gets local_subs;
  b ← lift (local_protos subs);
  sendProto cid b;; mret tt.

(** [addRoute]: added, and whether the others must be told.  An upgrade gives
    the older connection the route object of the new one, with the [retry] of
    the older; the caller closes the new one at once, so that the shared
    object is not changed through both.  [remote.route] is never nil. *)
Definition addRoute (cid : N) : M (bool * bool) :=
  c ← obj cid;
  r ← lift (c_route c);
  let id := rt_remoteID r in
  running ← gets sv_running;
  if negb running then mret (false, false)
  else
    remotes ← gets sv_remotes;
    match remotes !! id with
    | None =>
        modify (fun s => set_rg s (set_tmp (sv_rg s) (rg_grTmpClients (sv_rg s) ∖ {[cid]})));;
        modify (fun s => set_maps s (sv_clients s) ({[cid]} ∪ sv_routes s) (<[id := cid]> (sv_remotes s)) (sv_cproto s));;
        myid ← gets sv_id;
        when (string_lt myid id) (upd cid (fun c => with_route c
          (match c_route c with Some r => Some (set_retry r true) | None => None end)));;
        routes ← gets sv_routes;
        mret (true, bool_decide (1 < size routes))
    | Some remote =>
        when (rt_didSolicit r) (
          rc ← obj remote;
          old ← lift (c_route rc);
          upd remote (fun rc => with_route rc (Some (set_retry r (rt_retry old))));;
          upd cid (fun c => with_route c (Some (set_retry r (rt_retry old)))));;
        mret (false, false)
    end.

(** [forwardNewRouteInfoToKnownServers]. *)
Definition forwardNewRouteInfoToKnownServers (info : Info) : M unit :=
  routes ← gets sv_routes;
  forM (elements routes) (fun r =>
    c ← obj r;
    rt ← lift (c_route c);
    when (bool_decide (rt_remoteID rt <> info_ID info)) (sendProto r (info_proto info);; mret tt)).

(** [processImplicitRoute]. *)
Definition processImplicitRoute (info : Info) : M unit :=
  s ← gets id;
  if decide (info_ID info = sv_id s) then mret tt
  else if decide (is_Some (sv_remotes s !! info_ID info)) then mret tt
  else if hasThisRouteConfigured (rg_Routes (sv_rg s)) info then mret tt
  else
    match ne_parse nenv (info_IP info) with
    | None => mret tt
    | Some u =>
        startDialing (DoConnect (with_credentials (info_AuthRequired info) (rg_Username (sv_rg s)) (rg_Password (sv_rg s)) u) false)
    end.

(** The loop of [updateServerINFO]: the URLs, and whether one is new. *)
Definition add_urls (urls : list bytes) (u : connectURLs) : connectURLs * bool :=
  foldl (fun '(u, wasUpdated) url =>
    if decide (url ∈ cu_set u) then (u, wasUpdated)
    else (ConnectURLs ({[url]} ∪ cu_set u) (cu_list u ++ [url]), true)) (u, false) urls.

(** The result tells whether the INFO was updated. *)
Definition updateServerINFO (urls : list bytes) : M bool :=
  g ← gets sv_rg;
  if rg_NoAdvertise g then mret false
  else
    let '(u, wasUpdated) := add_urls urls (rg_urls g) in
    modify (fun s => set_rg s (set_urls (sv_rg s) u));;
    when wasUpdated (modify (fun s => set_infoJSON s (ne_infoJSON nenv (cu_list u))));;
    mret wasUpdated.

Definition sendAsyncInfoToClients : M unit :=
  s ← gets id;
  if decide (sv_cproto s = 0%Z) then mret tt
  else
    forM (elements (sv_clients s)) (fun k =>
      c ← obj k;
      if negb (flag_isSet (c_flags c) connectReceived) then upd k (fun c => with_flags c (flag_set (c_flags c) infoUpdated))
      else if decide (ClientProtoInfo <= o_protocol (c_opts c))%Z then
        if flag_isSet (c_flags c) firstPongSent then sendProto k (sv_infoJSON s);; mret tt
        else upd k (fun c => with_flags c (flag_set (c_flags c) infoUpdated))
      else mret tt).

(** What [processRouteInfo] does for a route that was added. *)
Definition route_added (cid : N) (u : URL) (info : Info) (sendInfo : bool) : M unit :=
  sendLocalSubsToRoute cid;;
  when sendInfo (forwardNewRouteInfoToKnownServers (set_info_IP info (remote_IP (ne_String nenv) (ne_remoteIP nenv cid) u info)));;
  updated ← updateServerINFO (info_ClientConnectURLs info);
  when updated sendAsyncInfoToClients.

(** [processRouteInfo]. *)
Definition processRouteInfo (cid : N) (info : Info) : M unit :=
  c ← obj cid;
  match c_route c with
  | None => mret tt
  | Some r =>
      if decide (c_nc c = NcNil) then mret tt
      else if decide (rt_remoteID r <> [] /\ rt_remoteID r <> info_ID info) then processImplicitRoute info
      else
        myid ← gets sv_id;
        if decide (info_ID info = myid) then
          upd cid (fun c => with_route c (Some (set_remoteID r (info_ID info))));;
          closeConnection cid
        else
          let r' u := Route (info_ID info) (rt_didSolicit r) (rt_retry r) (rt_routeType r) u (info_AuthRequired info) (info_TLSRequired info) in
          upd cid (fun c => with_route c (Some (r' (route_url (ne_parse nenv) r info))));;
          match route_url (ne_parse nenv) r info with
          | None => closeConnection cid
          | Some u =>
              res ← addRoute cid;
              let '(added, sendInfo) := res in
              if added : bool then route_added cid u info sendInfo else closeConnection cid
          end
  end.

Definition processInfo (cid : N) (arg : bytes) : M (option srv_error) :=
  match json_info arg with
  | inr e => mret (Some (ErrHandler e))
  | inl info =>
      c ← obj cid;
      when (bool_decide (c_typ c = ROUTER)) (processRouteInfo cid info);; mret None
  end.

Definition processPing (cid : N) : M unit :=
  c ← obj cid;
  if decide (c_nc c = NcNil) then mret tt
  else
    err ← sendProto cid (bs "PONG" ++ crlf);
    when err (clearConnection cid);;
    let '(fl, first) := flag_setIfNotSet (c_flags c) firstPongSent in
    let send := first && bool_decide (ClientProtoInfo <= o_protocol (c_opts c))%Z && flag_isSet fl infoUpdated in
    let fl := if first : bool then flag_clear fl infoUpdated else fl in
    upd cid (fun c => with_flags c fl);;
    info ← gets sv_infoJSON;
    when send (sendProto cid info;; mret tt).

Definition processPong (cid : N) : M unit := upd cid (fun c => with_pout c 0%Z).

(** [processPingTimer] of a TCP connection; one that is closed is skipped. *)
Definition processPingTimer (cid : N) : M unit :=
  c ← obj cid;
  if decide (c_nc c = NcNil) then mret tt
  else
    maxOut ← gets sv_maxPingsOut;
    upd cid (fun c => with_pout c (c_pout c + 1)%Z);;
    if decide (maxOut < c_pout c + 1)%Z then
      sendProto cid (bs "-ERR 'Stale Connection'" ++ crlf);; clearConnection cid
    else
      err ← sendProto cid (bs "PING" ++ crlf);
      when err (clearConnection cid).

(** ** Arguments *)

Definition is_space (b : byte) : bool :=
  bool_decide (b = SPC) || bool_decide (b = TAB) || bool_decide (b = CR) || bool_decide (b = LF).

(** The loop of [splitArg]: [cur] is [arg[start:i]], [None] when [start < 0]. *)
Fixpoint splitArg_loop (args : list bytes) (cur : option bytes) (arg : bytes) : list bytes :=
  match arg with
  | [] => match cur with Some a => args ++ [a] | None => args end
  | b :: arg' =>
      if is_space b then
        match cur with
        | Some a => splitArg_loop (args ++ [a]) None arg'
        | None => splitArg_loop args None arg'
        end
      else
        match cur with
        | Some a => splitArg_loop args (Some (a ++ [b])) arg'
        | None => splitArg_loop args (Some [b]) arg'
        end
  end.

Definition splitArg (arg : bytes) : list bytes := splitArg_loop [] None arg.

Definition parse_error (op arg : bytes) : srv_error := ErrHandler (op ++ bs " Parse Error: '" ++ arg ++ bs "'").
Definition size_error (op arg : bytes) : srv_error := ErrHandler (op ++ bs " Bad or Missing Size: '" ++ arg ++ bs "'").

(** [processMsgArgs]: the fields are assigned in the order of the code, and
    stay assigned when an error follows. *)
Definition processMsgArgs (arg : bytes) (p : pubArg) : pubArg * option srv_error :=
  let finish (p : pubArg) (subject sid : bytes) :=
    if decide (pa_size p < 0)%Z then (p, Some (size_error (bs "processMsgArgs") arg))
    else (PubArg subject (pa_reply p) (Some sid) (pa_szb p) (pa_size p), None) in
  match splitArg arg with
  | [subject; sid; szb] => finish (PubArg (pa_subject p) None (pa_sid p) szb (parseSize szb)) subject sid
  | [subject; sid; reply; szb] =>
      finish (PubArg (pa_subject p) (Some reply) (pa_sid p) szb (parseSize szb)) subject sid
  | _ => (p, Some (parse_error (bs "processMsgArgs") arg))
  end.

Definition processPub (cid : N) (arg : bytes) (p : pubArg) : M (pubArg * option srv_error) :=
  c ← obj cid;
  let finish (p : pubArg) : M (pubArg * option srv_error) :=
    if decide (pa_size p < 0)%Z then mret (p, Some (size_error (bs "processPub") arg))
    else if decide (0 < c_mpay c /\ c_mpay c < pa_size p)%Z then
      maxPayloadViolation cid;; mret (p, Some ErrMaxPayload)
    else
      when (o_pedantic (c_opts c) && negb (IsValidLiteralSubject (pa_subject p)))
        (sendErr cid (bs "Invalid Subject"));;
      mret (p, None) in
  match splitArg arg with
  | [subject; szb] => finish (PubArg subject None (pa_sid p) szb (parseSize szb))
  | [subject; reply; szb] => finish (PubArg subject (Some reply) (pa_sid p) szb (parseSize szb))
  | _ => mret (p, Some (parse_error (bs "processPub") arg))
  end.

(** ** SUB and UNSUB *)

Definition activity (cid : N) : M unit :=
  upd cid (fun c => let k := c_cache c in
    with_cache c (ReadCache (rc_genid k) (rc_results k) (rc_inMsgs k) (rc_inBytes k) (rc_subs k + 1)%Z)).

(** A match against the permissions, which keep their own sublists. *)
Definition perm_match (sl : Sublist) (subject : bytes) : M (Sublist * SublistResult) :=
  ev ← toss; lift (Match growcap ev sl subject).

(** A new [*subscription]. *)
Definition new_sub (cid : N) (subject : bytes) (queue : option bytes) (sid : bytes) : M subscription :=
  p ← gets sv_fresh;
  modify (fun s => set_fresh s (sv_fresh s + 1)%N);;
  mret (Subscription p (Some cid) subject queue sid).

(** The permission check of [processSub]. *)
Definition sub_allowed (cid : N) (subject : bytes) : M bool :=
  c ← obj cid;
  match c_perms c with
  | None => mret true
  | Some pm =>
      res ← perm_match (perm_sub pm) subject;
      let '(sl, r) := res in
      upd cid (fun c => with_perms c (Some (Permissions sl (perm_pub pm) (perm_pcache pm))));;
      mret (bool_decide (length (r_psubs r) <> 0))
  end.

(** [processSub] once the arguments are known. *)
Definition add_sub (cid : N) (sub : subscription) : M unit :=
  c ← obj cid;
  let sid := sub_sid sub in
  res ← (match c_subs c !! sid with
         | Some _ => mret (None, false)
         | None =>
             upd cid (fun c => with_subs c (<[sid := sub]> (c_subs c)));;
             err ← sl_insert sub;
             match err with
             | Some e => upd cid (fun c => with_subs c (delete sid (c_subs c)));; mret (Some e, false)
             | None => mret (None, bool_decide (c_typ c <> ROUTER))
             end
         end : M (option sl_error * bool));
  let '(err, shouldForward) := res in
  match err with
  | Some _ => sendErr cid (bs "Invalid Subject")
  | None =>
      when (o_verbose (c_opts c)) (sendOK cid);;
      when shouldForward (broadcastSubscribe sub)
  end.

Definition processSub (cid : N) (arg : bytes) : M (option srv_error) :=
  activity cid;;
  let go (subject : bytes) (queue : option bytes) (sid : bytes) : M (option srv_error) :=
    sub ← new_sub cid subject queue sid;
    c ← obj cid;
    if decide (c_nc c = NcNil) then mret None
    else
      ok ← sub_allowed cid subject;
      (if ok : bool then add_sub cid sub
       else sendErr cid (bs "Permissions Violation for Subscription to " ++ fmt_q subject));;
      mret None in
  match splitArg arg with
  | [subject; sid] => go subject None sid
  | [subject; queue; sid] => go subject (Some queue) sid
  | _ => mret (Some (parse_error (bs "processSub") arg))
  end.

(** [unsubscribe]. *)
Definition unsubscribe (cid : N) (sub : subscription) : M unit :=
  nm_max ← counts sub;
  let '(nm, max) := nm_max in
  if decide (0 < max /\ nm < max)%Z then mret tt
  else
    upd cid (fun c => with_subs c (delete (sub_sid sub) (c_subs c)));;
    sl_remove sub;; mret tt.

(** [processUnsub] once the arguments are known. *)
Definition unsub_sid (cid : N) (sid : bytes) (max : Z) : M (option srv_error) :=
  activity cid;;
  c ← obj cid;
  (match c_subs c !! sid with
   | Some sub =>
       nm_max ← counts sub;
       set_sub_counts sub nm_max.1 (if decide (0 < max)%Z then max else 0%Z);;
       unsubscribe cid sub;;
       when (bool_decide (c_typ c <> ROUTER)) (broadcastUnSubscribe sub)
   | None => mret tt
   end);;
  when (o_verbose (c_opts c)) (sendOK cid);;
  mret None.

Definition processUnsub (cid : N) (arg : bytes) : M (option srv_error) :=
  match splitArg arg with
  | [sid] => unsub_sid cid sid (-1)%Z
  | [sid; max] => unsub_sid cid sid (parseSize max)
  | _ => mret (Some (parse_error (bs "processUnsub") arg))
  end.

(** ** Delivery *)

Definition msgHeader (p : pubArg) (mh : bytes) (sub : subscription) : bytes :=
  mh ++ sub_sid sub ++ bs " " ++
  (match pa_reply p with Some reply => reply ++ bs " " | None => [] end) ++ pa_szb p ++ crlf.

(** The two writes of a message; [None] when both succeed. *)
Definition write_msg (cid : N) (mh msg : bytes) : M (option write_result) :=
  r1 ← net_write cid mh;
  if decide (r1 <> WOk) then mret (Some r1)
  else r2 ← net_write cid msg;
    if decide (r2 <> WOk) then mret (Some r2) else mret None.

(** The part of [deliverMsg] after the check of the limit: [cid] publishes,
    [to] receives. *)
Definition deliver_now (cid to : N) (mh msg : bytes) : M unit :=
  c ← obj to;
  if decide (c_nc c = NcNil) then mret tt
  else
    let msgSize := (Z.of_nat (length msg) - LEN_CR_LF)%Z in
    upd to (fun c => with_out c (c_outMsgs c + 1)%Z (c_outBytes c + msgSize)%Z (c_out c));;
    modify (fun s => set_stats s (sv_outMsgs s + 1)%Z (sv_outBytes s + msgSize)%Z (sv_slowConsumers s));;
    err ← write_msg to mh msg;
    match err with
    | None => upd cid (fun c => with_pcd c ({[to]} ∪ c_pcd c))
    | Some WTimeout =>
        modify (fun s => set_stats s (sv_outMsgs s) (sv_outBytes s) (sv_slowConsumers s + 1)%Z);;
        closeConnection to
    | Some _ => mret tt
    end.

Definition deliverMsg (cid : N) (sub : subscription) (mh msg : bytes) : M unit :=
  match sub_client sub with
  | None => mret tt
  | Some to =>
      nm_max ← counts sub;
      let nm := (nm_max.1 + 1)%Z in
      let max := nm_max.2 in
      set_sub_counts sub nm max;;
      c ← obj to;
      let shouldForward := bool_decide (c_typ c <> ROUTER) in
      if decide (0 < max)%Z then
        if decide (nm = max) then
          deliver_now cid to mh msg;;
          unsubscribe to sub;;
          when shouldForward (broadcastUnSubscribe sub)
        else if decide (max < nm)%Z then
          unsubscribe to sub;;
          when shouldForward (broadcastUnSubscribe sub)
        else deliver_now cid to mh msg
      else deliver_now cid to mh msg
  end.

(** ** Direct delivery to a queue member over a route *)

Definition is_ws (b : byte) : bool := is_space b || bool_decide (b = "012"%char).

(** The longest prefix of bytes that satisfy [f]. *)
Fixpoint span (f : byte -> bool) (l : bytes) : bytes * bytes :=
  match l with
  | b :: l' => if f b then let '(x, y) := span f l' in (b :: x, y) else ([], l)
  | [] => ([], [])
  end.

(** [QRSID:(\d+):([^\s]+)] at the start of the text. *)
Definition match_qrsid (l : bytes) : option (bytes * bytes) :=
  if decide (take 6 l = bs "QRSID:") then
    let '(digits, rest) := span is_digit (drop 6 l) in
    match rest with
    | ":"%char :: rest' =>
        let '(sid, _) := span (fun b => negb (is_ws b)) rest' in
        if decide (digits = [] \/ sid = []) then None else Some (digits, sid)
    | _ => None
    end
  else None.

(** [qrsidRe.FindSubmatch]: the leftmost match. *)
Fixpoint find_qrsid (l : bytes) : option (bytes * bytes) :=
  match match_qrsid l with
  | Some x => Some x
  | None => match l with [] => None | _ :: l' => find_qrsid l' end
  end.

(** [routeSidQueueSubscriber]: [None] is [(nil, false)]. *)
Definition routeSidQueueSubscriber (s : server) (rsid : bytes) : option (option subscription) :=
  if decide (take 5 rsid = QRSID) then
    match find_qrsid rsid with
    | None => None
    | Some (digits, sid) =>
        let cid := Z.to_N (wrapu64 (parseInt64 digits)) in
        if decide (cid ∈ sv_clients s) then
          match sv_objs s !! cid with
          | Some c => Some (c_subs c !! sid)
          | None => Some None
          end
        else Some None
    end
  else None.

(** ** Publishing *)

Definition sys_subject (subject : bytes) : bool :=
  bool_decide (take 5 subject = bs "_SYS.").

Definition pubPermissionViolation (cid : N) (subject : bytes) : M unit :=
  sendErr cid (bs "Permissions Violation for Publish to " ++ fmt_q subject).

(** The pruning of the permission cache: the code deletes from the result
    cache. *)
Definition prune_perms (cid : N) : M unit :=
  c ← obj cid;
  match c_perms c with
  | None => mret tt
  | Some pm =>
      if decide (maxPermCacheSize < size (perm_pcache pm)) then
        ev ← toss;
        let ks := prune_keys ev (perm_pcache pm) in
        upd cid (fun c => let k := c_cache c in
          with_cache c (ReadCache (rc_genid k)
            (match rc_results k with Some m => Some (Prune (length ks) ks m) | None => None end)
            (rc_inMsgs k) (rc_inBytes k) (rc_subs k)))
      else mret tt
  end.

(** The permission check of [processMsg]. *)
Definition pub_allowed (cid : N) (subject : bytes) : M bool :=
  c ← obj cid;
  match c_perms c with
  | None => mret true
  | Some pm =>
      match perm_pcache pm !! subject with
      | Some true => mret true
      | Some false => pubPermissionViolation cid subject;; mret false
      | None =>
          res ← perm_match (perm_pub pm) subject;
          let '(sl, r) := res in
          let allowed := bool_decide (length (r_psubs r) <> 0) in
          when (negb allowed) (pubPermissionViolation cid subject);;
          upd cid (fun c => with_perms c (Some (Permissions (perm_sub pm) sl (<[subject := allowed]> (perm_pcache pm)))));;
          prune_perms cid;;
          mret allowed
      end
  end.

(** What [processMsg] checks before it publishes: nobody may use the subjects of
    the server, and a connection with permissions those they allow. *)
Definition pub_check (cid : N) (subject : bytes) : M bool :=
  if sys_subject subject then pubPermissionViolation cid subject;; mret false
  else pub_allowed cid subject.

(** The result of the lookup, from the cache of the connection or the sublist. *)
Definition cached_match (cid : N) (subject : bytes) : M SublistResult :=
  c ← obj cid;
  genid ← gets (fun s => sl_genid (sv_sl s));
  let k := c_cache c in
  let hit := if decide (genid = rc_genid k) then rc_results k else None in
  let results := default ∅ hit in
  match hit ≫= (.!! subject) with
  | Some r => mret r
  | None =>
      r ← sl_match subject;
      ev ← toss;
      let results := <[subject := r]> results in
      let results := if decide (maxResultCacheSize < size results)
                     then Prune (S pruneSize) (prune_keys ev results) results else results in
      upd cid (fun c => let k := c_cache c in
        with_cache c (ReadCache genid (Some results) (rc_inMsgs k) (rc_inBytes k) (rc_subs k)));;
      mret r
  end.

(** The loop over the plain subscriptions, with [rmap]. *)
Fixpoint deliver_psubs (cid : N) (isRoute : bool) (p : pubArg) (msgh msg : bytes)
    (rmap : gset bytes) (subs : list subscription) : M unit :=
  match subs with
  | [] => mret tt
  | sub :: subs' =>
      let go rmap := deliver_psubs cid isRoute p msgh msg rmap subs' in
      to ← lift (sub_client sub);
      c ← obj to;
      if decide (c_typ c = ROUTER) then
        if isRoute then go rmap
        else
          match c_route c with
          | Some r =>
              if decide (c_nc c = NcNil \/ rt_remoteID r = []) then go rmap
              else if decide (rt_remoteID r ∈ rmap) then go rmap
              else deliverMsg cid sub (msgHeader p msgh sub) msg;; go ({[rt_remoteID r]} ∪ rmap)
          | None => go rmap
          end
      else deliverMsg cid sub (msgHeader p msgh sub) msg;; go rmap
  end.

(** The loop over the queue groups: one member of each, at random.  A group
    shows the elements of its slice at that time. *)
Fixpoint deliver_qsubs (cid : N) (p : pubArg) (msgh msg : bytes) (qsubs : list slice) : M unit :=
  match qsubs with
  | [] => mret tt
  | g :: qsubs' =>
      ev ← toss;
      h ← gets (fun s => sl_heap (sv_sl s));
      if decide (s_len g = 0) then panic
      else
        (match mjoin (elems h g !! (ev mod s_len g)) with
         | Some sub => deliverMsg cid sub (msgHeader p msgh sub) msg
         | None => mret tt
         end);;
        deliver_qsubs cid p msgh msg qsubs'
  end.

(** [processMsg] once the result is known. *)
Definition fan_out (cid : N) (p : pubArg) (msg : bytes) (r : SublistResult) : M unit :=
  c ← obj cid;
  if decide (length (r_psubs r) = 0 /\ length (r_qsubs r) = 0) then mret tt
  else if o_pedantic (c_opts c) && negb (IsValidLiteralSubject (pa_subject p)) then mret tt
  else
    let msgh := bs "MSG " ++ pa_subject p ++ bs " " in
    let isRoute := bool_decide (c_typ c = ROUTER) in
    s ← gets (fun s => s);
    match (if isRoute then routeSidQueueSubscriber s (default [] (pa_sid p)) else None) with
    | Some (Some sub) => deliverMsg cid sub (msgHeader p msgh sub) msg
    | Some None => mret tt
    | None =>
        deliver_psubs cid isRoute p msgh msg ∅ (r_psubs r);;
        when (negb isRoute) (deliver_qsubs cid p msgh msg (r_qsubs r))
    end.

Definition processMsg (cid : N) (p : pubArg) (msg : bytes) : M unit :=
  upd cid (fun c => let k := c_cache c in
    with_cache c (ReadCache (rc_genid k) (rc_results k) (rc_inMsgs k + 1)%Z
      (rc_inBytes k + (Z.of_nat (length msg) - LEN_CR_LF))%Z (rc_subs k)));;
  if decide (pa_subject p = []) then panic
  else
    ok ← pub_check cid (pa_subject p);
    if negb ok then mret tt
    else
      c ← obj cid;
      when (o_verbose (c_opts c)) (sendOK cid);;
      r ← cached_match cid (pa_subject p);
      fan_out cid p msg r.

End operations.

Lemma run_bind {A B} (m : M A) (k : A -> M B) s s' x : m s = Some (s', x) -> (m ≫= k) s = k x s'.
Proof. unfold mbind, M_bind. by intros ->. Qed.

(** Reconnecting only starts a goroutine. *)
Lemma reconnect_rg c s : exists g, reconnect c s = Some (set_rg s g, tt).
Proof.
  assert (Hid : Some (s, tt) = Some (set_rg s (sv_rg s), tt)) by (by destruct s).
  unfold reconnect, startDialing, when, modify, gets, mbind, M_bind, mret, M_ret, id.
  repeat case_match; first [by eexists | by exists (sv_rg s)].
Qed.

(** A server outside of a cluster, and one that parses no URL. *)
Definition no_info : Info := MkInfo [] [] [] [] 0 false false false false 0 [] [] 0.
Definition no_routing : routing := Routing [] [] [] false 0 no_info [] ∅ (ConnectURLs ∅ []).
Definition no_net : netEnv := NetEnv (fun _ => None) (fun _ => []) (fun _ => None) (fun _ => []).
Definition ex_accepted (id : bytes) : route := Route id false false Implicit None false false.
