(* ===== verification/ClientSession.v ===== *)
(** * ClientSession: what no operation of a connection changes

    A frame for the operations of [Client]: a relation between a client
    object before and after that every field update respects ([ClientRel])
    is respected by every operation ([preserves]).  With it the client is
    shown to implement the interface of the parser. *)

From S2P Require Import Prelude Util Subject Sublist Parser ParserSpec Client.

(** A preorder on client objects that the updates of the code respect. *)
Class ClientRel (Q : client -> client -> Prop) : Prop := {
  Q_refl : forall c, Q c c;
  Q_trans : forall c1 c2 c3, Q c1 c2 -> Q c2 c3 -> Q c1 c3;
  Q_opts : forall c x, Q c (with_opts c x);
  Q_nc : forall c x, (c_nc c = NcNil -> x = NcNil) -> Q c (with_nc c x);
  Q_subs : forall c x, Q c (with_subs c x);
  Q_perms : forall c x, Q c (with_perms c x);
  Q_cache : forall c x, Q c (with_cache c x);
  Q_pcd : forall c x, Q c (with_pcd c x);
  Q_atmr : forall c, Q c (with_atmr c TNone);
  Q_pout : forall c x, Q c (with_pout c x);
  Q_route : forall c x, Q c (with_route c x);
  Q_flags : forall c x, Q c (with_flags c x);
  Q_out : forall c om ob data, Q c (with_out c om ob (c_out c ++ data));
}.

Create HintDb client_rel discriminated.

Section preserve.
Context (Q : client -> client -> Prop) `{!ClientRel Q}.

(** What no operation of a connection does to the server: its settings stay,
    no client is registered, and no route once the server is shut down. *)
Definition frame (s s' : server) : Prop :=
  sv_maxControlLine s' = sv_maxControlLine s /\ sv_running s' = sv_running s /\
  sv_clients s' ⊆ sv_clients s /\ dom (sv_objs s') = dom (sv_objs s) /\
  (sv_running s = false -> sv_routes s' ⊆ sv_routes s).

(** Every object is still there, related to what it was. *)
Definition srel (s s' : server) : Prop :=
  frame s s' /\ forall k c, sv_objs s !! k = Some c -> exists c', sv_objs s' !! k = Some c' /\ Q c c'.

Definition preserves {A} (m : M A) : Prop := forall s s' x, m s = Some (s', x) -> srel s s'.

Lemma frame_trans s1 s2 s3 : frame s1 s2 -> frame s2 s3 -> frame s1 s3.
Proof.
  intros (? & E1 & ? & ? & R1) (? & ? & ? & ? & R2). split_and!; [congruence..|set_solver|congruence|].
  intros Hr. rewrite E1 in R2. specialize (R1 Hr). specialize (R2 Hr). set_solver.
Qed.

Lemma srel_refl s : srel s s.
Proof. split; [by unfold frame|]. intros k c Hc. exists c. split; [done|apply Q_refl]. Qed.

Lemma srel_same s s' : frame s s' -> sv_objs s' = sv_objs s -> srel s s'.
Proof. intros E1 E2. split; [done|]. rewrite E2. intros k c Hc. exists c. split; [done|apply Q_refl]. Qed.

Lemma srel_trans s1 s2 s3 : srel s1 s2 -> srel s2 s3 -> srel s1 s3.
Proof.
  intros [E1 H1] [E2 H2]. split; [by eapply frame_trans|]. intros k c Hc.
  destruct (H1 k c Hc) as (c1 & Hc1 & Q1). destruct (H2 k c1 Hc1) as (c2 & Hc2 & Q2).
  exists c2. split; [done|by eapply Q_trans].
Qed.

Lemma preserves_ret {A} (x : A) : preserves (mret x).
Proof. intros s s' y [= <- <-]. apply srel_refl. Qed.

Lemma preserves_panic {A} : preserves (@panic A).
Proof. by intros s s' x. Qed.

Lemma preserves_bind {A B} (m : M A) (k : A -> M B) :
  preserves m -> (forall x, preserves (k x)) -> preserves (m ≫= k).
Proof.
  intros Hm Hk s s' y E. unfold mbind, M_bind in E.
  destruct (m s) as [[s1 x]|] eqn:E1; [|done]. eapply srel_trans; [by eapply Hm|by eapply Hk].
Qed.

Lemma preserves_gets {A} (f : server -> A) : preserves (gets f).
Proof. intros s s' y [= <- <-]. apply srel_refl. Qed.

Lemma preserves_obj k : preserves (obj k).
Proof. intros s s' y. unfold obj. destruct (sv_objs s !! k); [|done]. intros [= <- <-]. apply srel_refl. Qed.

Lemma preserves_lift {A} (o : option A) : preserves (lift o).
Proof. destruct o; [apply preserves_ret|apply preserves_panic]. Qed.

Lemma preserves_modify f : (forall s, srel s (f s)) -> preserves (modify f).
Proof. intros Hf s s' x [= <- <-]. apply Hf. Qed.

Lemma preserves_upd k f : (forall c, Q c (f c)) -> preserves (upd k f).
Proof.
  intros Hf. apply preserves_modify. intros s. split; [split_and!; try done; apply dom_alter_L|]. simpl. intros k' c Hc.
  destruct (decide (k = k')) as [<-|Hne].
  - rewrite lookup_alter_eq, Hc. simpl. eauto.
  - rewrite lookup_alter_ne, Hc by done. exists c. split; [done|apply Q_refl].
Qed.

Lemma preserves_when b m : preserves m -> preserves (when b m).
Proof. intros Hm. destruct b; [done|apply preserves_ret]. Qed.

Lemma preserves_forM {A} (l : list A) f : (forall x, preserves (f x)) -> preserves (forM l f).
Proof.
  intros Hf. induction l as [|x l IH]; simpl; [apply preserves_ret|].
  apply preserves_bind; [done|]. auto.
Qed.

Lemma preserves_same {A} (m : M A) :
  (forall s s' x, m s = Some (s', x) ->
     frame s s' /\ sv_objs s' = sv_objs s) -> preserves m.
Proof.
  intros Hm s s' x E. destruct (Hm s s' x E). by apply srel_same.
Qed.

Hint Resolve preserves_ret preserves_panic preserves_gets preserves_obj preserves_lift : client_rel.

(** A relation between a client and itself after several updates. *)
Ltac related_chain :=
  first
    [ apply Q_refl
    | apply Q_atmr
    | apply Q_out
    | rewrite <- (app_nil_r (c_out _)); apply Q_out
    | lazymatch goal with
      | |- Q ?c (_ ?c' _) =>
          apply (Q_trans c c');
          [related_chain
          |first [apply Q_opts | apply Q_nc; solve [done | intros; exfalso; done] | apply Q_subs | apply Q_perms | apply Q_cache | apply Q_pcd
                 | apply Q_atmr | apply Q_pout | apply Q_route | apply Q_flags]]
      end ].
Ltac related := cbv beta zeta; repeat case_match; solve [related_chain].

(** Splits an operation into its primitive steps. *)
Ltac preserve_step :=
  first
    [ solve [eauto 3 with client_rel]
    | apply preserves_bind; [|intros]
    | apply preserves_when
    | apply preserves_forM; intros
    | apply preserves_upd; intros; related
    | apply preserves_modify; intros; cbv beta; repeat case_match;
      (apply srel_same; [split_and!; first [reflexivity | simpl; reflexivity | cbn [sv_clients sv_routes set_maps]; set_solver]|reflexivity])
    | case_match ].

Ltac preserve := repeat preserve_step.

Context (growcap : nat -> nat -> nat) (choice : nat -> nat)
        (wr : N -> list bytes -> bytes -> write_result)
        (json_opts : bytes -> clientOpts -> clientOpts * option bytes)
        (json_info : bytes -> Info + bytes) (nenv : netEnv) (info_proto : Info -> bytes)
        (fmt_q : bytes -> bytes)
        (cAuth rAuth : option (clientOpts -> option (option User))).

Lemma toss_pres : preserves (toss choice).
Proof. apply preserves_same. intros s s' x [= <- <-]. by unfold frame. Qed.

Lemma sl_insert_pres sub : preserves (sl_insert growcap sub).
Proof.
  apply preserves_same. intros s s' x. unfold sl_insert.
  destruct (Insert growcap (sv_sl s) sub) as [[sl e]|]; [|done]. intros [= <- <-]. by unfold frame.
Qed.

Lemma sl_remove_pres sub : preserves (sl_remove growcap sub).
Proof.
  apply preserves_same. intros s s' x. unfold sl_remove.
  destruct (Remove growcap (sv_sl s) sub) as [[sl e]|]; [|done]. intros [= <- <-]. by unfold frame.
Qed.

Lemma sl_match_pres subject : preserves (sl_match growcap choice subject).
Proof.
  apply preserves_bind; [apply toss_pres|]. intros ev. apply preserves_same. intros s s' x. unfold sl_match_at.
  destruct (Match growcap ev (sv_sl s) subject) as [[sl e]|]; [|done]. intros [= <- <-]. by unfold frame.
Qed.
Hint Resolve toss_pres sl_insert_pres sl_remove_pres sl_match_pres : client_rel.

Lemma net_write_pres k d : preserves (net_write wr k d).
Proof. unfold net_write. preserve. Qed.
Hint Resolve net_write_pres : client_rel.

Lemma sendProto_pres k d : preserves (sendProto wr k d).
Proof. unfold sendProto. preserve. Qed.
Hint Resolve sendProto_pres : client_rel.

Lemma sendErr_pres k d : preserves (sendErr wr k d).
Proof. unfold sendErr. preserve. Qed.

Lemma sendOK_pres k : preserves (sendOK wr k).
Proof. unfold sendOK. preserve. Qed.

Lemma clearConnection_pres k : preserves (clearConnection k).
Proof. unfold clearConnection. preserve. Qed.

Lemma broadcastInterest_pres p : preserves (broadcastInterestToRoutes wr p).
Proof. unfold broadcastInterestToRoutes. preserve. Qed.
Hint Resolve sendErr_pres sendOK_pres clearConnection_pres broadcastInterest_pres : client_rel.

Lemma counts_pres sub : preserves (counts sub).
Proof. unfold counts. preserve. Qed.

Lemma set_sub_counts_pres sub a b : preserves (set_sub_counts sub a b).
Proof. unfold set_sub_counts. preserve. Qed.
Hint Resolve counts_pres set_sub_counts_pres : client_rel.

Lemma broadcastSubscribe_pres sub : preserves (broadcastSubscribe wr sub).
Proof. unfold broadcastSubscribe. preserve. Qed.

Lemma broadcastUnSubscribe_pres sub : preserves (broadcastUnSubscribe wr sub).
Proof. unfold broadcastUnSubscribe. preserve. Qed.
Hint Resolve broadcastSubscribe_pres broadcastUnSubscribe_pres : client_rel.

Lemma removeClient_pres k : preserves (removeClient k).
Proof. unfold removeClient. preserve. Qed.
Hint Resolve removeClient_pres : client_rel.

Lemma startDialing_pres d : preserves (startDialing d).
Proof. unfold startDialing. preserve. Qed.
Hint Resolve startDialing_pres : client_rel.

Lemma reconnect_pres c : preserves (reconnect c).
Proof. unfold reconnect. preserve. Qed.
Hint Resolve reconnect_pres : client_rel.

Lemma closeConnection_pres k : preserves (closeConnection growcap wr k).
Proof. unfold closeConnection. preserve. Qed.
Hint Resolve closeConnection_pres : client_rel.

Lemma RegisterUser_pres k u : preserves (RegisterUser growcap k u).
Proof. unfold RegisterUser. preserve. Qed.
Hint Resolve RegisterUser_pres : client_rel.

Lemma authViolation_pres k : preserves (authViolation growcap wr k).
Proof. unfold authViolation. preserve. Qed.

Lemma maxPayloadViolation_pres k : preserves (maxPayloadViolation growcap wr k).
Proof. unfold maxPayloadViolation. preserve. Qed.

Lemma authTimeout_pres k : preserves (authTimeout growcap wr k).
Proof. unfold authTimeout. preserve. Qed.

Lemma checkAuth_pres k : preserves (checkAuth growcap cAuth rAuth k).
Proof. unfold checkAuth. preserve. Qed.
Hint Resolve authViolation_pres authTimeout_pres maxPayloadViolation_pres checkAuth_pres : client_rel.

Lemma connect_body_pres k arg : preserves (connect_body growcap wr json_opts cAuth rAuth k arg).
Proof. unfold connect_body. preserve. Qed.
Hint Resolve connect_body_pres : client_rel.

Lemma processConnect_pres k arg : preserves (processConnect growcap wr json_opts cAuth rAuth k arg).
Proof. unfold processConnect. preserve. Qed.
Hint Resolve processConnect_pres : client_rel.

Lemma sendLocalSubs_pres k : preserves (sendLocalSubsToRoute wr k).
Proof. unfold sendLocalSubsToRoute. preserve. Qed.
Hint Resolve sendLocalSubs_pres : client_rel.

(** A server that was shut down adds no route. *)
Lemma addRoute_pres k : preserves (addRoute k).
Proof.
  assert (Hrest : forall (s s0 : server) (rest : M (bool * bool)) s' y, preserves rest -> srel s s0 ->
    rest s0 = Some (s', y) -> srel s s') by (intros; eapply srel_trans; [done|by eapply H]).
  unfold addRoute. apply preserves_bind; [auto with client_rel|intros c].
  apply preserves_bind; [auto with client_rel|intros r]. intros s s' y. unfold gets, mbind at 1, M_bind at 1.
  destruct (sv_running s) eqn:Er; cbn [negb]; [|intros [= <- <-]; apply srel_refl].
  unfold mbind at 1, M_bind at 1. destruct (sv_remotes s !! rt_remoteID r) as [remote|].
  - revert s' y. match goal with |- forall s' y, ?m s = _ -> _ => enough (H : preserves m) by (intros; by eapply H) end. preserve.
  - unfold modify, mbind at 1, M_bind at 1. unfold mbind at 1, M_bind at 1. apply Hrest; [preserve|].
    apply srel_same; [|done]. split_and!; [done..|]. intros Hf. cbn in Hf. congruence.
Qed.
Hint Resolve addRoute_pres : client_rel.

Lemma forwardInfo_pres i : preserves (forwardNewRouteInfoToKnownServers wr info_proto i).
Proof. unfold forwardNewRouteInfoToKnownServers. preserve. Qed.
Hint Resolve forwardInfo_pres : client_rel.

Lemma processImplicitRoute_pres i : preserves (processImplicitRoute nenv i).
Proof. unfold processImplicitRoute. preserve. Qed.

Lemma updateServerINFO_pres urls : preserves (updateServerINFO nenv urls).
Proof. unfold updateServerINFO. preserve. Qed.

Lemma sendAsyncInfo_pres : preserves (sendAsyncInfoToClients wr).
Proof. unfold sendAsyncInfoToClients. preserve. Qed.
Hint Resolve processImplicitRoute_pres updateServerINFO_pres sendAsyncInfo_pres : client_rel.

Lemma route_added_pres k u i b : preserves (route_added wr nenv info_proto k u i b).
Proof. unfold route_added. preserve. Qed.
Hint Resolve route_added_pres : client_rel.

Lemma processRouteInfo_pres k i : preserves (processRouteInfo growcap wr nenv info_proto k i).
Proof. unfold processRouteInfo. preserve. Qed.
Hint Resolve processRouteInfo_pres : client_rel.

Lemma processInfo_pres k arg : preserves (processInfo growcap wr json_info nenv info_proto k arg).
Proof. unfold processInfo. preserve. Qed.
Hint Resolve processInfo_pres : client_rel.

Lemma processPing_pres k : preserves (processPing wr k).
Proof. unfold processPing. preserve. Qed.
Hint Resolve processPing_pres : client_rel.

Lemma processPong_pres k : preserves (processPong k).
Proof. unfold processPong. preserve. Qed.
Hint Resolve processPong_pres : client_rel.

Lemma processErr_pres k : preserves (processErr growcap wr k).
Proof. unfold processErr. preserve. Qed.
Hint Resolve processErr_pres : client_rel.

Lemma processPingTimer_pres k : preserves (processPingTimer wr k).
Proof. unfold processPingTimer. preserve. Qed.
Hint Resolve processPingTimer_pres : client_rel.

Lemma processPub_pres k arg p : preserves (processPub growcap wr k arg p).
Proof. unfold processPub. preserve. Qed.
Hint Resolve processPub_pres : client_rel.

Lemma activity_pres k : preserves (activity k).
Proof. unfold activity. preserve. Qed.
Hint Resolve activity_pres : client_rel.

Lemma perm_match_pres sl subject : preserves (perm_match growcap choice sl subject).
Proof. unfold perm_match. preserve. Qed.
Hint Resolve perm_match_pres : client_rel.

Lemma new_sub_pres k a b c : preserves (new_sub k a b c).
Proof. unfold new_sub. preserve. Qed.
Hint Resolve new_sub_pres : client_rel.

Lemma sub_allowed_pres k a : preserves (sub_allowed growcap choice k a).
Proof. unfold sub_allowed. preserve. Qed.
Hint Resolve sub_allowed_pres : client_rel.

Lemma add_sub_pres k a : preserves (add_sub growcap wr k a).
Proof. unfold add_sub. preserve. Qed.
Hint Resolve add_sub_pres : client_rel.

Lemma processSub_pres k a : preserves (processSub growcap choice wr fmt_q k a).
Proof. unfold processSub. preserve. Qed.
Hint Resolve processSub_pres : client_rel.

Lemma unsubscribe_pres k a : preserves (unsubscribe growcap k a).
Proof. unfold unsubscribe. preserve. Qed.
Hint Resolve unsubscribe_pres : client_rel.

Lemma unsub_sid_pres k a b : preserves (unsub_sid growcap wr k a b).
Proof. unfold unsub_sid. preserve. Qed.
Hint Resolve unsub_sid_pres : client_rel.

Lemma processUnsub_pres k a : preserves (processUnsub growcap wr k a).
Proof. unfold processUnsub. preserve. Qed.
Hint Resolve processUnsub_pres : client_rel.

Lemma write_msg_pres k a b : preserves (write_msg wr k a b).
Proof. unfold write_msg. preserve. Qed.
Hint Resolve write_msg_pres : client_rel.

Lemma deliver_now_pres k a b c : preserves (deliver_now growcap wr k a b c).
Proof. unfold deliver_now. preserve. Qed.
Hint Resolve deliver_now_pres : client_rel.

Lemma deliverMsg_pres k a b c : preserves (deliverMsg growcap wr k a b c).
Proof. unfold deliverMsg. preserve. Qed.
Hint Resolve deliverMsg_pres : client_rel.

Lemma pubViolation_pres k a : preserves (pubPermissionViolation wr fmt_q k a).
Proof. unfold pubPermissionViolation. preserve. Qed.
Hint Resolve pubViolation_pres : client_rel.

Lemma prune_perms_pres k : preserves (prune_perms choice k).
Proof. unfold prune_perms. preserve. Qed.
Hint Resolve prune_perms_pres : client_rel.

Lemma pub_allowed_pres k a : preserves (pub_allowed growcap choice wr fmt_q k a).
Proof. unfold pub_allowed. preserve. Qed.
Hint Resolve pub_allowed_pres : client_rel.

Lemma pub_check_pres k a : preserves (pub_check growcap choice wr fmt_q k a).
Proof. unfold pub_check. preserve. Qed.
Hint Resolve pub_check_pres : client_rel.

Lemma cached_match_pres k a : preserves (cached_match growcap choice k a).
Proof. unfold cached_match. preserve. Qed.
Hint Resolve cached_match_pres : client_rel.

Lemma deliver_psubs_pres k ir p h m rmap l : preserves (deliver_psubs growcap wr k ir p h m rmap l).
Proof. revert rmap. induction l as [|sub l IH]; intros rmap; simpl; preserve; apply IH. Qed.

Lemma deliver_qsubs_pres k p h m l : preserves (deliver_qsubs growcap choice wr k p h m l).
Proof. induction l as [|sub l IH]; simpl; preserve. Qed.
Hint Resolve deliver_psubs_pres deliver_qsubs_pres : client_rel.

Lemma fan_out_pres k a b c : preserves (fan_out growcap choice wr k a b c).
Proof. unfold fan_out. preserve. Qed.
Hint Resolve fan_out_pres : client_rel.

Lemma processMsg_pres k a b : preserves (processMsg growcap choice wr fmt_q k a b).
Proof. unfold processMsg. preserve. Qed.
Hint Resolve processMsg_pres : client_rel.

End preserve.

(** ** The client implements the interface of the parser *)

(** The rest of the client, as the parser sees it: the store, and whether a
    handler panicked. *)
Record session := Session { ss_server : server; ss_crashed : bool }.

Section client_handlers.
Context (growcap : nat -> nat -> nat) (choice : nat -> nat)
        (wr : N -> list bytes -> bytes -> write_result)
        (json_opts : bytes -> clientOpts -> clientOpts * option bytes)
        (json_info : bytes -> Info + bytes) (nenv : netEnv) (info_proto : Info -> bytes)
        (fmt_q : bytes -> bytes)
        (cAuth rAuth : option (clientOpts -> option (option User))).
(** The connection that is parsed. *)
Context (cid : N).

(** A panic of a handler ends the process: the flag is raised and nothing runs
    after it.  That handlers do not panic is shown in [ServerSafe]. *)
Definition run {A} (dflt : A) (m : M A) (x : session) : session * A :=
  if ss_crashed x then (x, dflt)
  else match m (ss_server x) with
       | Some (s', y) => (Session s' false, y)
       | None => (Session (ss_server x) true, dflt)
       end.

Definition run_ (m : M unit) (x : session) : session := fst (run tt m x).
Definition run_err (m : M (option srv_error)) (x : session) : session * option srv_error :=
  run (Some (ErrHandler (bs "panic"))) m x.
Definition run_pub (p : pubArg) (m : M (pubArg * option srv_error)) (x : session) : session * pubArg * option srv_error :=
  let '(x', (p', e)) := run (p, Some (ErrHandler (bs "panic"))) m x in (x', p', e).

Definition session_client (x : session) : option client := sv_objs (ss_server x) !! cid.

#[export] Instance client_handlers : Handlers session := {
  h_typ x := match session_client x with Some c => c_typ c | None => CLIENT end;
  h_maxControlLine x := Some (sv_maxControlLine (ss_server x));
  h_isAuthTimerSet x := match session_client x with Some c => bool_decide (c_atmr c <> TNone) | None => false end;
  h_processPub arg p := run_pub p (processPub growcap wr cid arg p);
  h_processMsgArgs arg p x := let '(p', e) := processMsgArgs arg p in (x, p', e);
  h_processMsg p msg := run_ (processMsg growcap choice wr fmt_q cid p msg);
  h_processSub arg := run_err (processSub growcap choice wr fmt_q cid arg);
  h_processUnsub arg := run_err (processUnsub growcap wr cid arg);
  h_processConnect arg := run_err (processConnect growcap wr json_opts cAuth rAuth cid arg);
  h_processInfo arg := run_err (processInfo growcap wr json_info nenv info_proto cid arg);
  h_processPing := run_ (processPing wr cid);
  h_processPong := run_ (processPong cid);
  h_processErr _ := run_ (processErr growcap wr cid);
  h_authViolation := run_ (authViolation growcap wr cid);
  h_sendErr e := run_ (sendErr wr cid e);
  h_closeConnection := run_ (closeConnection growcap wr cid);
}.

(** What stays of a client: its kind, the limit of a payload, and an
    authorization timer that is stopped. *)
Definition kept (c c' : client) : Prop :=
  c_typ c' = c_typ c /\ c_mpay c' = c_mpay c /\ (c_atmr c = TNone -> c_atmr c' = TNone).

#[local] Instance kept_rel : ClientRel kept.
Proof.
  split; unfold kept; intros; simpl; try tauto.
  destruct H as (? & ? & ?), H0 as (? & ? & ?). split_and!; [congruence..|auto].
Qed.

(** A connection of type CLIENT with a limit on payloads. *)
Definition client_inv (maxPayload : Z) (x : session) : Prop :=
  exists c, session_client x = Some c /\ c_typ c = CLIENT /\ (0 < c_mpay c <= maxPayload)%Z.

Lemma run_kept {A} (d : A) m x x' y maxPayload :
  preserves kept m -> run d m x = (x', y) -> client_inv maxPayload x ->
  session_kept x x' /\ client_inv maxPayload x'.
Proof.
  intros Hm E (c & Hc & Ht & Hp). unfold run in E.
  assert (srel kept (ss_server x) (ss_server x')) as [E1 Hs].
  { destruct (ss_crashed x); [injection E as <- <-; apply srel_refl; apply _|].
    destruct (m (ss_server x)) as [[s' z]|] eqn:Em; injection E as <- <-; simpl;
      [by eapply Hm|apply srel_refl; apply _]. }
  destruct (Hs cid c Hc) as (c' & Hc' & Q1 & Q2 & Q3). split; [split|].
  - simpl. destruct E1 as (E1 & _). by rewrite E1.
  - simpl. unfold session_client in *. rewrite Hc, Hc'. case_bool_decide as Hn; [done|]. by rewrite (Q3 Hn).
  - exists c'. unfold session_client. split; [done|]. split; [congruence|lia].
Qed.

Lemma run__kept m x maxPayload : preserves kept m -> client_inv maxPayload x ->
  session_kept x (run_ m x) /\ client_inv maxPayload (run_ m x).
Proof.
  intros Hm Hi. unfold run_. destruct (run tt m x) as [x' []] eqn:E. by eapply run_kept.
Qed.

Lemma processPub_size arg p s s' p' c :
  sv_objs s !! cid = Some c -> processPub growcap wr cid arg p s = Some (s', (p', None)) ->
  (0 <= pa_size p')%Z /\ (0 < c_mpay c -> pa_size p' <= c_mpay c)%Z.
Proof.
  intros Hc. unfold processPub, obj, mbind, M_bind, mret, M_ret. rewrite Hc.
  destruct (splitArg arg) as [|a1 [|a2 [|a3 [|? ?]]]]; try done;
    (case_decide as H1; [done|]; case_decide as H2;
      [by destruct (maxPayloadViolation growcap wr cid s) as [[? ?]|]|]);
    (destruct (when _ _ s) as [[? ?]|]; [|done]; intros [= <- <-]; simpl in *; lia).
Qed.

#[export] Instance client_handlers_ok maxPayload : HandlersOk session maxPayload (client_inv maxPayload).
Proof.
  split; simpl.
  - intros arg p x x' p' Hi E. unfold run_pub in E.
    destruct (run _ _ x) as [y [q e]] eqn:Er. injection E as <- <- ->.
    edestruct (run_kept _ _ _ _ _ maxPayload (processPub_pres kept growcap wr cid arg p) Er Hi).
    split_and!; [|done..]. unfold run in Er. destruct (ss_crashed x); [done|].
    destruct (processPub _ _ _ _ _ _) as [[? ?]|] eqn:Ep; [|done]. injection Er as <- ->.
    destruct Hi as (c & Hc & _ & ?). destruct (processPub_size _ _ _ _ _ c Hc Ep). split; lia.
  - intros arg p x x' p' (c & Hc & Ht & _). rewrite Hc. done.
  - intros p msg x Hi. apply run__kept; [apply processMsg_pres; apply _|done].
  - intros arg x x' Hi E. eapply run_kept; [|exact E|done]. apply processSub_pres; apply _.
  - intros arg x x' Hi E. eapply run_kept; [|exact E|done]. apply processUnsub_pres; apply _.
  - intros arg x x' Hi E. eapply run_kept; [|exact E|done]. apply processInfo_pres; apply _.
  - intros x Hi. apply run__kept; [apply processPing_pres; apply _|done].
  - intros x Hi. apply run__kept; [apply processPong_pres; apply _|done].
  - intros arg x Hi. apply run__kept; [apply processErr_pres; apply _|done].
  - intros arg x x' Hi E. edestruct (run_kept (Some (ErrHandler (bs "panic"))) _ x x' None maxPayload
      (processConnect_pres kept growcap wr json_opts cAuth rAuth cid arg) E Hi) as [[? ?] ?]. done.
Qed.
End client_handlers.

(** ** Properties *)

(** The parser on a client: from a connection of type CLIENT with a payload
    limit that waits for input, the code of [parse] itself neither panics nor
    loops, whatever the buffer and the handlers do; without an error the
    connection waits again, still with its type and limit.  A panic of a
    handler is not one of the parser: it raises [ss_crashed]. *)
Theorem client_parse_safe growcap choice wr json_opts json_info nenv info_proto fmt_q cAuth rAuth
  (cid : N) (maxPayload maxAlloc : Z) (buf : bytes) (c : pclient session) :
  let H := client_handlers growcap choice wr json_opts json_info nenv info_proto fmt_q cAuth rAuth cid in
  forall (Hmax : (0 <= maxPayload)%Z) (Halloc : (maxPayload + 2 <= maxAlloc)%Z)
    (Hbuf : (Z.of_nat (length buf) + maxPayload + 4 < 2 ^ 63)%Z)
    (Hready : ready maxPayload (client_inv cid maxPayload) c),
  (exists c', parse maxAlloc buf c = Parsed c' /\ ready maxPayload (client_inv cid maxPayload) c') \/
  (exists c' err, parse maxAlloc buf c = Failed c' err).
Proof.
  intros H Hmax Halloc Hbuf Hready.
  pose proof (parse_good maxPayload (client_inv cid maxPayload) maxAlloc buf Hmax Hbuf c Hready Halloc) as Hg.
  destruct (parse maxAlloc buf c); [left; eauto|right; eauto|done|done].
Qed.

(** A server with one connection that has just been accepted. *)
Definition one_conn (typ mpay : Z) : server :=
  Server (bs "A") true 1024 2
    {[1%N := Client typ defaultOpts NcOpen mpay ∅ None (ReadCache 0 None 0 0 0) ∅ TNone 0
               (if decide (typ = ROUTER) then Some (ex_accepted (bs "B")) else None) 0 0 0 []]}
    {[1%N]} ∅ ∅ NewSublist ∅ 0 0 0 0 0 [] 0 no_routing.

Definition no_json (arg : bytes) (o : clientOpts) : clientOpts * option bytes := (o, None).

Lemma client_parse_safe_witness :
  let H := client_handlers go_growcap id (fun _ _ _ => WOk) no_json (fun _ => inr []) no_net
             (fun _ => []) id None None 1 in
  let c := PClient newParseState (Session (one_conn CLIENT 65536) false) in
  (exists c', parse (2 ^ 40) (bs "PUB foo 2" ++ crlf ++ bs "ok") c = Parsed c' /\ ready 65536 (client_inv 1 65536) c') \/
  (exists c' err, parse (2 ^ 40) (bs "PUB foo 2" ++ crlf ++ bs "ok") c = Failed c' err).
Proof.
  intros H c. apply (client_parse_safe go_growcap id (fun _ _ _ => WOk) no_json (fun _ => inr []) no_net
             (fun _ => []) id None None 1 65536 (2 ^ 40)); [lia|lia|vm_compute; reflexivity|].
  split; try done. eexists. split; [apply lookup_singleton_eq|]. simpl. lia.
Defined.

(** A route has no payload limit ([createRoute] leaves [mpay] at 0), and
    then the size of a message is not checked at all: a [MSG] (or [PUB]) line
    of 30 bytes from a route makes the parser skip to an index that
    overflows, and the process panics on a slice out of range. *)
Theorem route_size_overflow_panics :
  let H := client_handlers go_growcap id (fun _ _ _ => WOk) no_json (fun _ => inr []) no_net
             (fun _ => []) id None None 1 in
  let c := PClient newParseState (Session (one_conn ROUTER 0) false) in
  parse (2 ^ 40) (bs "MSG foo 1 9223372036854775807" ++ crlf ++ bs "x") c = Panicked /\
  parse (2 ^ 40) (bs "PUB foo 9223372036854775807" ++ crlf ++ bs "x") c = Panicked.
Proof. intros H c. split; vm_compute; reflexivity. Qed.
