(* ===== verification/Delivery.v ===== *)
(** * Delivery: who receives a published message

    What [processMsg] and [deliverMsg] of [src/server/client.go] do when the
    connections work: exactly which subscriptions receive a copy of a
    message, and what each connection is sent. *)

From S2P Require Import Prelude Util Subject Sublist SublistSpec SublistQueue SublistContract Parser Client.

Definition limit (s : server) (sub : subscription) : Z := (default (0, 0)%Z (sv_counts s !! sub_ptr sub)).2.
Definition received (s : server) (sub : subscription) : Z := (default (0, 0)%Z (sv_counts s !! sub_ptr sub)).1.

(** The connection of a subscription works, and it has no limit. *)
Definition reachable (s : server) (sub : subscription) : Prop :=
  (limit s sub <= 0)%Z /\
  exists k c, sub_client sub = Some k /\ sv_objs s !! k = Some c /\ c_nc c = NcOpen.

(** What a delivery keeps of a connection. *)
Definition same_session (c c' : client) : Prop :=
  c_typ c' = c_typ c /\ c_nc c' = c_nc c /\ c_route c' = c_route c /\ c_opts c' = c_opts c /\
  c_subs c' = c_subs c /\ c_cache c' = c_cache c /\ c_perms c' = c_perms c.

(** What the connection [k] is sent when the subscriptions [l] each receive
    the message once. *)
Definition sent (hdr : subscription -> bytes) (msg : bytes) (k : N) (l : list subscription) : list bytes :=
  l ≫= (fun sub => if decide (sub_client sub = Some k) then [hdr sub; msg] else []).

(** The copies of [l] that the counter of [sub] sees. *)
Definition copies (sub : subscription) (l : list subscription) : Z :=
  Z.of_nat (length (filter (fun x => sub_ptr x = sub_ptr sub) l)).

(** From [s] to [s'], each of [l] received one copy, and nothing else. *)
Record delivered (hdr : subscription -> bytes) (msg : bytes) (l : list subscription) (s s' : server) : Prop := {
  d_objs : forall k c, sv_objs s !! k = Some c -> exists c', sv_objs s' !! k = Some c' /\
    same_session c c' /\ c_out c' = c_out c ++ sent hdr msg k l;
  d_counts : forall sub, limit s' sub = limit s sub /\ received s' sub = (received s sub + copies sub l)%Z;
  d_sl : sv_sl s' = sv_sl s;
  d_clients : sv_clients s' = sv_clients s /\ sv_routes s' = sv_routes s /\ sv_remotes s' = sv_remotes s;
  d_out : sv_outMsgs s' = (sv_outMsgs s + Z.of_nat (length l))%Z;
}.

Lemma same_session_refl c : same_session c c.
Proof. by repeat split. Qed.

Lemma same_session_trans c1 c2 c3 : same_session c1 c2 -> same_session c2 c3 -> same_session c1 c3.
Proof. unfold same_session. intros; destruct_and!; split_and!; congruence. Qed.
#[export] Hint Resolve same_session_refl : core.

Section delivery.
Context (hdr : subscription -> bytes) (msg : bytes).

Lemma sent_one k sub :
  sent hdr msg k [sub] = if decide (sub_client sub = Some k) then [hdr sub; msg] else [].
Proof. unfold sent. simpl. by case_decide. Qed.

Lemma delivered_tick s n : delivered hdr msg [] s (set_tick s n).
Proof.
  split; [|intros sub|..]; try done.
  - intros k c Hc. exists c. by rewrite app_nil_r.
  - unfold copies, limit, received. simpl. lia.
  - simpl. lia.
Qed.

Lemma delivered_nil s : delivered hdr msg [] s s.
Proof. destruct s. apply (delivered_tick (Server _ _ _ _ _ _ _ _ _ _ _ _ _ _ _ _ _ _)). Qed.

Lemma delivered_app l1 l2 s1 s2 s3 :
  delivered hdr msg l1 s1 s2 -> delivered hdr msg l2 s2 s3 -> delivered hdr msg (l1 ++ l2) s1 s3.
Proof.
  intros [O1 C1 S1 M1 N1] [O2 C2 S2 M2 N2]. split.
  - intros k c Hc. destruct (O1 k c Hc) as (c2 & Hc2 & Q1 & E1). destruct (O2 k c2 Hc2) as (c3 & Hc3 & Q2 & E2).
    exists c3. split_and!; [done|by eapply same_session_trans|].
    rewrite E2, E1. unfold sent. by rewrite bind_app, app_assoc.
  - intros sub. destruct (C1 sub), (C2 sub). split; [congruence|].
    unfold copies in *. rewrite filter_app, length_app. lia.
  - congruence.
  - destruct M1 as (? & ? & ?), M2 as (? & ? & ?). split_and!; congruence.
  - rewrite length_app. lia.
Qed.

Lemma delivered_reachable l s s' sub : delivered hdr msg l s s' -> reachable s sub -> reachable s' sub.
Proof.
  intros [O C _ _ _] [Hl (k & c & Hk & Hc & Hn)]. split; [destruct (C sub); lia|].
  destruct (O k c Hc) as (c' & Hc' & (_ & Hn' & _) & _). exists k, c'. by rewrite Hn'.
Qed.
End delivery.

(** ** One delivery *)

Section working_network.
Context (growcap : nat -> nat -> nat) (choice : nat -> nat)
        (wr : N -> list bytes -> bytes -> write_result).
(** Every write to an open connection succeeds. *)
Hypothesis wr_ok : forall k out d, wr k out d = WOk.

Lemma upd_ok s k c f : sv_objs s !! k = Some c -> upd k f s = Some (set_objs s (<[k := f c]> (sv_objs s)), tt).
Proof.
  intros Hc. unfold upd, modify. do 2 f_equal. f_equal. apply map_eq. intros j.
  destruct (decide (k = j)) as [<-|].
  - by rewrite lookup_alter_eq, lookup_insert_eq, Hc.
  - by rewrite lookup_alter_ne, lookup_insert_ne.
Qed.

Lemma net_write_ok s k c d : sv_objs s !! k = Some c -> c_nc c = NcOpen ->
  net_write wr k d s =
  Some (set_objs s (<[k := with_out c (c_outMsgs c) (c_outBytes c) (c_out c ++ [d])]> (sv_objs s)), WOk).
Proof.
  intros Hc Hn. unfold net_write, obj, mbind, M_bind. rewrite Hc, decide_True, wr_ok by done.
  rewrite bool_decide_true by done. unfold when. by rewrite (upd_ok _ _ c).
Qed.

(** The receiver after a delivery. *)
Definition with_msg (c : client) (mh msg : bytes) : client :=
  with_out c (c_outMsgs c + 1) (c_outBytes c + (Z.of_nat (length msg) - LEN_CR_LF)) (c_out c ++ [mh; msg]).

Lemma deliver_now_ok s cid to c mh msg : sv_objs s !! to = Some c -> c_nc c = NcOpen ->
  deliver_now growcap wr cid to mh msg s =
  Some (set_objs (set_stats s (sv_outMsgs s + 1) (sv_outBytes s + (Z.of_nat (length msg) - LEN_CR_LF)) (sv_slowConsumers s))
    (alter (fun x => with_pcd x ({[to]} ∪ c_pcd x)) cid (<[to := with_msg c mh msg]> (sv_objs s))), tt).
Proof.
  intros Hc Hn. unfold deliver_now, obj, mbind, M_bind. rewrite Hc, decide_False by congruence.
  rewrite (upd_ok _ _ c) by done. unfold modify, write_msg, mbind, M_bind.
  erewrite net_write_ok; [|apply lookup_insert_eq|done]. rewrite decide_False by (intros Hne; by apply Hne).
  erewrite net_write_ok; [|apply lookup_insert_eq|done]. rewrite decide_False by (intros Hne; by apply Hne).
  simpl. unfold upd, modify. simpl. do 3 f_equal. rewrite !insert_insert_eq. do 2 f_equal.
  unfold with_msg, with_out. simpl. by rewrite <- app_assoc.
Qed.

Lemma deliverMsg_ok s cid sub hdr msg :
  reachable s sub -> exists s', deliverMsg growcap wr cid sub (hdr sub) msg s = Some (s', tt) /\
    delivered hdr msg [sub] s s' /\ sv_tick s' = sv_tick s.
Proof.
  intros [Hl (k & c & Hk & Hc & Hn)]. unfold deliverMsg. rewrite Hk.
  unfold counts, gets, set_sub_counts, modify, obj, mbind, M_bind. simpl. rewrite Hc.
  unfold limit in Hl. rewrite decide_False by lia. erewrite deliver_now_ok by done.
  eexists. split; [done|]. split; [|done]. split; [|intros sub'|done..].
  - intros j x Hx. cbn [sv_objs set_objs set_stats set_counts]. rewrite sent_one, Hk.
    destruct (decide (k = j)) as [<-|Hne].
    + destruct (decide (cid = k)) as [->|]; simplify_map_eq;
        (eexists; split_and!; [done|by repeat split|by rewrite ?decide_True]).
    + destruct (decide (cid = j)) as [->|]; simplify_map_eq;
        (eexists; split_and!; [done|by repeat split|by rewrite ?decide_False, app_nil_r by congruence]).
  - unfold limit, received, copies. simpl. rewrite filter_cons. case_decide as Hp.
    + rewrite Hp, lookup_insert_eq. simpl. lia.
    + rewrite lookup_insert_ne by done. simpl. split; [done|lia].
Qed.

(** ** The plain subscriptions *)

Definition sub_obj (s : server) (sub : subscription) : option client :=
  cid ← sub_client sub; sv_objs s !! cid.

(** The remote server behind a subscription, when a message can go there. *)
Definition remote_of (s : server) (sub : subscription) : option bytes :=
  c ← sub_obj s sub; r ← c_route c;
  if decide (c_nc c = NcNil \/ rt_remoteID r = []) then None else Some (rt_remoteID r).

Definition is_local (s : server) (sub : subscription) : bool :=
  match sub_obj s sub with Some c => bool_decide (c_typ c <> ROUTER) | None => false end.

(** The subscriptions that the loop over the plain ones serves. *)
Fixpoint plain_targets (s : server) (isRoute : bool) (rmap : gset bytes) (subs : list subscription)
  : list subscription :=
  match subs with
  | [] => []
  | sub :: subs' =>
      if is_local s sub then sub :: plain_targets s isRoute rmap subs'
      else match (if isRoute then None else remote_of s sub) with
           | Some id =>
               if decide (id ∈ rmap) then plain_targets s isRoute rmap subs'
               else sub :: plain_targets s isRoute ({[id]} ∪ rmap) subs'
           | None => plain_targets s isRoute rmap subs'
           end
  end.

Lemma sub_obj_delivered hdr msg l s s' sub c :
  delivered hdr msg l s s' -> sub_obj s sub = Some c ->
  exists c', sub_obj s' sub = Some c' /\ same_session c c'.
Proof.
  unfold sub_obj. intros Hd (k & Hk & Hc)%bind_Some.
  destruct (d_objs _ _ _ _ _ Hd k c Hc) as (c' & Hc' & ? & _). exists c'. by rewrite Hk.
Qed.

Lemma plain_targets_stable hdr msg l s s' isRoute subs : delivered hdr msg l s s' ->
  Forall (fun sub => is_Some (sub_obj s sub)) subs ->
  forall rmap, plain_targets s' isRoute rmap subs = plain_targets s isRoute rmap subs.
Proof.
  intros Hd Hsubs. induction Hsubs as [|sub subs [c Hc] _ IH]; intros rmap; [done|]. simpl.
  destruct (sub_obj_delivered _ _ _ _ _ _ _ Hd Hc) as (c' & Hc' & (Ht & Hn & Hr & _)).
  assert (is_local s' sub = is_local s sub) as -> by (unfold is_local; by rewrite Hc, Hc', Ht).
  assert (remote_of s' sub = remote_of s sub) as ->
    by (unfold remote_of; rewrite Hc, Hc'; simpl; by rewrite Hr, Hn).
  rewrite IH. repeat case_match; by rewrite ?IH.
Qed.

Lemma deliver_psubs_ok cid isRoute p msgh msg subs : forall s rmap,
  let hdr := msgHeader p msgh in
  Forall (fun sub => is_Some (sub_obj s sub)) subs ->
  Forall (reachable s) (plain_targets s isRoute rmap subs) ->
  exists s', deliver_psubs growcap wr cid isRoute p msgh msg rmap subs s = Some (s', tt) /\
    delivered hdr msg (plain_targets s isRoute rmap subs) s s' /\ sv_tick s' = sv_tick s.
Proof.
  intros s rmap hdr Hsubs. revert s rmap Hsubs.
  induction subs as [|sub subs IH]; intros s rmap Hsubs Hr.
  { exists s. split_and!; [done|apply delivered_nil|done]. }
  apply Forall_cons in Hsubs as [[c Hc] Hsubs]. simpl in Hr |- *.
  pose proof Hc as (k & Hk & Ho)%bind_Some. unfold mbind, M_bind, lift, obj. rewrite Hk. simpl. rewrite Ho.
  assert (Hgo : forall rmap', Forall (reachable s) (sub :: plain_targets s isRoute rmap' subs) ->
    exists s', (deliverMsg growcap wr cid sub (hdr sub) msg ;;
                deliver_psubs growcap wr cid isRoute p msgh msg rmap' subs) s = Some (s', tt) /\
      delivered hdr msg (sub :: plain_targets s isRoute rmap' subs) s s' /\ sv_tick s' = sv_tick s).
  { intros rmap' [H1 H2]%Forall_cons. destruct (deliverMsg_ok s cid sub hdr msg H1) as (s1 & E1 & D1 & T1).
    pose proof (plain_targets_stable _ _ _ _ _ isRoute subs D1 Hsubs rmap') as Est.
    destruct (IH s1 rmap') as (s2 & E2 & D2 & T2).
    - eapply Forall_impl; [exact Hsubs|]. intros x [cx Hx].
      destruct (sub_obj_delivered _ _ _ _ _ _ _ D1 Hx) as (? & -> & _). eauto.
    - rewrite Est. eapply Forall_impl; [exact H2|]. intros x. by apply (delivered_reachable _ _ _ _ _ _ D1).
    - exists s2. unfold mbind, M_bind. rewrite E1, E2. rewrite Est in D2.
      split_and!; [done|by eapply (delivered_app _ _ [sub])|congruence]. }
  unfold is_local, remote_of in *. rewrite Hc in *. simpl in *.
  destruct (decide (c_typ c = ROUTER)) as [Ht|Ht].
  - rewrite bool_decide_false in * by tauto. destruct isRoute; [by apply IH|].
    destruct (c_route c) as [r|]; simpl in *; [|by apply IH].
    destruct (decide (c_nc c = NcNil \/ rt_remoteID r = [])); [by apply IH|].
    destruct (decide (rt_remoteID r ∈ rmap)); [by apply IH|]. by apply Hgo.
  - rewrite bool_decide_true in * by done. by apply Hgo.
Qed.

(** ** The queue groups *)

(** The members that the loop over the groups picks. *)
Fixpoint queue_picks (h : heap) (tick : nat) (qs : list slice) : list subscription :=
  match qs with
  | [] => []
  | g :: qs' =>
      option_list (mjoin (elems h g !! (choice tick mod s_len g))) ++ queue_picks h (S tick) qs'
  end.

Lemma deliver_qsubs_ok cid p msgh msg qs : forall s,
  let hdr := msgHeader p msgh in
  Forall (fun g => 0 < s_len g) qs ->
  Forall (reachable s) (queue_picks (sl_heap (sv_sl s)) (sv_tick s) qs) ->
  exists s', deliver_qsubs growcap choice wr cid p msgh msg qs s = Some (s', tt) /\
    delivered hdr msg (queue_picks (sl_heap (sv_sl s)) (sv_tick s) qs) s s'.
Proof.
  intros s hdr Hqs. revert s. induction Hqs as [|g qs Hg _ IH]; intros s Hr.
  { exists s. split; [done|apply delivered_nil]. }
  simpl in Hr |- *. unfold mbind, M_bind, toss, gets. simpl. rewrite decide_False by lia.
  set (s0 := set_tick s (S (sv_tick s))). assert (D0 : delivered hdr msg [] s s0) by apply delivered_tick.
  apply Forall_app in Hr as [Hr1 Hr2].
  destruct (mjoin (elems (sl_heap (sv_sl s)) g !! (choice (sv_tick s) mod s_len g))) as [sub|]; simpl in *.
  - apply Forall_cons in Hr1 as [Hr1 _]. destruct (deliverMsg_ok s0 cid sub hdr msg Hr1) as (s1 & E1 & D1 & T1).
    unfold hdr in E1. rewrite E1. pose proof (d_sl _ _ _ _ _ D1) as Esl. destruct (IH s1) as (s2 & E2 & D2).
    + rewrite Esl, T1. simpl. eapply Forall_impl; [exact Hr2|]. intros x. apply (delivered_reachable _ _ _ _ _ _ D1).
    + exists s2. split; [done|]. rewrite Esl, T1 in D2. apply (delivered_app _ _ [sub] _ _ s1); [|done].
      by apply (delivered_app _ _ [] _ _ s0).
  - destruct (IH s0 Hr2) as (s1 & E1 & D1). exists s1. split; [done|]. by apply (delivered_app _ _ [] _ _ s0).
Qed.

End working_network.

(** ** What the targets are *)

(** The remote servers that the subscriptions stand for. *)
Definition routed (s : server) (l : list subscription) : list bytes :=
  omap (fun sub => if is_local s sub then None else remote_of s sub) l.

Lemma plain_targets_local s isRoute subs : forall rmap,
  filter (is_local s) (plain_targets s isRoute rmap subs) = filter (is_local s) subs.
Proof.
  induction subs as [|sub subs IH]; intros rmap; [done|]. simpl. rewrite filter_cons.
  destruct (is_local s sub) eqn:E.
  - rewrite filter_cons, E. simpl. by rewrite IH.
  - simpl. repeat case_match; rewrite ?filter_cons, ?E; simpl; apply IH.
Qed.

Lemma plain_targets_Forall s isRoute subs (P : subscription -> Prop) : Forall P subs ->
  forall rmap, Forall P (plain_targets s isRoute rmap subs).
Proof.
  induction 1 as [|x l Hx _ IH]; intros rmap; simpl; [constructor|]. repeat case_match; auto.
Qed.

Lemma plain_targets_one_hop s subs rmap : plain_targets s true rmap subs = filter (is_local s) subs.
Proof.
  induction subs as [|sub subs IH]; [done|]. simpl. rewrite filter_cons.
  destruct (is_local s sub) eqn:E; simpl; by rewrite IH.
Qed.

Lemma plain_targets_routed s subs : forall rmap,
  let l := plain_targets s false rmap subs in
  NoDup (routed s l) /\ length l = length (filter (is_local s) subs) + length (routed s l) /\
  forall id, id ∈ routed s l <-> id ∈ routed s subs /\ id ∉ rmap.
Proof.
  induction subs as [|sub subs IH]; intros rmap.
  { simpl. split_and!; [constructor|done|]. set_solver. }
  simpl. destruct (is_local s sub) eqn:E; simpl.
  - rewrite E, filter_cons, E. simpl. destruct (IH rmap) as (H1 & H2 & H3). split_and!; [done|lia|done].
  - rewrite filter_cons, E. simpl. destruct (remote_of s sub) as [id|] eqn:Er; [|apply IH].
    case_decide as Hin.
    + destruct (IH rmap) as (H1 & H2 & H3). split_and!; [done..|]. set_solver.
    + simpl. rewrite E, Er. simpl. destruct (IH ({[id]} ∪ rmap)) as (H1 & H2 & H3). split_and!.
      * constructor; [|done]. rewrite H3. set_solver.
      * lia.
      * intros x. destruct (decide (x = id)); set_solver.
Qed.

Lemma queue_picks_members choice h qs : Forall (solid h) qs -> forall tick,
  Forall2 (fun sub g => sub ∈ g) (queue_picks choice h tick qs) (members h <$> qs).
Proof.
  induction 1 as [|g qs Hg _ IH]; intros tick; [constructor|]. simpl.
  destruct (lookup_lt_is_Some_2 (members h g) (choice tick mod s_len g)) as [sub E].
  { rewrite members_length by done. apply Nat.mod_upper_bound. destruct Hg. lia. }
  rewrite members_elems, list_lookup_fmap, E by done. simpl.
  constructor; [by eapply list_elem_of_lookup_2|apply IH].
Qed.

(** There are groups exactly when there are queue subscriptions. *)
Lemma groups_nil h qs m : Forall (solid h) qs -> concat (members h <$> qs) ≡ₚ m -> (qs = [] <-> m = []).
Proof.
  intros Hs Hc. split; [intros ->; by apply Permutation_nil_l in Hc|]. intros ->. apply Permutation_nil_r in Hc.
  destruct Hs as [|g qs Hg _]; [done|]. cbn in Hc. apply app_eq_nil in Hc as [Hc _].
  apply (f_equal length) in Hc. rewrite members_length in Hc by done. destruct Hg. cbn in Hc. lia.
Qed.

(** ** From the publication to the loops *)

(** What the checks and the lookup of [processMsg] leave as it is. *)
Definition view (c : client) := (c_typ c, c_nc c, c_route c, c_opts c).

(** Every connection is as it was, but for what it was [told] meanwhile. *)
Record alike (told : N -> list bytes) (s s' : server) : Prop := {
  al_counts : sv_counts s' = sv_counts s;
  al_clients : sv_clients s' = sv_clients s;
  al_view : forall k, view <$> sv_objs s' !! k = view <$> sv_objs s !! k;
  al_subs : forall k, c_subs <$> sv_objs s' !! k = c_subs <$> sv_objs s !! k;
  al_out : forall k c c', sv_objs s !! k = Some c -> sv_objs s' !! k = Some c' -> c_out c' = c_out c ++ told k;
}.

Lemma view_eq c c' : view c' = view c ->
  c_typ c' = c_typ c /\ c_nc c' = c_nc c /\ c_route c' = c_route c /\ c_opts c' = c_opts c.
Proof. unfold view. by intros [= -> -> -> ->]. Qed.

Section alike.
Context (told : N -> list bytes).
Abbreviation alike := (alike told).

Lemma alike_obj s s' k c : alike s s' -> sv_objs s !! k = Some c ->
  exists c', sv_objs s' !! k = Some c' /\ view c' = view c.
Proof.
  intros Ha Hc. pose proof (al_view _ _ _ Ha k) as E. rewrite Hc in E. simpl in E.
  destruct (sv_objs s' !! k) as [c'|]; [|done]. apply (inj Some) in E. by exists c'.
Qed.

Lemma alike_sub s s' sub : alike s s' -> view <$> sub_obj s' sub = view <$> sub_obj s sub.
Proof. intros Ha. unfold sub_obj. destruct (sub_client sub); [apply (al_view _ _ _ Ha)|done]. Qed.

Lemma alike_local s s' sub : alike s s' -> is_local s' sub = is_local s sub.
Proof.
  intros Ha. pose proof (alike_sub _ _ sub Ha) as E. unfold is_local.
  destruct (sub_obj s' sub), (sub_obj s sub); try done. apply (inj Some) in E. by destruct (view_eq _ _ E) as (-> & _).
Qed.

Lemma alike_remote s s' sub : alike s s' -> remote_of s' sub = remote_of s sub.
Proof.
  intros Ha. pose proof (alike_sub _ _ sub Ha) as E. unfold remote_of.
  destruct (sub_obj s' sub), (sub_obj s sub); try done. apply (inj Some) in E. destruct (view_eq _ _ E) as (_ & Hn & Hr & _). simpl. by rewrite Hn, Hr.
Qed.

Lemma alike_routed s s' l : alike s s' -> routed s' l = routed s l.
Proof.
  intros Ha. induction l as [|x l IH]; [done|]. unfold routed in *. simpl.
  rewrite (alike_local s s'), (alike_remote s s') by done. case_match; [apply (f_equal (cons _))|]; exact IH.
Qed.

Lemma alike_filter s s' (l : list subscription) : alike s s' -> filter (is_local s') l = filter (is_local s) l.
Proof. intros Ha. apply list_filter_iff. intros x. by rewrite (alike_local s s'). Qed.

Lemma alike_reachable s s' sub : alike s s' -> reachable s sub -> reachable s' sub.
Proof.
  intros Ha [Hl (k & c & Hk & Hc & Hn)]. split; [unfold limit in *; by rewrite (al_counts _ _ _ Ha)|].
  destruct (alike_obj _ _ _ _ Ha Hc) as (c' & Hc' & E). exists k, c'. split_and!; [done..|].
  destruct (view_eq _ _ E) as (_ & -> & _). done.
Qed.

Lemma alike_queue_sub s s' rsid : alike s s' -> routeSidQueueSubscriber s' rsid = routeSidQueueSubscriber s rsid.
Proof.
  intros Ha. unfold routeSidQueueSubscriber. case_decide; [|done].
  destruct (find_qrsid rsid) as [[d sid]|]; [|done]. rewrite (al_clients _ _ _ Ha). case_decide; [|done].
  pose proof (al_subs _ _ _ Ha (Z.to_N (wrapu64 (parseInt64 d)))) as E.
  destruct (sv_objs s' !! _), (sv_objs s !! _); try done. simpl in E. by injection E as ->.
Qed.
End alike.

Section publication.
Context (growcap : nat -> nat -> nat) (choice : nat -> nat)
        (wr : N -> list bytes -> bytes -> write_result) (fmt_q : bytes -> bytes).

(** The connection may publish on the subject. *)
Definition granted (c : client) (subject : bytes) : Prop :=
  sys_subject subject = false /\
  match c_perms c with
  | None => True
  | Some pm =>
      perm_pcache pm !! subject = Some true \/
      perm_pcache pm !! subject = None /\ exists live, contract (perm_pub pm) live /\ plains (interested live subject) <> []
  end.

(** A publisher that nothing holds back, with no result in a cache. *)
Record publisher (s : server) (c : client) (p : pubArg) : Prop := {
  pub_granted : granted c (pa_subject p);
  pub_valid : o_pedantic (c_opts c) = true -> IsValidLiteralSubject (pa_subject p) = true;
  pub_closed : closed_literal (pa_subject p) = true;
  pub_miss : rc_genid (c_cache c) = sl_genid (sv_sl s) ->
    rc_results (c_cache c) ≫= (.!! pa_subject p) = None;
  pub_cache : sl_cache (sv_sl s) !! pa_subject p = None;
}.

(** What a verbose connection is told before its message goes out. *)
Definition acked (c : client) : list bytes :=
  if o_verbose (c_opts c) && bool_decide (c_nc c = NcOpen) then [bs "+OK" ++ crlf] else [].
Definition told_ok (cid : N) (c : client) (k : N) : list bytes := if decide (k = cid) then acked c else [].

Lemma closed_nonempty subject : closed_literal subject = true -> subject <> [].
Proof. intros H ->. by vm_compute in H. Qed.

Lemma run_obj s k c : sv_objs s !! k = Some c -> obj k s = Some (s, c).
Proof. unfold obj. by intros ->. Qed.

Lemma Prune_miss {V} (subject : bytes) n : forall ks (m : gmap bytes V), m !! subject = None -> Prune n ks m !! subject = None.
Proof.
  induction n as [|n IH]; intros ks m Hm; [done|]. destruct ks as [|k ks]; [done|]. apply IH.
  destruct (decide (k = subject)) as [->|]; [apply lookup_delete_eq|by rewrite lookup_delete_ne].
Qed.

(** A cache with as much as another on the subject of a publication. *)
Definition less_cached (subject : bytes) (k k' : readCache) : Prop :=
  rc_genid k' = rc_genid k /\ (rc_results k ≫= (.!! subject) = None -> rc_results k' ≫= (.!! subject) = None).

Lemma prune_perms_less s cid c subject : sv_objs s !! cid = Some c ->
  exists n cache, prune_perms choice cid s = Some (set_objs (set_tick s n) (<[cid := with_cache c cache]> (sv_objs s)), tt) /\
    less_cached subject (c_cache c) cache.
Proof.
  intros Hc. assert (Hid : Some (s, tt) = Some (set_objs (set_tick s (sv_tick s)) (<[cid := with_cache c (c_cache c)]> (sv_objs s)), tt)).
  { rewrite insert_id; [by destruct s|]. rewrite Hc. by destruct c. }
  unfold prune_perms. erewrite run_bind by (by apply run_obj). destruct (c_perms c) as [pm|]; [|by eexists _, _; split; [exact Hid|]].
  case_decide; [|by eexists _, _; split; [exact Hid|]]. erewrite run_bind by reflexivity. cbv zeta.
  rewrite (upd_ok _ _ c) by exact Hc. eexists _, _. split; [reflexivity|]. split; [done|]. cbn.
  destruct (rc_results (c_cache c)) as [m|]; [|done]. apply Prune_miss.
Qed.

Lemma pub_check_granted s cid c subject : sv_objs s !! cid = Some c -> granted c subject -> closed_literal subject = true ->
  exists n pm cache, pub_check growcap choice wr fmt_q cid subject s =
    Some (set_objs (set_tick s n) (<[cid := with_cache (with_perms c pm) cache]> (sv_objs s)), true) /\
    less_cached subject (c_cache c) cache.
Proof.
  intros Hc [Hsys Hg] Hcl. unfold pub_check, pub_allowed. rewrite Hsys. erewrite run_bind by (by apply run_obj).
  assert (Hid : Some (s, true) = Some (set_objs (set_tick s (sv_tick s)) (<[cid := with_cache (with_perms c (c_perms c)) (c_cache c)]> (sv_objs s)), true)).
  { rewrite insert_id; [by destruct s|]. rewrite Hc. by destruct c. }
  destruct (c_perms c) as [pm|] eqn:Ep; [|by eexists _, _, _; split; [exact Hid|]].
  destruct Hg as [-> |(-> & live & Hcon & Hne)]; [by eexists _, _, _; split; [exact Hid|]|].
  destruct (Match_contract growcap (choice (sv_tick s)) _ live subject Hcon Hcl) as (sl & r & Em & _ & Hr & _).
  erewrite run_bind by (unfold perm_match; erewrite run_bind by reflexivity; by rewrite Em). cbv beta iota zeta.
  rewrite bool_decide_true. 2: { intros E%length_zero_iff_nil. rewrite E in Hr. by apply Permutation_nil_l in Hr. }
  cbn [negb when]. erewrite run_bind by reflexivity. erewrite run_bind by (by apply upd_ok).
  match goal with |- context [set_objs _ (<[cid := ?x]> _)] => set (c1 := x) end. set (s1 := set_objs _ _).
  destruct (prune_perms_less s1 cid c1 subject) as (n & cache & E & Hl); [apply lookup_insert_eq|].
  erewrite run_bind by exact E. eexists n, _, cache. split; [|exact Hl]. cbn [sv_objs s1 set_objs]. by rewrite insert_insert_eq.
Qed.

Lemma cached_match_miss s cid c subject sl r :
  sv_objs s !! cid = Some c ->
  (rc_genid (c_cache c) = sl_genid (sv_sl s) -> rc_results (c_cache c) ≫= (.!! subject) = None) ->
  Match growcap (choice (sv_tick s)) (sv_sl s) subject = Some (sl, r) ->
  exists cache n, cached_match growcap choice cid subject s =
    Some (set_objs (set_tick (set_sl s sl) n) (<[cid := with_cache c cache]> (sv_objs s)), r).
Proof.
  intros Hc Hmiss Em. unfold cached_match. rewrite (run_bind _ _ _ _ _ (run_obj _ _ _ Hc)).
  erewrite run_bind by reflexivity. cbv zeta.
  set (hit := if decide _ then rc_results (c_cache c) else None).
  assert (hit ≫= (.!! subject) = None) as -> by (unfold hit; case_decide; auto).
  erewrite run_bind by (unfold sl_match; erewrite run_bind by reflexivity; unfold sl_match_at; simpl; by rewrite Em).
  erewrite run_bind by reflexivity. erewrite run_bind by (apply (upd_ok _ _ c); exact Hc).
  do 2 eexists. reflexivity.
Qed.

(** Every write to an open connection succeeds. *)
Hypothesis wr_ok : forall k out d, wr k out d = WOk.

Lemma sendOK_acked s cid c : sv_objs s !! cid = Some c ->
  exists pcd, when (o_verbose (c_opts c)) (sendOK wr cid) s =
    Some (set_objs s (<[cid := with_pcd (with_out c (c_outMsgs c) (c_outBytes c) (c_out c ++ acked c)) pcd]> (sv_objs s)), tt).
Proof.
  intros Hc. assert (Hid : acked c = [] -> s = set_objs s (<[cid := with_pcd (with_out c (c_outMsgs c) (c_outBytes c) (c_out c ++ acked c)) (c_pcd c)]> (sv_objs s))).
  { intros ->. rewrite app_nil_r, insert_id; [by destruct s|]. rewrite Hc. by destruct c. }
  unfold acked in *. destruct (o_verbose (c_opts c)); cbn [when andb] in *; [|exists (c_pcd c); by rewrite <- Hid].
  unfold sendOK, sendProto. destruct (decide (c_nc c = NcNil)) as [Hn|Hn]; [|destruct (decide (c_nc c = NcOpen)) as [Ho|Ho]].
  - rewrite bool_decide_false in * by congruence. erewrite run_bind by (erewrite run_bind by (by apply run_obj); by rewrite decide_True).
    rewrite (upd_ok _ _ c) by done. eexists. rewrite app_nil_r. by destruct c.
  - rewrite bool_decide_true by done. erewrite run_bind.
    2: { erewrite run_bind by (by apply run_obj). rewrite decide_False by done. erewrite run_bind by (by apply net_write_ok). reflexivity. }
    erewrite upd_ok by apply lookup_insert_eq. eexists. cbn [sv_objs set_objs]. by rewrite insert_insert_eq.
  - rewrite bool_decide_false in * by congruence. erewrite run_bind.
    2: { erewrite run_bind by (by apply run_obj). rewrite decide_False by done.
         unfold net_write. erewrite run_bind; [reflexivity|]. erewrite run_bind by (by apply run_obj). by rewrite decide_False. }
    rewrite (upd_ok _ _ c) by done. eexists. rewrite app_nil_r. by destruct c.
Qed.

Lemma processMsg_lookup s cid c p msg live :
  sv_objs s !! cid = Some c -> publisher s c p -> contract (sv_sl s) live ->
  exists s' r, processMsg growcap choice wr fmt_q cid p msg s = fan_out growcap choice wr cid p msg r s' /\
    alike (told_ok cid c) s s' /\
    r_psubs r ≡ₚ plains (interested live (pa_subject p)) /\ Forall (solid (sl_heap (sv_sl s'))) (r_qsubs r) /\
    named (members (sl_heap (sv_sl s')) <$> r_qsubs r) /\
    concat (members (sl_heap (sv_sl s')) <$> r_qsubs r) ≡ₚ queued (interested live (pa_subject p)).
Proof.
  intros Hc [H1 H3 H5 H6 H7] Hcon. unfold processMsg. erewrite run_bind by (by apply upd_ok).
  rewrite decide_False by (by apply closed_nonempty).
  match goal with |- context [set_objs s (<[cid := ?x]> _)] => set (c1 := x) end. set (s1 := set_objs s _).
  destruct (pub_check_granted s1 cid c1 (pa_subject p)) as (n & pm & k2 & E2 & Hg2 & Hl2); [apply lookup_insert_eq|done..|].
  erewrite run_bind by exact E2. cbn [negb sv_objs s1 set_objs]. rewrite insert_insert_eq.
  set (c2 := with_cache _ k2). set (s2 := set_objs _ _). assert (Hc2 : sv_objs s2 !! cid = Some c2) by apply lookup_insert_eq.
  erewrite run_bind by (by apply run_obj). destruct (sendOK_acked s2 cid c2 Hc2) as (pcd & E3). erewrite run_bind by exact E3.
  cbn [sv_objs s2 set_objs]. rewrite insert_insert_eq. set (c3 := with_pcd _ _). set (s3 := set_objs _ _).
  destruct (Match_contract growcap (choice (sv_tick s3)) _ live (pa_subject p) Hcon H5) as (sl & r & Em & _ & Hp & Hs & Hq).
  destruct (Hq H7) as [Hn Hcat].
  destruct (cached_match_miss s3 cid c3 (pa_subject p) sl r) as (cache & n' & E4); [apply lookup_insert_eq| |exact Em|].
  { cbn in Hg2 |- *. rewrite Hg2. intros Eg. apply Hl2. by apply H6. }
  erewrite run_bind by exact E4. do 2 eexists. split_and!; [done| |done..].
  cbn [sv_objs s3 set_objs]. rewrite insert_insert_eq. split; [done|done|..]; cbn [sv_objs set_objs];
    [intros k; destruct (decide (cid = k)) as [<-|]; [by rewrite lookup_insert_eq, Hc|by rewrite lookup_insert_ne]..|].
  intros k x x' Hx. unfold told_ok. destruct (decide (cid = k)) as [<-|].
  - rewrite lookup_insert_eq. intros [= <-]. rewrite Hc in Hx. injection Hx as <-. by rewrite decide_True.
  - rewrite lookup_insert_ne, decide_False by done. rewrite Hx. intros [= <-]. by rewrite app_nil_r.
Qed.

Definition msg_header (p : pubArg) : subscription -> bytes := msgHeader p (bs "MSG " ++ pa_subject p ++ bs " ").

Lemma fan_out_client s cid c p msg r :
  sv_objs s !! cid = Some c -> c_typ c <> ROUTER ->
  (o_pedantic (c_opts c) = true -> IsValidLiteralSubject (pa_subject p) = true) ->
  Forall (reachable s) (r_psubs r) -> Forall (fun g => 0 < s_len g) (r_qsubs r) ->
  Forall (reachable s) (queue_picks choice (sl_heap (sv_sl s)) (sv_tick s) (r_qsubs r)) ->
  exists s', fan_out growcap choice wr cid p msg r s = Some (s', tt) /\
    delivered (msg_header p) msg
      (plain_targets s false ∅ (r_psubs r) ++ queue_picks choice (sl_heap (sv_sl s)) (sv_tick s) (r_qsubs r)) s s'.
Proof.
  intros Hc Ht Hv Hp Hl Hq. unfold fan_out. erewrite run_bind by (by apply run_obj).
  case_decide as Hemp.
  { destruct Hemp as [E1%length_zero_iff_nil E2%length_zero_iff_nil]. rewrite E1, E2. simpl.
    exists s. split; [done|apply delivered_nil]. }
  assert (o_pedantic (c_opts c) && negb (IsValidLiteralSubject (pa_subject p)) = false) as ->.
  { destruct (o_pedantic (c_opts c)); [rewrite Hv by done|]; done. }
  rewrite bool_decide_false by done. erewrite run_bind by reflexivity.
  destruct (deliver_psubs_ok growcap wr wr_ok cid false p (bs "MSG " ++ pa_subject p ++ bs " ") msg (r_psubs r) s ∅) as (s1 & E1 & D1 & T1).
  { eapply Forall_impl; [exact Hp|]. intros x [_ (k & cx & Hk & Hx & _)]. unfold sub_obj. rewrite Hk. simpl. eauto. }
  { by apply plain_targets_Forall. }
  pose proof (d_sl _ _ _ _ _ D1) as Esl. erewrite run_bind by exact E1. cbn [negb when].
  destruct (deliver_qsubs_ok growcap choice wr wr_ok cid p (bs "MSG " ++ pa_subject p ++ bs " ") msg (r_qsubs r) s1 Hl) as (s2 & E2 & D2).
  { rewrite Esl, T1. eapply Forall_impl; [exact Hq|]. intros x. apply (delivered_reachable _ _ _ _ _ _ D1). }
  rewrite Esl, T1 in D2. exists s2. split; [done|]. by eapply delivered_app.
Qed.

(** Who receives a message from a route, when [m] are the subscriptions that
    match: the queue member that its sid names, nobody when that is gone, and
    otherwise the plain subscriptions of the clients of this server. *)
Definition route_targets (s : server) (p : pubArg) (m : list subscription) : list subscription :=
  match routeSidQueueSubscriber s (default [] (pa_sid p)) with
  | Some (Some sub) => if decide (m = []) then [] else [sub]
  | Some None => []
  | None => filter (is_local s) (plains m)
  end.

Lemma plains_queued_nil m : plains m = [] -> queued m = [] -> m = [].
Proof.
  intros Hp Hq. destruct m as [|x m]; [done|]. unfold plains, queued in *. rewrite filter_cons in Hp, Hq.
  by destruct (is_plain x).
Qed.

Lemma fan_out_route s cid c p msg r m :
  sv_objs s !! cid = Some c -> c_typ c = ROUTER ->
  (o_pedantic (c_opts c) = true -> IsValidLiteralSubject (pa_subject p) = true) ->
  r_psubs r ≡ₚ plains m -> (r_qsubs r = [] <-> queued m = []) ->
  (forall sub, routeSidQueueSubscriber s (default [] (pa_sid p)) = Some (Some sub) -> reachable s sub) ->
  Forall (reachable s) (r_psubs r) ->
  exists s' ts, fan_out growcap choice wr cid p msg r s = Some (s', tt) /\ ts ≡ₚ route_targets s p m /\
    delivered (msg_header p) msg ts s s'.
Proof.
  intros Hc Ht Hv Hm Hqm Hs Hp. unfold fan_out, route_targets. erewrite run_bind by (by apply run_obj).
  case_decide as Hemp.
  { destruct Hemp as [E1%length_zero_iff_nil E2%length_zero_iff_nil]. rewrite E1 in Hm. apply Permutation_nil_l in Hm.
    exists s, []. split; [done|]. split; [|apply delivered_nil].
    assert (m = []) as -> by (apply plains_queued_nil; [done|by apply Hqm]). repeat case_match; done. }
  assert (o_pedantic (c_opts c) && negb (IsValidLiteralSubject (pa_subject p)) = false) as ->.
  { destruct (o_pedantic (c_opts c)); [rewrite Hv by done|]; done. }
  rewrite bool_decide_true by done. erewrite run_bind by reflexivity.
  destruct (routeSidQueueSubscriber s (default [] (pa_sid p))) as [[sub|]|].
  - destruct (deliverMsg_ok growcap wr wr_ok s cid sub (msg_header p) msg) as (s1 & E1 & D1 & _); [by apply Hs|].
    exists s1, [sub]. split; [exact E1|]. split; [|done]. rewrite decide_False; [done|]. intros ->. apply Hemp.
    rewrite (proj2 Hqm), Hm by done. done.
  - exists s, []. split; [done|]. split; [done|apply delivered_nil].
  - destruct (deliver_psubs_ok growcap wr wr_ok cid true p (bs "MSG " ++ pa_subject p ++ bs " ") msg (r_psubs r) s ∅) as (s1 & E1 & D1 & T1).
    { eapply Forall_impl; [exact Hp|]. intros x [_ (k & cx & Hk & Hx & _)]. unfold sub_obj. rewrite Hk. simpl. eauto. }
    { by apply plain_targets_Forall. }
    erewrite run_bind by exact E1. cbn [negb when]. rewrite plain_targets_one_hop in D1. eexists s1, _. split; [done|]. split; [|exact D1].
    by rewrite Hm.
Qed.
End publication.

(** ** The limit of a subscription *)

(** Telling the routes: no other connection and no other state changes. *)
Record routes_only (s s' : server) : Prop := {
  ro_objs : forall k, k ∉ sv_routes s -> sv_objs s' !! k = sv_objs s !! k;
  ro_dom : forall k, is_Some (sv_objs s !! k) -> is_Some (sv_objs s' !! k);
  ro_routes : sv_routes s' = sv_routes s;
  ro_sl : sv_sl s' = sv_sl s;
  ro_counts : sv_counts s' = sv_counts s;
}.

Lemma routes_only_refl s : routes_only s s.
Proof. by split. Qed.

Lemma routes_only_trans s1 s2 s3 : routes_only s1 s2 -> routes_only s2 s3 -> routes_only s1 s3.
Proof.
  intros [A1 B1 C1 D1 E1] [A2 B2 C2 D2 E2]. split; [|auto|congruence..].
  intros k Hk. rewrite A2, A1; congruence.
Qed.

Section limits.
Context (growcap : nat -> nat -> nat) (wr : N -> list bytes -> bytes -> write_result).

Lemma upd_routes_only s k f : k ∈ sv_routes s ->
  routes_only s (set_objs s (alter f k (sv_objs s))).
Proof.
  intros Hk. split; simpl; try done.
  - intros j Hj. apply lookup_alter_ne. set_solver.
  - intros j. by rewrite lookup_alter_is_Some.
Qed.

Lemma sendProto_routes_only s r proto : r ∈ sv_routes s -> is_Some (sv_objs s !! r) ->
  exists s' b, sendProto wr r proto s = Some (s', b) /\ routes_only s s'.
Proof.
  intros Hr [c Hc]. unfold sendProto. erewrite run_bind by (by apply run_obj).
  case_decide; [eexists _, _; split; [done|apply routes_only_refl]|].
  unfold net_write, mbind, M_bind. rewrite (run_obj _ _ _ Hc).
  case_decide; [|eexists _, _; split; [done|apply routes_only_refl]].
  destruct (bool_decide (wr r (c_out c) proto = WOk)); simpl;
    (eexists _, _; split; [done|]); [by apply upd_routes_only|apply routes_only_refl].
Qed.

Lemma broadcast_routes_only proto rs : forall s,
  (forall r, r ∈ rs -> r ∈ sv_routes s /\ is_Some (sv_objs s !! r)) ->
  exists s', forM rs (fun r => sendProto wr r proto;; mret tt) s = Some (s', tt) /\ routes_only s s'.
Proof.
  induction rs as [|r rs IH]; intros s Hrs; [exists s; split; [done|apply routes_only_refl]|].
  destruct (Hrs r) as [Hr Ho]; [left|].
  destruct (sendProto_routes_only s r proto Hr Ho) as (s1 & b & E1 & R1).
  destruct (IH s1) as (s2 & E2 & R2).
  { intros r' Hr'. destruct (Hrs r') as [? ?]; [by right|]. rewrite (ro_routes _ _ R1).
    split; [done|by apply (ro_dom _ _ R1)]. }
  exists s2. split; [|by eapply routes_only_trans]. simpl.
  erewrite run_bind; [exact E2|]. by erewrite run_bind.
Qed.

(** Every route that the server knows is an object. *)
Definition routes_ok (s : server) : Prop := forall r, r ∈ sv_routes s -> is_Some (sv_objs s !! r).

Lemma broadcastUnSubscribe_only s sub : routes_ok s -> is_Some (sub_client sub) ->
  exists s', broadcastUnSubscribe wr sub s = Some (s', tt) /\ routes_only s s'.
Proof.
  intros Hr [k Hk]. unfold broadcastUnSubscribe. erewrite run_bind by reflexivity.
  case_decide; [exists s; split; [done|apply routes_only_refl]|].
  assert (exists rsid, routeSid sub = Some rsid) as [rsid Ers] by (unfold routeSid; rewrite Hk; eauto).
  rewrite Ers. erewrite run_bind by reflexivity. erewrite run_bind by reflexivity.
  destruct (default _ _) as [nm max]. unfold broadcastInterestToRoutes. erewrite run_bind by reflexivity.
  apply broadcast_routes_only. intros r Hin%elem_of_elements. auto.
Qed.

(** A subscription with a limit, on a working connection [to] that is not a
    route: it has seen [nm] messages, and [to] was sent [out]. *)
Record limited (s : server) (to : N) (sub : subscription) (nm max : Z)
    (live : list subscription) (out : list bytes) : Prop := {
  li_client : sub_client sub = Some to;
  li_conn : exists c, sv_objs s !! to = Some c /\ c_nc c = NcOpen /\ c_out c = out /\
    (max <= nm -> c_subs c !! sub_sid sub = None)%Z;
  li_counts : received s sub = nm /\ limit s sub = max;
  li_to : to ∉ sv_routes s;
  li_routes : routes_ok s;
  li_sl : contract (sv_sl s) live;
}.

Lemma limited_routes_only s s' to sub nm max live out :
  routes_only s s' -> limited s to sub nm max live out -> limited s' to sub nm max live out.
Proof.
  intros [A B C D E] [H1 (c & Hc & H2) [H3 H4] H5 H6 H7]. split; [done| |split|by rewrite C| |by rewrite D].
  - exists c. by rewrite A.
  - unfold received. by rewrite E.
  - unfold limit. by rewrite E.
  - intros r. rewrite C. auto.
Qed.

Lemma unsubscribe_limited s to sub nm max live out :
  (max <= nm)%Z -> subject_ok (sub_subject sub) = true ->
  sub_client sub = Some to ->
  (exists c, sv_objs s !! to = Some c /\ c_nc c = NcOpen /\ c_out c = out) ->
  received s sub = nm /\ limit s sub = max -> to ∉ sv_routes s -> routes_ok s -> contract (sv_sl s) live ->
  exists s', unsubscribe growcap to sub s = Some (s', tt) /\ limited s' to sub nm max (remove_one sub live) out.
Proof.
  intros Hmax Hok Hcl (c & Hc & Hn & Ho) [H1 H2] Hto Hr Hsl. unfold received, limit in H1, H2.
  destruct (Remove_contract growcap _ live sub Hsl Hok) as (sl & e & Er & _ & Hsl').
  unfold unsubscribe. erewrite run_bind by reflexivity.
  destruct (default _ _) as [nm' max'] eqn:Ed; simpl in H1, H2; subst nm' max'.
  rewrite decide_False by lia. erewrite run_bind by (by apply upd_ok).
  erewrite run_bind by (unfold sl_remove; simpl; by rewrite Er).
  eexists. split; [done|]. split; [done| | |done| |done].
  - eexists. simpl. rewrite lookup_insert_eq. split_and!; [done..|]. intros _. simpl. apply lookup_delete_eq.
  - unfold received, limit. simpl. by rewrite Ed.
  - intros r Hin. simpl. destruct (decide (to = r)) as [<-|]; [rewrite lookup_insert_eq; eauto|].
    rewrite lookup_insert_ne by done. by apply Hr.
Qed.

(** Every write to an open connection succeeds. *)
Hypothesis wr_ok : forall k out d, wr k out d = WOk.

(** A message that is still within the limit is written. *)
Lemma deliver_now_limited s cid to sub nm max live out mh msg :
  (nm < max)%Z -> limited s to sub nm max live out ->
  let s1 := set_counts s (<[sub_ptr sub := ((nm + 1)%Z, max)]> (sv_counts s)) in
  exists s', deliver_now growcap wr cid to mh msg s1 = Some (s', tt) /\
    (exists c, sv_objs s' !! to = Some c /\ c_nc c = NcOpen /\ c_out c = out ++ [mh; msg]) /\
    (received s' sub = (nm + 1)%Z /\ limit s' sub = max) /\
    sv_routes s' = sv_routes s /\ routes_ok s' /\ sv_sl s' = sv_sl s.
Proof.
  intros Hlt [H1 (c & Hc & Hn & Ho & _) _ H4 H5 H6] s1.
  rewrite (deliver_now_ok growcap wr wr_ok s1 cid to c) by done.
  eexists. split; [done|]. split; [|split; [|split_and!; [done| |done]]].
  - simpl. destruct (decide (cid = to)) as [->|Hne].
    + eexists. rewrite lookup_alter_eq, lookup_insert_eq. simpl. split_and!; [done..|simpl; by rewrite Ho].
    + eexists. rewrite lookup_alter_ne, lookup_insert_eq by done. split_and!; [done..|simpl; by rewrite Ho].
  - unfold received, limit. simpl. by rewrite lookup_insert_eq.
  - intros r Hin. simpl. rewrite lookup_alter_is_Some.
    destruct (decide (to = r)) as [<-|]; [by rewrite lookup_insert_eq|].
    rewrite lookup_insert_ne by done. by apply H5.
Qed.

Lemma deliverMsg_limited s cid to sub nm max live out mh msg :
  (0 < max)%Z -> subject_ok (sub_subject sub) = true ->
  limited s to sub nm max live out ->
  exists s', deliverMsg growcap wr cid sub mh msg s = Some (s', tt) /\
    limited s' to sub (nm + 1) max (if decide (nm + 1 < max)%Z then live else remove_one sub live)
      (if decide (nm < max)%Z then out ++ [mh; msg] else out).
Proof.
  intros Hmax Hok Hli. pose proof Hli as [H1 (c & Hc & Hn & Ho & Hsub) [H2 H3] H4 H5 H6].
  unfold deliverMsg. rewrite H1. erewrite run_bind by reflexivity. cbv zeta.
  fold (received s sub) (limit s sub). rewrite H2, H3. erewrite run_bind by reflexivity.
  set (s1 := set_counts s _). erewrite run_bind by (by apply run_obj). rewrite decide_True by done.
  assert (Hun : forall s2 out', (max <= nm + 1)%Z ->
    (exists c, sv_objs s2 !! to = Some c /\ c_nc c = NcOpen /\ c_out c = out') ->
    received s2 sub = (nm + 1)%Z /\ limit s2 sub = max -> to ∉ sv_routes s2 -> routes_ok s2 -> contract (sv_sl s2) live ->
    exists s', (unsubscribe growcap to sub;; when (bool_decide (c_typ c <> ROUTER)) (broadcastUnSubscribe wr sub)) s2 = Some (s', tt) /\
      limited s' to sub (nm + 1) max (remove_one sub live) out').
  { intros s2 out' Hge A B C D E.
    destruct (unsubscribe_limited s2 to sub (nm + 1) max live out' Hge Hok H1 A B C D E) as (s3 & E3 & L3).
    erewrite run_bind by exact E3. destruct (bool_decide _); [|by exists s3].
    destruct (broadcastUnSubscribe_only s3 sub) as (s4 & E4 & R4); [apply L3|by rewrite H1|].
    exists s4. split; [done|by eapply limited_routes_only]. }
  assert (Hk1 : received s1 sub = (nm + 1)%Z /\ limit s1 sub = max).
  { unfold received, limit. simpl. by rewrite lookup_insert_eq. }
  destruct (decide (nm < max)%Z) as [Hlt|Hge].
  - destruct (deliver_now_limited s cid to sub nm max live out mh msg Hlt Hli) as (s2 & E2 & A & B & C & D & E).
    destruct (decide (nm + 1 = max)%Z) as [Heq|Hne].
    + rewrite decide_False by lia. erewrite run_bind by exact E2. apply Hun; [lia|done|done|by rewrite C|done|by rewrite E].
    + rewrite decide_False, decide_True by lia. exists s2. split; [done|]. destruct A as (c2 & ? & ? & ?).
      split; [done| |done|by rewrite C|done|by rewrite E]. exists c2. split_and!; [done..|lia].
  - rewrite decide_False, decide_True, decide_False by lia. apply Hun; [lia|eauto|done..].
Qed.

(** A series of messages. *)
Lemma deliver_series cid to sub max live ms :
  (0 < max)%Z -> subject_ok (sub_subject sub) = true -> sub ∉ remove_one sub live ->
  forall s nm out, (0 <= nm)%Z ->
  limited s to sub nm max (if decide (nm < max)%Z then live else remove_one sub live) out ->
  exists s', forM ms (fun m => deliverMsg growcap wr cid sub m.1 m.2) s = Some (s', tt) /\
    limited s' to sub (nm + Z.of_nat (length ms)) max
      (if decide (nm + Z.of_nat (length ms) < max)%Z then live else remove_one sub live)
      (out ++ concat ((fun m => [m.1; m.2]) <$> take (Z.to_nat (max - nm)) ms)).
Proof.
  intros Hmax Hok Hone. induction ms as [|[mh msg] ms IH]; intros s nm out Hnm Hli.
  { exists s. split; [done|]. simpl. by rewrite take_nil, Z.add_0_r, app_nil_r. }
  destruct (deliverMsg_limited s cid to sub nm max _ out mh msg Hmax Hok Hli) as (s1 & E1 & L1).
  destruct (IH s1 (nm + 1)%Z (if decide (nm < max)%Z then out ++ [mh; msg] else out)) as (s2 & E2 & L2); [lia|..].
  { destruct (decide (nm + 1 < max)%Z); [by rewrite decide_True in L1 by lia|].
    destruct (decide (nm < max)%Z); [done|].
    destruct (remove_one_spec sub (remove_one sub live)) as [[? _]|[_ E]]; [done|by rewrite E in L1]. }
  exists s2. split; [simpl; by erewrite run_bind|].
  replace (nm + Z.of_nat (length ((mh, msg) :: ms)))%Z with (nm + 1 + Z.of_nat (length ms))%Z by (simpl; lia).
  destruct (decide (nm < max)%Z).
  - replace (Z.to_nat (max - nm)) with (S (Z.to_nat (max - (nm + 1)))) by lia. simpl.
    by rewrite <- app_assoc in L2.
  - replace (Z.to_nat (max - (nm + 1))) with 0 in L2 by lia. by replace (Z.to_nat (max - nm)) with 0 by lia.
Qed.
End limits.

(** ** A publication that is refused *)

(** Only the connection [cid] changes. *)
Record self_only (cid : N) (s s' : server) : Prop := {
  so_objs : forall k, k <> cid -> sv_objs s' !! k = sv_objs s !! k;
  so_self : is_Some (sv_objs s !! cid) -> is_Some (sv_objs s' !! cid);
  so_sl : sv_sl s' = sv_sl s;
  so_counts : sv_counts s' = sv_counts s;
  so_maps : sv_clients s' = sv_clients s /\ sv_routes s' = sv_routes s /\ sv_remotes s' = sv_remotes s;
}.

Lemma self_only_refl cid s : self_only cid s s.
Proof. by split. Qed.

Lemma self_only_trans cid s1 s2 s3 : self_only cid s1 s2 -> self_only cid s2 s3 -> self_only cid s1 s3.
Proof.
  intros [A1 B1 C1 D1 (? & ? & ?)] [A2 B2 C2 D2 (? & ? & ?)]. split; [|auto|congruence|congruence|split_and!; congruence].
  intros k Hk. by rewrite A2, A1.
Qed.

Lemma self_only_upd cid s f : self_only cid s (set_objs s (alter f cid (sv_objs s))).
Proof. split; simpl; [|by rewrite lookup_alter_is_Some|done..]. intros k Hk. by apply lookup_alter_ne. Qed.

Section refused.
Context (growcap : nat -> nat -> nat) (choice : nat -> nat)
        (wr : N -> list bytes -> bytes -> write_result) (fmt_q : bytes -> bytes).

Lemma sendErr_self s cid e c : sv_objs s !! cid = Some c ->
  exists s' c', sendErr wr cid e s = Some (s', tt) /\ self_only cid s s' /\
    sv_objs s' !! cid = Some c' /\ c_perms c' = c_perms c /\ c_subs c' = c_subs c.
Proof.
  intros Hc. unfold sendErr, sendProto, net_write, mbind, M_bind. rewrite (run_obj _ _ _ Hc).
  destruct (decide (c_nc c = NcNil)); [exists s, c; split_and!; [done|apply self_only_refl|done..]|].
  rewrite (run_obj _ _ _ Hc). destruct (decide (c_nc c = NcOpen)); [|exists s, c; split_and!; [done|apply self_only_refl|done..]].
  destruct (bool_decide _); simpl; [|exists s, c; split_and!; [done|apply self_only_refl|done..]].
  eexists _, _. split_and!; [done|apply self_only_upd|simpl; by rewrite lookup_alter_eq, Hc|done..].
Qed.

(** The permissions of [c] do not let it publish on the subject. *)
Definition denied (c : client) (subject : bytes) : Prop :=
  exists pm, c_perms c = Some pm /\
    (perm_pcache pm !! subject = Some false \/
     perm_pcache pm !! subject = None /\ closed_literal subject = true /\
     exists live, contract (perm_pub pm) live /\ plains (interested live subject) = []).

Lemma pub_allowed_denied s cid c subject :
  sv_objs s !! cid = Some c -> denied c subject ->
  exists s', pub_allowed growcap choice wr fmt_q cid subject s = Some (s', false) /\ self_only cid s s' /\
    exists pm, c_perms <$> sv_objs s' !! cid = Some (Some pm) /\ perm_pcache pm !! subject = Some false.
Proof.
  intros Hc (pm & Hp & Hd). unfold pub_allowed. erewrite run_bind by (by apply run_obj). rewrite Hp.
  destruct Hd as [Hd|(Hd & Hcl & live & Hcon & Hno)]; rewrite Hd.
  { edestruct (sendErr_self s cid (bs "Permissions Violation for Publish to " ++ fmt_q subject)) as (s1 & c1 & E1 & S1 & Hc1 & P1 & _); [done|].
    exists s1. split_and!; [|done|].
    - unfold pubPermissionViolation. by erewrite run_bind.
    - exists pm. rewrite Hc1. simpl. by rewrite P1, Hp. }
  destruct (Match_contract growcap (choice (sv_tick s)) _ live subject Hcon Hcl) as (sl & r & Em & _ & Hr & _).
  rewrite Hno in Hr. apply Permutation_nil_r in Hr. set (s0 := set_tick s (S (sv_tick s))).
  assert (Hpm : perm_match growcap choice (perm_pub pm) subject s = Some (s0, (sl, r))).
  { unfold perm_match. erewrite run_bind by reflexivity. by rewrite Em. }
  erewrite run_bind by exact Hpm. cbv beta iota zeta. rewrite Hr. cbn [length]. rewrite bool_decide_false by (intros Hne; by apply Hne). cbn [negb when].
  edestruct (sendErr_self s0 cid (bs "Permissions Violation for Publish to " ++ fmt_q subject)) as (s1 & c1 & E1 & S1 & Hc1 & _); [done|].
  erewrite run_bind by exact E1.
  erewrite run_bind by (by apply upd_ok). set (pm' := Permissions _ _ _). set (s2 := set_objs s1 _).
  assert (S2 : self_only cid s s2).
  { apply (self_only_trans _ _ s0); [by split|]. eapply self_only_trans; [exact S1|].
    split; simpl; [|by rewrite lookup_insert_eq|done..]. intros k Hk. by apply lookup_insert_ne. }
  assert (Hc2 : sv_objs s2 !! cid = Some (with_perms c1 (Some pm'))) by (simpl; apply lookup_insert_eq).
  assert (Hpr : exists s3, prune_perms choice cid s2 = Some (s3, tt) /\ self_only cid s2 s3 /\
    c_perms <$> sv_objs s3 !! cid = Some (Some pm')).
  { unfold prune_perms. erewrite run_bind by (by apply run_obj). cbn [c_perms with_perms].
    case_decide; [|exists s2; split_and!; [done|apply self_only_refl|by rewrite Hc2]].
    erewrite run_bind by reflexivity. eexists. split_and!; [reflexivity| |].
    - apply (self_only_trans _ _ (set_tick s2 (S (sv_tick s2)))); [by split|apply self_only_upd].
    - cbn [sv_objs set_objs set_tick]. by rewrite lookup_alter_eq, Hc2. }
  destruct Hpr as (s3 & E3 & S3 & P3). erewrite run_bind by exact E3. exists s3.
  split_and!; [done|by eapply self_only_trans|]. exists pm'. split; [done|]. simpl. apply lookup_insert_eq.
Qed.
End refused.


(** ** An example *)

Definition ex_conn (typ : Z) (rt : option route) : client :=
  Client typ (ClientOpts false true [] [] [] [] [] 1) NcOpen 1048576 ∅ None
    (ReadCache 0 None 0 0 0) ∅ TNone 0 rt 0 0 0 [].

(** Connection 1 publishes, 2 is a client, 3 and 4 are routes to two servers. *)
Definition ex_live_ops : list sl_op :=
  [OpInsert (Subscription 1 (Some 2%N) (bs "foo.*") None (bs "1"));
   OpInsert (Subscription 2 (Some 3%N) (bs "foo.bar") None (bs "RSID:7:1"));
   OpInsert (Subscription 3 (Some 3%N) (bs "foo.>") None (bs "RSID:7:2"));
   OpInsert (Subscription 4 (Some 2%N) (bs "foo.bar") (Some (bs "q")) (bs "2"));
   OpInsert (Subscription 5 (Some 4%N) (bs "*.bar") (Some (bs "q")) (bs "QRSID:9:4"))].

Definition ex_sl : Sublist := default NewSublist (sl_run go_growcap NewSublist ex_live_ops).

Definition ex_route (id : string) : option route := Some (ex_accepted (bs id)).

Definition ex_server : server :=
  Server (bs "A") true 1024 2
    (<[1%N := ex_conn CLIENT None]> (<[2%N := ex_conn CLIENT None]>
      (<[3%N := ex_conn ROUTER (ex_route "B")]> (<[4%N := ex_conn ROUTER (ex_route "C")]> ∅))))
    {[1%N; 2%N]} {[3%N; 4%N]} (<[bs "B" := 3%N]> (<[bs "C" := 4%N]> ∅)) ex_sl
    (<[1%N := (0, 2)%Z]> ∅) 6 0 0 0 0 [] 0 no_routing.

Definition ex_pub : pubArg := PubArg (bs "foo.bar") None None (bs "2") 2.

Lemma ex_contract : contract ex_sl (spec_run ex_live_ops).
Proof.
  destruct (sl_run_contract go_growcap ex_live_ops _ _ contract_new eq_refl) as (sl & E & Hc).
  unfold ex_sl. by rewrite E.
Qed.

(** ** Properties *)


(** A verbose publisher with the permission to publish on [foo.*]. *)
Definition ex_perm_sl : Sublist := default NewSublist (sl_run go_growcap NewSublist [OpInsert (Subscription 0 None (bs "foo.*") None [])]).
Definition ex_verbose : client :=
  with_perms (with_opts (ex_conn CLIENT None) (ClientOpts true true [] [] [] [] [] 1)) (Some (Permissions NewSublist ex_perm_sl ∅)).

Lemma ex_perm_contract : contract ex_perm_sl [Subscription 0 None (bs "foo.*") None []].
Proof.
  destruct (sl_run_contract go_growcap [OpInsert (Subscription 0 None (bs "foo.*") None [])] _ _ contract_new eq_refl) as (sl & E & Hc).
  unfold ex_perm_sl. by rewrite E.
Qed.


(** C29. One hop between servers: a message that comes from a route, on a
    subject in no cache and allowed to it, goes to nobody that is not on this
    server's list.  When its sid names a queue subscription of a client, that
    member alone receives it, if anything matches the subject; when that
    client or subscription is gone, nobody does; otherwise the plain
    subscriptions of the clients of this server that match receive it, once
    each, and no route and no queue group does. *)
Theorem route_publish_one_hop growcap choice wr fmt_q s cid c p msg live
  (Hwr : forall k out d, wr k out d = WOk) (Hc : sv_objs s !! cid = Some c) (Htyp : c_typ c = ROUTER)
  (Hpub : publisher s c p)
  (Hsid : forall sub, routeSidQueueSubscriber s (default [] (pa_sid p)) = Some (Some sub) -> reachable s sub)
  (Hsl : contract (sv_sl s) live) (Hsubs : Forall (reachable s) (interested live (pa_subject p))) :
  exists s' ts,
    processMsg growcap choice wr fmt_q cid p msg s = Some (s', tt) /\
    ts ≡ₚ route_targets s p (interested live (pa_subject p)) /\
    (forall k x, sv_objs s !! k = Some x -> exists x', sv_objs s' !! k = Some x' /\
       c_out x' = c_out x ++ told_ok cid c k ++ sent (msg_header p) msg k ts) /\
    (forall sub, received s' sub = received s sub + copies sub ts)%Z.
Proof.
  destruct (processMsg_lookup growcap choice wr fmt_q Hwr s cid c p msg live Hc Hpub Hsl)
    as (s1 & r & E & Ha & Hps & Hsolid & _ & Hcat).
  destruct (alike_obj _ _ _ _ _ Ha Hc) as (c1 & Hc1 & (Et & _ & _ & Eo)%view_eq).
  destruct (fan_out_route growcap choice wr Hwr s1 cid c1 p msg r (interested live (pa_subject p))) as (s' & ts & Ef & Ets & Hd); [done|congruence|..].
  - rewrite Eo. apply Hpub.
  - done.
  - by eapply groups_nil.
  - intros sub Hsub. rewrite (alike_queue_sub _ s) in Hsub by done. eapply alike_reachable; [done|auto].
  - rewrite Hps. apply Forall_forall. intros x [_ Hx]%list_elem_of_filter.
    rewrite Forall_forall in Hsubs. eapply alike_reachable; [done|auto].
  - exists s', ts. split_and!; [by rewrite E| |..].
    + rewrite Ets. unfold route_targets. by rewrite (alike_queue_sub _ s), (alike_filter _ s s1) by done.
    + intros k x Hx. destruct (alike_obj _ _ _ _ _ Ha Hx) as (x1 & Hx1 & _).
      destruct (d_objs _ _ _ _ _ Hd k x1 Hx1) as (x' & ? & _ & Ho). exists x'. split; [done|].
      by rewrite Ho, (al_out _ _ _ Ha k x x1), app_assoc.
    + intros sub. destruct (d_counts _ _ _ _ _ Hd sub) as [_ ->]. unfold received.
      by rewrite (al_counts _ _ _ Ha).
Qed.

(** The sid names the queue subscription of client 2: it alone is sent the
    message, although a plain subscription matches too. *)
Lemma route_publish_one_hop_witness :
  let q := Subscription 4 (Some 2%N) (bs "foo.bar") (Some (bs "q")) (bs "2") in
  let s := set_objs (set_counts ex_server ∅) (alter (fun c => with_subs c {[bs "2" := q]}) 2%N (sv_objs ex_server)) in
  let p := PubArg (bs "foo.bar") None (Some (bs "QRSID:2:2")) (bs "2") 2 in
  exists s',
    processMsg go_growcap id (fun _ _ _ => WOk) id 3 p (bs "ok" ++ crlf) s = Some (s', tt) /\
    (forall k x, sv_objs s !! k = Some x -> exists x', sv_objs s' !! k = Some x' /\
       c_out x' = c_out x ++ sent (msg_header p) (bs "ok" ++ crlf) k [q]).
Proof.
  intros q s p.
  destruct (route_publish_one_hop go_growcap id (fun _ _ _ => WOk) id s 3 (ex_conn ROUTER (ex_route "B")) p (bs "ok" ++ crlf)
    (spec_run ex_live_ops)) as (s' & ts & E & Hts & Ho & _); [done|by vm_compute|done| | |apply ex_contract| |].
  - split; [by split; vm_compute|by vm_compute..].
  - intros sub. vm_compute routeSidQueueSubscriber. intros [= <-]. split; [by vm_compute|]. eexists _, _. split_and!; by vm_compute.
  - vm_compute interested. repeat constructor; vm_compute; try done; do 2 eexists; split_and!; reflexivity.
  - exists s'. split; [exact E|]. assert (ts = [q]) as ->; [|intros k x Hx; destruct (Ho k x Hx) as (x' & H1 & H2); exists x'; split; [done|]].
    { apply Permutation_singleton_r. etrans; [exact Hts|]. by vm_compute. }
    rewrite H2. unfold told_ok. by case_decide.
Defined.

(** C28. The limit of UNSUB is exact: of a series of messages for a
    subscription with a limit [max] that has seen [nm], its connection is
    sent exactly the first [max - nm]; at the limit the subscription leaves
    its connection and the sublist, and no message after that reaches it. *)
Theorem auto_unsubscribe_exact growcap wr s cid to sub nm max live out ms
  (Hwr : forall k out d, wr k out d = WOk) (Hmax : (0 <= nm < max)%Z)
  (Hsub : subject_ok (sub_subject sub) = true) (Hone : sub ∉ remove_one sub live)
  (Hli : limited s to sub nm max live out) :
  let left := Z.to_nat (max - nm) in
  exists s' c, forM ms (fun m => deliverMsg growcap wr cid sub m.1 m.2) s = Some (s', tt) /\
    sv_objs s' !! to = Some c /\ c_out c = out ++ concat ((fun m => [m.1; m.2]) <$> take left ms) /\
    contract (sv_sl s') (if decide (length ms < left) then live else remove_one sub live) /\
    (left <= length ms -> c_subs c !! sub_sid sub = None).
Proof.
  destruct (deliver_series growcap wr Hwr cid to sub max live ms ltac:(lia) Hsub Hone s nm out ltac:(lia))
    as (s' & E & [_ (c & Hc & _ & Ho & Hs) _ _ _ Hsl]).
  { by rewrite decide_True by lia. }
  exists s', c. split_and!; [done..| |].
  - case_decide; case_decide; (lia || done).
  - intros Hlen. apply Hs. lia.
Qed.

Lemma auto_unsubscribe_exact_witness :
  let sub := Subscription 1 (Some 2%N) (bs "foo.*") None (bs "1") in
  let ms := [(bs "h1", bs "m1"); (bs "h2", bs "m2"); (bs "h3", bs "m3")] in
  exists s' c, forM ms (fun m => deliverMsg go_growcap (fun _ _ _ => WOk) 1 sub m.1 m.2) ex_server = Some (s', tt) /\
    sv_objs s' !! 2%N = Some c /\ c_out c = [bs "h1"; bs "m1"; bs "h2"; bs "m2"] /\
    contract (sv_sl s') (remove_one sub (spec_run ex_live_ops)) /\
    (2 <= 3 -> c_subs c !! bs "1" = None).
Proof.
  intros sub ms. apply (auto_unsubscribe_exact go_growcap (fun _ _ _ => WOk) ex_server 1 2 sub 0 2 (spec_run ex_live_ops) [] ms);
    [done|lia|by vm_compute|by vm_compute; set_solver|].
  split; [done| |by vm_compute|by vm_compute| |apply ex_contract].
  - exists (ex_conn CLIENT None). by vm_compute.
  - intros r Hr. assert (r = 3%N \/ r = 4%N) as [-> | ->] by (simpl in Hr; set_solver); vm_compute; eauto.
Defined.

(** What a client may not publish reaches nobody: on a subject that is
    reserved for the system, or that its permissions do not allow, whatever
    the network does, [processMsg] returns, and the only thing that changes
    is the connection of the publisher itself. *)
Theorem publish_refused growcap choice wr fmt_q s cid c p msg
  (Hc : sv_objs s !! cid = Some c) (Hne : pa_subject p <> [])
  (Hno : sys_subject (pa_subject p) = true \/ denied c (pa_subject p)) :
  exists s', processMsg growcap choice wr fmt_q cid p msg s = Some (s', tt) /\ self_only cid s s'.
Proof.
  unfold processMsg. erewrite run_bind by (by apply upd_ok). rewrite decide_False by done.
  match goal with |- context [set_objs s (<[cid := ?x]> _)] => set (c1 := x) end. set (s1 := set_objs s _).
  assert (S1 : self_only cid s s1).
  { split; simpl; [|by rewrite lookup_insert_eq|done..]. intros k Hk. by apply lookup_insert_ne. }
  assert (Hc1 : sv_objs s1 !! cid = Some c1) by apply lookup_insert_eq.
  unfold pub_check. destruct (sys_subject (pa_subject p)) eqn:Esys.
  { edestruct (sendErr_self wr s1 cid (bs "Permissions Violation for Publish to " ++ fmt_q (pa_subject p))) as (s2 & c2 & E2 & S2 & _); [done|].
    exists s2. split; [|by eapply self_only_trans]. unfold pubPermissionViolation. erewrite run_bind; [|by erewrite run_bind by exact E2]. done. }
  destruct Hno as [|Hno]; [done|].
  destruct (pub_allowed_denied growcap choice wr fmt_q s1 cid c1 (pa_subject p) Hc1 Hno) as (s2 & E2 & S2 & _).
  exists s2. split; [erewrite run_bind by exact E2; done|by eapply self_only_trans].
Qed.

Lemma publish_refused_witness :
  let p := PubArg (bs "_SYS.stats") None None (bs "2") 2 in
  exists s', processMsg go_growcap id (fun _ _ _ => WErr) id 1 p (bs "ok" ++ crlf) ex_server = Some (s', tt) /\
    self_only 1 ex_server s'.
Proof.
  intros p. apply (publish_refused go_growcap id (fun _ _ _ => WErr) id ex_server 1 (ex_conn CLIENT None) p);
    [by vm_compute|done|left; by vm_compute].
Defined.
