(* ===== verification/Protocol.v ===== *)
(** * Protocol: the arguments of the operations

    What the argument lines of PUB, MSG, SUB and UNSUB mean
    ([splitArg], [processPub], [processMsgArgs], [processSub], [processUnsub]
    of [src/server/client.go]), and the sids by which two servers of a
    cluster name a subscription ([routeSid], [routeSidQueueSubscriber] of
    [src/server/route.go]). *)

From S2P Require Import Prelude Util Subject Sublist SublistSpec SublistContract Parser Client Delivery.

(** ** Tokens *)

Definition is_token (t : bytes) : Prop := t <> [] /\ Forall (fun b => is_space b = false) t.
Definition is_blanks (t : bytes) : Prop := Forall (fun b => is_space b = true) t.

(** A line: every token after the space before it, then the space at the end. *)
Definition line (toks : list (bytes * bytes)) (trail : bytes) : bytes :=
  concat ((fun x => x.1 ++ x.2) <$> toks) ++ trail.

(** Tokens are apart: only the first can have no space before it. *)
Definition apart (toks : list (bytes * bytes)) : Prop :=
  Forall (fun x => is_blanks x.1 /\ is_token x.2) toks /\ Forall (fun x => x.1 <> []) (tail toks).

Lemma splitArg_loop_token t : Forall (fun b => is_space b = false) t -> forall args a rest,
  splitArg_loop args (Some a) (t ++ rest) = splitArg_loop args (Some (a ++ t)) rest.
Proof.
  induction 1 as [|b t Hb _ IH]; intros args a rest; simpl; [by rewrite app_nil_r|].
  rewrite Hb, IH. by rewrite <- app_assoc.
Qed.

Lemma splitArg_loop_start t args rest : is_token t ->
  splitArg_loop args None (t ++ rest) = splitArg_loop args (Some t) rest.
Proof.
  intros [Hne Ht]. destruct Ht as [|b t Hb Ht]; [done|]. simpl. rewrite Hb.
  by rewrite splitArg_loop_token.
Qed.

Lemma splitArg_loop_blanks t : is_blanks t -> forall args rest,
  splitArg_loop args None (t ++ rest) = splitArg_loop args None rest.
Proof. induction 1 as [|b t Hb _ IH]; intros args rest; simpl; [done|]. by rewrite Hb. Qed.

Lemma splitArg_loop_end t args a rest : is_blanks t -> t <> [] ->
  splitArg_loop args (Some a) (t ++ rest) = splitArg_loop (args ++ [a]) None rest.
Proof.
  intros Ht Hne. destruct Ht as [|b t Hb Ht]; [done|]. simpl. rewrite Hb. by apply splitArg_loop_blanks.
Qed.

Lemma splitArg_loop_line toks : forall args a trail,
  Forall (fun x => is_blanks x.1 /\ is_token x.2) toks -> Forall (fun x => x.1 <> []) toks -> is_blanks trail ->
  splitArg_loop args (Some a) (line toks trail) = args ++ a :: (snd <$> toks).
Proof.
  unfold line. induction toks as [|[sp t] toks IH]; intros args a trail Hok Hne Htr; simpl.
  - destruct trail as [|b l]; [done|]. rewrite <- (app_nil_r (b :: l)), splitArg_loop_end by done. done.
  - apply Forall_cons in Hok as [[Hsp Ht] Hok]. apply Forall_cons in Hne as [Hn Hne]. simpl in *.
    rewrite <- !app_assoc, splitArg_loop_end, splitArg_loop_start by done.
    rewrite IH by done. by rewrite <- app_assoc.
Qed.

Lemma splitArg_line toks trail : apart toks -> is_blanks trail -> splitArg (line toks trail) = snd <$> toks.
Proof.
  intros [Hok Hne] Htr. unfold splitArg, line. destruct toks as [|[sp t] toks]; simpl.
  - rewrite <- (app_nil_r trail). by rewrite splitArg_loop_blanks.
  - apply Forall_cons in Hok as [[Hsp Ht] Hok]. simpl in *.
    rewrite <- !app_assoc, splitArg_loop_blanks, splitArg_loop_start by done.
    change (concat _ ++ trail) with (line toks trail). by rewrite splitArg_loop_line.
Qed.

Lemma splitArg_loop_sound arg : forall args cur,
  Forall is_token args -> (forall a, cur = Some a -> is_token a) ->
  Forall is_token (splitArg_loop args cur arg) /\
  concat (splitArg_loop args cur arg) =
    concat args ++ default [] cur ++ filter (fun b => is_space b = false) arg.
Proof.
  induction arg as [|b arg IH]; intros args cur Ha Hc; simpl.
  { destruct cur as [a|]; simpl; [|by rewrite app_nil_r]. rewrite concat_app. simpl.
    split; [apply Forall_app_2; auto|done]. }
  rewrite filter_cons. destruct (is_space b) eqn:Eb; simpl; destruct cur as [a|]; simpl.
  - destruct (IH (args ++ [a]) None) as [H1 H2]; [apply Forall_app_2; auto|done|]. split; [done|].
    rewrite H2, concat_app. simpl. by rewrite app_nil_r, <- app_assoc.
  - by apply IH.
  - destruct (IH args (Some (a ++ [b]))) as [H1 H2]; [done| |].
    { intros x [= <-]. destruct (Hc a eq_refl) as [? ?]. split; [by destruct a|apply Forall_app_2; auto]. }
    split; [done|]. rewrite H2. simpl. by rewrite <- !app_assoc.
  - destruct (IH args (Some [b])) as [H1 H2]; [done| |].
    { intros x [= <-]. split; [done|auto]. }
    by split.
Qed.

(** ** The names of subscriptions between servers *)

Lemma span_all f l rest : Forall (fun b => f b = true) l ->
  (forall b, head rest = Some b -> f b = false) -> span f (l ++ rest) = (l, rest).
Proof.
  intros Hl Hr. induction Hl as [|b l Hb _ IH]; simpl.
  - destruct rest as [|b rest]; [done|]. simpl. by rewrite (Hr b).
  - by rewrite Hb, IH.
Qed.

Lemma forallb_Forall_true {A} (f : A -> bool) l : forallb f l = true -> Forall (fun b => f b = true) l.
Proof. intros H. apply Forall_forall. intros x Hx. rewrite forallb_forall in H. apply H. by apply list_elem_of_In. Qed.

Lemma digit_not_space b : is_digit b = true -> is_space b = false.
Proof. by destruct b as [[] [] [] [] [] [] [] []]. Qed.

Lemma match_qrsid_ok digits sid : digits <> [] -> sid <> [] ->
  forallb is_digit digits = true -> Forall (fun b => is_ws b = false) sid ->
  match_qrsid (bs "QRSID:" ++ digits ++ bs ":" ++ sid) = Some (digits, sid).
Proof.
  intros Hd Hs Hf Hw. unfold match_qrsid. rewrite decide_True by done.
  change (drop 6 _) with (digits ++ ":"%char :: sid).
  rewrite (span_all is_digit digits (":"%char :: sid)); [|by apply forallb_Forall_true|by intros b [= <-]].
  cbv beta iota. rewrite <- (app_nil_r sid) at 1.
  rewrite span_all by (done || (eapply Forall_impl; [exact Hw|]; by intros b ->)).
  rewrite decide_False by tauto. done.
Qed.

Lemma routeSidQueueSubscriber_ok s n sid : (0 <= n < 2 ^ 63)%Z -> sid <> [] ->
  Forall (fun b => is_ws b = false) sid ->
  routeSidQueueSubscriber s (bs "QRSID:" ++ fmt_d n ++ bs ":" ++ sid) =
  Some (if decide (Z.to_N n ∈ sv_clients s) then sv_objs s !! Z.to_N n ≫= (fun c => c_subs c !! sid) else None).
Proof.
  intros Hn Hs Hw. destruct (fmt_d_ok n ltac:(lia)) as (Hd & _ & Hne).
  unfold routeSidQueueSubscriber. rewrite decide_True by done.
  assert (find_qrsid (bs "QRSID:" ++ fmt_d n ++ bs ":" ++ sid) = Some (fmt_d n, sid)) as ->.
  { pose proof (match_qrsid_ok (fmt_d n) sid Hne Hs Hd Hw) as Hm. revert Hm.
    generalize (fmt_d n ++ bs ":" ++ sid). intros l Hm. simpl. simpl in Hm. by rewrite Hm. }
  rewrite parseInt64_parseSize, parseSize_fmt by done.
  assert (wrapu64 n = n) as -> by (unfold wrapu64; apply Z.mod_small; lia).
  case_decide; [|done]. by destruct (sv_objs s !! Z.to_N n).
Qed.

(** ** Registering interest *)

Section registration.
Context (growcap : nat -> nat -> nat) (choice : nat -> nat)
        (wr : N -> list bytes -> bytes -> write_result) (fmt_q : bytes -> bytes).

Lemma sendOK_self s cid c : sv_objs s !! cid = Some c ->
  exists s' c', sendOK wr cid s = Some (s', tt) /\ self_only cid s s' /\ sv_fresh s' = sv_fresh s /\
    sv_objs s' !! cid = Some c' /\ c_subs c' = c_subs c /\ c_typ c' = c_typ c.
Proof.
  intros Hc. unfold sendOK, sendProto, net_write, mbind, M_bind. rewrite (run_obj _ _ _ Hc).
  assert (Hu : forall f, (forall x, c_subs (f x) = c_subs x /\ c_typ (f x) = c_typ x) -> forall s1,
    self_only cid s s1 -> sv_fresh s1 = sv_fresh s ->
    (exists c1, sv_objs s1 !! cid = Some c1 /\ c_subs c1 = c_subs c /\ c_typ c1 = c_typ c) ->
    exists s' c', upd cid f s1 = Some (s', tt) /\ self_only cid s s' /\ sv_fresh s' = sv_fresh s /\
      sv_objs s' !! cid = Some c' /\ c_subs c' = c_subs c /\ c_typ c' = c_typ c).
  { intros f Hf s1 S1 F1 (c1 & Hc1 & E1 & E2). destruct (Hf c1) as [E3 E4]. eexists _, (f c1).
    split; [done|]. split_and!; [eapply self_only_trans; [exact S1|apply self_only_upd]|done| |congruence..].
    simpl. by rewrite lookup_alter_eq, Hc1. }
  destruct (decide (c_nc c = NcNil)); [apply Hu; eauto using self_only_refl|].
  rewrite (run_obj _ _ _ Hc).
  destruct (decide (c_nc c = NcOpen)); [|apply Hu; eauto using self_only_refl].
  destruct (bool_decide _); simpl; apply Hu; eauto using self_only_refl, self_only_upd.
  eexists. simpl. by rewrite lookup_alter_eq, Hc.
Qed.

(** [broadcastSubscribe], like [broadcastUnSubscribe], only writes to routes. *)
Lemma broadcastSubscribe_only s sub : routes_ok s -> is_Some (sub_client sub) ->
  exists s', broadcastSubscribe wr sub s = Some (s', tt) /\ routes_only s s'.
Proof.
  intros Hr [k Hk]. unfold broadcastSubscribe. erewrite run_bind by reflexivity.
  case_decide; [exists s; split; [done|apply routes_only_refl]|].
  assert (exists rsid, routeSid sub = Some rsid) as [rsid Ers] by (unfold routeSid; rewrite Hk; eauto).
  rewrite Ers. erewrite run_bind by reflexivity. unfold broadcastInterestToRoutes.
  erewrite run_bind by reflexivity. apply broadcast_routes_only. intros r Hin%elem_of_elements. auto.
Qed.

Lemma routes_ok_self cid s s' : self_only cid s s' -> routes_ok s -> is_Some (sv_objs s' !! cid) -> routes_ok s'.
Proof.
  intros S Hr Hc r. destruct (so_maps _ _ _ S) as (_ & -> & _). intros Hin.
  destruct (decide (r = cid)) as [->|Hne]; [done|]. rewrite (so_objs _ _ _ S r Hne). auto.
Qed.

(** The answers after a registration: [+OK] and the routes. *)
Lemma answers_ok s cid c (b : bool) m :
  sv_objs s !! cid = Some c -> routes_ok s -> (b = true -> cid ∉ sv_routes s) ->
  (forall s1, routes_ok s1 -> exists s2, m s1 = Some (s2, tt) /\ routes_only s1 s2) ->
  exists s' c', (when (o_verbose (c_opts c)) (sendOK wr cid);; when b m) s = Some (s', tt) /\
    sv_objs s' !! cid = Some c' /\ c_subs c' = c_subs c /\ sv_sl s' = sv_sl s /\ sv_counts s' = sv_counts s.
Proof.
  intros Hc Hr Hb Hm.
  assert (exists s1 c1, when (o_verbose (c_opts c)) (sendOK wr cid) s = Some (s1, tt) /\ self_only cid s s1 /\
    sv_objs s1 !! cid = Some c1 /\ c_subs c1 = c_subs c) as (s1 & c1 & E1 & S1 & Hc1 & Es).
  { destruct (o_verbose (c_opts c)); [|exists s, c; eauto using self_only_refl].
    destruct (sendOK_self s cid c Hc) as (s1 & c1 & ? & ? & _ & ? & ? & _). eauto 10. }
  erewrite run_bind by exact E1. destruct b.
  - destruct (Hm s1) as (s2 & E2 & R2); [eapply routes_ok_self; eauto|].
    exists s2, c1. split; [done|]. rewrite (ro_objs _ _ R2), (ro_sl _ _ R2), (ro_counts _ _ R2), (so_sl _ _ _ S1), (so_counts _ _ _ S1); [done|].
    destruct (so_maps _ _ _ S1) as (_ & -> & _). auto.
  - exists s1, c1. rewrite (so_sl _ _ _ S1), (so_counts _ _ _ S1). done.
Qed.

Lemma add_sub_ok s cid c sub live :
  sv_objs s !! cid = Some c -> sub_client sub = Some cid -> c_subs c !! sub_sid sub = None ->
  contract (sv_sl s) live -> subject_ok (sub_subject sub) = true -> routes_ok s ->
  (c_typ c <> ROUTER -> cid ∉ sv_routes s) ->
  exists s' c', add_sub growcap wr cid sub s = Some (s', tt) /\ sv_objs s' !! cid = Some c' /\
    c_subs c' = (if insertable false (tokens (sub_subject sub)) then <[sub_sid sub := sub]> (c_subs c) else c_subs c) /\
    contract (sv_sl s') (spec_step live (OpInsert sub)).
Proof.
  intros Hc Hk Hsid Hsl Hok Hr Ht. unfold add_sub. erewrite run_bind by (by apply run_obj). cbv zeta. rewrite Hsid.
  set (s1 := set_objs s (<[cid := with_subs c (<[sub_sid sub := sub]> (c_subs c))]> (sv_objs s))).
  destruct (Insert_contract growcap _ live sub Hsl Hok) as (sl & Ei & Hsl').
  set (s2 := set_sl s1 sl).
  assert (Hi : sl_insert growcap sub s1 = Some (s2,
    if insertable false (tokens (sub_subject sub)) then None else Some ErrInvalidSubject)).
  { unfold sl_insert. simpl. by rewrite Ei. }
  assert (Hc2 : sv_objs s2 !! cid = Some (with_subs c (<[sub_sid sub := sub]> (c_subs c)))) by apply lookup_insert_eq.
  assert (Hr2 : routes_ok s2).
  { intros r Hin. simpl. destruct (decide (cid = r)) as [<-|]; [by rewrite lookup_insert_eq|].
    rewrite lookup_insert_ne by done. by apply Hr. }
  destruct (insertable false (tokens (sub_subject sub))) eqn:Ein.
  - erewrite run_bind; [|erewrite run_bind by (by apply upd_ok); by erewrite run_bind by exact Hi].
    destruct (answers_ok s2 cid _ (bool_decide (c_typ c <> ROUTER)) (broadcastSubscribe wr sub) Hc2 Hr2) as (s3 & c3 & E3 & Hc3 & Es & Esl & _).
    + intros Hb%bool_decide_eq_true_1. by apply Ht.
    + intros s' Hs'. apply broadcastSubscribe_only; [done|by rewrite Hk].
    + exists s3, c3. split_and!; [exact E3|done|by rewrite Es|by rewrite Esl].
  - erewrite run_bind; [|erewrite run_bind by (by apply upd_ok); erewrite run_bind by exact Hi; cbv beta iota;
      by erewrite run_bind by (by apply upd_ok)].
    destruct (sendErr_self wr (set_objs s2 (<[cid := with_subs c (delete (sub_sid sub) (<[sub_sid sub := sub]> (c_subs c)))]> (sv_objs s2))) cid
      (bs "Invalid Subject") _ (lookup_insert_eq _ _ _)) as (s3 & c3 & E3 & S3 & Hc3 & _ & Es).
    exists s3, c3. split_and!; [exact E3|done| |].
    + rewrite Es. simpl. by rewrite delete_insert_id.
    + rewrite (so_sl _ _ _ S3). exact Hsl'.
Qed.
End registration.

(** ** Withdrawing interest *)

Section withdrawal.
Context (growcap : nat -> nat -> nat) (wr : N -> list bytes -> bytes -> write_result).

Lemma unsubscribe_ok s cid c sub live nm max :
  sv_objs s !! cid = Some c -> received s sub = nm -> limit s sub = max ->
  contract (sv_sl s) live -> subject_ok (sub_subject sub) = true ->
  let gone := bool_decide (max <= nm \/ max <= 0)%Z in
  exists s' c', unsubscribe growcap cid sub s = Some (s', tt) /\ sv_objs s' !! cid = Some c' /\
    c_subs c' = (if gone then delete (sub_sid sub) (c_subs c) else c_subs c) /\
    c_typ c' = c_typ c /\ c_opts c' = c_opts c /\
    contract (sv_sl s') (if gone then remove_one sub live else live) /\
    sv_counts s' = sv_counts s /\ sv_routes s' = sv_routes s /\
    (forall k, is_Some (sv_objs s !! k) -> is_Some (sv_objs s' !! k)).
Proof.
  intros Hc Hn Hm Hsl Hok gone. unfold received, limit in *. unfold unsubscribe. erewrite run_bind by reflexivity.
  destruct (default _ _) as [nm' max']; simpl in Hn, Hm; subst nm' max'. unfold gone.
  case_decide.
  - rewrite bool_decide_false by lia. exists s, c. done.
  - rewrite bool_decide_true by lia. erewrite run_bind by (by apply upd_ok).
    destruct (Remove_contract growcap _ live sub Hsl Hok) as (sl & e & Er & _ & Hsl').
    erewrite run_bind by (unfold sl_remove; simpl; by rewrite Er).
    eexists _, _. split_and!; [done|simpl; apply lookup_insert_eq|done..|].
    intros k. simpl. rewrite lookup_insert_is_Some'. tauto.
Qed.

Lemma positive_part m : (if decide (0 < m)%Z then m else 0%Z) = Z.max 0 m.
Proof. case_decide; lia. Qed.

Lemma unsub_sid_ok s cid c sid sub m live :
  sv_objs s !! cid = Some c -> c_subs c !! sid = Some sub -> sub_sid sub = sid -> sub_client sub = Some cid ->
  contract (sv_sl s) live -> subject_ok (sub_subject sub) = true -> routes_ok s ->
  (c_typ c <> ROUTER -> cid ∉ sv_routes s) ->
  let max := Z.max 0 m in
  let gone := bool_decide (max <= received s sub \/ max <= 0)%Z in
  exists s' c', unsub_sid growcap wr cid sid m s = Some (s', None) /\
    sv_objs s' !! cid = Some c' /\
    c_subs c' = (if gone then delete sid (c_subs c) else c_subs c) /\
    contract (sv_sl s') (if gone then remove_one sub live else live) /\
    limit s' sub = max /\ received s' sub = received s sub.
Proof.
  intros Hc Hsub Hsid Hown Hsl Hok Hr Ht max gone. unfold unsub_sid. erewrite run_bind by (by apply upd_ok).
  match goal with |- context [<[cid := ?x]> (sv_objs s)] => set (c1 := x) end. set (s1 := set_objs s _).
  assert (Hc1 : sv_objs s1 !! cid = Some c1) by apply lookup_insert_eq.
  erewrite run_bind by (by apply run_obj). assert (c_subs c1 !! sid = Some sub) as -> by done.
  set (s2 := set_counts s1 (<[sub_ptr sub := (received s sub, max)]> (sv_counts s))).
  assert (Hk : received s2 sub = received s sub /\ limit s2 sub = max).
  { unfold received, limit. simpl. by rewrite lookup_insert_eq. }
  destruct Hk as [Hk1 Hk2].
  destruct (unsubscribe_ok s2 cid c1 sub live _ _ Hc1 Hk1 Hk2 Hsl Hok) as (s3 & c3 & E3 & Hc3 & Es & Et & Eo & Hsl3 & Hn & Hro & Hdom).
  assert (Hr3 : routes_ok s3).
  { intros r. rewrite Hro. intros Hin. apply Hdom. simpl.
    destruct (decide (cid = r)) as [<-|]; [by rewrite lookup_insert_eq|]. rewrite lookup_insert_ne by done. by apply Hr. }
  assert (Hbr : exists s4, when (bool_decide (c_typ c1 <> ROUTER)) (broadcastUnSubscribe wr sub) s3 = Some (s4, tt) /\
    sv_objs s4 !! cid = Some c3 /\ sv_sl s4 = sv_sl s3 /\ sv_counts s4 = sv_counts s3 /\ routes_ok s4).
  { destruct (bool_decide (c_typ c1 <> ROUTER)) eqn:Eb; [|by exists s3].
    destruct (broadcastUnSubscribe_only wr s3 sub Hr3) as (s4 & E4 & R4); [by rewrite Hown|].
    exists s4. rewrite (ro_objs _ _ R4), (ro_sl _ _ R4), (ro_counts _ _ R4).
    - split_and!; [done..|]. intros r. rewrite (ro_routes _ _ R4). intros Hin. by apply (ro_dom _ _ R4), Hr3.
    - rewrite Hro. apply Ht. by apply bool_decide_eq_true_1 in Eb. }
  destruct Hbr as (s4 & E4 & Hc4 & Esl4 & En4 & Hr4).
  destruct (answers_ok wr s4 cid c3 false (mret tt : M unit) Hc4 Hr4) as (s5 & c5 & E5 & Hc5 & Es5 & Esl5 & En5); [done|intros s' _; exists s'; split; [done|apply routes_only_refl]|].
  exists s5, c5.
  assert (Hrun : (counts sub ≫= (fun nm_max => set_sub_counts sub nm_max.1 (if decide (0 < m)%Z then m else 0%Z);;
    unsubscribe growcap cid sub;; when (bool_decide (c_typ c1 <> ROUTER)) (broadcastUnSubscribe wr sub))) s1 = Some (s4, tt)).
  { assert (Hm : (if decide (0 < m)%Z then m else 0%Z) = max) by apply positive_part.
    erewrite run_bind by reflexivity. erewrite run_bind.
    - erewrite run_bind by exact E3. exact E4.
    - rewrite Hm. reflexivity. }
  erewrite run_bind by exact Hrun. split_and!; [|done| | | |].
  - change (c_opts c1) with (c_opts c) in Eo. change (c_opts c1) with (c_opts c). rewrite <- Eo.
    unfold mbind, M_bind in E5 |- *. destruct (when (o_verbose (c_opts c3)) (sendOK wr cid) s4) as [[? []]|]; [|done].
    simpl in E5. by injection E5 as <-.
  - by rewrite Es5, Es, Hsid.
  - by rewrite Esl5, Esl4.
  - unfold limit. by rewrite En5, En4, Hn.
  - unfold received. rewrite En5, En4, Hn. exact Hk1.
Qed.
End withdrawal.

(** ** Properties *)

(** The argument lines are split as meant: whatever runs of spaces and
    tabs stand before, between and after them, the tokens of a line come
    back, each whole and in order. *)
Theorem splitArg_tokens (toks : list (bytes * bytes)) (trail : bytes)
  (Hap : apart toks) (Htr : is_blanks trail) : splitArg (line toks trail) = toks.*2.
Proof. by apply splitArg_line. Qed.

Lemma splitArg_tokens_witness :
  splitArg (line [([], bs "foo"); ([SPC; TAB], bs "bar"); ([SPC], bs "12")] [CR]) = [bs "foo"; bs "bar"; bs "12"].
Proof.
  apply (splitArg_tokens [([], bs "foo"); ([SPC; TAB], bs "bar"); ([SPC], bs "12")] [CR]);
    [split|]; repeat constructor; discriminate.
Defined.

(** A header that one server writes is what the other reads: the line
    of a MSG for a routed subscription, given to [processMsgArgs], gives back
    the subject, the sid, the reply and the size of the message. *)
Theorem msgHeader_roundtrip (p q : pubArg) (sub : subscription) (size : Z)
  (Hsubj : is_token (pa_subject p)) (Hsid : is_token (sub_sid sub))
  (Hreply : forall r, pa_reply p = Some r -> is_token r)
  (Hsize : (0 <= size < 2 ^ 63)%Z) (Hszb : pa_szb p = fmt_d size) :
  exists args, msg_header p sub = bs "MSG " ++ args ++ crlf /\
    processMsgArgs args q =
      (PubArg (pa_subject p) (pa_reply p) (Some (sub_sid sub)) (pa_szb p) size, None).
Proof.
  assert (Hfmt : is_token (fmt_d size)).
  { destruct (fmt_d_ok size ltac:(lia)) as (Hd & _ & Hne). split; [done|].
    eapply Forall_impl; [by apply forallb_Forall_true|]. intros b. simpl. by apply digit_not_space. }
  set (toks := ([] : bytes, pa_subject p) :: ([SPC], sub_sid sub) ::
    match pa_reply p with Some r => [([SPC], r)] | None => [] end ++ [([SPC], fmt_d size)]).
  assert (Hap : apart toks).
  { unfold toks. destruct (pa_reply p) as [r|]; [pose proof (Hreply r eq_refl)|]; split;
      repeat constructor; (done || apply Hsubj || apply Hsid || apply Hfmt || apply H). }
  exists (line toks []). split.
  - unfold msg_header, msgHeader, line, toks, crlf. rewrite Hszb.
    destruct (pa_reply p); simpl; repeat (rewrite ?app_nil_r, <- ?app_assoc; simpl); done.
  - unfold processMsgArgs. rewrite splitArg_line by (done || by constructor). unfold toks. rewrite Hszb.
    destruct (pa_reply p); simpl; rewrite parseSize_fmt, decide_False by lia; done.
Qed.

Lemma msgHeader_roundtrip_witness :
  let p := PubArg (bs "foo.bar") (Some (bs "INBOX.1")) None (bs "12") 12 in
  let sub := Subscription 1 (Some 3%N) (bs "foo.*") None (bs "RSID:7:1") in
  exists args, msg_header p sub = bs "MSG " ++ args ++ crlf /\
    processMsgArgs args (PubArg [] None None [] 0) =
      (PubArg (bs "foo.bar") (Some (bs "INBOX.1")) (Some (bs "RSID:7:1")) (bs "12") 12, None).
Proof.
  intros p sub. apply (msgHeader_roundtrip p (PubArg [] None None [] 0) sub 12);
    [split; [done|repeat constructor]|split; [done|repeat constructor]| |lia|by vm_compute].
  intros r [= <-]. split; [done|repeat constructor].
Defined.

(** The sid under which a queue subscription is announced to the other
    servers finds it again: a message that comes back with it is for exactly
    that subscription, as long as the client is connected and subscribed. *)
Theorem queue_sid_roundtrip (s : server) (cid : N) (c : client) (sub : subscription) (rsid : bytes)
  (Hcid : (Z.of_N cid < 2 ^ 63)%Z) (Hc : sv_objs s !! cid = Some c) (Hin : cid ∈ sv_clients s)
  (Hown : sub_client sub = Some cid) (Hq : default [] (sub_queue sub) <> [])
  (Hsub : c_subs c !! sub_sid sub = Some sub)
  (Hsid : sub_sid sub <> [] /\ Forall (fun b => is_ws b = false) (sub_sid sub))
  (Hrsid : routeSid sub = Some rsid) :
  routeSidQueueSubscriber s rsid = Some (Some sub).
Proof.
  unfold routeSid in Hrsid. rewrite Hown in Hrsid. simpl in Hrsid. rewrite decide_True in Hrsid.
  - injection Hrsid as <-. destruct Hsid as [Hne Hws].
    etransitivity; [exact (routeSidQueueSubscriber_ok s (Z.of_N cid) (sub_sid sub) ltac:(lia) Hne Hws)|].
    rewrite N2Z.id, decide_True, Hc by done. simpl. by rewrite Hsub.
  - destruct (default [] (sub_queue sub)); [done|simpl; lia].
Qed.

(** The connection 1 of the example, with one queue subscription. *)
Definition ex_qsub : subscription := Subscription 9 (Some 1%N) (bs "foo.*") (Some (bs "q")) (bs "7").

Definition ex_qsl : Sublist := default NewSublist (fst <$> Insert go_growcap ex_sl ex_qsub).

Lemma ex_qsl_contract : contract ex_qsl (ex_qsub :: spec_run ex_live_ops).
Proof.
  destruct (Insert_contract go_growcap _ _ ex_qsub ex_contract eq_refl) as (sl & E & Hsl).
  unfold ex_qsl. rewrite E. exact Hsl.
Qed.

Definition ex_subscribed : server :=
  let s := set_objs ex_server (<[1%N := with_subs (ex_conn CLIENT None) {[bs "7" := ex_qsub]}]> (sv_objs ex_server)) in
  set_sl s ex_qsl.

Lemma queue_sid_roundtrip_witness :
  routeSidQueueSubscriber ex_subscribed (bs "QRSID:1:7") = Some (Some ex_qsub).
Proof.
  apply (queue_sid_roundtrip ex_subscribed 1 (with_subs (ex_conn CLIENT None) {[bs "7" := ex_qsub]}) ex_qsub);
    [done|by vm_compute|by vm_compute|done|done|by vm_compute|split; [done|repeat constructor]|by vm_compute].
Defined.

(** SUB registers interest, and only then: for a line with a subject, an
    optional queue and a new sid, [processSub] does not panic and reports no
    error; if the sublist accepts the subject, the connection and the sublist
    have the new subscription and nothing else changed in them; if not, both
    are as before. *)
Theorem processSub_registers growcap choice wr fmt_q s cid c subject queue sid arg live
  (Hc : sv_objs s !! cid = Some c) (Hnc : c_nc c <> NcNil) (Hperm : c_perms c = None)
  (Harg : splitArg arg = match queue with Some q => [subject; q; sid] | None => [subject; sid] end) (Hnew : c_subs c !! sid = None)
  (Hsl : contract (sv_sl s) live) (Hsubj : subject_ok subject = true) (Hroutes : routes_ok s)
  (Htyp : c_typ c <> ROUTER -> cid ∉ sv_routes s) :
  let sub := Subscription (sv_fresh s) (Some cid) subject queue sid in
  exists s' c', processSub growcap choice wr fmt_q cid arg s = Some (s', None) /\
    sv_objs s' !! cid = Some c' /\
    c_subs c' = (if insertable false (tokens subject) then <[sid := sub]> (c_subs c) else c_subs c) /\
    contract (sv_sl s') (spec_step live (OpInsert sub)).
Proof.
  intros sub. unfold processSub. erewrite run_bind by (by apply upd_ok). cbv zeta.
  match goal with |- context [<[cid := ?x]> (sv_objs s)] => set (c1 := x) end. set (s1 := set_objs s _).
  assert (Hc1 : sv_objs s1 !! cid = Some c1) by apply lookup_insert_eq.
  set (s2 := set_fresh s1 (sv_fresh s + 1)%N).
  assert (Hr2 : routes_ok s2).
  { intros r Hin. simpl. destruct (decide (cid = r)) as [<-|]; [by rewrite lookup_insert_eq|].
    rewrite lookup_insert_ne by done. by apply Hroutes. }
  destruct (add_sub_ok growcap wr s2 cid c1 sub live Hc1 eq_refl Hnew Hsl Hsubj Hr2 Htyp)
    as (s3 & c3 & E3 & Hc3 & Es & Hsl3).
  exists s3, c3. split_and!; [|done..]. rewrite Harg.
  destruct queue as [q|];
    (erewrite run_bind by reflexivity; erewrite run_bind by (by apply (run_obj s2)); rewrite decide_False by done;
     erewrite run_bind by (unfold sub_allowed; erewrite run_bind by (by apply (run_obj s2)); cbn [c_perms with_cache c1]; by rewrite Hperm);
     by erewrite run_bind by exact E3).
Qed.

Lemma processSub_registers_witness :
  let sub := Subscription 6 (Some 1%N) (bs "foo.>") (Some (bs "q")) (bs "3") in
  exists s' c', processSub go_growcap id (fun _ _ _ => WOk) id 1 (bs "foo.> q 3") ex_server = Some (s', None) /\
    sv_objs s' !! 1%N = Some c' /\ c_subs c' = {[bs "3" := sub]} /\
    contract (sv_sl s') (sub :: spec_run ex_live_ops).
Proof.
  intros sub. apply (processSub_registers go_growcap id (fun _ _ _ => WOk) id ex_server 1 (ex_conn CLIENT None)
    (bs "foo.>") (Some (bs "q")) (bs "3")); [by vm_compute|done|done|by vm_compute|done|apply ex_contract|by vm_compute| |].
  - intros r Hr. assert (r = 3%N \/ r = 4%N) as [-> | ->] by (simpl in Hr; set_solver); vm_compute; eauto.
  - intros _. by vm_compute.
Defined.

(** UNSUB withdraws interest: for a sid the connection knows, without a
    limit, or with one that is already reached, [processUnsub] takes the
    subscription from the connection and one instance of it from the sublist;
    with a limit that is not yet reached it only records the limit.  It does
    not panic and reports no error. *)
Theorem processUnsub_withdraws growcap wr s cid c sid maxarg sub arg live
  (Hc : sv_objs s !! cid = Some c)
  (Harg : splitArg arg = match maxarg with Some m => [sid; m] | None => [sid] end)
  (Hsub : c_subs c !! sid = Some sub) (Hsid : sub_sid sub = sid) (Hown : sub_client sub = Some cid)
  (Hsl : contract (sv_sl s) live) (Hsubj : subject_ok (sub_subject sub) = true) (Hroutes : routes_ok s)
  (Htyp : c_typ c <> ROUTER -> cid ∉ sv_routes s) :
  let max := Z.max 0 (match maxarg with Some m => parseSize m | None => -1%Z end) in
  let gone := bool_decide (max <= received s sub \/ max <= 0)%Z in
  exists s' c', processUnsub growcap wr cid arg s = Some (s', None) /\
    sv_objs s' !! cid = Some c' /\
    c_subs c' = (if gone then delete sid (c_subs c) else c_subs c) /\
    contract (sv_sl s') (if gone then remove_one sub live else live) /\
    limit s' sub = max /\ received s' sub = received s sub.
Proof.
  intros max gone. destruct maxarg as [m|]; unfold processUnsub; rewrite Harg; by apply unsub_sid_ok.
Qed.

Lemma processUnsub_withdraws_witness :
  exists s' c', processUnsub go_growcap (fun _ _ _ => WOk) 1 (bs "7") ex_subscribed = Some (s', None) /\
    sv_objs s' !! 1%N = Some c' /\ c_subs c' = delete (bs "7") {[bs "7" := ex_qsub]} /\
    contract (sv_sl s') (remove_one ex_qsub (ex_qsub :: spec_run ex_live_ops)) /\
    limit s' ex_qsub = 0%Z /\ received s' ex_qsub = received ex_subscribed ex_qsub.
Proof.
  destruct (processUnsub_withdraws go_growcap (fun _ _ _ => WOk) ex_subscribed 1
    (with_subs (ex_conn CLIENT None) {[bs "7" := ex_qsub]}) (bs "7") None ex_qsub (bs "7") (ex_qsub :: spec_run ex_live_ops))
    as (s' & c' & H1 & H2 & H3 & H4 & H5 & H6);
    [by vm_compute|by vm_compute|by vm_compute|done|done| |by vm_compute| |intros _; by vm_compute|].
  - exact ex_qsl_contract.
  - intros r Hr. assert (r = 3%N \/ r = 4%N) as [-> | ->] by (simpl in Hr; set_solver); vm_compute; eauto.
  - rewrite bool_decide_true in H3 by (right; lia). rewrite bool_decide_true in H4 by (right; lia). exists s', c'. split_and!; assumption.
Defined.
