(* ===== verification/Route.v ===== *)
(** * Route: the connections between servers

    [src/server/route.go]: how a server makes a connection to another one and
    greets it ([createRoute], [sendConnect]), how it dials ([connectToRoute],
    [reConnectToRoute]), and where it starts ([StartRouting],
    [solicitRoutes]).  [Client] has what happens when the INFO of the other
    end arrives and when a route is closed.  Sockets, the TLS handshake and
    the waiting times are arguments: a dial succeeds or fails, and a failed
    one may find that the server is shutting down. *)

From S2P Require Import Prelude Util Subject Sublist Parser Client ClientSession.
Open Scope Z_scope.

Record connectInfo := ConnectInfo {
  ci_Verbose : bool;
  ci_Pedantic : bool;
  ci_User : bytes;
  ci_Pass : bytes;
  ci_TLS : bool;
  ci_Name : bytes;
}.

Definition ConProto (b : bytes) : bytes := bs "CONNECT " ++ b ++ crlf.
Definition InfoProto (b : bytes) : bytes := bs "INFO " ++ b ++ crlf.

Section routes.
(** Growing slices and writes, and the JSON of a CONNECT and of an INFO. *)
Context (growcap : nat -> nat -> nat) (wr : N -> list bytes -> bytes -> write_result)
        (connect_json : connectInfo -> option bytes) (info_proto : Info -> bytes).

Abbreviation closeConnection := (closeConnection growcap wr).

(** [sendConnect]: [c.route.url] is not nil. *)
Definition sendConnect (cid : N) (tlsRequired : bool) : M unit :=
  c ← obj cid;
  r ← lift (c_route c);
  u ← lift (rt_url r);
  id ← gets sv_id;
  let '(user, pass) := default ([], []) (url_User u) in
  match connect_json (ConnectInfo false false user pass tlsRequired id) with
  | None => closeConnection cid
  | Some b => sendProto wr cid (ConProto b);; mret tt
  end.

(** The route of a new connection, to [rURL] when this server dialed. *)
Definition new_route (routes : list URL) (rURL : option URL) : route :=
  let rtype := match rURL with
    | Some u => if existsb (fun ri => bool_decide (lower <$> url_Host u = lower <$> url_Host ri)) routes then Explicit else Implicit
    | None => Implicit
    end in
  Route [] (bool_decide (is_Some rURL)) false rtype rURL false false.

Definition zeroOpts : clientOpts := ClientOpts false false [] [] [] [] [] 0.

(** [createRoute] up to the TLS handshake. *)
Definition createRoute_begin (cid : N) (rURL : option URL) : M unit :=
  g ← gets sv_rg;
  modify (fun s => set_objs s (<[cid := Client ROUTER zeroOpts NcOpen 0 ∅ None (ReadCache 0 None 0 0 0) ∅ TNone 0
    (Some (new_route (rg_Routes g) rURL)) 0 0 0 []]> (sv_objs s))).

(** [createRoute] after the handshake; the result tells whether a connection
    was made. *)
Definition createRoute_finish (cid : N) (rURL : option URL) (handshake_ok : bool) : M bool :=
  g ← gets sv_rg;
  let tlsRequired := info_TLSRequired (rg_routeInfo g) in
  let didSolicit := bool_decide (is_Some rURL) in
  if tlsRequired && negb handshake_ok then
    sendErr wr cid (bs "Secure Connection - TLS Required");; closeConnection cid;; mret false
  else
    c ← obj cid;
    if tlsRequired && bool_decide (c_nc c = NcNil) then mret false
    else
      modify (fun s => set_rg s (set_tmp (sv_rg s) ({[cid]} ∪ rg_grTmpClients (sv_rg s))));;
      when didSolicit (sendConnect cid tlsRequired);;
      sendProto wr cid (info_proto (rg_routeInfo g));;
      when (info_AuthRequired (rg_routeInfo g) && negb didSolicit) (upd cid (fun c => with_atmr c TSet));;
      mret true.

Definition createRoute (cid : N) (rURL : option URL) (handshake_ok : bool) : M bool :=
  createRoute_begin cid rURL;; createRoute_finish cid rURL handshake_ok.

(** ** Dialing *)

(** A dial, and for one that fails whether [rcQuit] is closed while the
    goroutine waits. *)
Inductive dial := Dialed | Refused (quit : bool).

(** How the loop goes on. *)
Inductive dial_loop := LoopEnds | LoopAgain (attempts : Z) | LoopCreates (rURL : URL).

(** One round of the loop of [connectToRoute]. *)
Definition connect_round (g : routing) (running : bool) (rURL : option URL) (tryForEver : bool) (attempts : Z) (d : dial) : dial_loop :=
  match rURL with
  | None => LoopEnds
  | Some u =>
      if negb running then LoopEnds
      else
        match d with
        | Dialed => LoopCreates u
        | Refused quit =>
            if negb tryForEver && (rg_ConnectRetries g <=? 0) then LoopEnds
            else
              let attempts := if tryForEver then attempts else attempts + 1 in
              if negb tryForEver && (rg_ConnectRetries g <? attempts) then LoopEnds
              else if quit then LoopEnds else LoopAgain attempts
        end
  end.

(** [connectToRoute] over the dials it makes, on a server that runs: the URL
    to create a route for, [None] when it gives up, or the attempts so far
    when it would dial once more. *)
Fixpoint connectToRoute (g : routing) (rURL : option URL) (tryForEver : bool) (attempts : Z) (dials : list dial) : option URL + Z :=
  match dials with
  | [] => inr attempts
  | d :: dials' =>
      match connect_round g true rURL tryForEver attempts d with
      | LoopEnds => inl None
      | LoopAgain n => connectToRoute g rURL tryForEver n dials'
      | LoopCreates u => inl (Some u)
      end
  end.

(** [connectToRoute] or [reConnectToRoute] in a goroutine. *)
Definition run_dialing (g : routing) (d : dialing) (dials : list dial) : option URL + Z :=
  match d with
  | DoConnect u tryForEver => connectToRoute g (Some u) tryForEver 0 dials
  | DoReConnect rURL rtype => connectToRoute g rURL (bool_decide (rtype = Explicit)) 0 dials
  end.

(** [solicitRoutes]. *)
Definition solicitRoutes : M unit :=
  g ← gets sv_rg;
  forM (rg_Routes g) (fun r => startDialing (DoConnect r true)).

(** The INFO of [StartRouting] for other servers; [host] and [port] are those
    of the cluster, [tlsReq] whether it has a TLS configuration. *)
Definition StartRouting_info (id version : bytes) (host : bytes) (port : Z) (tlsReq : bool) (username : bytes) (maxPayload : Z)
    (clientConnectURLs : list bytes) : Info :=
  MkInfo id version [] host port (bool_decide (username <> [])) tlsReq tlsReq tlsReq maxPayload [] clientConnectURLs 0.

(** ** What a dial comes to *)

(** Without [tryForEver] a goroutine that never reaches the other server gives
    up after [ConnectRetries] more dials. *)
Lemma connect_gives_up g u dials : Forall (fun d => d = Refused false) dials ->
  connectToRoute g (Some u) false 0 dials =
    if decide (Z.of_nat (length dials) <= Z.max 0 (rg_ConnectRetries g)) then inr (Z.of_nat (length dials)) else inl None.
Proof.
  intros Hd. enough (Hgen : forall n, 0 <= n -> n <= Z.max 0 (rg_ConnectRetries g) -> connectToRoute g (Some u) false n dials =
    if decide (n + Z.of_nat (length dials) <= Z.max 0 (rg_ConnectRetries g)) then inr (n + Z.of_nat (length dials)) else inl None)
    by (rewrite Hgen; [|lia..]; done).
  induction Hd as [|d dials -> _ IH]; intros n H0 Hn; cbn [connectToRoute length].
  { rewrite decide_True by lia. by rewrite Z.add_0_r. }
  cbn [connect_round negb andb]. destruct (rg_ConnectRetries g <=? 0) eqn:E1; [rewrite decide_False by lia; done|].
  destruct (rg_ConnectRetries g <? n + 1) eqn:E2; [rewrite decide_False by lia; done|].
  rewrite IH by lia. replace (n + 1 + Z.of_nat (length dials)) with (n + Z.of_nat (S (length dials))) by lia. done.
Qed.

(** With [tryForEver] it goes on until it is connected. *)
Lemma connect_for_ever g u n dials : Forall (fun d => d = Refused false) dials ->
  connectToRoute g (Some u) true n dials = inr n /\
  connectToRoute g (Some u) true n (dials ++ [Dialed]) = inl (Some u).
Proof. induction 1 as [|d dials -> _ IH]; [done|]. exact IH. Qed.

(** ** What a new connection says *)

Hypothesis write_ok : forall k out b, wr k out b = WOk.

Lemma sendProto_open k c b s : sv_objs s !! k = Some c -> c_nc c = NcOpen ->
  sendProto wr k b s = Some (set_objs s (alter (fun c => with_out c (c_outMsgs c) (c_outBytes c) (c_out c ++ [b])) k (sv_objs s)), false).
Proof.
  intros Hk Hn. unfold sendProto, net_write, obj, mbind, M_bind. rewrite Hk, decide_False by congruence.
  rewrite Hk, decide_True, write_ok by done. done.
Qed.

(** On a server without TLS between servers, a connection that it dialed says
    CONNECT, then INFO; one that it accepted says INFO.  Both wait among
    those that are not registered yet. *)
Lemma createRoute_greets (s : server) (cid : N) (rURL : option URL) ok b :
  info_TLSRequired (rg_routeInfo (sv_rg s)) = false ->
  (forall u, rURL = Some u -> let '(user, pass) := default ([], []) (url_User u) in
    connect_json (ConnectInfo false false user pass false (sv_id s)) = Some b) ->
  exists s' c, createRoute cid rURL ok s = Some (s', true) /\ sv_objs s' !! cid = Some c /\
    c_typ c = ROUTER /\ c_nc c = NcOpen /\ c_route c = Some (new_route (rg_Routes (sv_rg s)) rURL) /\
    c_out c = (if decide (is_Some rURL) then [ConProto b] else []) ++ [info_proto (rg_routeInfo (sv_rg s))] /\
    cid ∈ rg_grTmpClients (sv_rg s') /\ sv_remotes s' = sv_remotes s /\ sv_routes s' = sv_routes s /\
    rg_started (sv_rg s') = rg_started (sv_rg s).
Proof.
  intros Htls Hj. unfold createRoute, createRoute_begin, createRoute_finish.
  erewrite run_bind by reflexivity. cbn beta. unfold gets at 1. erewrite run_bind by reflexivity. cbn [sv_rg set_objs].
  rewrite Htls. cbn [andb]. set (c0 := Client ROUTER zeroOpts _ _ _ _ _ _ _ _ _ _ _ _ _).
  set (s1 := set_objs s _). assert (H1 : sv_objs s1 !! cid = Some c0) by apply lookup_insert_eq.
  erewrite run_bind by (unfold obj; rewrite H1; reflexivity). unfold modify at 1. erewrite run_bind by reflexivity.
  set (s2 := set_rg s1 _).
  assert (H2 : exists s3 c, when (bool_decide (is_Some rURL)) (sendConnect cid false) s2 = Some (s3, tt) /\ sv_objs s3 !! cid = Some c /\
    c_typ c = ROUTER /\ c_nc c = NcOpen /\ c_route c = c_route c0 /\ c_out c = (if decide (is_Some rURL) then [ConProto b] else []) /\
    sv_rg s3 = sv_rg s2 /\ sv_remotes s3 = sv_remotes s /\ sv_routes s3 = sv_routes s).
  { destruct rURL as [u|].
    - rewrite bool_decide_eq_true_2, decide_True by (by eexists). cbn [when]. unfold sendConnect.
      erewrite run_bind by (unfold obj; cbn [sv_objs s2 set_rg]; rewrite H1; reflexivity). cbn [c0 c_route].
      erewrite run_bind by reflexivity. cbn [new_route rt_url]. erewrite run_bind by reflexivity. unfold gets. erewrite run_bind by reflexivity.
      specialize (Hj u eq_refl). destruct (default ([], []) (url_User u)) as [user pass]. cbn [sv_id s2 s1 set_rg set_objs]. rewrite Hj.
      erewrite run_bind by (apply (sendProto_open cid c0); [exact H1|done]). eexists _, _. split; [reflexivity|]. cbn [sv_objs set_objs s2 set_rg].
      rewrite lookup_alter_eq, H1. done.
    - rewrite bool_decide_eq_false_2, decide_False by (by intros [? ?]). by exists s2, c0. }
  destruct H2 as (s3 & c & E3 & Hc & Ht & Hn & Hr & Ho & Hg & Hre & Hro).
  rewrite (run_bind _ _ _ _ _ E3). erewrite run_bind by (by eapply sendProto_open). set (s4 := set_objs s3 _).
  assert (H4 : forall c', sv_objs s4 !! cid = Some c' -> c' = with_out c (c_outMsgs c) (c_outBytes c) (c_out c ++ [info_proto (rg_routeInfo (sv_rg s))])).
  { intros c'. unfold s4. cbn [sv_objs set_objs]. rewrite lookup_alter_eq, Hc. by intros [= <-]. }
  destruct (_ && _); cbn [when]; (erewrite run_bind by reflexivity); (eexists _, _; split; [reflexivity|]);
    cbn [sv_objs set_objs s4 sv_rg]; rewrite ?lookup_alter_eq, Hc; cbn [fmap option_fmap option_map];
    (split; [reflexivity|]); cbn; rewrite Ho, Hg; split_and!; try done; unfold s2; cbn; set_solver.
Qed.
End routes.
