(* ===== verification/Cluster.v ===== *)
(** * Cluster: servers that connect to each other

    A cluster of servers of [src/server/route.go] and the routes between
    them.  A server is reduced to what decides its routes, its [view]: the
    ends of connections to other servers, [s.routes] and [s.remotes], and the
    goroutines that dial.  [closeConnection], [processImplicitRoute],
    [addRoute], [processRouteInfo] and the CONNECT of a route are given on
    views; [ClusterView] shows that they are what the handlers of [Client] do.

    A connection has an even and an odd end, with the next numbers; the even
    one is at the server that dialed.  The signals on their way to an end
    arrive in order, and the end of the stream after them.  Servers run, dials
    succeed, CONNECTs are accepted, and everything else that servers do
    leaves the view as it is. *)

From S2P Require Import Prelude Util Subject Sublist Parser Client Route.

(** ** The view of a server *)

Record view := View {
  vw_id : bytes;
  vw_Routes : list URL;
  vw_Username : bytes;
  vw_Password : bytes;
  vw_info : Info;                   (* its INFO for other servers *)
  vw_remotes : gmap bytes N;
  vw_routes : gset N;
  vw_ends : gmap N (bool * route);  (* whether it is open *)
  vw_started : list dialing;
}.

Definition set_vw_maps (v : view) remotes routes := View (vw_id v) (vw_Routes v) (vw_Username v) (vw_Password v) (vw_info v)
  remotes routes (vw_ends v) (vw_started v).
Definition set_vw_ends (v : view) x := View (vw_id v) (vw_Routes v) (vw_Username v) (vw_Password v) (vw_info v)
  (vw_remotes v) (vw_routes v) x (vw_started v).
Definition set_vw_started (v : view) x := View (vw_id v) (vw_Routes v) (vw_Username v) (vw_Password v) (vw_info v)
  (vw_remotes v) (vw_routes v) (vw_ends v) x.

Definition vstart (v : view) (d : dialing) : view := set_vw_started v (vw_started v ++ [d]).
Definition put_end (v : view) (e : N) (open : bool) (r : route) : view := set_vw_ends v (<[e := (open, r)]> (vw_ends v)).

(** [removeClient] of an end with the route [r]. *)
Definition unregister (v : view) (e : N) (r : route) : view :=
  set_vw_maps v (if decide (vw_remotes v !! rt_remoteID r = Some e) then delete (rt_remoteID r) (vw_remotes v) else vw_remotes v)
    (vw_routes v ∖ {[e]}).

(** The reconnection of [closeConnection]. *)
Definition redial (v : view) (r : route) : view :=
  if rt_didSolicit r || rt_retry r then
    if decide (rt_remoteID r <> [] /\ is_Some (vw_remotes v !! rt_remoteID r)) then v
    else if decide (rt_remoteID r = vw_id v) then v
    else if bool_decide (rt_routeType r <> Implicit) || rt_retry r then vstart v (DoReConnect (rt_url r) (rt_routeType r))
    else v
  else v.

(** [closeConnection]. *)
Definition close_end (v : view) (e : N) : view :=
  match vw_ends v !! e with
  | Some (true, r) => redial (unregister (put_end v e false r) e r) r
  | _ => v
  end.

(** A CONNECT sets the name of the other end. *)
Definition on_connect (v : view) (e : N) (name : bytes) : view :=
  match vw_ends v !! e with
  | Some (open, r) => put_end v e open (set_remoteID r name)
  | None => v
  end.

Section handlers.
(** [url.Parse] and the text of a URL. *)
Context (parse : bytes -> option URL) (text : URL -> bytes).

(** [processImplicitRoute]. *)
Definition implicit (v : view) (info : Info) : view :=
  if decide (info_ID info = vw_id v) then v
  else if decide (is_Some (vw_remotes v !! info_ID info)) then v
  else if hasThisRouteConfigured (vw_Routes v) info then v
  else
    match parse (info_IP info) with
    | None => v
    | Some u => vstart v (DoConnect (with_credentials (info_AuthRequired info) (vw_Username v) (vw_Password v) u) false)
    end.

(** [addRoute] of an end with the route [r]: whether it was added, and
    whether the others must be told. *)
Definition add_route (v : view) (e : N) (r : route) : view * bool * bool :=
  let id := rt_remoteID r in
  match vw_remotes v !! id with
  | None =>
      let v := set_vw_maps v (<[id := e]> (vw_remotes v)) ({[e]} ∪ vw_routes v) in
      let v := if string_lt (vw_id v) id then put_end v e true (set_retry r true) else v in
      (v, true, bool_decide (1 < size (vw_routes v))%nat)
  | Some e0 =>
      match vw_ends v !! e0 with
      | Some (open0, old) =>
          if rt_didSolicit r
          then (put_end (put_end v e0 open0 (set_retry r (rt_retry old))) e true (set_retry r (rt_retry old)), false, false)
          else (v, false, false)
      | None => (v, false, false)
      end
  end.

(** [forwardNewRouteInfoToKnownServers]: the ends that the INFO is sent on. *)
Definition forwards (v : view) (id : bytes) : list N :=
  List.filter (fun r => match vw_ends v !! r with Some (_, rt) => bool_decide (rt_remoteID rt <> id) | None => false end)
    (elements (vw_routes v)).

(** What an end knows after the INFO of the server at its other end. *)
Definition informed (r : route) (info : Info) : route :=
  Route (info_ID info) (rt_didSolicit r) (rt_retry r) (rt_routeType r) (route_url parse r info) (info_AuthRequired info) (info_TLSRequired info).

(** [processRouteInfo]; [ip] is the address of the other end.  The second
    component is what is sent to other servers. *)
Definition on_info (v : view) (e : N) (ip : option bytes) (info : Info) : view * list (N * Info) :=
  match vw_ends v !! e with
  | Some (true, r) =>
      if decide (rt_remoteID r <> [] /\ rt_remoteID r <> info_ID info) then (implicit v info, [])
      else if decide (info_ID info = vw_id v) then (close_end (put_end v e true (set_remoteID r (info_ID info))) e, [])
      else
        let v := put_end v e true (informed r info) in
        match route_url parse r info with
        | None => (close_end v e, [])
        | Some u =>
            let '(v, added, sendInfo) := add_route v e (informed r info) in
            if added : bool then
              (v, if sendInfo : bool then (fun x => (x, set_info_IP info (remote_IP text ip u info))) <$> forwards v (info_ID info) else [])
            else (close_end v e, [])
        end
  | _ => (v, [])
  end.
End handlers.

(** ** The cluster *)

Inductive signal := SConnect (name : bytes) | SInfo (info : Info).

Record cluster := Cluster {
  cl_nodes : gmap bytes view;
  cl_owner : gmap N bytes;          (* the server of an end *)
  cl_inbox : gmap N (list signal);  (* on their way to an end *)
  cl_next : N;                      (* even: the next connection *)
}.

(** The other end of a connection. *)
Definition other (e : N) : N := if N.even e then (e + 1)%N else (e - 1)%N.

Inductive cmove :=
| MDial (i : bytes) (n : nat)  (* the [n]th goroutine of [i] dials *)
| MDeliver (e : N)             (* a signal arrives *)
| MEof (e : N).                (* the end of the stream arrives *)

Section cluster.
(** [url.Parse], the text of a URL, the server that [i] reaches at a host,
    and the address of a server. *)
Context (parse : bytes -> option URL) (text : URL -> bytes)
        (resolve : bytes -> bytes -> option bytes) (ip_of : bytes -> option bytes).

Definition dial_url (d : dialing) : option URL :=
  match d with DoConnect u _ => Some u | DoReConnect u _ => u end.

Definition is_open (c : cluster) (e : N) : bool :=
  match (i ← cl_owner c !! e; v ← cl_nodes c !! i; vw_ends v !! e) with
  | Some (o, _) => o
  | None => false
  end.

(** Nothing is on its way to an end. *)
Definition silent (c : cluster) (e : N) : bool := match cl_inbox c !! e with Some [] => true | _ => false end.

(** [createRoute] at both servers: CONNECT and INFO from the one that dialed,
    INFO from the other. *)
Definition connect (c : cluster) (i j : bytes) (u : URL) : option cluster :=
  let e := cl_next c in
  vi ← cl_nodes c !! i;
  let nodes := <[i := put_end vi e true (new_route (vw_Routes vi) (Some u))]> (cl_nodes c) in
  vj ← nodes !! j;
  let nodes := <[j := put_end vj (e + 1)%N true (new_route (vw_Routes vj) None)]> nodes in
  Some (Cluster nodes (<[e := i]> (<[(e + 1)%N := j]> (cl_owner c)))
    (<[e := [SInfo (vw_info vj)]]> (<[(e + 1)%N := [SConnect i; SInfo (vw_info vi)]]> (cl_inbox c))) (e + 2)%N).

Definition tries_for_ever (d : dialing) : bool :=
  match d with DoConnect _ tryForEver => tryForEver | DoReConnect _ rtype => bool_decide (rtype = Explicit) end.

(** A goroutine ends when it has no URL; when its host is nobody's it ends or
    stays in its loop. *)
Definition do_dial (c : cluster) (i : bytes) (n : nat) : option cluster :=
  vi ← cl_nodes c !! i;
  d ← vw_started vi !! n;
  let c := Cluster (<[i := set_vw_started vi (delete n (vw_started vi))]> (cl_nodes c)) (cl_owner c) (cl_inbox c) (cl_next c) in
  match dial_url d with
  | None => Some c
  | Some u =>
      match resolve i (url_Host u) with
      | None => if tries_for_ever d then None else Some c
      | Some j => connect c i j u
      end
  end.

(** The INFO of another server, sent on an end. *)
Definition send (inbox : gmap N (list signal)) (m : N * Info) : gmap N (list signal) :=
  <[other m.1 := default [] (inbox !! other m.1) ++ [SInfo m.2]]> inbox.

Definition do_deliver (c : cluster) (e : N) : option cluster :=
  i ← cl_owner c !! e;
  v ← cl_nodes c !! i;
  j ← cl_owner c !! other e;
  ms ← cl_inbox c !! e;
  match ms with
  | [] => None
  | m :: ms =>
      let inbox := <[e := ms]> (cl_inbox c) in
      if is_open c e then
        match m with
        | SConnect name => Some (Cluster (<[i := on_connect v e name]> (cl_nodes c)) (cl_owner c) inbox (cl_next c))
        | SInfo info =>
            let '(v, sent) := on_info parse text v e (ip_of j) info in
            Some (Cluster (<[i := v]> (cl_nodes c)) (cl_owner c) (foldl send inbox sent) (cl_next c))
        end
      else Some (Cluster (cl_nodes c) (cl_owner c) inbox (cl_next c))
  end.

Definition do_eof (c : cluster) (e : N) : option cluster :=
  i ← cl_owner c !! e;
  v ← cl_nodes c !! i;
  if silent c e && is_open c e && negb (is_open c (other e)) then
    Some (Cluster (<[i := close_end v e]> (cl_nodes c)) (cl_owner c) (cl_inbox c) (cl_next c))
  else None.

Definition cmove_run (c : cluster) (m : cmove) : option cluster :=
  match m with
  | MDial i n => do_dial c i n
  | MDeliver e => do_deliver c e
  | MEof e => do_eof c e
  end.

Definition cstep (c c' : cluster) : Prop := exists m, cmove_run c m = Some c'.

(** Nothing can happen. *)
Definition stuck (c : cluster) : Prop := forall c', ~ cstep c c'.

(** No goroutine dials, nothing is on its way, and no open end has lost its
    other end. *)
Definition at_rest (c : cluster) : bool :=
  bool_decide (map_Forall (fun _ v => length (vw_started v) = 0%nat) (cl_nodes c)) &&
  bool_decide (map_Forall (fun e _ => silent c e && (negb (is_open c e) || is_open c (other e)) = true) (cl_owner c)).

(** Servers that have each other registered, on the same connection. *)
Definition linked (c : cluster) (i j : bytes) : Prop := exists vi vj e,
  cl_nodes c !! i = Some vi /\ cl_nodes c !! j = Some vj /\
  vw_remotes vi !! j = Some e /\ vw_remotes vj !! i = Some (other e).

(** Every server has just started and solicits its routes. *)
Definition fresh_view (id : bytes) (routes : list URL) (user pass : bytes) (info : Info) : view :=
  View id routes user pass info ∅ ∅ ∅ ((fun u => DoConnect u true) <$> routes).

Definition started (c : cluster) : Prop :=
  cl_owner c = ∅ /\ cl_inbox c = ∅ /\ N.even (cl_next c) = true /\
  map_Forall (fun id v => v = fresh_view id (vw_Routes v) (vw_Username v) (vw_Password v) (vw_info v)) (cl_nodes c).
End cluster.

#[export] Instance linked_dec c i j : Decision (linked c i j).
Proof.
  unfold linked. destruct (cl_nodes c !! i) as [vi|] eqn:Ei; [|right; naive_solver].
  destruct (cl_nodes c !! j) as [vj|] eqn:Ej; [|right; naive_solver].
  destruct (vw_remotes vi !! j) as [e|] eqn:Er; [|right; naive_solver].
  destruct (decide (vw_remotes vj !! i = Some (other e))); [left; naive_solver|right; naive_solver].
Defined.
