(* ===== verification/ClusterSpec.v ===== *)
(** * ClusterSpec: the servers of a cluster form a full mesh

    The invariant of [Cluster] and what it gives: when nothing is left to do,
    servers whose configured routes connect them, directly or by way of
    others, all have each other registered.  The heart is what a pair of
    servers never loses once it has met ([meet]): a goroutine that dials, or
    an open end at the server with the smaller identity, which dials again
    when that end is lost. *)

From S2P Require Import Prelude Util Subject Sublist Parser Client Route Cluster.
Local Open Scope nat_scope.

Lemma other_end_twice e : other (other e) = e.
Proof.
  unfold other. destruct (N.even e) eqn:E.
  - rewrite (N.add_1_r e), N.even_succ, <- N.negb_even, E. cbn. lia.
  - assert (e <> 0%N) by (by intros ->). rewrite <- (N.succ_pred e), N.even_succ, <- N.negb_even in E by done.
    replace (e - 1)%N with (N.pred e) by lia. destruct (N.even (N.pred e)); [lia|done].
Qed.

Lemma other_ne e : other e <> e.
Proof. unfold other. destruct (N.even e) eqn:E; [lia|]. intros H. assert (e = 0%N) as -> by lia. done. Qed.

Lemma other_even e : N.even e = true -> other e = (e + 1)%N.
Proof. unfold other. by intros ->. Qed.

Lemma other_inj e e' : other e = other e' -> e = e'.
Proof. intros H. by rewrite <- (other_end_twice e), H, other_end_twice. Qed.

(** The address of a server in its own INFO. *)
Definition own_address (info : Info) : bytes := bs "nats-route://" ++ JoinHostPort (info_Host info) (itoa (info_Port info)) ++ bs "/".

Section mesh.
Context (parse : bytes -> option URL) (text : URL -> bytes)
        (resolve : bytes -> bytes -> option bytes) (ip_of : bytes -> option bytes).
(** The routes and the INFO of each server. *)
Context (cfg : gmap bytes (list URL * Info)).

(** Identities are not empty and each server tells its own; the host and port
    that it tells, and its address as others see it, lead every server to it;
    and so does a configured route that is written like its host and port. *)
Record addressing : Prop := {
  ad_id : forall i rs info, cfg !! i = Some (rs, info) -> i <> [] /\ info_ID info = i;
  ad_host : forall i j rs info, is_Some (cfg !! i) -> cfg !! j = Some (rs, info) ->
    exists u, parse (own_address info) = Some u /\ resolve i (url_Host u) = Some j;
  ad_ip : forall i j rs info u, is_Some (cfg !! i) -> cfg !! j = Some (rs, info) ->
    exists u', parse (remote_IP text (ip_of j) u info) = Some u' /\ resolve i (url_Host u') = Some j;
  ad_conf : forall i j rs rs' info info' u, cfg !! i = Some (rs', info') -> cfg !! j = Some (rs, info) -> u ∈ rs' ->
    lower <$> url_Host u = lower <$> JoinHostPort (info_Host info) (itoa (info_Port info)) -> resolve i (url_Host u) = Some j;
}.
Hypothesis Haddr : addressing.

Abbreviation owners := (gmap N bytes).
Abbreviation inboxes := (gmap N (list signal)).

(** ** What is on its way *)

(** News of a server other than [j], the sender. *)
Definition news (j : bytes) (m : signal) : Prop := exists x k rs info,
  m = SInfo x /\ info_ID x = k /\ k <> j /\ cfg !! k = Some (rs, info) /\
  info_Host x = info_Host info /\ info_Port x = info_Port info /\
  forall i, is_Some (cfg !! i) -> exists u, parse (info_IP x) = Some u /\ resolve i (url_Host u) = Some k.

(** News of [k] is in [ms]. *)
Definition tells (ms : list signal) (k : bytes) : Prop := exists x, SInfo x ∈ ms /\ info_ID x = k.

(** ** One server *)

(** [e], an open end of [i] to [j] with the route [r], has not read the INFO
    of [j]: it comes first, after a CONNECT for the end that was accepted. *)
Definition greeting (j : bytes) (v : view) (e : N) (r : route) (ms : list signal) : Prop :=
  e ∉ vw_routes v /\ (forall k, vw_remotes v !! k <> Some e) /\
  exists rs info rest, cfg !! j = Some (rs, info) /\ Forall (news j) rest /\
    ((rt_remoteID r = [] /\ ms = SInfo info :: rest) \/ (rt_remoteID r = [] /\ ms = SConnect j :: SInfo info :: rest) \/
     (rt_remoteID r = j /\ ms = SInfo info :: rest)).

(** It has, and is registered; the smaller server will dial again. *)
Definition registered (i j : bytes) (v : view) (e : N) (r : route) (ms : list signal) : Prop :=
  i <> j /\ vw_remotes v !! j = Some e /\ e ∈ vw_routes v /\ rt_remoteID r = j /\ Forall (news j) ms /\
  is_Some (rt_url r) /\ (string_lt i j = true -> rt_retry r = true).

(** The view of [i], except for what is said of the end [x]. *)
Record vinv_but (x : option N) (ow : owners) (ib : inboxes) (i : bytes) (v : view) : Prop := {
  vi_id : vw_id v = i;
  vi_cfg : cfg !! i = Some (vw_Routes v, vw_info v);
  vi_ends : forall e p, vw_ends v !! e = Some p -> ow !! e = Some i;
  vi_phase : forall e r j ms, Some e <> x -> vw_ends v !! e = Some (true, r) -> ow !! other e = Some j -> ib !! e = Some ms ->
    greeting j v e r ms \/ registered i j v e r ms;
  vi_url : forall e r j u, Some e <> x -> vw_ends v !! e = Some (true, r) -> ow !! other e = Some j -> rt_url r = Some u ->
    resolve i (url_Host u) = Some j;
  vi_remotes : forall k e, vw_remotes v !! k = Some e -> Some e <> x ->
    ow !! other e = Some k /\ exists r, vw_ends v !! e = Some (true, r);
  vi_routes : forall e, e ∈ vw_routes v -> exists k, vw_remotes v !! k = Some e;
}.

Definition vinv := vinv_but None.

Lemma vinv_weaken x ow ib i v : vinv ow ib i v -> vinv_but x ow ib i v.
Proof. intros []. split; eauto. Qed.

(** What is said of [e] does not depend on its own signals. *)
Lemma vinv_but_inbox e ms ow ib i v : vinv_but (Some e) ow ib i v -> vinv_but (Some e) ow (<[e := ms]> ib) i v.
Proof. intros []. split; eauto. intros e' r j ms' Hne. rewrite lookup_insert_ne by congruence. eauto. Qed.

Lemma greeting_same j v v' e r ms : vw_remotes v' = vw_remotes v -> vw_routes v' = vw_routes v ->
  greeting j v e r ms -> greeting j v' e r ms.
Proof. unfold greeting. intros -> ->. done. Qed.

Lemma registered_same i j v v' e r ms : vw_remotes v' = vw_remotes v -> vw_routes v' = vw_routes v ->
  registered i j v e r ms -> registered i j v' e r ms.
Proof. unfold registered. intros -> ->. done. Qed.

Lemma vinv_started x ow ib i v l : vinv_but x ow ib i v -> vinv_but x ow ib i (set_vw_started v l).
Proof. intros []. split; eauto. Qed.

Lemma redial_started v r : exists l, redial v r = set_vw_started v (vw_started v ++ l).
Proof.
  assert (Hv : v = set_vw_started v (vw_started v ++ [])) by (destruct v; cbn; by rewrite app_nil_r).
  unfold redial. repeat case_match; try (by exists []). by eexists [_].
Qed.

(** Changing the route of the end that nothing is said of. *)
Lemma vinv_put e o r ow ib i v : vinv_but (Some e) ow ib i v -> ow !! e = Some i -> vinv_but (Some e) ow ib i (put_end v e o r).
Proof.
  intros [] He. split; eauto; cbn.
  - intros e' p. rewrite lookup_insert_Some. intros [[<- _]|[_ H]]; [done|eauto].
  - intros e' r' j ms Hne. rewrite lookup_insert_ne by congruence. eauto.
  - intros e' r' j u Hne. rewrite lookup_insert_ne by congruence. eauto.
  - intros k e' Hk Hne. rewrite lookup_insert_ne by congruence. eauto.
Qed.

(** A closed end is out of the maps, and the others stay as they are. *)
Lemma close_ok e r ow ib i v : vinv_but (Some e) ow ib i v -> vw_ends v !! e = Some (true, r) ->
  (forall k, vw_remotes v !! k = Some e -> rt_remoteID r = k) -> vinv ow ib i (close_end v e).
Proof.
  intros Hv He Hrem. pose proof Hv as []. unfold close_end. rewrite He.
  destruct (redial_started (unregister (put_end v e false r) e r) r) as [l ->]. apply vinv_started. unfold unregister. cbn.
  set (rem := if decide _ then _ else _).
  assert (Hr1 : forall k, rem !! k <> Some e).
  { intros k. unfold rem. case_decide as Hd; intros Hk; [|pose proof (Hrem _ Hk) as <-; done].
    apply lookup_delete_Some in Hk as [Hne Hk]. by apply Hrem in Hk. }
  assert (Hr2 : forall k e', e' <> e -> rem !! k = Some e' <-> vw_remotes v !! k = Some e').
  { intros k e' Hne. unfold rem. case_decide as Hd; [|done]. rewrite lookup_delete_Some. split; [tauto|]. intros Hk. split; [|done].
    intros <-. congruence. }
  split; eauto; cbn.
  - intros e' p. rewrite lookup_insert_Some. intros [[<- _]|[_ H]]; eauto.
  - intros e' r' j ms _. rewrite lookup_insert_Some. intros [[_ H]|[Hne H]] Ho Hib; [done|].
    destruct (vi_phase0 e' r' j ms) as [(G1 & G2 & G3)|(R1 & R2 & R3 & R4)]; [congruence|done..| |].
    + left. split_and!; [cbn; set_solver| |done]. cbn. intros k Hk. apply Hr2 in Hk; [by apply (G2 k)|done].
    + right. split_and!; [done|cbn; by apply Hr2|cbn; set_solver|apply R4..].
  - intros e' r' j u _. rewrite lookup_insert_Some. intros [[_ H]|[Hne H]]; [done|]. apply (vi_url0 e' r'); [congruence|done].
  - intros k e' Hk _. destruct (decide (e' = e)) as [->|Hne]; [by destruct (Hr1 k)|]. apply Hr2 in Hk; [|done].
    rewrite lookup_insert_ne by done. apply vi_remotes0; [done|congruence].
  - intros e' He'. apply elem_of_difference in He' as [He' Hne]. rewrite elem_of_singleton in Hne.
    destruct (vi_routes0 e' He') as [k Hk]. exists k. by apply Hr2.
Qed.

(** Registering an end. *)
Lemma register_ok e r j ms u ow ib i v : vinv_but (Some e) ow ib i v -> i <> j ->
  vw_ends v !! e = Some (true, r) -> ow !! other e = Some j -> ib !! e = Some ms -> Forall (news j) ms ->
  e ∉ vw_routes v -> (forall k, vw_remotes v !! k <> Some e) -> vw_remotes v !! j = None ->
  rt_remoteID r = j -> rt_url r = Some u -> resolve i (url_Host u) = Some j ->
  let v1 := set_vw_maps v (<[j := e]> (vw_remotes v)) ({[e]} ∪ vw_routes v) in
  vinv ow ib i (if string_lt i j then put_end v1 e true (set_retry r true) else v1).
Proof.
  intros Hv Hij He Ho Hib Hms Hnr Hnm Hj Hid Hu Hres v1. pose proof Hv as []. pose proof (vi_ends0 _ _ He) as Hoi.
  set (r' := if string_lt i j then set_retry r true else r).
  assert (Hends : forall e', vw_ends (if string_lt i j then put_end v1 e true (set_retry r true) else v1) !! e' =
    if decide (e' = e) then Some (true, r') else vw_ends v !! e').
  { intros e'. unfold r'. destruct (string_lt i j); cbn; destruct (decide (e' = e)) as [->|Hne]; rewrite ?lookup_insert_eq, ?lookup_insert_ne; done. }
  set (v2 := if string_lt i j then _ else v1) in *.
  assert (Hmaps : vw_remotes v2 = <[j := e]> (vw_remotes v) /\ vw_routes v2 = {[e]} ∪ vw_routes v /\ vw_id v2 = vw_id v /\
    vw_Routes v2 = vw_Routes v /\ vw_info v2 = vw_info v) by (unfold v2; by destruct (string_lt i j)).
  destruct Hmaps as (M1 & M2 & M3 & M4 & M5). clearbody v2.
  assert (Hr' : rt_remoteID r' = j /\ rt_url r' = Some u /\ (string_lt i j = true -> rt_retry r' = true))
    by (unfold r'; by destruct (string_lt i j)). destruct Hr' as (R1 & R2 & R3). clearbody r'.
  split; [congruence|by rewrite M4, M5| | | | |].
  - intros e' p. rewrite Hends. case_decide; [by subst|eauto].
  - intros e' r0 j0 ms0 _. rewrite Hends. case_decide as Hd.
    + subst e'. intros [= <-] Ho' Hib'. assert (j0 = j) as -> by congruence. assert (ms0 = ms) as -> by congruence. right.
      unfold registered. rewrite M1, M2, lookup_insert_eq. split_and!; [done|done|set_solver|done|done|by eexists|done].
    + intros He' Ho' Hib'. destruct (vi_phase0 e' r0 j0 ms0) as [(G1 & G2 & G3)|(S1 & S2 & S3 & S4)]; [congruence|done..| |].
      * left. unfold greeting. rewrite M1, M2. split_and!; [set_solver| |done]. intros k. rewrite lookup_insert_Some. intros [[_ H]|[_ H]]; [done|by apply (G2 k)].
      * right. unfold registered. rewrite M1, M2. split; [done|]. split; [|split; [set_solver|done]].
        rewrite lookup_insert_ne; [done|]. intros ->. by rewrite Hj in S2.
  - intros e' r0 j0 u0 _. rewrite Hends. case_decide as Hd; [|intros; apply (vi_url0 e' r0 j0 u0); [congruence|done..]].
    subst e'. intros [= <-] Ho'. assert (j0 = j) as -> by congruence. rewrite R2. by intros [= <-].
  - intros k e'. rewrite M1, Hends, lookup_insert_Some. intros [[<- <-]|[Hk H]] _.
    + rewrite decide_True by done. split; [done|by eexists].
    + assert (e' <> e) by (intros ->; by destruct (Hnm k)). rewrite decide_False by done. apply vi_remotes0; [done|congruence].
  - intros e'. rewrite M1, M2, elem_of_union, elem_of_singleton. intros [->|He']; [exists j; apply lookup_insert_eq|].
    destruct (vi_routes0 e' He') as [k Hk]. exists k. rewrite lookup_insert_ne; [done|]. intros ->. by rewrite Hj in Hk.
Qed.

(** An older connection takes the route of a new one to the same server. *)
Lemma upgrade_ok e e0 r old j u ow ib i v : vinv_but (Some e) ow ib i v -> e0 <> e ->
  vw_remotes v !! j = Some e0 -> vw_ends v !! e0 = Some (true, old) -> is_Some (ib !! e0) ->
  rt_remoteID r = j -> rt_url r = Some u -> resolve i (url_Host u) = Some j ->
  vinv_but (Some e) ow ib i (put_end v e0 true (set_retry r (rt_retry old))).
Proof.
  intros Hv Hne Hj He0 [ms0 Hib0] Hid Hu Hres. pose proof Hv as [].
  destruct (vi_remotes0 j e0 Hj ltac:(congruence)) as [Ho0 _].
  split; eauto; cbn.
  - intros e' p. rewrite lookup_insert_Some. intros [[<- _]|[_ H]]; eauto.
  - intros e' r' j' ms Hx. rewrite lookup_insert_Some. intros [[<- [= <-]]|[Hne' H]] Ho Hib.
    + assert (j' = j) as -> by congruence. destruct (vi_phase0 e0 old j ms) as [(_ & G2 & _)|(R1 & R2 & R3 & R4 & R5 & R6 & R7)]; [congruence|done..| |].
      * by destruct (G2 j).
      * right. unfold registered. cbn. rewrite Hu. split_and!; eauto.
    + destruct (vi_phase0 e' r' j' ms) as [G|R]; [done..|by left|by right].
  - intros e' r' j' u' Hx. rewrite lookup_insert_Some. intros [[<- [= <-]]|[Hne' H]] Ho; [|by apply (vi_url0 e' r' j' u')].
    cbn. rewrite Hu. assert (j' = j) as -> by congruence. by intros [= <-].
  - intros k e' Hk Hx. destruct (vi_remotes0 k e' Hk Hx) as [Ho (r' & Hr')]. split; [done|].
    destruct (decide (e' = e0)) as [->|Hn]; [rewrite lookup_insert_eq; by eexists|]. rewrite lookup_insert_ne by done. by exists r'.
Qed.

(** News that arrives later changes nothing. *)
Lemma vinv_grow ow ib ib' i v : vinv ow ib i v ->
  (forall e ms', ow !! e = Some i -> ib' !! e = Some ms' -> exists ms add, ib !! e = Some ms /\ ms' = ms ++ add /\
     forall j, ow !! other e = Some j -> Forall (news j) add) -> vinv ow ib' i v.
Proof.
  intros [] Hgrow. split; eauto. intros e r j ms' Hx He Ho Hib'.
  destruct (Hgrow e ms' (vi_ends0 _ _ He) Hib') as (ms & add & Hib & -> & Hadd). specialize (Hadd j Ho).
  destruct (vi_phase0 e r j ms) as [(G1 & G2 & rs & info & rest & Hc & Hrest & G)|(R1 & R2 & R3 & R4 & R5 & R6)]; [done..| |].
  - left. split_and!; [done|done|]. exists rs, info, (rest ++ add). split_and!; [done|by apply Forall_app|].
    destruct G as [[? ->]|[[? ->]|[? ->]]]; auto.
  - right. split_and!; [done|done|done|done|by apply Forall_app|apply R6..].
Qed.

(** Completing the invariant with what is said of [e]. *)
Lemma vinv_complete e ow ib i v : vinv_but (Some e) ow ib i v ->
  (forall r j, vw_ends v !! e = Some (true, r) -> ow !! other e = Some j ->
     (forall ms, ib !! e = Some ms -> greeting j v e r ms \/ registered i j v e r ms) /\
     (forall u, rt_url r = Some u -> resolve i (url_Host u) = Some j)) ->
  (forall k, vw_remotes v !! k = Some e -> ow !! other e = Some k /\ exists r, vw_ends v !! e = Some (true, r)) ->
  vinv ow ib i v.
Proof.
  intros [] He Hk. split; eauto.
  - intros e' r j ms _ He' Ho Hib. destruct (decide (e' = e)) as [->|]; [by apply (He r j)|apply (vi_phase0 e' r j ms); congruence].
  - intros e' r j u _ He' Ho Hu. destruct (decide (e' = e)) as [->|]; [by apply (He r j)|apply (vi_url0 e' r j u); congruence].
  - intros k e' Hk' _. destruct (decide (e' = e)) as [->|]; [by apply Hk|apply vi_remotes0; congruence].
Qed.

(** ** The cluster *)

(** A goroutine of [v] dials [j]. *)
Definition dials (v : view) (i j : bytes) : Prop := exists d u,
  d ∈ vw_started v /\ dial_url d = Some u /\ resolve i (url_Host u) = Some j.

Lemma dials_sub v v' i j : vw_started v ⊆ vw_started v' -> dials v i j -> dials v' i j.
Proof. intros Hs (d & u & Hd & H). exists d, u. split; [by apply Hs|done]. Qed.

Definition task (c : cluster) (i j : bytes) : Prop := exists v, cl_nodes c !! i = Some v /\ dials v i j.

(** [i] has an open end to [j]. *)
Definition has_end (c : cluster) (i j : bytes) : Prop := exists v e r,
  cl_nodes c !! i = Some v /\ vw_ends v !! e = Some (true, r) /\ cl_owner c !! other e = Some j.

(** What two servers that have met do not lose. *)
Definition meet (c : cluster) (i j : bytes) : Prop :=
  task c i j \/ task c j i \/ (string_lt i j = true /\ has_end c i j) \/ (string_lt j i = true /\ has_end c j i).

(** The server behind [e] has heard of [k], or has hung up. *)
Definition told (c : cluster) (e : N) (k : bytes) : Prop :=
  is_open c (other e) = false \/ exists ms, cl_inbox c !! other e = Some ms /\ tells ms k.

Record cinv (c : cluster) : Prop := {
  ci_dom : forall i, is_Some (cl_nodes c !! i) <-> is_Some (cfg !! i);
  ci_view : forall i v, cl_nodes c !! i = Some v -> vinv (cl_owner c) (cl_inbox c) i v;
  ci_owner : forall e i, cl_owner c !! e = Some i -> (e < cl_next c)%N /\ is_Some (cl_inbox c !! e) /\
    is_Some (cl_owner c !! other e) /\ exists v p, cl_nodes c !! i = Some v /\ vw_ends v !! e = Some p;
  ci_next : N.even (cl_next c) = true;
  ci_met : forall e i j, cl_owner c !! e = Some i -> cl_owner c !! other e = Some j -> i <> j -> meet c i j;
  ci_conf : forall i j rs info u, cfg !! i = Some (rs, info) -> u ∈ rs -> resolve i (url_Host u) = Some j -> i <> j ->
    is_Some (cfg !! j) -> meet c i j;
  ci_news : forall a v j k e f, cl_nodes c !! a = Some v -> vw_remotes v !! j = Some e -> vw_remotes v !! k = Some f -> j <> k ->
    meet c j k \/ told c e k \/ told c f j;
}.

Lemma meet_sym c i j : meet c i j -> meet c j i.
Proof. unfold meet. tauto. Qed.

(** A change of the view of [i] that loses no goroutine, and no open end
    without another end or a goroutine in its place. *)
Record vstep (ow : owners) (i : bytes) (v v' : view) : Prop := {
  vs_dom : forall e, is_Some (vw_ends v' !! e) <-> is_Some (vw_ends v !! e);
  vs_started : forall j, dials v i j -> dials v' i j;
  vs_closed : forall e r, vw_ends v !! e = Some (false, r) -> exists r', vw_ends v' !! e = Some (false, r');
  vs_open : forall e r, vw_ends v !! e = Some (true, r) -> (exists r', vw_ends v' !! e = Some (true, r')) \/
    forall j, ow !! other e = Some j -> string_lt i j = true ->
      (exists e2 r2, vw_ends v' !! e2 = Some (true, r2) /\ ow !! other e2 = Some j) \/ dials v' i j;
}.

(** The next state when [i] changes its view. *)
Definition upd_view (c : cluster) (i : bytes) (v : view) (ib : inboxes) : cluster :=
  Cluster (<[i := v]> (cl_nodes c)) (cl_owner c) ib (cl_next c).

Lemma meet_local c i v v' ib a b : cl_nodes c !! i = Some v -> vstep (cl_owner c) i v v' ->
  meet c a b -> meet (upd_view c i v' ib) a b.
Proof.
  intros Hi [_ Hst _ Hop].
  assert (Ht : forall x y, task c x y -> task (upd_view c i v' ib) x y).
  { intros x y (w & Hw & Hd). unfold task, upd_view. cbn. destruct (decide (i = x)) as [<-|Hne].
    - rewrite lookup_insert_eq. exists v'. split; [done|]. apply Hst. congruence.
    - rewrite lookup_insert_ne by done. by exists w. }
  assert (He : forall x y, string_lt x y = true -> has_end c x y ->
    has_end (upd_view c i v' ib) x y \/ task (upd_view c i v' ib) x y).
  { intros x y Hlt (w & e & r & Hw & He & Ho). unfold has_end, task, upd_view. cbn. destruct (decide (i = x)) as [<-|Hne].
    - assert (w = v) as -> by congruence. rewrite lookup_insert_eq.
      destruct (Hop e r He) as [[r' Hr']|H]; [left; by exists v', e, r'|].
      destruct (H y Ho Hlt) as [(e2 & r2 & H1 & H2)|Hd]; [left; by exists v', e2, r2|right; by exists v'].
    - left. rewrite lookup_insert_ne by done. by exists w, e, r. }
  intros [H|[H|[[Hlt H]|[Hlt H]]]]; unfold meet; [eauto..| |].
  - destruct (He _ _ Hlt H); auto.
  - destruct (He _ _ Hlt H); auto.
Qed.

Lemma open_iff c e i v : cl_owner c !! e = Some i -> cl_nodes c !! i = Some v ->
  is_open c e = match vw_ends v !! e with Some (o, _) => o | None => false end.
Proof. unfold is_open. intros -> Hv. cbn. by rewrite Hv. Qed.

Lemma closed_local c i v v' ib e : cinv c -> cl_nodes c !! i = Some v -> vstep (cl_owner c) i v v' ->
  is_open c e = false -> is_open (upd_view c i v' ib) e = false.
Proof.
  intros Hc Hi [Hdom _ Hcl _]. unfold is_open, upd_view. cbn. destruct (cl_owner c !! e) as [x|] eqn:Eo; [|done]. cbn.
  destruct (decide (i = x)) as [<-|Hne]; [|by rewrite lookup_insert_ne]. rewrite lookup_insert_eq, Hi. cbn.
  destruct (vw_ends v !! e) as [[[] r]|] eqn:Ee; [done| |].
  - destruct (Hcl e r Ee) as [r' ->]. done.
  - intros _. destruct (vw_ends v' !! e) as [p|] eqn:Ee'; [|done]. destruct (proj1 (Hdom e)) as [? ?]; [by eexists|congruence].
Qed.

(** A server that takes a step keeps the invariant of the cluster. *)
Lemma local_step c i v v' ib : cinv c -> cl_nodes c !! i = Some v ->
  vinv (cl_owner c) ib i v' -> vstep (cl_owner c) i v v' ->
  (forall e, is_Some (cl_inbox c !! e) -> is_Some (ib !! e)) ->
  (forall e i' ms', cl_owner c !! e = Some i' -> i' <> i -> ib !! e = Some ms' -> exists ms add, cl_inbox c !! e = Some ms /\
     ms' = ms ++ add /\ forall j, cl_owner c !! other e = Some j -> Forall (news j) add) ->
  let c' := upd_view c i v' ib in
  (forall x a k, cl_owner c !! x = Some a -> a <> k -> told c x k -> told c' x k \/ (cl_owner c !! other x = Some i /\ (i <> k -> meet c' i k))) ->
  (forall k e, vw_remotes v' !! k = Some e -> vw_remotes v !! k = Some e \/
     forall k2 f, k2 <> k -> vw_remotes v' !! k2 = Some f -> told c' f k) ->
  cinv c'.
Proof.
  intros Hc Hi Hv' Hvs Hdom Hgrow c' Htold Hrem. pose proof Hc as [D V O N M T G]. split; cbn.
  - intros x. rewrite <- D. destruct (decide (i = x)) as [<-|]; [rewrite lookup_insert_eq, Hi; split; by eexists|by rewrite lookup_insert_ne].
  - intros x w. rewrite lookup_insert_Some. intros [[<- <-]|[Hne Hw]]; [done|]. eapply vinv_grow; [by apply V|]. intros e ms' Ho Hib.
    by apply (Hgrow e x ms').
  - intros e x Ho. destruct (O e x Ho) as (O1 & O2 & O3 & w & p & Hw & Hp). split_and!; [done|auto|done|].
    destruct (decide (i = x)) as [<-|]; [|rewrite lookup_insert_ne by done; by exists w, p]. rewrite lookup_insert_eq.
    assert (w = v) as -> by congruence. destruct Hvs as [Hd _ _ _]. destruct (proj2 (Hd e)) as [p' Hp']; [by eexists|]. by exists v', p'.
  - done.
  - intros e x y Hx Hy Hne. eapply meet_local; [done..|by eapply M].
  - intros x y rs info u Hx Hu Hr Hne Hy. eapply meet_local; [done..|by eapply T].
  - intros a w j k e f. rewrite lookup_insert_Some. intros Hw Hj Hk Hne.
    assert (Hold : forall w0, cl_nodes c !! a = Some w0 -> vw_remotes w0 !! j = Some e -> vw_remotes w0 !! k = Some f ->
      meet c' j k \/ told c' e k \/ told c' f j).
    { intros w0 Hw0 Hj0 Hk0. pose proof (V a w0 Hw0) as [_ _ Ve Vp _ Vr _].
      destruct (Vr j e Hj0 ltac:(done)) as [Oe (re & Ee)]. destruct (Vr k f Hk0 ltac:(done)) as [Of (rf & Ef)].
      assert (Hreg : forall x q r, vw_remotes w0 !! x = Some q -> vw_ends w0 !! q = Some (true, r) -> cl_owner c !! other q = Some x -> a <> x).
      { intros x q r Hq Eq Oq. destruct (O q a (Ve _ _ Eq)) as (_ & [ms Hms] & _). destruct (Vp q r x ms ltac:(done) Eq Oq Hms) as [(_ & Hno & _)|[R _]]; [by destruct (Hno x)|done]. }
      pose proof (Hreg j e re Hj0 Ee Oe) as Haj. pose proof (Hreg k f rf Hk0 Ef Of) as Hak.
      destruct (G a w0 j k e f Hw0 Hj0 Hk0 Hne) as [H|[H|H]].
      - left. by eapply meet_local.
      - destruct (Htold e a k (Ve _ _ Ee) Hak H) as [H'|[Ho Hm]]; [auto|]. left. assert (j = i) as -> by congruence. auto.
      - destruct (Htold f a j (Ve _ _ Ef) Haj H) as [H'|[Ho Hm]]; [auto|]. left. assert (k = i) as -> by congruence. apply meet_sym, Hm. auto. }
    destruct Hw as [[<- <-]|[Hne' Hw]]; [|by apply (Hold w)].
    destruct (Hrem j e Hj) as [Hj0|Hnew]; [|right; right; by apply (Hnew k f)].
    destruct (Hrem k f Hk) as [Hk0|Hnew]; [|right; left; by apply (Hnew j e)]. by apply (Hold v).
Qed.

(** ** Sending *)

(** What sending [l] adds to the signals for [y]. *)
Lemma sends_spec (l : list (N * Info)) : forall (ib : inboxes) y, exists add,
  foldl send ib l !! y = match ib !! y with Some q => Some (q ++ add) | None => if decide (add = []) then None else Some add end /\
  (forall x i, (x, i) ∈ l -> other x = y -> SInfo i ∈ add) /\ Forall (fun s => exists x i, (x, i) ∈ l /\ other x = y /\ s = SInfo i) add.
Proof.
  induction l as [|[x0 i0] l IH]; intros ib y.
  { exists []. split_and!; [cbn; destruct (ib !! y); [by rewrite app_nil_r|done]|by intros x i H; apply not_elem_of_nil in H|done]. }
  destruct (IH (send ib (x0, i0)) y) as (add & E & Hin & Hall). cbn [foldl]. rewrite E. unfold send. cbn.
  assert (Hall' : Forall (fun s => exists x i, (x, i) ∈ (x0, i0) :: l /\ other x = y /\ s = SInfo i) add).
  { eapply Forall_impl; [exact Hall|]. intros s (x & i & Hx & H). exists x, i. split; [by right|done]. }
  destruct (decide (other x0 = y)) as [<-|Hne].
  - exists (SInfo i0 :: add). rewrite lookup_insert_eq. split_and!.
    + destruct (ib !! other x0); cbn; by rewrite <- ?app_assoc.
    + intros x i [[= -> ->]|Hx]%elem_of_cons Hy; [by left|right; by apply (Hin x i)].
    + apply Forall_cons. split; [|done]. exists x0, i0. split; [by left|done].
  - exists add. rewrite lookup_insert_ne by done. split_and!; [done| |done].
    intros x i [[= -> ->]|Hx]%elem_of_cons Hy; [done|by apply (Hin x i)].
Qed.

(** ** Steps of a server *)

(** The same ends are open, and the same goroutines dial. *)
Definition alike (v v' : view) : Prop :=
  vw_id v' = vw_id v /\ vw_started v' = vw_started v /\ forall e, fst <$> vw_ends v' !! e = fst <$> vw_ends v !! e.

Lemma alike_refl v : alike v v.
Proof. done. Qed.

Lemma alike_trans v1 v2 v3 : alike v1 v2 -> alike v2 v3 -> alike v1 v3.
Proof. intros (A & B & C) (A' & B' & C'). split_and!; [congruence..|]. intros e. by rewrite C', C. Qed.

Lemma alike_put v e r r' : vw_ends v !! e = Some (true, r) -> alike v (put_end v e true r').
Proof.
  intros He. split_and!; [done..|]. intros e'. cbn. destruct (decide (e = e')) as [<-|]; [by rewrite lookup_insert_eq, He|by rewrite lookup_insert_ne].
Qed.

Lemma alike_open v v' e o r : alike v v' -> vw_ends v !! e = Some (o, r) -> exists r', vw_ends v' !! e = Some (o, r').
Proof. intros (_ & _ & H) He. specialize (H e). rewrite He in H. destruct (vw_ends v' !! e) as [[o' r']|]; [|done]. injection H as ->. by exists r'. Qed.

Lemma alike_sym v v' : alike v v' -> alike v' v.
Proof. intros (A & B & C). done. Qed.

Lemma vstep_alike ow i v v' l : alike v v' -> vstep ow i v (set_vw_started v' (vw_started v' ++ l)).
Proof.
  intros Ha. pose proof Ha as (_ & Hs & He). split; cbn.
  - intros e. specialize (He e). destruct (vw_ends v !! e), (vw_ends v' !! e); split; intros [? ?]; first [done|by eexists].
  - intros j. apply dials_sub. cbn. rewrite Hs. intros d Hd. apply elem_of_app. by left.
  - intros e r Hr. by eapply alike_open.
  - intros e r Hr. left. by eapply alike_open.
Qed.

Lemma started_nil v : set_vw_started v (vw_started v ++ []) = v.
Proof. destruct v. cbn. by rewrite app_nil_r. Qed.

(** What closing [e] leaves for the server at its other end. *)
Definition replaced (ow : owners) (i : bytes) (v : view) (e : N) (r : route) (j : bytes) : Prop :=
  (exists e2 r2, e2 <> e /\ vw_ends v !! e2 = Some (true, r2) /\ ow !! other e2 = Some j) \/
  (i <> j /\ vw_remotes v !! j = Some e /\ rt_remoteID r = j /\ rt_retry r = true /\
   exists u, rt_url r = Some u /\ resolve i (url_Host u) = Some j).

Lemma close_vstep ow i v v1 e r : alike v v1 -> vw_id v = i -> vw_ends v1 !! e = Some (true, r) ->
  (forall j, ow !! other e = Some j -> string_lt i j = true -> replaced ow i v1 e r j) -> vstep ow i v (close_end v1 e).
Proof.
  intros Ha Hid He Hrep. unfold close_end. rewrite He. set (v2 := unregister (put_end v1 e false r) e r).
  assert (H2 : forall e', vw_ends (redial v2 r) !! e' = if decide (e' = e) then Some (false, r) else vw_ends v1 !! e').
  { intros e'. destruct (redial_started v2 r) as [l ->]. cbn. destruct (decide (e' = e)) as [->|]; [by rewrite lookup_insert_eq|by rewrite lookup_insert_ne]. }
  pose proof Ha as (Hid1 & Hst & Hends). split.
  - intros e'. rewrite H2. specialize (Hends e'). case_decide as Hd.
    + subst e'. rewrite He in Hends. destruct (vw_ends v !! e); [|done]. split; intros _; by eexists.
    + destruct (vw_ends v !! e'), (vw_ends v1 !! e'); split; intros [? ?]; first [done|by eexists].
  - intros j. apply dials_sub. destruct (redial_started v2 r) as [l ->]. cbn. rewrite Hst. intros d Hd. apply elem_of_app. by left.
  - intros e' r' He'. rewrite H2. case_decide; [by eexists|]. by eapply alike_open.
  - intros e' r' He'. rewrite H2. case_decide as Hd; [|left; by eapply alike_open]. subst e'. right. intros j Ho Hlt.
    destruct (Hrep j Ho Hlt) as [(e2 & r2 & Hne & H3 & H4)|(Hij & Hj & Hr & Hretry & u & Hu & Hres)].
    + left. exists e2, r2. rewrite H2, decide_False by done. done.
    + right. unfold redial. rewrite Hretry, orb_true_r. assert (Hv2 : vw_remotes v2 !! j = None).
      { cbn. rewrite Hr, decide_True by done. apply lookup_delete_eq. }
      assert (Hi2 : vw_id v2 = i) by (cbn; congruence).
      rewrite decide_False by (rewrite Hr, Hv2; intros [_ [? ?]]; done).
      rewrite decide_False by congruence. rewrite orb_true_r.
      exists (DoReConnect (rt_url r) (rt_routeType r)), u. split; [cbn; apply elem_of_app; right; by left|]. done.
Qed.

Lemma close_remotes v e k e' : vw_remotes (close_end v e) !! k = Some e' -> vw_remotes v !! k = Some e'.
Proof.
  unfold close_end. destruct (vw_ends v !! e) as [[[] r]|]; [|done..].
  destruct (redial_started (unregister (put_end v e false r) e r) r) as [l ->]. cbn.
  case_decide; [by intros [_ ?]%lookup_delete_Some|done].
Qed.

(** ** The cases of a delivery *)

Section delivery.
Context (c : cluster) (Hc : cinv c) (e : N) (i j : bytes) (v : view) (r : route) (m : signal) (ms : list signal).
Context (Hi : cl_nodes c !! i = Some v) (Ho : cl_owner c !! e = Some i) (Hj : cl_owner c !! other e = Some j).
Context (He : vw_ends v !! e = Some (true, r)) (Hib : cl_inbox c !! e = Some (m :: ms)).
Abbreviation rest := (<[e := ms]> (cl_inbox c)).

Lemma rest_dom e' : is_Some (cl_inbox c !! e') -> is_Some (rest !! e').
Proof. intros H. destruct (decide (e = e')) as [<-|]; [rewrite lookup_insert_eq; by eexists|by rewrite lookup_insert_ne]. Qed.

Lemma rest_grow e' i' ms' : cl_owner c !! e' = Some i' -> i' <> i -> rest !! e' = Some ms' -> exists ms0 add,
  cl_inbox c !! e' = Some ms0 /\ ms' = ms0 ++ add /\ forall j, cl_owner c !! other e' = Some j -> Forall (news j) add.
Proof.
  intros Ho' Hne. rewrite lookup_insert_ne by congruence. intros H. exists ms', []. by rewrite app_nil_r.
Qed.

(** What was told stays told, up to the signal that is delivered. *)
Lemma rest_told v' x a k : vstep (cl_owner c) i v v' -> cl_owner c !! x = Some a -> told c x k ->
  told (upd_view c i v' rest) x k \/ (x = other e /\ exists info, m = SInfo info /\ info_ID info = k).
Proof.
  intros Hvs Hx [Hcl|(ms0 & Hms & info & Hin & Hk)].
  - left. left. by eapply closed_local.
  - destruct (decide (e = other x)) as [Heq|Hne].
    + rewrite <- Heq, Hib in Hms. injection Hms as Hms. rewrite <- Hms in Hin. apply elem_of_cons in Hin as [Hin|Hin].
      * right. rewrite Heq, other_end_twice. split; [done|]. by exists info.
      * left. right. exists ms. cbn. rewrite <- Heq. split; [apply lookup_insert_eq|]. by exists info.
    + left. right. exists ms0. split; [by rewrite <- Hms; apply lookup_insert_ne|]. by exists info.
Qed.

Lemma view_but : vinv_but (Some e) (cl_owner c) rest i v.
Proof. apply vinv_but_inbox, vinv_weaken. by apply (ci_view c Hc). Qed.

Lemma rest_lookup : rest !! e = Some ms.
Proof. apply lookup_insert_eq. Qed.

Lemma phase : greeting j v e r (m :: ms) \/ registered i j v e r (m :: ms).
Proof. eapply (vi_phase None); [by apply (ci_view c Hc)|done..]. Qed.

Lemma peer_cfg : exists rs info, cfg !! j = Some (rs, info).
Proof.
  destruct (ci_owner c Hc (other e) j Hj) as (_ & _ & _ & w & p & Hw & _).
  pose proof (ci_view c Hc j w Hw) as [_ ? _ _ _ _ _]. eauto.
Qed.

(** A CONNECT. *)
Lemma connect_case name : m = SConnect name -> cinv (upd_view c i (on_connect v e name) rest).
Proof.
  intros Em. pose proof phase as Hp. rewrite Em in Hp. destruct Hp as [(G1 & G2 & rs & info & q & Hcf & Hq & G)|(_ & _ & _ & _ & Hn & _)].
  2: { apply Forall_cons in Hn as [(x & k & rs & info & Hx & _) _]. done. }
  destruct G as [[_ [=]]|[[Hr [= Hname Hms]]|[_ [=]]]]. rewrite Hname. unfold on_connect. rewrite He.
  assert (Hvs : vstep (cl_owner c) i v (put_end v e true (set_remoteID r j))).
  { rewrite <- (started_nil (put_end _ _ _ _)). apply vstep_alike. by eapply alike_put. }
  apply local_step with v; [done|done| |done|apply rest_dom|apply rest_grow| |].
  - apply vinv_complete with e; [apply vinv_put; [apply view_but|done]| |].
    + cbn. intros r' j'. rewrite lookup_insert_eq, Hj. intros [= <-] [= <-]. split.
      * intros ms'. rewrite rest_lookup, Hms. intros [= <-]. left. split_and!; [done|done|]. exists rs, info, q. split_and!; auto.
      * cbn. intros u Hu. eapply (vi_url None); [by apply (ci_view c Hc)|done..].
    + cbn. intros k Hk. by destruct (G2 k).
  - intros x a k Hx Hak Ht. destruct (rest_told _ x a k Hvs Hx Ht) as [H|(_ & info' & Hm & _)]; [by left|congruence].
  - cbn. intros k e' Hk. by left.
Qed.

Lemma id_here : vw_id v = i.
Proof. by destruct (ci_view c Hc i v Hi). Qed.

(** News of another server: it is dialed, or was met before. *)
Lemma implicit_meets info rs inf : info_ID info <> i -> cfg !! info_ID info = Some (rs, inf) ->
  info_Host info = info_Host inf -> info_Port info = info_Port inf ->
  (exists u, parse (info_IP info) = Some u /\ resolve i (url_Host u) = Some (info_ID info)) ->
  exists l, implicit parse v info = set_vw_started v (vw_started v ++ l) /\
    (meet c i (info_ID info) \/ dials (implicit parse v info) i (info_ID info)).
Proof.
  intros Hne Hcf Hh Hp (u & Hu & Hres). unfold implicit. rewrite id_here, decide_False by done. case_decide as Hrem.
  { exists []. rewrite started_nil. split; [done|]. left. destruct Hrem as [f Hf].
    pose proof (ci_view c Hc i v Hi) as [_ _ Ve _ _ Vr _]. destruct (Vr _ f Hf ltac:(done)) as [Of (rf & Ef)].
    apply (ci_met c Hc f); [by apply (Ve f (true, rf))|done|auto]. }
  destruct (hasThisRouteConfigured (vw_Routes v) info) eqn:Ec.
  { exists []. rewrite started_nil. split; [done|]. left. unfold hasThisRouteConfigured in Ec. apply existsb_exists in Ec as (ri & Hin & Heq).
    apply bool_decide_eq_true in Heq. apply list_elem_of_In in Hin. pose proof (ci_view c Hc i v Hi) as [_ Vc _ _ _ _ _].
    apply (ci_conf c Hc i (info_ID info) (vw_Routes v) (vw_info v) ri); [done..| |auto|by eexists].
    eapply (ad_conf Haddr); [done..|]. by rewrite Heq, Hh, Hp. }
  rewrite Hu. eexists [_]. split; [reflexivity|]. right. eexists _, _. split; [cbn; apply elem_of_app; right; by left|]. split; [reflexivity|].
  unfold with_credentials. by destruct (info_AuthRequired info).
Qed.

Lemma news_case info ip : m = SInfo info -> registered i j v e r (m :: ms) ->
  on_info parse text v e ip info = (implicit parse v info, []) /\ cinv (upd_view c i (implicit parse v info) rest).
Proof.
  intros Em (R1 & R2 & R3 & R4 & R5 & R6 & R7). rewrite Em in R5. apply Forall_cons in R5 as [Hn R5].
  destruct Hn as (x & k & rs & inf & [= <-] & Hk & Hkj & Hcf & Hh & Hp & Hip).
  destruct peer_cfg as (rsj & infj & Hcj). destruct (ad_id Haddr _ _ _ Hcj) as [Hj0 _].
  assert (Hii : is_Some (cfg !! i)) by (apply (ci_dom c Hc); by eexists). split.
  { unfold on_info. rewrite He, decide_True; [done|]. rewrite R4, Hk. auto. }
  assert (Himp : exists l, implicit parse v info = set_vw_started v (vw_started v ++ l) /\
    (k <> i -> meet c i k \/ dials (implicit parse v info) i k)).
  { destruct (decide (k = i)) as [Hki|Hki].
    - exists []. split; [|done]. unfold implicit. by rewrite id_here, decide_True, started_nil by congruence.
    - destruct (implicit_meets info rs inf) as (l & El & Hl); [congruence..|rewrite Hk; auto|]. exists l. rewrite Hk in Hl. auto. }
  destruct Himp as (l & El & Hmeet).
  assert (Hvs : vstep (cl_owner c) i v (implicit parse v info)) by (rewrite El; apply vstep_alike, alike_refl).
  apply local_step with v; [done|done| |done|apply rest_dom|apply rest_grow| |].
  - rewrite El. apply vinv_started. apply vinv_complete with e; [apply view_but| |].
    + intros r' j'. rewrite He, Hj. intros [= <-] [= <-]. split.
      * intros ms'. rewrite rest_lookup. intros [= <-]. right. by split_and!.
      * intros u Hu. eapply (vi_url None); [by apply (ci_view c Hc)|done..].
    + intros k' Hk'. eapply (vi_remotes None); [by apply (ci_view c Hc)|done..].
  - intros x a k' Hx Hak Ht. destruct (rest_told _ x a k' Hvs Hx Ht) as [H|(-> & info' & Hm & Hk')]; [by left|]. right.
    rewrite other_end_twice. split; [done|]. intros Hik. assert (k' = k) as -> by congruence.
    destruct (Hmeet ltac:(auto)) as [H|H]; [by eapply meet_local|]. left. exists (implicit parse v info). split; [apply lookup_insert_eq|done].
  - rewrite El. cbn. by left.
Qed.

(** Signals that are only the greeting of the other end leave what was told. *)
Lemma greeting_told v' info x a k : m = SInfo info -> info_ID info = j -> vstep (cl_owner c) i v v' ->
  cl_owner c !! x = Some a -> a <> k -> told c x k -> told (upd_view c i v' rest) x k.
Proof.
  intros Em Hid Hvs Hx Hak Ht. destruct (rest_told _ x a k Hvs Hx Ht) as [H|(-> & info' & Hm & Hk)]; [done|].
  rewrite Hj in Hx. congruence.
Qed.

(** The connection of a server to itself. *)
Lemma self_case info : m = SInfo info -> info_ID info = j -> i = j -> greeting j v e r (m :: ms) ->
  cinv (upd_view c i (close_end (put_end v e true (set_remoteID r (info_ID info))) e) rest).
Proof.
  intros Em Hid Hij (G1 & G2 & _). set (v1 := put_end v e true _).
  assert (H1 : vw_ends v1 !! e = Some (true, set_remoteID r (info_ID info))) by apply lookup_insert_eq.
  assert (Hvs : vstep (cl_owner c) i v (close_end v1 e)).
  { eapply close_vstep; [by eapply alike_put|apply id_here|done|]. intros j' Hj'. assert (j' = i) as -> by congruence. by rewrite string_lt_irrefl. }
  apply local_step with v; [done|done| |done|apply rest_dom|apply rest_grow| |].
  - eapply close_ok; [|done|]; [apply vinv_put; [apply view_but|done]|]. intros k Hk. by destruct (G2 k).
  - intros x a k Hx Hak Ht. left. by eapply greeting_told.
  - intros k e' Hk. left. by apply close_remotes in Hk.
Qed.

(** Another connection to the same server is registered: this one is closed. *)
Lemma dup_case info v1 r1 e0 u : m = SInfo info -> info_ID info = j -> i <> j -> greeting j v e r (m :: ms) ->
  alike v v1 -> vinv_but (Some e) (cl_owner c) rest i v1 -> vw_remotes v1 = vw_remotes v -> vw_remotes v !! j = Some e0 ->
  vw_ends v1 !! e = Some (true, r1) -> rt_remoteID r1 = j -> rt_url r1 = Some u ->
  cinv (upd_view c i (close_end v1 e) rest).
Proof.
  intros Em Hid Hij (G1 & G2 & _) Ha Hv1 Hrem He0 H1 Hr1 Hu.
  assert (Hne : e0 <> e) by (intros ->; by destruct (G2 j)).
  pose proof (ci_view c Hc i v Hi) as Hv. destruct (vi_remotes _ _ _ _ _ Hv j e0 He0 ltac:(done)) as [O0 (r0 & E0)].
  assert (Hvs : vstep (cl_owner c) i v (close_end v1 e)).
  { eapply close_vstep; [done|apply id_here|done|]. intros j' Hj' _. assert (j' = j) as -> by congruence. left.
    destruct (alike_open _ _ _ _ _ Ha E0) as [r0' E0']. by exists e0, r0'. }
  apply local_step with v; [done|done| |done|apply rest_dom|apply rest_grow| |].
  - eapply close_ok; [done..|]. intros k Hk. rewrite Hrem in Hk. by destruct (G2 k).
  - intros x a k Hx Hak Ht. left. by eapply greeting_told.
  - intros k e' Hk. left. apply close_remotes in Hk. by rewrite <- Hrem.
Qed.

(** The end is registered, and the other servers are told. *)
Lemma register_case info r1 u v2 sent : m = SInfo info -> info_ID info = j -> i <> j -> greeting j v e r (m :: ms) ->
  (forall rs inf, cfg !! j = Some (rs, inf) -> info = inf) ->
  rt_remoteID r1 = j -> rt_url r1 = Some u -> resolve i (url_Host u) = Some j -> vw_remotes v !! j = None ->
  let v1 := set_vw_maps (put_end v e true r1) (<[j := e]> (vw_remotes v)) ({[e]} ∪ vw_routes v) in
  v2 = (if string_lt i j then put_end v1 e true (set_retry r1 true) else v1) ->
  (if bool_decide (1 < size (vw_routes v2)) then
     sent = (fun x => (x, set_info_IP info (remote_IP text (ip_of j) u info))) <$> forwards v2 j else sent = []) ->
  cinv (upd_view c i v2 (foldl send rest sent)).
Proof.
  intros Em Hid Hij (G1 & G2 & rs & inf & q & Hcf & Hq & G) Hinf Hr1 Hu Hres Hrem v1 Ev2 Hsent.
  assert (Hms : ms = q) by (destruct G as [[_ ?]|[[_ ?]|[_ ?]]]; congruence). specialize (Hinf _ _ Hcf) as ->.
  pose proof (ci_view c Hc i v Hi) as Hv.
  assert (Hmaps : vw_remotes v2 = <[j := e]> (vw_remotes v) /\ vw_routes v2 = {[e]} ∪ vw_routes v) by (rewrite Ev2; by destruct (string_lt i j)).
  destruct Hmaps as [M1 M2].
  assert (Hal : alike v v2).
  { apply alike_trans with (put_end v e true r1); [by eapply alike_put|]. rewrite Ev2. destruct (string_lt i j); [|done].
    apply alike_trans with v1; [done|]. eapply alike_put. unfold v1. cbn. apply lookup_insert_eq. }
  assert (Hvs : vstep (cl_owner c) i v v2) by (rewrite <- (started_nil v2); by apply vstep_alike).
  assert (Hv2 : vinv (cl_owner c) rest i v2).
  { rewrite Ev2. apply (register_ok e r1 j ms u _ _ _ (put_end v e true r1)); try done.
    - apply vinv_put; [apply view_but|done].
    - apply lookup_insert_eq.
    - apply rest_lookup.
    - by rewrite Hms. }
  (* The ends that are told belong to other servers. *)
  assert (Hsent' : forall x info', (x, info') ∈ sent -> cl_owner c !! x = Some i /\ (exists k, cl_owner c !! other x = Some k /\ k <> i) /\
    info' = set_info_IP inf (remote_IP text (ip_of j) u inf)).
  { intros x info' Hx. destruct (bool_decide (1 < size (vw_routes v2))); [|subst sent; by apply not_elem_of_nil in Hx].
    rewrite Hsent in Hx. apply list_elem_of_fmap in Hx as (x' & [= <- ->] & Hf). unfold forwards in Hf. apply list_elem_of_In, filter_In in Hf as [Hf Hb].
    apply list_elem_of_In, elem_of_elements in Hf. destruct (vi_routes _ _ _ _ _ Hv2 x Hf) as [k Hk].
    destruct (vi_remotes _ _ _ _ _ Hv2 k x Hk ltac:(done)) as [Ok (rk & Ek)].
    pose proof (vi_ends _ _ _ _ _ Hv2 _ _ Ek) as Oi. split_and!; [done| |done]. exists k. split; [done|].
    destruct (rest_dom x) as [msx Hmx]; [by apply (ci_owner c Hc x i Oi)|].
    destruct (vi_phase _ _ _ _ _ Hv2 x rk k msx ltac:(done) Ek Ok Hmx) as [(_ & Hno & _)|(R & _)]; [by destruct (Hno k)|auto]. }
  assert (Hnews : news i (SInfo (set_info_IP inf (remote_IP text (ip_of j) u inf)))).
  { exists (set_info_IP inf (remote_IP text (ip_of j) u inf)), j, rs, inf. split_and!; try done. intros i' Hi'.
    exact (ad_ip Haddr i' j rs inf u Hi' Hcf). }
  assert (Hown : forall e', cl_owner c !! e' = Some i -> foldl send rest sent !! e' = rest !! e').
  { intros e' He'. destruct (sends_spec sent rest e') as (add & E & _ & Hadd). rewrite E. destruct add as [|s add].
    - destruct (rest !! e'); [by rewrite app_nil_r|done].
    - exfalso. apply Forall_cons in Hadd as [(x & info' & Hx & Hy & _) _]. destruct (Hsent' x info' Hx) as (_ & (k & Hk & Hki) & _). congruence. }
  assert (Htell : forall x a k, cl_owner c !! x = Some a -> told (upd_view c i v2 rest) x k -> told (upd_view c i v2 (foldl send rest sent)) x k).
  { intros x a k Hx [H|(ms0 & H0 & Ht)]; [by left|right]. cbn in H0 |- *. destruct (sends_spec sent rest (other x)) as (add & E & _ & _).
    rewrite E, H0. exists (ms0 ++ add). split; [done|]. destruct Ht as (x0 & Hx0 & Hk0). exists x0. split; [apply elem_of_app; by left|done]. }
  apply local_step with v; [done|done| |done| | | |].
  - eapply vinv_grow; [exact Hv2|]. intros e' ms' Oe'. rewrite (Hown e' Oe'). intros H. exists ms', []. by rewrite app_nil_r.
  - intros e' H. destruct (rest_dom e' H) as [q' Hq']. destruct (sends_spec sent rest e') as (add & E & _). rewrite E, Hq'. by eexists.
  - intros e' i' ms' Oe' Hne Hib'. destruct (ci_owner c Hc e' i' Oe') as (_ & [ms0 Hms0] & _).
    destruct (sends_spec sent rest e') as (add & E & _ & Hadd). rewrite E, lookup_insert_ne, Hms0 in Hib' by congruence.
    injection Hib' as <-. exists ms0, add. split_and!; [done|done|]. intros j' Oj'. eapply Forall_impl; [exact Hadd|].
    intros s (x & info' & Hx & Hy & ->). destruct (Hsent' x info' Hx) as (Ox & _ & ->). rewrite <- Hy, other_end_twice in Oj'.
    assert (j' = i) as -> by congruence. done.
  - intros x a k Hx Hak Ht. left. eapply Htell; [done|]. by eapply greeting_told.
  - intros k e' Hk. rewrite M1 in Hk. apply lookup_insert_Some in Hk as [[<- <-]|[_ Hk]]; [|by left]. right. intros k2 f Hk2 Hf.
    rewrite M1, lookup_insert_ne in Hf by auto.
    destruct (vi_remotes _ _ _ _ _ Hv k2 f Hf ltac:(done)) as [Of (rf & Ef)].
    assert (Hff : f ∈ vw_routes v /\ rt_remoteID rf = k2).
    { destruct (ci_owner c Hc f i (vi_ends _ _ _ _ _ Hv _ _ Ef)) as (_ & [msf Hmf] & _).
      destruct (vi_phase _ _ _ _ _ Hv f rf k2 msf ltac:(done) Ef Of Hmf) as [(_ & Hno & _)|(_ & _ & R3 & R4 & _)]; [by destruct (Hno k2)|done]. }
    destruct Hff as [Hfr Hfk]. assert (Hfe : f <> e) by (intros ->; by destruct (G2 k2)).
    assert (Hsz : bool_decide (1 < size (vw_routes v2)) = true).
    { apply bool_decide_eq_true. rewrite M2. enough (2 <= size ({[e]} ∪ vw_routes v)) by lia.
      change 2 with (1 + 1). rewrite <- (size_singleton (C := gset N) e), <- (size_singleton (C := gset N) f) at 1.
      rewrite <- size_union by set_solver. apply subseteq_size. set_solver. }
    rewrite Hsz in Hsent. right. cbn. destruct (ci_owner c Hc (other f) k2 Of) as (_ & [msf Hmf] & _).
    destruct (sends_spec sent rest (other f)) as (add & E & Hin & _).
    destruct (rest_dom (other f)) as [q' Hq']; [by eexists|]. rewrite E, Hq'. eexists. split; [done|].
    exists (set_info_IP inf (remote_IP text (ip_of j) u inf)). split; [|done]. apply elem_of_app. right. apply (Hin f); [|done].
    rewrite Hsent. apply list_elem_of_fmap. exists f. split; [done|]. unfold forwards. apply list_elem_of_In, filter_In. split.
    + apply list_elem_of_In, elem_of_elements. rewrite M2. set_solver.
    + assert (Hf2 : vw_ends v2 !! f = Some (true, rf)).
      { rewrite Ev2. destruct (string_lt i j); cbn; rewrite !lookup_insert_ne by auto; done. }
      rewrite Hf2. apply bool_decide_eq_true. congruence.
Qed.

(** The INFO of the server at the other end. *)
Lemma greeting_case info : m = SInfo info -> greeting j v e r (m :: ms) ->
  let '(v', sent) := on_info parse text v e (ip_of j) info in cinv (upd_view c i v' (foldl send rest sent)).
Proof.
  intros Em G. pose proof G as (G1 & G2 & rs & inf & q & Hcf & Hq & G3).
  assert (Hinf : info = inf) by (destruct G3 as [[_ ?]|[[_ ?]|[_ ?]]]; congruence).
  destruct (ad_id Haddr _ _ _ Hcf) as [Hj0 Hid]. rewrite <- Hinf in Hid.
  assert (Hcond : ~ (rt_remoteID r <> [] /\ rt_remoteID r <> info_ID info)).
  { intros [H1 H2]. rewrite Hid in H2. destruct G3 as [[? _]|[[? _]|[? _]]]; congruence. }
  assert (Hcf' : forall rs' inf', cfg !! j = Some (rs', inf') -> info = inf') by (intros; congruence).
  assert (Hii : is_Some (cfg !! i)) by (apply (ci_dom c Hc); by eexists).
  assert (Hurl : exists u, route_url parse r info = Some u /\ resolve i (url_Host u) = Some j).
  { unfold route_url. destruct (rt_url r) as [u|] eqn:Eu.
    - exists u. split; [done|]. eapply (vi_url None); [by apply (ci_view c Hc)|done..].
    - rewrite Hinf. exact (ad_host Haddr i j rs inf Hii Hcf). }
  destruct Hurl as (u & Hu & Hres). unfold on_info. rewrite He, decide_False, id_here, Hid by done. case_decide as Hij.
  { rewrite <- Hid at 1. apply self_case; auto. }
  rewrite Hu. set (r1 := informed parse r info). assert (Hr1 : rt_remoteID r1 = j /\ rt_url r1 = Some u) by done. destruct Hr1 as [Hr1 Hu1].
  unfold add_route. rewrite Hr1. cbn [vw_remotes put_end set_vw_ends].
  assert (Hal : alike v (put_end v e true r1)) by (by eapply alike_put).
  assert (Hv1 : vinv_but (Some e) (cl_owner c) rest i (put_end v e true r1)) by (apply vinv_put; [apply view_but|done]).
  assert (Hl1 : vw_ends (put_end v e true r1) !! e = Some (true, r1)) by apply lookup_insert_eq.
  destruct (vw_remotes v !! j) as [e0|] eqn:E0.
  - assert (Hne : e0 <> e) by (intros ->; by destruct (G2 j)).
    pose proof (ci_view c Hc i v Hi) as Hv. destruct (vi_remotes _ _ _ _ _ Hv j e0 E0 ltac:(done)) as [O0 (r0 & F0)].
    assert (F1 : vw_ends (put_end v e true r1) !! e0 = Some (true, r0)) by (cbn; by rewrite lookup_insert_ne).
    rewrite F1. destruct (rt_didSolicit r1); cbv beta iota.
    + set (v1 := put_end (put_end v e true r1) e0 true (set_retry r1 (rt_retry r0))).
      eapply (dup_case info _ (set_retry r1 (rt_retry r0)) e0 u); try done.
      * apply alike_trans with (put_end v e true r1); [done|]. apply alike_trans with v1; [by eapply alike_put|].
        eapply alike_put. cbn. rewrite lookup_insert_ne by done. apply lookup_insert_eq.
      * apply vinv_put; [|done]. eapply upgrade_ok; try done. apply rest_dom. by apply (ci_owner c Hc e0 i (vi_ends _ _ _ _ _ Hv _ _ F0)).
      * apply lookup_insert_eq.
    + eapply (dup_case info _ r1 e0 u); done.
  - cbv beta iota. cbn [vw_id set_vw_maps set_vw_ends put_end]. rewrite id_here.
    eapply (register_case info r1 u); try done. by destruct (bool_decide _).
Qed.
End delivery.

Lemma cdeliver_ok c c' e : cinv c -> do_deliver parse text ip_of c e = Some c' -> cinv c'.
Proof.
  intros Hc E. unfold do_deliver in E. destruct (cl_owner c !! e) as [i|] eqn:Ho; [|done]. cbn in E.
  destruct (cl_nodes c !! i) as [v|] eqn:Hi; [|done]. cbn in E. destruct (cl_owner c !! other e) as [j|] eqn:Hj; [|done]. cbn in E.
  destruct (cl_inbox c !! e) as [[|m ms]|] eqn:Hib; [done| |done]. cbn in E.
  destruct (ci_owner c Hc e i Ho) as (_ & _ & _ & v0 & p & Hv0 & Hp). assert (v0 = v) as -> by congruence.
  rewrite (open_iff c e i v Ho Hi), Hp in E. destruct p as [[] r].
  - destruct m as [name|info].
    + injection E as <-. by apply (connect_case c Hc e i j v r (SConnect name) ms).
    + destruct (phase c Hc e i j v r (SInfo info) ms Hi Hj Hp Hib) as [G|R].
      * pose proof (greeting_case c Hc e i j v r (SInfo info) ms Hi Ho Hj Hp Hib info eq_refl G) as H.
        destruct (on_info parse text v e (ip_of j) info) as [v' sent]. by injection E as <-.
      * destruct (news_case c Hc e i j v r (SInfo info) ms Hi Ho Hj Hp Hib info (ip_of j) eq_refl R) as [E1 H]. rewrite E1 in E. by injection E as <-.
  - injection E as <-.
    assert (Hsame : Cluster (cl_nodes c) (cl_owner c) (<[e := ms]> (cl_inbox c)) (cl_next c) = upd_view c i v (<[e := ms]> (cl_inbox c))).
    { unfold upd_view. by rewrite (insert_id (cl_nodes c)). }
    rewrite Hsame. assert (Hvs : vstep (cl_owner c) i v v) by (rewrite <- (started_nil v) at 2; apply vstep_alike, alike_refl).
    apply local_step with v; [done|done| |done|apply rest_dom|by eapply rest_grow| |by left].
    + apply vinv_complete with e; [by eapply view_but|intros r' j' He'; congruence|]. intros k Hk.
      eapply (vi_remotes None); [by apply (ci_view c Hc)|done..].
    + intros x a k Hx Hak Ht. left. destruct (rest_told c Hc e i v m ms Hi Hib v x a k Hvs Hx Ht) as [H|(-> & _)]; [done|].
      left. rewrite other_end_twice. rewrite (open_iff (upd_view c i v _) e i v); [by rewrite Hp|done|apply lookup_insert_eq].
Qed.

Lemma eof_ok c c' e : cinv c -> do_eof c e = Some c' -> cinv c'.
Proof.
  intros Hc E. unfold do_eof in E. destruct (cl_owner c !! e) as [i|] eqn:Ho; [|done]. cbn in E.
  destruct (cl_nodes c !! i) as [v|] eqn:Hi; [|done]. cbn in E. destruct (silent c e && is_open c e && _) eqn:Eb; [|done].
  apply andb_true_iff in Eb as [[Es Eo]%andb_true_iff _]. unfold silent in Es.
  destruct (cl_inbox c !! e) as [[|]|] eqn:Hib; [|done..]. injection E as <-.
  destruct (ci_owner c Hc e i Ho) as (_ & _ & [j Hj] & v0 & p & Hv0 & Hp). assert (v0 = v) as -> by congruence.
  rewrite (open_iff c e i v Ho Hi), Hp in Eo. destruct p as [[] r]; [|done].
  pose proof (ci_view c Hc i v Hi) as Hv. pose proof Hv as [Vid _ _ _ Vu _ _].
  destruct (vi_phase _ _ _ _ _ Hv e r j [] ltac:(done) Hp Hj Hib) as [G|(R1 & R2 & R3 & R4 & R5 & [u Hu] & R7)].
  { exfalso. destruct G as (_ & _ & rs & info & q & _ & _ & G). destruct G as [[_ ?]|[[_ ?]|[_ ?]]]; done. }
  assert (Hvs : vstep (cl_owner c) i v (close_end v e)).
  { eapply close_vstep; [apply alike_refl|done..|]. intros j' Hj' Hlt. assert (j' = j) as -> by congruence. right.
    split_and!; try done; [auto|]. exists u. split; [done|]. by eapply Vu. }
  apply local_step with v; [done|done| |done|done| | |].
  - eapply close_ok; [by apply vinv_weaken|done|]. intros k Hk. destruct (vi_remotes _ _ _ _ _ Hv k e Hk ltac:(done)) as [Ok _]. congruence.
  - intros e' i' ms' _ _ H. exists ms', []. by rewrite app_nil_r.
  - intros x a k Hx Hak [H|H]; left; [left; by eapply closed_local|by right].
  - intros k e' Hk. left. by apply close_remotes in Hk.
Qed.

(** ** Dialing *)

(** New connections do not disturb a view. *)
Lemma vinv_extend ow ow' ib ib' i v : vinv ow ib i v ->
  (forall e, is_Some (vw_ends v !! e) -> ow' !! e = ow !! e /\ ow' !! other e = ow !! other e /\ ib' !! e = ib !! e) ->
  vinv ow' ib' i v.
Proof.
  intros [] Hx. split; eauto.
  - intros e p He. destruct (Hx e) as (-> & _); [by eexists|eauto].
  - intros e r j ms Hn He. destruct (Hx e) as (_ & -> & ->); [by eexists|eauto].
  - intros e r j u Hn He. destruct (Hx e) as (_ & -> & _); [by eexists|eauto].
  - intros k e Hk Hn. destruct (vi_remotes0 k e Hk Hn) as [Ho (r & He)]. destruct (Hx e) as (_ & -> & _); [by eexists|eauto].
Qed.

(** A new end waits for the INFO of the other one. *)
Lemma vinv_new e r j rs info ow ib i v : vinv ow ib i v -> vw_ends v !! e = None -> ow !! e = Some i -> ow !! other e = Some j ->
  cfg !! j = Some (rs, info) -> rt_remoteID r = [] -> (forall u, rt_url r = Some u -> resolve i (url_Host u) = Some j) ->
  ib !! e = Some [SInfo info] \/ ib !! e = Some [SConnect j; SInfo info] -> vinv ow ib i (put_end v e true r).
Proof.
  intros Hv He Ho Hj Hcf Hr Hu Hib. pose proof Hv as [].
  assert (Hno : forall k, vw_remotes v !! k <> Some e).
  { intros k Hk. destruct (vi_remotes0 k e Hk ltac:(done)) as [_ (r' & Hr')]. congruence. }
  apply vinv_complete with e; [apply vinv_put; [by apply vinv_weaken|done]| |].
  - cbn. rewrite lookup_insert_eq, Hj. intros r' j' [= <-] [= <-]. split; [|done]. intros ms Hms. left. split_and!; [|done|].
    + cbn. intros Hin. destruct (vi_routes0 e Hin) as [k Hk]. by destruct (Hno k).
    + exists rs, info, []. rewrite Hms in Hib. destruct Hib as [[= ->]|[= ->]]; split_and!; auto.
  - cbn. intros k Hk. by destruct (Hno k).
Qed.

(** The view of [x] after the [n]th goroutine of [i] reached [j]. *)
Definition joined (e : N) (i j : bytes) (u : URL) (n : nat) (x : bytes) (w : view) : view :=
  let w := if decide (x = i)
    then put_end (set_vw_started w (delete n (vw_started w))) e true (new_route (vw_Routes w) (Some u)) else w in
  if decide (x = j) then put_end w (e + 1)%N true (new_route (vw_Routes w) None) else w.

Lemma joined_same e i j u n x w : let w' := joined e i j u n x w in
  vw_id w' = vw_id w /\ vw_Routes w' = vw_Routes w /\ vw_info w' = vw_info w /\ vw_remotes w' = vw_remotes w /\ vw_routes w' = vw_routes w.
Proof. unfold joined. by repeat case_decide. Qed.

Lemma joined_ends e i j u n x w e' : e' <> e -> e' <> (e + 1)%N -> vw_ends (joined e i j u n x w) !! e' = vw_ends w !! e'.
Proof. intros H1 H2. unfold joined. repeat case_decide; cbn; by rewrite ?lookup_insert_ne by auto. Qed.

Lemma joined_started e i j u n x w : vw_started (joined e i j u n x w) = if decide (x = i) then delete n (vw_started w) else vw_started w.
Proof. unfold joined. by repeat case_decide. Qed.

Section dial.
Context (c : cluster) (Hc : cinv c) (i j : bytes) (vi : view) (n : nat) (d : dialing) (u : URL).
Context (Hi : cl_nodes c !! i = Some vi) (Hd : vw_started vi !! n = Some d) (Hu : dial_url d = Some u) (Hres : resolve i (url_Host u) = Some j).
Abbreviation e := (cl_next c).

Lemma next_fresh : cl_owner c !! e = None /\ cl_owner c !! (e + 1)%N = None.
Proof.
  split; (destruct (cl_owner c !! _) as [x|] eqn:E; [|done]; destruct (ci_owner c Hc _ x E) as (H & _); lia).
Qed.

Lemma connect_spec c' :
  connect (Cluster (<[i := set_vw_started vi (delete n (vw_started vi))]> (cl_nodes c)) (cl_owner c) (cl_inbox c) e) i j u = Some c' ->
  exists vj, cl_nodes c !! j = Some vj /\ (forall x, cl_nodes c' !! x = joined e i j u n x <$> cl_nodes c !! x) /\
    cl_owner c' = <[e := i]> (<[(e + 1)%N := j]> (cl_owner c)) /\
    cl_inbox c' = <[e := [SInfo (vw_info vj)]]> (<[(e + 1)%N := [SConnect i; SInfo (vw_info vi)]]> (cl_inbox c)) /\ cl_next c' = (e + 2)%N.
Proof.
  unfold connect. cbn [cl_nodes cl_next cl_owner cl_inbox]. rewrite lookup_insert_eq. cbn [mbind option_bind]. rewrite insert_insert_eq.
  set (vi' := put_end _ _ _ _). destruct (<[i := vi']> (cl_nodes c) !! j) as [w|] eqn:Ew; [|done]. cbn [mbind option_bind]. intros [= <-]. cbn.
  apply lookup_insert_Some in Ew as [[Heq <-]|[Hne Ew]].
  - exists vi. rewrite <- Heq. split_and!; [done| |done..]. intros x. unfold joined. rewrite insert_insert_eq.
    destruct (decide (i = x)) as [<-|Hx]; [rewrite lookup_insert_eq, Hi; cbn; by repeat case_decide|].
    rewrite lookup_insert_ne by done. destruct (cl_nodes c !! x); cbn; repeat case_decide; first [congruence|reflexivity].
  - exists w. split_and!; [done| |done..]. intros x. unfold joined. destruct (decide (j = x)) as [<-|Hx].
    + rewrite lookup_insert_eq, Ew. cbn. repeat case_decide; first [congruence|reflexivity].
    + rewrite lookup_insert_ne by done. destruct (decide (i = x)) as [<-|Hx'].
      * rewrite lookup_insert_eq, Hi. cbn. repeat case_decide; first [congruence|reflexivity].
      * rewrite lookup_insert_ne by done. destruct (cl_nodes c !! x); cbn; repeat case_decide; first [congruence|reflexivity].
Qed.

Lemma next_other : other e = (e + 1)%N /\ other (e + 1) = e.
Proof. pose proof (other_even e (ci_next c Hc)) as H. split; [done|]. by rewrite <- H, other_end_twice. Qed.

Lemma old_ne e' x : cl_owner c !! e' = Some x -> e' <> e /\ e' <> (e + 1)%N /\ other e' <> e /\ other e' <> (e + 1)%N.
Proof.
  intros H. destruct (ci_owner c Hc e' x H) as (H1 & _ & [y Hy] & _). destruct (ci_owner c Hc (other e') y Hy) as (H2 & _). lia.
Qed.

(** The state afterwards. *)
Context (c' : cluster) (vj : view) (Hvj : cl_nodes c !! j = Some vj).
Context (Hn : forall x, cl_nodes c' !! x = joined e i j u n x <$> cl_nodes c !! x).
Context (Ho : cl_owner c' = <[e := i]> (<[(e + 1)%N := j]> (cl_owner c))).
Context (Hb : cl_inbox c' = <[e := [SInfo (vw_info vj)]]> (<[(e + 1)%N := [SConnect i; SInfo (vw_info vi)]]> (cl_inbox c))).
Context (Hx : cl_next c' = (e + 2)%N).

Lemma new_ends : cl_owner c' !! e = Some i /\ cl_owner c' !! (e + 1)%N = Some j /\
  cl_inbox c' !! e = Some [SInfo (vw_info vj)] /\ cl_inbox c' !! (e + 1)%N = Some [SConnect i; SInfo (vw_info vi)].
Proof. rewrite Ho, Hb. split_and!; rewrite ?lookup_insert_eq, ?lookup_insert_ne, ?lookup_insert_eq by lia; done. Qed.

Lemma old_kept e' x : cl_owner c !! e' = Some x -> cl_owner c' !! e' = Some x /\ cl_owner c' !! other e' = cl_owner c !! other e' /\
  cl_inbox c' !! e' = cl_inbox c !! e' /\ cl_inbox c' !! other e' = cl_inbox c !! other e'.
Proof. intros Hx'. destruct (old_ne e' x Hx') as (? & ? & ? & ?). rewrite Ho, Hb, !lookup_insert_ne by auto. done. Qed.

Lemma owner_cases e' x : cl_owner c' !! e' = Some x -> cl_owner c !! e' = Some x \/ (e' = e /\ x = i) \/ (e' = (e + 1)%N /\ x = j).
Proof. rewrite Ho, !lookup_insert_Some. intros [[<- <-]|[_ [[<- <-]|[_ H]]]]; auto. Qed.

Lemma no_new_end x w : cl_nodes c !! x = Some w -> vw_ends w !! e = None /\ vw_ends w !! (e + 1)%N = None.
Proof.
  intros Hw. destruct next_fresh as [F1 F2].
  split; (destruct (vw_ends w !! _) as [p|] eqn:Ep; [|done]; pose proof (vi_ends _ _ _ _ _ (ci_view c Hc x w Hw) _ _ Ep); congruence).
Qed.

Lemma joined_vinv x w : cl_nodes c !! x = Some w -> vinv (cl_owner c') (cl_inbox c') x (joined e i j u n x w).
Proof.
  intros Hw. pose proof (ci_view c Hc x w Hw) as Hv. destruct new_ends as (Hoi & Hoj & Hbi & Hbj). destruct next_other as [O1 O2].
  assert (Hv' : vinv (cl_owner c') (cl_inbox c') x w).
  { eapply vinv_extend; [exact Hv|]. intros e' [p Hp]. pose proof (vi_ends _ _ _ _ _ Hv _ _ Hp) as Ho'.
    destruct (old_kept e' x Ho') as (-> & -> & -> & _). done. }
  destruct (no_new_end x w Hw) as [E1 E2]. unfold joined.
  assert (Hv1 : vinv (cl_owner c') (cl_inbox c') x (if decide (x = i) then
    put_end (set_vw_started w (delete n (vw_started w))) e true (new_route (vw_Routes w) (Some u)) else w)).
  { case_decide as Hxi; [|done]. subst x. pose proof (vi_cfg _ _ _ _ _ (ci_view c Hc j vj Hvj)) as Hcj.
    eapply vinv_new; [by apply vinv_started|done|done|by rewrite O1|exact Hcj|done|cbn; by intros ? [= <-]|by left]. }
  destruct (decide (x = j)) as [Hxj|]; [|exact Hv1]. subst x. pose proof (vi_cfg _ _ _ _ _ (ci_view c Hc i vi Hi)) as Hci.
  eapply vinv_new; [exact Hv1| |done|by rewrite O2|exact Hci|done|done|by right].
  case_decide; [|done]. cbn. by rewrite lookup_insert_ne by lia.
Qed.

Lemma open_kept e' x : cl_owner c !! e' = Some x -> is_open c' e' = is_open c e'.
Proof.
  intros Hx'. destruct (old_ne e' x Hx') as (N1 & N2 & _). unfold is_open. destruct (old_kept e' x Hx') as (-> & _). rewrite Hx'. cbn.
  rewrite Hn. destruct (cl_nodes c !! x) as [w|]; [|done]. cbn. by rewrite joined_ends.
Qed.

Lemma new_meet : i <> j -> meet c' i j.
Proof.
  intros Hij. destruct new_ends as (Hoi & Hoj & _). destruct next_other as [O1 O2]. assert (Ei : has_end c' i j).
  { exists (joined e i j u n i vi), e, (new_route (vw_Routes vi) (Some u)). rewrite Hn, Hi, O1. split_and!; [done| |done].
    unfold joined. rewrite (decide_True (P := i = i)), decide_False by auto. cbn. apply lookup_insert_eq. }
  assert (Ej : has_end c' j i).
  { exists (joined e i j u n j vj), (e + 1)%N, (new_route (vw_Routes vj) None). rewrite Hn, Hvj, O2. split_and!; [done| |done].
    unfold joined. rewrite (decide_True (P := j = j)), decide_False by auto. cbn. apply lookup_insert_eq. }
  unfold meet. destruct (string_lt i j) eqn:L1; [auto|]. destruct (string_lt j i) eqn:L2; [auto|]. by destruct Hij; apply string_lt_total.
Qed.

Lemma task_kept a b : task c a b -> task c' a b \/ (a = i /\ b = j).
Proof.
  intros (w & Hw & d' & u' & Hd' & Hu' & Hr'). destruct (decide (a = i /\ b = j)) as [|Hno]; [by right|left].
  exists (joined e i j u n a w). rewrite Hn, Hw. split; [done|]. exists d', u'. rewrite joined_started. split; [|done].
  case_decide as Hai; [|done]. subst a. assert (w = vi) as -> by congruence. apply list_elem_of_lookup in Hd' as [n' Hn'].
  destruct (decide (n' = n)) as [->|Hne]; [destruct Hno; split; [done|congruence]|].
  apply list_elem_of_lookup. destruct (decide (n' < n)).
  - exists n'. by rewrite list_lookup_delete_lt.
  - exists (n' - 1). rewrite list_lookup_delete_ge by lia. by replace (S (n' - 1)) with n' by lia.
Qed.

Lemma meet_kept a b : a <> b -> meet c a b -> meet c' a b.
Proof.
  assert (Hend : forall x y, has_end c x y -> has_end c' x y).
  { intros x y (w & e' & r & Hw & He' & Ho'). pose proof (vi_ends _ _ _ _ _ (ci_view c Hc x w Hw) _ _ He') as Ha.
    destruct (old_ne e' x Ha) as (N1 & N2 & _). exists (joined e i j u n x w), e', r. rewrite Hn, Hw, joined_ends by done.
    destruct (old_kept e' x Ha) as (_ & -> & _). done. }
  intros Hab [H|[H|[[L H]|[L H]]]].
  - destruct (task_kept a b H) as [H'|[-> ->]]; [by left|by apply new_meet].
  - destruct (task_kept b a H) as [H'|[-> ->]]; [by right; left|]. apply meet_sym. apply new_meet. auto.
  - right; right; left. auto.
  - right; right; right. auto.
Qed.

Lemma told_kept a w k q b : cl_nodes c !! a = Some w -> vw_remotes w !! k = Some q -> told c q b -> told c' q b.
Proof.
  intros Hw Hq. pose proof (ci_view c Hc a w Hw) as Hv. destruct (vi_remotes _ _ _ _ _ Hv k q Hq ltac:(done)) as [Oq (rq & Eq)].
  destruct (old_kept q a (vi_ends _ _ _ _ _ Hv _ _ Eq)) as (_ & _ & _ & Hib). unfold told. rewrite Hib. by rewrite (open_kept (other q) k Oq).
Qed.

Lemma owner_ok e' x : cl_owner c' !! e' = Some x -> (e' < cl_next c')%N /\ is_Some (cl_inbox c' !! e') /\
  is_Some (cl_owner c' !! other e') /\ exists v p, cl_nodes c' !! x = Some v /\ vw_ends v !! e' = Some p.
Proof.
  destruct new_ends as (Hoi & Hoj & Hbi & Hbj). destruct next_other as [O1 O2]. intros Hx'. rewrite Hx.
  destruct (owner_cases e' x Hx') as [H|[[-> ->]|[-> ->]]].
  - destruct (ci_owner c Hc e' x H) as (P1 & P2 & P3 & w & p & Hw & Hp). destruct (old_ne e' x H) as (N1 & N2 & _).
    destruct (old_kept e' x H) as (_ & -> & -> & _). split_and!; [lia|done|done|]. exists (joined e i j u n x w), p. by rewrite Hn, Hw, joined_ends.
  - rewrite Hbi, O1, Hoj. split_and!; [lia|by eexists|by eexists|]. eexists _, _. split; [rewrite Hn, Hi; reflexivity|].
    unfold joined. rewrite (decide_True (P := i = i)) by done. destruct (decide (i = j)); cbn; rewrite ?lookup_insert_ne by lia; apply lookup_insert_eq.
  - rewrite Hbj, O2, Hoi. split_and!; [lia|by eexists|by eexists|]. eexists _, _. split; [rewrite Hn, Hvj; reflexivity|].
    unfold joined. rewrite (decide_True (P := j = j)) by done. cbn. apply lookup_insert_eq.
Qed.

Lemma dial_inv : cinv c'.
Proof.
  destruct new_ends as (Hoi & Hoj & Hbi & Hbj). destruct next_other as [O1 O2]. split.
  - intros x. rewrite Hn, <- (ci_dom c Hc). by rewrite fmap_is_Some.
  - intros x w'. rewrite Hn. destruct (cl_nodes c !! x) as [w|] eqn:Hw; [|done]. intros [= <-]. by apply joined_vinv.
  - exact owner_ok.
  - rewrite Hx, N.even_add. by rewrite (ci_next c Hc).
  - intros e' x y Hx' Hy Hne. destruct (owner_cases e' x Hx') as [H|[[-> ->]|[-> ->]]].
    + destruct (old_kept e' x H) as (_ & Hy' & _). rewrite Hy' in Hy. apply meet_kept; [done|]. by apply (ci_met c Hc e').
    + rewrite O1, Hoj in Hy. injection Hy as <-. by apply new_meet.
    + rewrite O2, Hoi in Hy. injection Hy as <-. apply meet_sym, new_meet. auto.
  - intros x y rs info u' H1 H2 H3 H4 H5. apply meet_kept; [done|]. by eapply (ci_conf c Hc).
  - intros a w' y k e1 f. rewrite Hn. destruct (cl_nodes c !! a) as [w|] eqn:Hw; [|done]. intros [= <-].
    destruct (joined_same e i j u n a w) as (_ & _ & _ & -> & _). intros Hy Hk Hne.
    destruct (ci_news c Hc a w y k e1 f Hw Hy Hk Hne) as [H|[H|H]];
      [left; by apply meet_kept|right; left; by eapply told_kept|right; right; by eapply told_kept].
Qed.
End dial.

(** A goroutine that reaches nobody ends. *)
Lemma dial_ends c i vi n d : cinv c -> cl_nodes c !! i = Some vi -> vw_started vi !! n = Some d ->
  (forall u j, dial_url d = Some u -> resolve i (url_Host u) <> Some j) ->
  cinv (upd_view c i (set_vw_started vi (delete n (vw_started vi))) (cl_inbox c)).
Proof.
  intros Hc Hi Hd Hno.
  assert (Hvs : vstep (cl_owner c) i vi (set_vw_started vi (delete n (vw_started vi)))).
  { split; cbn; [done| |eauto|eauto]. intros j (d' & u & Hd' & Hu & Hr). exists d', u. split; [|done]. cbn.
    apply list_elem_of_lookup in Hd' as [n' Hn']. destruct (decide (n' = n)) as [->|Hne]; [by destruct (Hno u j); congruence|].
    apply list_elem_of_lookup. destruct (decide (n' < n)).
    - exists n'. by rewrite list_lookup_delete_lt.
    - exists (n' - 1). rewrite list_lookup_delete_ge by lia. by replace (S (n' - 1)) with n' by lia. }
  apply local_step with vi; [done|done|by apply vinv_started, (ci_view c Hc)|done|done| | |by left].
  - intros e' i' ms' _ _ H. exists ms', []. by rewrite app_nil_r.
  - intros x a k Hx Hak [H|H]; left; [left; by eapply closed_local|by right].
Qed.

Lemma dial_ok c c' i n : cinv c -> do_dial resolve c i n = Some c' -> cinv c'.
Proof.
  intros Hc E. unfold do_dial in E. destruct (cl_nodes c !! i) as [vi|] eqn:Hi; [|done]. cbn in E.
  destruct (vw_started vi !! n) as [d|] eqn:Hd; [|done]. cbn in E. destruct (dial_url d) as [u|] eqn:Hu.
  - destruct (resolve i (url_Host u)) as [j|] eqn:Hr.
    + destruct (connect_spec c i j vi n u Hi c' E) as (vj & Hvj & Hn & Ho & Hb & Hx). by apply (dial_inv c Hc i j vi n d u Hi Hd Hu Hr c' vj).
    + destruct (tries_for_ever d); [done|]. injection E as <-. apply dial_ends with d; [done..|]. congruence.
  - injection E as <-. apply dial_ends with d; [done..|]. congruence.
Qed.

Abbreviation step := (cstep parse text resolve ip_of).

Lemma cinv_steps c c' : cinv c -> rtc step c c' -> cinv c'.
Proof.
  intros Hc Hs. induction Hs as [|c c1 c2 [m Hm] _ IH]; [done|]. apply IH. destruct m as [i n|e|e]; cbn in Hm;
    [by eapply dial_ok|by eapply cdeliver_ok|by eapply eof_ok].
Qed.

Lemma cinv_started c : started c -> cfg = (fun v => (vw_Routes v, vw_info v)) <$> cl_nodes c -> cinv c.
Proof.
  intros (Ho & Hb & Hx & Hf) Hcfg. split; rewrite ?Ho, ?Hb.
  - intros i. rewrite Hcfg. by rewrite lookup_fmap, fmap_is_Some.
  - intros i v Hi. specialize (Hf i v Hi). cbn in Hf. rewrite Hf. split; cbn; try done.
    rewrite Hcfg, lookup_fmap, Hi. done.
  - by intros e i.
  - done.
  - by intros e i j.
  - intros i j rs info u Hi Hu Hr _ _. left. rewrite Hcfg, lookup_fmap in Hi. destruct (cl_nodes c !! i) as [v|] eqn:Hv; [|done].
    injection Hi as <- <-. exists v. split; [done|]. specialize (Hf i v Hv). cbn in Hf. exists (DoConnect u true), u. rewrite Hf. cbn.
    split; [|done]. apply list_elem_of_fmap. by exists u.
  - intros a v j k e f Ha. specialize (Hf a v Ha). cbn in Hf. rewrite Hf. done.
Qed.

(** ** When nothing can happen *)

Lemma stuck_task c i j : cinv c -> stuck parse text resolve ip_of c -> is_Some (cfg !! j) -> ~ task c i j.
Proof.
  intros Hc Hs Hj (v & Hi & d & u & Hd & Hu & Hr). apply list_elem_of_lookup in Hd as [n Hn]. apply (ci_dom c Hc) in Hj as [w Hw].
  assert (Hx : exists c', do_dial resolve c i n = Some c').
  { unfold do_dial. rewrite Hi. cbn. rewrite Hn. cbn. rewrite Hu, Hr. unfold connect. cbn. rewrite lookup_insert_eq. cbn.
    rewrite insert_insert_eq. destruct (decide (i = j)) as [<-|Hne]; [rewrite lookup_insert_eq|rewrite lookup_insert_ne, Hw by done]; by eexists. }
  destruct Hx as [c' Hx]. apply (Hs c'). by exists (MDial i n).
Qed.

Lemma stuck_end c e i v r : cinv c -> stuck parse text resolve ip_of c -> cl_owner c !! e = Some i -> cl_nodes c !! i = Some v ->
  vw_ends v !! e = Some (true, r) -> cl_inbox c !! e = Some [] /\ is_open c (other e) = true.
Proof.
  intros Hc Hs Ho Hi He. destruct (ci_owner c Hc e i Ho) as (_ & [ms Hms] & [j Hj] & _).
  assert (Hop : is_open c e = true) by (by rewrite (open_iff c e i v Ho Hi), He).
  assert (ms = []) as ->.
  { destruct ms as [|m ms]; [done|]. assert (Hx : exists c', do_deliver parse text ip_of c e = Some c').
    { unfold do_deliver. rewrite Ho. cbn. rewrite Hi. cbn. rewrite Hj. cbn. rewrite Hms. cbn. rewrite Hop.
      destruct m; [by eexists|]. destruct (on_info _ _ _ _ _ _). by eexists. }
    destruct Hx as [c' Hx]. destruct (Hs c'). by exists (MDeliver e). }
  split; [done|]. destruct (is_open c (other e)) eqn:E; [done|]. assert (Hx : exists c', do_eof c e = Some c').
  { unfold do_eof, silent. rewrite Ho. cbn. rewrite Hi. cbn. rewrite Hms, Hop, E. by eexists. }
  destruct Hx as [c' Hx]. destruct (Hs c'). by exists (MEof e).
Qed.

Lemma stuck_registered c e i j v r : cinv c -> stuck parse text resolve ip_of c -> cl_owner c !! e = Some i -> cl_owner c !! other e = Some j ->
  cl_nodes c !! i = Some v -> vw_ends v !! e = Some (true, r) -> vw_remotes v !! j = Some e.
Proof.
  intros Hc Hq Ho Hj Hi He. destruct (stuck_end c e i v r Hc Hq Ho Hi He) as [Hib _].
  destruct (vi_phase _ _ _ _ _ (ci_view c Hc i v Hi) e r j [] ltac:(done) He Hj Hib) as [(_ & _ & rs & info & q & _ & _ & G)|(_ & R & _)]; [|done].
  destruct G as [[_ ?]|[[_ ?]|[_ ?]]]; done.
Qed.

Lemma linked_sym c i j : linked c i j -> linked c j i.
Proof. intros (vi & vj & e & H1 & H2 & H3 & H4). exists vj, vi, (other e). by rewrite other_end_twice. Qed.

Lemma has_end_linked c i j : cinv c -> stuck parse text resolve ip_of c -> has_end c i j -> linked c i j.
Proof.
  intros Hc Hq (v & e & r & Hi & He & Hj). pose proof (vi_ends _ _ _ _ _ (ci_view c Hc i v Hi) _ _ He) as Ho.
  destruct (stuck_end c e i v r Hc Hq Ho Hi He) as [_ Hop].
  destruct (ci_owner c Hc (other e) j Hj) as (_ & _ & _ & w & [o r'] & Hw & He'). rewrite (open_iff c _ j w Hj Hw), He' in Hop.
  destruct o; [|done]. exists v, w, e. split_and!; [done|done| |].
  - by eapply stuck_registered.
  - eapply stuck_registered; [done|done|exact Hj|by rewrite other_end_twice|done|done].
Qed.

Lemma meet_linked c i j : cinv c -> stuck parse text resolve ip_of c -> is_Some (cfg !! i) -> is_Some (cfg !! j) -> meet c i j -> linked c i j.
Proof.
  intros Hc Hq Hi Hj [H|[H|[[_ H]|[_ H]]]]; [by apply stuck_task in H..| |].
  - by apply has_end_linked.
  - apply linked_sym. by apply has_end_linked.
Qed.

(** Two servers that are linked to a third are linked. *)
Lemma linked_through c a i j : cinv c -> stuck parse text resolve ip_of c -> i <> j -> linked c a i -> linked c a j -> linked c i j.
Proof.
  intros Hc Hq Hij (v & vi & e & Ha & Hi & Hei & _) (v' & vj & f & Ha' & Hj & Hfj & _). assert (v' = v) as -> by congruence.
  assert (Hno : forall x k q, vw_remotes v !! x = Some q -> ~ told c q k).
  { intros x k q Hq'. pose proof (ci_view c Hc a v Ha) as Hv. destruct (vi_remotes _ _ _ _ _ Hv x q Hq' ltac:(done)) as [Ox (r & Er)].
    destruct (stuck_end c q a v r Hc Hq (vi_ends _ _ _ _ _ Hv _ _ Er) Ha Er) as [_ Hop].
    destruct (ci_owner c Hc (other q) x Ox) as (_ & _ & _ & w & [o r'] & Hw & He').
    assert (Ho' : vw_ends w !! other q = Some (true, r')) by (rewrite (open_iff c _ x w Ox Hw), He' in Hop; by destruct o).
    destruct (stuck_end c (other q) x w r' Hc Hq Ox Hw Ho') as [Hib _].
    intros [H|(ms & Hms & y & Hy & _)]; [congruence|]. rewrite Hib in Hms. injection Hms as <-. by apply not_elem_of_nil in Hy. }
  destruct (ci_news c Hc a v i j e f Ha Hei Hfj Hij) as [H|[H|H]]; [apply meet_linked; [done|done|apply (ci_dom c Hc); by eexists..|done]|by destruct (Hno i j e Hei)|by destruct (Hno j i f Hfj)].
Qed.

(** [a] has a configured route to [b]. *)
Definition configured (a b : bytes) : Prop := exists rs info u,
  cfg !! a = Some (rs, info) /\ u ∈ rs /\ resolve a (url_Host u) = Some b /\ is_Some (cfg !! b).

Lemma configured_linked c a b : cinv c -> stuck parse text resolve ip_of c -> a <> b -> configured a b -> linked c a b.
Proof. intros Hc Hq Hne (rs & info & u & Ha & Hu & Hr & Hb). apply meet_linked; [done|done|by eexists|done|]. by eapply (ci_conf c Hc). Qed.

Lemma mesh_from c i j : cinv c -> stuck parse text resolve ip_of c -> rtc (fun a b => configured a b \/ configured b a) i j -> i = j \/ linked c i j.
Proof.
  intros Hc Hq Hs. induction Hs as [i|i k j Hk _ IH]; [by left|].
  destruct (decide (i = j)) as [|Hij]; [by left|right].
  assert (Hik : i = k \/ linked c i k).
  { destruct (decide (i = k)); [by left|right]. destruct Hk as [Hk|Hk]; [by apply configured_linked|]. apply linked_sym. by apply configured_linked. }
  destruct Hik as [->|Hik]; [by destruct IH|]. destruct IH as [->|IH]; [done|].
  apply (linked_through c k); [done..|by apply linked_sym|done].
Qed.
End mesh.
