(* ===== verification/ClusterMesh.v ===== *)
(** * ClusterMesh: what a cluster comes to

    The theorem on full meshes, a run of three servers, and a run in which
    two servers lose each other because they listen on all interfaces. *)

From S2P Require Import Prelude Util Subject Sublist Parser Client Route Cluster ClusterSpec.
Local Open Scope nat_scope.

(** The routes and the INFO of the servers of a cluster. *)
Definition settings (c : cluster) : gmap bytes (list URL * Info) := (fun v => (vw_Routes v, vw_info v)) <$> cl_nodes c.

(** C5. A full mesh: when the servers of a cluster have started, their
    addresses lead to them and their configured routes connect them, directly
    or by way of others, then however they dial, greet, tell each other of new
    servers, drop duplicate connections and dial again, a run that can go
    no further has linked every two servers: each has the other registered,
    both on the same connection. *)
Theorem cluster_full_mesh (parse : bytes -> option URL) (text : URL -> bytes) (resolve : bytes -> bytes -> option bytes)
  (ip_of : bytes -> option bytes) (c0 c : cluster)
  (Haddr : addressing parse text resolve ip_of (settings c0)) (Hstart : started c0)
  (Hconn : forall i j, is_Some (cl_nodes c0 !! i) -> is_Some (cl_nodes c0 !! j) ->
    rtc (fun a b => configured resolve (settings c0) a b \/ configured resolve (settings c0) b a) i j)
  (Hrun : rtc (cstep parse text resolve ip_of) c0 c) (Hstop : stuck parse text resolve ip_of c)
  (i j : bytes) (Hi : is_Some (cl_nodes c0 !! i)) (Hj : is_Some (cl_nodes c0 !! j)) (Hij : i <> j) : linked c i j.
Proof.
  assert (Hc : cinv parse resolve (settings c0) c) by (eapply cinv_steps; [done|by apply cinv_started|done]).
  by destruct (mesh_from parse text resolve ip_of (settings c0) c i j Hc Hstop (Hconn i j Hi Hj)).
Qed.

(** ** Runs *)

Fixpoint run_moves (parse : bytes -> option URL) (text : URL -> bytes) (resolve : bytes -> bytes -> option bytes)
    (ip_of : bytes -> option bytes) (ms : list cmove) (c : cluster) : option cluster :=
  match ms with
  | [] => Some c
  | m :: ms => c ← cmove_run parse text resolve ip_of c m; run_moves parse text resolve ip_of ms c
  end.

Lemma run_moves_steps parse text resolve ip_of ms : forall c c', run_moves parse text resolve ip_of ms c = Some c' ->
  rtc (cstep parse text resolve ip_of) c c'.
Proof.
  induction ms as [|m ms IH]; cbn; intros c c' E; [injection E as <-; apply rtc_refl|].
  destruct (cmove_run parse text resolve ip_of c m) as [c1|] eqn:Em; [|done]. eapply rtc_l; [by exists m|by apply IH].
Qed.

(** At rest nothing can happen. *)
Lemma at_rest_stuck parse text resolve ip_of c : at_rest c = true -> stuck parse text resolve ip_of c.
Proof.
  intros [H1 H2]%andb_true_iff c' [m Hm]. apply bool_decide_eq_true in H1, H2. destruct m as [i n|e|e]; cbn in Hm.
  - unfold do_dial in Hm. destruct (cl_nodes c !! i) as [v|] eqn:Hi; [|done]. specialize (H1 i v Hi). cbn in H1, Hm.
    apply nil_length_inv in H1. by rewrite H1 in Hm.
  - unfold do_deliver in Hm. destruct (cl_owner c !! e) as [i|] eqn:Ho; [|done]. specialize (H2 e i Ho). cbn in H2, Hm.
    apply andb_true_iff in H2 as [H2 _]. unfold silent in H2. destruct (cl_nodes c !! i); [|done]. cbn in Hm.
    destruct (cl_owner c !! other e); [|done]. cbn in Hm. by destruct (cl_inbox c !! e) as [[|]|].
  - unfold do_eof in Hm. destruct (cl_owner c !! e) as [i|] eqn:Ho; [|done]. specialize (H2 e i Ho). cbn in H2, Hm.
    destruct (cl_nodes c !! i); [|done]. cbn in Hm. apply andb_true_iff in H2 as [H2 H3]. rewrite H2 in Hm. cbn in Hm.
    destruct (is_open c e); [|done]. cbn in H3, Hm. by rewrite H3 in Hm.
Qed.

(** Hosts named after their servers, and [0.0.0.0], where a server finds
    itself. *)
Definition ex_parse (t : bytes) : option URL :=
  if decide (take 13 t = bs "nats-route://") then Some (MkURL (take (length t - 14) (drop 13 t)) None) else None.
Definition ex_text (u : URL) : bytes := [].
Definition ex_hosts : list (bytes * bytes) :=
  [(bs "a:6222", bs "A"); (bs "b:6222", bs "B"); (bs "c:6222", bs "C"); (bs "d:6222", bs "D")].
Definition ex_resolve (i h : bytes) : option bytes :=
  if decide (h = bs "0.0.0.0:6222") then Some i else snd <$> List.find (fun p => bool_decide (p.1 = h)) ex_hosts.
Definition ex_ip (i : bytes) : option bytes := Some (lower <$> i).
Definition ex_node (id host : string) (routes : list string) : bytes * view :=
  (bs id, fresh_view (bs id) ((fun h => MkURL (bs h) None) <$> routes) [] []
     (MkInfo (bs id) [] [] (bs host) 6222 false false false false 0 [] [] 0)).
Definition ex_cluster (l : list (bytes * view)) : cluster := Cluster (list_to_map l) ∅ ∅ 0.

(** Three servers, two of which are configured to connect to the first. *)
Definition ex_three : cluster :=
  ex_cluster [ex_node "A" "a" []; ex_node "B" "b" ["a:6222"%string]; ex_node "C" "c" ["a:6222"%string]].

Definition ex_three_moves : list cmove :=
  [MDial (bs "C") 0; MDial (bs "B") 0; MDeliver 2; MDeliver 3; MDeliver 3; MDeliver 1; MDeliver 1; MDeliver 2; MDial (bs "B") 0;
   MDeliver 4; MDeliver 5; MDeliver 5; MDeliver 3; MDeliver 0; MDeliver 4].

Lemma ex_three_server i rs info : settings ex_three !! i = Some (rs, info) ->
  (i = bs "A" /\ rs = [] /\ info = vw_info (ex_node "A" "a" []).2) \/
  (i = bs "B" /\ rs = [MkURL (bs "a:6222") None] /\ info = vw_info (ex_node "B" "b" []).2) \/
  (i = bs "C" /\ rs = [MkURL (bs "a:6222") None] /\ info = vw_info (ex_node "C" "c" []).2).
Proof.
  unfold settings. intros (v & [= <- <-] & H)%lookup_fmap_Some. apply elem_of_list_to_map_2 in H. set_unfold in H.
  destruct H as [[= -> ->]|[[= -> ->]|[[= -> ->]|[]]]]; auto.
Qed.

Lemma ex_three_addressing : addressing ex_parse ex_text ex_resolve ex_ip (settings ex_three).
Proof.
  split.
  - intros i rs info [(-> & _ & ->)|[(-> & _ & ->)|(-> & _ & ->)]]%ex_three_server; by vm_compute.
  - intros i j rs info _ [(-> & _ & ->)|[(-> & _ & ->)|(-> & _ & ->)]]%ex_three_server; eexists; by vm_compute.
  - intros i j rs info u _ [(-> & _ & ->)|[(-> & _ & ->)|(-> & _ & ->)]]%ex_three_server; eexists; by vm_compute.
  - intros i j rs rs' info info' u Hi Hj Hu. apply ex_three_server in Hi, Hj.
    assert (u = MkURL (bs "a:6222") None) as -> by (destruct Hi as [(_ & -> & _)|[(_ & -> & _)|(_ & -> & _)]]; set_solver).
    destruct Hj as [(-> & _ & ->)|[(-> & _ & ->)|(-> & _ & ->)]]; intros H; vm_compute in H |- *; done.
Qed.

Lemma ex_three_connected i j : is_Some (cl_nodes ex_three !! i) -> is_Some (cl_nodes ex_three !! j) ->
  rtc (fun a b => configured ex_resolve (settings ex_three) a b \/ configured ex_resolve (settings ex_three) b a) i j.
Proof.
  assert (H : forall x, is_Some (cl_nodes ex_three !! x) -> x = bs "A" \/ configured ex_resolve (settings ex_three) x (bs "A")).
  { intros x [v Hv]. assert (Hx : settings ex_three !! x = Some (vw_Routes v, vw_info v)) by (unfold settings; by rewrite lookup_fmap, Hv).
    apply ex_three_server in Hx as [(-> & _)|[(-> & _)|(-> & _)]]; [by left| |];
      (right; eexists _, _, (MkURL (bs "a:6222") None); split_and!; [by vm_compute|by left|by vm_compute|by vm_compute; eexists]). }
  intros Hi Hj. transitivity (bs "A").
  - destruct (H i Hi) as [->|Hc]; [apply rtc_refl|apply rtc_once; by left].
  - destruct (H j Hj) as [->|Hc]; [apply rtc_refl|apply rtc_once; by right].
Qed.

Lemma cluster_full_mesh_witness : exists c, run_moves ex_parse ex_text ex_resolve ex_ip ex_three_moves ex_three = Some c /\ linked c (bs "B") (bs "C").
Proof.
  destruct (run_moves ex_parse ex_text ex_resolve ex_ip ex_three_moves ex_three) as [c|] eqn:E; [|by vm_compute in E]. exists c. split; [done|].
  apply (cluster_full_mesh ex_parse ex_text ex_resolve ex_ip ex_three c ex_three_addressing).
  - split_and!; [done..|]. intros id v Hv. apply elem_of_list_to_map_2 in Hv. set_unfold in Hv.
    destruct Hv as [[= -> ->]|[[= -> ->]|[[= -> ->]|[]]]]; reflexivity.
  - exact ex_three_connected.
  - by eapply run_moves_steps.
  - apply at_rest_stuck. vm_compute in E. injection E as <-. by vm_compute.
  - by eexists.
  - by eexists.
  - by vm_compute.
Defined.

(** Servers that listen on all interfaces tell [0.0.0.0] as their host. *)
Definition ex_wildcard : cluster :=
  ex_cluster [ex_node "A" "a" []; ex_node "D" "d" []; ex_node "B" "0.0.0.0" ["a:6222"%string; "d:6222"%string];
              ex_node "C" "0.0.0.0" ["a:6222"%string; "d:6222"%string]].

(** [B] and [C] connect to [A] and [D]; both tell [C] of [B], which dials
    twice; [B] registers one connection and [C] the other, and each drops
    what the other registered; [B] dials again, and reaches itself. *)
Definition ex_wildcard_moves : list cmove :=
  [MDial (bs "B") 0; MDial (bs "B") 0; MDial (bs "C") 0; MDial (bs "C") 0; MDeliver 0; MDeliver 2; MDeliver 4; MDeliver 6;
   MDeliver 5; MDeliver 5; MDeliver 1; MDeliver 1; MDeliver 7; MDeliver 7; MDeliver 3; MDeliver 3;
   MDeliver 4; MDeliver 6; MDial (bs "C") 0; MDial (bs "C") 0; MDeliver 9; MDeliver 9; MDeliver 10; MDeliver 8; MDeliver 11; MDeliver 11; MEof 9;
   MDial (bs "B") 0; MDeliver 12; MDeliver 13; MDeliver 13; MDeliver 5; MDial (bs "A") 0; MDeliver 14; MDeliver 4; MDeliver 5; MDeliver 15;
   MDeliver 15; MDeliver 6; MDeliver 2; MDeliver 7; MDeliver 3; MDeliver 1; MDeliver 1; MDeliver 0; MEof 10].

(** Servers that listen on all interfaces, which is the default, can lose
    each other: a run of four such servers, in which nothing fails, comes to
    rest with two of them not connected.  The URL that a server dials again
    for a connection that it accepted is made from the host that the other
    one tells, which is its listen address, and not from where the connection
    comes. *)
Theorem wildcard_host_splits : exists c,
  rtc (cstep ex_parse ex_text ex_resolve ex_ip) ex_wildcard c /\ at_rest c = true /\ ~ linked c (bs "B") (bs "C") /\
  linked c (bs "A") (bs "B") /\ linked c (bs "A") (bs "C") /\ linked c (bs "D") (bs "B") /\ linked c (bs "D") (bs "C").
Proof.
  destruct (run_moves ex_parse ex_text ex_resolve ex_ip ex_wildcard_moves ex_wildcard) as [c|] eqn:E; [|by vm_compute in E].
  exists c. split; [by eapply run_moves_steps|]. vm_compute in E. injection E as <-. split; [by vm_compute|].
  split_and!; apply (bool_decide_unpack _); by vm_compute.
Qed.
