(* ===== verification/ClusterView.v ===== *)
(** * ClusterView: the handlers of a server on its view

    The operations of [Cluster] on views are what the handlers of [Client] do
    to a server: closing a connection, a CONNECT and an INFO of a route.  The
    traffic of a server, its subscriptions and its clients do not touch the
    view. *)

From S2P Require Import Prelude Util Subject Sublist Parser Client ClientSession Route Cluster.
Local Open Scope nat_scope.

(** An end of a connection to another server. *)
Definition end_of (c : client) : option (bool * route) :=
  if decide (c_typ c = ROUTER) then (fun r => (bool_decide (c_nc c <> NcNil), r)) <$> c_route c else None.

Definition view_of (s : server) : view :=
  let g := sv_rg s in
  View (sv_id s) (rg_Routes g) (rg_Username g) (rg_Password g) (rg_routeInfo g) (sv_remotes s) (sv_routes s)
    (omap end_of (sv_objs s)) (rg_started g).

(** ** What leaves the view as it is *)

Definition same_view {A} (m : M A) : Prop := forall s s' x, m s = Some (s', x) -> view_of s' = view_of s.

Create HintDb same_view discriminated.

Lemma same_ret {A} (x : A) : same_view (mret x).
Proof. by intros s s' y [= <- _]. Qed.

Lemma same_panic {A} : same_view (@panic A).
Proof. by intros s s' x. Qed.

Lemma same_gets {A} (f : server -> A) : same_view (gets f).
Proof. by intros s s' y [= <- _]. Qed.

Lemma same_obj k : same_view (obj k).
Proof. intros s s' y. unfold obj. destruct (sv_objs s !! k); [|done]. by intros [= <- _]. Qed.

Lemma same_lift {A} (o : option A) : same_view (lift o).
Proof. destruct o; [apply same_ret|apply same_panic]. Qed.

Lemma same_bind {A B} (m : M A) (k : A -> M B) : same_view m -> (forall x, same_view (k x)) -> same_view (m ≫= k).
Proof.
  intros Hm Hk s s' y E. unfold mbind, M_bind in E. destruct (m s) as [[s1 x]|] eqn:E1; [|done].
  rewrite (Hk x _ _ _ E). by eapply Hm.
Qed.

Lemma same_modify f : (forall s, view_of (f s) = view_of s) -> same_view (modify f).
Proof. intros Hf s s' x [= <- _]. apply Hf. Qed.

Lemma same_when b m : same_view m -> same_view (when b m).
Proof. intros Hm. destruct b; [done|apply same_ret]. Qed.

Lemma same_forM {A} (l : list A) f : (forall x, same_view (f x)) -> same_view (forM l f).
Proof. intros Hf. induction l as [|x l IH]; cbn; [apply same_ret|]. by apply same_bind. Qed.

Lemma same_upd k f : (forall c, end_of (f c) = end_of c) -> same_view (upd k f).
Proof.
  intros Hf. apply same_modify. intros s. unfold view_of. cbn. f_equal. apply map_eq. intros k'. rewrite !lookup_omap.
  destruct (decide (k = k')) as [<-|Hne]; [|by rewrite lookup_alter_ne]. rewrite lookup_alter_eq. destruct (sv_objs s !! k); cbn; [apply Hf|done].
Qed.
Hint Resolve same_ret same_panic same_gets same_obj same_lift : same_view.

Ltac same_step :=
  first
    [ solve [eauto 2 with same_view]
    | apply same_bind; [|intros]
    | apply same_when
    | apply same_forM; intros
    | apply same_upd; intros; reflexivity
    | apply same_modify; intros; cbv beta; repeat case_match; reflexivity
    | case_match ].
Ltac same := repeat same_step.

Section handlers.
Context (growcap : nat -> nat -> nat) (choice : nat -> nat)
        (wr : N -> list bytes -> bytes -> write_result)
        (json_opts : bytes -> clientOpts -> clientOpts * option bytes)
        (json_info : bytes -> Info + bytes) (nenv : netEnv) (info_proto : Info -> bytes)
        (fmt_q : bytes -> bytes)
        (cAuth rAuth : option (clientOpts -> option (option User))).

Lemma toss_same : same_view (toss choice).
Proof. by intros s s' x [= <- _]. Qed.

Lemma sl_insert_same sub : same_view (sl_insert growcap sub).
Proof. intros s s' x. unfold sl_insert. destruct (Insert growcap (sv_sl s) sub) as [[sl e]|]; [|done]. by intros [= <- _]. Qed.

Lemma sl_remove_same sub : same_view (sl_remove growcap sub).
Proof. intros s s' x. unfold sl_remove. destruct (Remove growcap (sv_sl s) sub) as [[sl e]|]; [|done]. by intros [= <- _]. Qed.
Hint Resolve toss_same sl_insert_same sl_remove_same : same_view.

Lemma net_write_same k d : same_view (net_write wr k d).
Proof. unfold net_write. same. Qed.
Hint Resolve net_write_same : same_view.

Lemma sendProto_same k d : same_view (sendProto wr k d).
Proof. unfold sendProto. same. Qed.
Hint Resolve sendProto_same : same_view.

Lemma sendErr_same k d : same_view (sendErr wr k d).
Proof. unfold sendErr. same. Qed.

Lemma sendOK_same k : same_view (sendOK wr k).
Proof. unfold sendOK. same. Qed.

Lemma broadcastInterest_same p : same_view (broadcastInterestToRoutes wr p).
Proof. unfold broadcastInterestToRoutes. same. Qed.
Hint Resolve sendErr_same sendOK_same broadcastInterest_same : same_view.

Lemma clearConnection_same k : same_view (clearConnection k).
Proof.
  unfold clearConnection. apply same_upd. intros c. case_decide; [done|]. unfold end_of. cbn. case_decide; [|done].
  destruct (c_route c); [|done]. cbn. by rewrite !bool_decide_eq_true_2 by done.
Qed.
Hint Resolve clearConnection_same : same_view.

Lemma broadcastUnSubscribe_same sub : same_view (broadcastUnSubscribe wr sub).
Proof. unfold broadcastUnSubscribe, counts. same. Qed.

Lemma broadcastSubscribe_same sub : same_view (broadcastSubscribe wr sub).
Proof. unfold broadcastSubscribe. same. Qed.
Hint Resolve broadcastUnSubscribe_same broadcastSubscribe_same : same_view.

Lemma sendLocalSubs_same k : same_view (sendLocalSubsToRoute wr k).
Proof. unfold sendLocalSubsToRoute. same. Qed.

Lemma forwardInfo_same i : same_view (forwardNewRouteInfoToKnownServers wr info_proto i).
Proof. unfold forwardNewRouteInfoToKnownServers. same. Qed.

Lemma updateServerINFO_same urls : same_view (updateServerINFO nenv urls).
Proof. unfold updateServerINFO. same. Qed.

Lemma sendAsyncInfo_same : same_view (sendAsyncInfoToClients wr).
Proof. unfold sendAsyncInfoToClients. same. Qed.
Hint Resolve sendLocalSubs_same forwardInfo_same updateServerINFO_same sendAsyncInfo_same : same_view.

Lemma route_added_same k u i b : same_view (route_added wr nenv info_proto k u i b).
Proof. unfold route_added. same. Qed.

Lemma RegisterUser_same k u : same_view (RegisterUser growcap k u).
Proof. unfold RegisterUser. same. Qed.
Hint Resolve RegisterUser_same : same_view.

Lemma checkAuth_same k : same_view (checkAuth growcap cAuth rAuth k).
Proof. unfold checkAuth. same. Qed.
Hint Resolve checkAuth_same : same_view.

Lemma sub_allowed_same k a : same_view (sub_allowed growcap choice k a).
Proof. unfold sub_allowed, perm_match. same. Qed.
Hint Resolve sub_allowed_same : same_view.

Lemma add_sub_same k a : same_view (add_sub growcap wr k a).
Proof. unfold add_sub. same. Qed.
Hint Resolve add_sub_same : same_view.

Lemma unsubscribe_same k a : same_view (unsubscribe growcap k a).
Proof. unfold unsubscribe, counts, set_sub_counts. same. Qed.
Hint Resolve unsubscribe_same : same_view.

(** Subscriptions and pings. *)
Lemma traffic_same k a :
  same_view (processSub growcap choice wr fmt_q k a) /\ same_view (processUnsub growcap wr k a) /\
  same_view (processPing wr k) /\ same_view (processPong k) /\ same_view (processPingTimer wr k).
Proof.
  split_and!; unfold processSub, processUnsub, unsub_sid, processPing, processPong, processPingTimer, activity, new_sub, counts, set_sub_counts; same.
Qed.

(** ** The updates of the view *)

Lemma view_end s k : vw_ends (view_of s) !! k = sv_objs s !! k ≫= end_of.
Proof. unfold view_of. cbn. apply lookup_omap. Qed.

Lemma upd_view_eq s k c f o r : sv_objs s !! k = Some c -> end_of (f c) = Some (o, r) ->
  view_of (set_objs s (alter f k (sv_objs s))) = put_end (view_of s) k o r.
Proof.
  intros Hk Hf. unfold view_of, put_end, set_vw_ends. cbn. f_equal. apply map_eq. intros k'. rewrite lookup_omap.
  destruct (decide (k = k')) as [<-|Hne]; [by rewrite lookup_alter_eq, lookup_insert_eq, Hk|].
  by rewrite lookup_alter_ne, lookup_insert_ne, lookup_omap.
Qed.

#[local] Instance any_rel : ClientRel (fun _ _ => True).
Proof. by split. Qed.

Lemma keeps_running {A} (m : M A) s s' x : preserves (fun _ _ => True) m -> m s = Some (s', x) -> sv_running s' = sv_running s.
Proof. intros Hm E. by destruct (Hm s s' x E) as [(_ & H & _) _]. Qed.

Lemma reconnect_view c r s s' : c_typ c = ROUTER -> c_route c = Some r -> sv_running s = true -> reconnect c s = Some (s', tt) ->
  view_of s' = redial (view_of s) r.
Proof.
  intros Ht Hr Hrun. unfold reconnect, redial, startDialing, when, modify, gets, mbind, M_bind, mret, M_ret, id. rewrite Hr.
  rewrite bool_decide_eq_true_2 by done. cbn [andb]. destruct (rt_didSolicit r || rt_retry r); [|by intros [= <-]].
  rewrite Hrun. cbn [negb view_of vw_remotes vw_id]. repeat case_decide; try (by intros [= <-]).
  all: destruct (_ || rt_retry r); intros [= <-]; by rewrite ?Hrun.
Qed.

(** Closing a route. *)
Lemma close_view s s' k c r : sv_running s = true -> sv_objs s !! k = Some c -> c_typ c = ROUTER -> c_route c = Some r ->
  closeConnection growcap wr k s = Some (s', tt) -> view_of s' = close_end (view_of s) k.
Proof.
  intros Hrun Hk Ht Hr E. unfold close_end. rewrite view_end, Hk. cbn. unfold end_of. rewrite decide_True, Hr by done. cbn.
  unfold closeConnection in E. erewrite run_bind in E by (unfold obj; rewrite Hk; reflexivity). destruct (decide (c_nc c = NcNil)) as [Hn|Hn].
  { injection E as <-. by rewrite bool_decide_eq_false_2 by tauto. }
  rewrite bool_decide_eq_true_2 by done. erewrite run_bind in E by reflexivity. set (s1 := set_objs s _) in E.
  assert (H1 : view_of s1 = put_end (view_of s) k false r).
  { apply upd_view_eq with c; [done|]. unfold end_of. cbn. by rewrite decide_True, Hr by done. }
  assert (Hk1 : sv_objs s1 !! k = Some (with_nc (with_atmr c TNone) NcNil)) by (cbn; by rewrite lookup_alter_eq, Hk).
  unfold mbind at 1, M_bind at 1 in E. destruct (removeClient k s1) as [[s2 []]|] eqn:E2; [|done].
  assert (H2 : view_of s2 = unregister (view_of s1) k r /\ sv_running s2 = true).
  { unfold removeClient, obj, modify, mbind, M_bind in E2. rewrite Hk1 in E2. cbn [c_typ c_route with_nc with_atmr] in E2. rewrite Ht, Hr in E2.
    injection E2 as <-. done. }
  destruct H2 as [H2 Hr2]. unfold mbind at 1, M_bind at 1 in E.
  match type of E with context [forM ?l ?f s2] => destruct (forM l f s2) as [[s3 []]|] eqn:E3; [|done] end.
  assert (H3 : view_of s3 = view_of s2).
  { eapply same_forM; [|exact E3]. intros sub. apply same_bind; [apply sl_remove_same|]. intros. apply same_when, broadcastUnSubscribe_same. }
  assert (Hr3 : sv_running s3 = true).
  { rewrite <- Hr2. eapply keeps_running; [|exact E3]. apply (preserves_forM (fun _ _ => True)). intros sub.
    apply (preserves_bind (fun _ _ => True)); [apply sl_remove_pres, _|]. intros. apply preserves_when; [apply _|]. apply broadcastUnSubscribe_pres, _. }
  rewrite (reconnect_view c r s3 s' Ht Hr Hr3 E), H3, H2, H1. done.
Qed.

Lemma startDialing_view d s s' : sv_running s = true -> startDialing d s = Some (s', tt) -> view_of s' = vstart (view_of s) d.
Proof. unfold startDialing, modify. intros ->. by intros [= <-]. Qed.

(** News of another server. *)
Lemma implicit_view info s s' : sv_running s = true -> processImplicitRoute nenv info s = Some (s', tt) ->
  view_of s' = implicit (ne_parse nenv) (view_of s) info.
Proof.
  intros Hrun. unfold processImplicitRoute, implicit. erewrite run_bind by reflexivity. cbn [view_of vw_id vw_remotes vw_Routes id].
  repeat case_decide; try (by intros [= <-]). destruct (hasThisRouteConfigured _ info); [by intros [= <-]|].
  destruct (ne_parse nenv (info_IP info)); [|by intros [= <-]]. intros E. by apply startDialing_view in E.
Qed.

(** The remotes are routes. *)
Definition remotes_ok (s : server) : Prop := forall id e, sv_remotes s !! id = Some e ->
  exists c r, sv_objs s !! e = Some c /\ c_typ c = ROUTER /\ c_route c = Some r.

Lemma addRoute_view s s' k c r added sendInfo : sv_running s = true -> remotes_ok s -> sv_objs s !! k = Some c ->
  end_of c = Some (true, r) -> addRoute k s = Some (s', (added, sendInfo)) ->
  add_route (view_of s) k r = (view_of s', added, sendInfo) /\ sv_running s' = true.
Proof.
  intros Hrun Hrem Hk He E.
  assert (Hc : c_typ c = ROUTER /\ c_route c = Some r /\ c_nc c <> NcNil).
  { unfold end_of in He. case_decide; [|done]. destruct (c_route c); [|done]. cbn in He. injection He as Hn ->. by apply bool_decide_eq_true in Hn. }
  destruct Hc as (Ht & Hr & Hn). unfold addRoute in E.
  erewrite run_bind in E by (unfold obj; rewrite Hk; reflexivity). rewrite Hr in E. erewrite run_bind in E by reflexivity.
  erewrite run_bind in E by reflexivity. rewrite Hrun in E. cbn [negb] in E. erewrite run_bind in E by reflexivity.
  unfold add_route. change (vw_remotes (view_of s)) with (sv_remotes s). change (vw_routes (view_of s)) with (sv_routes s).
  destruct (sv_remotes s !! rt_remoteID r) as [e0|] eqn:E0.
  - destruct (Hrem _ e0 E0) as (c0 & r0 & Hk0 & Ht0 & Hr0).
    assert (Hv0 : vw_ends (view_of s) !! e0 = Some (bool_decide (c_nc c0 <> NcNil), r0)).
    { rewrite view_end, Hk0. cbn. unfold end_of. by rewrite decide_True, Hr0. }
    rewrite Hv0. destruct (rt_didSolicit r); cbn [when] in E; [|by injection E as <- <- <-].
    unfold mbind at 1, M_bind at 1 in E.
    erewrite run_bind in E by (unfold obj; rewrite Hk0; reflexivity). erewrite run_bind in E by (rewrite Hr0; reflexivity).
    erewrite run_bind in E by reflexivity. cbn [upd modify] in E. injection E as <- <- <-. split; [|done].
    set (s1 := set_objs s _). assert (H1 : view_of s1 = put_end (view_of s) e0 (bool_decide (c_nc c0 <> NcNil)) (set_retry r (rt_retry r0))).
    { apply upd_view_eq with c0; [done|]. unfold end_of. cbn. by rewrite decide_True. }
    rewrite <- H1. do 2 f_equal. assert (Hk1 : exists c1, sv_objs s1 !! k = Some c1 /\ c_typ c1 = ROUTER /\ c_nc c1 <> NcNil).
    { cbn. destruct (decide (e0 = k)) as [->|Hne]; [rewrite lookup_alter_eq, Hk; cbn; by eexists|rewrite lookup_alter_ne by done; by exists c]. }
    destruct Hk1 as (c1 & Hk1 & Ht1 & Hn1). symmetry. apply (upd_view_eq s1 k c1); [done|]. unfold end_of. cbn.
    by rewrite decide_True, bool_decide_eq_true_2.
  - erewrite run_bind in E by reflexivity. erewrite run_bind in E by reflexivity. erewrite run_bind in E by reflexivity.
    set (s1 := set_maps _ _ _ _ _) in E.
    assert (H1 : view_of s1 = set_vw_maps (view_of s) (<[rt_remoteID r := k]> (sv_remotes s)) ({[k]} ∪ sv_routes s)) by done.
    rewrite <- H1. change (vw_id (view_of s1)) with (sv_id s).
    change (sv_id s1) with (sv_id s) in E. destruct (string_lt (sv_id s) (rt_remoteID r)); cbn [when] in E.
    + erewrite run_bind in E by reflexivity. erewrite run_bind in E by reflexivity. injection E as <- <- <-. split; [|done].
      assert (H2 : view_of (set_objs s1 (alter (fun c => with_route c (match c_route c with Some r => Some (set_retry r true) | None => None end)) k (sv_objs s1))) =
        put_end (view_of s1) k true (set_retry r true)).
      { apply upd_view_eq with c; [done|]. unfold end_of. cbn. rewrite decide_True, Hr by done. cbn. by rewrite bool_decide_eq_true_2. }
      rewrite <- H2. reflexivity.
    + erewrite run_bind in E by reflexivity. erewrite run_bind in E by reflexivity. by injection E as <- <- <-.
Qed.

(** ** What is sent *)

(** [m] sends nothing on [y]. *)
Definition spares (y : N) {A} (m : M A) : Prop := forall s s' x, m s = Some (s', x) -> c_out <$> sv_objs s' !! y = c_out <$> sv_objs s !! y.

Lemma spares_id y {A} (m : M A) : (forall s s' x, m s = Some (s', x) -> sv_objs s' = sv_objs s) -> spares y m.
Proof. intros Hm s s' x E. by rewrite (Hm _ _ _ E). Qed.

Lemma spares_bind y {A B} (m : M A) (k : A -> M B) : spares y m -> (forall x, spares y (k x)) -> spares y (m ≫= k).
Proof.
  intros Hm Hk s s' x E. unfold mbind, M_bind in E. destruct (m s) as [[s1 z]|] eqn:E1; [|done]. rewrite (Hk z _ _ _ E). by eapply Hm.
Qed.

Lemma spares_forM y {A} (l : list A) f : (forall x, x ∈ l -> spares y (f x)) -> spares y (forM l f).
Proof.
  induction l as [|x l IH]; intros Hf; cbn; [apply spares_id; by intros s s' z [= <-]|].
  apply spares_bind; [apply Hf; by left|]. intros _. apply IH. intros z Hz. apply Hf. by right.
Qed.

Lemma spares_upd y k f : (k <> y \/ forall c, c_out (f c) = c_out c) -> spares y (upd k f).
Proof.
  intros H s s' x [= <- _]. cbn. destruct (decide (k = y)) as [->|Hne]; [|by rewrite lookup_alter_ne].
  destruct H as [H|H]; [done|]. rewrite lookup_alter_eq. destruct (sv_objs s !! y); cbn; [by rewrite H|done].
Qed.

Lemma spares_when y b m : spares y m -> spares y (when b m).
Proof. intros Hm. destruct b; [done|]. apply spares_id. by intros s s' z [= <-]. Qed.

Lemma spares_modify y f : (forall s, sv_objs (f s) = sv_objs s) -> spares y (modify f).
Proof. intros Hf. apply spares_id. intros s s' x [= <- _]. apply Hf. Qed.

Lemma sl_remove_spares y sub : spares y (sl_remove growcap sub).
Proof. apply spares_id. intros s s' x. unfold sl_remove. repeat case_match; by intros [= <- _]. Qed.

Ltac spare :=
  repeat first
    [ apply spares_bind; [|intros]
    | apply spares_modify; intros; repeat case_match; reflexivity
    | apply sl_remove_spares
    | apply spares_when
    | apply spares_upd; by auto
    | apply spares_id; by intros ? ? ? [= <- _]
    | apply spares_id; intros ? ? ?; unfold obj, lift; case_match; by intros [= <- _]
    | case_match ].

Lemma sendProto_spares y k d : k <> y -> spares y (sendProto wr k d).
Proof. intros Hk. unfold sendProto, net_write. spare. Qed.

Lemma closeRoute_spares y k s s' c : sv_objs s !! k = Some c -> c_typ c = ROUTER -> closeConnection growcap wr k s = Some (s', tt) ->
  c_out <$> sv_objs s' !! y = c_out <$> sv_objs s !! y.
Proof.
  intros Hk Ht E. unfold closeConnection in E. erewrite run_bind in E by (unfold obj; rewrite Hk; reflexivity). case_decide; [by injection E as <-|].
  match type of E with ?m s = _ => assert (Hm : spares y m) end; [|by eapply Hm].
  rewrite bool_decide_eq_false_2 by tauto. unfold removeClient, reconnect, startDialing. cbn [when].
  spare. apply spares_forM. intros sub _. spare.
Qed.

Hypothesis write_ok : forall k out b, wr k out b = WOk.

(** A route that a message can be written to. *)
Definition open_route (c : client) : Prop := c_typ c = ROUTER /\ c_nc c = NcOpen /\ is_Some (c_route c).

(** The INFO [info] is for [c]. *)
Definition is_told (info : Info) (c : client) : bool :=
  match c_route c with Some rt => bool_decide (rt_remoteID rt <> info_ID info) | None => false end.

Lemma decide_cons_ne {B} (y x : N) l (a b : B) : y <> x -> (if decide (y ∈ x :: l) then a else b) = if decide (y ∈ l) then a else b.
Proof.
  intros Hne. destruct (decide (y ∈ l)) as [H|H]; [by rewrite decide_True by (by right)|].
  rewrite decide_False; [done|]. by intros [->|?]%elem_of_cons.
Qed.

Lemma forward_sends info l : forall s s', NoDup l -> (forall x, x ∈ l -> exists c, sv_objs s !! x = Some c /\ open_route c) ->
  forM l (fun r => c ← obj r; rt ← lift (c_route c);
    when (bool_decide (rt_remoteID rt <> info_ID info)) (sendProto wr r (info_proto info);; mret tt)) s = Some (s', tt) ->
  forall y c, sv_objs s !! y = Some c -> exists c', sv_objs s' !! y = Some c' /\
    c_out c' = c_out c ++ (if decide (y ∈ l) then (if is_told info c then [info_proto info] else []) else []).
Proof using info_proto wr write_ok.
  induction l as [|x l IH]; intros s s' Hnd Hop E y c Hy.
  { injection E as <-. exists c. rewrite decide_False by apply not_elem_of_nil. by rewrite app_nil_r. }
  apply NoDup_cons in Hnd as [Hx Hnd]. destruct (Hop x ltac:(by left)) as (cx & Hcx & Htx & Hnx & [rx Hrx]).
  cbn [forM] in E. unfold mbind at 1, M_bind at 1 in E. erewrite run_bind in E by (unfold obj; rewrite Hcx; reflexivity).
  erewrite run_bind in E by (rewrite Hrx; reflexivity).
  assert (Hstep : exists s1, when (bool_decide (rt_remoteID rx <> info_ID info)) (sendProto wr x (info_proto info);; mret tt) s = Some (s1, tt) /\
    forall z, sv_objs s1 !! z = if decide (z = x) then (if is_told info cx then Some (with_out cx (c_outMsgs cx) (c_outBytes cx) (c_out cx ++ [info_proto info])) else Some cx) else sv_objs s !! z).
  { unfold is_told. rewrite Hrx. case_bool_decide; cbn [when].
    - erewrite run_bind by (by eapply sendProto_open). eexists. split; [reflexivity|]. intros z. cbn.
      case_decide as Hz; [subst z; by rewrite lookup_alter_eq, Hcx|by rewrite lookup_alter_ne].
    - exists s. split; [done|]. intros z. case_decide; [by subst|done]. }
  destruct Hstep as (s1 & E1 & H1). rewrite E1 in E.
  assert (Hop1 : forall z, z ∈ l -> exists c, sv_objs s1 !! z = Some c /\ open_route c).
  { intros z Hz. rewrite H1, decide_False by (intros ->; done). apply Hop. by right. }
  destruct (decide (y = x)) as [->|Hne].
  - assert (c = cx) as -> by congruence. rewrite (decide_True (P := x ∈ x :: l)) by (by left).
    specialize (H1 x). rewrite decide_True in H1 by done. destruct (is_told info cx).
    + destruct (IH s1 s' Hnd Hop1 E x _ H1) as (c' & Hc' & Ho). rewrite decide_False in Ho by done. exists c'. split; [done|].
      rewrite Ho. cbn. by rewrite app_nil_r.
    + destruct (IH s1 s' Hnd Hop1 E x _ H1) as (c' & Hc' & Ho). rewrite decide_False in Ho by done. by exists c'.
  - specialize (H1 y). rewrite decide_False in H1 by done. rewrite Hy in H1. destruct (IH s1 s' Hnd Hop1 E y c H1) as (c' & Hc' & Ho).
    exists c'. split; [done|]. rewrite Ho. f_equal. by rewrite decide_cons_ne by done.
Qed.

(** [updateServerINFO] and [sendAsyncInfoToClients] do not write to routes. *)
Lemma async_spares y s s' : y ∉ sv_clients s -> sendAsyncInfoToClients wr s = Some (s', tt) -> c_out <$> sv_objs s' !! y = c_out <$> sv_objs s !! y.
Proof.
  intros Hy. unfold sendAsyncInfoToClients. erewrite run_bind by reflexivity. case_decide; [by intros [= <-]|]. apply spares_forM.
  intros k Hk. apply elem_of_elements in Hk. assert (k <> y) by (intros ->; done). apply spares_bind; [apply spares_id; intros ? ? ?; unfold obj; case_match; by intros [= <- _]|].
  intros c. repeat case_match; try (apply spares_upd; by left); [|apply spares_id; by intros ? ? ? [= <- _]].
  apply spares_bind; [by apply sendProto_spares|]. intros. apply spares_id. by intros ? ? ? [= <- _].
Qed.

Lemma updateServerINFO_spares y urls : spares y (updateServerINFO nenv urls).
Proof. unfold updateServerINFO. spare. Qed.

(** The routes of a server can be written to, and are no clients. *)
Definition routes_open (s : server) : Prop := forall x, x ∈ sv_routes s -> x ∉ sv_clients s /\ exists c, sv_objs s !! x = Some c /\ open_route c.

Lemma localSubs_only k c s s' : sv_objs s !! k = Some c -> open_route c -> sendLocalSubsToRoute wr k s = Some (s', tt) ->
  sv_routes s' = sv_routes s /\ sv_clients s' = sv_clients s /\
  exists b, sv_objs s' = alter (fun c => with_out c (c_outMsgs c) (c_outBytes c) (c_out c ++ [b])) k (sv_objs s).
Proof.
  intros Hk (_ & Hn & _) E. unfold sendLocalSubsToRoute in E. erewrite run_bind in E by reflexivity.
  destruct (local_protos (local_subs s)) as [b|]; [|done]. erewrite run_bind in E by reflexivity.
  erewrite run_bind in E by (by eapply sendProto_open). injection E as <-. cbn. eauto.
Qed.

Lemma route_added_sends k c u info b s s' y cy : sv_objs s !! k = Some c -> open_route c -> routes_open s ->
  route_added wr nenv info_proto k u info b s = Some (s', tt) -> y <> k -> y ∉ sv_clients s -> sv_objs s !! y = Some cy ->
  exists cy', sv_objs s' !! y = Some cy' /\ c_out cy' = c_out cy ++
    (if b && bool_decide (y ∈ sv_routes s) && is_told info cy then [info_proto (set_info_IP info (remote_IP (ne_String nenv) (ne_remoteIP nenv k) u info))] else []).
Proof.
  intros Hk Hop Hro E Hyk Hyc Hy. unfold route_added in E. unfold mbind at 1, M_bind at 1 in E.
  destruct (sendLocalSubsToRoute wr k s) as [[s1 []]|] eqn:E1; [|done].
  destruct (localSubs_only k c s s1 Hk Hop E1) as (R1 & C1 & data & O1).
  assert (Hy1 : sv_objs s1 !! y = Some cy) by (by rewrite O1, lookup_alter_ne by auto).
  set (info' := set_info_IP info _) in *. unfold mbind at 1, M_bind at 1 in E.
  destruct (when b (forwardNewRouteInfoToKnownServers wr info_proto info') s1) as [[s2 []]|] eqn:E2; [|done].
  assert (H2 : exists cy', sv_objs s2 !! y = Some cy' /\ c_out cy' = c_out cy ++
    (if b && bool_decide (y ∈ sv_routes s) && is_told info cy then [info_proto info'] else [])).
  { destruct b; cbn [when andb] in E2 |- *; [|injection E2 as <-; exists cy; by rewrite app_nil_r].
    unfold forwardNewRouteInfoToKnownServers in E2. erewrite run_bind in E2 by reflexivity.
    destruct (forward_sends info' (elements (sv_routes s1)) s1 s2) with (y := y) (c := cy) as (cy' & Hcy' & Ho); [apply NoDup_elements| |done|done|].
    { intros x Hx. apply elem_of_elements in Hx. rewrite R1 in Hx. destruct (Hro x Hx) as (_ & cx & Hcx & Hox). rewrite O1.
      destruct (decide (k = x)) as [<-|Hne]; [rewrite lookup_alter_eq, Hcx; by eexists|rewrite lookup_alter_ne by done; by exists cx]. }
    exists cy'. split; [done|]. rewrite Ho, R1. f_equal. change (is_told info' cy) with (is_told info cy).
    destruct (decide (y ∈ elements (sv_routes s))) as [Hd|Hd]; rewrite elem_of_elements in Hd; [by rewrite bool_decide_eq_true_2|by rewrite bool_decide_eq_false_2]. }
  destruct H2 as (cy2 & Hy2 & Ho2).
  assert (C2 : y ∉ sv_clients s2).
  { intros Hin. apply Hyc. rewrite <- C1. assert (Hp : preserves (fun _ _ => True) (when b (forwardNewRouteInfoToKnownServers wr info_proto info'))).
    { apply preserves_when; [apply _|]. apply forwardInfo_pres, _. }
    destruct (Hp _ _ _ E2) as [(_ & _ & Hc & _) _]. by apply Hc. }
  unfold mbind at 1, M_bind at 1 in E. destruct (updateServerINFO nenv (info_ClientConnectURLs info) s2) as [[s3 up]|] eqn:E3; [|done].
  pose proof (updateServerINFO_spares y _ _ _ _ E3) as H3.
  assert (C3 : y ∉ sv_clients s3).
  { intros Hin. apply C2. destruct (updateServerINFO_pres (fun _ _ => True) nenv (info_ClientConnectURLs info) _ _ _ E3) as [(_ & _ & Hc & _) _]. by apply Hc. }
  assert (H4 : c_out <$> sv_objs s' !! y = c_out <$> sv_objs s3 !! y) by (destruct up; cbn [when] in E; [by eapply async_spares|by injection E as <-]).
  rewrite H3, Hy2 in H4. destruct (sv_objs s' !! y) as [cy'|]; [|done]. injection H4 as H4. exists cy'. split; [done|]. by rewrite H4.
Qed.

Lemma addRoute_spares y k : spares y (addRoute k).
Proof. unfold addRoute. spare. Qed.

Lemma addRoute_added s s' k c b : sv_objs s !! k = Some c -> open_route c -> addRoute k s = Some (s', (true, b)) ->
  (forall y, y <> k -> sv_objs s' !! y = sv_objs s !! y) /\ sv_routes s' = {[k]} ∪ sv_routes s /\ sv_clients s' = sv_clients s /\
  exists c', sv_objs s' !! k = Some c' /\ open_route c'.
Proof.
  intros Hk (Ht & Hn & [r Hr]) E. unfold addRoute in E. erewrite run_bind in E by (unfold obj; rewrite Hk; reflexivity).
  rewrite Hr in E. erewrite run_bind in E by reflexivity. erewrite run_bind in E by reflexivity. destruct (negb (sv_running s)); [done|].
  erewrite run_bind in E by reflexivity. destruct (sv_remotes s !! rt_remoteID r) as [e0|].
  { unfold mbind at 1, M_bind at 1 in E. match type of E with context [when ?b ?m s] => destruct (when b m s) as [[? []]|] end; done. }
  do 3 (erewrite run_bind in E by reflexivity). destruct (string_lt _ _); cbn [when] in E; erewrite run_bind in E by reflexivity;
    (erewrite run_bind in E by reflexivity); injection E as <- <-; cbn.
  - split_and!; [intros y Hy; by rewrite lookup_alter_ne|done|done|]. rewrite lookup_alter_eq, Hk. cbn. rewrite Hr. eexists. split; [done|].
    split_and!; [done|done|by eexists].
  - split_and!; [done|done|done|]. exists c. split_and!; [done|]. split_and!; [done|done|by eexists].
Qed.

(** What [sent] has for [y]. *)
Definition sent_to (y : N) (sent : list (N * Info)) : list Info := snd <$> List.filter (fun m => bool_decide (m.1 = y)) sent.

Lemma sent_to_forwards y (i : Info) l : NoDup l -> sent_to y ((fun x => (x, i)) <$> l) = if decide (y ∈ l) then [i] else [].
Proof using.
  unfold sent_to. induction 1 as [|x l Hx Hnd IH]; [by rewrite decide_False by apply not_elem_of_nil|]. cbn. case_bool_decide as Hxy.
  - subst x. cbn. rewrite IH, decide_False, decide_True by (done || by left). done.
  - rewrite IH. by rewrite decide_cons_ne by auto.
Qed.

Lemma List_filter_NoDup {A} (P : A -> bool) (l : list A) : NoDup l -> NoDup (List.filter P l).
Proof.
  induction 1 as [|x l Hx Hnd IH]; [constructor|]. cbn. destruct (P x); [|done]. constructor; [|done].
  rewrite list_elem_of_In, filter_In, <- list_elem_of_In. tauto.
Qed.

Lemma forwards_sent s y cy info i : sv_objs s !! y = Some cy -> c_typ cy = ROUTER ->
  sent_to y ((fun x => (x, i)) <$> forwards (view_of s) (info_ID info)) = if bool_decide (y ∈ sv_routes s) && is_told info cy then [i] else [].
Proof.
  intros Hy Ht. unfold forwards. rewrite sent_to_forwards by (apply List_filter_NoDup, NoDup_elements).
  set (t := bool_decide _ && _). assert (Ht' : y ∈ List.filter (fun r => match vw_ends (view_of s) !! r with
    | Some (_, rt) => bool_decide (rt_remoteID rt <> info_ID info) | None => false end) (elements (vw_routes (view_of s))) <-> t = true).
  { rewrite list_elem_of_In, filter_In, <- list_elem_of_In, elem_of_elements, view_end, Hy. cbn. unfold end_of, t, is_told.
    rewrite decide_True, andb_true_iff, bool_decide_eq_true by done. cbn. by destruct (c_route cy). }
  destruct t; [by rewrite decide_True by (by apply Ht')|rewrite decide_False; [done|]]. intros H. by apply Ht' in H.
Qed.

Lemma remotes_ok_route s k c r' : remotes_ok s -> sv_objs s !! k = Some c -> c_typ c = ROUTER ->
  remotes_ok (set_objs s (alter (fun c => with_route c (Some r')) k (sv_objs s))).
Proof.
  intros H Hk Ht id e He. cbn in *. destruct (H id e He) as (ce & re & H1 & H2 & H3).
  destruct (decide (k = e)) as [<-|]; [rewrite lookup_alter_eq, Hk; by eexists _, r'|rewrite lookup_alter_ne by done; by exists ce, re].
Qed.

Lemma add_route_end v k r v' a b : add_route v k r = (v', a, b) -> vw_ends v !! k = Some (true, r) -> exists r', vw_ends v' !! k = Some (true, r').
Proof.
  unfold add_route. intros E Hk. destruct (vw_remotes v !! rt_remoteID r) as [e0|].
  - destruct (vw_ends v !! e0) as [[o old]|]; [|injection E as <- _ _; eauto]. destruct (rt_didSolicit r); injection E as <- _ _; [|eauto].
    cbn. rewrite lookup_insert_eq. eauto.
  - injection E as <- _ _. destruct (string_lt _ _); cbn; [rewrite lookup_insert_eq|]; eauto.
Qed.

Lemma end_object s k o r : vw_ends (view_of s) !! k = Some (o, r) -> exists c, sv_objs s !! k = Some c /\ c_typ c = ROUTER /\ c_route c = Some r.
Proof.
  rewrite view_end. destruct (sv_objs s !! k) as [c|]; [|done]. cbn. unfold end_of. case_decide; [|done].
  destruct (c_route c) as [r'|] eqn:Er; [|done]. intros [= _ <-]. by exists c.
Qed.

(** Nothing is written on a connection that [m] spares. *)
Lemma no_info_sent s s' y cy : c_out <$> sv_objs s' !! y = c_out <$> sv_objs s !! y -> sv_objs s !! y = Some cy ->
  exists cy', sv_objs s' !! y = Some cy' /\ c_out cy' = c_out cy ++ (info_proto <$> sent_to y []).
Proof.
  intros H Hy. rewrite Hy in H. destruct (sv_objs s' !! y) as [cy'|]; [|done]. injection H as H. exists cy'. by rewrite app_nil_r.
Qed.

(** A route is given the route object [r'] and then closed. *)
Lemma put_and_close s s' k c r' : sv_running s = true -> sv_objs s !! k = Some c -> open_route c ->
  closeConnection growcap wr k (set_objs s (alter (fun c => with_route c (Some r')) k (sv_objs s))) = Some (s', tt) ->
  view_of s' = close_end (put_end (view_of s) k true r') k /\ forall y, c_out <$> sv_objs s' !! y = c_out <$> sv_objs s !! y.
Proof.
  intros Hrun Hk (Ht & Hn & _) E. set (s1 := set_objs s _) in E.
  assert (Hk1 : sv_objs s1 !! k = Some (with_route c (Some r'))) by (cbn; by rewrite lookup_alter_eq, Hk).
  assert (V1 : view_of s1 = put_end (view_of s) k true r').
  { apply upd_view_eq with c; [done|]. unfold end_of. cbn. rewrite decide_True by done. cbn. by rewrite bool_decide_eq_true_2 by congruence. }
  split.
  - rewrite <- V1. by apply (close_view s1 s' k (with_route c (Some r')) r').
  - intros y. rewrite (closeRoute_spares y k s1 s' (with_route c (Some r')) Hk1 Ht E). cbn.
    destruct (decide (k = y)) as [<-|]; [by rewrite lookup_alter_eq, Hk|by rewrite lookup_alter_ne].
Qed.

(** C12. The INFO of a route refines its abstract counterpart: the
    view of the server changes as [on_info] says, and on every other route
    exactly the INFO is written that [on_info] sends there. *)
Theorem route_info_refines (s s' : server) (k : N) (c : client) (r : route) (info : Info)
  (Hrun : sv_running s = true) (Hrem : remotes_ok s) (Hro : routes_open s) (Hk : sv_objs s !! k = Some c) (Hop : open_route c) (Hkc : k ∉ sv_clients s)
  (Hr : c_route c = Some r) (E : processRouteInfo growcap wr nenv info_proto k info s = Some (s', tt)) :
  let '(v, sent) := on_info (ne_parse nenv) (ne_String nenv) (view_of s) k (ne_remoteIP nenv k) info in
  view_of s' = v /\
  forall y cy, y <> k -> y ∉ sv_clients s -> sv_objs s !! y = Some cy -> c_typ cy = ROUTER ->
    exists cy', sv_objs s' !! y = Some cy' /\ c_out cy' = c_out cy ++ (info_proto <$> sent_to y sent).
Proof.
  pose proof Hop as (Ht & Hn & _). unfold processRouteInfo in E. erewrite run_bind in E by (unfold obj; rewrite Hk; reflexivity).
  rewrite Hr, decide_False in E by congruence. unfold on_info. rewrite view_end, Hk. cbn [mbind option_bind].
  assert (He : end_of c = Some (true, r)) by (unfold end_of; rewrite decide_True, Hr by done; cbn; by rewrite bool_decide_eq_true_2 by congruence).
  rewrite He. destruct (decide (rt_remoteID r <> [] /\ rt_remoteID r <> info_ID info)) as [Hd|Hd].
  - split; [by apply implicit_view in E|]. intros y cy _ _ Hy _. apply no_info_sent with s; [|done].
    assert (Hsp : spares y (processImplicitRoute nenv info)) by (unfold processImplicitRoute, startDialing; spare). by eapply Hsp.
  - erewrite run_bind in E by reflexivity. change (vw_id (view_of s)) with (sv_id s). destruct (decide (info_ID info = sv_id s)) as [Hs|Hs].
    { erewrite run_bind in E by reflexivity. destruct (put_and_close s s' k c _ Hrun Hk Hop E) as [V O]. split; [done|].
      intros y cy _ _ Hy _. by apply no_info_sent with s. }
    erewrite run_bind in E by reflexivity. fold (informed (ne_parse nenv) r info) in E. set (r1 := informed (ne_parse nenv) r info) in *.
    set (s1 := set_objs s _) in E. destruct (route_url (ne_parse nenv) r info) as [u|] eqn:Eu.
    2: { destruct (put_and_close s s' k c r1 Hrun Hk Hop E) as [V O]. split; [done|]. intros y cy _ _ Hy _. by apply no_info_sent with s. }
    assert (Hk1 : sv_objs s1 !! k = Some (with_route c (Some r1))) by (cbn; by rewrite lookup_alter_eq, Hk).
    assert (Hop1 : open_route (with_route c (Some r1))) by (split_and!; [done..|by eexists]).
    assert (He1 : end_of (with_route c (Some r1)) = Some (true, r1)) by (unfold end_of; cbn; rewrite decide_True by done; cbn; by rewrite bool_decide_eq_true_2 by congruence).
    assert (V1 : view_of s1 = put_end (view_of s) k true r1) by (by apply upd_view_eq with c).
    assert (Hrem1 : remotes_ok s1) by (by eapply remotes_ok_route).
    assert (Hout1 : forall y, y <> k -> sv_objs s1 !! y = sv_objs s !! y) by (intros y Hy; cbn; by rewrite lookup_alter_ne).
    unfold mbind at 1, M_bind at 1 in E. destruct (addRoute k s1) as [[s2 [added b]]|] eqn:Ea; [|done].
    destruct (addRoute_view s1 s2 k _ r1 added b Hrun Hrem1 Hk1 He1 Ea) as [Hadd Hrun2]. rewrite V1 in Hadd. rewrite Hadd.
    destruct added.
    + destruct (addRoute_added s1 s2 k _ b Hk1 Hop1 Ea) as (O2 & R2 & C2 & c2 & Hk2 & Hop2). split; [by eapply route_added_same|].
      intros y cy Hyk Hyc Hy Hty. assert (Hy2 : sv_objs s2 !! y = Some cy) by (by rewrite O2, Hout1).
      destruct (route_added_sends k c2 u info b s2 s' y cy Hk2 Hop2) as (cy' & Hy' & Ho'); [|done|done|by rewrite C2|done|].
      { intros x Hx. rewrite R2 in Hx. rewrite C2. destruct (decide (x = k)) as [->|Hne]; [|rewrite O2, Hout1 by done; apply elem_of_union in Hx as [Hx%elem_of_singleton|Hx]; [done|by apply Hro]].
        split; [done|by exists c2]. }
      exists cy'. split; [done|]. rewrite Ho'. f_equal. destruct b; [|done]. cbn [andb].
      rewrite (forwards_sent s2 y cy info _ Hy2 Hty). by destruct (bool_decide (y ∈ sv_routes s2) && is_told info cy).
    + destruct (add_route_end _ _ _ _ _ _ Hadd (lookup_insert_eq _ _ _)) as [r2 He2]. destruct (end_object s2 k true r2 He2) as (c2 & Hk2 & Ht2 & Hr2).
      split; [by apply (close_view s2 s' k c2 r2)|]. intros y cy Hyk _ Hy _. apply no_info_sent with s; [|done].
      by rewrite (closeRoute_spares y k s2 s' c2 Hk2 Ht2 E), (addRoute_spares y k s1 s2 _ Ea), Hout1.
Qed.

(** A CONNECT that is accepted, before the authorization timer expires. *)
Lemma connect_view s s' k c r arg opts : sv_objs s !! k = Some c -> c_typ c = ROUTER -> c_route c = Some r -> c_atmr c <> TFired ->
  json_opts arg (c_opts c) = (opts, None) -> processConnect growcap wr json_opts cAuth rAuth k arg s = Some (s', None) ->
  view_of s' = on_connect (view_of s) k (o_name opts).
Proof.
  intros Hk Ht Hr Hf Hj E. unfold processConnect in E. erewrite run_bind in E by (unfold obj; rewrite Hk; reflexivity).
  unfold mbind at 1, M_bind at 1 in E. destruct (upd k (fun c => with_atmr c TNone) s) as [[s1 []]|] eqn:E1; [|done].
  rewrite decide_False in E by done. unfold connect_body in E.
  assert (Ho : obj k s1 = Some (s1, with_atmr c TNone)) by (injection E1 as <-; unfold obj; cbn; by rewrite lookup_alter_eq, Hk).
  erewrite run_bind in E by exact Ho. cbn [c_typ c_opts with_atmr] in E.
  rewrite Hj in E. unfold mbind at 1, M_bind at 1 in E. destruct (upd k (fun c => with_opts c opts) s1) as [[s2 []]|] eqn:E2; [|done].
  unfold mbind at 1, M_bind at 1 in E. destruct (upd k (fun c => with_flags c _) s2) as [[s3 []]|] eqn:E3; [|done].
  unfold mbind at 1, M_bind at 1 in E. match type of E with context [when ?b ?m s3] => destruct (when b m s3) as [[s4 []]|] eqn:E4; [|done] end.
  unfold mbind at 1, M_bind at 1 in E. destruct (checkAuth growcap cAuth rAuth k s4) as [[s5 ok]|] eqn:E5; [|done].
  assert (V5 : view_of s5 = view_of s).
  { assert (V4 : view_of s4 = view_of s3) by (eapply same_when; [|exact E4]; by apply same_modify).
    assert (V3 : view_of s3 = view_of s2) by (eapply same_upd; [|exact E3]; done).
    assert (V2 : view_of s2 = view_of s1) by (eapply same_upd; [|exact E2]; done).
    assert (V1 : view_of s1 = view_of s) by (eapply same_upd; [|exact E1]; done).
    rewrite (checkAuth_same _ _ _ _ E5). congruence. }
  destruct ok; cbn [negb] in E.
  2: { unfold mbind at 1, M_bind at 1 in E. destruct (authViolation growcap wr k s5) as [[? []]|]; done. }
  rewrite decide_False in E by (rewrite Ht; by intros [? _]).
  destruct (decide (c_typ c = ROUTER /\ o_lang opts <> [])).
  { unfold mbind at 1, M_bind at 1 in E. destruct (sendErr wr k _ s5) as [[s6 []]|]; [|done].
    unfold mbind at 1, M_bind at 1 in E. destruct (closeConnection growcap wr k s6) as [[? []]|]; done. }
  rewrite bool_decide_eq_true_2 in E by done. cbn [when] in E. erewrite run_bind in E by reflexivity. set (s6 := set_objs s5 _) in E.
  assert (V7 : view_of s' = view_of s6).
  { unfold mbind at 1, M_bind at 1 in E. destruct (when (o_verbose opts) (sendOK wr k) s6) as [[s7 []]|] eqn:E7; [|done]. injection E as <-.
    eapply same_when; [apply sendOK_same|exact E7]. }
  unfold on_connect. assert (Hend : vw_ends (view_of s) !! k = Some (bool_decide (c_nc c <> NcNil), r)).
  { rewrite view_end, Hk. cbn. unfold end_of. by rewrite decide_True, Hr. }
  rewrite V7, Hend. pose proof Hend as Hend5. rewrite <- V5, view_end in Hend5. destruct (sv_objs s5 !! k) as [c5|] eqn:Hk5; [|done]. cbn in Hend5.
  rewrite <- V5. apply upd_view_eq with c5; [done|]. unfold end_of in Hend5 |- *. cbn. case_decide; [|done].
  destruct (c_route c5) as [r5|]; [|done]. cbn in Hend5 |- *. injection Hend5 as -> ->. done.
Qed.

(** A new connection. *)
Lemma createRoute_view connect_json s s' k rURL ok b : info_TLSRequired (rg_routeInfo (sv_rg s)) = false ->
  (forall u, rURL = Some u -> let '(user, pass) := default ([], []) (url_User u) in
    connect_json (ConnectInfo false false user pass false (sv_id s)) = Some b) ->
  createRoute growcap wr connect_json info_proto k rURL ok s = Some (s', true) ->
  view_of s' = put_end (view_of s) k true (new_route (vw_Routes (view_of s)) rURL).
Proof.
  intros Htls Hj E. unfold createRoute, createRoute_begin, createRoute_finish in E.
  erewrite run_bind in E by reflexivity. erewrite run_bind in E by reflexivity. set (s1 := set_objs s _) in E.
  change (rg_routeInfo (sv_rg s1)) with (rg_routeInfo (sv_rg s)) in E. rewrite Htls in E. cbn [andb] in E.
  assert (V1 : view_of s1 = put_end (view_of s) k true (new_route (rg_Routes (sv_rg s)) rURL)).
  { unfold view_of, put_end, set_vw_ends. cbn. f_equal. by rewrite omap_insert. }
  change (vw_Routes (view_of s)) with (rg_Routes (sv_rg s)). rewrite <- V1. clear V1.
  assert (Hk1 : exists c, sv_objs s1 !! k = Some c /\ c_route c = Some (new_route (rg_Routes (sv_rg s)) rURL)) by (cbn; rewrite lookup_insert_eq; by eexists).
  destruct Hk1 as (c & Hk1 & Hr1). revert E. match goal with |- ?m s1 = _ -> _ => assert (Hm : forall x s2, m s1 = Some (s2, x) -> view_of s2 = view_of s1) end; [|by intros E; eapply Hm].
  intros x s2 E. erewrite run_bind in E by (unfold obj; rewrite Hk1; reflexivity). erewrite run_bind in E by reflexivity. set (s3 := set_rg s1 _) in E.
  unfold mbind at 1, M_bind at 1 in E. match type of E with context [when ?b ?m s3] => destruct (when b m s3) as [[s4 []]|] eqn:E4; [|done] end.
  assert (V4 : view_of s4 = view_of s3).
  { destruct rURL as [u|]; [|by injection E4 as <-]. rewrite bool_decide_eq_true_2 in E4 by (by eexists). cbn [when] in E4. unfold sendConnect in E4.
    erewrite run_bind in E4 by (unfold obj; cbn [s3 sv_objs set_rg]; rewrite Hk1; reflexivity). erewrite run_bind in E4 by (rewrite Hr1; reflexivity).
    erewrite run_bind in E4 by reflexivity. erewrite run_bind in E4 by reflexivity. specialize (Hj u eq_refl).
    destruct (default ([], []) (url_User u)) as [user pass]. cbn [sv_id s3 s1 set_rg set_objs] in E4. rewrite Hj in E4.
    eapply same_bind; [apply sendProto_same| |exact E4]. intros. apply same_ret. }
  change (view_of s1) with (view_of s3). rewrite <- V4. revert E.
  match goal with |- ?m s4 = _ -> _ => assert (Hm : same_view m) end; [|by intros E; eapply Hm].
  apply same_bind; [apply sendProto_same|intros]. apply same_bind; [apply same_when; apply same_upd; intros; reflexivity|intros; apply same_ret].
Qed.
End handlers.

(** A server with a route to [B], to which [C] connects. *)
Definition ex_route_conn (id : string) : client :=
  Client ROUTER zeroOpts NcOpen 0 ∅ None (ReadCache 0 None 0 0 0) ∅ TNone 0 (Some (ex_accepted (bs id))) 0 0 0 [].
Definition ex_joining : server :=
  Server (bs "A") true 1024 2 {[3%N := ex_route_conn "B"; 5%N := ex_route_conn "C"]} ∅ {[3%N]} {[bs "B" := 3%N]} NewSublist ∅ 0 0 0 0 0 [] 0
    (Routing [] [] [] false 0 no_info [] {[5%N]} (ConnectURLs ∅ [])).
Definition ex_nenv : netEnv := NetEnv (fun t => Some (MkURL t None)) url_Host (fun _ => Some (bs "10.0.0.3")) (fun _ => []).
Definition ex_info_C : Info := MkInfo (bs "C") [] [] (bs "c") 6222 false false false false 0 [] [bs "c:4222"] 0.

Lemma route_info_refines_witness : exists s',
  processRouteInfo go_growcap (fun _ _ _ => WOk) ex_nenv info_IP 5 ex_info_C ex_joining = Some (s', tt) /\
  view_of s' = (on_info (ne_parse ex_nenv) (ne_String ex_nenv) (view_of ex_joining) 5 (ne_remoteIP ex_nenv 5) ex_info_C).1 /\
  exists c', sv_objs s' !! 3%N = Some c' /\ c_out c' = [bs "nats-route://10.0.0.3:6222/"].
Proof.
  destruct (processRouteInfo go_growcap (fun _ _ _ => WOk) ex_nenv info_IP 5 ex_info_C ex_joining) as [[s' []]|] eqn:E; [|by vm_compute in E].
  pose proof (route_info_refines go_growcap (fun _ _ _ => WOk) ex_nenv info_IP (fun _ _ _ => eq_refl) ex_joining s' 5 (ex_route_conn "C") (ex_accepted (bs "C")) ex_info_C) as H.
  assert (Hro : routes_open ex_joining).
  { intros x Hx. change (x ∈ ({[3%N]} : gset N)) in Hx. apply elem_of_singleton in Hx as ->. split; [apply not_elem_of_empty|].
    exists (ex_route_conn "B"). split; [done|]. split_and!; [done|done|by eexists]. }
  assert (Hrem : remotes_ok ex_joining).
  { intros id e He. change (({[bs "B" := 3%N]} : gmap bytes N) !! id = Some e) in He. apply lookup_singleton_Some in He as [_ <-].
    by exists (ex_route_conn "B"), (ex_accepted (bs "B")). }
  specialize (H eq_refl Hrem Hro eq_refl ltac:(split_and!; [done|done|by eexists]) ltac:(apply not_elem_of_empty) eq_refl E).
  destruct (on_info (ne_parse ex_nenv) (ne_String ex_nenv) (view_of ex_joining) 5 (ne_remoteIP ex_nenv 5) ex_info_C) as [v sent] eqn:Eo.
  destruct H as [H1 H2]. exists s'. split; [done|]. split; [exact H1|].
  destruct (H2 3%N (ex_route_conn "B")) as (c' & H3 & H4); [done|apply not_elem_of_empty|done|done|]. exists c'. split; [exact H3|]. rewrite H4.
  vm_compute in Eo. injection Eo as _ <-. by vm_compute.
Defined.
