(* ===== verification/Lifecycle.v ===== *)
(** * Lifecycle: connections from their creation to the shutdown

    [createClient], [Shutdown] and [readLoop] of [src/server/server.go] and
    [client.go], on the store of [Client].  A step of a goroutine is what it
    does while it holds a lock, so [createClient] is three steps, between
    which anything else can run: the object is made and greeted, it is
    registered, and it is started after the TLS handshake.  The address of the
    connection and the internal clients' own goroutines are left out, and so
    are the last lines of [Shutdown], which close the listeners, wait for them
    on [done] and for the goroutines on [grWG]. *)

From S2P Require Import Prelude Util Subject Sublist SublistSpec SublistQueue SublistContract Parser Client ClientSession Route.
Open Scope Z_scope.

Definition set_running (s : server) x := Server (sv_id s) x (sv_maxControlLine s)
  (sv_maxPingsOut s) (sv_objs s) (sv_clients s) (sv_routes s) (sv_remotes s) (sv_sl s) (sv_counts s)
  (sv_fresh s) (sv_cproto s) (sv_outMsgs s) (sv_outBytes s) (sv_slowConsumers s) (sv_infoJSON s) (sv_tick s) (sv_rg s).

Section lifecycle.
Context (growcap : nat -> nat -> nat) (choice : nat -> nat)
        (wr : N -> list bytes -> bytes -> write_result)
        (json_opts : bytes -> clientOpts -> clientOpts * option bytes)
        (json_info : bytes -> Info + bytes) (nenv : netEnv) (info_proto : Info -> bytes) (connect_json : connectInfo -> option bytes)
        (fmt_q : bytes -> bytes)
        (cAuth rAuth : option (clientOpts -> option (option User))).
(** Settings of the server: [opts.MaxConn], [info.AuthRequired],
    [info.TLSRequired] and [info.MaxPayload]. *)
Context (maxConn : Z) (authRequired tlsRequired : bool) (maxPayload : Z).

Abbreviation closeConnection := (closeConnection growcap wr).

(** ** [createClient] *)

(** [initClient] on a new object, with its authorization timer. *)
Definition new_client (isInternal : bool) : client :=
  Client (if isInternal then INTERNALCLI else CLIENT) defaultOpts NcOpen maxPayload ∅ None (ReadCache 0 None 0 0 0) ∅
    (if negb isInternal && authRequired then TSet else TNone) 0 None 0 0 0 [].

Definition createClient_begin (cid : N) (isInternal : bool) : M unit :=
  modify (fun s => set_objs s (<[cid := new_client isInternal]> (sv_objs s)));;
  info ← gets sv_infoJSON;
  sendProto wr cid info;; mret tt.

(** The result tells whether the client is registered. *)
Definition createClient_register (cid : N) : M bool :=
  running ← gets sv_running;
  if negb running then mret false
  else
    clients ← gets sv_clients;
    if (0 <? maxConn) && (maxConn <=? Z.of_nat (size clients)) then maxConnExceeded growcap wr cid;; mret false
    else
      modify (fun s => set_maps s ({[cid]} ∪ sv_clients s) (sv_routes s) (sv_remotes s) (sv_cproto s));;
      mret true.

(** The result tells whether the read loop is started. *)
Definition createClient_finish (cid : N) (isInternal handshake_ok : bool) : M bool :=
  if negb isInternal && tlsRequired && negb handshake_ok then
    sendErr wr cid (bs "Secure Connection - TLS Required");; closeConnection cid;; mret false
  else
    c ← obj cid;
    mret (bool_decide (c_nc c <> NcNil)).

(** The three steps with nothing in between. *)
Definition createClient (cid : N) (isInternal handshake_ok : bool) : M bool :=
  createClient_begin cid isInternal;;
  registered ← createClient_register cid;
  if registered : bool then createClient_finish cid isInternal handshake_ok else mret false.

(** ** [Shutdown]: it marks the server as stopped and closes the connections it
    knows. *)

Definition Shutdown : M unit :=
  running ← gets sv_running;
  if negb running then mret tt
  else
    modify (fun s => set_running s false);;
    clients ← gets sv_clients;
    tmp ← gets (fun s => rg_grTmpClients (sv_rg s));
    routes ← gets sv_routes;
    forM (elements (clients ∪ tmp ∪ routes)) closeConnection.

(** The connections that a shutdown closes. *)
Definition connections (s : server) : gset N := sv_clients s ∪ rg_grTmpClients (sv_rg s) ∪ sv_routes s.

(** ** What a connection does *)

(** The calls of the parser. *)
Inductive command :=
| CPub (arg : bytes) (p : pubArg)
| CMsg (p : pubArg) (msg : bytes)
| CSub (arg : bytes)
| CUnsub (arg : bytes)
| CConnect (arg : bytes)
| CInfo (arg : bytes)
| CPing
| CPong
| CErr
| CAuthViolation
| CSendErr (e : bytes).

Definition run_command (cid : N) (cmd : command) : M unit :=
  match cmd with
  | CPub arg p => processPub growcap wr cid arg p;; mret tt
  | CMsg p msg => processMsg growcap choice wr fmt_q cid p msg
  | CSub arg => processSub growcap choice wr fmt_q cid arg;; mret tt
  | CUnsub arg => processUnsub growcap wr cid arg;; mret tt
  | CConnect arg => processConnect growcap wr json_opts cAuth rAuth cid arg;; mret tt
  | CInfo arg => processInfo growcap wr json_info nenv info_proto cid arg;; mret tt
  | CPing => processPing wr cid
  | CPong => processPong cid
  | CErr => processErr growcap wr cid
  | CAuthViolation => authViolation growcap wr cid
  | CSendErr e => sendErr wr cid e
  end.

Inductive action :=
| ABegin (cid : N) (isInternal : bool)
| ARegister (cid : N)
| AFinish (cid : N) (isInternal handshake_ok : bool)
| ARouteBegin (cid : N) (rURL : option URL)
| ARouteFinish (cid : N) (rURL : option URL) (handshake_ok : bool)
| ACommand (cid : N) (cmd : command)
| AClose (cid : N)
| AAuthTimer (cid : N)
| AAuthTimeout (cid : N)
| APingTimer (cid : N)
| AShutdown.

(** The authorization timer expires; its callback is [authTimeout]. *)
Definition timer_expires (cid : N) : M unit :=
  upd cid (fun c => if decide (c_atmr c = TSet) then with_atmr c TFired else c).

Definition do_action (a : action) : M unit :=
  match a with
  | ABegin cid isInternal => createClient_begin cid isInternal
  | ARegister cid => createClient_register cid;; mret tt
  | AFinish cid isInternal ok => createClient_finish cid isInternal ok;; mret tt
  | ARouteBegin cid rURL => createRoute_begin cid rURL
  | ARouteFinish cid rURL ok => createRoute_finish growcap wr connect_json info_proto cid rURL ok;; mret tt
  | ACommand cid cmd => run_command cid cmd
  | AClose cid => closeConnection cid
  | AAuthTimer cid => timer_expires cid
  | AAuthTimeout cid => authTimeout growcap wr cid
  | APingTimer cid => processPingTimer wr cid
  | AShutdown => Shutdown
  end.

Definition creates (a : action) : option N :=
  match a with ABegin cid _ | ARouteBegin cid _ => Some cid | _ => None end.

(** A new connection has a number of its own. *)
Definition lstep (s s' : server) : Prop := exists a,
  (forall cid, creates a = Some cid -> sv_objs s !! cid = None) /\ do_action a s = Some (s', tt).

(** ** What no action does *)

(** A closed connection stays closed. *)
Definition stays_closed (c c' : client) : Prop := c_typ c' = c_typ c /\ (c_nc c = NcNil -> c_nc c' = NcNil).

#[local] Instance stays_closed_rel : ClientRel stays_closed.
Proof.
  split; unfold stays_closed; intros; simpl; try tauto.
  destruct H as (? & ?), H0 as (? & ?). split; [congruence|auto].
Qed.

Lemma preserves_ignore {A} (m : M A) : preserves stays_closed m -> preserves stays_closed (m;; mret tt).
Proof. intros Hm. apply preserves_bind; [apply _|done|]. intros. apply preserves_ret, _. Qed.

Lemma run_command_pres cid cmd : preserves stays_closed (run_command cid cmd).
Proof.
  destruct cmd; cbn [run_command].
  - apply preserves_ignore, processPub_pres, _.
  - apply processMsg_pres, _.
  - apply preserves_ignore, processSub_pres, _.
  - apply preserves_ignore, processUnsub_pres, _.
  - apply preserves_ignore, processConnect_pres, _.
  - apply preserves_ignore, processInfo_pres, _.
  - apply processPing_pres, _.
  - apply processPong_pres, _.
  - apply processErr_pres, _.
  - apply authViolation_pres, _.
  - apply sendErr_pres, _.
Qed.

Lemma refused_pres cid : preserves stays_closed (maxConnExceeded growcap wr cid).
Proof. apply preserves_bind; [apply _|apply sendErr_pres, _|]. intros. apply closeConnection_pres, _. Qed.

Lemma finish_pres cid isInternal ok : preserves stays_closed (createClient_finish cid isInternal ok).
Proof.
  unfold createClient_finish. destruct (_ && _).
  - apply preserves_bind; [apply _|apply sendErr_pres, _|intros]. apply preserves_bind; [apply _|apply closeConnection_pres, _|].
    intros. apply preserves_ret, _.
  - apply preserves_bind; [apply _|apply preserves_obj, _|]. intros. apply preserves_ret, _.
Qed.

Lemma timer_pres cid f : (forall c, stays_closed c (f c)) -> preserves stays_closed (upd cid f).
Proof.
  intros Hf s s' x [= <- <-]. split; [split_and!; try done; apply dom_alter_L|]. intros k c Hc. cbn.
  destruct (decide (cid = k)) as [<-|Hne]; [rewrite lookup_alter_eq, Hc; by eexists|].
  rewrite lookup_alter_ne, Hc by done. exists c. split; [done|apply Q_refl].
Qed.

Lemma sendConnect_pres cid tls : preserves stays_closed (sendConnect growcap wr connect_json cid tls).
Proof.
  unfold sendConnect. do 4 (apply preserves_bind; [apply _|first [apply preserves_obj, _|apply preserves_lift, _|apply preserves_gets, _]|intros]).
  repeat case_match; [apply preserves_ignore, sendProto_pres, _|apply closeConnection_pres, _].
Qed.

Lemma route_finish_pres cid u ok : preserves stays_closed (createRoute_finish growcap wr connect_json info_proto cid u ok).
Proof.
  unfold createRoute_finish. apply preserves_bind; [apply _|apply preserves_gets, _|intros g]. destruct (_ && _).
  - apply preserves_bind; [apply _|apply sendErr_pres, _|intros]. apply preserves_bind; [apply _|apply closeConnection_pres, _|].
    intros. apply preserves_ret, _.
  - apply preserves_bind; [apply _|apply preserves_obj, _|intros c]. destruct (_ && _); [apply preserves_ret, _|].
    apply preserves_bind; [apply _|apply preserves_modify; intros; apply srel_same; [apply _|by unfold frame|done]|intros _].
    apply preserves_bind; [apply _|apply preserves_when; [apply _|apply sendConnect_pres]|intros _].
    apply preserves_bind; [apply _|apply sendProto_pres, _|intros _].
    apply preserves_bind; [apply _|apply preserves_when; [apply _|by apply timer_pres]|intros _]. apply preserves_ret, _.
Qed.

Lemma close_all_pres l : preserves stays_closed (forM l closeConnection).
Proof. apply preserves_forM; [apply _|]. intros. apply closeConnection_pres, _. Qed.

(** Everything but a registration only removes clients, and everything but a
    shutdown keeps the server running or not; once it is shut down, routes are
    only removed. *)
Definition calm (s s' : server) : Prop :=
  sv_clients s' ⊆ sv_clients s /\ (sv_running s = false -> sv_running s' = false /\ sv_routes s' ⊆ sv_routes s) /\
  forall k c, sv_objs s !! k = Some c -> exists c', sv_objs s' !! k = Some c' /\ stays_closed c c'.

Lemma calm_of s s' : srel stays_closed s s' -> calm s s'.
Proof. intros [(_ & Hr & Hc & _ & Hro) Ho]. split_and!; [done|split; [congruence|auto]|done]. Qed.

Lemma calm_refl s : calm s s.
Proof. apply calm_of, srel_refl, _. Qed.

Lemma calm_chain s1 s2 s3 : calm s1 s2 -> calm s2 s3 -> calm s1 s3.
Proof.
  intros (H1 & H2 & H3) (H4 & H5 & H6). split_and!; [set_solver|intros Hr; destruct (H2 Hr) as [Hr' ?]; destruct (H5 Hr'); split; [done|set_solver]|]. intros k c Hc.
  destruct (H3 k c Hc) as (c' & Hc' & Q1). destruct (H6 k c' Hc') as (c'' & Hc'' & Q2).
  exists c''. split; [done|by eapply Q_trans].
Qed.

Lemma begin_calm cid isInternal s s' : sv_objs s !! cid = None -> createClient_begin cid isInternal s = Some (s', tt) -> calm s s'.
Proof.
  intros Hf E. unfold createClient_begin, modify, gets, mbind, M_bind in E.
  set (s1 := set_objs s _) in E. apply calm_chain with s1.
  - split_and!; [done|done|]. intros k c Hc. exists c. cbn. rewrite lookup_insert_ne by congruence. split; [done|apply Q_refl].
  - apply calm_of. pose proof (sendProto_pres stays_closed wr cid (sv_infoJSON s1)) as Hp.
    destruct (sendProto wr cid (sv_infoJSON s1) s1) as [[s2 b]|] eqn:E2; [|done]. injection E as <-. by eapply Hp.
Qed.

Lemma shutdown_calm s s' : Shutdown s = Some (s', tt) -> calm s s'.
Proof.
  unfold Shutdown, gets, modify, mbind, M_bind. destruct (negb (sv_running s)); [intros [= <-]; apply calm_refl|].
  intros E. apply calm_chain with (set_running s false).
  - split_and!; [done|done|]. intros k c Hc. exists c. split; [done|apply Q_refl].
  - apply calm_of. by eapply close_all_pres.
Qed.

(** One step registers at most one client, and only on a running server with
    room for it. *)
Lemma lstep_cases s s' : lstep s s' -> calm s s' \/
  (sv_running s = true /\ (0 < maxConn -> Z.of_nat (size (sv_clients s)) < maxConn) /\
   exists cid, sv_clients s' = {[cid]} ∪ sv_clients s).
Proof.
  intros (a & Hfresh & E). destruct a as [cid i|cid|cid i ok|cid u|cid u ok|cid cmd|cid|cid|cid|cid|]; cbn [do_action] in E.
  - left. eapply begin_calm; [|exact E]. by eapply Hfresh.
  - unfold createClient_register, gets, modify, mbind, M_bind in E. destruct (sv_running s) eqn:Er; cbn [negb] in E.
    2: { injection E as <-. left. apply calm_refl. }
    destruct ((0 <? maxConn) && (maxConn <=? Z.of_nat (size (sv_clients s)))) eqn:Em.
    + left. apply calm_of. destruct (maxConnExceeded growcap wr cid s) as [[s2 []]|] eqn:E2; [|done]. injection E as <-.
      by eapply refused_pres.
    + right. injection E as <-. split; [done|]. split; [|by exists cid]. intros H0. apply andb_false_iff in Em as [Em|Em]; lia.
  - left. apply calm_of. refine (preserves_ignore _ (finish_pres cid i ok) _ _ _ E).
  - left. injection E as <-. split_and!; [done|done|]. intros k c Hc. exists c. cbn. rewrite lookup_insert_ne; [split; [done|apply Q_refl]|].
    intros ->. by rewrite (Hfresh k eq_refl) in Hc.
  - left. apply calm_of. refine (preserves_ignore _ (route_finish_pres cid u ok) _ _ _ E).
  - left. apply calm_of. by eapply run_command_pres.
  - left. apply calm_of. by eapply closeConnection_pres; [apply _|].
  - left. apply calm_of. eapply timer_pres; [|exact E]. intros c. cbv beta. destruct (decide (c_atmr c = TSet)); [done|apply Q_refl].
  - left. apply calm_of. revert E. apply preserves_bind; [apply _|apply sendErr_pres, _|]. intros. apply closeConnection_pres, _.
  - left. apply calm_of. by eapply processPingTimer_pres; [apply _|].
  - left. by eapply shutdown_calm.
Qed.

(** ** Closing a connection *)

(** What the traffic to other connections leaves as it is. *)
Definition core (c : client) : Z * conn * gmap bytes subscription := (c_typ c, c_nc c, c_subs c).

Definition quiet (s s' : server) : Prop :=
  sv_running s' = sv_running s /\ sv_clients s' = sv_clients s /\ sv_routes s' = sv_routes s /\
  forall k, core <$> sv_objs s' !! k = core <$> sv_objs s !! k.

Lemma quiet_refl s : quiet s s.
Proof. by unfold quiet. Qed.

Lemma quiet_trans s1 s2 s3 : quiet s1 s2 -> quiet s2 s3 -> quiet s1 s3.
Proof. intros (Ha & Hb & Hc & Hd) (He & Hf & Hg & Hh). split_and!; [congruence..|]. intros k. by rewrite Hh, Hd. Qed.

Lemma quiet_obj s s' k : quiet s s' -> is_Some (sv_objs s !! k) -> is_Some (sv_objs s' !! k).
Proof. intros (_ & _ & _ & H) [c Hc]. specialize (H k). rewrite Hc in H. destruct (sv_objs s' !! k); [by eexists|done]. Qed.

Lemma sendProto_quiet k info s : is_Some (sv_objs s !! k) ->
  exists s' b, sendProto wr k info s = Some (s', b) /\ quiet s s' /\ sv_sl s' = sv_sl s.
Proof.
  intros [c Hc]. unfold sendProto, net_write, obj, mbind, M_bind. rewrite Hc. case_decide; [by exists s, false; split_and!; [|apply quiet_refl|]|].
  rewrite Hc. case_decide; [|by eexists s, _; split_and!; [reflexivity|apply quiet_refl|]].
  unfold when. case_bool_decide; [|by eexists s, _; split_and!; [reflexivity|apply quiet_refl|]].
  eexists _, _. split; [reflexivity|]. split; [|done]. split_and!; [done..|]. intros k'. cbn. destruct (decide (k = k')) as [<-|Hne].
  - by rewrite lookup_alter_eq, Hc.
  - by rewrite lookup_alter_ne.
Qed.

(** Every route is an object of the store. *)
Definition routes_ok (s : server) : Prop := forall r, r ∈ sv_routes s -> is_Some (sv_objs s !! r).

Lemma broadcast_quiet proto s : routes_ok s ->
  exists s', broadcastInterestToRoutes wr proto s = Some (s', tt) /\ quiet s s' /\ sv_sl s' = sv_sl s.
Proof.
  intros Hr. unfold broadcastInterestToRoutes, gets, mbind, M_bind.
  assert (Hl : forall r, r ∈ elements (sv_routes s) -> is_Some (sv_objs s !! r)) by (intros r; rewrite elem_of_elements; apply Hr).
  clear Hr. revert Hl. generalize (elements (sv_routes s)) as l. intros l. revert s. induction l as [|r l IH]; intros s Hl.
  { exists s. split; [done|]. split; [apply quiet_refl|done]. }
  destruct (sendProto_quiet r proto s) as (s1 & b & E1 & Q1 & L1); [apply Hl; by left|].
  destruct (IH s1) as (s2 & E2 & Q2 & L2); [intros r' Hr'; eapply quiet_obj; [done|]; apply Hl; by right|].
  exists s2. cbn [forM]. unfold mbind, M_bind. rewrite E1. cbn. rewrite E2. split; [done|].
  split; [by eapply quiet_trans|congruence].
Qed.

Lemma unsub_quiet sub s : routes_ok s -> is_Some (sub_client sub) ->
  exists s', broadcastUnSubscribe wr sub s = Some (s', tt) /\ quiet s s' /\ sv_sl s' = sv_sl s.
Proof.
  intros Hr [cid Hc]. unfold broadcastUnSubscribe, gets, counts, mbind, M_bind, lift, routeSid. case_decide.
  { exists s. split; [done|]. split; [apply quiet_refl|done]. }
  rewrite Hc. cbn. unfold gets. cbn. destruct (default (0, 0) (sv_counts s !! sub_ptr sub)) as [nm mx].
  apply broadcast_quiet. done.
Qed.

(** The loop over the subscriptions of a closed connection. *)
Lemma drop_subs isRoute subs : forall s live, routes_ok s -> contract (sv_sl s) live ->
  Forall (fun sub => subject_ok (sub_subject sub) = true /\ is_Some (sub_client sub)) subs ->
  exists s', forM subs (fun sub => sl_remove growcap sub;; when isRoute (broadcastUnSubscribe wr sub)) s = Some (s', tt) /\
    quiet s s' /\ contract (sv_sl s') (foldl (fun l sub => remove_one sub l) live subs).
Proof.
  induction subs as [|sub subs IH]; intros s live Hr Hc Hf; [exists s; split; [done|]; split; [apply quiet_refl|done]|].
  apply Forall_cons in Hf as ((Hs & Hcl) & Hf).
  destruct (Remove_contract growcap (sv_sl s) live sub Hc Hs) as (sl' & e & E & _ & Hc').
  assert (H1 : exists s1, (sl_remove growcap sub;; when isRoute (broadcastUnSubscribe wr sub)) s = Some (s1, tt) /\
    quiet s s1 /\ sv_sl s1 = sl').
  { unfold sl_remove, mbind, M_bind. rewrite E. destruct isRoute; cbn [when].
    - destruct (unsub_quiet sub (set_sl s sl')) as (s1 & E1 & Q1 & L1); [exact Hr|done|]. exists s1. split; [exact E1|]. done.
    - exists (set_sl s sl'). done. }
  destruct H1 as (s1 & E1 & Q1 & L1).
  destruct (IH s1 (remove_one sub live)) as (s2 & E2 & Q2 & C2).
  - intros r Hr'. eapply quiet_obj; [exact Q1|]. apply Hr. destruct Q1 as (_ & _ & Q1 & _). by rewrite <- Q1.
  - by rewrite L1.
  - done.
  - exists s2. split; [|split; [by eapply quiet_trans|done]]. cbn [forM]. unfold mbind at 1, M_bind at 1. by rewrite E1.
Qed.

(** ** Closing all connections *)

(** The subscription list holds [live], every subscription of a connection
    has a subject and a client, and routes are connections. *)
Definition srv_wf (s : server) (live : list subscription) : Prop :=
  routes_ok s /\ contract (sv_sl s) live /\ NoDup live /\
  forall k c, sv_objs s !! k = Some c ->
    Forall (fun sub => subject_ok (sub_subject sub) = true /\ is_Some (sub_client sub)) (map_to_list (c_subs c)).*2.

(** [k], which was [c], has left the server. *)
Definition gone (k : N) (c : client) (s : server) (live : list subscription) : Prop :=
  (c_typ c = CLIENT -> k ∉ sv_clients s) /\ (c_typ c = ROUTER -> k ∉ sv_routes s) /\
  forall sub, sub ∈ (map_to_list (c_subs c)).*2 -> sub ∉ live.

(** What closing connections can only shrink. *)
Definition shrinks (s s' : server) (live live' : list subscription) : Prop :=
  sv_running s' = sv_running s /\ sv_clients s' ⊆ sv_clients s /\ sv_routes s' ⊆ sv_routes s /\ live' ⊆ live /\
  forall k c, sv_objs s !! k = Some c -> exists c', sv_objs s' !! k = Some c' /\
    c_typ c' = c_typ c /\ c_subs c' = c_subs c /\ (c_nc c = NcNil -> c_nc c' = NcNil).

Lemma shrinks_refl s live : shrinks s s live live.
Proof. split_and!; [done..|]. intros k c Hc. by exists c. Qed.

Lemma shrinks_trans s1 s2 s3 l1 l2 l3 : shrinks s1 s2 l1 l2 -> shrinks s2 s3 l2 l3 -> shrinks s1 s3 l1 l3.
Proof.
  intros (A1 & A2 & A3 & A4 & A5) (B1 & B2 & B3 & B4 & B5).
  split_and!; [congruence|set_solver..|]. intros k c Hc. destruct (A5 k c Hc) as (c1 & H1 & T1 & S1 & N1).
  destruct (B5 k c1 H1) as (c2 & H2 & T2 & S2 & N2). exists c2. split_and!; [done|congruence..|auto].
Qed.

Lemma gone_shrinks k c s s' live live' : gone k c s live -> shrinks s s' live live' -> gone k c s' live'.
Proof. intros (G1 & G2 & G3) (_ & S1 & S2 & S3 & _). split_and!; [set_solver..|]. intros sub Hs Hl. by apply (G3 sub Hs), S3. Qed.

Lemma foldl_remove subs : forall live : list subscription, NoDup live ->
  NoDup (foldl (fun l sub => remove_one sub l) live subs) /\
  foldl (fun l sub => remove_one sub l) live subs ⊆ live /\
  forall sub, sub ∈ subs -> sub ∉ foldl (fun l sub => remove_one sub l) live subs.
Proof.
  assert (Hone : forall (x : subscription) l, NoDup l -> NoDup (remove_one x l) /\ remove_one x l ⊆ l /\ x ∉ remove_one x l).
  { intros x l Hnd. induction Hnd as [|y l Hy Hnd IH]; [by split_and!; [constructor|done|apply not_elem_of_nil]|].
    rewrite remove_one_cons. case_decide as E; [subst; split_and!; [done|set_solver|done]|].
    destruct IH as (H1 & H2 & H3). split_and!; [constructor; [set_solver|done]|set_solver|set_solver]. }
  induction subs as [|x subs IH]; intros live Hnd; cbn; [split_and!; [done|done|intros ? H; by apply not_elem_of_nil in H]|].
  destruct (Hone x live Hnd) as (H1 & H2 & H3). destruct (IH _ H1) as (H4 & H5 & H6). split_and!; [done|set_solver|].
  intros sub Hs. apply elem_of_cons in Hs as [->|Hs]; [set_solver|auto].
Qed.

Lemma close_one k c s live : srv_wf s live -> sv_objs s !! k = Some c -> exists s' live',
  closeConnection k s = Some (s', tt) /\ srv_wf s' live' /\ shrinks s s' live live' /\
  (forall k', k' <> k -> core <$> sv_objs s' !! k' = core <$> sv_objs s !! k') /\
  (forall c', sv_objs s' !! k = Some c' -> c_nc c' = NcNil) /\ (c_nc c <> NcNil -> gone k c s' live').
Proof.
  intros (Hr & Hc & Hnd & Hsubs) Hk. unfold Client.closeConnection, obj, mbind, M_bind. rewrite Hk. case_decide as Hnil.
  { exists s, live. split_and!; [done|done|apply shrinks_refl|done|by intros c'; rewrite Hk; intros [= <-]|done]. }
  set (c1 := with_nc (with_atmr c TNone) NcNil). cbn [upd modify].
  set (s1 := set_objs s (alter (fun c => with_nc (with_atmr c TNone) NcNil) k (sv_objs s))).
  assert (Hk1 : sv_objs s1 !! k = Some c1) by (cbn; by rewrite lookup_alter_eq, Hk).
  unfold removeClient, obj, modify, mbind, M_bind. rewrite Hk1. cbn [c1 c_typ c_opts c_route with_nc with_atmr].
  set (s2 := if decide (c_typ c = CLIENT) then _ else _).
  assert (H2 : sv_objs s2 = sv_objs s1 /\ sv_sl s2 = sv_sl s /\ sv_running s2 = sv_running s /\
    sv_clients s2 ⊆ sv_clients s /\ sv_routes s2 ⊆ sv_routes s /\
    (c_typ c = CLIENT -> k ∉ sv_clients s2) /\ (c_typ c = ROUTER -> k ∉ sv_routes s2)).
  { unfold s2. clear. destruct (decide (c_typ c = CLIENT)) as [Ht|Ht]; [|destruct (decide (c_typ c = ROUTER)) as [Ht'|Ht']];
      (split_and!; [reflexivity|reflexivity|reflexivity|..]); cbn [sv_clients sv_routes set_maps s1 set_objs];
      first [by apply subseteq_difference_l | done | by intros Hx; rewrite Ht in Hx | by intros _; rewrite elem_of_difference, elem_of_singleton; intros [] | congruence]. }
  destruct H2 as (Ho & Hl & Hrun & Hcl & Hro & Hg1 & Hg2).
  destruct (drop_subs (bool_decide (c_typ c <> ROUTER)) (map_to_list (c_subs c)).*2 s2 live) as (s3 & E3 & (Q1 & Q2 & Q3 & Q4) & C3).
  { intros r Hr'. rewrite Ho. cbn. apply Hro, Hr in Hr'. destruct Hr' as [x Hx]. destruct (decide (k = r)) as [<-|Hne].
    - rewrite lookup_alter_eq, Hx. by eexists.
    - rewrite lookup_alter_ne, Hx by done. by eexists. }
  { by rewrite Hl. }
  { by apply (Hsubs k). }
  destruct (foldl_remove (map_to_list (c_subs c)).*2 live Hnd) as (Hnd' & Hsub' & Hout).
  assert (Hobj : forall k', core <$> sv_objs s3 !! k' = if decide (k' = k) then Some (core c1) else core <$> sv_objs s !! k').
  { intros k'. rewrite Q4, Ho. destruct (decide (k' = k)) as [->|Hne]; [by rewrite Hk1|]. cbn. by rewrite lookup_alter_ne. }
  destruct (reconnect_rg c s3) as [g Eg].
  exists (set_rg s3 g), (foldl (fun l sub => remove_one sub l) live (map_to_list (c_subs c)).*2). split_and!.
  - unfold mbind, M_bind in E3. rewrite E3. exact Eg.
  - split_and!; [|done|done|].
    + intros r Hr'. cbn in Hr' |- *. rewrite Q3 in Hr'. apply Hro, Hr in Hr' as [x Hx]. specialize (Hobj r). rewrite Hx in Hobj.
      destruct (sv_objs s3 !! r); [by eexists|by destruct (decide (r = k))].
    + intros k' c' Hc'. cbn in Hc'. specialize (Hobj k'). rewrite Hc' in Hobj. destruct (decide (k' = k)) as [E|E].
      * injection Hobj as _ _ ->. by apply (Hsubs k).
      * destruct (sv_objs s !! k') as [c0|] eqn:E0; [|done]. injection Hobj as _ _ ->. by apply (Hsubs k').
  - split_and!; cbn; [congruence|by rewrite Q2|by rewrite Q3|done|]. intros k' c' Hc'. specialize (Hobj k').
    destruct (sv_objs s3 !! k') as [c3|]; [|by rewrite Hc' in Hobj; destruct (decide (k' = k))]. exists c3. split; [done|].
    destruct (decide (k' = k)) as [E|E]; [subst k'; injection Hobj as -> -> ->; rewrite Hk in Hc'; injection Hc' as <-; done|].
    rewrite Hc' in Hobj. injection Hobj as -> -> ->. done.
  - intros k' Hne. cbn. by rewrite Hobj, decide_False.
  - intros c' Hc'. cbn in Hc'. specialize (Hobj k). rewrite Hc', decide_True in Hobj by done. by injection Hobj as _ -> _.
  - intros _. split_and!; cbn; [by rewrite Q2|by rewrite Q3|exact Hout].
Qed.

Lemma close_all l : forall s live, srv_wf s live -> (forall k, k ∈ l -> is_Some (sv_objs s !! k)) -> exists s' live',
  forM l closeConnection s = Some (s', tt) /\ srv_wf s' live' /\ shrinks s s' live live' /\
  forall k c, k ∈ l -> sv_objs s !! k = Some c ->
    (exists c', sv_objs s' !! k = Some c' /\ c_nc c' = NcNil) /\ (c_nc c <> NcNil -> gone k c s' live').
Proof.
  induction l as [|k0 l IH]; intros s live Hwf Hin.
  { exists s, live. split_and!; [done|done|apply shrinks_refl|]. intros k c Hk. by apply not_elem_of_nil in Hk. }
  destruct (Hin k0 ltac:(by left)) as [c0 Hc0].
  destruct (close_one k0 c0 s live Hwf Hc0) as (s1 & l1 & E1 & W1 & S1 & O1 & N1 & G1).
  assert (Hin1 : forall k, k ∈ l -> is_Some (sv_objs s1 !! k)).
  { intros k Hk. destruct (Hin k ltac:(by right)) as [c Hc]. destruct S1 as (_ & _ & _ & _ & S1). destruct (S1 k c Hc) as (c' & H & _). by exists c'. }
  destruct (IH s1 l1 W1 Hin1) as (s2 & l2 & E2 & W2 & S2 & H2).
  exists s2, l2. split_and!; [cbn [forM]; unfold mbind, M_bind; by rewrite E1|done|by eapply shrinks_trans|].
  intros k c Hk Hc. destruct (decide (k = k0)) as [->|Hne].
  - rewrite Hc0 in Hc. injection Hc as <-. split; [|intros Hn; eapply gone_shrinks; [by apply G1|done]].
    destruct S1 as (_ & _ & _ & _ & S1). destruct (S1 k0 c0 Hc0) as (c1 & Hc1 & _).
    destruct S2 as (_ & _ & _ & _ & S2). destruct (S2 k0 c1 Hc1) as (c2 & Hc2 & _ & _ & Hn2). exists c2. split; [done|]. by apply Hn2, N1.
  - apply elem_of_cons in Hk as [?|Hk]; [done|]. specialize (O1 k Hne). rewrite Hc in O1.
    destruct (sv_objs s1 !! k) as [c1|] eqn:Hc1; [|done]. injection O1 as T1 Nc1 Sb1.
    destruct (H2 k c1 Hk Hc1) as [Hx Hg]. split; [done|]. intros Hn. rewrite <- Nc1 in Hn.
    destruct (Hg Hn) as (Ga & Gb & Gc). split_and!; [by rewrite <- T1|by rewrite <- T1|by rewrite <- Sb1].
Qed.

(** ** A new connection *)

Lemma wf_quiet s s' live : srv_wf s live -> quiet s s' -> sv_sl s' = sv_sl s -> srv_wf s' live.
Proof.
  intros (Hr & Hc & Hnd & Hsubs) Hq Hl. pose proof Hq as (_ & _ & Q3 & Q4). split_and!; [|by rewrite Hl|done|].
  - intros r Hr'. rewrite Q3 in Hr'. eapply quiet_obj; [done|auto].
  - intros k c Hk. specialize (Q4 k). rewrite Hk in Q4. destruct (sv_objs s !! k) as [c0|] eqn:E; [|done].
    injection Q4 as _ _ ->. by apply (Hsubs k).
Qed.

Lemma quiet_core s s' k c : quiet s s' -> sv_objs s !! k = Some c -> exists c', sv_objs s' !! k = Some c' /\ core c' = core c.
Proof. intros (_ & _ & _ & H) Hc. specialize (H k). rewrite Hc in H. destruct (sv_objs s' !! k) as [c'|]; [|done]. exists c'. split; [done|exact (inj Some _ _ H)]. Qed.

Lemma begin_ok cid isInternal s live : srv_wf s live -> sv_objs s !! cid = None -> exists s1 c1,
  createClient_begin cid isInternal s = Some (s1, tt) /\ srv_wf s1 live /\ sv_objs s1 !! cid = Some c1 /\
  core c1 = core (new_client isInternal) /\ sv_clients s1 = sv_clients s /\ sv_routes s1 = sv_routes s /\ sv_running s1 = sv_running s.
Proof.
  intros (Hr & Hc & Hnd & Hsubs) Hf. unfold createClient_begin, modify, gets, mbind, M_bind.
  set (s0 := set_objs s _). assert (W0 : srv_wf s0 live).
  { split_and!; [|done|done|].
    - intros r Hr'. cbn. destruct (decide (r = cid)) as [->|Hne]; [rewrite lookup_insert_eq; by eexists|].
      rewrite lookup_insert_ne by done. by apply Hr.
    - intros k c Hk. cbn in Hk. apply lookup_insert_Some in Hk as [[_ <-]|[_ Hk]]; [|by apply (Hsubs k)].
      cbn. rewrite map_to_list_empty. constructor. }
  assert (H0 : sv_objs s0 !! cid = Some (new_client isInternal)) by apply lookup_insert_eq.
  destruct (sendProto_quiet cid (sv_infoJSON s0) s0 (ex_intro _ _ H0)) as (s1 & b & E1 & Q1 & L1).
  destruct (quiet_core _ _ _ _ Q1 H0) as (c1 & Hc1 & Hcore). exists s1, c1. rewrite E1.
  destruct (wf_quiet s0 s1 live W0 Q1 L1) as (? & ? & ? & ?). destruct Q1 as (Q1 & Q2 & Q3 & _). done.
Qed.

(** The outcomes of a registration. *)
Lemma register_eq cid s : createClient_register cid s =
  if sv_running s then
    if (0 <? maxConn) && (maxConn <=? Z.of_nat (size (sv_clients s))) then
      match maxConnExceeded growcap wr cid s with Some (s', _) => Some (s', false) | None => None end
    else Some (set_maps s ({[cid]} ∪ sv_clients s) (sv_routes s) (sv_remotes s) (sv_cproto s), true)
  else Some (s, false).
Proof.
  unfold createClient_register, gets, mbind, M_bind. destruct (sv_running s); cbn [negb]; [|done]. by destruct (_ && _).
Qed.

(** The connection is told an error and closed. *)
Lemma err_close cid c e s live : srv_wf s live -> sv_objs s !! cid = Some c -> c_nc c <> NcNil -> exists s' live' c',
  (sendErr wr cid e;; closeConnection cid) s = Some (s', tt) /\ sv_objs s' !! cid = Some c' /\ c_nc c' = NcNil /\
  gone cid c s' live' /\ sv_clients s' ⊆ sv_clients s.
Proof.
  intros W Hc Hn. unfold sendErr, mbind, M_bind.
  destruct (sendProto_quiet cid (bs "-ERR '" ++ e ++ bs "'" ++ crlf) s (ex_intro _ _ Hc)) as (s1 & b & E1 & Q1 & L1). rewrite E1.
  destruct (quiet_core _ _ _ _ Q1 Hc) as (c1 & Hc1 & Hcore). injection Hcore as Ht Hnc Hsub.
  destruct (close_one cid c1 s1 live (wf_quiet _ _ _ W Q1 L1) Hc1) as (s2 & live' & E2 & _ & S2 & _ & N2 & G2).
  assert (Hn1 : c_nc c1 <> NcNil) by congruence. destruct (G2 Hn1) as (G3 & G4 & G5).
  destruct S2 as (_ & S2 & _ & _ & S3). destruct (S3 cid c1 Hc1) as (c2 & Hc2 & _).
  exists s2, live', c2. cbn. rewrite Ht in G3, G4. rewrite Hsub in G5.
  split; [exact E2|]. split; [done|]. split; [by apply N2|]. split; [done|].
  destruct Q1 as (_ & Q2 & _). by rewrite <- Q2.
Qed.
End lifecycle.

(** ** The URLs in the server's INFO *)

(** An address of an interface. *)
Record if_addr := IfAddr { ia_text : bytes; ia_globalUnicast : bool; ia_unspecified : bool }.

(** [resolved]: the host resolves, and whether to the unspecified address;
    [addrs] are those of the interfaces. *)
Definition getClientConnectURLs (host : bytes) (port : Z) (resolved : option bool)
    (addrs : list if_addr) : list bytes :=
  let sPort := itoa port in
  let urls := match resolved with
    | Some true => (fun a => JoinHostPort (ia_text a) sPort) <$> filter (fun a => ia_globalUnicast a = true /\ ia_unspecified a = false) addrs
    | _ => []
    end in
  if decide (resolved = None \/ urls = []) then
    if decide (host = bs "0.0.0.0" \/ host = bs "::") then urls else urls ++ [JoinHostPort host sPort]
  else urls.

(** The list holds each known URL once, old ones first, and an update is
    reported exactly when a URL is new. *)
Lemma add_urls_spec urls u : NoDup (cu_list u) -> cu_set u = list_to_set (cu_list u) ->
  exists u' b, add_urls urls u = (u', b) /\ NoDup (cu_list u') /\ cu_set u' = list_to_set (cu_list u') /\
    (forall url, url ∈ cu_list u' <-> url ∈ cu_list u \/ url ∈ urls) /\
    (b = true <-> exists url, url ∈ urls /\ url ∉ cu_list u) /\ cu_list u `prefix_of` cu_list u'.
Proof.
  unfold add_urls. intros Hnd Hset.
  assert (Hgen : forall b0, exists u' b, foldl (fun '(u, wasUpdated) url => if decide (url ∈ cu_set u) then (u, wasUpdated)
      else (ConnectURLs ({[url]} ∪ cu_set u) (cu_list u ++ [url]), true)) (u, b0) urls = (u', b) /\ NoDup (cu_list u') /\
    cu_set u' = list_to_set (cu_list u') /\ (forall url, url ∈ cu_list u' <-> url ∈ cu_list u \/ url ∈ urls) /\
    (b = true <-> b0 = true \/ exists url, url ∈ urls /\ url ∉ cu_list u) /\ cu_list u `prefix_of` cu_list u').
  { revert u Hnd Hset. induction urls as [|x urls IH]; intros u Hnd Hset b0.
    - exists u, b0. split_and!; try done; [set_solver|]. split; [tauto|]. intros [?|(y & Hy & _)]; [done|by apply not_elem_of_nil in Hy].
    - cbn [foldl]. case_decide as Hx; (assert (Hx' : x ∈ cu_list u <-> x ∈ cu_set u) by (rewrite Hset; by rewrite elem_of_list_to_set)).
      + destruct (IH u Hnd Hset b0) as (u' & b & E & H1 & H2 & H3 & H4 & H5). exists u', b. split_and!; try done.
        * intros url. rewrite H3, elem_of_cons. set_solver.
        * rewrite H4. setoid_rewrite elem_of_cons. set_solver.
      + destruct (IH (ConnectURLs ({[x]} ∪ cu_set u) (cu_list u ++ [x])) ) with (b0 := true) as (u' & b & E & H1 & H2 & H3 & H4 & H5); cbn [cu_list cu_set].
        * apply NoDup_app. split_and!; [done|intros y Hy Hy'; apply list_elem_of_singleton in Hy'; subst; tauto|apply NoDup_singleton].
        * rewrite list_to_set_app_L, Hset. cbn. set_solver.
        * exists u', b. cbn [cu_list cu_set] in *. split_and!; try done.
          -- intros url. rewrite H3, elem_of_app, list_elem_of_singleton, elem_of_cons. tauto.
          -- rewrite H4. split; [|tauto]. intros _. right. exists x. split; [by left|tauto].
          -- by eapply prefix_app_l. }
  destruct (Hgen false) as (u' & b & E & H1 & H2 & H3 & H4 & H5). exists u', b. split_and!; try done. rewrite H4. set_solver.
Qed.

(** ** Properties *)

Section properties.
Context (growcap : nat -> nat -> nat) (choice : nat -> nat)
        (wr : N -> list bytes -> bytes -> write_result)
        (json_opts : bytes -> clientOpts -> clientOpts * option bytes)
        (json_info : bytes -> Info + bytes) (nenv : netEnv) (info_proto : Info -> bytes) (connect_json : connectInfo -> option bytes)
        (fmt_q : bytes -> bytes)
        (cAuth rAuth : option (clientOpts -> option (option User)))
        (maxConn : Z) (authRequired tlsRequired : bool) (maxPayload : Z).
Abbreviation step := (lstep growcap choice wr json_opts json_info nenv info_proto connect_json fmt_q cAuth rAuth maxConn authRequired tlsRequired maxPayload).

Lemma calm_steps s s' : sv_running s = false -> rtc step s s' -> sv_running s' = false /\ calm s s'.
Proof.
  intros Hr Hs. induction Hs as [s|s s1 s2 H1 _ IH]; [split; [done|apply calm_refl]|].
  destruct (lstep_cases _ _ _ _ _ _ _ _ _ _ _ _ _ _ _ _ _ H1) as [Hc|(Hrun & _)]; [|congruence].
  pose proof Hc as (_ & H2 & _). destruct (IH (proj1 (H2 Hr))) as [H3 H4]. split; [done|by eapply calm_chain].
Qed.

Lemma bounded_steps s s' : 0 < maxConn -> Z.of_nat (size (sv_clients s)) <= maxConn -> rtc step s s' ->
  Z.of_nat (size (sv_clients s')) <= maxConn.
Proof.
  intros H0 Hs Hst. induction Hst as [s|s s1 s2 H1 _ IH]; [done|]. apply IH.
  destruct (lstep_cases _ _ _ _ _ _ _ _ _ _ _ _ _ _ _ _ _ H1) as [(Hc & _)|(_ & Hroom & cid & ->)].
  - pose proof (subseteq_size _ _ Hc). lia.
  - specialize (Hroom H0). rewrite size_union_alt, size_singleton. pose proof (subseteq_size (sv_clients s ∖ {[cid]}) (sv_clients s) ltac:(set_solver)). lia.
Qed.

(** C39. A new connection ends in one of the documented ways: on a server that
    runs, has room and, for a client with TLS, completes the handshake, it is
    registered, open and read from; when the server is full or the handshake
    fails it is closed and not registered; and on a server that was shut down
    meanwhile it is neither registered nor read from, but stays open. *)
Theorem createClient_outcomes (s : server) (live : list subscription) (cid : N) (isInternal handshake_ok : bool)
  (Hwf : srv_wf s live) (Hfresh : sv_objs s !! cid = None) (Hnew : cid ∉ sv_clients s) :
  let room := sv_running s && negb ((0 <? maxConn) && (maxConn <=? Z.of_nat (size (sv_clients s)))) in
  let accepted := room && (isInternal || negb tlsRequired || handshake_ok) in
  exists s' c', createClient growcap wr maxConn authRequired tlsRequired maxPayload cid isInternal handshake_ok s = Some (s', accepted) /\
    sv_objs s' !! cid = Some c' /\ (cid ∈ sv_clients s' <-> accepted = true) /\
    (c_nc c' = NcOpen <-> accepted = true \/ sv_running s = false) /\
    (c_nc c' = NcNil <-> accepted = false /\ sv_running s = true).
Proof.
  intros room accepted.
  destruct (begin_ok wr authRequired maxPayload cid isInternal s live Hwf Hfresh) as (s1 & c1 & E1 & W1 & Hc1 & Hcore & Ecl & _ & Erun).
  injection Hcore as Ht Hnc _. unfold createClient, mbind, M_bind. rewrite E1. cbn beta iota.
  rewrite register_eq, Erun, Ecl. unfold accepted, room.
  destruct (sv_running s) eqn:Er; cbn [negb andb].
  2: { exists s1, c1. rewrite Ecl, Hnc. cbn. split_and!; [done|done|by split|by split; [right|]|by split; [|intros []]]. }
  destruct ((0 <? maxConn) && (maxConn <=? Z.of_nat (size (sv_clients s)))); cbn [negb andb].
  - destruct (err_close growcap wr cid c1 (bs "Maximum Connections Exceeded") s1 live W1 Hc1) as (s2 & live' & c2 & E2 & Hc2 & Hn2 & _ & Hsub); [by rewrite Hnc|].
    assert (E3 : maxConnExceeded growcap wr cid s1 = Some (s2, tt)) by exact E2. rewrite E3. exists s2, c2. rewrite Hn2. split_and!; [done|done| |by split; [|intros []]|done].
    split; [|done]. intros Hin. apply Hsub in Hin. by rewrite Ecl in Hin.
  - set (s2 := set_maps s1 _ _ _ _). assert (W2 : srv_wf s2 live) by exact W1.
    unfold createClient_finish. destruct isInternal, tlsRequired, handshake_ok; cbn [negb andb orb];
      try (unfold obj, mbind, M_bind; cbn [sv_objs set_maps s2]; rewrite Hc1, Hnc; exists s2, c1; rewrite Hnc; cbn [sv_clients set_maps s2];
           split_and!; [done|done|by split; [|set_solver]|by split; [left|]|by split; [|intros []]]).
    destruct (err_close growcap wr cid c1 (bs "Secure Connection - TLS Required") s2 live W2 Hc1) as (s3 & live' & c3 & E3 & Hc3 & Hn3 & (G & _) & _); [by rewrite Hnc|].
    unfold mbind, M_bind in E3 |- *. destruct (sendErr wr cid _ s2) as [[s3' []]|]; [|done]. rewrite E3.
    exists s3, c3. rewrite Hn3. split_and!; [done|done| |by split; [|intros []]|done]. split; [|done]. intros Hin. by destruct (G Ht Hin).
Qed.

(** C20. The limit on connections holds: on a server that was within
    [MaxConn] no interleaving of accepted connections, commands, timeouts and
    shutdowns leads to more registered clients. *)
Theorem max_conn_respected (s s' : server) (Hmax : 0 < maxConn) (Hstart : Z.of_nat (size (sv_clients s)) <= maxConn)
  (Hsteps : rtc step s s') : Z.of_nat (size (sv_clients s')) <= maxConn.
Proof. by eapply bounded_steps. Qed.

End properties.

(** A server with room for two, with one client and one route. *)
Definition ex_subscription : subscription := Subscription 7 (Some 1%N) (bs "foo.*") None (bs "1").
Definition ex_live : list subscription := [ex_subscription].
Definition ex_server : server :=
  let s := one_conn CLIENT 65536 in
  let c := with_subs (new_client false 65536 false) {[bs "1" := ex_subscription]} in
  let r := with_route (Client ROUTER defaultOpts NcOpen 0 ∅ None (ReadCache 0 None 0 0 0) ∅ TNone 0 None 0 0 0 []) (Some (ex_accepted (bs "B"))) in
  set_sl (set_maps (set_objs s {[1%N := c; 2%N := r]}) {[1%N]} {[2%N]} {[bs "B" := 2%N]} 0)
    (match Insert go_growcap NewSublist ex_subscription with Some (sl, _) => sl | None => NewSublist end).
Definition ex_lstep : server -> server -> Prop :=
  lstep go_growcap id (fun _ _ _ => WOk) no_json (fun _ => inr []) no_net (fun _ => []) (fun _ => None) id None None 2 false true 65536.

Lemma ex_server_wf : srv_wf ex_server ex_live.
Proof.
  split_and!.
  - intros r Hr. change (sv_routes ex_server) with ({[2%N]} : gset N) in Hr. apply elem_of_singleton in Hr as ->. by eexists.
  - destruct (Insert_contract go_growcap NewSublist [] ex_subscription contract_new) as (s' & E & H); [by vm_compute|].
    unfold ex_server, set_sl. cbn [sv_sl]. rewrite E. exact H.
  - apply NoDup_singleton.
  - intros k c Hk. unfold ex_server in Hk. cbn [sv_objs set_sl set_maps set_objs] in Hk. apply lookup_insert_Some in Hk as [[<- <-]|[_ Hk]].
    + cbn [c_subs with_subs]. rewrite map_to_list_singleton. cbn [snd fmap list_fmap]. apply Forall_singleton. split; [by vm_compute|by eexists].
    + apply lookup_singleton_Some in Hk as [<- <-]. cbn [c_subs with_route]. rewrite map_to_list_empty. constructor.
Qed.

Lemma createClient_outcomes_witness : exists s' c',
  createClient go_growcap (fun _ _ _ => WOk) 2 false true 65536 3 false true ex_server = Some (s', true) /\
  sv_objs s' !! 3%N = Some c' /\ (3%N ∈ sv_clients s' <-> true = true).
Proof.
  destruct (createClient_outcomes go_growcap (fun _ _ _ => WOk) 2 false true 65536 ex_server ex_live 3 false true) as (s' & c' & H1 & H2 & H3 & _);
    [exact ex_server_wf|by vm_compute|by apply (bool_decide_unpack _); vm_compute|].
  exists s', c'. split; [exact H1|]. split; [exact H2|exact H3].
Defined.

Lemma max_conn_respected_witness : exists s', rtc ex_lstep ex_server s' /\ Z.of_nat (size (sv_clients s')) <= 2.
Proof.
  destruct (createClient_begin (fun _ _ _ => WOk) false 65536 3 false ex_server) as [[s1 []]|] eqn:E1; [|by vm_compute in E1].
  assert (Hst : rtc ex_lstep ex_server s1).
  { eapply rtc_once. exists (ABegin 3 false). split; [|exact E1]. intros cid [= <-]. by vm_compute. }
  exists s1. split; [exact Hst|].
  apply (max_conn_respected go_growcap id (fun _ _ _ => WOk) no_json (fun _ => inr []) no_net (fun _ => []) (fun _ => None) id None None 2 false true 65536 ex_server s1);
    [lia|by vm_compute|exact Hst].
Defined.

