(* ===== verification/ReadLoop.v ===== *)
(** * ReadLoop: the goroutine that reads a connection

    [readLoop] of [src/server/client.go]: a buffer is parsed with the handlers
    of the connection, the clients with pending output are flushed, and the
    loop ends on a read error, on an error of the parser or when the connection
    was closed meanwhile.  The reads are a list; the result of a flush is a
    parameter.  Statistics, deadlines and the tuning of the write buffers are
    left out. *)

From S2P Require Import Prelude Util Subject Sublist Parser ParserSpec Client ClientSession Lifecycle.

Section read_loop.
Context (growcap : nat -> nat -> nat) (choice : nat -> nat)
        (wr : N -> list bytes -> bytes -> write_result)
        (json_opts : bytes -> clientOpts -> clientOpts * option bytes)
        (json_info : bytes -> Info + bytes) (nenv : netEnv) (info_proto : Info -> bytes)
        (fmt_q : bytes -> bytes)
        (cAuth rAuth : option (clientOpts -> option (option User))).
Context (cid : N) (maxAlloc : Z) (flush_ok : N -> list bytes -> bool).

#[local] Instance handlers : Handlers session :=
  client_handlers growcap choice wr json_opts json_info nenv info_proto fmt_q cAuth rAuth cid.

Inductive read_event := RData (buf : bytes) | RErr.

(** The inbound statistics of the cache start again. *)
Definition reset_cache : M unit :=
  upd cid (fun c => let k := c_cache c in with_cache c (ReadCache (rc_genid k) (rc_results k) 0 0 0)).

(** The flush of the pending clients; the result tells whether the connection
    is still there. *)
Definition flush_pending : M bool :=
  c ← obj cid;
  forM (elements (c_pcd c)) (fun cp =>
    o ← obj cp;
    if decide (c_nc o = NcNil) then mret tt
    else when (negb (flush_ok cp (c_out o))) (closeConnection growcap wr cp));;
  upd cid (fun c => with_pcd c ∅);;
  c ← obj cid;
  mret (bool_decide (c_nc c <> NcNil)).

(** An error of the parser; the two that were handled inline only end it. *)
Definition parse_failed (err : srv_error) : M unit :=
  match err with
  | ErrMaxPayload | ErrAuthorization => mret tt
  | _ => sendErr wr cid (bs "Parser Error");; closeConnection growcap wr cid
  end.

(** Waiting for the next read, ended, or the process has panicked. *)
Inductive loop_state :=
| Waiting (p : parseState) (s : server)
| Ended (s : server)
| Crashed.

Definition ends {A} (r : option (server * A)) (k : server -> A -> loop_state) : loop_state :=
  match r with Some (s, x) => k s x | None => Crashed end.

(** A round on a buffer. *)
Definition read_round (p : parseState) (s : server) (buf : bytes) : loop_state :=
  ends (reset_cache s) (fun s _ =>
    match parse maxAlloc buf (PClient p (Session s false)) with
    | Parsed c =>
        if ss_crashed (rest c) then Crashed
        else ends (flush_pending (ss_server (rest c))) (fun s (open : bool) => if open then Waiting (ps c) s else Ended s)
    | Failed c err =>
        if ss_crashed (rest c) then Crashed
        else ends (parse_failed err (ss_server (rest c))) (fun s _ => Ended s)
    | Panicked | NoFuel => Crashed
    end).

Fixpoint read_rounds (p : parseState) (s : server) (reads : list read_event) : loop_state :=
  match reads with
  | [] => Waiting p s
  | RErr :: _ => ends (closeConnection growcap wr cid s) (fun s _ => Ended s)
  | RData buf :: reads' =>
      match read_round p s buf with
      | Waiting p s => read_rounds p s reads'
      | r => r
      end
  end.

Definition readLoop (s : server) (reads : list read_event) : loop_state :=
  ends (obj cid s) (fun s c => if decide (c_nc c = NcNil) then Ended s else read_rounds newParseState s reads).

(** ** Errors come from the handlers *)

(** The call of a handler that ends in [s] with the error [e]. *)
Definition handler_err (s : session) (e : srv_error) : Prop := exists s0 arg,
  (exists p p', h_processPub arg p s0 = (s, p', Some e)) \/ (exists p p', h_processMsgArgs arg p s0 = (s, p', Some e)) \/
  h_processSub arg s0 = (s, Some e) \/ h_processUnsub arg s0 = (s, Some e) \/
  h_processConnect arg s0 = (s, Some e) \/ h_processInfo arg s0 = (s, Some e).

Definition returns_err (r : step_result (St := session)) : Prop :=
  match r with Return c e => handler_err (rest c) e | _ => True end.

Lemma arg_returns clear k buf c a i b : (forall arg c', rest c' = rest c -> returns_err (k arg c')) ->
  returns_err (arg_state clear k buf c a i b).
Proof. intros Hk. unfold arg_state. repeat case_match; try done; by apply Hk. Qed.

Lemma call_returns h a i arg c : (forall s s' e, h arg s = (s', Some e) -> handler_err s' e) -> returns_err (call_op h a i arg c).
Proof. intros Hh. unfold call_op. destruct (h arg (rest c)) as [s [e|]] eqn:E; [|done]. by eapply Hh. Qed.

Lemma step_returns buf c a i b : returns_err (step buf c a i b).
Proof.
  unfold step. destruct (state (ps c)) eqn:Es;
    unfold step_start, step_pub, step_sub, step_unsub, step_pingpong, step_connect, step_msg, step_info, step_ok_err,
      step_payload, step_msg_end, expect, expect_blank, skip_blank, line_end; rewrite ?Es;
    try (by repeat case_match); apply arg_returns; intros arg c' Hr.
  all: first
    [ by apply call_returns
    | apply call_returns; intros s s' e E; exists s, arg; tauto
    | unfold end_pub; destruct (h_processPub _ _ _) as [[s p'] [e|]] eqn:E; [|by case_match];
      exists (rest c'), arg; left; by eexists _, _
    | unfold end_connect; destruct (h_processConnect _ _) as [s [e|]] eqn:E; [|done]; exists (rest c'), arg; tauto
    | unfold end_msg; destruct (h_processMsgArgs _ _ _) as [[s p'] [e|]] eqn:E; [|done];
      exists (rest c'), arg; right; left; by eexists _, _ ].
Qed.

Lemma loop_returns fuel : forall buf c a i c' e, parse_loop fuel buf c a i = LReturn c' e -> handler_err (rest c') e.
Proof.
  induction fuel as [|fuel IH]; intros buf c a i c' e; [done|]. cbn [parse_loop].
  destruct (decide _); [|done]. destruct (decide _); [done|]. destruct (buf !! _) as [b|]; [|done].
  pose proof (step_returns buf c a i b) as Hr. destruct (step buf c a i b) as [c1 a1 i1| | |c1 e1|]; try done; [by apply IH|].
  by intros [= <- <-].
Qed.

(** ** Closed connections *)

Definition closed (s : server) : Prop := exists c, sv_objs s !! cid = Some c /\ c_nc c = NcNil.

#[local] Existing Instance stays_closed_rel.

Lemma closed_kept s s' : srel stays_closed s s' -> closed s -> closed s'.
Proof. intros [_ H] (c & Hc & Hn). destruct (H cid c Hc) as (c' & Hc' & _ & Hn'). exists c'. auto. Qed.

Lemma close_closes s s' : closeConnection growcap wr cid s = Some (s', tt) -> closed s'.
Proof.
  unfold closeConnection, obj, mbind, M_bind. destruct (sv_objs s !! cid) as [c|] eqn:Hc; [|done]. case_decide as Hn.
  { intros [= <-]. by exists c. }
  cbn [upd modify]. set (s1 := set_objs s _). intros E.
  assert (H1 : closed s1) by (exists (with_nc (with_atmr c TNone) NcNil); cbn; by rewrite lookup_alter_eq, Hc).
  destruct (removeClient cid s1) as [[s2 []]|] eqn:E2; [|done].
  eapply closed_kept; [|eapply closed_kept; [|exact H1]; by eapply removeClient_pres; [apply _|]].
  match type of E with context [forM ?l ?f s2] => destruct (forM l f s2) as [[s3 []]|] eqn:E3; [|done] end.
  eapply srel_trans; [apply _| |by eapply reconnect_pres; [apply _|]].
  eapply (preserves_forM stays_closed); [|exact E3]. intros sub.
  apply (preserves_bind stays_closed); [apply sl_remove_pres, _|]. intros. apply preserves_when; [apply _|]. apply broadcastUnSubscribe_pres, _.
Qed.

Lemma err_closes e s s' : (sendErr wr cid e;; closeConnection growcap wr cid) s = Some (s', tt) -> closed s'.
Proof. unfold mbind, M_bind. destruct (sendErr wr cid e s) as [[s1 []]|]; [|done]. apply close_closes. Qed.

(** The errors after which the loop only ends. *)
Definition inline (e : option srv_error) : Prop := e = Some ErrMaxPayload \/ e = Some ErrAuthorization.

(** Whatever [m] returns, the state is as [R] says. *)
Definition post {A} (R : server -> A -> Prop) (m : M A) : Prop := forall s s' x, m s = Some (s', x) -> R s' x.

Lemma post_bind {A B} (R : server -> B -> Prop) (m : M A) (k : A -> M B) : (forall x, post R (k x)) -> post R (m ≫= k).
Proof. intros Hk s s' y E. unfold mbind, M_bind in E. destruct (m s) as [[s1 x]|]; [|done]. by eapply Hk. Qed.

Lemma post_ret {A} (R : server -> A -> Prop) (x : A) : (forall s, R s x) -> post R (mret x).
Proof. intros HR s s' y [= <- <-]. apply HR. Qed.

Lemma post_close {A} (R : server -> A -> Prop) e (x : A) : (forall s, closed s -> R s x) ->
  post R ((sendErr wr cid e;; closeConnection growcap wr cid);; mret x).
Proof.
  intros HR s s' y E. unfold mbind at 1, M_bind at 1 in E.
  destruct ((sendErr wr cid e;; closeConnection growcap wr cid) s) as [[s1 []]|] eqn:E1; [|done]. injection E as <- <-.
  apply HR. by eapply err_closes.
Qed.

(** An inline error leaves the connection closed. *)
Definition inline_closed (s : server) (e : option srv_error) : Prop := inline e -> closed s.

Lemma not_inline e s : (forall m, e = Some m -> m <> ErrMaxPayload /\ m <> ErrAuthorization) -> inline_closed s e.
Proof. intros H [->| ->]; [by destruct (H _ eq_refl)|by destruct (H _ eq_refl) as [_ []]]. Qed.

Ltac no_inline := apply not_inline; intros ? [=]; by subst.
Ltac posts := repeat first
  [ apply post_ret; intros; no_inline
  | apply post_close; intros; by intros _
  | apply post_bind; intros
  | case_match ].

Lemma processPub_inline arg p : post (fun s r => inline_closed s (snd r)) (processPub growcap wr cid arg p).
Proof. unfold processPub, maxPayloadViolation. cbv zeta. posts. Qed.

Lemma processSub_inline arg : post inline_closed (processSub growcap choice wr fmt_q cid arg).
Proof. unfold processSub. posts. Qed.

Lemma processUnsub_inline arg : post inline_closed (processUnsub growcap wr cid arg).
Proof. unfold processUnsub, unsub_sid. posts. Qed.

Lemma processConnect_inline arg : post inline_closed (processConnect growcap wr json_opts cAuth rAuth cid arg).
Proof. unfold processConnect, authViolation. posts. Qed.

Lemma processInfo_inline arg : post inline_closed (processInfo growcap wr json_info nenv info_proto cid arg).
Proof. unfold processInfo. posts. Qed.

Lemma run_inline (m : M (option srv_error)) s0 s e : post inline_closed m -> run_err m s0 = (s, Some e) ->
  ss_crashed s = false -> inline (Some e) -> closed (ss_server s).
Proof.
  intros Hm E Hc Hi. unfold run_err, run in E. destruct (ss_crashed s0) eqn:E0; [injection E as <- <-; congruence|].
  destruct (m (ss_server s0)) as [[s1 y]|] eqn:Em; [|by injection E as <- <-]. injection E as <- ->. by apply (Hm _ _ _ Em).
Qed.

Lemma handler_inline s e : handler_err s e -> ss_crashed s = false -> inline (Some e) -> closed (ss_server s).
Proof.
  intros (s0 & arg & H) Hc Hi. destruct H as [(p & p' & H)|[(p & p' & H)|[H|[H|[H|H]]]]].
  - cbn in H. unfold run_pub, run in H. destruct (ss_crashed s0) eqn:E0; [injection H as <- <- <-; congruence|].
    destruct (processPub growcap wr cid arg p (ss_server s0)) as [[s1 [q y]]|] eqn:Em; [|by injection H as <- <- <-].
    injection H as <- <- ->. by apply (processPub_inline _ _ _ _ _ Em).
  - exfalso. cbn in H. destruct (processMsgArgs arg p) as [q y] eqn:E. injection H as <- <- ->. unfold processMsgArgs in E.
    unfold parse_error, size_error in E. repeat case_match; simplify_eq; destruct Hi; discriminate.
  - exact (run_inline _ s0 s e (processSub_inline arg) H Hc Hi).
  - exact (run_inline _ s0 s e (processUnsub_inline arg) H Hc Hi).
  - exact (run_inline _ s0 s e (processConnect_inline arg) H Hc Hi).
  - exact (run_inline _ s0 s e (processInfo_inline arg) H Hc Hi).
Qed.

Lemma parse_err_not_inline c i buf c' e : parse_err c i buf = Failed c' e -> ~ inline (Some e).
Proof. unfold parse_err. destruct (protoSnippet i buf); [|done]. intros [= <- <-] [?|?]; done. Qed.

Lemma parse_inline buf c c' e : parse maxAlloc buf c = Failed c' e -> ss_crashed (rest c') = false -> inline (Some e) ->
  closed (ss_server (rest c')).
Proof.
  unfold parse. intros E Hc Hi. destruct (parse_loop _ _ _ _ _) as [c1 i1|c1 i1|c1|c1 e1| |] eqn:El; try done.
  - exfalso. unfold end_of_buffer in E. destruct (if is_arg_state _ then _ else _) as [c2|]; [|done].
    destruct (_ && _); [injection E as <- <-; by destruct Hi|]. destruct (_ && _); [|done].
    destruct (save_msg _ _ _) as [[c3|]|]; [done| |done]. by eapply parse_err_not_inline.
  - by destruct (parse_err_not_inline _ _ _ _ _ E).
  - injection E as <- <-. cbn in Hc |- *. unfold run_, run in *. destruct (ss_crashed (rest c1)) eqn:E0; [cbn in Hc; congruence|].
    destruct (authViolation growcap wr cid (ss_server (rest c1))) as [[s1 []]|] eqn:Ea; [|done]. by eapply err_closes.
  - injection E as <- <-. eapply handler_inline; [by eapply loop_returns|done|done].
Qed.

Lemma round_closes p s buf s' : read_round p s buf = Ended s' -> closed s'.
Proof.
  unfold read_round, ends. destruct (reset_cache s) as [[s0 []]|]; [|done].
  destruct (parse maxAlloc buf _) as [c|c e| |] eqn:E; try done; destruct (ss_crashed (rest c)) eqn:Hc; try done.
  - destruct (flush_pending (ss_server (rest c))) as [[s1 open]|] eqn:Ef; [|done]. destruct open; [done|]. intros [= <-].
    assert (Hp : post (fun s o => o = false -> closed s) flush_pending).
    { unfold flush_pending. do 3 (apply post_bind; intros). intros s2 s3 o. unfold obj, mbind, M_bind.
      destruct (sv_objs s2 !! cid) as [c2|] eqn:E2; [|done]. intros [= <- <-] Ho. exists c2. split; [done|].
      by destruct (c_nc c2). }
    by apply (Hp _ _ _ Ef).
  - destruct (parse_failed e (ss_server (rest c))) as [[s1 []]|] eqn:Ef; [|done]. intros [= <-].
    pose proof (parse_inline _ _ _ _ E Hc) as Hi. unfold parse_failed in Ef.
    destruct e; try (by eapply err_closes); injection Ef as <-; apply Hi; first [by left|by right].
Qed.

Lemma rounds_close reads : forall p s s', read_rounds p s reads = Ended s' -> closed s'.
Proof.
  induction reads as [|[buf|] reads IH]; intros p s s'; cbn [read_rounds]; [done| |].
  - destruct (read_round p s buf) as [p1 s1|s1|] eqn:E; [apply IH|intros [= <-]; by eapply round_closes|done].
  - unfold ends. destruct (closeConnection growcap wr cid s) as [[s1 []]|] eqn:E; [|done]. intros [= <-]. by eapply close_closes.
Qed.

Lemma rounds_end reads : forall p s, RErr ∈ reads -> forall p' s', read_rounds p s reads <> Waiting p' s'.
Proof.
  induction reads as [|[buf|] reads IH]; intros p s Hin p' s'; cbn [read_rounds]; [by apply not_elem_of_nil in Hin| |].
  - apply elem_of_cons in Hin as [?|Hin]; [done|]. destruct (read_round p s buf); [by apply IH|done..].
  - unfold ends. by destruct (closeConnection growcap wr cid s) as [[? ?]|].
Qed.

(** C38. The read loop leaves no connection open: whatever a client or
    a route sends, whatever the network does and however the handlers, the
    parser and the flushes of others fail, when the loop ends the connection
    is closed; and it ends at a read error at the latest, unless the process
    panics. *)
Theorem read_loop_closes (s : server) (reads : list read_event) :
  (forall s', readLoop s reads = Ended s' -> closed s') /\
  (RErr ∈ reads -> forall p s', readLoop s reads <> Waiting p s').
Proof.
  unfold readLoop, ends, obj. destruct (sv_objs s !! cid) as [c|] eqn:Hc; [|done]. case_decide as Hn.
  - split; [|done]. intros s' [= <-]. by exists c.
  - split; [intros s'; apply rounds_close|]. intros Hin p s'. by apply rounds_end.
Qed.
End read_loop.

(** A payload above the limit ends the loop with a closed connection. *)
Lemma read_loop_closes_witness : exists s', 
  readLoop go_growcap id (fun _ _ _ => WOk) no_json (fun _ => inr []) no_net (fun _ => []) id None None 1 (2 ^ 40) (fun _ _ => true)
    (one_conn CLIENT 4) [RData (bs "PUB foo 5" ++ crlf); RErr] = Ended s' /\ closed 1 s'.
Proof.
  destruct (readLoop go_growcap id (fun _ _ _ => WOk) no_json (fun _ => inr []) no_net (fun _ => []) id None None 1 (2 ^ 40) (fun _ _ => true)
    (one_conn CLIENT 4) [RData (bs "PUB foo 5" ++ crlf); RErr]) as [p s'|s'|] eqn:E.
  - by destruct (proj2 (read_loop_closes go_growcap id (fun _ _ _ => WOk) no_json (fun _ => inr []) no_net (fun _ => []) id None None 1 (2 ^ 40)
      (fun _ _ => true) (one_conn CLIENT 4) [RData (bs "PUB foo 5" ++ crlf); RErr]) ltac:(right; by left) p s').
  - exists s'. split; [reflexivity|]. eapply read_loop_closes. exact E.
  - by vm_compute in E.
Defined.
