(* ===== verification/Auth.v ===== *)
(** * Auth: the authenticators and what they let a client do

    [src/auth/multiuser.go], [plain.go] and [token.go], under [checkAuth] and
    [RegisterUser] of [src/server/client.go].  An authenticator takes the
    options of the CONNECT and answers [None] (refused) or [Some u] (accepted,
    with the user it registers, if any), which is how [Client.checkAuth] calls
    it.  [bcrypt.CompareHashAndPassword] is a parameter of the section. *)

From S2P Require Import Prelude Util Subject Sublist SublistSpec SublistContract Parser Client Delivery.

(** ** The authenticators *)

Definition bcryptPrefix : bytes := bs "$2a$".

Definition isBcrypt (password : bytes) : bool := bool_decide (take (length bcryptPrefix) password = bcryptPrefix).

Section authenticators.

(** [true] when the error is nil. *)
Context (CompareHashAndPassword : bytes -> bytes -> bool).

(** The check of a secret that the three authenticators share. *)
Definition secret_ok (secret given : bytes) : bool :=
  if isBcrypt secret then CompareHashAndPassword secret given
  else bool_decide (secret = given).

Record Plain := MkPlain { pl_username : bytes; pl_password : bytes }.

Definition Plain_Check (p : Plain) (opts : clientOpts) : option (option User) :=
  if decide (pl_username p <> o_username opts) then None
  else if secret_ok (pl_password p) (o_password opts) then Some None else None.

Definition Token_Check (token : bytes) (opts : clientOpts) : option (option User) :=
  if secret_ok token (o_authorization opts) then Some None else None.

(** The loop of [NewMultiUser] over the users. *)
Definition NewMultiUser (users : list User) : gmap bytes User :=
  foldl (fun m u => <[u_username u := u]> m) ∅ users.

Definition MultiUser_Check (m : gmap bytes User) (opts : clientOpts) : option (option User) :=
  match m !! o_username opts with
  | None => None
  | Some user => if secret_ok (u_password user) (o_password opts) then Some (Some user) else None
  end.
End authenticators.

(** ** What the configuration means *)

(** The user of a name: the last one declared. *)
Definition declared (users : list User) (name : bytes) : option User :=
  last (filter (fun u => u_username u = name) users).

(** A list of patterns lets a subject pass: one that the sublist accepts
    matches it. *)
Definition passes (patterns : list bytes) (subject : bytes) : bool :=
  existsb (fun p => insertable false (tokens p) && subject_matches p subject) patterns.

Definition may_publish (u : User) (subject : bytes) : bool :=
  match u_permissions u with None => true | Some (publish, _) => passes publish subject end.

Definition may_subscribe (u : User) (subject : bytes) : bool :=
  match u_permissions u with None => true | Some (_, subscribe) => passes subscribe subject end.

(** The patterns of a user are well formed, or the sublist refuses them. *)
Definition user_ok (u : User) : Prop :=
  match u_permissions u with
  | None => True
  | Some (publish, subscribe) =>
      Forall (fun p => subject_ok p = true) publish /\ Forall (fun p => subject_ok p = true) subscribe
  end.

#[export] Instance user_ok_dec u : Decision (user_ok u).
Proof. unfold user_ok. destruct (u_permissions u) as [[]|]; apply _. Defined.

Lemma NewMultiUser_lookup users name : NewMultiUser users !! name = declared users name.
Proof.
  unfold NewMultiUser, declared. induction users as [|u users IH] using rev_ind; [done|].
  rewrite foldl_app, filter_app. cbn [foldl]. rewrite filter_cons, filter_nil.
  destruct (decide (u_username u = name)) as [<-|Hne].
  - by rewrite lookup_insert_eq, last_snoc.
  - by rewrite lookup_insert_ne, IH, app_nil_r.
Qed.

(** ** The sublists of the permissions *)

Definition perm_sub_of (subject : bytes) : subscription := Subscription 0 None subject None [].

(** The subscriptions of a list of patterns, as the multiset of the contract. *)
Definition perm_live (patterns : list bytes) : list subscription :=
  foldl spec_step [] (OpInsert ∘ perm_sub_of <$> patterns).

Lemma perm_live_elem patterns subject :
  bool_decide (plains (interested (perm_live patterns) subject) <> []) = passes patterns subject.
Proof.
  unfold perm_live. induction patterns as [|p patterns IH] using rev_ind; [done|].
  rewrite fmap_app, foldl_app. unfold passes. rewrite existsb_app. fold (passes patterns subject). rewrite <- IH.
  set (live := foldl spec_step [] (_ <$> patterns)). cbn [fmap list_fmap foldl existsb compose spec_step sub_subject]. rewrite orb_false_r. unfold plains, interested, perm_sub_of. cbn [sub_subject].
  destruct (insertable false (tokens p)); cbn [andb]; [|rewrite orb_false_r; by apply bool_decide_ext].
  rewrite filter_cons. cbn [sub_subject]. destruct (subject_matches p subject).
  - rewrite decide_True, filter_cons_True by done. rewrite orb_true_r. by apply bool_decide_true.
  - rewrite decide_False by done. rewrite orb_false_r. by apply bool_decide_ext.
Qed.

Section registered.
Context (growcap : nat -> nat -> nat) (choice : nat -> nat)
        (wr : N -> list bytes -> bytes -> write_result) (fmt_q : bytes -> bytes).

Lemma perm_insert_all patterns : Forall (fun p => subject_ok p = true) patterns ->
  exists sl, foldl (perm_insert growcap) (Some NewSublist) patterns = Some sl /\ contract sl (perm_live patterns).
Proof.
  induction patterns as [|p patterns IH] using rev_ind; intros Hok; [exists NewSublist; split; [done|apply contract_new]|].
  apply Forall_app in Hok as [Hok Hp]. apply Forall_cons in Hp as [Hp _]. destruct (IH Hok) as (sl & E & Hsl).
  destruct (Insert_contract growcap sl _ (perm_sub_of p) Hsl Hp) as (sl' & E' & Hsl').
  exists sl'. rewrite foldl_app, E. unfold perm_live. rewrite fmap_app, foldl_app. split; [|done].
  cbn [foldl]. unfold perm_insert at 1. cbn [mbind option_bind]. fold (perm_sub_of p). by rewrite E'.
Qed.

(** ** The state of a connection with registered permissions *)

(** The permissions of a connection are those of the lists, and its cache
    remembers only right answers. *)
Record perms_of (publish subscribe : list bytes) (pm : permissions) : Prop := {
  po_pub : contract (perm_pub pm) (perm_live publish);
  po_sub : contract (perm_sub pm) (perm_live subscribe);
  po_cache : forall subject b, perm_pcache pm !! subject = Some b -> b = passes publish subject;
}.

Definition has_perms (u : User) (c : client) : Prop :=
  match u_permissions u with
  | None => c_perms c = None
  | Some (publish, subscribe) => exists pm, c_perms c = Some pm /\ perms_of publish subscribe pm
  end.

Lemma RegisterUser_ok s cid c u : sv_objs s !! cid = Some c -> c_perms c = None -> user_ok u ->
  exists s' pm, RegisterUser growcap cid u s = Some (s', tt) /\
    sv_objs s' = <[cid := with_perms c pm]> (sv_objs s) /\ has_perms u (with_perms c pm).
Proof.
  intros Hc Hp Hok. unfold RegisterUser, has_perms, user_ok in *. destruct (u_permissions u) as [[publish subscribe]|].
  - destruct Hok as [Hpub Hsub]. destruct (perm_insert_all _ Hpub) as (pub & Epub & Hpub').
    destruct (perm_insert_all _ Hsub) as (sub & Esub & Hsub').
    erewrite run_bind by (by rewrite Epub). erewrite run_bind by (by rewrite Esub).
    eexists _, _. split_and!; [by apply upd_ok|done|]. eexists. split; [done|]. by split.
  - exists s, None. split_and!; [done| |done].
    symmetry. apply insert_id. rewrite Hc. f_equal. by destruct c; simpl in *; subst.
Qed.

Lemma prune_perms_self s cid c : sv_objs s !! cid = Some c ->
  exists s' c', prune_perms choice cid s = Some (s', tt) /\ self_only cid s s' /\
    sv_objs s' !! cid = Some c' /\ c_perms c' = c_perms c.
Proof.
  intros Hc. unfold prune_perms. erewrite run_bind by (by apply run_obj).
  destruct (c_perms c) as [pm|] eqn:Hp; [|exists s, c; split_and!; [done|apply self_only_refl|done..]].
  case_decide; [|exists s, c; split_and!; [done|apply self_only_refl|done..]].
  erewrite run_bind by reflexivity. eexists _, _. split_and!; [reflexivity| | |].
  - apply (self_only_trans _ _ (set_tick s (S (sv_tick s)))); [by split|apply self_only_upd].
  - cbn [sv_objs set_objs set_tick]. by rewrite lookup_alter_eq, Hc.
  - by cbn.
Qed.

Lemma perm_match_decides s sl patterns subject :
  contract sl (perm_live patterns) -> closed_literal subject = true ->
  exists sl' r, perm_match growcap choice sl subject s = Some (set_tick s (S (sv_tick s)), (sl', r)) /\
    contract sl' (perm_live patterns) /\ bool_decide (length (r_psubs r) <> 0) = passes patterns subject.
Proof.
  intros Hsl Hcl. destruct (Match_contract growcap (choice (sv_tick s)) _ _ _ Hsl Hcl) as (sl' & r & E & Hsl' & Hr & _).
  exists sl', r. split_and!; [|done|].
  - unfold perm_match. erewrite run_bind by reflexivity. by rewrite E.
  - rewrite <- perm_live_elem. apply bool_decide_ext. rewrite Hr. by rewrite length_zero_iff_nil.
Qed.

(** The check of a publication answers what the configuration says, and goes
    on doing so. *)
Lemma pub_allowed_decides s cid c u subject :
  sv_objs s !! cid = Some c -> has_perms u c -> closed_literal subject = true ->
  exists s' c', pub_allowed growcap choice wr fmt_q cid subject s = Some (s', may_publish u subject) /\
    self_only cid s s' /\ sv_objs s' !! cid = Some c' /\ has_perms u c'.
Proof.
  intros Hc Hu Hcl. unfold pub_allowed, may_publish, has_perms in *. erewrite run_bind by (by apply run_obj).
  destruct (u_permissions u) as [[publish subscribe]|].
  2:{ rewrite Hu. exists s, c. split_and!; [done|apply self_only_refl|done..]. }
  destruct Hu as (pm & Hp & [Hpub Hsub Hca]). rewrite Hp.
  destruct (perm_pcache pm !! subject) as [b|] eqn:Eb.
  { rewrite <- (Hca _ _ Eb). destruct b; [exists s, c; split_and!; [done|apply self_only_refl|done|by exists pm]|].
    edestruct (sendErr_self wr s cid (bs "Permissions Violation for Publish to " ++ fmt_q subject))
      as (s1 & c1 & E1 & S1 & Hc1 & P1 & _); [done|].
    exists s1, c1. split_and!; [unfold pubPermissionViolation; by erewrite run_bind|done|done|]. exists pm. by rewrite P1, Hp. }
  destruct (perm_match_decides s _ _ subject Hpub Hcl) as (sl & r & Em & Hpub' & Hr).
  erewrite run_bind by exact Em. cbv beta iota zeta. rewrite Hr. set (s0 := set_tick s _).
  assert (H1 : exists s1 c1, when (negb (passes publish subject)) (pubPermissionViolation wr fmt_q cid subject) s0 = Some (s1, tt) /\
    self_only cid s s1 /\ sv_objs s1 !! cid = Some c1).
  { destruct (passes publish subject); [exists s0, c; split_and!; [done|by split|done]|].
    edestruct (sendErr_self wr s0 cid (bs "Permissions Violation for Publish to " ++ fmt_q subject)) as (s1 & c1 & E1 & S1 & Hc1 & _); [done|].
    exists s1, c1. split_and!; [done| |done]. eapply self_only_trans; [|exact S1]. by split. }
  destruct H1 as (s1 & c1 & E1 & S1 & Hc1). erewrite run_bind by exact E1.
  erewrite run_bind by (by apply upd_ok). set (pm' := Permissions _ _ _). set (s2 := set_objs s1 _).
  destruct (prune_perms_self s2 cid (with_perms c1 (Some pm'))) as (s3 & c3 & E3 & S3 & Hc3 & P3); [apply lookup_insert_eq|].
  erewrite run_bind by exact E3. exists s3, c3. split_and!; [done| |done|].
  - eapply self_only_trans; [exact S1|]. eapply self_only_trans; [|exact S3].
    split; simpl; [|by rewrite lookup_insert_eq|done..]. intros k Hk. by apply lookup_insert_ne.
  - exists pm'. split; [done|]. split; [done|done|]. simpl. intros sj b.
    destruct (decide (subject = sj)) as [<-|]; [rewrite lookup_insert_eq; by intros [= <-]|].
    rewrite lookup_insert_ne by done. apply Hca.
Qed.

(** The check of a subscription takes the subject as a literal. *)
Lemma sub_allowed_decides s cid c u subject :
  sv_objs s !! cid = Some c -> has_perms u c -> closed_literal subject = true ->
  exists s' c', sub_allowed growcap choice cid subject s = Some (s', may_subscribe u subject) /\
    self_only cid s s' /\ sv_objs s' !! cid = Some c' /\ has_perms u c'.
Proof.
  intros Hc Hu Hcl. unfold sub_allowed, may_subscribe, has_perms in *. erewrite run_bind by (by apply run_obj).
  destruct (u_permissions u) as [[publish subscribe]|].
  2:{ rewrite Hu. exists s, c. split_and!; [done|apply self_only_refl|done..]. }
  destruct Hu as (pm & Hp & [Hpub Hsub Hca]). rewrite Hp.
  destruct (perm_match_decides s _ _ subject Hsub Hcl) as (sl & r & Em & Hsub' & Hr).
  erewrite run_bind by exact Em. cbv beta iota zeta. rewrite Hr. set (s0 := set_tick s _).
  erewrite run_bind by (by apply upd_ok). eexists _, _. split_and!; [done| |apply lookup_insert_eq|].
  - apply (self_only_trans _ _ s0); [by split|].
    split; simpl; [|by rewrite lookup_insert_eq|done..]. intros k Hk. by apply lookup_insert_ne.
  - eexists. split; [done|]. by split.
Qed.
End registered.

(** ** CONNECT *)

(** What a connection asks permission for. *)
Inductive request := ReqPub (subject : bytes) | ReqSub (subject : bytes).

Definition req_subject (r : request) : bytes := match r with ReqPub subject | ReqSub subject => subject end.

(** Nobody publishes on the subjects of the server; the subject of a SUB counts
    as it is written. *)
Definition permitted (u : User) (r : request) : bool :=
  match r with
  | ReqPub subject => negb (sys_subject subject) && may_publish u subject
  | ReqSub subject => may_subscribe u subject
  end.

Section checks.
Context (growcap : nat -> nat -> nat) (choice : nat -> nat)
        (wr : N -> list bytes -> bytes -> write_result) (fmt_q : bytes -> bytes).

(** The checks of a sequence of PUB and SUB operations of a connection. *)
Definition perm_check (cid : N) (r : request) : M bool :=
  match r with
  | ReqPub subject => pub_check growcap choice wr fmt_q cid subject
  | ReqSub subject => sub_allowed growcap choice cid subject
  end.

Fixpoint perm_checks (cid : N) (rs : list request) : M (list bool) :=
  match rs with
  | [] => mret []
  | r :: rest =>
      b ← perm_check cid r;
      more ← perm_checks cid rest;
      mret (b :: more)
  end.

Lemma perm_check_decides s cid c u r :
  sv_objs s !! cid = Some c -> has_perms u c -> closed_literal (req_subject r) = true ->
  exists s' c', perm_check cid r s = Some (s', permitted u r) /\
    self_only cid s s' /\ sv_objs s' !! cid = Some c' /\ has_perms u c'.
Proof.
  destruct r as [subject|subject]; [|apply sub_allowed_decides]. cbn [perm_check permitted req_subject]. unfold pub_check.
  destruct (sys_subject subject); cbn [negb andb]; [|apply pub_allowed_decides]. intros Hc Hu _.
  edestruct (sendErr_self wr s cid (bs "Permissions Violation for Publish to " ++ fmt_q subject)) as (s1 & c1 & E1 & S1 & Hc1 & P1 & _); [done|].
  exists s1, c1. split_and!; [unfold pubPermissionViolation; by erewrite run_bind|done|done|]. unfold has_perms in *. by rewrite P1.
Qed.

Lemma perm_checks_decide rs : forall s cid c u,
  sv_objs s !! cid = Some c -> has_perms u c -> forallb (closed_literal ∘ req_subject) rs = true ->
  exists s', perm_checks cid rs s = Some (s', permitted u <$> rs) /\ self_only cid s s'.
Proof.
  induction rs as [|r rs IH]; intros s cid c u Hc Hu Hcl; [exists s; split; [done|apply self_only_refl]|].
  cbn [forallb] in Hcl. apply andb_prop in Hcl as [H1 H2]. cbn [perm_checks].
  destruct (perm_check_decides s cid c u r Hc Hu H1) as (s1 & c1 & E1 & S1 & Hc1 & Hu1).
  destruct (IH s1 cid c1 u Hc1 Hu1 H2) as (s2 & E2 & S2). exists s2.
  erewrite run_bind by exact E1. erewrite run_bind by exact E2. split; [done|by eapply self_only_trans].
Qed.

End checks.

Section connect.
Context (growcap : nat -> nat -> nat) (wr : N -> list bytes -> bytes -> write_result)
        (json_opts : bytes -> clientOpts -> clientOpts * option bytes)
        (CompareHashAndPassword : bytes -> bytes -> bool).

Lemma sendOK_perms s cid c : sv_objs s !! cid = Some c ->
  exists s' c', sendOK wr cid s = Some (s', tt) /\ sv_objs s' !! cid = Some c' /\ c_perms c' = c_perms c.
Proof.
  intros Hc. assert (H : exists s1 c1 e, sendProto wr cid (bs "+OK" ++ crlf) s = Some (s1, e) /\
    sv_objs s1 !! cid = Some c1 /\ c_perms c1 = c_perms c).
  { unfold sendProto, net_write. erewrite run_bind by (by apply run_obj).
    case_decide; [by exists s, c, false|]. unfold mbind, M_bind. rewrite (run_obj _ _ _ Hc).
    case_decide; [|by eexists s, c, _]. destruct (bool_decide _); [|by eexists s, c, _].
    cbn. eexists _, _, _. split_and!; [done|cbn; by rewrite lookup_alter_eq, Hc|done]. }
  destruct H as (s1 & c1 & e & E1 & Hc1 & P1). unfold sendOK. erewrite run_bind by exact E1.
  eexists _, _. split_and!; [by apply upd_ok|apply lookup_insert_eq|by cbn].
Qed.

(** The connection and the server when [checkAuth] runs. *)
Definition connecting (c : client) (opts : clientOpts) : client :=
  let c := with_opts (with_atmr c TNone) opts in with_flags c (flag_set (c_flags c) connectReceived).

Lemma processConnect_upto rAuth cAuth s cid c arg opts :
  sv_objs s !! cid = Some c -> c_atmr c <> TFired -> json_opts arg (c_opts c) = (opts, None) ->
  exists s1, sv_objs s1 = <[cid := connecting c opts]> (sv_objs s) /\
    sv_clients s1 = sv_clients s /\
    processConnect growcap wr json_opts cAuth rAuth cid arg s =
    (ok ← checkAuth growcap cAuth rAuth cid;
      if negb ok then authViolation growcap wr cid;; mret (Some ErrAuthorization)
      else if decide (c_typ c = CLIENT /\ ~ (ClientProtoZero <= o_protocol opts <= ClientProtoInfo)%Z) then
        sendErr wr cid (bs "Invalid Client Protocol");; closeConnection growcap wr cid;;
        mret (Some (ErrHandler (bs "Invalid Client Protocol")))
      else if decide (c_typ c = ROUTER /\ o_lang opts <> []) then
        sendErr wr cid (bs "Attempted To Connect To Route Port");; closeConnection growcap wr cid;;
        mret (Some (ErrHandler (bs "Attempted To Connect To Route Port")))
      else
        when (bool_decide (c_typ c = ROUTER)) (upd cid (fun c => with_route c
          (match c_route c with
           | Some r => Some (set_remoteID r (o_name opts))
           | None => None
           end)));;
        when (o_verbose opts) (sendOK wr cid);;
        mret None) s1.
Proof.
  intros Hc Hf Hj. unfold processConnect. erewrite run_bind by (by apply run_obj).
  erewrite run_bind by (by apply upd_ok). rewrite decide_False by done. unfold connect_body.
  erewrite run_bind by (apply run_obj, lookup_insert_eq). cbn [c_typ c_opts with_atmr]. rewrite Hj. cbv beta iota.
  erewrite run_bind by (apply upd_ok, lookup_insert_eq). erewrite run_bind by (apply upd_ok, lookup_insert_eq).
  unfold when at 2. destruct (bool_decide (ClientProtoInfo <= _)%Z); (erewrite run_bind by reflexivity);
    (eexists; split_and!; [|shelve|reflexivity]); cbn; by rewrite !insert_insert_eq.
  Unshelve. all: done.
Qed.

(** A connection without subscriptions is closed and forgotten. *)
Lemma authViolation_closes s cid c : sv_objs s !! cid = Some c ->
  c_typ c = CLIENT -> c_nc c <> NcNil -> c_subs c = ∅ ->
  exists s' c', authViolation growcap wr cid s = Some (s', tt) /\
    sv_objs s' !! cid = Some c' /\ c_nc c' = NcNil /\ cid ∉ sv_clients s' /\ sv_sl s' = sv_sl s.
Proof.
  intros Hc Ht Hnc Hs. unfold authViolation.
  assert (H : exists s1 c1, sendErr wr cid (bs "Authorization Violation") s = Some (s1, tt) /\ self_only cid s s1 /\
    sv_objs s1 !! cid = Some c1 /\ c_typ c1 = CLIENT /\ c_subs c1 = ∅ /\ c_nc c1 <> NcNil).
  { unfold sendErr, sendProto, net_write, mbind, M_bind. rewrite (run_obj _ _ _ Hc), decide_False by done.
    rewrite (run_obj _ _ _ Hc). case_decide; [|exists s, c; split_and!; [done|apply self_only_refl|done..]].
    destruct (bool_decide _); [|exists s, c; split_and!; [done|apply self_only_refl|done..]].
    cbn. eexists _, _. split_and!; [done|apply self_only_upd|cbn; by rewrite lookup_alter_eq, Hc|done..]. }
  destruct H as (s1 & c1 & E1 & S1 & Hc1 & T1 & U1 & N1). erewrite run_bind by exact E1.
  unfold closeConnection. erewrite run_bind by (by apply run_obj). rewrite decide_False by done.
  erewrite run_bind by (by apply upd_ok). rewrite U1, map_to_list_empty. unfold removeClient, mbind, M_bind.
  erewrite run_obj by apply lookup_insert_eq. cbn [c_typ with_nc with_atmr modify forM]. rewrite T1. cbn.
  match goal with |- context [reconnect ?c ?s] => destruct (reconnect_rg c s) as [g ->] end. eexists _, _.
  split_and!; [done|cbn; apply lookup_insert_eq|done|cbn; set_solver|]. by destruct S1.
Qed.

(** The answer of the authenticator for a list of users. *)
Lemma MultiUser_Check_declared users opts :
  MultiUser_Check CompareHashAndPassword (NewMultiUser users) opts =
  match declared users (o_username opts) with
  | Some u => if secret_ok CompareHashAndPassword (u_password u) (o_password opts) then Some (Some u) else None
  | None => None
  end.
Proof. unfold MultiUser_Check. by rewrite NewMultiUser_lookup. Qed.

(** A CONNECT that the authenticator accepts gives the connection the
    permissions of the user. *)
Lemma processConnect_accepts chk rAuth s cid c arg opts u :
  sv_objs s !! cid = Some c -> c_typ c = CLIENT -> c_perms c = None -> c_atmr c <> TFired ->
  json_opts arg (c_opts c) = (opts, None) -> (ClientProtoZero <= o_protocol opts <= ClientProtoInfo)%Z ->
  chk opts = Some (Some u) -> user_ok u ->
  exists s' c', processConnect growcap wr json_opts (Some chk) rAuth cid arg s = Some (s', None) /\
    sv_objs s' !! cid = Some c' /\ has_perms u c'.
Proof.
  intros Hc Ht Hp Hf Hj Hpr Hchk Hu.
  destruct (processConnect_upto rAuth (Some chk) s cid c arg opts Hc Hf Hj) as (s1 & O1 & _ & ->).
  assert (Hc1 : sv_objs s1 !! cid = Some (connecting c opts)) by (rewrite O1; apply lookup_insert_eq).
  destruct (RegisterUser_ok growcap s1 cid _ u Hc1 Hp Hu) as (s2 & pm & E2 & O2 & Hpm).
  assert (Ea : checkAuth growcap (Some chk) rAuth cid s1 = Some (s2, true)).
  { unfold checkAuth. erewrite run_bind by (by apply run_obj). rewrite decide_True by done.
    cbn [c_opts connecting with_flags with_opts]. rewrite Hchk. by erewrite run_bind. }
  erewrite run_bind by exact Ea. cbn [negb]. rewrite decide_False by (by intros [_ []]). rewrite Ht, decide_False by (by intros []).
  rewrite bool_decide_false by done. cbn [when]. erewrite run_bind by reflexivity.
  assert (Hc2 : sv_objs s2 !! cid = Some (with_perms (connecting c opts) pm)) by (rewrite O2; apply lookup_insert_eq).
  destruct (o_verbose opts); cbn [when]; [|by eexists s2, _].
  destruct (sendOK_perms s2 cid _ Hc2) as (s3 & c3 & E3 & Hc3 & P3).
  exists s3, c3. erewrite run_bind by exact E3. split_and!; [done|done|]. unfold has_perms in *. by rewrite P3.
Qed.

(** A CONNECT that it refuses closes the connection. *)
Lemma processConnect_refuses chk rAuth s cid c arg opts :
  sv_objs s !! cid = Some c -> c_typ c = CLIENT -> c_nc c <> NcNil -> c_subs c = ∅ -> c_atmr c <> TFired ->
  json_opts arg (c_opts c) = (opts, None) -> chk opts = None ->
  exists s' c', processConnect growcap wr json_opts (Some chk) rAuth cid arg s = Some (s', Some ErrAuthorization) /\
    sv_objs s' !! cid = Some c' /\ c_nc c' = NcNil /\ cid ∉ sv_clients s'.
Proof.
  intros Hc Ht Hnc Hs Hf Hj Hchk.
  destruct (processConnect_upto rAuth (Some chk) s cid c arg opts Hc Hf Hj) as (s1 & O1 & _ & ->).
  assert (Hc1 : sv_objs s1 !! cid = Some (connecting c opts)) by (rewrite O1; apply lookup_insert_eq).
  assert (Ea : checkAuth growcap (Some chk) rAuth cid s1 = Some (s1, false)).
  { unfold checkAuth. erewrite run_bind by (by apply run_obj). rewrite decide_True by done.
    cbn [c_opts connecting with_flags with_opts]. by rewrite Hchk. }
  erewrite run_bind by exact Ea. cbn [negb].
  destruct (authViolation_closes s1 cid _ Hc1 Ht Hnc Hs) as (s2 & c2 & E2 & Hc2 & N2 & F2 & _).
  exists s2, c2. by erewrite run_bind by exact E2.
Qed.
End connect.

(** ** Properties *)

(** An example: two users, one declared twice. *)
Definition ex_users : list User :=
  [MkUser (bs "bob") (bs "old") None;
   MkUser (bs "alice") (bs "$2a$x") (Some ([bs "foo.*"; bs "req.>"], [bs "foo.*"]));
   MkUser (bs "bob") (bs "new") (Some ([bs "a"], []))].

Definition ex_bcrypt (hash given : bytes) : bool := bool_decide (given = drop 4 hash).

Definition ex_login (user pass : string) : bytes -> clientOpts -> clientOpts * option bytes :=
  fun _ _ => (ClientOpts true true [] (bs user) (bs pass) [] [] 1, None).



(** The subscribe permissions can be bypassed: the check matches the
    subject of a SUB as a literal, so that a wildcard in it counts as any
    token.  A user who may subscribe to [foo.*] only subscribes to [foo.>],
    and then receives a publication on [foo.a.b], which the permission does
    not match. *)
Theorem subscribe_permission_bypassed :
  let u := MkUser (bs "alice") (bs "x") (Some ([], [bs "foo.*"])) in
  let chk := MultiUser_Check ex_bcrypt (NewMultiUser [u]) in
  let p := PubArg (bs "foo.a.b") None None (bs "2") 2 in
  may_subscribe u (bs "foo.a.b") = false /\
  exists s1 s2 s3,
    processConnect go_growcap (fun _ _ _ => WOk) (ex_login "alice" "x") (Some chk) None 1 [] ex_server = Some (s1, None) /\
    processSub go_growcap id (fun _ _ _ => WOk) id 1 (bs "foo.> 7") s1 = Some (s2, None) /\
    processMsg go_growcap id (fun _ _ _ => WOk) id 2 p (bs "ok" ++ crlf) s2 = Some (s3, tt) /\
    drop 2 ∘ c_out <$> sv_objs s3 !! 1%N = Some [bs "MSG foo.a.b 7 2" ++ crlf; bs "ok" ++ crlf].
Proof.
  intros u chk p. split; [by vm_compute|]. eexists _, _, _.
  split; [vm_compute; reflexivity|]. split; [vm_compute; reflexivity|].
  split; [vm_compute; reflexivity|]. by vm_compute.
Qed.
