(* ===== verification/ServerSafe.v ===== *)
(** * ServerSafe: the server does not panic

    The handlers of [src/server/client.go], [route.go] and [server.go] as they
    are in [Client], [Route] and [Lifecycle], run in any order: an invariant on
    the whole store under which none of them dereferences nil, indexes out of
    range or divides by zero.  [safe] is a total triple: the operation returns,
    keeps the invariant, and its result has the given property. *)

From S2P Require Import Prelude Util Subject Sublist SublistSpec SublistQueue SublistContract Parser Client Route Lifecycle Auth.
Open Scope nat_scope.

(** ** What the arrays of the sublist hold *)

(** Every subscription in a list of cells has the property. *)
Definition cells (P : subscription -> Prop) (l : list (option subscription)) : Prop := forall x, Some x ∈ l -> P x.

Section heap.
Context (growcap : nat -> nat -> nat) (P : subscription -> Prop).

Definition heap_all (h : heap) : Prop := forall a l, h_arrs h !! a = Some l -> cells P l.

Lemma cells_app l1 l2 : cells P l1 -> cells P l2 -> cells P (l1 ++ l2).
Proof. intros H1 H2 x [Hx|Hx]%elem_of_app; auto. Qed.

Lemma cells_sub l1 l2 : l1 ⊆ l2 -> cells P l2 -> cells P l1.
Proof. intros Hs H x Hx. by apply H, Hs. Qed.

Lemma cells_none n : cells P (replicate n None).
Proof. intros x [? _]%elem_of_replicate. done. Qed.

Lemma cells_one x : P x -> cells P [Some x].
Proof. intros Hx y [= ->]%list_elem_of_singleton. done. Qed.

Lemma arr_cells h s : heap_all h -> cells P (arr_of h s).
Proof.
  intros Hh. unfold arr_of. destruct (h_arrs h !! s_arr s) as [l|] eqn:E; [by eapply Hh|].
  intros x Hx. by apply not_elem_of_nil in Hx.
Qed.

Lemma take_cells n l : cells P l -> cells P (take n l).
Proof. apply cells_sub, subseteq_take. Qed.

Lemma drop_cells n l : cells P l -> cells P (drop n l).
Proof. apply cells_sub, subseteq_drop. Qed.

Lemma elems_cells h s : heap_all h -> cells P (elems h s).
Proof. intros Hh. by apply take_cells, arr_cells. Qed.

Lemma alloc_all h a len : heap_all h -> cells P a -> heap_all (alloc h a len).1.
Proof. intros Hh Ha b l. cbn. intros [[_ <-]|[_ Hl]]%lookup_insert_Some; [done|by eapply Hh]. Qed.

Lemma write_all h s a : heap_all h -> cells P a -> heap_all (write h s a).
Proof. intros Hh Ha b l. cbn. intros [[_ <-]|[_ Hl]]%lookup_insert_Some; [done|by eapply Hh]. Qed.

Lemma append_all h s xs h' s' : append growcap h s xs = (h', s') -> heap_all h -> cells P xs -> heap_all h'.
Proof.
  unfold append. intros E Hh Hx. pose proof (arr_cells h s Hh) as Ha. case_decide.
  - injection E as <- _. apply write_all; [done|]. auto using cells_app, take_cells, drop_cells.
  - injection E as <- _. refine (alloc_all h _ 0 Hh _). auto using cells_app, take_cells, cells_none.
Qed.

Lemma append_nil_all h xs : heap_all h -> cells P xs -> heap_all (append_nil growcap h xs).1.
Proof. intros Hh Hx. refine (alloc_all h _ 0 Hh _). auto using cells_app, cells_none. Qed.

Lemma add_qsub_all h sub qs h' qs' : add_qsub growcap h sub qs = Some (h', qs') -> heap_all h -> P sub -> heap_all h'.
Proof.
  unfold add_qsub. intros (i & _ & E)%bind_Some Hh Hs. destruct i as [i|].
  - apply bind_Some in E as (qr & _ & E). destruct (append growcap h qr [Some sub]) as [h1 qr'] eqn:Ea. simplify_eq.
    eapply append_all; [done..|]. by apply cells_one.
  - cbn in E. simplify_eq. by apply (alloc_all h [Some sub] 1 Hh), cells_one.
Qed.

Lemma add_to_node_all h sub n h' n' : add_to_node growcap h sub n = Some (h', n') -> heap_all h -> P sub -> heap_all h'.
Proof.
  unfold add_to_node. destruct (sub_queue sub); [|by intros [= <- _]].
  intros ([h1 qs] & E & ?)%bind_Some. simplify_eq. by apply add_qsub_all with (qs := n_qsubs n) (sub := sub) (qs' := qs).
Qed.

Lemma insert_level_all sub toks : forall h l sfwc h' l' e,
  insert_level growcap sub h l sfwc toks = Some (h', l', e) -> heap_all h -> P sub -> heap_all h'.
Proof.
  induction toks as [|t toks IH]; intros h l sfwc h' l' e E Hh Hs; cbn in E; [by simplify_eq|].
  case_match; [by simplify_eq|]. destruct toks as [|t' toks].
  - apply bind_Some in E as ([h1 n1] & E1 & E). simplify_eq. by eapply add_to_node_all.
  - apply bind_Some in E as ([[h1 l1] e1] & E1 & E). simplify_eq. by eapply IH.
Qed.

Lemma copy_qsubs_all qs : forall h, heap_all h -> heap_all (copy_qsubs growcap h qs).1.
Proof.
  induction qs as [|qr qs IH]; intros h Hh; [done|]. cbn [copy_qsubs].
  destruct (append_nil growcap h (elems h qr)) as [h1 nqr] eqn:E1. destruct (copy_qsubs growcap h1 qs) as [h2 rest] eqn:E2. cbn.
  specialize (IH h1). rewrite E2 in IH. apply IH. pose proof (append_nil_all h (elems h qr) Hh) as H. rewrite E1 in H.
  by apply H, elems_cells.
Qed.

Lemma add_to_result_all h sub r h' r' : add_to_result growcap h sub r = Some (h', r') -> heap_all h -> P sub -> heap_all h'.
Proof.
  unfold add_to_result, copyResult. intros E Hh Hs. pose proof (copy_qsubs_all (r_qsubs r) h Hh) as H1.
  destruct (copy_qsubs growcap h (r_qsubs r)) as [h1 qs]. destruct (sub_queue sub); [|by simplify_eq].
  apply bind_Some in E as ([h2 qs2] & E & ?). simplify_eq. by eapply add_qsub_all.
Qed.

Lemma addToCache_loop_all subject sub entries : forall h cache h' cache',
  addToCache_loop growcap subject sub h cache entries = Some (h', cache') -> heap_all h -> P sub -> heap_all h'.
Proof.
  induction entries as [|[k r] entries IH]; intros h cache h' cache' E Hh Hs; cbn in E; [by simplify_eq|].
  destruct (matchLiteral k subject); [|by eapply IH]. apply bind_Some in E as ([h1 nr] & E1 & E).
  eapply IH; [done| |done]. by eapply add_to_result_all.
Qed.

Lemma Insert_all s sub s' e : Insert growcap s sub = Some (s', e) -> heap_all (sl_heap s) -> P sub -> heap_all (sl_heap s').
Proof.
  unfold Insert. intros ([[h l] e1] & E1 & E)%bind_Some Hh Hs. assert (Hh1 : heap_all h) by (by eapply insert_level_all).
  destruct e1; [by simplify_eq|]. apply bind_Some in E as ([h2 c2] & E2 & E). simplify_eq. by eapply addToCache_loop_all.
Qed.

Lemma add_qsubs_all nqs : forall h rqs h' rqs', add_qsubs_to_results growcap h nqs rqs = Some (h', rqs') -> heap_all h -> heap_all h'.
Proof.
  induction nqs as [|qr nqs IH]; intros h rqs h' rqs' E Hh; cbn in E; [by simplify_eq|].
  case_decide; [by eapply IH|]. apply bind_Some in E as (first & _ & E). apply bind_Some in E as (i & _ & E).
  destruct i as [i|]; [|by eapply IH]. apply bind_Some in E as (rq & _ & E).
  destruct (append growcap h rq (elems h qr)) as [h1 rq'] eqn:Ea. eapply IH; [done|]. eapply append_all; [done..|]. by apply elems_cells.
Qed.

Lemma addNode_all h n r h' r' : addNodeToResults_if growcap h n r = Some (h', r') -> heap_all h -> heap_all h'.
Proof.
  destruct n as [n|]; cbn; [|by intros [= <- _]]. unfold addNodeToResults.
  intros ([h1 qs] & E & ?)%bind_Some. simplify_eq. by eapply add_qsubs_all.
Qed.

Lemma matchLevel_all toks : forall l n pwc h r h' r', matchLevel_loop growcap toks l n pwc h r = Some (h', r') -> heap_all h -> heap_all h'.
Proof.
  induction toks as [|t toks IH]; intros l n pwc h r h' r' E Hh; cbn in E.
  - apply bind_Some in E as ([h1 r1] & E1 & E). eapply addNode_all; [done|]. by eapply addNode_all.
  - destruct l as [l|]; [|by simplify_eq]. apply bind_Some in E as ([h1 r1] & E1 & E). apply bind_Some in E as ([h2 r2] & E2 & E).
    eapply IH; [done|]. assert (H1 : heap_all h1) by (by eapply addNode_all). destruct (l_pwc l); [by eapply IH|by simplify_eq].
Qed.

Lemma Match_all ev s subject s' r : Match growcap ev s subject = Some (s', r) -> heap_all (sl_heap s) -> heap_all (sl_heap s').
Proof.
  unfold Match. destruct (sl_cache s !! subject); [by intros [= <- _]|].
  intros ([h r1] & E & ?)%bind_Some. simplify_eq. by eapply matchLevel_all.
Qed.

Lemma removeSub_all h sub s h' s' b : removeSubFromSlice growcap h sub s = (h', s', b) -> heap_all h -> heap_all h'.
Proof.
  unfold removeSubFromSlice. destruct (index_of _ _) as [i|]; [|by intros [= <- _ _]]. intros E Hh.
  pose proof (arr_cells h s Hh) as Ha. set (a := <[_ := _]> _) in E. assert (Hc : cells P a).
  { intros x Hx. apply list_elem_of_lookup in Hx as [j Hx]. unfold a in Hx. apply list_lookup_insert_Some in Hx as [(_ & ? & _)|[_ Hx]]; [done|].
    apply list_lookup_insert_Some in Hx as [(_ & Hx & _)|[_ Hx]]; [|by eapply Ha, list_elem_of_lookup_2].
    destruct (arr_of h s !! (s_len s - 1)) as [[y|]|] eqn:Ey; cbn in Hx; simplify_eq. by eapply Ha, list_elem_of_lookup_2. }
  pose proof (write_all h s a Hh Hc) as Hw. unfold shrinkAsNeeded in E. repeat case_decide; cbn [append_nil alloc] in E; injection E as <- _ _; try done.
  exact (append_nil_all _ _ Hw (elems_cells _ _ Hw)).
Qed.

Lemma removeFromNode_all h n sub h' n' b : removeFromNode growcap h n sub = Some (h', n', b) -> heap_all h -> heap_all h'.
Proof.
  unfold removeFromNode. destruct (sub_queue sub); [|by destruct (removeSubFromList sub (n_psubs n)); intros [= <- _ _]].
  intros (i & _ & E)%bind_Some Hh. destruct i as [i|]; [|by simplify_eq]. apply bind_Some in E as (qr & _ & E).
  destruct (removeSubFromSlice growcap h sub qr) as [[h1 qr'] found] eqn:E1. simplify_eq. by eapply removeSub_all.
Qed.

Lemma remove_level_all sub toks : forall h l sfwc h' l' e,
  remove_level growcap sub h l sfwc toks = Some (h', l', e) -> heap_all h -> heap_all h'.
Proof.
  induction toks as [|t toks IH]; intros h l sfwc h' l' e E Hh; cbn in E; [by simplify_eq|].
  case_match; [by simplify_eq|]. destruct toks as [|t' toks], (get_node l (key_of t)) as [n|]; try by simplify_eq.
  - apply bind_Some in E as ([[h1 n1] b] & E1 & E). assert (heap_all h1) by (by eapply removeFromNode_all). by destruct b; simplify_eq.
  - destruct (n_next n) as [next|]; [|by simplify_eq]. apply bind_Some in E as ([[h1 l1] e1] & E1 & E).
    assert (heap_all h1) by (by eapply IH). by destruct e1; simplify_eq.
Qed.

Lemma Remove_all s sub s' e : Remove growcap s sub = Some (s', e) -> heap_all (sl_heap s) -> heap_all (sl_heap s').
Proof.
  unfold Remove. intros ([[h l] e1] & E1 & E)%bind_Some Hh. assert (heap_all h) by (by eapply remove_level_all).
  by destruct e1; simplify_eq.
Qed.
End heap.

(** ** The invariant *)

(** What a connection is: of a client, or of a route, dialed or accepted. *)
Inductive kind := KClient | KRoute (dialed : bool).

(** A subscription of one of the connections, with a subject that the sublist
    takes or refuses in the documented way. *)
Definition good_sub (D : gmap N kind) (sub : subscription) : Prop :=
  (exists k, sub_client sub = Some k /\ is_Some (D !! k)) /\ subject_ok (sub_subject sub) = true.

(** A result of a match whose groups have members. *)
Definition good_result (D : gmap N kind) (r : SublistResult) : Prop :=
  Forall (good_sub D) (r_psubs r) /\ Forall (fun g => 0 < s_len g) (r_qsubs r).

Definition has_contract (sl : Sublist) : Prop := exists live, contract sl live.

Record obj_ok (D : gmap N kind) (kd : kind) (c : client) : Prop := {
  oo_subs : map_Forall (fun _ => good_sub D) (c_subs c);
  oo_perms : forall pm, c_perms c = Some pm -> has_contract (perm_sub pm) /\ has_contract (perm_pub pm);
  oo_cache : forall m, rc_results (c_cache c) = Some m -> map_Forall (fun _ => good_result D) m;
  oo_route : match kd with
    | KClient => c_route c = None
    | KRoute dialed => exists r, c_route c = Some r /\ (dialed = true -> rt_didSolicit r = true)
    end;
  oo_url : forall r, c_route c = Some r -> rt_didSolicit r = true -> is_Some (rt_url r);
}.

(** [D] tells what each connection of the store is. *)
Record ok (D : gmap N kind) (s : server) : Prop := {
  ok_dom : dom (sv_objs s) = dom D;
  ok_objs : forall k c kd, sv_objs s !! k = Some c -> D !! k = Some kd -> obj_ok D kd c;
  ok_clients : sv_clients s ⊆ dom D;
  ok_tmp : rg_grTmpClients (sv_rg s) ⊆ dom D;
  ok_routes : forall k, k ∈ sv_routes s -> exists b, D !! k = Some (KRoute b);
  ok_remotes : forall id k, sv_remotes s !! id = Some k -> exists b, D !! k = Some (KRoute b);
  ok_sl : exists live, contract (sv_sl s) live /\ Forall (good_sub D) live;
  ok_heap : heap_all (good_sub D) (sl_heap (sv_sl s));
}.

Section safety.
Context (D : gmap N kind).

(** The operation returns, keeps the invariant, and its result satisfies [P]. *)
Definition safe {A} (m : M A) (P : A -> Prop) : Prop := forall s, ok D s -> exists s' x, m s = Some (s', x) /\ ok D s' /\ P x.

Abbreviation any := (fun _ => True).

Lemma safe_ret {A} (x : A) (P : A -> Prop) : P x -> safe (mret x) P.
Proof. intros Hx s Hs. by exists s, x. Qed.

Lemma safe_bind {A B} (m : M A) (k : A -> M B) P Q : safe m P -> (forall x, P x -> safe (k x) Q) -> safe (m ≫= k) Q.
Proof.
  intros Hm Hk s Hs. destruct (Hm s Hs) as (s1 & x & E & Hs1 & Hx). unfold mbind, M_bind. rewrite E. by apply (Hk x Hx).
Qed.

Lemma safe_weaken {A} (m : M A) (P Q : A -> Prop) : safe m P -> (forall x, P x -> Q x) -> safe m Q.
Proof. intros Hm HPQ s Hs. destruct (Hm s Hs) as (s1 & x & E & Hs1 & Hx). exists s1, x. auto. Qed.

Lemma safe_any {A} (m : M A) (P : A -> Prop) : safe m P -> safe m any.
Proof. intros Hm. by eapply safe_weaken. Qed.

Lemma safe_gets {A} (f : server -> A) : safe (gets f) (fun x => exists s, ok D s /\ x = f s).
Proof. intros s Hs. exists s, (f s). eauto. Qed.

Lemma safe_lift {A} (o : option A) x (P : A -> Prop) : o = Some x -> P x -> safe (lift o) P.
Proof. intros ->. apply safe_ret. Qed.

Lemma safe_when b m : safe m any -> safe (when b m) any.
Proof. intros Hm. destruct b; [done|by apply safe_ret]. Qed.

Lemma safe_forM {A} (l : list A) f : (forall x, x ∈ l -> safe (f x) any) -> safe (forM l f) any.
Proof.
  induction l as [|x l IH]; intros Hf; cbn; [by apply safe_ret|].
  eapply safe_bind; [apply Hf; by left|]. intros _ _. apply IH. intros y Hy. apply Hf. by right.
Qed.

Lemma safe_obj k kd : D !! k = Some kd -> safe (obj k) (obj_ok D kd).
Proof.
  intros Hk s Hs. assert (Hd : k ∈ dom (sv_objs s)) by (rewrite (ok_dom _ _ Hs); by apply elem_of_dom).
  apply elem_of_dom in Hd as [c Hc]. exists s, c. unfold obj. rewrite Hc. split_and!; [done..|]. by eapply ok_objs.
Qed.

Lemma safe_upd k f : (forall kd c, D !! k = Some kd -> obj_ok D kd c -> obj_ok D kd (f c)) -> safe (upd k f) any.
Proof.
  intros Hf s Hs. eexists _, _. split; [reflexivity|]. split; [|done].
  split; cbn; try apply Hs; [rewrite dom_alter_L; apply Hs|].
  intros k' c kd Hc Hd. apply lookup_alter_Some in Hc as [(<- & c0 & Hc & ->)|[_ Hc]]; [apply Hf; [done|]|]; by eapply ok_objs.
Qed.

(** A change that the invariant does not see. *)
Lemma safe_modify f : (forall s, ok D s -> ok D (f s)) -> safe (modify f) any.
Proof. intros Hf s Hs. eexists _, _. split; [reflexivity|]. split; [by apply Hf|done]. Qed.

(** ** Updates of a connection *)

Lemma ok_with_opts kd c x : obj_ok D kd c -> obj_ok D kd (with_opts c x).
Proof. by intros []. Qed.
Lemma ok_with_nc kd c x : obj_ok D kd c -> obj_ok D kd (with_nc c x).
Proof. by intros []. Qed.
Lemma ok_with_pcd kd c x : obj_ok D kd c -> obj_ok D kd (with_pcd c x).
Proof. by intros []. Qed.
Lemma ok_with_atmr kd c x : obj_ok D kd c -> obj_ok D kd (with_atmr c x).
Proof. by intros []. Qed.
Lemma ok_with_pout kd c x : obj_ok D kd c -> obj_ok D kd (with_pout c x).
Proof. by intros []. Qed.
Lemma ok_with_flags kd c x : obj_ok D kd c -> obj_ok D kd (with_flags c x).
Proof. by intros []. Qed.
Lemma ok_with_out kd c x y z : obj_ok D kd c -> obj_ok D kd (with_out c x y z).
Proof. by intros []. Qed.
Lemma ok_with_cache kd c x : obj_ok D kd c -> (forall m, rc_results x = Some m -> map_Forall (fun _ => good_result D) m) ->
  obj_ok D kd (with_cache c x).
Proof. by intros [] ?. Qed.
Lemma ok_with_subs kd c x : obj_ok D kd c -> map_Forall (fun _ => good_sub D) x -> obj_ok D kd (with_subs c x).
Proof. by intros [] ?. Qed.
Lemma ok_with_perms kd c pm : obj_ok D kd c -> has_contract (perm_sub pm) -> has_contract (perm_pub pm) -> obj_ok D kd (with_perms c (Some pm)).
Proof. intros [] ? ?. split; try done. by intros ? [= <-]. Qed.

(** The route of a connection is replaced by one that was dialed if it was. *)
Lemma ok_with_route b c r' : obj_ok D (KRoute b) c -> (b = true -> rt_didSolicit r' = true) ->
  (rt_didSolicit r' = true -> is_Some (rt_url r')) -> obj_ok D (KRoute b) (with_route c (Some r')).
Proof. intros [H1 H2 H3 H4 H5] Hs Hu. split; try done; [by exists r'|by intros ? [= <-]]. Qed.

Definition known (k : N) : Prop := is_Some (D !! k).

Create HintDb safe discriminated.
Hint Resolve ok_with_opts ok_with_nc ok_with_pcd ok_with_atmr ok_with_pout ok_with_flags ok_with_out : safe.
Hint Extern 0 (obj_ok _ _ _) => assumption : safe.

(** An update of the connection [k] that touches none of what [obj_ok] says. *)
Ltac plain_upd := apply safe_upd; intros; cbv beta zeta; repeat case_match; auto with safe.

(** Takes an operation apart: what the database knows is used, the rest is
    split into binds, tests and loops. *)
Ltac safe_known := first [solve [eauto 3 with safe] | solve [eapply safe_any; eauto 3 with safe]].
Ltac safe_step :=
  lazymatch goal with
  | |- safe (_ ≫= _) _ => first [eapply safe_bind; [safe_known|intros] | apply (safe_bind _ _ any); [|intros]]
  | |- safe (mret _) _ => apply safe_ret
  | |- safe (when _ _) _ => apply safe_when
  | |- safe (match ?x with _ => _ end) _ => destruct x eqn:?
  | |- safe (upd _ _) _ => solve [plain_upd]
  | |- safe _ _ => safe_known
  end.

Context (growcap : nat -> nat -> nat) (choice : nat -> nat)
        (wr : N -> list bytes -> bytes -> write_result)
        (json_opts : bytes -> clientOpts -> clientOpts * option bytes)
        (json_info : bytes -> Info + bytes) (nenv : netEnv) (info_proto : Info -> bytes) (connect_json : connectInfo -> option bytes)
        (fmt_q : bytes -> bytes)
        (cAuth rAuth : option (clientOpts -> option (option User))).

(** ** The sublist *)

Lemma toss_safe : safe (toss choice) any.
Proof. intros s Hs. eexists _, _. split; [reflexivity|]. split; [|done]. by destruct Hs. Qed.

Lemma set_sl_ok s sl live : ok D s -> contract sl live -> Forall (good_sub D) live -> heap_all (good_sub D) (sl_heap sl) -> ok D (set_sl s sl).
Proof. intros []. split; cbn; try done. eauto. Qed.

Lemma sl_insert_safe sub : good_sub D sub -> safe (sl_insert growcap sub) any.
Proof.
  intros Hg s Hs. pose proof Hs as [_ _ _ _ _ _ (live & Hc & Hl) Hh].
  destruct (Insert_contract growcap _ live sub Hc (proj2 Hg)) as (sl & E & Hc').
  unfold sl_insert. rewrite E. eexists _, _. split; [reflexivity|]. split; [|done]. eapply set_sl_ok; [done..| |by eapply Insert_all].
  cbn. destruct (insertable _ _); [by constructor|done].
Qed.

Lemma remove_one_Forall (Q : subscription -> Prop) x l : Forall Q l -> Forall Q (remove_one x l).
Proof. destruct (remove_one_spec x l) as [[_ E]|[_ ->]]; [|done]. rewrite E at 1. by intros [_ ?]%Forall_cons. Qed.

Lemma sl_remove_safe sub : good_sub D sub -> safe (sl_remove growcap sub) any.
Proof.
  intros Hg s Hs. pose proof Hs as [_ _ _ _ _ _ (live & Hc & Hl) Hh].
  destruct (Remove_contract growcap _ live sub Hc (proj2 Hg)) as (sl & e & E & _ & Hc').
  unfold sl_remove. rewrite E. eexists _, _. split; [reflexivity|]. split; [|done]. eapply set_sl_ok; [done..| |by eapply Remove_all].
  by apply remove_one_Forall.
Qed.

Lemma sl_match_safe subject : closed_literal subject = true -> safe (sl_match growcap choice subject) (good_result D).
Proof.
  intros Hcl. eapply safe_bind; [apply toss_safe|]. intros ev _ s Hs. pose proof Hs as [_ _ _ _ _ _ (live & Hc & Hl) Hh].
  destruct (Match_contract growcap ev _ live subject Hc Hcl) as (sl & r & E & Hc' & Hp & Hq & _).
  unfold sl_match_at. rewrite E. eexists _, _. split; [reflexivity|]. split; [eapply set_sl_ok; [done..|by eapply Match_all]|].
  split; [|eapply Forall_impl; [exact Hq|]; by intros g []]. rewrite Hp. apply Forall_forall. intros x Hx.
  rewrite Forall_forall in Hl. apply Hl. unfold plains, interested in Hx. by rewrite !list_elem_of_filter in Hx; destruct_and!.
Qed.

Lemma perm_match_safe sl subject : has_contract sl -> closed_literal subject = true ->
  safe (perm_match growcap choice sl subject) (fun x => has_contract x.1).
Proof.
  intros [live Hc] Hcl. eapply safe_bind; [apply toss_safe|]. intros ev _.
  destruct (Match_contract growcap ev _ live subject Hc Hcl) as (sl' & r & E & Hc' & _). eapply safe_lift; [exact E|]. by exists live.
Qed.
Hint Resolve toss_safe sl_insert_safe sl_remove_safe sl_match_safe perm_match_safe : safe.

(** ** Output *)

Lemma obj_safe k : known k -> safe (obj k) (fun c => exists kd, D !! k = Some kd /\ obj_ok D kd c).
Proof. intros [kd Hk]. eapply safe_weaken; [by apply safe_obj|]. eauto. Qed.
Hint Resolve obj_safe : safe.

Lemma net_write_safe k d : known k -> safe (net_write wr k d) any.
Proof. intros Hk. unfold net_write. repeat safe_step; done. Qed.
Hint Resolve net_write_safe : safe.

Lemma sendProto_safe k d : known k -> safe (sendProto wr k d) any.
Proof. intros Hk. unfold sendProto. repeat safe_step; done. Qed.
Hint Resolve sendProto_safe : safe.

Lemma sendErr_safe k e : known k -> safe (sendErr wr k e) any.
Proof. intros Hk. unfold sendErr. repeat safe_step; done. Qed.

Lemma sendOK_safe k : known k -> safe (sendOK wr k) any.
Proof. intros Hk. unfold sendOK. repeat safe_step; done. Qed.

Lemma clearConnection_safe k : safe (clearConnection k) any.
Proof. unfold clearConnection. plain_upd. Qed.
Hint Resolve sendErr_safe sendOK_safe clearConnection_safe : safe.

Lemma route_known k b : D !! k = Some (KRoute b) -> known k.
Proof. by eexists. Qed.
Hint Resolve route_known : safe.

Lemma routes_safe : safe (gets sv_routes) (fun rs => forall k, k ∈ rs -> exists b, D !! k = Some (KRoute b)).
Proof. eapply safe_weaken; [apply safe_gets|]. intros rs (s & Hs & ->). apply Hs. Qed.
Hint Resolve routes_safe : safe.

Lemma broadcastInterest_safe p : safe (broadcastInterestToRoutes wr p) any.
Proof.
  unfold broadcastInterestToRoutes. safe_step. apply safe_forM. intros k Hk%elem_of_elements. destruct (H k Hk) as [b Hb].
  repeat safe_step; done.
Qed.
Hint Resolve broadcastInterest_safe : safe.

Lemma routeSid_safe sub : good_sub D sub -> safe (lift (routeSid sub)) any.
Proof. intros [(k & Hk & _) _]. unfold routeSid. rewrite Hk. by apply safe_ret. Qed.
Hint Resolve routeSid_safe : safe.

Lemma broadcastSubscribe_safe sub : good_sub D sub -> safe (broadcastSubscribe wr sub) any.
Proof. intros Hg. unfold broadcastSubscribe. repeat safe_step; done. Qed.

Lemma counts_safe sub : safe (counts sub) any.
Proof. eapply safe_any, safe_gets. Qed.

Lemma set_sub_counts_safe sub a b : safe (set_sub_counts sub a b) any.
Proof. apply safe_modify. by intros s []. Qed.
Hint Resolve broadcastSubscribe_safe counts_safe set_sub_counts_safe : safe.

Lemma broadcastUnSubscribe_safe sub : good_sub D sub -> safe (broadcastUnSubscribe wr sub) any.
Proof. intros Hg. unfold broadcastUnSubscribe. repeat safe_step; done. Qed.
Hint Resolve broadcastUnSubscribe_safe : safe.

(** ** Closing *)

Lemma set_maps_ok s cl ro re cp : ok D s -> cl ⊆ dom D -> (forall k, k ∈ ro -> exists b, D !! k = Some (KRoute b)) ->
  (forall id k, re !! id = Some k -> exists b, D !! k = Some (KRoute b)) -> ok D (set_maps s cl ro re cp).
Proof. intros [] ? ? ?. by split. Qed.

Lemma removeClient_safe k : known k -> safe (removeClient k) any.
Proof.
  intros Hk. unfold removeClient. safe_step. apply safe_modify. intros s Hs. pose proof Hs as [_ _ Hcl _ Hro Hre _ _].
  destruct (decide (c_typ x = CLIENT)); [apply set_maps_ok; [done|set_solver|done..]|]. destruct (decide (c_typ x = ROUTER)); [|done].
  apply set_maps_ok; [done|done|..].
  - intros r Hr. apply Hro. set_solver.
  - intros id r. destruct (c_route x) as [rt|]; [|by apply Hre]. case_decide; [|by apply Hre].
    rewrite lookup_delete_Some. intros [_ Hr]. by eapply Hre.
Qed.

Lemma set_started_ok s l : ok D s -> ok D (set_rg s (set_started (sv_rg s) l)).
Proof. by intros []. Qed.

Lemma startDialing_safe d : safe (startDialing d) any.
Proof. apply safe_modify. intros s Hs. destruct (sv_running s); [by apply set_started_ok|done]. Qed.
Hint Resolve removeClient_safe startDialing_safe : safe.

Lemma gets_any {A} (f : server -> A) : safe (gets f) any.
Proof. eapply safe_any, safe_gets. Qed.

Lemma reconnect_safe c : safe (reconnect c) any.
Proof. unfold reconnect. repeat first [safe_step | apply gets_any]; done. Qed.
Hint Resolve reconnect_safe : safe.

Lemma c_subs_good kd c sub : obj_ok D kd c -> sub ∈ (map_to_list (c_subs c)).*2 -> good_sub D sub.
Proof.
  intros Hc ([sid sub'] & -> & Hin)%list_elem_of_fmap. apply elem_of_map_to_list in Hin. by apply (oo_subs _ _ _ Hc sid).
Qed.

Lemma closeConnection_safe k : known k -> safe (closeConnection growcap wr k) any.
Proof.
  intros Hk. unfold closeConnection. safe_step. destruct H as (kd & Hd & Hc). safe_step; [by apply safe_ret|].
  repeat safe_step. apply safe_forM. intros sub Hin. pose proof (c_subs_good _ _ _ Hc Hin). repeat safe_step; done.
Qed.
Hint Resolve closeConnection_safe : safe.

(** ** CONNECT *)

(** The authenticators only return users whose patterns the sublist takes or
    refuses in the documented way. *)
Definition auth_ok (auth : option (clientOpts -> option (option User))) : Prop :=
  forall chk opts u, auth = Some chk -> chk opts = Some (Some u) -> user_ok u.

Lemma RegisterUser_safe k u : user_ok u -> safe (RegisterUser growcap k u) any.
Proof.
  intros Hu. unfold RegisterUser, user_ok in *. destruct (u_permissions u) as [[publish subscribe]|]; [|by apply safe_ret].
  destruct Hu as [Hp Hs]. destruct (perm_insert_all growcap _ Hp) as (pub & Ep & Cp). destruct (perm_insert_all growcap _ Hs) as (sub & Es & Cs).
  eapply safe_bind; [by apply (safe_lift _ pub (eq pub))|intros ? <-]. eapply safe_bind; [by apply (safe_lift _ sub (eq sub))|intros ? <-].
  apply safe_upd. intros kd c _ Hc. apply ok_with_perms; [done|by eexists..].
Qed.

Lemma authViolation_safe k : known k -> safe (authViolation growcap wr k) any.
Proof. intros Hk. unfold authViolation. repeat safe_step; done. Qed.
Lemma authTimeout_safe k : known k -> safe (authTimeout growcap wr k) any.
Proof. intros Hk. unfold authTimeout. repeat safe_step; done. Qed.
Lemma maxConnExceeded_safe k : known k -> safe (maxConnExceeded growcap wr k) any.
Proof. intros Hk. unfold maxConnExceeded. repeat safe_step; done. Qed.
Lemma maxPayload_safe k : known k -> safe (maxPayloadViolation growcap wr k) any.
Proof. intros Hk. unfold maxPayloadViolation. repeat safe_step; done. Qed.
Lemma processErr_safe k : known k -> safe (processErr growcap wr k) any.
Proof. apply closeConnection_safe. Qed.
Hint Resolve RegisterUser_safe authViolation_safe authTimeout_safe maxConnExceeded_safe maxPayload_safe processErr_safe : safe.

Lemma checkAuth_safe k : auth_ok cAuth -> auth_ok rAuth -> known k -> safe (checkAuth growcap cAuth rAuth k) any.
Proof.
  intros Hc Hr Hk. unfold checkAuth. safe_step.
  assert (Hcheck : forall auth, auth_ok auth -> safe (match auth with None => mret true | Some chk =>
    match chk (c_opts x) with None => mret false | Some None => mret true | Some (Some u) => RegisterUser growcap k u;; mret true end end) any).
  { intros auth Ha. destruct auth as [chk|]; [|by apply safe_ret]. destruct (chk (c_opts x)) as [[u|]|] eqn:E; [|by apply safe_ret..].
    pose proof (Ha chk _ u eq_refl E). repeat safe_step; done. }
  case_decide; [by apply Hcheck|]. case_decide; [by apply Hcheck|by apply safe_ret].
Qed.
Hint Resolve checkAuth_safe : safe.

(** The name of the other server, from its CONNECT. *)
Lemma with_remoteID_ok kd c name : obj_ok D kd c ->
  obj_ok D kd (with_route c (match c_route c with Some r => Some (set_remoteID r name) | None => None end)).
Proof.
  intros Hc. pose proof Hc as [H1 H2 H3 H4 H5]. destruct (c_route c) as [r|] eqn:Er.
  2: { by destruct kd as [|b]; [|destruct H4 as (? & ? & _)]. }
  destruct kd as [|b]; [done|]. destruct H4 as (? & [= <-] & Hb). apply ok_with_route; [done|done|by apply (H5 r)].
Qed.

Lemma connect_body_safe k arg : auth_ok cAuth -> auth_ok rAuth -> known k -> safe (connect_body growcap wr json_opts cAuth rAuth k arg) any.
Proof.
  intros Ha Hb Hk. unfold connect_body. safe_step. destruct (json_opts arg (c_opts x)) as [opts err]. safe_step; [safe_step|].
  destruct err as [e|]; [by apply safe_ret|]. safe_step; [safe_step|].
  safe_step; [apply safe_when, safe_modify; intros s Hs; destruct Hs; by apply set_maps_ok|].
  safe_step. repeat safe_step; try done. apply safe_upd. intros. by apply with_remoteID_ok.
Qed.
Hint Resolve connect_body_safe : safe.

Lemma processConnect_safe k arg : auth_ok cAuth -> auth_ok rAuth -> known k -> safe (processConnect growcap wr json_opts cAuth rAuth k arg) any.
Proof. intros Ha Hb Hk. unfold processConnect. repeat safe_step; done. Qed.

(** ** Routes *)

Lemma local_protos_some subs : Forall (good_sub D) subs -> exists b, local_protos subs = Some b.
Proof.
  induction 1 as [|sub subs [(k & Hk & _) _] _ [b IH]]; [by eexists|]. cbn. unfold routeSid. rewrite Hk. cbn. rewrite IH. by eexists.
Qed.

Lemma local_subs_good s : ok D s -> Forall (good_sub D) (local_subs s).
Proof.
  intros Hs. apply Forall_forall. intros sub (k & Hin & Hk)%list_elem_of_bind. destruct (sv_objs s !! k) as [c|] eqn:Hc.
  - assert (Hd : k ∈ dom D) by (rewrite <- (ok_dom _ _ Hs); by apply elem_of_dom). apply elem_of_dom in Hd as [kd Hd].
    eapply c_subs_good; [|done]. by eapply ok_objs.
  - by apply not_elem_of_nil in Hin.
Qed.

Lemma sendLocalSubs_safe k : known k -> safe (sendLocalSubsToRoute wr k) any.
Proof.
  intros Hk. unfold sendLocalSubsToRoute. eapply safe_bind; [apply safe_gets|]. intros subs (s & Hs & ->).
  destruct (local_protos_some _ (local_subs_good _ Hs)) as [b Eb]. eapply safe_bind; [by apply (safe_lift _ b any)|]. intros b' _.
  repeat safe_step; done.
Qed.
Hint Resolve sendLocalSubs_safe : safe.

Lemma route_of k b : D !! k = Some (KRoute b) -> safe (obj k) (fun c => obj_ok D (KRoute b) c /\ exists r, c_route c = Some r).
Proof. intros Hk. eapply safe_weaken; [by apply safe_obj|]. intros c Hc. split; [done|]. destruct Hc as [_ _ _ (r & Hr & _) _]. by exists r. Qed.

Lemma addRoute_safe k b : D !! k = Some (KRoute b) -> safe (addRoute k) any.
Proof.
  intros Hk. unfold addRoute. eapply safe_bind; [by apply route_of|]. intros c [Hc [r Hr]].
  eapply safe_bind; [apply (safe_lift _ r (eq r)); done|]. intros ? <-. eapply safe_bind; [apply gets_any|]. intros running _.
  destruct running; cbn [negb]; [|by apply safe_ret]. eapply safe_bind; [apply safe_gets|]. intros remotes (s & Hs & ->).
  destruct (sv_remotes s !! rt_remoteID r) as [remote|] eqn:Er.
  - destruct (ok_remotes _ _ Hs _ _ Er) as [b' Hb']. safe_step; [|by apply safe_ret].
    destruct (rt_didSolicit r) eqn:Hds; cbn [when]; [|by apply safe_ret].
    eapply safe_bind; [by apply route_of|]. intros rc [Hrc [old Hold]]. eapply safe_bind; [by apply (safe_lift _ old any)|]. intros old' _.
    assert (Hup : forall b c', obj_ok D (KRoute b) c' -> obj_ok D (KRoute b) (with_route c' (Some (set_retry r (rt_retry old'))))).
    { intros b0 c' Hc'. apply ok_with_route; [done|done|]. intros _. exact (oo_url _ _ _ Hc r Hr Hds). }
    safe_step; apply safe_upd; intros kd c' Hkd Hc'; [assert (kd = KRoute b') as -> by congruence|assert (kd = KRoute b) as -> by congruence]; by apply Hup.
  - safe_step; [apply safe_modify; intros s' Hs'; destruct Hs'; split; cbn; try done; set_solver|].
    safe_step; [apply safe_modify; intros s' Hs'; pose proof Hs' as [_ _ H3 _ H5 H6 _ _]; apply set_maps_ok; [done|done|..]|].
    { intros k' [->%elem_of_singleton|Hk']%elem_of_union; [by eexists|auto]. }
    { intros id k' [[_ <-]|[_ Hk']]%lookup_insert_Some; [by eexists|by eapply H6]. }
    safe_step; [apply gets_any|]. safe_step; [apply safe_when, safe_upd|safe_step; by apply safe_ret].
    intros kd c' Hkd Hc'. assert (kd = KRoute b) as -> by congruence. pose proof Hc' as [_ _ _ (r' & Hr' & Hd) Hu]. rewrite Hr'.
    apply ok_with_route; [done|done|by apply (Hu r')].
Qed.

Lemma forwardInfo_safe info : safe (forwardNewRouteInfoToKnownServers wr info_proto info) any.
Proof.
  unfold forwardNewRouteInfoToKnownServers. safe_step. apply safe_forM. intros k Hk%elem_of_elements. destruct (H k Hk) as [b Hb].
  eapply safe_bind; [by apply route_of|]. intros c [Hc [r Hr]]. eapply safe_bind; [by apply (safe_lift _ r any)|]. intros. repeat safe_step; done.
Qed.

Lemma processImplicitRoute_safe info : safe (processImplicitRoute nenv info) any.
Proof. unfold processImplicitRoute. safe_step; [apply gets_any|]. repeat safe_step; done. Qed.

Lemma updateServerINFO_safe urls : safe (updateServerINFO nenv urls) any.
Proof.
  unfold updateServerINFO. safe_step; [apply gets_any|]. destruct (rg_NoAdvertise x); [by apply safe_ret|].
  destruct (add_urls urls (rg_urls x)) as [u b]. safe_step; [apply safe_modify; by intros s []|].
  safe_step; [apply safe_when, safe_modify; by intros s []|by apply safe_ret].
Qed.

Lemma sendAsyncInfo_safe : safe (sendAsyncInfoToClients wr) any.
Proof.
  unfold sendAsyncInfoToClients. eapply safe_bind; [apply safe_gets|]. intros s (s0 & Hs & ->). safe_step; [by apply safe_ret|].
  apply safe_forM. intros k Hk%elem_of_elements. apply (ok_clients _ _ Hs), elem_of_dom in Hk. repeat safe_step; done.
Qed.
Hint Resolve forwardInfo_safe processImplicitRoute_safe updateServerINFO_safe sendAsyncInfo_safe : safe.

Lemma route_added_safe k u info b : known k -> safe (route_added wr nenv info_proto k u info b) any.
Proof. intros Hk. unfold route_added. repeat safe_step; done. Qed.

Lemma processRouteInfo_safe k info : known k -> safe (processRouteInfo growcap wr nenv info_proto k info) any.
Proof.
  intros Hk. pose proof Hk as [kd Hd]. unfold processRouteInfo. eapply safe_bind; [by apply safe_obj|]. intros c Hc.
  destruct (c_route c) as [r|] eqn:Er; [|by apply safe_ret]. safe_step; [by apply safe_ret|]. safe_step; [safe_step|].
  assert (exists b, kd = KRoute b) as [b ->] by (destruct kd as [|b]; [by pose proof (oo_route _ _ _ Hc); congruence|by eexists]).
  pose proof (oo_route _ _ _ Hc) as (? & Hr' & Hb). rewrite Er in Hr'. injection Hr' as <-.
  assert (Hupd : forall r', rt_didSolicit r' = rt_didSolicit r -> (rt_didSolicit r = true -> is_Some (rt_url r')) ->
    safe (upd k (fun c => with_route c (Some r'))) any).
  { intros r' Hs Hu. apply safe_upd. intros kd c' Hkd Hc'. assert (kd = KRoute b) as -> by congruence.
    apply ok_with_route; [done|by rewrite Hs|by rewrite Hs]. }
  pose proof (oo_url _ _ _ Hc r Er) as Hu. safe_step; [apply gets_any|]. safe_step.
  - apply (safe_bind _ _ any); [by apply Hupd|intros; safe_step].
  - apply (safe_bind _ _ any); [apply Hupd; [done|]; intros Hs; cbn; unfold route_url; destruct (Hu Hs) as [u ->]; by eexists|intros].
    destruct (route_url (ne_parse nenv) r info) as [u|]; [|safe_step].
    eapply safe_bind; [by eapply addRoute_safe|]. intros [added sendInfo] _. destruct added; [by apply route_added_safe|safe_step].
Qed.
Hint Resolve processRouteInfo_safe : safe.

Lemma processInfo_safe k arg : known k -> safe (processInfo growcap wr json_info nenv info_proto k arg) any.
Proof. intros Hk. unfold processInfo. repeat safe_step; done. Qed.

(** ** PING, PONG and the timers *)

Lemma processPing_safe k : known k -> safe (processPing wr k) any.
Proof.
  intros Hk. unfold processPing. safe_step. safe_step; [by apply safe_ret|]. repeat first [safe_step | apply gets_any]; done.
Qed.

Lemma processPong_safe k : safe (processPong k) any.
Proof. unfold processPong. plain_upd. Qed.

Lemma processPingTimer_safe k : known k -> safe (processPingTimer wr k) any.
Proof. intros Hk. unfold processPingTimer. repeat first [safe_step | apply gets_any]; done. Qed.

Lemma timer_expires_safe k : safe (timer_expires k) any.
Proof. unfold timer_expires. plain_upd. Qed.

(** ** PUB, SUB and UNSUB *)

Lemma processPub_safe k arg p : known k -> safe (processPub growcap wr k arg p) any.
Proof. intros Hk. unfold processPub. repeat safe_step; done. Qed.

Lemma cache_stats_ok kd c g a b n : obj_ok D kd c -> obj_ok D kd (with_cache c (ReadCache g (rc_results (c_cache c)) a b n)).
Proof. intros Hc. apply ok_with_cache; [done|]. apply Hc. Qed.
Hint Resolve cache_stats_ok : safe.

Lemma activity_safe k : safe (activity k) any.
Proof. unfold activity. plain_upd. Qed.
Hint Resolve activity_safe : safe.

Lemma new_sub_safe k subject queue sid : known k -> subject_ok subject = true -> safe (new_sub k subject queue sid) (good_sub D).
Proof.
  intros Hk Hs. unfold new_sub. safe_step; [apply gets_any|]. safe_step; [apply safe_modify; by intros s []|].
  apply safe_ret. split; [by exists k|done].
Qed.

Lemma sub_allowed_safe k subject : known k -> closed_literal subject = true -> safe (sub_allowed growcap choice k subject) any.
Proof.
  intros Hk Hcl. unfold sub_allowed. safe_step. destruct H as (kd & Hd & Hc). destruct (c_perms x) as [pm|] eqn:Ep; [|by apply safe_ret].
  destruct (oo_perms _ _ _ Hc pm Ep) as [H1 H2]. eapply safe_bind; [by apply perm_match_safe|]. intros [sl r] Hsl.
  safe_step; [|by apply safe_ret]. apply safe_upd. intros kd' c' _ Hc'. by apply ok_with_perms.
Qed.
Hint Resolve new_sub_safe sub_allowed_safe : safe.

Lemma add_sub_safe k sub : known k -> good_sub D sub -> safe (add_sub growcap wr k sub) any.
Proof.
  intros Hk Hg. unfold add_sub. safe_step. safe_step.
  - safe_step; [by apply safe_ret|]. safe_step.
    { apply safe_upd. intros kd c _ Hc. apply ok_with_subs; [done|]. apply map_Forall_insert_2; [done|apply Hc]. }
    safe_step. safe_step; [|by apply safe_ret]. safe_step; [|by apply safe_ret].
    apply safe_upd. intros kd c _ Hc. apply ok_with_subs; [done|]. apply map_Forall_delete, Hc.
  - repeat safe_step; done.
Qed.
Hint Resolve add_sub_safe : safe.

(** The subject of a SUB. *)
Definition sub_arg_ok (arg : bytes) : Prop :=
  match splitArg arg with
  | [subject; _] | [subject; _; _] => subject_ok subject = true /\ closed_literal subject = true
  | _ => True
  end.

Lemma processSub_safe k arg : known k -> sub_arg_ok arg -> safe (processSub growcap choice wr fmt_q k arg) any.
Proof.
  intros Hk Ha. unfold processSub, sub_arg_ok in *. safe_step.
  destruct (splitArg arg) as [|a1 [|a2 [|a3 [|? ?]]]]; first [by apply safe_ret | destruct Ha as [H1 H2];
    (eapply safe_bind; [by apply new_sub_safe|]; intros sub Hg; repeat safe_step; done)].
Qed.

Lemma unsubscribe_safe k sub : good_sub D sub -> safe (unsubscribe growcap k sub) any.
Proof.
  intros Hg. unfold unsubscribe. safe_step. destruct x as [nm max]. safe_step; [by apply safe_ret|]. safe_step.
  - apply safe_upd. intros kd c _ Hc. apply ok_with_subs; [done|]. apply map_Forall_delete, Hc.
  - repeat safe_step; done.
Qed.
Hint Resolve unsubscribe_safe : safe.

Lemma unsub_sid_safe k sid max : known k -> safe (unsub_sid growcap wr k sid max) any.
Proof.
  intros Hk. unfold unsub_sid. safe_step. safe_step. destruct H0 as (kd & Hd & Hc). safe_step; [|repeat safe_step; done].
  destruct (c_subs x0 !! sid) as [sub|] eqn:Es; [|by apply safe_ret]. pose proof (oo_subs _ _ _ Hc sid sub Es). repeat safe_step; done.
Qed.
Hint Resolve unsub_sid_safe : safe.

Lemma processUnsub_safe k arg : known k -> safe (processUnsub growcap wr k arg) any.
Proof. intros Hk. unfold processUnsub. repeat safe_step; done. Qed.

(** ** Delivery *)

Lemma write_msg_safe k mh msg : known k -> safe (write_msg wr k mh msg) any.
Proof. intros Hk. unfold write_msg. repeat safe_step; done. Qed.
Hint Resolve write_msg_safe : safe.

Lemma deliver_now_safe k to mh msg : known to -> safe (deliver_now growcap wr k to mh msg) any.
Proof. intros Hk. unfold deliver_now. repeat first [safe_step | apply safe_modify; by intros s []]; done. Qed.
Hint Resolve deliver_now_safe : safe.

Lemma deliverMsg_safe k sub mh msg : good_sub D sub -> safe (deliverMsg growcap wr k sub mh msg) any.
Proof.
  intros Hg. pose proof Hg as [(to & Hto & Hk) _]. unfold deliverMsg. rewrite Hto. fold (known to) in Hk. repeat safe_step; done.
Qed.
Hint Resolve deliverMsg_safe : safe.

Lemma pubViolation_safe k subject : known k -> safe (pubPermissionViolation wr fmt_q k subject) any.
Proof. intros Hk. unfold pubPermissionViolation. safe_step. Qed.
Hint Resolve pubViolation_safe : safe.

Lemma Prune_Forall {V} (P : V -> Prop) n : forall ks (m : gmap bytes V), map_Forall (fun _ => P) m -> map_Forall (fun _ => P) (Prune n ks m).
Proof. induction n as [|n IH]; intros [|k ks] m Hm; try done. by apply IH, map_Forall_delete. Qed.

Lemma prune_perms_safe k : known k -> safe (prune_perms choice k) any.
Proof.
  intros Hk. unfold prune_perms. safe_step. destruct (c_perms x); [|by apply safe_ret]. safe_step; [|by apply safe_ret]. safe_step.
  apply safe_upd. intros kd c _ Hc. apply ok_with_cache; [done|]. cbn. destruct (rc_results (c_cache c)) as [m|] eqn:Em; [|done].
  intros ? [= <-]. by apply Prune_Forall, (oo_cache _ _ _ Hc).
Qed.
Hint Resolve prune_perms_safe : safe.

Lemma pub_check_safe k subject : known k -> closed_literal subject = true -> safe (pub_check growcap choice wr fmt_q k subject) any.
Proof.
  intros Hk Hcl. unfold pub_check, pub_allowed. safe_step; [repeat safe_step; done|]. safe_step. destruct H as (kd & Hd & Hc).
  destruct (c_perms x) as [pm|] eqn:Ep; [|by apply safe_ret]. destruct (oo_perms _ _ _ Hc pm Ep) as [H1 H2].
  destruct (perm_pcache pm !! subject) as [b|]; [destruct b; repeat safe_step; done|].
  eapply safe_bind; [by apply perm_match_safe|]. intros [sl r] Hsl. safe_step; [repeat safe_step; done|]. safe_step; [|repeat safe_step; done].
  apply safe_upd. intros kd' c' _ Hc'. by apply ok_with_perms.
Qed.

Lemma cached_match_safe k subject : known k -> closed_literal subject = true -> safe (cached_match growcap choice k subject) (good_result D).
Proof.
  intros Hk Hcl. unfold cached_match. safe_step. destruct H as (kd & Hd & Hc). safe_step; [apply gets_any|]. cbv zeta.
  set (hit := if decide _ then _ else _). assert (Hhit : forall m, hit = Some m -> map_Forall (fun _ => good_result D) m).
  { intros m. unfold hit. case_decide; [apply Hc|done]. }
  destruct (hit ≫= (.!! subject)) as [r|] eqn:Eh.
  { apply safe_ret. destruct hit as [m|]; [|done]. by apply (Hhit m eq_refl subject). }
  eapply safe_bind; [by apply sl_match_safe|]. intros r Hr. safe_step. safe_step; [|by apply safe_ret].
  apply safe_upd. intros kd' c' _ Hc'. apply ok_with_cache; [done|]. cbn. intros ? [= <-].
  assert (Hins : map_Forall (fun _ => good_result D) (<[subject := r]> (default ∅ hit))).
  { apply map_Forall_insert_2; [done|]. destruct hit as [m|]; [by apply Hhit|apply map_Forall_empty]. }
  case_decide; [by apply (Prune_Forall _ (S pruneSize))|done].
Qed.
Hint Resolve pub_check_safe cached_match_safe : safe.

Lemma deliver_psubs_safe k isRoute p h msg subs : Forall (good_sub D) subs -> forall rmap,
  safe (deliver_psubs growcap wr k isRoute p h msg rmap subs) any.
Proof.
  induction 1 as [|sub subs Hg _ IH]; intros rmap; cbn; [by apply safe_ret|]. pose proof Hg as [(to & Hto & Hk) _]. fold (known to) in Hk.
  eapply safe_bind; [by apply (safe_lift _ to (eq to))|]. intros ? <-. repeat first [apply IH | safe_step].
Qed.

Lemma heap_safe : safe (gets (fun s => sl_heap (sv_sl s))) (heap_all (good_sub D)).
Proof. eapply safe_weaken; [apply safe_gets|]. intros h (s & Hs & ->). apply Hs. Qed.

Lemma deliver_qsubs_safe k p h msg qs : Forall (fun g => 0 < s_len g) qs -> safe (deliver_qsubs growcap choice wr k p h msg qs) any.
Proof.
  induction 1 as [|g qs Hg _ IH]; cbn; [by apply safe_ret|]. safe_step. eapply safe_bind; [apply heap_safe|]. intros hp Hhp.
  rewrite decide_False by lia. safe_step; [|done]. destruct (mjoin (elems hp g !! _)) as [sub|] eqn:E; [|by apply safe_ret].
  assert (good_sub D sub); [|safe_step]. destruct (elems hp g !! _) as [[y|]|] eqn:E'; cbn in E; simplify_eq.
  eapply elems_cells; [exact Hhp|]. by eapply list_elem_of_lookup_2.
Qed.

Lemma queue_sub_good s rsid sub : ok D s -> routeSidQueueSubscriber s rsid = Some (Some sub) -> good_sub D sub.
Proof.
  intros Hs. unfold routeSidQueueSubscriber. case_decide; [|done]. destruct (find_qrsid rsid) as [[d sid]|]; [|done]. case_decide; [|done].
  destruct (sv_objs s !! _) as [c|] eqn:Hc; [|done]. intros [= E].
  assert (Hd : Z.to_N (wrapu64 (parseInt64 d)) ∈ dom D) by (rewrite <- (ok_dom _ _ Hs); by apply elem_of_dom).
  apply elem_of_dom in Hd as [kd Hd]. by apply (oo_subs _ _ _ (ok_objs _ _ Hs _ _ _ Hc Hd) sid).
Qed.

Lemma fan_out_safe k p msg r : known k -> good_result D r -> safe (fan_out growcap choice wr k p msg r) any.
Proof.
  intros Hk [Hp Hq]. unfold fan_out. safe_step. safe_step; [by apply safe_ret|]. safe_step; [by apply safe_ret|].
  eapply safe_bind; [apply safe_gets|]. intros s (s0 & Hs & ->).
  destruct (if bool_decide (c_typ x = ROUTER) then _ else _) as [[sub|]|] eqn:E; [|by apply safe_ret|].
  - assert (good_sub D sub); [|safe_step]. destruct (bool_decide _); [|done]. by eapply queue_sub_good.
  - eapply safe_bind; [by apply deliver_psubs_safe|]. intros. apply safe_when. by apply deliver_qsubs_safe.
Qed.

Lemma processMsg_safe k p msg : known k -> closed_literal (pa_subject p) = true -> safe (processMsg growcap choice wr fmt_q k p msg) any.
Proof.
  intros Hk Hcl. unfold processMsg. safe_step; [plain_upd|]. destruct (decide (pa_subject p = [])) as [E|_]; [by rewrite E in Hcl; vm_compute in Hcl|].
  safe_step. destruct x0; cbn [negb]; [|by apply safe_ret]. safe_step. safe_step; [repeat safe_step; done|].
  eapply safe_bind; [by apply cached_match_safe|]. intros r Hr. by apply fan_out_safe.
Qed.

(** ** Connections *)

Lemma finish_safe maxTls k isInternal b : known k -> safe (createClient_finish growcap wr maxTls k isInternal b) any.
Proof. intros Hk. unfold createClient_finish. repeat safe_step; done. Qed.

Lemma register_safe maxConn k : known k -> safe (createClient_register growcap wr maxConn k) any.
Proof.
  intros Hk. unfold createClient_register. safe_step; [apply gets_any|]. safe_step; [by apply safe_ret|]. safe_step; [apply gets_any|].
  safe_step; [repeat safe_step; done|]. safe_step; [|by apply safe_ret]. apply safe_modify. intros s Hs. pose proof Hs as [_ _ H3 _ H5 H6 _ _].
  apply set_maps_ok; [done| |done..]. apply elem_of_dom in Hk. set_solver.
Qed.

Lemma sendConnect_safe k tls : D !! k = Some (KRoute true) -> safe (sendConnect growcap wr connect_json k tls) any.
Proof.
  intros Hk. unfold sendConnect. eapply safe_bind; [by apply safe_obj|]. intros c Hc. pose proof (oo_route _ _ _ Hc) as (r & Hr & Hs).
  destruct (oo_url _ _ _ Hc r Hr (Hs eq_refl)) as [u Hu].
  eapply safe_bind; [by apply (safe_lift _ r (eq r))|]. intros ? <-. eapply safe_bind; [by apply (safe_lift _ u any)|]. intros u' _.
  assert (known k) by (by eapply route_known). repeat first [safe_step | apply gets_any]; done.
Qed.

Lemma route_finish_safe k rURL b : D !! k = Some (KRoute (bool_decide (is_Some rURL))) ->
  safe (createRoute_finish growcap wr connect_json info_proto k rURL b) any.
Proof.
  intros Hd. assert (Hk : known k) by (by eapply route_known). unfold createRoute_finish. safe_step; [apply gets_any|].
  safe_step; [repeat safe_step; done|]. safe_step. safe_step; [by apply safe_ret|].
  safe_step. { apply safe_modify. intros s Hs. pose proof Hs as [_ _ _ H4 _ _ _ _]. apply elem_of_dom in Hk. destruct Hs. split; cbn; try done. set_solver. }
  safe_step. { destruct (bool_decide (is_Some rURL)); [by apply sendConnect_safe|by apply safe_ret]. }
  repeat safe_step; done.
Qed.

Lemma shutdown_safe : safe (Shutdown growcap wr) any.
Proof.
  unfold Shutdown. safe_step; [apply gets_any|]. safe_step; [by apply safe_ret|]. safe_step; [apply safe_modify; by intros s []|].
  eapply safe_bind; [apply safe_gets|]. intros cl (s1 & H1 & ->). eapply safe_bind; [apply safe_gets|]. intros tmp (s2 & H2 & ->).
  eapply safe_bind; [apply routes_safe|]. intros rs Hrs.
  apply safe_forM. intros k Hin. assert (known k); [|safe_step].
  rewrite elem_of_elements, !elem_of_union in Hin. destruct Hin as [[Hin|Hin]|Hin].
  - by apply (ok_clients _ _ H1), elem_of_dom in Hin.
  - by apply (ok_tmp _ _ H2), elem_of_dom in Hin.
  - destruct (Hrs k Hin) as [b Hb]. by eapply route_known.
Qed.
End safety.

(** ** New connections *)

Lemma good_sub_mono D D' sub : D ⊆ D' -> good_sub D sub -> good_sub D' sub.
Proof. intros Hs [(k & Hk & [kd Hd]) Hok]. split; [|done]. exists k. split; [done|]. exists kd. by eapply lookup_weaken. Qed.

Lemma obj_ok_mono D D' kd c : D ⊆ D' -> obj_ok D kd c -> obj_ok D' kd c.
Proof.
  intros Hs [H1 H2 H3 H4 H5]. split; try done.
  - intros sid sub Hsub. by eapply good_sub_mono, (H1 sid).
  - intros m Hm sj r Hr. destruct (H3 m Hm sj r Hr) as [Hp Hq]. split; [|done]. eapply Forall_impl; [exact Hp|]. intros. by eapply good_sub_mono.
Qed.

Lemma ok_new D s k kd c : ok D s -> D !! k = None -> obj_ok (<[k := kd]> D) kd c ->
  ok (<[k := kd]> D) (set_objs s (<[k := c]> (sv_objs s))).
Proof.
  intros Hs Hf Hc. assert (Hsub : D ⊆ <[k := kd]> D) by (by apply insert_subseteq).
  assert (Hr : forall k', (exists b, D !! k' = Some (KRoute b)) -> exists b, <[k := kd]> D !! k' = Some (KRoute b)).
  { intros k' [b Hb]. exists b. by eapply lookup_weaken. }
  destruct Hs as [H1 H2 H3 H4 H5 H6 (live & H7 & H8) H9]. split; cbn.
  - by rewrite !dom_insert_L, H1.
  - intros k' c' kd' [[<- <-]|[Hne Hc']]%lookup_insert_Some; [rewrite lookup_insert_eq; by intros [= <-]|].
    rewrite lookup_insert_ne by done. intros Hd. eapply obj_ok_mono; [done|]. by eapply H2.
  - rewrite dom_insert_L. set_solver.
  - rewrite dom_insert_L. set_solver.
  - intros k' Hk'. by apply Hr, H5.
  - intros id k' Hk'. by eapply Hr, H6.
  - exists live. split; [done|]. eapply Forall_impl; [exact H8|]. intros. by eapply good_sub_mono.
  - intros a l Hl x Hx. eapply good_sub_mono; [done|]. by eapply H9.
Qed.

(** ** The whole server *)

Section server.
Context (growcap : nat -> nat -> nat) (choice : nat -> nat)
        (wr : N -> list bytes -> bytes -> write_result)
        (json_opts : bytes -> clientOpts -> clientOpts * option bytes)
        (json_info : bytes -> Info + bytes) (nenv : netEnv) (info_proto : Info -> bytes) (connect_json : connectInfo -> option bytes)
        (fmt_q : bytes -> bytes)
        (cAuth rAuth : option (clientOpts -> option (option User)))
        (maxConn : Z) (authRequired tlsRequired : bool) (maxPayload : Z).
Abbreviation do_action := (do_action growcap choice wr json_opts json_info nenv info_proto connect_json fmt_q cAuth rAuth
  maxConn authRequired tlsRequired maxPayload).

(** The subjects of SUB, and of the messages that are processed, end in a token;
    those of SUB have their wildcards in tokens of their own. *)
Definition command_ok (cmd : command) : Prop :=
  match cmd with
  | CMsg p _ => closed_literal (pa_subject p) = true
  | CSub arg => sub_arg_ok arg
  | _ => True
  end.

(** A connection is made once, and an action on it comes later; the second half
    of [createRoute] gets the URL of the first. *)
Definition action_ok (D : gmap N kind) (a : action) : Prop :=
  match a with
  | ABegin cid _ | ARouteBegin cid _ => D !! cid = None
  | ARouteFinish cid rURL _ => D !! cid = Some (KRoute (bool_decide (is_Some rURL)))
  | ACommand cid cmd => is_Some (D !! cid) /\ command_ok cmd
  | ARegister cid | AFinish cid _ _ | AClose cid | AAuthTimer cid | AAuthTimeout cid | APingTimer cid => is_Some (D !! cid)
  | AShutdown => True
  end.

Definition kinds_after (D : gmap N kind) (a : action) : gmap N kind :=
  match a with
  | ABegin cid _ => <[cid := KClient]> D
  | ARouteBegin cid rURL => <[cid := KRoute (bool_decide (is_Some rURL))]> D
  | _ => D
  end.

Fixpoint script_ok (D : gmap N kind) (acts : list action) : Prop :=
  match acts with
  | [] => True
  | a :: acts => action_ok D a /\ script_ok (kinds_after D a) acts
  end.

Lemma command_safe D k cmd : auth_ok cAuth -> auth_ok rAuth -> is_Some (D !! k) -> command_ok cmd ->
  safe D (run_command growcap choice wr json_opts json_info nenv info_proto fmt_q cAuth rAuth k cmd) (fun _ => True).
Proof.
  assert (Hig : forall A (m : M A), safe D m (fun _ => True) -> safe D (m;; mret tt) (fun _ => True)).
  { intros A m Hm. eapply safe_bind; [exact Hm|]. intros. by apply safe_ret. }
  intros Ha Hb Hk Hc. destruct cmd; cbn [run_command].
  - by apply Hig, processPub_safe.
  - by apply processMsg_safe.
  - by apply Hig, processSub_safe.
  - by apply Hig, processUnsub_safe.
  - by apply Hig, processConnect_safe.
  - by apply Hig, processInfo_safe.
  - by apply processPing_safe.
  - apply processPong_safe.
  - by apply processErr_safe.
  - by apply authViolation_safe.
  - by apply sendErr_safe.
Qed.

Lemma action_safe D a s : auth_ok cAuth -> auth_ok rAuth -> ok D s -> action_ok D a ->
  exists s', do_action a s = Some (s', tt) /\ ok (kinds_after D a) s'.
Proof.
  intros Ha Hb Hs Hact.
  assert (Hrun : forall D s (m : M unit), safe D m (fun _ => True) -> ok D s -> exists s', m s = Some (s', tt) /\ ok D s').
  { intros D0 s0 m Hm H0. destruct (Hm s0 H0) as (s' & [] & E & H1 & _). by exists s'. }
  assert (Hig : forall D A (m : M A), safe D m (fun _ => True) -> safe D (m;; mret tt) (fun _ => True)).
  { intros D0 A m Hm. eapply safe_bind; [exact Hm|]. intros. by apply safe_ret. }
  destruct a as [cid i|cid|cid i b|cid u|cid u b|cid cmd|cid|cid|cid|cid|]; cbn [Lifecycle.do_action action_ok kinds_after] in *.
  - unfold createClient_begin. unfold modify. erewrite run_bind by reflexivity. apply Hrun.
    + eapply safe_bind; [apply gets_any|]. intros info _. apply Hig, sendProto_safe. exists KClient. apply lookup_insert_eq.
    + apply ok_new; [done|done|]. by split.
  - by apply Hrun; [apply Hig, register_safe|].
  - by apply Hrun; [apply Hig, finish_safe|].
  - eexists. split; [reflexivity|]. apply ok_new; [done|done|]. split; cbn; try done; [by eexists|].
    intros r [= <-]. cbn. by rewrite bool_decide_eq_true.
  - by apply Hrun; [apply Hig, route_finish_safe|].
  - destruct Hact. by apply Hrun; [apply command_safe|].
  - by apply Hrun; [apply closeConnection_safe|].
  - apply Hrun; [apply timer_expires_safe|done].
  - by apply Hrun; [apply authTimeout_safe|].
  - by apply Hrun; [apply processPingTimer_safe|].
  - apply Hrun; [apply shutdown_safe|done].
Qed.

Lemma script_safe acts : auth_ok cAuth -> auth_ok rAuth -> forall D s, ok D s -> script_ok D acts ->
  exists s', forM acts do_action s = Some (s', tt).
Proof.
  intros Ha Hb. induction acts as [|a acts IH]; intros D s Hs Hok; [by exists s|]. destruct Hok as [H1 H2].
  destruct (action_safe D a s Ha Hb Hs H1) as (s1 & E1 & Hs1). destruct (IH _ s1 Hs1 H2) as (s2 & E2).
  exists s2. cbn [forM]. by erewrite run_bind by exact E1.
Qed.

(** A server that was just started. *)
Definition just_started (s : server) : Prop :=
  sv_objs s = ∅ /\ sv_clients s = ∅ /\ sv_routes s = ∅ /\ sv_remotes s = ∅ /\ rg_grTmpClients (sv_rg s) = ∅ /\ sv_sl s = NewSublist.

Lemma just_started_ok s : just_started s -> ok ∅ s.
Proof.
  intros (E1 & E2 & E3 & E4 & E5 & E6). split; rewrite ?E1, ?E2, ?E3, ?E4, ?E5, ?E6; try done.
  exists []. split; [apply contract_new|constructor].
Qed.

End server.

(** ** An example *)

(** A server that was just started, without users, and what runs on it: a
    client subscribes in a queue group, another server joins the group and a
    message is published; then the timers expire, the client goes and the
    server is shut down. *)
Definition ex_started : server :=
  Server (bs "A") true 1024 2 ∅ ∅ ∅ ∅ NewSublist ∅ 1 0 0 0 0 [] 0 no_routing.

Definition ex_script : list action :=
  [ABegin 1 false; ARegister 1; AFinish 1 false true; ACommand 1 (CConnect []); ACommand 1 (CSub (bs "foo.* q 1"));
   ARouteBegin 2 None; ARouteFinish 2 None true; ACommand 2 (CSub (bs "*.bar q QRSID:7:1"));
   ACommand 1 (CMsg (PubArg (bs "foo.bar") None None (bs "2") 2) (bs "ok" ++ crlf));
   ACommand 1 (CUnsub (bs "1 5")); APingTimer 2; AAuthTimer 1; AAuthTimeout 1; AShutdown].

Definition ex_do_action : action -> M unit :=
  do_action go_growcap id (fun _ _ _ => WOk) (fun _ opts => (opts, None)) (fun _ => inr []) no_net (fun _ => []) (fun _ => None) id None None
    0 false false 65536.


(** The hypothesis on subjects is needed: a client whose message has a subject
    with an empty last token makes the server panic with the subscriptions that
    follow. *)
Example open_subject_panics :
  forM [ABegin 1 false; ARegister 1; ACommand 1 (CSub (bs "foo.* q 1"));
        ACommand 1 (CMsg (PubArg (bs "foo.") None None (bs "2") 2) (bs "ok" ++ crlf));
        ACommand 1 (CUnsub (bs "1")); ACommand 1 (CSub (bs "> q 2"))] ex_do_action ex_started = None.
Proof. by vm_compute. Qed.
