(* ===== verification/RingBuf.v ===== *)
(** * RingBuf: the two ring buffers

    [ringBuf] of [src/health/rbuf.go], which keeps the history of leaders, and
    [EventRingBuf] of [src/swp/overing.go], which counts events in a window of
    time.  They have the same layout, and the operations that both have are
    the same code; sizes are naturals, and a [None] is a panic.  Every
    operation refines one on the queue of its contents. *)

From S2P Require Import Prelude.

Record ring (T : Type) := MkRing { rb_A : list T; rb_N : nat; rb_Beg : nat; rb_Readable : nat }.
Arguments MkRing {T} _ _ _ _.
Arguments rb_A {T} _.
Arguments rb_N {T} _.
Arguments rb_Beg {T} _.
Arguments rb_Readable {T} _.

(** [io.ErrShortWrite] and [io.EOF]. *)
Inductive ring_error := ErrShortWrite | EOF.

Section ring.
Context {T : Type}.
Implicit Types (b : ring T) (x : T) (p : list T).

(** Go's [%]: it panics on 0. *)
Definition go_mod (i n : nat) : option nat := if decide (n = 0) then None else Some (i mod n).

(** [A[i] = x]. *)
Definition store (i : nat) x (A : list T) : option (list T) :=
  if decide (i < length A) then Some (<[i := x]> A) else None.

(** ** Operations of both *)

(** [newRingBuf] and [NewEventRingBuf]; [zero] is the zero value. *)
Definition newRingBuf (zero : T) (n : nat) : ring T := MkRing (replicate n zero) n 0 0.

Definition Reset b : ring T := MkRing (rb_A b) (rb_N b) 0 0.

Definition Advance (n : Z) b : option (ring T) :=
  if (n <=? 0)%Z then Some b
  else
    let n := if decide (Z.of_nat (rb_Readable b) < n)%Z then rb_Readable b else Z.to_nat n in
    beg ← go_mod (rb_Beg b + n) (rb_N b);
    Some (MkRing (rb_A b) (rb_N b) beg (rb_Readable b - n)).

(** ** [ringBuf] *)

Definition clone b : ring T := MkRing (foldl (fun A x => A ++ [x]) [] (rb_A b)) (rb_N b) (rb_Beg b) (rb_Readable b).

Definition Avail b : nat := rb_Readable b.

Definition First b : Z := if decide (rb_Readable b = 0) then -1 else Z.of_nat (rb_Beg b).

Definition Last b : option Z :=
  if decide (rb_Readable b = 0) then Some (-1)%Z
  else
    let last := rb_Beg b + rb_Readable b - 1 in
    if decide (last < rb_N b) then Some (Z.of_nat last) else Z.of_nat <$> go_mod last (rb_N b).

Definition Kth (k : Z) b : option Z :=
  if bool_decide (rb_Readable b = 0) || (k <? 0)%Z || (Z.of_nat (rb_Readable b) <=? k)%Z then Some (-1)%Z
  else Z.of_nat <$> go_mod (rb_Beg b + Z.to_nat k) (rb_N b).

Definition Append x b : option (ring T * option ring_error) :=
  if decide (rb_N b - rb_Readable b = 0) then Some (b, Some ErrShortWrite)
  else
    writeStart ← go_mod (rb_Beg b + rb_Readable b) (rb_N b);
    A ← store writeStart x (rb_A b);
    Some (MkRing A (rb_N b) (rb_Beg b) (rb_Readable b + 1), None).

(** ** [EventRingBuf] *)

(** [A[i:j]]. *)
Definition sub (i j : nat) (A : list T) : list T := take (j - i) (drop i A).

(** [copy(A[i:j], p)]: the array and the number of elements. *)
Definition copy_at (i j : nat) p (A : list T) : list T * nat :=
  let k := min (j - i) (length p) in
  (list_inserts i (take k p) A, k).

Definition TwoContig b : option (list T * list T) :=
  let extent := rb_Beg b + rb_Readable b in
  if decide (extent <= rb_N b) then Some (sub (rb_Beg b) extent (rb_A b), [])
  else
    e ← go_mod extent (rb_N b);
    Some (sub (rb_Beg b) (rb_N b) (rb_A b), sub 0 e (rb_A b)).

(** [readAndMaybeAdvance] into a slice of [lenp] elements: what it copies. *)
Definition readAndMaybeAdvance (lenp : nat) (doAdvance : bool) b : option (ring T * list T * option ring_error) :=
  if decide (lenp = 0) then Some (b, [], None)
  else if decide (rb_Readable b = 0) then Some (b, [], Some EOF)
  else
    let extent := rb_Beg b + rb_Readable b in
    got ← (if decide (extent <= rb_N b) then Some (take lenp (sub (rb_Beg b) extent (rb_A b)))
           else
             let one := take lenp (sub (rb_Beg b) (rb_N b) (rb_A b)) in
             if decide (length one < lenp) then
               e ← go_mod extent (rb_N b);
               Some (one ++ take (lenp - length one) (sub 0 e (rb_A b)))
             else Some one);
    b ← (if doAdvance then Advance (Z.of_nat (length got)) b else Some b);
    Some (b, got, None).

Definition ReadPtrs lenp := readAndMaybeAdvance lenp true.
Definition ReadWithoutAdvance lenp := readAndMaybeAdvance lenp false.

(** The loop of [WritePtrs]; [n] elements are written. *)
Fixpoint WritePtrs_loop (fuel : nat) p (n : nat) (err : option ring_error) b : option (ring T * nat * option ring_error) :=
  match fuel with
  | O => None
  | S fuel' =>
      if decide (p = []) then Some (b, n, err)
      else
        let writeCapacity := rb_N b - rb_Readable b in
        if decide (writeCapacity = 0) then Some (b, n, Some ErrShortWrite)
        else
          let err := if decide (writeCapacity < length p) then Some ErrShortWrite else err in
          writeStart ← go_mod (rb_Beg b + rb_Readable b) (rb_N b);
          let upperLim := min (writeStart + writeCapacity) (rb_N b) in
          let '(A, k) := copy_at writeStart upperLim p (rb_A b) in
          WritePtrs_loop fuel' (drop k p) (n + k) err (MkRing A (rb_N b) (rb_Beg b) (rb_Readable b + k))
  end.

(** Two rounds fill the ring, and the next one returns. *)
Definition WritePtrs p b : option (ring T * nat * option ring_error) := WritePtrs_loop 3 p 0 None b.

(** [Adopt]. *)
Definition Adopt p b : ring T :=
  let n := length p in
  if decide (rb_N b < n) then MkRing p n 0 n
  else MkRing (copy_at 0 (length (rb_A b)) p (rb_A b)).1 (rb_N b) 0 n.
End ring.

(** [AddEventCheckOverflow], on times. *)
Definition AddEventCheckOverflow (Window e : Z) (b : ring Z) : option (ring Z * bool) :=
  youngest ← go_mod (rb_Beg b + rb_Readable b) (rb_N b);
  let space := rb_N b - rb_Readable b in
  A ← store youngest e (rb_A b);
  '(beg, readable) ← (if decide (space = 0) then beg ← go_mod (rb_Beg b + 1) (rb_N b); Some (beg, rb_Readable b)
                      else Some (rb_Beg b, rb_Readable b + 1));
  let b := MkRing A (rb_N b) beg readable in
  if decide (0 < rb_N b - rb_Readable b) then Some (b, false)
  else
    new ← A !! youngest;
    old ← A !! beg;
    Some (b, bool_decide (new - old <= Window)%Z).

(** ** The contents *)

Section spec.
Context {T : Type}.
Implicit Types (b : ring T) (x : T) (p : list T).

Record ring_ok b : Prop := {
  rk_len : length (rb_A b) = rb_N b;
  rk_beg : rb_Beg b < rb_N b \/ rb_Beg b = 0;
  rk_readable : rb_Readable b <= rb_N b;
}.

(** The queue, oldest first. *)
Definition contents b : list T := take (rb_Readable b) (rotate (rb_Beg b) (rb_A b)).

Lemma mod_wrap i n : i < n + n -> i mod n = if decide (i < n) then i else i - n.
Proof.
  intros H. case_decide; [by apply Nat.mod_small|].
  symmetry. apply (Nat.mod_unique _ _ 1); lia.
Qed.

Lemma go_mod_wrap i n : i < n + n -> go_mod i n = Some (if decide (i < n) then i else i - n).
Proof. intros H. unfold go_mod. rewrite decide_False by lia. by rewrite mod_wrap. Qed.

Lemma length_contents b : ring_ok b -> length (contents b) = rb_Readable b.
Proof. intros [H1 H2 H3]. unfold contents. rewrite length_take, length_rotate. lia. Qed.

(** The place of the [k]-th element. *)
Definition place b (k : nat) : nat := if decide (rb_Beg b + k < rb_N b) then rb_Beg b + k else rb_Beg b + k - rb_N b.

Lemma lookup_contents b k : ring_ok b -> k < rb_Readable b -> contents b !! k = rb_A b !! place b k.
Proof.
  intros [H1 H2 H3] Hk. unfold contents. rewrite lookup_take_lt by done. rewrite lookup_rotate_r by lia. f_equal.
  unfold place. rewrite H1. apply rotate_nat_add_alt; lia.
Qed.

Lemma contents_eq b l : ring_ok b -> length l = rb_Readable b ->
  (forall k, k < rb_Readable b -> rb_A b !! place b k = l !! k) -> contents b = l.
Proof.
  intros Hb Hl H. apply list_eq. intros k. destruct (decide (k < rb_Readable b)).
  - rewrite lookup_contents by done. by apply H.
  - rewrite !lookup_ge_None_2; [done|lia|rewrite length_contents by done; lia].
Qed.
End spec.

(** ** Each operation on the contents *)

Section ops.
Context {T : Type}.
Implicit Types (b : ring T) (x : T) (p : list T).

(** Arithmetic on places. *)
#[local] Ltac places := unfold place in *; cbn in *; repeat case_decide; try lia.

Lemma newRingBuf_ok (zero : T) n : ring_ok (newRingBuf zero n) /\ contents (newRingBuf zero n) = [].
Proof. split; [|done]. split; cbn; [by rewrite length_replicate|by right|lia]. Qed.

Lemma Reset_ok b : ring_ok b -> ring_ok (Reset b) /\ contents (Reset b) = [].
Proof. intros [H1 H2 H3]. split; [|done]. split; cbn; [done|by right|lia]. Qed.

Lemma clone_eq b : clone b = b.
Proof.
  destruct b as [A n beg r]. unfold clone. cbn. f_equal.
  assert (forall l (acc : list T), foldl (fun A x => A ++ [x]) acc l = acc ++ l) as H.
  { induction l as [|x l IH]; intros acc; cbn; [by rewrite app_nil_r|]. by rewrite IH, <- app_assoc. }
  apply H.
Qed.

Lemma Advance_ok (n : Z) b : 0 < rb_N b -> ring_ok b -> exists b', Advance n b = Some b' /\ ring_ok b' /\ rb_N b' = rb_N b /\
  contents b' = drop (Z.to_nat n) (contents b).
Proof.
  intros HN Hb. pose proof Hb as [H1 H2 H3]. unfold Advance. destruct (Z.leb_spec n 0) as [Hn|Hn].
  { exists b. replace (Z.to_nat n) with 0 by lia. done. }
  set (m := if decide _ then _ else _). assert (m = min (Z.to_nat n) (rb_Readable b)) as Hm by (subst m; case_decide; lia).
  clearbody m. rewrite go_mod_wrap by lia. cbn. eexists. split; [done|].
  assert (ring_ok (MkRing (rb_A b) (rb_N b) (if decide (rb_Beg b + m < rb_N b) then rb_Beg b + m else rb_Beg b + m - rb_N b) (rb_Readable b - m))) as Hok.
  { split; cbn; [done|case_decide; lia|lia]. }
  split_and!; [done..|]. apply contents_eq; [done|rewrite length_drop, length_contents by done; cbn; lia|].
  cbn. intros k Hk. rewrite lookup_drop, lookup_contents by (done || lia). f_equal. places.
Qed.

Lemma Append_ok x b : ring_ok b -> rb_Readable b < rb_N b -> exists b', Append x b = Some (b', None) /\ ring_ok b' /\
  rb_N b' = rb_N b /\ contents b' = contents b ++ [x].
Proof.
  intros Hb Hroom. pose proof Hb as [H1 H2 H3]. unfold Append. rewrite decide_False by lia. rewrite go_mod_wrap by lia. cbn.
  set (w := if decide _ then _ else _). assert (w = place b (rb_Readable b)) as Hw by done. clearbody w.
  assert (w < rb_N b) as Hwn by (subst w; places). unfold store. rewrite decide_True by lia. cbn. eexists. split; [done|].
  assert (ring_ok (MkRing (<[w:=x]> (rb_A b)) (rb_N b) (rb_Beg b) (rb_Readable b + 1))) as Hok.
  { split; cbn; [by rewrite length_insert|done|lia]. }
  split_and!; [done..|]. apply contents_eq; [done|rewrite length_app, length_contents by done; done|].
  cbn. intros k Hk. destruct (decide (k = rb_Readable b)) as [->|Hne].
  - change (place (MkRing _ _ _ _)) with (place b). rewrite <- Hw, list_lookup_insert_eq by lia.
    by rewrite lookup_app_r, length_contents, Nat.sub_diag by (done || rewrite length_contents; done || lia).
  - rewrite lookup_app_l by (rewrite length_contents by done; lia). rewrite lookup_contents by (done || lia).
    rewrite list_lookup_insert_ne; [done|]. subst w. places.
Qed.

Lemma Append_full x b : ring_ok b -> rb_Readable b = rb_N b -> Append x b = Some (b, Some ErrShortWrite).
Proof. intros _ H. unfold Append. by rewrite decide_True by lia. Qed.

Lemma Kth_ok (k : Z) b : ring_ok b ->
  Kth k b = Some (if decide (0 <= k < Z.of_nat (rb_Readable b))%Z then Z.of_nat (place b (Z.to_nat k)) else -1)%Z.
Proof.
  intros [H1 H2 H3]. unfold Kth. destruct (bool_decide_reflect (rb_Readable b = 0)), (Z.ltb_spec k 0), (Z.leb_spec (Z.of_nat (rb_Readable b)) k);
    cbn; case_decide; try done; try lia. by rewrite go_mod_wrap by lia.
Qed.

Lemma Last_ok b : ring_ok b -> Last b = Kth (Z.of_nat (rb_Readable b) - 1) b.
Proof.
  intros Hb. pose proof Hb as [H1 H2 H3]. rewrite Kth_ok by done. unfold Last. case_decide as H0; [by rewrite decide_False by lia|].
  rewrite (decide_True (P := _ /\ _)) by lia. rewrite go_mod_wrap by lia. cbn. unfold place. repeat case_decide; try lia; f_equal; lia.
Qed.

Lemma First_ok b : ring_ok b -> Some (First b) = Kth 0 b.
Proof.
  intros Hb. pose proof Hb as [H1 H2 H3]. rewrite Kth_ok by done. unfold First. case_decide as H0; [by rewrite decide_False by lia|].
  rewrite decide_True by lia. f_equal. places.
Qed.
End ops.

Section events.
Context {T : Type}.
Implicit Types (b : ring T) (x : T) (p : list T).

#[local] Ltac places := unfold place in *; cbn in *; repeat case_decide; try lia.

(** The two runs of the array that hold the queue. *)
Lemma contents_split b : ring_ok b ->
  contents b = if decide (rb_Beg b + rb_Readable b <= rb_N b) then sub (rb_Beg b) (rb_Beg b + rb_Readable b) (rb_A b)
               else sub (rb_Beg b) (rb_N b) (rb_A b) ++ sub 0 (rb_Beg b + rb_Readable b - rb_N b) (rb_A b).
Proof.
  intros Hb. pose proof Hb as [H1 H2 H3]. unfold sub. case_decide as H; apply contents_eq; try done.
  - rewrite length_take, length_drop. lia.
  - intros k Hk. rewrite lookup_take_lt, lookup_drop by lia. f_equal. places.
  - rewrite length_app, !length_take, !length_drop. lia.
  - intros k Hk. destruct (decide (rb_Beg b + k < rb_N b)).
    + rewrite lookup_app_l by (rewrite length_take, length_drop; lia). rewrite lookup_take_lt, lookup_drop by lia. f_equal. places.
    + rewrite lookup_app_r by (rewrite length_take, length_drop; lia). rewrite length_take, length_drop.
      rewrite lookup_take_lt, lookup_drop by lia. f_equal. places.
Qed.

Lemma TwoContig_ok b : ring_ok b -> exists one two, TwoContig b = Some (one, two) /\ one ++ two = contents b.
Proof.
  intros Hb. pose proof Hb as [H1 H2 H3]. rewrite contents_split by done. unfold TwoContig. case_decide as H.
  - eexists _, []. split; [done|]. by rewrite app_nil_r.
  - rewrite go_mod_wrap by lia. cbn. rewrite decide_False by lia. by eexists _, _.
Qed.

Lemma ring_read_ok lenp adv b : ring_ok b -> 0 < rb_N b -> exists b' err,
  readAndMaybeAdvance lenp adv b = Some (b', take lenp (contents b), err) /\ ring_ok b' /\ rb_N b' = rb_N b /\
  contents b' = (if adv then drop lenp (contents b) else contents b) /\
  err = (if decide (0 < lenp /\ contents b = []) then Some EOF else None).
Proof.
  intros Hb HN. pose proof Hb as [H1 H2 H3]. unfold readAndMaybeAdvance. case_decide as Hl.
  { subst lenp. exists b, None. rewrite decide_False by lia. split_and!; try done. by destruct adv. }
  assert (contents b = [] <-> rb_Readable b = 0) as Hnil by (rewrite <- length_contents by done; destruct (contents b); done).
  case_decide as Hr.
  { exists b, (Some EOF). assert (contents b = []) as E by tauto. rewrite E, take_nil, drop_nil. rewrite decide_True by (split; [lia|done]).
    split_and!; try done. by destruct adv. }
  match goal with |- context [mbind _ ?X] => assert (X = Some (take lenp (contents b))) as -> end.
  { rewrite contents_split by done. case_decide as He; [done|]. rewrite go_mod_wrap by lia. cbn. rewrite (decide_False (P := rb_Beg b + rb_Readable b < rb_N b)) by lia.
    rewrite take_app, length_take. set (one := sub _ _ _). case_decide as Ho.
    - replace (lenp - min lenp (length one)) with (lenp - length one) by lia. done.
    - rewrite (proj2 (Nat.sub_0_le lenp (length one))) by lia. by rewrite take_0, app_nil_r. }
  cbn. rewrite (decide_False (P := _ /\ _)) by tauto. destruct adv; cbn.
  - destruct (Advance_ok (Z.of_nat (length (take lenp (contents b)))) b HN Hb) as (b' & E & Hok & Hn & Hc). rewrite E. cbn.
    exists b', None. split_and!; try done. rewrite Hc, Nat2Z.id, length_take. destruct (Nat.le_ge_cases lenp (length (contents b))).
    + by rewrite Nat.min_l.
    + rewrite Nat.min_r by done. by rewrite !drop_ge by lia.
  - by exists b, None.
Qed.

(** One round of [WritePtrs]. *)
Lemma copy_ok p b : ring_ok b -> rb_Readable b < rb_N b ->
  let w := place b (rb_Readable b) in
  let k := min (min (w + (rb_N b - rb_Readable b)) (rb_N b) - w) (length p) in
  let b' := MkRing (list_inserts w (take k p) (rb_A b)) (rb_N b) (rb_Beg b) (rb_Readable b + k) in
  ring_ok b' /\ contents b' = contents b ++ take k p.
Proof.
  intros Hb Hroom w k b'. pose proof Hb as [H1 H2 H3].
  assert (w < rb_N b) as Hw by (subst w; places).
  assert (Hk : k <= length p /\ w + k <= rb_N b /\ rb_Readable b + k <= rb_N b) by (subst k; lia).
  assert (ring_ok b') as Hok. { subst b'. split; cbn; [by rewrite length_inserts|done|lia]. }
  split; [done|]. apply contents_eq; [done|rewrite length_app, length_contents, length_take by done; cbn; lia|].
  cbn. intros i Hi. destruct (decide (i < rb_Readable b)) as [Hlt|Hge].
  - rewrite lookup_app_l by (rewrite length_contents by done; lia). rewrite lookup_contents by (done || lia).
    change (place b' i) with (place b i). destruct (decide (place b i < w)) as [Hp|Hp]; [by rewrite list_lookup_inserts_lt|].
    rewrite list_lookup_inserts_ge; [done|]. rewrite length_take. clear -Hlt Hi Hk H1 H2 H3 Hw Hp.
    subst w. clearbody k. places.
  - rewrite lookup_app_r by (rewrite length_contents by done; lia). rewrite length_contents by done.
    change (place b' i) with (place b i). assert (place b i = w + (i - rb_Readable b)) as ->.
    { clear -Hge Hi Hk Hroom H1 H2 H3. subst w. clearbody k. places. }
    rewrite list_lookup_inserts; [|rewrite ?length_take; lia..]. f_equal. lia.
Qed.

Lemma write_round fuel p n err b : ring_ok b -> p <> [] -> rb_Readable b < rb_N b ->
  let w := place b (rb_Readable b) in
  let k := min (min (w + (rb_N b - rb_Readable b)) (rb_N b) - w) (length p) in
  exists b', ring_ok b' /\ rb_N b' = rb_N b /\ rb_Beg b' = rb_Beg b /\ rb_Readable b' = rb_Readable b + k /\
    contents b' = contents b ++ take k p /\
    WritePtrs_loop (S fuel) p n err b =
    WritePtrs_loop fuel (drop k p) (n + k) (if decide (rb_N b - rb_Readable b < length p) then Some ErrShortWrite else err) b'.
Proof.
  intros Hb Hp Hroom w k. pose proof Hb as [H1 H2 H3]. destruct (copy_ok p b Hb Hroom) as [Hok Hc].
  eexists. split; [exact Hok|]. split_and!; try done. cbn [WritePtrs_loop]. rewrite decide_False by done. rewrite decide_False by lia.
  by rewrite go_mod_wrap by lia.
Qed.

Lemma write_stop fuel p n err b : p = [] \/ rb_Readable b = rb_N b -> (p <> [] -> err = Some ErrShortWrite) ->
  WritePtrs_loop (S fuel) p n err b = Some (b, n, err).
Proof.
  intros H He. cbn. case_decide as Hp; [done|]. rewrite decide_True by (destruct H; [done|lia]). by rewrite He.
Qed.

Lemma WritePtrs_ok p b : ring_ok b -> exists b' , WritePtrs p b =
  Some (b', min (length p) (rb_N b - rb_Readable b), if decide (rb_N b - rb_Readable b < length p) then Some ErrShortWrite else None) /\
  ring_ok b' /\ rb_N b' = rb_N b /\ contents b' = contents b ++ take (rb_N b - rb_Readable b) p.
Proof.
  intros Hb. pose proof Hb as [H1 H2 H3]. unfold WritePtrs. set (cap := rb_N b - rb_Readable b).
  destruct (decide (p = [])) as [->|Hp].
  { exists b. rewrite take_nil, app_nil_r, decide_False by (cbn; lia). by rewrite write_stop by (by left || done). }
  assert (0 < length p) by (destruct p; [done|cbn; lia]).
  destruct (decide (cap = 0)) as [Hc|Hc].
  { exists b. rewrite Hc, take_0, app_nil_r, Nat.min_0_r, decide_True by lia. cbn [WritePtrs_loop]. rewrite decide_False by done. by rewrite decide_True. }
  destruct (write_round 2 p 0 None b Hb Hp ltac:(lia)) as (b1 & Hok1 & HN1 & HB1 & HR1 & HC1 & ->). fold cap in HR1, HC1 |- *.
  set (w := place b (rb_Readable b)) in *. set (k := min (min (w + cap) (rb_N b) - w) (length p)) in *.
  assert (Hk : k <= length p /\ k <= cap) by (subst k; lia).
  destruct (decide (k = min (length p) cap)) as [Hfull|Hpart].
  { exists b1. rewrite write_stop.
    - split_and!; try done; [by rewrite Hfull|]. rewrite HC1, Hfull. f_equal. destruct (Nat.le_ge_cases (length p) cap).
      + by rewrite Nat.min_l, !take_ge by lia.
      + by rewrite Nat.min_r.
    - destruct (decide (length p <= cap)); [left; apply drop_ge; lia|right; lia].
    - intros Hd. rewrite decide_True; [done|]. destruct (decide (cap < length p)); [done|]. destruct Hd. apply drop_ge. lia. }
  assert (Hw : w < rb_N b) by (subst w; unfold place; case_decide; lia).
  assert (Hk' : k = rb_N b - w) by (subst k; lia).
  assert (Hp1 : drop k p <> []). { intros E. apply (f_equal length) in E. rewrite length_drop in E. cbn in E. lia. }
  destruct (write_round 1 (drop k p) (0 + k) (if decide (cap < length p) then Some ErrShortWrite else None) b1 Hok1 Hp1 ltac:(lia))
    as (b2 & Hok2 & HN2 & HB2 & HR2 & HC2 & ->).
  assert (place b1 (rb_Readable b1) = 0) as E0.
  { clear HC1 HC2 HR2. subst w. unfold place in *. rewrite HN1, HB1, HR1. repeat case_decide; lia. }
  rewrite E0, HN1, HR1, length_drop in HR2, HC2 |- *. set (k2 := min _ (length p - k)) in HR2, HC2 |- *.
  assert (k2 = min (length p - k) (cap - k)) as Hk2.
  { subst k2. clear -Hk Hk' Hw H3 HN1. clearbody k w. subst cap. lia. }
  clearbody k2 k w.
  exists b2. rewrite write_stop.
  - split_and!; [|done|lia|].
    + repeat f_equal; [lia|]. repeat case_decide; done || lia.
    + rewrite HC2, HC1, <- app_assoc. f_equal. rewrite take_take_drop. destruct (Nat.le_ge_cases (length p) cap).
      * rewrite !take_ge by lia. done.
      * f_equal. lia.
  - destruct (decide (length p <= cap)); [left; rewrite drop_drop; apply drop_ge; lia|right; lia].
  - rewrite drop_drop. intros Hd. assert (cap < length p). { destruct (decide (cap < length p)); [done|]. destruct Hd. apply drop_ge. lia. }
    repeat case_decide; done || lia.
Qed.

Lemma Adopt_ok p b : ring_ok b -> ring_ok (Adopt p b) /\ contents (Adopt p b) = p.
Proof.
  intros [H1 H2 H3]. unfold Adopt. case_decide as Hn.
  - assert (ring_ok (MkRing p (length p) 0 (length p))) by (split; cbn; lia). split; [done|].
    rewrite contents_split by done. cbn. unfold sub. rewrite decide_True by lia. by rewrite drop_0, take_ge by lia.
  - unfold copy_at. cbn [fst]. rewrite Nat.sub_0_r, Nat.min_r by lia. rewrite (take_ge p) by lia.
    assert (ring_ok (MkRing (list_inserts 0 p (rb_A b)) (rb_N b) 0 (length p))) as Hok by (split; cbn; rewrite ?length_inserts; lia).
    split; [done|]. apply contents_eq; [done|done|]. cbn. intros k Hk. unfold place. cbn. rewrite decide_True by lia.
    rewrite list_lookup_inserts by lia. f_equal. lia.
Qed.
End events.

(** A new event in a full window takes the place of the oldest. *)
Lemma overwrite_ok (e : Z) (b : ring Z) : ring_ok b -> rb_Readable b = rb_N b -> 0 < rb_N b ->
  let w := place b (rb_Readable b) in
  let beg := if decide (rb_Beg b + 1 < rb_N b) then rb_Beg b + 1 else rb_Beg b + 1 - rb_N b in
  let b' := MkRing (<[w := e]> (rb_A b)) (rb_N b) beg (rb_Readable b) in
  ring_ok b' /\ contents b' = drop 1 (contents b ++ [e]).
Proof.
  intros Hb HR HN w beg b'. pose proof Hb as [H1 H2 H3].
  assert (w = rb_Beg b) as Hw by (subst w; unfold place; case_decide; lia).
  assert (ring_ok b') as Hok. { subst b' beg. split; cbn; [by rewrite length_insert|case_decide; lia|lia]. }
  split; [done|]. apply contents_eq; [done|rewrite length_drop, length_app, length_contents by done; cbn; lia|].
  cbn. intros k Hk. rewrite lookup_drop. destruct (decide (k + 1 = rb_N b)) as [Hlast|Hlast].
  - rewrite lookup_app_r, length_contents by (done || rewrite length_contents by done; lia).
    replace (1 + k - rb_Readable b) with 0 by lia. cbn. rewrite Hw. assert (place b' k = rb_Beg b) as ->.
    { unfold b', beg, place. cbn. repeat case_decide; lia. }
    apply list_lookup_insert_eq. lia.
  - rewrite lookup_app_l by (rewrite length_contents by done; lia). rewrite lookup_contents by (done || lia).
    assert (place b' k = place b (1 + k)) as -> by (unfold b', beg, place; cbn; repeat case_decide; lia).
    rewrite list_lookup_insert_ne; [done|]. rewrite Hw. unfold place. case_decide; lia.
Qed.

(** The check against the window. *)
Definition overflow (Window : Z) (youngest : nat) (b : ring Z) : option (ring Z * bool) :=
  if decide (0 < rb_N b - rb_Readable b) then Some (b, false)
  else
    new ← rb_A b !! youngest;
    old ← rb_A b !! rb_Beg b;
    Some (b, bool_decide (new - old <= Window)%Z).

Lemma overflow_ok Window w e (b : ring Z) : ring_ok b -> rb_A b !! w = Some e -> 0 < rb_Readable b ->
  overflow Window w b = Some (b, bool_decide (length (contents b) = rb_N b) && bool_decide (e - default 0 (head (contents b)) <= Window)%Z).
Proof.
  intros Hb Hw HR. pose proof Hb as [H1 H2 H3]. unfold overflow. rewrite length_contents by done. case_decide as Hf.
  - by rewrite (bool_decide_false (rb_Readable b = rb_N b)) by lia.
  - rewrite (bool_decide_true (rb_Readable b = rb_N b)) by lia. rewrite Hw. cbn [mbind option_bind].
    rewrite head_lookup, lookup_contents by (done || lia). replace (place b 0) with (rb_Beg b) by (unfold place; case_decide; lia).
    destruct (lookup_lt_is_Some_2 (rb_A b) (rb_Beg b)) as [o Ho]; [lia|]. by rewrite Ho.
Qed.

(** The window keeps the newest [N] events. *)
Lemma AddEvent_ok (Window e : Z) (b : ring Z) : ring_ok b -> 0 < rb_N b ->
  let q := drop (length (contents b) + 1 - rb_N b) (contents b ++ [e]) in
  exists b', AddEventCheckOverflow Window e b =
    Some (b', bool_decide (length q = rb_N b) && bool_decide (e - default 0 (head q) <= Window)%Z) /\
  ring_ok b' /\ rb_N b' = rb_N b /\ contents b' = q.
Proof.
  intros Hb HN. pose proof Hb as [H1 H2 H3]. unfold AddEventCheckOverflow. rewrite !go_mod_wrap by lia. cbn [mbind option_bind].
  change (if decide (rb_Beg b + rb_Readable b < rb_N b) then _ else _) with (place b (rb_Readable b)).
  assert (place b (rb_Readable b) < rb_N b) as Hw by (unfold place; case_decide; lia).
  unfold store. rewrite (decide_True (P := place b (rb_Readable b) < length (rb_A b))) by lia. cbn [mbind option_bind].
  rewrite length_contents by done. case_decide as Hf.
  - replace (rb_Readable b + 1 - rb_N b) with 1 by lia. destruct (overwrite_ok e b Hb ltac:(lia) HN) as [Ho <-]. eexists. split; [|done].
    apply (overflow_ok Window (place b (rb_Readable b)) e _ Ho); cbn; [apply list_lookup_insert_eq; lia|lia].
  - rewrite (proj2 (Nat.sub_0_le _ _)) by lia. rewrite drop_0.
    destruct (Append_ok e b Hb ltac:(lia)) as (b' & E & Ho & HN' & Hc). unfold Append, store in E. rewrite decide_False in E by lia.
    rewrite go_mod_wrap in E by lia. cbn [mbind option_bind] in E. fold (place b (rb_Readable b)) in E.
    rewrite decide_True in E by lia. cbn in E. injection E as <-. rewrite <- Hc. eexists. split; [|done].
    apply (overflow_ok Window (place b (rb_Readable b)) e _ Ho); cbn; [apply list_lookup_insert_eq; lia|lia].
Qed.

(** ** Refinement *)

(** The operations of the two rings, and what a caller gets. *)
Inductive ring_op :=
| OpAppend (x : Z) | OpAdvance (n : Z) | OpReset | OpClone | OpAvail | OpFirst | OpLast | OpKth (k : Z)
| OpTwoContig | OpRead (lenp : nat) (doAdvance : bool) | OpWrite (p : list Z) | OpAdopt (p : list Z) | OpAddEvent (Window e : Z).

Inductive ring_out :=
| OutNothing
| OutErr (err : option ring_error)
| OutElem (x : option Z)
| OutList (l : list Z) (err : option ring_error)
| OutCount (n : nat) (err : option ring_error)
| OutFull (full : bool).

(** The element at an index, where -1 is none. *)
Definition elem_at (i : Z) (b : ring Z) : option Z := if (i <? 0)%Z then None else rb_A b !! Z.to_nat i.

Definition ring_exec (op : ring_op) (b : ring Z) : option (ring Z * ring_out) :=
  match op with
  | OpAppend x => '(b, err) ← Append x b; Some (b, OutErr err)
  | OpAdvance n => b ← Advance n b; Some (b, OutNothing)
  | OpReset => Some (Reset b, OutNothing)
  | OpClone => Some (clone b, OutNothing)
  | OpAvail => Some (b, OutCount (Avail b) None)
  | OpFirst => Some (b, OutElem (elem_at (First b) b))
  | OpLast => i ← Last b; Some (b, OutElem (elem_at i b))
  | OpKth k => i ← Kth k b; Some (b, OutElem (elem_at i b))
  | OpTwoContig => '(one, two) ← TwoContig b; Some (b, OutList (one ++ two) None)
  | OpRead lenp adv => '(b, got, err) ← readAndMaybeAdvance lenp adv b; Some (b, OutList got err)
  | OpWrite p => '(b, n, err) ← WritePtrs p b; Some (b, OutCount n err)
  | OpAdopt p => Some (Adopt p b, OutNothing)
  | OpAddEvent Window e => '(b, full) ← AddEventCheckOverflow Window e b; Some (b, OutFull full)
  end.

Fixpoint ring_run (ops : list ring_op) (b : ring Z) : option (ring Z * list ring_out) :=
  match ops with
  | [] => Some (b, [])
  | op :: ops => '(b, out) ← ring_exec op b; '(b, outs) ← ring_run ops b; Some (b, out :: outs)
  end.

(** The same on a queue of at most [n] elements. *)
Definition queue_exec (op : ring_op) (nq : nat * list Z) : (nat * list Z) * ring_out :=
  let '(n, q) := nq in
  let free := n - length q in
  match op with
  | OpAppend x => if decide (free = 0) then ((n, q), OutErr (Some ErrShortWrite)) else ((n, q ++ [x]), OutErr None)
  | OpAdvance m => ((n, drop (Z.to_nat m) q), OutNothing)
  | OpReset => ((n, []), OutNothing)
  | OpClone => ((n, q), OutNothing)
  | OpAvail => ((n, q), OutCount (length q) None)
  | OpFirst => ((n, q), OutElem (head q))
  | OpLast => ((n, q), OutElem (last q))
  | OpKth k => ((n, q), OutElem (if (k <? 0)%Z then None else q !! Z.to_nat k))
  | OpTwoContig => ((n, q), OutList q None)
  | OpRead lenp adv =>
      ((n, if adv then drop lenp q else q), OutList (take lenp q) (if decide (0 < lenp /\ q = []) then Some EOF else None))
  | OpWrite p =>
      ((n, q ++ take free p), OutCount (min (length p) free) (if decide (free < length p) then Some ErrShortWrite else None))
  | OpAdopt p => ((max n (length p), p), OutNothing)
  | OpAddEvent Window e =>
      let q := drop (length q + 1 - n) (q ++ [e]) in
      ((n, q), OutFull (bool_decide (length q = n) && bool_decide (e - default 0%Z (head q) <= Window)%Z))
  end.

Fixpoint queue_run (ops : list ring_op) (nq : nat * list Z) : (nat * list Z) * list ring_out :=
  match ops with
  | [] => (nq, [])
  | op :: ops => let '(nq, out) := queue_exec op nq in let '(nq, outs) := queue_run ops nq in (nq, out :: outs)
  end.

Lemma elem_at_Kth (k : Z) b : ring_ok b ->
  (fun i => elem_at i b) <$> Kth k b = Some (if (k <? 0)%Z then None else contents b !! Z.to_nat k).
Proof.
  intros Hb. rewrite Kth_ok by done. cbn. f_equal. pose proof (length_contents b Hb) as Hl. case_decide as Hk.
  - rewrite (proj2 (Z.ltb_ge k 0)) by lia. rewrite lookup_contents by (done || lia). unfold elem_at.
    rewrite (proj2 (Z.ltb_ge _ _)) by lia. by rewrite Nat2Z.id.
  - destruct (Z.ltb_spec k 0); [done|]. symmetry. apply lookup_ge_None_2. lia.
Qed.

Lemma ring_exec_ok op b : ring_ok b -> 0 < rb_N b -> exists b' out, ring_exec op b = Some (b', out) /\ ring_ok b' /\
  queue_exec op (rb_N b, contents b) = ((rb_N b', contents b'), out).
Proof.
  intros Hb HN. pose proof (length_contents b Hb) as Hl. pose proof (rk_readable _ Hb) as HR. destruct op; cbn [ring_exec queue_exec]; rewrite ?Hl.
  - case_decide as Hf; [rewrite Append_full by (done || lia); by eexists _, _|].
    destruct (Append_ok x b Hb ltac:(lia)) as (b' & -> & Ho & <- & <-). by eexists _, _.
  - destruct (Advance_ok n b HN Hb) as (b' & -> & Ho & <- & <-). by eexists _, _.
  - destruct (Reset_ok b Hb) as [Ho E]. eexists _, _. split; [done|]. by rewrite E.
  - eexists _, _. split; [done|]. by rewrite clone_eq.
  - by eexists _, _.
  - eexists _, _. split; [done|]. split; [done|]. pose proof (elem_at_Kth 0 b Hb) as E. rewrite <- First_ok in E by done.
    cbn in E. injection E as ->. by rewrite head_lookup.
  - pose proof (elem_at_Kth (Z.of_nat (rb_Readable b) - 1) b Hb) as E. rewrite <- Last_ok in E by done.
    destruct (Last b) as [i|]; [|done]. cbn in E |- *. injection E as ->. eexists _, _. split; [done|]. split; [done|].
    rewrite last_lookup, Hl. do 2 f_equal. destruct (Z.ltb_spec (Z.of_nat (rb_Readable b) - 1) 0); [|f_equal; lia].
    rewrite lookup_ge_None_2 by lia. done.
  - pose proof (elem_at_Kth k b Hb) as E. destruct (Kth k b) as [i|]; [|done]. cbn in E |- *. injection E as ->. by eexists _, _.
  - destruct (TwoContig_ok b Hb) as (one & two & -> & E). cbn. rewrite E. by eexists _, _.
  - destruct (ring_read_ok lenp doAdvance b Hb HN) as (b' & err & -> & Ho & <- & Hc & ->). cbn. eexists _, _. split; [done|]. split; [done|]. by rewrite Hc.
  - destruct (WritePtrs_ok p b Hb) as (b' & -> & Ho & HN' & Hc). cbn. eexists _, _. split; [done|]. split; [done|]. by rewrite HN', Hc.
  - destruct (Adopt_ok p b Hb) as [Ho Hc]. eexists _, _. split; [done|]. split; [done|]. rewrite Hc. do 2 f_equal.
    unfold Adopt. case_decide; cbn; lia.
  - destruct (AddEvent_ok Window e b Hb HN) as (b' & E & Ho & HN' & Hc). rewrite Hl in E, Hc. rewrite E. cbn. eexists _, _.
    split; [done|]. split; [done|]. by rewrite HN', Hc.
Qed.

(** C34. The rings are bounded queues: any sequence of operations on a new ring
    of a positive size runs without a panic, and gives every caller what the
    same operations give on a plain queue: what is full is refused or, for an
    event, takes the place of the oldest.  An event is reported exactly when it
    leaves the ring full and all of its events lie within the window; those
    that are older stay in the ring until others take their place. *)
Theorem ring_refines_queue n ops : 0 < n -> exists b outs, ring_run ops (newRingBuf 0%Z n) = Some (b, outs) /\
  queue_run ops (n, []) = ((rb_N b, contents b), outs).
Proof.
  intros Hn. destruct (newRingBuf_ok 0%Z n) as [Hok Hc].
  assert (forall ops b, ring_ok b -> 0 < rb_N b -> exists b' outs, ring_run ops b = Some (b', outs) /\
    queue_run ops (rb_N b, contents b) = ((rb_N b', contents b'), outs)) as H.
  { clear. induction ops as [|op ops IH]; intros b Hb HN; [by eexists _, _|]. cbn [ring_run queue_run].
    destruct (ring_exec_ok op b Hb HN) as (b1 & out & -> & Hb1 & E1). rewrite E1. cbn [mbind option_bind].
    assert (0 < rb_N b1) as HN1. { clear -HN E1. destruct op; cbn in E1; repeat case_decide; simplify_eq; lia. }
    destruct (IH b1 Hb1 HN1) as (b2 & outs & -> & ->). by eexists _, _. }
  apply (H ops (newRingBuf 0%Z n) Hok). cbn. lia.
Qed.

Lemma ring_refines_queue_witness : exists b outs,
  ring_run [OpAppend 1; OpWrite [2; 3; 4]%Z; OpRead 2 true; OpAddEvent 5 6; OpAddEvent 5 7; OpKth 0; OpTwoContig] (newRingBuf 0%Z 3) = Some (b, outs) /\
  queue_run [OpAppend 1; OpWrite [2; 3; 4]%Z; OpRead 2 true; OpAddEvent 5 6; OpAddEvent 5 7; OpKth 0; OpTwoContig] (3, []) = ((rb_N b, contents b), outs).
Proof. apply (ring_refines_queue 3). lia. Defined.
