(* ===== verification/Health.v ===== *)
(** * Health: the health agent and its leader election

    [src/health/health.go], [src/health/aloc.go], [src/health/btree.go],
    [src/health/setutil.go]: every server of a cluster runs an agent that
    asks who is there once a heartbeat, collects the answers, and elects a
    leader for the length of a lease.

    The tree of [github.com/google/btree] is an interface, [BTree], with its
    documented behaviour as laws.  Messages are the values that JSON carries,
    and times are nanoseconds since 1970.  Logging is left out, and with it
    the fields that only it reads.  A result [None] is a panic. *)

From stdpp Require Import sorting.
From S2P Require Import Prelude RingBuf.
Local Open Scope Z_scope.

(** ** Locations *)

Record HostPort := MkHostPort { hp_Host : bytes; hp_Port : Z }.
Record ExtInt := MkExtInt { ei_External : HostPort; ei_Internal : HostPort }.

Record AgentLoc := MkAgentLoc {
  al_ID : bytes;
  al_NatsHost : bytes;
  al_NatsClientPort : Z;
  al_Grpc : ExtInt;
  al_LeaseExpires : Z;
  al_Rank : Z;
  al_Pid : Z;
}.

#[global] Instance HostPort_eq_dec : EqDecision HostPort.
Proof. solve_decision. Defined.
#[global] Instance ExtInt_eq_dec : EqDecision ExtInt.
Proof. solve_decision. Defined.
#[global] Instance AgentLoc_eq_dec : EqDecision AgentLoc.
Proof. solve_decision. Defined.

(** [time.Time{}] is the start of year 1, and [UnixNano] is an [int64]. *)
Definition zero_time : Z := -62135596800 * 1000000000.
Definition UnixNano (t : Z) : Z := wrap64 t.

Definition zero_grpc : ExtInt := MkExtInt (MkHostPort [] 0) (MkHostPort [] 0).
Definition zero_loc : AgentLoc := MkAgentLoc [] [] 0 zero_grpc zero_time 0 0.

Definition with_lease (t : Z) (a : AgentLoc) : AgentLoc :=
  MkAgentLoc (al_ID a) (al_NatsHost a) (al_NatsClientPort a) (al_Grpc a) t (al_Rank a) (al_Pid a).

(** [lessThanString]: an empty string is large. *)
Definition lessThanString (i j : bytes) : bool :=
  if bool_decide (i = []) || bool_decide (j = []) then bool_decide (j = [])
  else string_lt i j.

Definition AgentLocLessThan (i j : AgentLoc) : bool :=
  if bool_decide (al_ID i = []) && bool_decide (al_ID j = []) then false
  else if bool_decide (al_ID j = []) then true
  else if bool_decide (al_ID i = []) then false
  else if negb (al_Rank i =? al_Rank j) then al_Rank i <? al_Rank j
  else if bool_decide (al_ID i <> al_ID j) then lessThanString (al_ID i) (al_ID j)
  else if bool_decide (al_NatsHost i <> al_NatsHost j) then lessThanString (al_NatsHost i) (al_NatsHost j)
  else if negb (al_NatsClientPort i =? al_NatsClientPort j) then al_NatsClientPort i <? al_NatsClientPort j
  else if negb (al_Pid i =? al_Pid j) then al_Pid i <? al_Pid j
  else UnixNano (al_LeaseExpires j) <? UnixNano (al_LeaseExpires i).

Definition alocEqual (a b : AgentLoc) : bool := negb (AgentLocLessThan a b) && negb (AgentLocLessThan b a).

Definition slocEqualIgnoreLease (a b : AgentLoc) : bool :=
  let a0 := with_lease zero_time a in
  let b0 := with_lease zero_time b in
  negb (AgentLocLessThan a0 b0) && negb (AgentLocLessThan b0 a0).

(** ** The tree *)

(** What [ranktree] uses of the vendored [BTree]: [items] are the items in the
    order of the iterators. *)
Class BTree (T : Type) := {
  bt_New : T;
  ReplaceOrInsert : AgentLoc -> T -> T;
  Delete : AgentLoc -> T -> T;
  items : T -> list AgentLoc;
}.

(** Its documented behaviour, for a tree that was only built with these
    operations: the items ascend; an item replaces the one that equals it;
    [Delete] removes the one that equals its argument. *)
Abbreviation ascending := (StronglySorted (fun a b => AgentLocLessThan a b = true)).

Class BTreeLaws (T : Type) `{BTree T} : Prop := {
  items_New : items bt_New = [];
  items_insert_sorted x t : ascending (items t) -> ascending (items (ReplaceOrInsert x t));
  elem_of_insert x t y : ascending (items t) ->
    y ∈ items (ReplaceOrInsert x t) <-> y = x \/ (y ∈ items t /\ alocEqual x y = false);
  items_delete_sorted x t : ascending (items t) -> ascending (items (Delete x t));
  elem_of_delete x t y : ascending (items t) -> y ∈ items (Delete x t) <-> y ∈ items t /\ alocEqual x y = false;
}.

Section health.
Context {T : Type} `{BTree T}.

Definition Len (t : T) : nat := length (items t).
Definition Min (t : T) : option AgentLoc := head (items t).
Definition Has (j : AgentLoc) (t : T) : bool := existsb (alocEqual j) (items t).
(** The items that an [AscendLessThan] visits. *)
Definition AscendLessThan (pivot : AgentLoc) (t : T) : list AgentLoc := filter (fun a => AgentLocLessThan a pivot = true) (items t).

(** *** [ranktree] and [members] *)

Definition newRanktree : T := bt_New.
Definition rt_insert (j : AgentLoc) (t : T) : T := ReplaceOrInsert j t.
Definition minrank (t : T) : option AgentLoc := Min t.
Definition deleteSloc (j : AgentLoc) (t : T) : T := Delete j t.
Definition rt_clone (t : T) : T := foldl (fun r cur => rt_insert cur r) newRanktree (AscendLessThan zero_loc t).

Record members := MkMembers { DedupTree : T; LeadID : bytes }.

Definition newMembers : members := MkMembers newRanktree [].
Definition mem_insert (s : AgentLoc) (m : members) : members := MkMembers (rt_insert s (DedupTree m)) (LeadID m).
Definition mem_clear (m : members) : members := MkMembers newRanktree (LeadID m).
Definition mem_clone (m : members) : members := MkMembers (rt_clone (DedupTree m)) [].
Definition setEmpty (m : members) : bool := bool_decide (Len (DedupTree m) = 0%nat).

Definition setDiff (a b : members) : members :=
  MkMembers (foldl (fun res v => deleteSloc v res) (rt_clone (DedupTree a)) (AscendLessThan zero_loc (DedupTree b))) [].

Definition setsEqual (a b : members) : bool :=
  if negb (Len (DedupTree a) =? Len (DedupTree b))%nat then false
  else if (Len (DedupTree a) =? 0)%nat then true
  else forallb (fun v => Has v (DedupTree b)) (AscendLessThan zero_loc (DedupTree a)).

(** ** The leader *)

(** [history] holds copies of the leaders. *)
Record leadHolder := MkLeadHolder {
  lh_sloc : AgentLoc;
  lh_myID : bytes;
  lh_myRank : Z;
  lh_myLocHasBeenSet : bool;
  lh_history : ring (option AgentLoc);
  lh_histsz : nat;
}.

Definition newLeadHolder (histsz : nat) : leadHolder :=
  let histsz := if decide (histsz = 0%nat) then 100%nat else histsz in
  MkLeadHolder zero_loc [] 0 false (newRingBuf None histsz) histsz.

Definition setMyLoc (myLoc : AgentLoc) (e : leadHolder) : option leadHolder :=
  if lh_myLocHasBeenSet e then None
  else Some (MkLeadHolder (lh_sloc e) (al_ID myLoc) (al_Rank myLoc) true (lh_history e) (lh_histsz e)).

(** A new leader, with its entry in the history; the error of a full ring is
    ignored. *)
Definition accept (sloc : AgentLoc) (e : leadHolder) : option leadHolder :=
  '(history, _) ← Append (Some sloc) (lh_history e);
  Some (MkLeadHolder sloc (lh_myID e) (lh_myRank e) (lh_myLocHasBeenSet e) history (lh_histsz e)).

(** [setLeader]: the holder, [slocWon] and [alt]. *)
Definition setLeader (sloc : AgentLoc) (now : Z) (e : leadHolder) : option (leadHolder * bool * AgentLoc) :=
  let reject := Some (e, false, lh_sloc e) in
  let won := e' ← accept sloc e; Some (e', true, sloc) in
  if bool_decide (al_ID sloc = []) then reject
  else
    let nowu := UnixNano now in
    let cure := UnixNano (al_LeaseExpires (lh_sloc e)) in
    let newe := UnixNano (al_LeaseExpires sloc) in
    let curExpired := cure <=? nowu in
    let newExpired := newe <=? nowu in
    if curExpired && newExpired then reject
    else if newExpired then reject
    else
      let '(newWon, oldWon) :=
        if curExpired then (true, false) else (AgentLocLessThan sloc (lh_sloc e), AgentLocLessThan (lh_sloc e) sloc) in
      if negb newWon && negb oldWon then
        if al_LeaseExpires (lh_sloc e) <? al_LeaseExpires sloc then won else reject
      else if newWon then won
      else reject.

(** ** The membership *)

(** The location of a server, of the vendored client. *)
Record ServerLoc := MkServerLoc { sl_ID : bytes; sl_Host : bytes; sl_NatsPort : Z; sl_Rank : Z }.

Record MembershipCfg := MkCfg { cf_MaxClockSkew : Z; cf_LeaseTime : Z; cf_MyRank : Z; cf_deaf : bool; cf_historyCount : nat }.

(** [prevMember] is a local variable of the loop. *)
Record Membership := MkMembership {
  ms_Cfg : MembershipCfg;
  ms_replies : nat;
  ms_fromNoTime : members;
  ms_elec : leadHolder;
  ms_myLoc : AgentLoc;
  ms_prevMember : members;
}.

Definition on_elec (f : leadHolder -> leadHolder) (m : Membership) : Membership :=
  MkMembership (ms_Cfg m) (ms_replies m) (ms_fromNoTime m) (f (ms_elec m)) (ms_myLoc m) (ms_prevMember m).
Definition on_pongs (n : nat) (f : members -> members) (m : Membership) : Membership :=
  MkMembership (ms_Cfg m) (ms_replies m + n) (f (ms_fromNoTime m)) (ms_elec m) (ms_myLoc m) (ms_prevMember m).
Definition set_prev (p : members) (m : Membership) : Membership :=
  MkMembership (ms_Cfg m) (ms_replies m) (ms_fromNoTime m) (ms_elec m) (ms_myLoc m) p.

Definition SetDefaults (cfg : MembershipCfg) : MembershipCfg :=
  let lease := if cf_LeaseTime cfg =? 0 then 12 * 1000000000 else cf_LeaseTime cfg in
  let skew := if cf_MaxClockSkew cfg =? 0 then 1000000000 else cf_MaxClockSkew cfg in
  MkCfg skew lease (cf_MyRank cfg) (cf_deaf cfg) (cf_historyCount cfg).

(** [NewMembership], and the start of [start] after [SetDefaults]. *)
Definition NewMembership (cfg : MembershipCfg) : Membership :=
  MkMembership (SetDefaults cfg) 0 newMembers (newLeadHolder (cf_historyCount cfg)) zero_loc newMembers.

Definition getMyLocWithAnyLease (m : Membership) : AgentLoc :=
  let lead := lh_sloc (ms_elec m) in
  if slocEqualIgnoreLease lead (ms_myLoc m) then with_lease (al_LeaseExpires lead) (ms_myLoc m) else ms_myLoc m.

Definition getMyLocWithZeroLease (m : Membership) : AgentLoc := with_lease zero_time (ms_myLoc m).

Definition getNatsServerLocation (m : Membership) (loc : ServerLoc) : ServerLoc :=
  MkServerLoc (sl_ID loc) (sl_Host loc) (sl_NatsPort loc) (cf_MyRank (ms_Cfg m)).

Definition locDifferent (b : ServerLoc) (m : Membership) : bool :=
  bool_decide (sl_ID b <> al_ID (ms_myLoc m)) || negb (sl_Rank b =? al_Rank (ms_myLoc m)) ||
  bool_decide (sl_Host b <> al_NatsHost (ms_myLoc m)) || negb (sl_NatsPort b =? al_NatsClientPort (ms_myLoc m)).

Definition setLoc (b : ServerLoc) (pid : Z) (m : Membership) : option Membership :=
  let myLoc := MkAgentLoc (sl_ID b) (sl_Host b) (sl_NatsPort b) (al_Grpc (ms_myLoc m)) (al_LeaseExpires (ms_myLoc m)) (sl_Rank b) pid in
  elec ← setMyLoc myLoc (ms_elec m);
  Some (MkMembership (ms_Cfg m) (ms_replies m) (ms_fromNoTime m) elec myLoc (ms_prevMember m)).

(** [setupNatsClient], when the connection stands: the answer of the server to
    a question for its location, or an error.  The flag tells that it
    returned no error. *)
Definition setupNatsClient (loc : option ServerLoc) (pid : Z) (m : Membership) : option (Membership * bool) :=
  match loc with
  | None => Some (m, false)
  | Some loc => m ← setLoc (getNatsServerLocation m loc) pid m; Some (m, true)
  end.

(** *** Pings and pongs *)

Definition pc_insert (sloc : AgentLoc) (m : Membership) : Membership :=
  on_pongs 0 (mem_insert (with_lease zero_time sloc)) m.

(** [receivePong] with the location that its message decodes to. *)
Definition receivePong (loc : option AgentLoc) (m : Membership) : option Membership :=
  loc ← loc; Some (pc_insert loc (on_pongs 1 id m)).

(** The answer to an allcall, when there is one. *)
Definition receiveAllCall (loc : option ServerLoc) (m : Membership) : option (option AgentLoc) :=
  if cf_deaf (ms_Cfg m) then Some None
  else
    match loc with
    | None => Some None
    | Some loc =>
        if locDifferent (getNatsServerLocation m loc) m then None
        else Some (Some (getMyLocWithAnyLease m))
    end.

(** [getSetAndClear].  The lock is not held from the copy to the clearing, so
    that the pongs of [late] arrive in between. *)
Definition getSetAndClear (late : list AgentLoc) (m : Membership) : Membership * nat * members :=
  let mem := mem_clone (ms_fromNoTime m) in
  let m := foldl (fun m loc => pc_insert loc (on_pongs 1 id m)) m late in
  let m := on_pongs 0 mem_clear m in
  let m := pc_insert (getMyLocWithZeroLease m) m in
  (m, Len (DedupTree mem), mem).

(** *** The heartbeat *)

Definition leaderLeaseCheck (mems : members) (now leaseLen : Z) (prevLead : AgentLoc) (maxClockSkew : Z) : option (bool * AgentLoc) :=
  if now <? al_LeaseExpires prevLead + maxClockSkew then Some (false, prevLead)
  else if (Len (DedupTree mems) =? 0)%nat then Some (false, prevLead)
  else
    lead ← minrank (DedupTree mems);
    Some (true, with_lease (now + leaseLen) lead).

(** What an agent publishes on the subjects [lost], [added] and [list]. *)
Inductive report :=
| MemberLost (lost : members)
| MemberAdded (gained : members)
| Listing (mems : members).

(** The election of an iteration of [start], after the heartbeat: the members
    of the round, whether there was an election, and the leader. *)
Definition elect (now : Z) (late : list AgentLoc) (m : Membership) : option (Membership * members * bool * AgentLoc) :=
  let lastSeenLead := lh_sloc (ms_elec m) in
  let '(m, curCount, curMember) := getSetAndClear late m in
  '(expired, curLead) ← leaderLeaseCheck curMember now (cf_LeaseTime (ms_Cfg m)) lastSeenLead (cf_MaxClockSkew (ms_Cfg m));
  if (expired : bool) then
    '(elec, won, alt) ← setLeader curLead now (ms_elec m);
    Some (on_elec (fun _ => elec) m, curMember, expired, if (won : bool) then curLead else alt)
  else Some (m, curMember, expired, curLead).

(** The changes that are published. *)
Definition changes (deaf : bool) (prevMember curMember : members) : list report :=
  let lost := setDiff prevMember curMember in
  let gained := setDiff curMember prevMember in
  if setsEqual prevMember curMember then []
  else (if negb (setEmpty lost) && negb deaf then [MemberLost lost] else []) ++
       (if negb (setEmpty gained) && negb deaf then [MemberAdded gained] else []).

(** The iteration, with the listing of the members after an election. *)
Definition beat (now : Z) (late : list AgentLoc) (m : Membership) : option (Membership * list report) :=
  '(m, curMember, expired, curLead) ← elect now late m;
  let deaf := cf_deaf (ms_Cfg m) in
  let prevMember := ms_prevMember m in
  let reports := changes deaf prevMember curMember in
  let curMember := if (expired : bool) then MkMembers (DedupTree curMember) (al_ID curLead) else curMember in
  let listing := if (expired : bool) && negb deaf then [Listing curMember] else [] in
  Some (set_prev curMember m, reports ++ listing).

(** ** The agent *)

Inductive hevent :=
| EvPong (loc : option AgentLoc)
| EvAllCall (loc : option ServerLoc)
| EvBeat (now : Z) (late : list AgentLoc)
| EvReconnect (loc : option ServerLoc) (pid : Z).

(** The agent does not hear a pong when it is deaf, a setting that only tests
    change while it runs.  An error of [setupNatsClient] ends the loop of
    [start]; the agent then has no further [EvBeat] or [EvReconnect], which is
    one of the runs that [hrun] admits. *)
Definition hstep (ev : hevent) (m : Membership) : option Membership :=
  match ev with
  | EvPong loc => if cf_deaf (ms_Cfg m) then Some m else receivePong loc m
  | EvAllCall loc => (fun _ => m) <$> receiveAllCall loc m
  | EvBeat now late => fst <$> beat now late m
  | EvReconnect loc pid => fst <$> setupNatsClient loc pid m
  end.

Fixpoint hrun (evs : list hevent) (m : Membership) : option Membership :=
  match evs with [] => Some m | ev :: evs => m ← hstep ev m; hrun evs m end.
End health.
Arguments members _ : clear implicits.
Arguments Membership _ : clear implicits.
Arguments report _ : clear implicits.
