(* ===== verification/HealthSpec.v ===== *)
(** * HealthSpec: the order of the candidates and the sets of members

    The order of [AgentLocLessThan] is a strict weak order, so that the tree
    holds one item for each agent and its minimum is the best candidate; the
    operations on member sets, seen through the items; and the tree of the
    vendored library as a sorted list, which shows that its laws can hold. *)

From stdpp Require Import sorting.
From S2P Require Import Prelude RingBuf Health.
Local Open Scope Z_scope.

(** ** Strict weak orders *)

Record strict_weak {A} (lt : A -> A -> bool) : Prop := {
  sw_irrefl a : lt a a = false;
  sw_trans a b c : lt a b = true -> lt b c = true -> lt a c = true;
  sw_split a b c : lt a c = true -> lt a b = true \/ lt b c = true;
}.

(** A total order is one. *)
Lemma strict_weak_total {A} (lt : A -> A -> bool) : (forall a, lt a a = false) ->
  (forall a b c, lt a b = true -> lt b c = true -> lt a c = true) ->
  (forall a b, lt a b = false -> lt b a = false -> a = b) -> strict_weak lt.
Proof.
  intros H1 H2 H3. split; [done..|]. intros a b c Hac. destruct (lt a b) eqn:Hab; [by left|right].
  destruct (lt b a) eqn:Hba; [by eapply H2|]. by rewrite <- (H3 a b).
Qed.

(** Compare one field first, then the rest. *)
Definition lexico {A B} `{EqDecision B} (f : A -> B) (lt : B -> B -> bool) (rest : A -> A -> bool) (a b : A) : bool :=
  if decide (f a = f b) then rest a b else lt (f a) (f b).

Lemma strict_weak_lexico {A B} `{EqDecision B} (f : A -> B) lt rest :
  strict_weak lt -> (forall x y, x <> y -> lt x y = true \/ lt y x = true) -> strict_weak rest -> strict_weak (lexico f lt rest).
Proof.
  intros Hl Ht Hr. split; unfold lexico.
  - intros a. rewrite decide_True by done. apply Hr.
  - intros a b c. destruct (decide (f a = f b)) as [E1|E1], (decide (f b = f c)) as [E2|E2].
    + rewrite decide_True by congruence. apply Hr.
    + rewrite E1. by rewrite decide_False.
    + rewrite <- E2. by rewrite decide_False.
    + intros H1 H2. rewrite decide_False; [by eapply Hl|]. intros E3. rewrite E3 in H1.
      pose proof (sw_trans _ Hl _ _ _ H1 H2) as H. by rewrite (sw_irrefl _ Hl) in H.
  - intros a b c. destruct (decide (f a = f b)) as [E1|E1], (decide (f b = f c)) as [E2|E2].
    + rewrite decide_True by congruence. apply Hr.
    + rewrite E1. rewrite decide_False by done. by right.
    + rewrite <- E2. rewrite decide_False by done. by left.
    + destruct (decide (f a = f c)) as [E3|E3].
      * intros _. rewrite E3. destruct (Ht (f b) (f c) E2); [by right|by left].
      * apply Hl.
Qed.

Lemma strict_weak_ext {A} (lt lt' : A -> A -> bool) : (forall a b, lt a b = lt' a b) -> strict_weak lt' -> strict_weak lt.
Proof.
  intros E [H1 H2 H3]. split; [intros a|intros a b c|intros a b c]; rewrite !E; [apply H1|apply H2|apply H3].
Qed.

Lemma strict_weak_map {A B} (f : A -> B) lt : strict_weak lt -> strict_weak (fun a b => lt (f a) (f b)).
Proof. intros [H1 H2 H3]. split; eauto. Qed.

Lemma Z_strict : strict_weak Z.ltb.
Proof. split; intros *; rewrite ?Z.ltb_lt, ?Z.ltb_irrefl; [done|lia|lia]. Qed.

Lemma Z_decides x y : x <> y -> (x <? y) = true \/ (y <? x) = true.
Proof. rewrite !Z.ltb_lt. lia. Qed.

Lemma gtb_strict : strict_weak (fun x y => y <? x).
Proof. split; intros *; rewrite ?Z.ltb_lt, ?Z.ltb_irrefl; [done|lia|lia]. Qed.

(** ** Strings with the empty one last *)

Definition last_string (i j : bytes) : bool := if decide (i = j) then false else lessThanString i j.

Lemma last_string_total a b : a <> b -> last_string a b = true \/ last_string b a = true.
Proof.
  intros Hne. unfold last_string, lessThanString. rewrite !decide_False by congruence.
  destruct (string_lt a b) eqn:E1, (string_lt b a) eqn:E2; repeat case_bool_decide; cbn; try (by left); try (by right); try congruence.
  destruct Hne. by apply string_lt_total.
Qed.

Lemma last_string_strict : strict_weak last_string.
Proof.
  apply strict_weak_total.
  - intros a. unfold last_string. by rewrite decide_True.
  - intros a b c. unfold last_string, lessThanString. repeat case_decide; try done; repeat case_bool_decide; cbn; try congruence; intros Hab Hbc.
    + subst. pose proof (string_lt_trans _ _ _ Hab Hbc) as E. by rewrite string_lt_irrefl in E.
    + by eapply string_lt_trans.
  - intros a b H1 H2. destruct (decide (a = b)) as [|Hne]; [done|].
    destruct (last_string_total a b Hne) as [H|H]; congruence.
Qed.

(** ** The candidates *)

(** The comparison of two locations that have an ID. *)
Definition ranked : AgentLoc -> AgentLoc -> bool :=
  lexico al_Rank Z.ltb (lexico al_ID last_string (lexico al_NatsHost last_string (lexico al_NatsClientPort Z.ltb (lexico al_Pid Z.ltb
    (fun i j => UnixNano (al_LeaseExpires j) <? UnixNano (al_LeaseExpires i)))))).

Lemma ranked_strict : strict_weak ranked.
Proof.
  repeat (apply strict_weak_lexico; [exact Z_strict || exact last_string_strict|exact Z_decides || exact last_string_total|]).
  exact (strict_weak_map (fun a => UnixNano (al_LeaseExpires a)) _ gtb_strict).
Qed.

Lemma less_alt i j : AgentLocLessThan i j =
  if decide (al_ID i = []) then false else if decide (al_ID j = []) then true else ranked i j.
Proof.
  unfold AgentLocLessThan, ranked, lexico, last_string. rewrite !bool_decide_decide.
  destruct (decide (al_ID i = [])) as [Ei|Ei], (decide (al_ID j = [])) as [Ej|Ej]; cbn [andb]; try done.
  destruct (Z.eqb_spec (al_Rank i) (al_Rank j)) as [E|E]; cbn [negb]; [rewrite (decide_True (P := al_Rank i = al_Rank j)) by done|by rewrite decide_False].
  destruct (decide (al_ID i <> al_ID j)) as [E0|E0]; [by rewrite !decide_False by done|rewrite (decide_True (P := al_ID i = al_ID j)) by (by apply dec_stable)].
  destruct (decide (al_NatsHost i <> al_NatsHost j)) as [E1|E1]; [by rewrite !decide_False by done|rewrite decide_True by (by apply dec_stable)].
  destruct (Z.eqb_spec (al_NatsClientPort i) (al_NatsClientPort j)) as [E2|E2]; cbn [negb]; [rewrite decide_True by done|by rewrite decide_False].
  destruct (Z.eqb_spec (al_Pid i) (al_Pid j)) as [E3|E3]; cbn [negb]; [by rewrite decide_True|by rewrite decide_False].
Qed.

Lemma less_strict : strict_weak AgentLocLessThan.
Proof.
  split; intros *; rewrite !less_alt; repeat case_decide; try done; try (by left); try (by right); apply ranked_strict.
Qed.

#[export] Instance less_trans : Transitive (fun a b => AgentLocLessThan a b = true).
Proof. intros a b c. apply less_strict. Qed.

(** Equality: the same agent with the same lease, or no agent. *)
Definition same_agent (a b : AgentLoc) : Prop :=
  al_Rank a = al_Rank b /\ al_ID a = al_ID b /\ al_NatsHost a = al_NatsHost b /\
  al_NatsClientPort a = al_NatsClientPort b /\ al_Pid a = al_Pid b.

Lemma alocEqual_refl a : alocEqual a a = true.
Proof. unfold alocEqual. by rewrite (sw_irrefl _ less_strict). Qed.

Lemma alocEqual_sym a b : alocEqual a b = alocEqual b a.
Proof. unfold alocEqual. apply andb_comm. Qed.

Lemma alocEqual_less a b c : alocEqual a b = true -> AgentLocLessThan a c = AgentLocLessThan b c.
Proof.
  unfold alocEqual. rewrite andb_true_iff, !negb_true_iff. intros [H1 H2]. apply eq_true_iff_eq. split; intros H.
  - destruct (sw_split _ less_strict _ b _ H); congruence.
  - destruct (sw_split _ less_strict _ a _ H); congruence.
Qed.

Lemma alocEqual_less_r a b c : alocEqual a b = true -> AgentLocLessThan c a = AgentLocLessThan c b.
Proof.
  unfold alocEqual. rewrite andb_true_iff, !negb_true_iff. intros [H1 H2]. apply eq_true_iff_eq. split; intros H.
  - destruct (sw_split _ less_strict _ b _ H); congruence.
  - destruct (sw_split _ less_strict _ a _ H); congruence.
Qed.

Lemma alocEqual_trans a b c : alocEqual a b = true -> alocEqual b c = alocEqual a c.
Proof. intros H. unfold alocEqual. by rewrite (alocEqual_less _ _ c H), (alocEqual_less_r _ _ c H). Qed.

Lemma lexico_eq {A B} `{EqDecision B} (f : A -> B) lt rest a b : (forall x y, x <> y -> lt x y = true \/ lt y x = true) ->
  lexico f lt rest a b = false -> lexico f lt rest b a = false -> f a = f b /\ rest a b = false /\ rest b a = false.
Proof.
  intros Ht. unfold lexico. repeat case_decide; try congruence; [by auto|]. destruct (Ht (f a) (f b)); congruence.
Qed.

Lemma alocEqual_same a b : al_ID a <> [] -> al_ID b <> [] -> alocEqual a b = true -> same_agent a b.
Proof.
  intros Ha Hb. unfold alocEqual. rewrite andb_true_iff, !negb_true_iff, !less_alt, !(decide_False (P := _ = [])) by done.
  intros [H1 H2]. unfold ranked in *.
  pose proof (lexico_eq _ _ _ _ _ Z_decides H1 H2) as (E1 & H3 & H4).
  pose proof (lexico_eq _ _ _ _ _ last_string_total H3 H4) as (E2 & H5 & H6).
  pose proof (lexico_eq _ _ _ _ _ last_string_total H5 H6) as (E3 & H7 & H8).
  pose proof (lexico_eq _ _ _ _ _ Z_decides H7 H8) as (E4 & H9 & H10).
  pose proof (lexico_eq _ _ _ _ _ Z_decides H9 H10) as (E5 & _ & _). done.
Qed.

Lemma same_equal a b : same_agent a b -> al_LeaseExpires a = al_LeaseExpires b -> alocEqual a b = true.
Proof.
  intros (E1 & E2 & E3 & E4 & E5) E6. unfold alocEqual. rewrite !less_alt, <- E2. case_decide; [done|].
  unfold ranked, lexico. rewrite E1, E2, E3, E4, E5, E6, !decide_True by done. by rewrite Z.ltb_irrefl.
Qed.

(** ** Ascending lists *)

Lemma ascending_less a l y : ascending (a :: l) -> y ∈ l -> AgentLocLessThan a y = true.
Proof. intros [_ H]%StronglySorted_inv Hy. by apply (proj1 (Forall_forall _ _) H). Qed.

Lemma less_not_equal a b : AgentLocLessThan a b = true -> alocEqual a b = false /\ alocEqual b a = false.
Proof. unfold alocEqual. intros ->. by rewrite andb_false_r. Qed.

Lemma ascending_filter (P : AgentLoc -> Prop) `{forall x, Decision (P x)} l : ascending l -> ascending (filter P l).
Proof.
  induction l as [|x l IH]; intros Hs; [constructor|]. pose proof (StronglySorted_inv Hs) as [Hs' Hf].
  rewrite filter_cons. case_decide; [|by apply IH]. constructor; [by apply IH|].
  apply Forall_forall. intros y [_ Hy]%list_elem_of_filter. by apply (proj1 (Forall_forall _ _) Hf).
Qed.

(** A list whose items are all in another one is not longer, and covers it when
    it is as long. *)
Lemma covered la lb : ascending la -> ascending lb -> (forall a, a ∈ la -> exists b, b ∈ lb /\ alocEqual a b = true) ->
  (length la <= length lb)%nat /\ (length la = length lb -> Forall2 (fun a b => alocEqual a b = true) la lb).
Proof.
  revert la. induction lb as [|y lb IH]; intros [|x la] Ha Hb Hc; cbn; try (split; [lia|done]).
  { destruct (Hc x) as (b & Hin & _); [set_solver|]. by apply not_elem_of_nil in Hin. }
  pose proof (StronglySorted_inv Ha) as [Ha' _]. pose proof (StronglySorted_inv Hb) as [Hb' _].
  destruct (Hc x) as (b & [->|Hin]%elem_of_cons & E); [set_solver|..].
  - destruct (IH la Ha' Hb') as [IH1 IH2].
    { intros a Hin. destruct (Hc a) as (b & [->|Hbin]%elem_of_cons & Eb); [set_solver| |by exists b].
      pose proof (ascending_less _ _ _ Ha Hin) as Hl. apply less_not_equal in Hl as [Hl _].
      rewrite alocEqual_sym, (alocEqual_trans _ _ a E) in Eb. congruence. }
    split; [lia|]. intros Hlen. constructor; [done|]. apply IH2. lia.
  - destruct (IH (x :: la) Ha Hb') as [IH1 _]; [|cbn in *; split; lia].
    intros a Hain. destruct (Hc a Hain) as (c & [->|Hcin]%elem_of_cons & Ec); [|by exists c].
    pose proof (ascending_less _ _ _ Hb Hin) as Hyb. rewrite <- (alocEqual_less_r _ _ y E) in Hyb.
    rewrite <- (alocEqual_less _ _ x Ec) in Hyb. apply elem_of_cons in Hain as [->|Hain].
    + by rewrite (sw_irrefl _ less_strict) in Hyb.
    + pose proof (ascending_less _ _ _ Ha Hain) as H. pose proof (sw_trans _ less_strict _ _ _ H Hyb) as H'.
      by rewrite (sw_irrefl _ less_strict) in H'.
Qed.

(** ** The sets *)

Section sets.
Context {T : Type} `{BTreeLaws T}.

Lemma minrank_ok (t : T) x : ascending (items t) -> minrank t = Some x ->
  x ∈ items t /\ forall y, y ∈ items t -> y = x \/ AgentLocLessThan x y = true.
Proof.
  unfold minrank, Min. intros Hs E. destruct (items t) as [|z l]; [done|]. injection E as ->. split; [set_solver|].
  intros y [->|Hy]%elem_of_cons; [by left|right]. by eapply ascending_less.
Qed.

Lemma elem_of_ascend (t : T) y : y ∈ AscendLessThan zero_loc t <-> y ∈ items t /\ al_ID y <> [].
Proof.
  unfold AscendLessThan. rewrite list_elem_of_filter. rewrite less_alt. cbn. case_decide; naive_solver.
Qed.

Lemma ascend_sorted (t : T) : ascending (items t) -> ascending (AscendLessThan zero_loc t).
Proof. apply ascending_filter. Qed.

Lemma insert_all l (t : T) : ascending (items t) -> ascending l ->
  ascending (items (foldl (fun r cur => rt_insert cur r) t l)) /\
  forall y, y ∈ items (foldl (fun r cur => rt_insert cur r) t l) <-> y ∈ l \/ (y ∈ items t /\ forall x, x ∈ l -> alocEqual x y = false).
Proof.
  revert t. induction l as [|x l IH]; intros t Ht Hl; cbn.
  { split; [done|]. intros y. split; [intros Hy; right; split; [done|]; intros ? []%not_elem_of_nil|].
    intros [[]%not_elem_of_nil|[? _]]; done. }
  pose proof (StronglySorted_inv Hl) as [Hl' _].
  destruct (IH (rt_insert x t) (items_insert_sorted x t Ht) Hl') as [IH1 IH2]. split; [done|].
  intros y. rewrite IH2. unfold rt_insert. rewrite elem_of_insert by done. setoid_rewrite elem_of_cons. split.
  - intros [?|[[->|[? ?]] Hz]]; [by left; right|by left; left|]. right. split; [done|]. intros z [->|Hzl]; [done|by apply Hz].
  - intros [[->|?]|[? Hz]]; [|by left|].
    + right. split; [by left|]. intros z Hzl. apply less_not_equal. by eapply ascending_less.
    + right. split; [right; split; [done|apply Hz; by left]|]. intros z Hzl. apply Hz. by right.
Qed.

Lemma rt_clone_ok (t : T) : ascending (items t) ->
  ascending (items (rt_clone t)) /\ forall y, y ∈ items (rt_clone t) <-> y ∈ items t /\ al_ID y <> [].
Proof.
  intros Hs. unfold rt_clone. destruct (insert_all (AscendLessThan zero_loc t) newRanktree) as [H1 H2].
  - unfold newRanktree. rewrite items_New. constructor.
  - by apply ascend_sorted.
  - split; [done|]. intros y. rewrite H2, elem_of_ascend. unfold newRanktree. rewrite items_New. split; [|by left].
    intros [?|[[]%not_elem_of_nil _]]. done.
Qed.

Lemma delete_all_ok l (t : T) : ascending (items t) ->
  ascending (items (foldl (fun res v => deleteSloc v res) t l)) /\
  forall y, y ∈ items (foldl (fun res v => deleteSloc v res) t l) <-> y ∈ items t /\ forall x, x ∈ l -> alocEqual x y = false.
Proof.
  revert t. induction l as [|x l IH]; intros t Ht; cbn.
  { split; [done|]. intros y. split; [intros Hy; split; [done|]; intros ? []%not_elem_of_nil|tauto]. }
  destruct (IH (deleteSloc x t) (items_delete_sorted x t Ht)) as [IH1 IH2]. split; [done|].
  intros y. rewrite IH2. unfold deleteSloc. rewrite elem_of_delete by done. setoid_rewrite elem_of_cons. split.
  - intros [[? ?] Hz]. split; [done|]. intros z [->|?]; [done|by apply Hz].
  - intros [? Hz]. split; [split; [done|apply Hz; by left]|]. intros z ?. apply Hz. by right.
Qed.

(** A set of members: ascending, and every member has an ID. *)
Definition set_ok (m : members T) : Prop := ascending (items (DedupTree m)) /\ forall y, y ∈ items (DedupTree m) -> al_ID y <> [].

(** The members that are in one set and not in another. *)
Definition only_in (a b : members T) (y : AgentLoc) : Prop :=
  y ∈ items (DedupTree a) /\ forall z, z ∈ items (DedupTree b) -> alocEqual z y = false.

Lemma setDiff_ok a b y : set_ok a -> set_ok b -> y ∈ items (DedupTree (setDiff a b)) <-> only_in a b y.
Proof.
  intros [Ha Ha'] [Hb Hb']. unfold setDiff, only_in. cbn. destruct (rt_clone_ok (DedupTree a) Ha) as [H1 H2].
  destruct (delete_all_ok (AscendLessThan zero_loc (DedupTree b)) _ H1) as [_ ->]. rewrite H2. split.
  - intros [[? _] Hz]. split; [done|]. intros z Hzb. apply Hz. apply elem_of_ascend. auto.
  - intros [? Hz]. split; [auto|]. intros z [? _]%elem_of_ascend. auto.
Qed.

Lemma setEmpty_ok m : setEmpty m = false <-> exists y, y ∈ items (DedupTree m).
Proof.
  unfold setEmpty, Len. rewrite bool_decide_eq_false. destruct (items (DedupTree m)) as [|y l]; split; try done.
  - intros (y & []%not_elem_of_nil).
  - intros _. exists y. set_solver.
Qed.

(** Equal sets have no differences. *)
Lemma setsEqual_ok a b : set_ok a -> set_ok b -> setsEqual a b = true -> forall y, ~ only_in a b y /\ ~ only_in b a y.
Proof.
  intros [Ha Ha'] [Hb Hb']. unfold setsEqual, Len. destruct (Nat.eqb_spec (length (items (DedupTree a))) (length (items (DedupTree b)))) as [El|]; [|done].
  cbn [negb]. destruct (Nat.eqb_spec (length (items (DedupTree a))) 0) as [E0|E0].
  { intros _ y. rewrite E0 in El. symmetry in El. apply nil_length_inv in E0, El. unfold only_in. rewrite E0, El.
    split; intros [[]%not_elem_of_nil _]. }
  intros Hall. rewrite forallb_forall in Hall.
  destruct (covered (items (DedupTree a)) (items (DedupTree b)) Ha Hb) as [_ Hc].
  { intros x Hx. specialize (Hall x). unfold Has in Hall. rewrite existsb_exists in Hall.
    destruct Hall as (z & Hz & E); [apply list_elem_of_In, elem_of_ascend; auto|]. exists z. by rewrite list_elem_of_In. }
  specialize (Hc El). intros y. unfold only_in. split; intros [Hy Hz].
  - apply list_elem_of_lookup in Hy as [i Hi]. destruct (Forall2_lookup_l _ _ _ _ _ Hc Hi) as (z & Hzi & E).
    rewrite alocEqual_sym in E. rewrite Hz in E; [done|]. by eapply list_elem_of_lookup_2.
  - apply list_elem_of_lookup in Hy as [i Hi]. destruct (Forall2_lookup_r _ _ _ _ _ Hc Hi) as (z & Hzi & E).
    rewrite Hz in E; [done|]. by eapply list_elem_of_lookup_2.
Qed.
End sets.

(** ** A tree that satisfies the laws *)

Fixpoint sorted_insert (x : AgentLoc) (l : list AgentLoc) : list AgentLoc :=
  match l with
  | [] => [x]
  | y :: l' => if AgentLocLessThan x y then x :: l else if AgentLocLessThan y x then y :: sorted_insert x l' else x :: l'
  end.

Definition sorted_delete (x : AgentLoc) (l : list AgentLoc) : list AgentLoc := filter (fun y => alocEqual x y = false) l.

#[export] Instance list_BTree : BTree (list AgentLoc) := {|
  bt_New := []; ReplaceOrInsert := sorted_insert; Delete := sorted_delete; items := id
|}.

Lemma elem_of_sorted_insert x l y : ascending l ->
  y ∈ sorted_insert x l <-> y = x \/ (y ∈ l /\ alocEqual x y = false).
Proof.
  intros Hs. induction l as [|z l IH]; cbn; [set_solver|]. pose proof (StronglySorted_inv Hs) as [Hs' _].
  assert (forall w, AgentLocLessThan x z = true -> w ∈ z :: l -> alocEqual x w = false) as Hx.
  { intros w Hxz [->|Hw]%elem_of_cons; apply (less_not_equal x); [done|]. eapply (sw_trans _ less_strict); [exact Hxz|]. by eapply ascending_less. }
  destruct (AgentLocLessThan x z) eqn:E1; [|destruct (AgentLocLessThan z x) eqn:E2].
  - rewrite elem_of_cons. split; [|tauto]. intros [->|Hy]; [by left|right]. split; [done|]. by apply Hx.
  - rewrite !elem_of_cons, (IH Hs'). apply less_not_equal in E2 as [_ E2].
    split; [intros [->|[->|[? ?]]]; auto|intros [->|[[->|?] ?]]; auto].
  - assert (alocEqual x z = true) as E by (unfold alocEqual; by rewrite E1, E2).
    rewrite !elem_of_cons. split; [|intros [->|[[->|?] Hf]]; [by left|congruence|by right]].
    intros [->|Hy]; [by left|right]. split; [by right|].
    pose proof (ascending_less _ _ _ Hs Hy) as Hl. apply less_not_equal in Hl as [Hl _].
    by rewrite <- (alocEqual_trans _ _ y E).
Qed.

Lemma sorted_insert_sorted x l : ascending l -> ascending (sorted_insert x l).
Proof.
  intros Hs. induction l as [|z l IH]; cbn; [repeat constructor|]. pose proof (StronglySorted_inv Hs) as [Hs' Hf].
  destruct (AgentLocLessThan x z) eqn:E1; [|destruct (AgentLocLessThan z x) eqn:E2].
  - constructor; [done|]. constructor; [done|]. eapply Forall_impl; [exact Hf|]. intros w Hw. cbv beta in *. by eapply (sw_trans _ less_strict).
  - constructor; [by apply IH|]. apply Forall_forall. intros w [->|[Hw _]]%elem_of_sorted_insert; [done|by eapply ascending_less|done].
  - constructor; [done|]. eapply Forall_impl; [exact Hf|]. intros w Hw. cbv beta in *.
    rewrite (alocEqual_less x z w); [done|]. unfold alocEqual. by rewrite E1, E2.
Qed.

#[export] Instance list_BTreeLaws : BTreeLaws (list AgentLoc).
Proof.
  split; cbn; unfold id; [done|intros; by apply sorted_insert_sorted|intros; by apply elem_of_sorted_insert|..].
  - intros x l. apply ascending_filter.
  - intros x l y _. unfold sorted_delete. rewrite list_elem_of_filter. tauto.
Qed.
