(* ===== verification/HealthElect.v ===== *)
(** * HealthElect: what the election guarantees

    The invariant of an agent over all runs, what a heartbeat does to the
    leader and reports of the members, when two agents agree, and a run in
    which they do not. *)

From stdpp Require Import sorting.
From S2P Require Import Prelude RingBuf Health HealthSpec.
Local Open Scope Z_scope.

(** The durations make sense, and the clock is after 1970 and before the end
    of [UnixNano]. *)
Definition cfg_ok (cfg : MembershipCfg) : Prop := 0 <= cf_MaxClockSkew cfg < 2 ^ 63 /\ 0 < cf_LeaseTime cfg.
Definition time_ok (cfg : MembershipCfg) (now : Z) : Prop := 0 <= now /\ now + cf_LeaseTime cfg < 2 ^ 63.

Section elect.
Context {T : Type} `{BTreeLaws T}.
Implicit Types (m : Membership T).

(** ** The invariant *)

Abbreviation leader m := (lh_sloc (ms_elec m)).
Abbreviation history m := (lh_history (ms_elec m)).

(** Who has answered since the last heartbeat, with an ID. *)
Definition candidate m (y : AgentLoc) : Prop := y ∈ items (DedupTree (ms_fromNoTime m)) /\ al_ID y <> [].

Record agent_ok m : Prop := {
  ao_cfg : cfg_ok (ms_Cfg m);
  ao_pongs : ascending (items (DedupTree (ms_fromNoTime m)));
  ao_prev : set_ok (ms_prevMember m);
  ao_lead : leader m = zero_loc \/ (al_ID (leader m) <> [] /\ in_int64 (al_LeaseExpires (leader m)));
  ao_ring : ring_ok (history m) /\ (0 < rb_N (history m))%nat;
}.

(** The history takes what fits. *)
Lemma Append_takes {A} (x : A) (b : ring A) : ring_ok b -> exists b' err, Append x b = Some (b', err) /\ ring_ok b' /\
  rb_N b' = rb_N b /\ contents b' = take (rb_N b) (contents b ++ [x]).
Proof.
  intros Hb. pose proof (length_contents b Hb) as Hl. pose proof (rk_readable _ Hb) as Hr.
  destruct (decide (rb_Readable b = rb_N b)) as [E|E].
  - rewrite Append_full by done. eexists _, _. split; [done|]. split_and!; [done..|]. rewrite take_app_le, take_ge by lia. done.
  - destruct (Append_ok x b Hb ltac:(lia)) as (b' & -> & Ho & HN & Hc). eexists _, _. split; [done|]. split_and!; [done..|].
    rewrite take_ge; [done|]. rewrite length_app, Hl. cbn. lia.
Qed.

(** A leader whose lease has run out gives way. *)
Lemma setLeader_expired m sloc now : agent_ok m -> al_ID sloc <> [] -> 0 <= now < al_LeaseExpires sloc ->
  al_LeaseExpires sloc < 2 ^ 63 -> al_LeaseExpires (leader m) <= now ->
  exists e, setLeader sloc now (ms_elec m) = Some (e, true, sloc) /\ lh_sloc e = sloc /\
    lh_myLocHasBeenSet e = lh_myLocHasBeenSet (ms_elec m) /\
    ring_ok (lh_history e) /\ rb_N (lh_history e) = rb_N (history m) /\
    contents (lh_history e) = take (rb_N (history m)) (contents (history m) ++ [Some sloc]).
Proof.
  intros Hm Hid Hnow Hl Hexp. unfold setLeader. rewrite bool_decide_false by done.
  assert (UnixNano now = now) as -> by (apply wrap64_id; unfold in_int64; lia).
  assert (UnixNano (al_LeaseExpires sloc) = al_LeaseExpires sloc) as -> by (apply wrap64_id; unfold in_int64; lia).
  rewrite (proj2 (Z.leb_gt (al_LeaseExpires sloc) now)) by lia. rewrite andb_false_r.
  assert (UnixNano (al_LeaseExpires (leader m)) <= now) as Hc.
  { destruct (ao_lead _ Hm) as [->|[_ Hr]]; [change (UnixNano (al_LeaseExpires zero_loc)) with (-6795364578871345152); lia|]. unfold UnixNano. rewrite wrap64_id by done. done. }
  rewrite (proj2 (Z.leb_le _ _)) by done. cbn. unfold accept.
  destruct (Append_takes (Some sloc) (history m)) as (b' & err & -> & Ho & HN & HC); [apply (ao_ring _ Hm)|]. cbn.
  eexists. split; [done|]. done.
Qed.

(** ** A heartbeat *)

Lemma late_frame_of late m : exists n t, 
  foldl (fun m loc => pc_insert loc (on_pongs 1 id m)) m late =
  MkMembership (ms_Cfg m) n t (ms_elec m) (ms_myLoc m) (ms_prevMember m).
Proof.
  revert m. induction late as [|x late IH]; intros m; cbn; [destruct m; by eexists _, _|].
  destruct (IH (pc_insert x (on_pongs 1 id m))) as (n & t & ->). by eexists _, _.
Qed.

(** The members of the round, and the agent that goes on with its own location
    as the only answer: pongs that arrive in between are lost. *)
Lemma getSetAndClear_ok late m : agent_ok m -> exists m' ,
  getSetAndClear late m = (m', Len (DedupTree (mem_clone (ms_fromNoTime m))), mem_clone (ms_fromNoTime m)) /\
  agent_ok m' /\ ms_Cfg m' = ms_Cfg m /\ ms_elec m' = ms_elec m /\ ms_myLoc m' = ms_myLoc m /\ ms_prevMember m' = ms_prevMember m /\
  (forall y, y ∈ items (DedupTree (ms_fromNoTime m')) <-> y = getMyLocWithZeroLease m).
Proof.
  intros [H1 H2 H3 H4 H5]. unfold getSetAndClear. destruct (late_frame_of late m) as (n & t & ->). eexists. split; [done|].
  assert (ascending (items (newRanktree : T))) as Hnew by (unfold newRanktree; rewrite items_New; constructor).
  split_and!; [split; cbn; [done|by apply items_insert_sorted|done..]|done..|].
  cbn. intros y. unfold rt_insert. rewrite elem_of_insert by done. unfold newRanktree. rewrite items_New, elem_of_nil.
  unfold getMyLocWithZeroLease. cbn. unfold with_lease. cbn. tauto.
Qed.

Lemma clone_candidates m : agent_ok m -> set_ok (mem_clone (ms_fromNoTime m)) /\
  forall y, y ∈ items (DedupTree (mem_clone (ms_fromNoTime m))) <-> candidate m y.
Proof.
  intros Hm. destruct (rt_clone_ok _ (ao_pongs _ Hm)) as [H1' H2']. split; [split; [done|]|done].
  intros y. cbn. rewrite H2'. tauto.
Qed.

(** The best of the candidates. *)
Definition best m (x : AgentLoc) : Prop := candidate m x /\ forall y, candidate m y -> y = x \/ AgentLocLessThan x y = true.

Lemma best_unique m1 m2 x1 x2 : (forall y, candidate m1 y <-> candidate m2 y) -> best m1 x1 -> best m2 x2 -> x1 = x2.
Proof.
  intros E [Hc1 H1'] [Hc2 H2']. destruct (H1' x2 ltac:(by apply E)) as [->|L1]; [done|].
  destruct (H2' x1 ltac:(by apply E)) as [->|L2]; [done|].
  pose proof (sw_trans _ less_strict _ _ _ L1 L2) as L. by rewrite (sw_irrefl _ less_strict) in L.
Qed.

(** The outcome of the check of the lease. *)
Inductive outcome (m : Membership T) (now : Z) : bool -> AgentLoc -> Prop :=
| honored : now < al_LeaseExpires (leader m) + cf_MaxClockSkew (ms_Cfg m) -> outcome m now false (leader m)
| nobody : al_LeaseExpires (leader m) + cf_MaxClockSkew (ms_Cfg m) <= now -> (forall y, ~ candidate m y) -> outcome m now false (leader m)
| elected x : al_LeaseExpires (leader m) + cf_MaxClockSkew (ms_Cfg m) <= now -> best m x ->
    outcome m now true (with_lease (now + cf_LeaseTime (ms_Cfg m)) x).

Lemma leaseCheck_ok m now : agent_ok m -> exists expired lead,
  leaderLeaseCheck (mem_clone (ms_fromNoTime m)) now (cf_LeaseTime (ms_Cfg m)) (leader m) (cf_MaxClockSkew (ms_Cfg m)) = Some (expired, lead) /\
  outcome m now expired lead.
Proof.
  intros Hm. destruct (clone_candidates m Hm) as [[Hs Hid] Hc]. unfold leaderLeaseCheck.
  destruct (Z.ltb_spec now (al_LeaseExpires (leader m) + cf_MaxClockSkew (ms_Cfg m))) as [Hl|Hl]; [by eexists _, _; split; [|constructor]|].
  destruct (Nat.eqb_spec (Len (DedupTree (mem_clone (ms_fromNoTime m)))) 0) as [E|E].
  - eexists _, _. split; [done|]. constructor; [done|]. intros y Hy%Hc. unfold Len in E. apply nil_length_inv in E. rewrite E in Hy. by apply elem_of_nil in Hy.
  - destruct (minrank (DedupTree (mem_clone (ms_fromNoTime m)))) as [x|] eqn:Ex.
    + eexists _, _. split; [done|]. constructor; [done|]. destruct (minrank_ok _ _ Hs Ex) as [Hx Hmin].
      split; [by apply Hc|]. intros y Hy. apply Hmin. by apply Hc.
    + unfold minrank, Min, Len in *. destruct (items _); done.
Qed.

Lemma elem_of_changes (prev cur : members T) r : r ∈ changes false prev cur <-> setsEqual prev cur = false /\
  ((setEmpty (setDiff prev cur) = false /\ r = MemberLost (setDiff prev cur)) \/
   (setEmpty (setDiff cur prev) = false /\ r = MemberAdded (setDiff cur prev))).
Proof.
  unfold changes. destruct (setsEqual _ _), (setEmpty (setDiff prev cur)), (setEmpty (setDiff cur prev));
    cbn; rewrite ?elem_of_cons, ?elem_of_nil; intuition congruence.
Qed.

(** The differences of the sets are what is published. *)
Lemma changes_ok (prev cur : members T) y : set_ok prev -> set_ok cur ->
  ((exists l, MemberLost l ∈ changes false prev cur /\ y ∈ items (DedupTree l)) <-> only_in prev cur y) /\
  ((exists l, MemberAdded l ∈ changes false prev cur /\ y ∈ items (DedupTree l)) <-> only_in cur prev y).
Proof.
  intros Hp Hc. split; split.
  - intros (l & [_ [[_ [= ->]]|[_ ?]]]%elem_of_changes & Hy); [|done]. by apply setDiff_ok.
  - intros Hy. exists (setDiff prev cur). rewrite setDiff_ok, elem_of_changes by done. split; [|done]. split.
    + apply not_true_iff_false. intros Hs. by destruct (setsEqual_ok prev cur Hp Hc Hs y).
    + left. split; [|done]. apply setEmpty_ok. exists y. by apply setDiff_ok.
  - intros (l & [_ [[_ ?]|[_ [= ->]]]]%elem_of_changes & Hy); [done|]. by apply setDiff_ok.
  - intros Hy. exists (setDiff cur prev). rewrite setDiff_ok, elem_of_changes by done. split; [|done]. split.
    + apply not_true_iff_false. intros Hs. by destruct (setsEqual_ok prev cur Hp Hc Hs y).
    + right. split; [|done]. apply setEmpty_ok. exists y. by apply setDiff_ok.
Qed.

Lemma beat_ok now late m : agent_ok m -> time_ok (ms_Cfg m) now -> exists m' expired lead listing,
  beat now late m = Some (m', changes (cf_deaf (ms_Cfg m)) (ms_prevMember m) (mem_clone (ms_fromNoTime m)) ++ listing) /\
  agent_ok m' /\ ms_Cfg m' = ms_Cfg m /\ ms_myLoc m' = ms_myLoc m /\ 
  lh_myLocHasBeenSet (ms_elec m') = lh_myLocHasBeenSet (ms_elec m) /\
  DedupTree (ms_prevMember m') = DedupTree (mem_clone (ms_fromNoTime m)) /\
  outcome m now expired lead /\ leader m' = lead /\ rb_N (history m') = rb_N (history m) /\
  contents (history m') = (if expired then take (rb_N (history m)) (contents (history m) ++ [Some lead]) else contents (history m)) /\
  listing = (if expired && negb (cf_deaf (ms_Cfg m)) then [Listing (MkMembers (DedupTree (mem_clone (ms_fromNoTime m))) (al_ID lead))] else []).
Proof.
  intros Hm [Ht1 Ht2]. destruct (clone_candidates m Hm) as [Hset Hcand]. destruct (ao_cfg _ Hm) as [Hc1 Hc2].
  unfold beat, elect. destruct (getSetAndClear_ok late m Hm) as (m1 & -> & Hm1 & Ecfg & Eelec & Eloc & Eprev & _). rewrite Ecfg.
  destruct (leaseCheck_ok m now Hm) as (expired & lead & E & Hout). rewrite E. cbn [mbind option_bind].
  destruct expired.
  - assert (exists x, best m x /\ lead = with_lease (now + cf_LeaseTime (ms_Cfg m)) x /\ al_LeaseExpires (leader m) <= now) as (x & Hx & -> & Hexp).
    { inversion Hout; subst. eexists. split; [done|]. split; [done|lia]. }
    destruct (setLeader_expired m1 (with_lease (now + cf_LeaseTime (ms_Cfg m)) x) now) as (e & Es & E1 & E2 & E3 & E4 & E5); cbn; try done.
    { apply Hx. } { lia. } { rewrite Eelec. done. }
    cbn in Es. rewrite Es. cbn [mbind option_bind]. eexists _, true, _, _. split; [cbn; by rewrite Ecfg, Eprev|].
    rewrite Eelec in E2, E4, E5. split_and!; try done; cbn; rewrite ?E4; try done.
    split; cbn; [by rewrite Ecfg|apply (ao_pongs _ Hm1)|done| |].
    + right. rewrite E1. cbn. split; [apply Hx|]. unfold in_int64. lia.
    + split; [done|]. rewrite E4. apply (ao_ring _ Hm).
  - eexists _, false, _, _. split; [cbn; by rewrite Ecfg, Eprev|]. rewrite <- Eelec. split_and!; try done.
    + destruct Hm1. split; cbn; try done.
    + cbn. rewrite Eelec. by inversion Hout.
Qed.

(** ** Runs *)

Definition ev_ok (cfg : MembershipCfg) (ev : hevent) : Prop :=
  match ev with EvBeat now _ => time_ok cfg now | _ => True end.

(** The events of an agent with a configuration, whose times make sense. *)
Definition runs (cfg : MembershipCfg) (evs : list hevent) m : Prop :=
  cfg_ok (SetDefaults cfg) /\ Forall (ev_ok (SetDefaults cfg)) evs /\ hrun evs (NewMembership cfg) = Some m.

(** A leader that a step brings. *)
Definition news m m' : list AgentLoc := if decide (leader m' = leader m) then [] else [leader m'].

Fixpoint leaders (evs : list hevent) m : list AgentLoc :=
  match evs with
  | [] => []
  | ev :: evs => match hstep ev m with None => [] | Some m' => news m m' ++ leaders evs m' end
  end.

(** The connections that were set up. *)
Definition connects (ev : hevent) : bool := match ev with EvReconnect (Some _) _ => true | _ => false end.

Lemma setLoc_ok loc pid m m' : agent_ok m -> setLoc loc pid m = Some m' ->
  agent_ok m' /\ ms_Cfg m' = ms_Cfg m /\ leader m' = leader m /\ history m' = history m /\
  lh_myLocHasBeenSet (ms_elec m) = false /\ lh_myLocHasBeenSet (ms_elec m') = true.
Proof.
  intros [H1 H2 H3 H4 H5]. unfold setLoc, setMyLoc. destruct (lh_myLocHasBeenSet (ms_elec m)); [done|]. cbn. intros [= <-].
  split_and!; done.
Qed.

Lemma hstep_ok ev m m' : agent_ok m -> ev_ok (ms_Cfg m) ev -> hstep ev m = Some m' ->
  agent_ok m' /\ ms_Cfg m' = ms_Cfg m /\ rb_N (history m') = rb_N (history m) /\
  contents (history m') = take (rb_N (history m)) (contents (history m) ++ (Some <$> news m m')) /\
  lh_myLocHasBeenSet (ms_elec m') = lh_myLocHasBeenSet (ms_elec m) || connects ev.
Proof.
  intros Hm Hev E. assert (Hsame : leader m' = leader m -> history m' = history m ->
    rb_N (history m') = rb_N (history m) /\ contents (history m') = take (rb_N (history m)) (contents (history m) ++ (Some <$> news m m'))).
  { intros E1 E2. unfold news. rewrite E1, E2, decide_True by done. cbn. rewrite app_nil_r, take_ge; [done|].
    rewrite length_contents by apply (ao_ring _ Hm). apply (ao_ring _ Hm). }
  destruct ev as [loc|loc|now late|loc pid]; cbn [hstep] in E.
  - destruct (cf_deaf _).
    { injection E as <-. rewrite orb_false_r. split_and!; try done; by apply Hsame. }
    destruct loc as [loc|]; [|done]. cbn in E. injection E as <-.
    split_and!; try done; try (by apply Hsame); [|by rewrite orb_false_r].
    destruct Hm as [H1 H2 H3 H4 H5]. split; cbn; try done. by apply items_insert_sorted.
  - destruct (receiveAllCall _ _); [|done]. injection E as <-. rewrite orb_false_r. split_and!; try done; by apply Hsame.
  - destruct (beat_ok now late m Hm Hev) as (m1 & expired & lead & listing & Eb & Hm1 & H1 & _ & H3 & _ & Hout & H5 & H6 & H7 & _).
    rewrite Eb in E. cbn in E. injection E as <-. rewrite orb_false_r. split_and!; try done. rewrite H7. unfold news. rewrite H5.
    destruct expired.
    + rewrite decide_False; [done|]. destruct (ao_cfg _ Hm) as [Hc1 Hc2]. inversion Hout as [| |x Hx Hb]. intros El. apply (f_equal al_LeaseExpires) in El. cbn in El. lia.
    + rewrite decide_True by (by inversion Hout). cbn. rewrite app_nil_r, take_ge; [done|].
      rewrite length_contents by apply (ao_ring _ Hm). apply (ao_ring _ Hm).
  - unfold setupNatsClient in E. destruct loc as [loc|]; cbn in E.
    + destruct (setLoc _ _ _) as [m1|] eqn:Es; [|done]. cbn in E. injection E as <-.
      destruct (setLoc_ok _ _ _ _ Hm Es) as (Hm1 & H1 & H2 & H3 & H4 & H5). rewrite H4. split_and!; try done; by apply Hsame.
    + injection E as <-. rewrite orb_false_r. split_and!; try done; by apply Hsame.
Qed.

Lemma new_ok cfg : cfg_ok (SetDefaults cfg) -> agent_ok (NewMembership cfg) /\ contents (history (NewMembership cfg)) = [] /\
  lh_myLocHasBeenSet (ms_elec (NewMembership cfg)) = false.
Proof.
  intros Hc. assert (items (newRanktree : T) = []) as E by (unfold newRanktree; apply items_New).
  split_and!; [|done..]. split; cbn; try done.
  - rewrite E. constructor.
  - split; cbn; rewrite E; [constructor|]. intros y []%not_elem_of_nil.
  - by left.
  - split; [apply newRingBuf_ok|]. cbn. case_decide; lia.
Qed.

Lemma hrun_ok evs m m' : agent_ok m -> Forall (ev_ok (ms_Cfg m)) evs -> hrun evs m = Some m' ->
  agent_ok m' /\ ms_Cfg m' = ms_Cfg m /\ 
  contents (history m') = take (rb_N (history m)) (contents (history m) ++ (Some <$> leaders evs m)) /\
  lh_myLocHasBeenSet (ms_elec m') = lh_myLocHasBeenSet (ms_elec m) || existsb connects evs.
Proof.
  revert m. induction evs as [|ev evs IH]; intros m Hm Hev E; cbn in E |- *.
  { injection E as <-. rewrite orb_false_r. cbn. rewrite app_nil_r, take_ge; [done|].
    rewrite length_contents by apply (ao_ring _ Hm). apply (ao_ring _ Hm). }
  apply Forall_cons in Hev as [He Hev]. destruct (hstep ev m) as [m1|] eqn:E1; [|done]. cbn in E.
  destruct (hstep_ok ev m m1 Hm He E1) as (Hm1 & Hcfg & HN & Hc & Hset). rewrite <- Hcfg in Hev.
  destruct (IH m1 Hm1 Hev E) as (Hm' & Hcfg' & Hc' & Hset'). split; [done|]. split; [congruence|]. split.
  - rewrite Hc', HN, Hc. rewrite fmap_app, app_assoc. set (l := contents (history m) ++ (Some <$> news m m1)).
    set (r := Some <$> leaders evs m1). set (n := rb_N (history m)). clearbody l r n.
    destruct (Nat.le_ge_cases (length l) n) as [Hl|Hl].
    + by rewrite (take_ge l).
    + rewrite !take_app_le by (rewrite ?length_take; lia). rewrite take_take. by rewrite Nat.min_id.
  - by rewrite Hset', Hset, orb_assoc.
Qed.

Lemma runs_ok cfg evs m : runs cfg evs m -> agent_ok m /\ ms_Cfg m = SetDefaults cfg /\
  contents (history m) = take (rb_N (history (NewMembership cfg : Membership T))) (Some <$> leaders evs (NewMembership cfg)) /\
  lh_myLocHasBeenSet (ms_elec m) = existsb connects evs.
Proof. intros (Hc & Hev & E). destruct (new_ok cfg Hc) as (Hn & Hh & Hs). by apply (hrun_ok evs _ m Hn Hev). Qed.

(** ** What the election guarantees *)

(** C13. A round of the election: as long as the lease of its leader, with the
    clock skew, has not run out, an agent keeps the leader; afterwards the
    next heartbeat with an answer elects the best of the agents that have
    answered, in the order of rank, ID, host, port and process, with a fresh
    lease; without an answer the leader stays.  A heartbeat never panics. *)
Theorem election_round cfg evs m now late : runs cfg evs m -> time_ok (SetDefaults cfg) now ->
  let expires := al_LeaseExpires (leader m) + cf_MaxClockSkew (SetDefaults cfg) in
  exists m' reports, beat now late m = Some (m', reports) /\
  (now < expires -> leader m' = leader m) /\
  (expires <= now -> (forall y, ~ candidate m y) -> leader m' = leader m) /\
  (expires <= now -> (exists y, candidate m y) -> exists x, best m x /\ leader m' = with_lease (now + cf_LeaseTime (SetDefaults cfg)) x).
Proof.
  intros Hr Ht. destruct (runs_ok _ _ _ Hr) as (Hm & Ec & _). rewrite <- Ec in *.
  destruct (beat_ok now late m Hm Ht) as (m' & expired & lead & listing & Eb & _ & _ & _ & _ & _ & Hout & El & _).
  eexists _, _. split; [exact Eb|]. rewrite El. inversion Hout as [Hl|Hl Hn|x Hl Hx]; subst; split_and!; try done; try (intros; lia).
  - intros _ [y Hy]. by destruct (Hn y).
  - intros _ Hn. destruct (Hn x). apply Hx.
  - intros _ _. by exists x.
Qed.

(** C14. Agreement: two agents whose leases have run out and that have heard the
    same agents elect the same one, whatever their clocks say, however they
    are configured, and whatever happened before. *)
Theorem election_agreement cfg1 evs1 m1 now1 late1 cfg2 evs2 m2 now2 late2 :
  runs cfg1 evs1 m1 -> time_ok (SetDefaults cfg1) now1 -> runs cfg2 evs2 m2 -> time_ok (SetDefaults cfg2) now2 ->
  (forall y, candidate m1 y <-> candidate m2 y) -> (exists y, candidate m1 y) ->
  al_LeaseExpires (leader m1) + cf_MaxClockSkew (SetDefaults cfg1) <= now1 ->
  al_LeaseExpires (leader m2) + cf_MaxClockSkew (SetDefaults cfg2) <= now2 ->
  exists m1' r1 m2' r2, beat now1 late1 m1 = Some (m1', r1) /\ beat now2 late2 m2 = Some (m2', r2) /\
    al_ID (leader m1') <> [] /\ with_lease zero_time (leader m1') = with_lease zero_time (leader m2').
Proof.
  intros Hr1 Ht1 Hr2 Ht2 Hc [y Hy] He1 He2.
  destruct (runs_ok _ _ _ Hr1) as (Hm1 & Ec1 & _). destruct (runs_ok _ _ _ Hr2) as (Hm2 & Ec2 & _). rewrite <- Ec1 in *. rewrite <- Ec2 in *.
  destruct (beat_ok now1 late1 m1 Hm1 Ht1) as (m1' & x1 & l1 & li1 & -> & _ & _ & _ & _ & _ & Ho1 & El1 & _).
  destruct (beat_ok now2 late2 m2 Hm2 Ht2) as (m2' & x2 & l2 & li2 & -> & _ & _ & _ & _ & _ & Ho2 & El2 & _).
  eexists _, _, _, _. split; [done|]. split; [done|]. rewrite El1, El2.
  inversion Ho1 as [?|? Hn|b1 ? Hb1]; subst; [lia|by destruct (Hn y)|].
  inversion Ho2 as [?|? Hn|b2 ? Hb2]; subst; [lia|by destruct (Hn y); apply Hc|].
  rewrite (best_unique _ _ _ _ Hc Hb1 Hb2). split; [apply Hb2|done].
Qed.

(** C26. Reports of the members: an agent that is not deaf reports exactly the
    members it heard in the round before and not in this one as lost, and
    exactly the new ones as added; a deaf one reports nothing. *)
Theorem membership_reports cfg evs m now late m' reports : runs cfg evs m -> time_ok (SetDefaults cfg) now ->
  beat now late m = Some (m', reports) ->
  (forall y, y ∈ items (DedupTree (ms_prevMember m')) <-> candidate m y) /\
  (cf_deaf cfg = true -> reports = []) /\
  (cf_deaf cfg = false -> forall y,
    ((exists l, MemberLost l ∈ reports /\ y ∈ items (DedupTree l)) <-> only_in (ms_prevMember m) (ms_prevMember m') y) /\
    ((exists l, MemberAdded l ∈ reports /\ y ∈ items (DedupTree l)) <-> only_in (ms_prevMember m') (ms_prevMember m) y)).
Proof.
  intros Hr Ht Eb. destruct (runs_ok _ _ _ Hr) as (Hm & Ec & _). rewrite <- Ec in Ht. destruct (clone_candidates m Hm) as [Hcur Hcand].
  destruct (beat_ok now late m Hm Ht) as (m1 & expired & lead & listing & Eb' & _ & _ & _ & _ & Et & _ & _ & _ & _ & Eli).
  rewrite Eb' in Eb. injection Eb as -> <-. rewrite Et. rewrite Ec in *. change (cf_deaf (SetDefaults cfg)) with (cf_deaf cfg) in *.
  split; [done|]. split.
  { intros Ed. rewrite Eli, Ed, andb_false_r, app_nil_r. unfold changes. rewrite !andb_false_r. by destruct (setsEqual _ _). }
  intros Ed y. rewrite Ed in *. pose proof (changes_ok _ _ y (ao_prev _ Hm) Hcur) as Hch.
  assert (forall b, only_in (ms_prevMember m') b y <-> only_in (mem_clone (ms_fromNoTime m)) b y) as E1 by (intros; unfold only_in; by rewrite Et).
  assert (forall a, only_in a (ms_prevMember m') y <-> only_in a (mem_clone (ms_fromNoTime m)) y) as E2 by (intros; unfold only_in; by rewrite Et).
  rewrite E1, E2. assert (forall r, r ∈ listing -> exists l, r = Listing l) as Hlist.
  { rewrite Eli. intros r Hin. destruct (_ && _); [apply list_elem_of_singleton in Hin as ->; by eexists|by apply elem_of_nil in Hin]. }
  setoid_rewrite elem_of_app. destruct Hch as [<- <-]. split; split; intros (l & Hl & Hy); exists l; (split; [|done]); auto;
    (destruct Hl as [?|[? ?]%Hlist]; [done|done]).
Qed.

(** When an agent panics: on a pong that does not decode, on an allcall
    when its server answers with another location, and on every connection
    after the first, also the one that repairs a lost connection; on
    nothing else. *)
Theorem agent_panics_exactly cfg evs m ev : runs cfg evs m -> ev_ok (SetDefaults cfg) ev ->
  hstep ev m = None <->
  match ev with
  | EvPong loc => cf_deaf cfg = false /\ loc = None
  | EvAllCall loc => cf_deaf cfg = false /\ exists l, loc = Some l /\ locDifferent (getNatsServerLocation m l) m = true
  | EvBeat _ _ => False
  | EvReconnect loc _ => loc <> None /\ existsb connects evs = true
  end.
Proof.
  intros Hr Hev. destruct (runs_ok _ _ _ Hr) as (Hm & Ec & _ & Hset). destruct ev as [loc|loc|now late|loc pid]; cbn [hstep].
  - rewrite Ec. cbn. destruct (cf_deaf cfg), loc; cbn; intuition congruence.
  - unfold receiveAllCall. rewrite Ec. cbn. destruct (cf_deaf cfg), loc as [l|]; cbn; try (split; [done|intros [? (? & ? & ?)]; congruence]).
    destruct (locDifferent _ _) eqn:E; cbn; split; try done.
    + intros _. split; [done|]. by exists l.
    + intros [_ (l' & [= <-] & E')]. congruence.
  - rewrite <- Ec in Hev. destruct (beat_ok now late m Hm Hev) as (m' & x & l & li & -> & _). done.
  - unfold setupNatsClient, setLoc, setMyLoc. rewrite <- Hset. destruct loc, (lh_myLocHasBeenSet (ms_elec m)); cbn; intuition congruence.
Qed.

(** Leaders whose leases do not overlap: each is elected, for [lease], when the
    lease of the one before has run out for longer than the clock skew. *)
Fixpoint apart (skew lease : Z) (prev : AgentLoc) (l : list AgentLoc) : Prop :=
  match l with
  | [] => True
  | x :: l => al_ID x <> [] /\ al_LeaseExpires prev + skew <= al_LeaseExpires x - lease /\ apart skew lease x l
  end.

Lemma hstep_leader ev m m' : agent_ok m -> ev_ok (ms_Cfg m) ev -> hstep ev m = Some m' ->
  leader m' = leader m \/ (al_ID (leader m') <> [] /\
    al_LeaseExpires (leader m) + cf_MaxClockSkew (ms_Cfg m) <= al_LeaseExpires (leader m') - cf_LeaseTime (ms_Cfg m)).
Proof.
  intros Hm Hev E. destruct ev as [loc|loc|now late|loc pid]; cbn [hstep] in E.
  - destruct (cf_deaf _), loc; cbn in E; simplify_eq; by left.
  - destruct (receiveAllCall _ _); [|done]. injection E as <-. by left.
  - destruct (beat_ok now late m Hm Hev) as (m1 & x & l & li & Eb & _ & _ & _ & _ & _ & Hout & El & _).
    rewrite Eb in E. injection E as <-. rewrite El. inversion Hout as [|?|y Hy Hb]; [by left..|right]. cbn. split; [apply Hb|lia].
  - unfold setupNatsClient in E. destruct loc as [loc|]; cbn in E; [|injection E as <-; by left].
    destruct (setLoc _ _ _) as [m1|] eqn:Es; [|done]. injection E as <-. left. by apply (setLoc_ok _ _ _ _ Hm Es).
Qed.

Lemma hrun_leaders evs m m' : agent_ok m -> Forall (ev_ok (ms_Cfg m)) evs -> hrun evs m = Some m' ->
  leader m' = default (leader m) (last (leaders evs m)) /\
  apart (cf_MaxClockSkew (ms_Cfg m)) (cf_LeaseTime (ms_Cfg m)) (leader m) (leaders evs m).
Proof.
  revert m. induction evs as [|ev evs IH]; intros m Hm Hev E; cbn in E |- *; [by injection E as <-|].
  apply Forall_cons in Hev as [He Hev]. destruct (hstep ev m) as [m1|] eqn:E1; [|done]. cbn in E.
  destruct (hstep_ok ev m m1 Hm He E1) as (Hm1 & Hcfg & _). rewrite <- Hcfg in Hev.
  destruct (IH m1 Hm1 Hev E) as [IH1 IH2]. rewrite Hcfg in IH2. unfold news. case_decide as Hl.
  { rewrite Hl in *. done. }
  cbn [app apart]. rewrite IH1, last_cons. destruct (hstep_leader ev m m1 Hm He E1) as [?|[Hid Hle]]; [done|]. split; [|done].
  by destruct (last _).
Qed.

(** C27. The leaders of an agent: at every moment of every run the leader is
    the last one elected, the leases of two leaders after each other do not
    overlap, not even by the clock skew, and the history holds the first
    leaders, as many as it has room for: later ones are not recorded. *)
Theorem election_history cfg evs m : runs cfg evs m ->
  let all := leaders evs (NewMembership cfg) in
  leader m = default zero_loc (last all) /\
  apart (cf_MaxClockSkew (SetDefaults cfg)) (cf_LeaseTime (SetDefaults cfg)) zero_loc all /\
  contents (history m) = take (if decide (cf_historyCount cfg = 0%nat) then 100%nat else cf_historyCount cfg) (Some <$> all).
Proof.
  intros Hr. destruct (runs_ok _ _ _ Hr) as (_ & _ & Hh & _). destruct Hr as (Hc & Hev & E). destruct (new_ok cfg Hc) as (Hn & _).
  destruct (hrun_leaders evs _ m Hn Hev E) as [H1 H2]. split_and!; [exact H1|exact H2|exact Hh].
Qed.
End elect.

(** ** Two agents *)

Definition seconds (n : Z) : Z := n * 1000000000.

(** [a] has rank 5, [b] rank 1; the durations are the defaults, a lease of
    12 seconds and a skew of one. *)
Definition cfg_a : MembershipCfg := MkCfg 0 0 5 false 2.
Definition cfg_b : MembershipCfg := MkCfg 0 0 1 false 2.
Definition server_a : ServerLoc := MkServerLoc (bs "a") (bs "host-a") 4222 0.
Definition server_b : ServerLoc := MkServerLoc (bs "b") (bs "host-b") 4222 0.

Definition agent_after (cfg : MembershipCfg) (evs : list hevent) : Membership (list AgentLoc) :=
  default (NewMembership cfg) (hrun evs (NewMembership cfg)).

(** [a] starts alone and elects itself; [b] starts. *)
Definition alone_a : list hevent := [EvReconnect (Some server_a) 1; EvBeat (seconds 10) []; EvBeat (seconds 13) []].
Definition start_b : list hevent := [EvReconnect (Some server_b) 2; EvBeat (seconds 14) []].

(** The pong of an agent. *)
Definition pong_of (m : Membership (list AgentLoc)) : hevent := EvPong (Some (getMyLocWithAnyLease m)).
Definition pongs : list hevent := [pong_of (agent_after cfg_a alone_a); pong_of (agent_after cfg_b start_b)].

Definition run_a : list hevent := alone_a ++ pongs.
Definition run_b : list hevent := start_b ++ pongs.

Lemma runs_a : runs cfg_a run_a (agent_after cfg_a run_a).
Proof. split; [|split]; [vm_compute; done| |vm_compute; reflexivity]. repeat constructor; vm_compute; done. Qed.

Lemma runs_b : runs cfg_b run_b (agent_after cfg_b run_b).
Proof. split; [|split]; [vm_compute; done| |vm_compute; reflexivity]. repeat constructor; vm_compute; done. Qed.

(** Both have heard both. *)
Lemma same_candidates y : candidate (agent_after cfg_a run_a) y <-> candidate (agent_after cfg_b run_b) y.
Proof.
  unfold candidate.
  assert (items (DedupTree (ms_fromNoTime (agent_after cfg_a run_a))) = items (DedupTree (ms_fromNoTime (agent_after cfg_b run_b)))) as ->
    by (vm_compute; reflexivity). done.
Qed.

Lemma some_candidate : exists y, candidate (agent_after cfg_a run_a) y.
Proof.
  exists (with_lease zero_time (getMyLocWithAnyLease (agent_after cfg_b start_b))). split; [|done].
  apply (list_elem_of_lookup_2 _ 0). vm_compute. reflexivity.
Qed.

(** A lease binds nobody else: here [a] holds a lease, its pong to [b]
    carries it, and both agents have heard both.  [b] drops the lease of the
    pong and elects itself, while [a] goes on as the leader: two agents hold
    unexpired leases at the same time, each as its own leader. *)
Theorem two_leaders : exists ma ra mb rb,
  beat (seconds 17) [] (agent_after cfg_a run_a) = Some (ma, ra) /\
  beat (seconds 17) [] (agent_after cfg_b run_b) = Some (mb, rb) /\
  (forall y, candidate (agent_after cfg_a run_a) y <-> candidate (agent_after cfg_b run_b) y) /\
  al_ID (lh_sloc (ms_elec ma)) = bs "a" /\ al_LeaseExpires (lh_sloc (ms_elec ma)) = seconds 25 /\
  al_ID (lh_sloc (ms_elec mb)) = bs "b" /\ al_LeaseExpires (lh_sloc (ms_elec mb)) = seconds 29.
Proof.
  eexists _, _, _, _. split; [vm_compute; reflexivity|]. split; [vm_compute; reflexivity|].
  split; [exact same_candidates|vm_compute; done].
Qed.

(** ** Witnesses *)

Lemma election_round_witness : exists m' reports, beat (seconds 26) [] (agent_after cfg_a run_a) = Some (m', reports) /\
  exists x, best (agent_after cfg_a run_a) x /\ lh_sloc (ms_elec m') = with_lease (seconds 38) x.
Proof.
  destruct (election_round cfg_a run_a (agent_after cfg_a run_a) (seconds 26) [] runs_a) as (m' & rs & E & _ & _ & H).
  - vm_compute. done.
  - exists m', rs. split; [exact E|]. apply H; [vm_compute; done|apply some_candidate].
Defined.

Lemma election_agreement_witness : exists ma ra mb rb,
  beat (seconds 27) [] (agent_after cfg_a run_a) = Some (ma, ra) /\ beat (seconds 31) [] (agent_after cfg_b run_b) = Some (mb, rb) /\
  al_ID (lh_sloc (ms_elec ma)) <> [] /\ with_lease zero_time (lh_sloc (ms_elec ma)) = with_lease zero_time (lh_sloc (ms_elec mb)).
Proof.
  apply (election_agreement cfg_a run_a (agent_after cfg_a run_a) (seconds 27) [] cfg_b run_b (agent_after cfg_b run_b) (seconds 31) []);
    [apply runs_a|vm_compute; done|apply runs_b|vm_compute; done|apply same_candidates|apply some_candidate|vm_compute; done|vm_compute; done].
Defined.

(** [b] is new to [a]. *)
Definition after_17 : Membership (list AgentLoc) * list (report (list AgentLoc)) :=
  default (agent_after cfg_a run_a, []) (beat (seconds 17) [] (agent_after cfg_a run_a)).

Lemma membership_reports_witness : length after_17.2 = 1%nat /\
  forall y, (exists l, MemberAdded l ∈ after_17.2 /\ y ∈ items (DedupTree l)) <->
    only_in (ms_prevMember after_17.1) (ms_prevMember (agent_after cfg_a run_a)) y.
Proof.
  split; [vm_compute; reflexivity|].
  apply (membership_reports cfg_a run_a (agent_after cfg_a run_a) (seconds 17) [] after_17.1 after_17.2 runs_a); vm_compute; done.
Defined.

Lemma agent_panics_exactly_witness : hstep (EvReconnect (Some server_a) 1) (agent_after cfg_a run_a) = None.
Proof.
  apply (agent_panics_exactly cfg_a run_a (agent_after cfg_a run_a) (EvReconnect (Some server_a) 1) runs_a); [done|].
  split; [done|]. vm_compute. reflexivity.
Defined.

Lemma election_history_witness : leaders run_a (NewMembership cfg_a : Membership (list AgentLoc)) <> [] /\
  lh_sloc (ms_elec (agent_after cfg_a run_a)) = default zero_loc (last (leaders run_a (NewMembership cfg_a : Membership (list AgentLoc)))).
Proof.
  split; [vm_compute; done|]. exact (proj1 (election_history cfg_a run_a (agent_after cfg_a run_a) runs_a)).
Defined.
