(* ===== verification/Msgp.v ===== *)
(** * Msgp: the MessagePack primitives

    The functions of the vendored [tinylib/msgp] library that the generated
    serialisers call ([src/vendor/github.com/tinylib/msgp/msgp]): appending and
    reading strings, bytes, integers, booleans, times, nil and the headers of
    maps and arrays, and skipping a value.  A reader takes the rest of the
    input and returns a value and what is left, or the library's error.

    Every reader inverts its writer, [Skip] passes over every value that the
    writers produce, and the recursion of [Skip] and of the loop over the fields
    of a map never runs out of fuel, since each round consumes a byte.

    A time is its number of nanoseconds since Go's zero time. *)

From S2P Require Import Prelude Util.
Open Scope Z_scope.

(** ** Bytes and big-endian numbers *)

(** Go's conversion to [byte]. *)
Definition to_byte (z : Z) : byte := ascii_of_N (Z.to_N (z mod 256)).

Definition raw (l : list Z) : bytes := to_byte <$> l.

(** The low [n] bytes of [z], the most significant first. *)
Fixpoint be (n : nat) (z : Z) : bytes :=
  match n with O => [] | S n' => to_byte (Z.shiftr z (8 * Z.of_nat n')) :: be n' z end.

Definition unbe (l : bytes) : Z := foldl (fun acc b => Z.lor (Z.shiftl acc 8) (bval b)) 0 l.

(** The two's complement reading of the low [w] bits. *)
Definition sint (w : Z) (z : Z) : Z := (z + 2 ^ (w - 1)) mod 2 ^ w - 2 ^ (w - 1).

(** The first [n] bytes as a number. *)
Definition uint_at (n : nat) (b : bytes) : Z := unbe (take n b).

Abbreviation len b := (Z.of_nat (length b)).

(** ** Prefixes *)

Definition mnfixint := 0xe0.
Definition mfixmap := 0x80.
Definition mfixarray := 0x90.
Definition mfixstr := 0xa0.
Definition mnil := 0xc0.
Definition mfalse := 0xc2.
Definition mtrue := 0xc3.
Definition mbin8 := 0xc4.
Definition mbin16 := 0xc5.
Definition mbin32 := 0xc6.
Definition mext8 := 0xc7.
Definition mint8 := 0xd0.
Definition mint16 := 0xd1.
Definition mint32 := 0xd2.
Definition mint64 := 0xd3.
Definition mstr8 := 0xd9.
Definition mstr16 := 0xda.
Definition mstr32 := 0xdb.
Definition marray16 := 0xdc.
Definition marray32 := 0xdd.
Definition mmap16 := 0xde.
Definition mmap32 := 0xdf.
Definition TimeExtension := 5.

Definition isfixint (b : Z) : bool := Z.shiftr b 7 =? 0.
Definition isnfixint (b : Z) : bool := Z.land b 0xe0 =? mnfixint.
Definition isfixmap (b : Z) : bool := Z.land b 0xf0 =? mfixmap.
Definition isfixarray (b : Z) : bool := Z.land b 0xf0 =? mfixarray.
Definition isfixstr (b : Z) : bool := Z.land b 0xe0 =? mfixstr.
Definition wfixint (u : Z) : Z := Z.land u 0x7f.
Definition wnfixint (i : Z) : Z := Z.lor (i mod 256) mnfixint.
Definition rfixmap (b : Z) : Z := Z.land b 0x0f.
Definition rfixstr (b : Z) : Z := Z.land b 0x1f.
Definition wfixstr (u : Z) : Z := Z.lor (Z.land u 0x1f) mfixstr.
Definition rfixarray (b : Z) : Z := Z.land b 0x0f.
Definition wfixarray (u : Z) : Z := Z.lor (Z.land u 0x0f) mfixarray.

Inductive mtype :=
| InvalidType | StrType | BinType | MapType | ArrayType | Float64Type | Float32Type
| BoolType | IntType | UintType | NilType | ExtensionType | Complex64Type | Complex128Type | TimeType.

#[export] Instance mtype_eq_dec : EqDecision mtype.
Proof. solve_decision. Defined.

(** The size of a prefix, how much follows it, and the type it announces:
    an entry of the table [sizes] after [init]. *)
Inductive varmode :=
| objects (n : Z)  (* a constant size, and that many objects *)
| extra8 | extra16 | extra32 | map16v | map32v | array16v | array32v.

Record bytespec := MkSpec { sp_size : Z; sp_extra : varmode; sp_typ : mtype }.

Abbreviation constsize := (objects 0).

(** The entries of the literal, from [mnil] on. *)
Definition sizes_table : list bytespec :=
  [ MkSpec 1 constsize NilType; MkSpec 0 constsize InvalidType; MkSpec 1 constsize BoolType; MkSpec 1 constsize BoolType;
    MkSpec 2 extra8 BinType; MkSpec 3 extra16 BinType; MkSpec 5 extra32 BinType;
    MkSpec 3 extra8 ExtensionType; MkSpec 4 extra16 ExtensionType; MkSpec 6 extra32 ExtensionType;
    MkSpec 5 constsize Float32Type; MkSpec 9 constsize Float64Type;
    MkSpec 2 constsize UintType; MkSpec 3 constsize UintType; MkSpec 5 constsize UintType; MkSpec 9 constsize UintType;
    MkSpec 2 constsize IntType; MkSpec 3 constsize IntType; MkSpec 5 constsize IntType; MkSpec 9 constsize IntType;
    MkSpec 3 constsize ExtensionType; MkSpec 4 constsize ExtensionType; MkSpec 6 constsize ExtensionType;
    MkSpec 10 constsize ExtensionType; MkSpec 18 constsize ExtensionType;
    MkSpec 2 extra8 StrType; MkSpec 3 extra16 StrType; MkSpec 5 extra32 StrType;
    MkSpec 3 array16v ArrayType; MkSpec 5 array32v ArrayType; MkSpec 3 map16v MapType; MkSpec 5 map32v MapType ].

Definition sizes (lead : Z) : bytespec :=
  if lead <? 0x80 then MkSpec 1 constsize IntType
  else if lead <? 0x90 then MkSpec 1 (objects (2 * rfixmap lead)) MapType
  else if lead <? 0xa0 then MkSpec 1 (objects (rfixarray lead)) ArrayType
  else if lead <? 0xc0 then MkSpec (1 + rfixstr lead) constsize StrType
  else if lead <? 0xe0 then default (MkSpec 0 constsize InvalidType) (sizes_table !! Z.to_nat (lead - 0xc0))
  else MkSpec 1 constsize IntType.

Definition getType (lead : Z) : mtype := sp_typ (sizes lead).

(** ** Errors and readers *)

Inductive msgp_error :=
| ErrShortBytes
| TypeError (Method Encoded : mtype)
| InvalidPrefixError (lead : Z)
| ExtensionTypeError (Got Want : Z).

Definition badPrefix (want : mtype) (lead : Z) : msgp_error :=
  if decide (getType lead = InvalidType) then InvalidPrefixError lead else TypeError want (getType lead).

(** A value and what is left of the input, an error, or no fuel. *)
Inductive rd (A : Type) :=
| Rd (x : A) (rest : bytes)
| Bad (e : msgp_error)
| Spin.
Arguments Rd {A} x rest.
Arguments Bad {A} e.
Arguments Spin {A}.

Definition reader (A : Type) : Type := bytes -> rd A.

#[export] Instance reader_ret : MRet reader := fun A x b => Rd x b.
#[export] Instance reader_bind : MBind reader := fun A B k m b =>
  match m b with Rd x rest => k x rest | Bad e => Bad e | Spin => Spin end.

Definition fail {A} (e : msgp_error) : reader A := fun _ => Bad e.

(** ** Writers *)

Definition AppendNil (b : bytes) : bytes := b ++ raw [mnil].

Definition AppendBool (b : bytes) (t : bool) : bytes := b ++ raw [if t then mtrue else mfalse].

Definition AppendInt64 (b : bytes) (i : Z) : bytes :=
  if 0 <=? i then
    if i <=? 127 then b ++ raw [wfixint i]
    else if i <=? 32767 then b ++ raw [mint16] ++ be 2 i
    else if i <=? 2147483647 then b ++ raw [mint32] ++ be 4 i
    else b ++ raw [mint64] ++ be 8 i
  else if -32 <=? i then b ++ raw [wnfixint i]
  else if -128 <=? i then b ++ raw [mint8] ++ be 1 i
  else if -32768 <=? i then b ++ raw [mint16] ++ be 2 i
  else if -2147483648 <=? i then b ++ raw [mint32] ++ be 4 i
  else b ++ raw [mint64] ++ be 8 i.

Definition AppendInt (b : bytes) (i : Z) : bytes := AppendInt64 b i.

Definition AppendBytes (b bts : bytes) : bytes :=
  let sz := len bts in
  if sz <=? 255 then b ++ raw [mbin8] ++ be 1 sz ++ bts
  else if sz <=? 65535 then b ++ raw [mbin16] ++ be 2 sz ++ bts
  else b ++ raw [mbin32] ++ be 4 sz ++ bts.

Definition AppendString (b s : bytes) : bytes :=
  let sz := len s in
  if sz <=? 31 then b ++ raw [wfixstr sz] ++ s
  else if sz <=? 255 then b ++ raw [mstr8] ++ be 1 sz ++ s
  else if sz <=? 65535 then b ++ raw [mstr16] ++ be 2 sz ++ s
  else b ++ raw [mstr32] ++ be 4 sz ++ s.

Definition AppendArrayHeader (b : bytes) (sz : Z) : bytes :=
  if sz <=? 15 then b ++ raw [wfixarray sz]
  else if sz <=? 65535 then b ++ raw [marray16] ++ be 2 sz
  else b ++ raw [marray32] ++ be 4 sz.

(** [t.Unix()] counts from 1970. *)
Definition unix_zero : Z := 62135596800.
Definition Unix (t : Z) : Z := t / 10 ^ 9 - unix_zero.
Definition Nanosecond (t : Z) : Z := t mod 10 ^ 9.
Definition time_Unix (sec nsec : Z) : Z := (sec + unix_zero) * 10 ^ 9 + nsec.

Definition AppendTime (b : bytes) (t : Z) : bytes :=
  b ++ raw [mext8; 12; TimeExtension] ++ be 8 (Unix t) ++ be 4 (Nanosecond t).

(** The sizes from which [Msgsize] is put together. *)
Definition Int64Size := 9%nat.
Definition IntSize := Int64Size.
Definition TimeSize := 15%nat.
Definition BoolSize := 1%nat.
Definition NilSize := 1%nat.
Definition ArrayHeaderSize := 5%nat.
Definition BytesPrefixSize := 5%nat.
Definition StringPrefixSize := 5%nat.

(** ** Readers *)

Definition IsNil (b : bytes) : bool := match b with b0 :: _ => bval b0 =? mnil | [] => false end.

Definition ReadNilBytes : reader unit := fun b =>
  match b with
  | [] => Bad ErrShortBytes
  | b0 :: r => if bval b0 =? mnil then Rd tt r else Bad (badPrefix NilType (bval b0))
  end.

Definition ReadBoolBytes : reader bool := fun b =>
  match b with
  | [] => Bad ErrShortBytes
  | b0 :: r =>
      if bval b0 =? mtrue then Rd true r
      else if bval b0 =? mfalse then Rd false r
      else Bad (badPrefix BoolType (bval b0))
  end.

(** The [n] bytes after the prefix, when they are there. *)
Definition sized {A} (n : nat) (f : Z -> A) : reader A := fun b =>
  if len b <? 1 + Z.of_nat n then Bad ErrShortBytes else Rd (f (uint_at n (drop 1 b))) (drop (1 + n) b).

Definition ReadMapHeaderBytes : reader Z := fun b =>
  match b with
  | [] => Bad ErrShortBytes
  | b0 :: r =>
      let lead := bval b0 in
      if isfixmap lead then Rd (rfixmap lead) r
      else if lead =? mmap16 then sized 2 id b
      else if lead =? mmap32 then sized 4 id b
      else Bad (badPrefix MapType lead)
  end.

Definition ReadArrayHeaderBytes : reader Z := fun b =>
  match b with
  | [] => Bad ErrShortBytes
  | b0 :: r =>
      let lead := bval b0 in
      if isfixarray lead then Rd (rfixarray lead) r
      else if lead =? marray16 then sized 2 id b
      else if lead =? marray32 then sized 4 id b
      else Bad (badPrefix ArrayType lead)
  end.

Definition ReadInt64Bytes : reader Z := fun b =>
  match b with
  | [] => Bad ErrShortBytes
  | b0 :: r =>
      let lead := bval b0 in
      if isfixint lead then Rd lead r
      else if isnfixint lead then Rd (sint 8 lead) r
      else if lead =? mint8 then sized 1 (sint 8) b
      else if lead =? mint16 then sized 2 (sint 16) b
      else if lead =? mint32 then sized 4 (sint 32) b
      else if lead =? mint64 then sized 8 (sint 64) b
      else Bad (badPrefix IntType lead)
  end.

(** An [int] has 64 bits. *)
Definition ReadIntBytes : reader Z := ReadInt64Bytes.

(** The next [read] bytes. *)
Definition payload (read : Z) : reader bytes := fun b =>
  if len b <? read then Bad ErrShortBytes else Rd (take (Z.to_nat read) b) (drop (Z.to_nat read) b).

Definition ReadBytesBytes : reader bytes := fun b =>
  match b with
  | [] => Bad ErrShortBytes
  | b0 :: _ =>
      let lead := bval b0 in
      (read ← (if lead =? mbin8 then sized 1 id
               else if lead =? mbin16 then sized 2 id
               else if lead =? mbin32 then sized 4 id
               else fail (badPrefix BinType lead));
       payload read) b
  end.

Definition ReadStringZC : reader bytes := fun b =>
  match b with
  | [] => Bad ErrShortBytes
  | b0 :: _ =>
      let lead := bval b0 in
      (read ← (if isfixstr lead then sized 0 (fun _ => rfixstr lead)
               else if lead =? mstr8 then sized 1 id
               else if lead =? mstr16 then sized 2 id
               else if lead =? mstr32 then sized 4 id
               else fail (TypeError StrType (getType lead)));
       payload read) b
  end.

Definition ReadStringBytes : reader bytes := ReadStringZC.

(** A key that is not a string is read again from the empty rest that
    [ReadStringZC] returned with its error. *)
Definition ReadMapKeyZC : reader bytes := fun b =>
  match ReadStringZC b with
  | Bad (TypeError _ BinType) => ReadBytesBytes []
  | r => r
  end.

Definition ReadTimeBytes : reader Z := fun b =>
  if len b <? 15 then Bad ErrShortBytes
  else if negb (uint_at 1 b =? mext8) || negb (uint_at 1 (drop 1 b) =? 12) then Bad (badPrefix TimeType (uint_at 1 b))
  else if negb (sint 8 (uint_at 1 (drop 2 b)) =? TimeExtension)
  then Bad (ExtensionTypeError (sint 8 (uint_at 1 (drop 2 b))) TimeExtension)
  else Rd (time_Unix (sint 64 (uint_at 8 (drop 3 b))) (sint 32 (uint_at 4 (drop 11 b)))) (drop 15 b).

(** ** Skipping *)

(** [getSize]: how many bytes and how many objects to skip. *)
Definition getSize (b : bytes) : msgp_error + (Z * Z) :=
  match b with
  | [] => inl ErrShortBytes
  | b0 :: r =>
      let spec := sizes (bval b0) in
      let size := sp_size spec in
      if size =? 0 then inl (InvalidPrefixError (bval b0))
      else
        match sp_extra spec with
        | objects mode => inr (size, mode)
        | mode =>
            if len b <? size then inl ErrShortBytes
            else inr match mode with
                     | extra8 => (size + uint_at 1 r, 0)
                     | extra16 => (size + uint_at 2 r, 0)
                     | extra32 => (size + uint_at 4 r, 0)
                     | map16v => (size, 2 * uint_at 2 r)
                     | map32v => (size, 2 * uint_at 4 r)
                     | array16v => (size, uint_at 2 r)
                     | array32v => (size, uint_at 4 r)
                     | objects n => (size, n)
                     end
        end
  end.

(** The loop of [Skip] over [asz] objects, each of them skipped in turn. *)
Fixpoint skip_objects (fuel : nat) (asz : Z) : reader unit := fun b =>
  if asz <=? 0 then Rd tt b
  else
    match fuel with
    | O => Spin
    | S fuel =>
        match getSize b with
        | inl e => Bad e
        | inr (sz, inner) =>
            if len b <? sz then Bad ErrShortBytes
            else (_ ← skip_objects fuel inner; skip_objects fuel (asz - 1)) (drop (Z.to_nat sz) b)
        end
    end.

Definition Skip : reader unit := fun b => skip_objects (S (length b)) 1 b.

(** ** Maps *)

(** [for sz > 0]: read a key and do what the switch on it does. *)
Fixpoint each_field {S} (field : bytes -> S -> reader S) (fuel : nat) (sz : Z) (z : S) : reader S := fun b =>
  if sz <=? 0 then Rd z b
  else
    match fuel with
    | O => Spin
    | Datatypes.S fuel => (key ← ReadMapKeyZC; z' ← field key z; each_field field fuel (sz - 1) z') b
    end.

(** The body of a generated [UnmarshalMsg]. *)
Definition read_map {S} (field : bytes -> S -> reader S) (z : S) : reader S := fun b =>
  (sz ← ReadMapHeaderBytes; each_field field (length b) sz z) b.

(** ** Numbers *)

Lemma bval_to_byte z : bval (to_byte z) = z mod 256.
Proof.
  unfold bval, to_byte. pose proof (Z.mod_pos_bound z 256 ltac:(lia)). rewrite N_ascii_embedding by lia. lia.
Qed.

Lemma length_be n z : length (be n z) = n.
Proof. induction n; cbn; congruence. Qed.

Lemma lor_shift a b : 0 <= b < 256 -> Z.lor (Z.shiftl a 8) b = a * 256 + b.
Proof.
  intros Hb. rewrite Z.shiftl_mul_pow2 by lia. change (2 ^ 8) with 256. symmetry. rewrite Z.add_nocarry_lxor.
  - apply Z.bits_inj'. intros n Hn. rewrite Z.lxor_spec, Z.lor_spec. change 256 with (2 ^ 8). rewrite Z.mul_pow2_bits by lia.
    destruct (Z.ltb_spec n 8) as [H|H]; [by rewrite Z.testbit_neg_r by lia; destruct (Z.testbit b n)|].
    assert (Z.testbit b n = false) as -> by (apply (Z.bounded_iff_bits_nonneg 8 b); [lia..|change (2 ^ 8) with 256; lia|lia]).
    by destruct (Z.testbit a (n - 8)).
  - apply Z.bits_inj'. intros n Hn. rewrite Z.land_spec, Z.bits_0. change 256 with (2 ^ 8). rewrite Z.mul_pow2_bits by lia.
    destruct (Z.ltb_spec n 8) as [H|H]; [by rewrite Z.testbit_neg_r by lia|].
    assert (Z.testbit b n = false) as -> by (apply (Z.bounded_iff_bits_nonneg 8 b); [lia..|change (2 ^ 8) with 256; lia|lia]).
    by rewrite andb_false_r.
Qed.

Lemma unbe_from acc l : foldl (fun a b => Z.lor (Z.shiftl a 8) (bval b)) acc l = acc * 2 ^ (8 * len l) + unbe l.
Proof.
  unfold unbe. revert acc. induction l as [|b l IH]; intros acc; cbn [foldl length]; [rewrite Z.mul_0_r; lia|].
  rewrite IH, (IH (Z.lor _ _)), !lor_shift by apply bval_range.
  replace (8 * Z.of_nat (S (length l))) with (8 * len l + 8) by lia. rewrite Z.pow_add_r by lia. change (2 ^ 8) with 256. ring.
Qed.

Lemma unbe_cons b l : unbe (b :: l) = bval b * 2 ^ (8 * len l) + unbe l.
Proof. unfold unbe at 1. cbn [foldl]. by rewrite unbe_from, lor_shift by apply bval_range. Qed.

Lemma unbe_range l : 0 <= unbe l < 2 ^ (8 * len l).
Proof.
  induction l as [|b l IH]; [done|]. rewrite unbe_cons. pose proof (bval_range b). cbn [length].
  replace (8 * Z.of_nat (S (length l))) with (8 * len l + 8) by lia. rewrite Z.pow_add_r by lia. change (2 ^ 8) with 256. nia.
Qed.

(** Reading what was written gives the low bits. *)
Lemma unbe_be n z : unbe (be n z) = z mod 2 ^ (8 * Z.of_nat n).
Proof.
  induction n as [|n IH]; [by rewrite Z.mod_1_r|]. cbn [be]. rewrite unbe_cons, length_be, IH, bval_to_byte.
  replace (8 * Z.of_nat (S n)) with (8 * Z.of_nat n + 8) by lia. rewrite Z.pow_add_r by lia.
  rewrite Z.shiftr_div_pow2 by lia. change (2 ^ 8) with 256. set (p := 2 ^ (8 * Z.of_nat n)).
  assert (0 < p) by (apply Z.pow_pos_nonneg; lia). rewrite (Z.rem_mul_r z p 256) by lia. ring.
Qed.

Lemma sint_id w z : 0 < w -> - 2 ^ (w - 1) <= z < 2 ^ (w - 1) -> sint w (z mod 2 ^ w) = z.
Proof.
  intros Hw Hz. unfold sint. assert (2 ^ w = 2 * 2 ^ (w - 1)) as E by (rewrite <- Z.pow_succ_r by lia; f_equal; lia).
  rewrite Zplus_mod_idemp_l, Z.mod_small; lia.
Qed.

(** A property of numbers that is checked one by one. *)
Lemma each_Z (P : Z -> bool) (n : nat) : forallb P (Z.of_nat <$> seq 0 n) = true ->
  forall z, 0 <= z < Z.of_nat n -> P z = true.
Proof.
  intros H z Hz. rewrite forallb_forall in H. apply H, list_elem_of_In, list_elem_of_fmap.
  exists (Z.to_nat z). split; [lia|]. apply elem_of_seq. lia.
Qed.

(** ** Reading what was written *)

Lemma lead_raw p l : 0 <= p < 256 -> raw (p :: l) = to_byte p :: raw l /\ bval (to_byte p) = p.
Proof. intros. split; [done|]. rewrite bval_to_byte. by apply Z.mod_small. Qed.

Lemma sized_be {A} (f : Z -> A) n (p : byte) z rest :
  sized n f (p :: be n z ++ rest) = Rd (f (z mod 2 ^ (8 * Z.of_nat n))) rest.
Proof.
  unfold sized. cbn [length drop plus]. rewrite length_app, length_be.
  destruct (Z.ltb_spec (Z.of_nat (S (n + length rest))) (1 + Z.of_nat n)); [lia|]. unfold uint_at. rewrite drop_0.
  by rewrite take_app_length', drop_app_length', unbe_be by (symmetry; apply length_be).
Qed.

Lemma payload_app s rest n : n = len s -> payload n (s ++ rest) = Rd s rest.
Proof.
  intros ->. unfold payload. rewrite length_app. destruct (Z.ltb_spec (Z.of_nat (length s + length rest)) (len s)); [lia|].
  by rewrite Nat2Z.id, take_app_length, drop_app_length.
Qed.

Lemma wfixstr_read n : 0 <= n <= 31 ->
  0 <= wfixstr n < 256 /\ isfixstr (wfixstr n) = true /\ rfixstr (wfixstr n) = n.
Proof.
  intros Hn.
  pose proof (each_Z (fun n => (0 <=? wfixstr n) && (wfixstr n <? 256) && isfixstr (wfixstr n) && (rfixstr (wfixstr n) =? n)) 32 eq_refl n ltac:(lia)) as H.
  cbv beta in H. rewrite !andb_true_iff in H. destruct_and! H. split_and!; [lia..|done|lia].
Qed.

(** Decide the tests on a prefix that is a number. *)
Ltac prefixed :=
  cbn [app raw fmap list_fmap];
  repeat match goal with |- context [bval (to_byte ?c)] =>
    let v := eval vm_compute in (bval (to_byte c)) in lazymatch v with
    | Z0 => idtac | Zpos _ => idtac | Zneg _ => idtac end; change (bval (to_byte c)) with v
  end; cbv beta zeta;
  repeat match goal with |- context [if ?t then _ else _] =>
    let v := eval vm_compute in t in
    lazymatch v with true => change t with true | false => change t with false end; cbv iota
  end.

Lemma ReadString_Append s rest : len s < 2 ^ 32 -> ReadStringZC (AppendString [] s ++ rest) = Rd s rest.
Proof.
  intros Hs. unfold AppendString, ReadStringZC. cbn zeta. destruct (Z.leb_spec (len s) 31) as [H|H].
  - destruct (wfixstr_read (len s) ltac:(lia)) as (Hr & Hf & Hv). cbn [app raw fmap list_fmap].
    rewrite (proj2 (lead_raw (wfixstr (len s)) [] Hr)), Hf, Hv. unfold mbind, reader_bind. cbn [app].
    change (to_byte (wfixstr (len s)) :: s ++ rest) with (to_byte (wfixstr (len s)) :: be 0 0 ++ s ++ rest).
    rewrite sized_be. by apply payload_app.
  - destruct (Z.leb_spec (len s) 255) as [H1|H1]; [|destruct (Z.leb_spec (len s) 65535) as [H2|H2]];
      prefixed; unfold mbind, reader_bind; rewrite <- app_assoc, sized_be; unfold id; apply payload_app, Z.mod_small; lia.
Qed.

Lemma ReadBytes_Append s rest : len s < 2 ^ 32 -> ReadBytesBytes (AppendBytes [] s ++ rest) = Rd s rest.
Proof.
  intros Hs. unfold AppendBytes, ReadBytesBytes. cbn zeta.
  destruct (Z.leb_spec (len s) 255) as [H1|H1]; [|destruct (Z.leb_spec (len s) 65535) as [H2|H2]];
    prefixed; unfold mbind, reader_bind; rewrite <- app_assoc, sized_be; unfold id; apply payload_app, Z.mod_small; lia.
Qed.

Lemma wfixint_read i : 0 <= i <= 127 -> bval (to_byte (wfixint i)) = i /\ isfixint i = true.
Proof.
  intros Hi. pose proof (each_Z (fun i => (bval (to_byte (wfixint i)) =? i) && isfixint i) 128 eq_refl i ltac:(lia)) as H.
  cbv beta in H. rewrite andb_true_iff in H. destruct_and! H. split; [lia|done].
Qed.

Lemma wnfixint_read i : -32 <= i < 0 ->
  let b := bval (to_byte (wnfixint i)) in isfixint b = false /\ isnfixint b = true /\ sint 8 b = i.
Proof.
  intros Hi.
  pose proof (each_Z (fun j => let i := -1 - j in let b := bval (to_byte (wnfixint i)) in
    negb (isfixint b) && isnfixint b && (sint 8 b =? i)) 32 eq_refl (-1 - i) ltac:(lia)) as H.
  cbn zeta beta in *. replace (-1 - (-1 - i)) with i in H by lia.
  rewrite !andb_true_iff, negb_true_iff in H. destruct_and! H. split_and!; [done..|lia].
Qed.

Lemma ReadInt64_Append i rest : in_int64 i -> ReadInt64Bytes (AppendInt64 [] i ++ rest) = Rd i rest.
Proof.
  unfold in_int64. intros Hi. unfold AppendInt64, ReadInt64Bytes. destruct (Z.leb_spec 0 i) as [H|H].
  - destruct (Z.leb_spec i 127) as [H0|H0].
    { cbn [app raw fmap list_fmap]. by destruct (wfixint_read i ltac:(lia)) as [-> ->]. }
    destruct (Z.leb_spec i 32767); [|destruct (Z.leb_spec i 2147483647)]; prefixed; rewrite sized_be; f_equal; apply sint_id; lia.
  - destruct (Z.leb_spec (-32) i) as [H0|H0].
    { cbn [app raw fmap list_fmap]. by destruct (wnfixint_read i ltac:(lia)) as (-> & -> & ->). }
    destruct (Z.leb_spec (-128) i); [|destruct (Z.leb_spec (-32768) i); [|destruct (Z.leb_spec (-2147483648) i)]];
      prefixed; rewrite sized_be; f_equal; apply sint_id; lia.
Qed.

Lemma ReadBool_Append t rest : ReadBoolBytes (AppendBool [] t ++ rest) = Rd t rest.
Proof. by destruct t. Qed.

Lemma ReadNil_Append rest : ReadNilBytes (AppendNil [] ++ rest) = Rd tt rest.
Proof. done. Qed.

Lemma wfixarray_read n : 0 <= n <= 15 ->
  let b := bval (to_byte (wfixarray n)) in isfixarray b = true /\ rfixarray b = n.
Proof.
  intros Hn. pose proof (each_Z (fun n => let b := bval (to_byte (wfixarray n)) in
    isfixarray b && (rfixarray b =? n)) 16 eq_refl n ltac:(lia)) as H.
  cbn zeta beta in *. rewrite andb_true_iff in H. destruct_and! H. split; [done|lia].
Qed.

Lemma ReadArrayHeader_Append n rest : 0 <= n < 2 ^ 32 -> ReadArrayHeaderBytes (AppendArrayHeader [] n ++ rest) = Rd n rest.
Proof.
  intros Hn. unfold AppendArrayHeader, ReadArrayHeaderBytes. destruct (Z.leb_spec n 15) as [H|H].
  - cbn [app raw fmap list_fmap]. by destruct (wfixarray_read n ltac:(lia)) as [-> ->].
  - destruct (Z.leb_spec n 65535); prefixed; rewrite sized_be; f_equal; apply Z.mod_small; lia.
Qed.

(** The times whose seconds fit into 64 bits. *)
Definition time_ok (t : Z) : Prop := in_int64 (Unix t).

Lemma uint_at_be n z rest : uint_at n (be n z ++ rest) = z mod 2 ^ (8 * Z.of_nat n).
Proof. unfold uint_at. by rewrite take_app_length', unbe_be by (symmetry; apply length_be). Qed.

Lemma uint_at_byte z rest : uint_at 1 (to_byte z :: rest) = z mod 256.
Proof. exact (uint_at_be 1 z rest). Qed.

Lemma drop_be n m z rest : (n <= m)%nat -> drop m (be n z ++ rest) = drop (m - n) rest.
Proof. intros. by rewrite drop_app_ge, length_be by (rewrite length_be; lia). Qed.

Lemma time_Unix_of t : time_Unix (Unix t) (Nanosecond t) = t.
Proof. unfold time_Unix, Unix, Nanosecond. pose proof (Z.div_mod t (10 ^ 9) ltac:(lia)). lia. Qed.

Lemma ReadTime_Append t rest : time_ok t -> ReadTimeBytes (AppendTime [] t ++ rest) = Rd t rest.
Proof.
  unfold time_ok, in_int64. intros Ht. unfold AppendTime, ReadTimeBytes. cbn [app raw fmap list_fmap].
  rewrite <- app_assoc. cbn [length]. rewrite !length_app, !length_be.
  destruct (Z.ltb_spec (Z.of_nat (S (S (S (8 + (4 + length rest)))))) 15); [lia|].
  cbn [drop]. rewrite !uint_at_byte. prefixed.
  rewrite drop_0, (drop_be 8 8), (drop_be 8 12), (drop_be 4 4), !uint_at_be by lia. cbn [Nat.sub]. rewrite !drop_0, uint_at_be.
  pose proof (Z.mod_pos_bound t (10 ^ 9) ltac:(lia)). rewrite !sint_id by (try unfold Nanosecond; lia).
  cbn. by rewrite time_Unix_of.
Qed.

(** ** Readers consume their input *)

(** A result that ends with fewer than [n] bytes left. *)
Definition below {A} (n : nat) (r : rd A) : Prop :=
  match r with Rd _ r => (length r < n)%nat | Bad _ => True | Spin => False end.

(** A reader that ends, with at most or with less than its input left. *)
Definition shrinks {A} (m : reader A) : Prop := forall b, below (S (length b)) (m b).
Definition consumes {A} (m : reader A) : Prop := forall b, below (length b) (m b).

Lemma below_le {A} n n' (r : rd A) : (n <= n')%nat -> below n r -> below n' r.
Proof. destruct r; cbn; [lia|done..]. Qed.

Lemma below_if {A} n (t : bool) (r1 r2 : rd A) : below n r1 -> below n r2 -> below n (if t then r1 else r2).
Proof. by destruct t. Qed.

Lemma below_bind {A B} n (m : reader A) (k : A -> reader B) b : below n (m b) -> (forall x, shrinks (k x)) -> below n ((m ≫= k) b).
Proof.
  intros Hm Hk. unfold mbind, reader_bind. destruct (m b) as [x r|e|]; [|done..]. cbn in Hm.
  apply (below_le (S (length r))); [lia|]. apply Hk.
Qed.

Lemma consumes_shrinks {A} (m : reader A) : consumes m -> shrinks m.
Proof. intros H b. by apply (below_le (length b)); [lia|]. Qed.

Lemma shrinks_ret {A} (x : A) : shrinks (mret x).
Proof. intros b. cbn. lia. Qed.

Lemma shrinks_bind {A B} (m : reader A) (k : A -> reader B) : shrinks m -> (forall x, shrinks (k x)) -> shrinks (m ≫= k).
Proof. intros Hm Hk b. by apply below_bind. Qed.

Lemma below_sized {A} n (f : Z -> A) b : below (length b) (sized n f b).
Proof. unfold sized. destruct (Z.ltb_spec (len b) (1 + Z.of_nat n)); [done|]. cbn. rewrite length_drop. lia. Qed.

Lemma below_rest {A} (x : A) b0 b : below (length (b0 :: b)) (Rd x b).
Proof. cbn. lia. Qed.

Lemma below_bad {A} n e : below n (@Bad A e).
Proof. done. Qed.

Lemma below_fail {A} n e b : below n (@fail A e b).
Proof. done. Qed.

Lemma shrinks_payload n : shrinks (payload n).
Proof. intros b. unfold payload. destruct (len b <? n); [done|]. cbn. rewrite length_drop. lia. Qed.

Create HintDb readers.
#[export] Hint Resolve below_if below_sized below_rest below_bad below_fail shrinks_ret shrinks_payload : readers.

Lemma consumes_ReadMapHeader : consumes ReadMapHeaderBytes.
Proof. intros [|b0 b]; cbv zeta beta iota delta [ReadMapHeaderBytes]; auto with readers. Qed.

Lemma consumes_ReadArrayHeader : consumes ReadArrayHeaderBytes.
Proof. intros [|b0 b]; cbv zeta beta iota delta [ReadArrayHeaderBytes]; auto with readers. Qed.

Lemma consumes_ReadInt64 : consumes ReadInt64Bytes.
Proof. intros [|b0 b]; cbv zeta beta iota delta [ReadInt64Bytes]; auto 10 with readers. Qed.

Lemma consumes_ReadBool : consumes ReadBoolBytes.
Proof. intros [|b0 b]; cbv zeta beta iota delta [ReadBoolBytes]; auto with readers. Qed.

Lemma consumes_ReadNil : consumes ReadNilBytes.
Proof. intros [|b0 b]; cbv zeta beta iota delta [ReadNilBytes]; auto with readers. Qed.

Lemma consumes_ReadBytes : consumes ReadBytesBytes.
Proof.
  intros [|b0 b]; [done|]. cbv zeta beta iota delta [ReadBytesBytes]. apply below_bind; [|auto with readers].
  by repeat case_match; auto with readers.
Qed.

Lemma consumes_ReadString : consumes ReadStringZC.
Proof.
  intros [|b0 b]; [done|]. cbv zeta beta iota delta [ReadStringZC]. apply below_bind; [|auto with readers].
  by repeat case_match; auto with readers.
Qed.

Lemma consumes_ReadMapKey : consumes ReadMapKeyZC.
Proof.
  intros b. unfold ReadMapKeyZC. pose proof (consumes_ReadString b). by repeat case_match.
Qed.

Lemma consumes_ReadTime : consumes ReadTimeBytes.
Proof.
  intros b. unfold ReadTimeBytes. destruct (Z.ltb_spec (len b) 15); [done|].
  repeat apply below_if; try done. cbn. rewrite length_drop. lia.
Qed.

(** ** Termination *)

Lemma rfix_nonneg lead : 0 <= rfixstr lead.
Proof. unfold rfixstr. apply Z.land_nonneg. lia. Qed.

Lemma sizes_nonneg lead : 0 <= sp_size (sizes lead).
Proof.
  unfold sizes. repeat (case_match; [cbn; pose proof (rfix_nonneg lead); lia|]). case_match; [|cbn; lia].
  destruct (sizes_table !! Z.to_nat (lead - 0xc0)) as [sp|] eqn:E; [|done]. cbn.
  assert (Forall (fun sp => 0 <= sp_size sp) sizes_table) as HF by (repeat constructor; cbn; lia).
  by eapply (Forall_lookup_1 _ _ _ _ HF E).
Qed.

(** Something is skipped. *)
Lemma getSize_pos b sz n : getSize b = inr (sz, n) -> 1 <= sz.
Proof.
  destruct b as [|b0 b]; [done|]. cbn -[length sizes]. pose proof (sizes_nonneg (bval b0)).
  destruct (Z.eqb_spec (sp_size (sizes (bval b0))) 0); [done|].
  assert (forall n, 0 <= uint_at n b) by (intros k; apply unbe_range).
  destruct (sp_extra (sizes (bval b0))); [intros; simplify_eq; lia|..];
    (case_match; [done|]; intros; simplify_eq; repeat match goal with H : forall n, 0 <= uint_at n b |- _ => pose proof (H 1%nat); pose proof (H 2%nat); pose proof (H 4%nat); clear H end; lia).
Qed.

Lemma shrinks_skip fuel : forall asz b, (length b < fuel)%nat -> below (S (length b)) (skip_objects fuel asz b).
Proof.
  induction fuel as [|fuel IH]; intros asz b Hf; [lia|]. cbn [skip_objects].
  destruct (asz <=? 0); [cbn; lia|]. destruct (getSize b) as [e|[sz n]] eqn:E; [done|].
  apply getSize_pos in E. destruct (Z.ltb_spec (len b) sz) as [|Hsz]; [done|].
  assert (length (drop (Z.to_nat sz) b) < length b)%nat as Hd by (rewrite length_drop; lia).
  unfold mbind, reader_bind. pose proof (IH n (drop (Z.to_nat sz) b) ltac:(lia)) as H1.
  destruct (skip_objects fuel n (drop (Z.to_nat sz) b)) as [x r|e|]; [|done..]. cbn in H1.
  eapply (below_le (S (length r))); [lia|]. apply IH. lia.
Qed.

Lemma shrinks_Skip : shrinks Skip.
Proof. intros b. apply shrinks_skip. lia. Qed.

Lemma below_each_field {S} (field : bytes -> S -> reader S) : (forall key z, shrinks (field key z)) ->
  forall fuel sz z b, (length b < fuel)%nat -> below (Datatypes.S (length b)) (each_field field fuel sz z b).
Proof.
  intros Hf. induction fuel as [|fuel IH]; intros sz z b Hl; [lia|]. cbn [each_field]. destruct (sz <=? 0); [cbn; lia|].
  unfold mbind, reader_bind. pose proof (consumes_ReadMapKey b) as Hk.
  destruct (ReadMapKeyZC b) as [key r|e|]; [|done..]. cbn in Hk.
  pose proof (Hf key z r) as Hr. destruct (field key z r) as [z' r'|e|]; [|done..]. cbn in Hr.
  eapply (below_le (Datatypes.S (length r'))); [lia|]. apply IH. lia.
Qed.

(** A generated reader consumes a byte or more and never runs out of fuel,
    whatever the input says about its size. *)
Lemma consumes_read_map {S} (field : bytes -> S -> reader S) z : (forall key z, shrinks (field key z)) -> consumes (read_map field z).
Proof.
  intros Hf b. unfold read_map, mbind, reader_bind. pose proof (consumes_ReadMapHeader b) as Hh.
  destruct (ReadMapHeaderBytes b) as [sz r|e|]; [|done..]. cbn in Hh.
  eapply (below_le (Datatypes.S (length r))); [lia|]. apply below_each_field; [done|lia].
Qed.

(** ** Reading a map *)

(** The fields that a writer produced, each as its name and its value. *)
Definition entries (kvs : list (bytes * bytes)) : bytes := kvs ≫= (fun kv => AppendString [] kv.1 ++ kv.2).

(** Field after field, from one state of the record to another. *)
Inductive chain {S} (field : bytes -> S -> reader S) : S -> list (bytes * bytes) -> S -> Prop :=
| chain_nil z : chain field z [] z
| chain_cons z key v z1 kvs z2 :
    len key < 2 ^ 32 -> (forall rest, field key z (v ++ rest) = Rd z1 rest) ->
    chain field z1 kvs z2 -> chain field z ((key, v) :: kvs) z2.

Lemma ReadMapKey_Append s rest : len s < 2 ^ 32 -> ReadMapKeyZC (AppendString [] s ++ rest) = Rd s rest.
Proof. intros Hs. unfold ReadMapKeyZC. by rewrite ReadString_Append. Qed.

Lemma each_field_chain {S} (field : bytes -> S -> reader S) kvs : forall z z' fuel rest,
  chain field z kvs z' -> (length kvs <= fuel)%nat ->
  each_field field fuel (Z.of_nat (length kvs)) z (entries kvs ++ rest) = Rd z' rest.
Proof.
  induction kvs as [|[key v] kvs IH]; intros z z' fuel rest Hc Hf; inversion Hc as [|? ? ? z1 ? ? Hlen Hv Hc']; subst.
  - by destruct fuel.
  - destruct fuel as [|fuel]; cbn in Hf; [lia|]. unfold entries. rewrite bind_cons. cbn [each_field fst snd length].
    destruct (Z.leb_spec (Z.of_nat (Datatypes.S (length kvs))) 0); [lia|].
    unfold mbind at 1, reader_bind at 1. rewrite <- !app_assoc, ReadMapKey_Append by done.
    unfold mbind at 1, reader_bind at 1. rewrite Hv.
    replace (Z.of_nat (Datatypes.S (length kvs)) - 1) with (Z.of_nat (length kvs)) by lia. apply IH; [done|lia].
Qed.

Lemma length_AppendString s : (length s < length (AppendString [] s))%nat.
Proof. unfold AppendString. cbn zeta. repeat case_match; rewrite ?app_nil_l, !length_app, ?length_be; cbn; lia. Qed.

Lemma length_entries kvs : (length kvs <= length (entries kvs))%nat.
Proof.
  induction kvs as [|[key v] kvs IH]; [done|]. unfold entries in *. rewrite bind_cons, !length_app. cbn.
  pose proof (length_AppendString key). lia.
Qed.

Lemma read_map_chain {S} (field : bytes -> S -> reader S) head kvs z z' rest :
  (forall r, ReadMapHeaderBytes (head ++ r) = Rd (Z.of_nat (length kvs)) r) -> chain field z kvs z' ->
  read_map field z (head ++ entries kvs ++ rest) = Rd z' rest.
Proof.
  intros Hh Hc. unfold read_map. unfold mbind at 1, reader_bind at 1. rewrite Hh. apply each_field_chain; [done|].
  rewrite !length_app. pose proof (length_entries kvs). lia.
Qed.

(** ** Appending *)

Lemma AppendNil_app b : AppendNil b = b ++ AppendNil [].
Proof. done. Qed.

Lemma AppendBool_app b t : AppendBool b t = b ++ AppendBool [] t.
Proof. done. Qed.

Lemma AppendInt64_app b i : AppendInt64 b i = b ++ AppendInt64 [] i.
Proof. unfold AppendInt64. by repeat case_match. Qed.

Lemma AppendBytes_app b s : AppendBytes b s = b ++ AppendBytes [] s.
Proof. unfold AppendBytes. by repeat case_match. Qed.

Lemma AppendString_app b s : AppendString b s = b ++ AppendString [] s.
Proof. unfold AppendString. by repeat case_match. Qed.

Lemma AppendTime_app b t : AppendTime b t = b ++ AppendTime [] t.
Proof. done. Qed.

Lemma AppendArrayHeader_app b n : AppendArrayHeader b n = b ++ AppendArrayHeader [] n.
Proof. unfold AppendArrayHeader. by repeat case_match. Qed.

(** The sizes that [Msgsize] counts with. *)
Lemma Int64_size i : (length (AppendInt64 [] i) <= 9)%nat.
Proof. unfold AppendInt64. repeat case_match; cbn; lia. Qed.

Lemma Bytes_size s : (length (AppendBytes [] s) <= 5 + length s)%nat.
Proof. unfold AppendBytes. cbn zeta. repeat case_match; rewrite app_nil_l, !length_app, length_be; cbn; lia. Qed.

Lemma String_size s : (length (AppendString [] s) <= 5 + length s)%nat.
Proof. unfold AppendString. cbn zeta. repeat case_match; rewrite app_nil_l, !length_app, ?length_be; cbn; lia. Qed.

Lemma Time_size t : length (AppendTime [] t) = 15%nat.
Proof. done. Qed.

Lemma ArrayHeader_size n : (length (AppendArrayHeader [] n) <= 5)%nat.
Proof. unfold AppendArrayHeader. repeat case_match; cbn; lia. Qed.

(** ** Skipping what was written *)

(** A value: a prefix whose size is known from it, and the values inside. *)
Inductive value : bytes -> Prop :=
| value_head head n inner :
    (forall rest, getSize (head ++ rest) = inr (len head, Z.of_nat n)) -> values n inner -> value (head ++ inner)
with values : nat -> bytes -> Prop :=
| values_nil : values 0 []
| values_cons v n vs : value v -> values n vs -> values (S n) (v ++ vs).

Scheme value_values_ind := Induction for value Sort Prop
  with values_value_ind := Induction for values Sort Prop.
Combined Scheme value_mutind from value_values_ind, values_value_ind.

(** Enough fuel is enough. *)
Lemma skip_fuel f1 : forall f2 asz b, (length b < f1)%nat -> (length b < f2)%nat ->
  skip_objects f1 asz b = skip_objects f2 asz b.
Proof.
  induction f1 as [|f1 IH]; intros [|f2] asz b H1 H2; try lia. cbn [skip_objects].
  destruct (asz <=? 0); [done|]. destruct (getSize b) as [e|[sz n]] eqn:E; [done|].
  apply getSize_pos in E. destruct (Z.ltb_spec (len b) sz) as [|Hsz]; [done|].
  assert (length (drop (Z.to_nat sz) b) < length b)%nat as Hd by (rewrite length_drop; lia).
  unfold mbind, reader_bind. rewrite (IH f2) by lia.
  pose proof (shrinks_skip f2 n (drop (Z.to_nat sz) b) ltac:(lia)) as Hr.
  destruct (skip_objects f2 n _) as [x r|e|]; [|done..]. cbn in Hr. apply IH; lia.
Qed.

Lemma skip_values :
  (forall v, value v -> forall fuel asz rest, 0 < asz -> (length (v ++ rest) < fuel)%nat ->
    skip_objects fuel asz (v ++ rest) = skip_objects fuel (asz - 1) rest) /\
  (forall n vs, values n vs -> forall fuel asz rest, Z.of_nat n <= asz -> (length (vs ++ rest) < fuel)%nat ->
    skip_objects fuel asz (vs ++ rest) = skip_objects fuel (asz - Z.of_nat n) rest).
Proof.
  apply value_mutind.
  - intros head n inner Hg _ IH fuel asz rest Hasz Hf. destruct fuel as [|fuel]; [lia|].
    remember (skip_objects (S fuel) (asz - 1) rest) as rhs eqn:Er. cbn [skip_objects].
    rewrite (proj2 (Z.leb_gt asz 0)) by lia. rewrite <- app_assoc in *. rewrite Hg.
    assert (1 <= len head) by (eapply getSize_pos; apply (Hg [])). rewrite !length_app in Hf.
    destruct (Z.ltb_spec (len (head ++ inner ++ rest)) (len head)) as [Hl|]; [rewrite length_app in Hl; lia|].
    rewrite Nat2Z.id, drop_app_length. unfold mbind, reader_bind. rewrite IH by (rewrite ?length_app; lia).
    rewrite Z.sub_diag. destruct fuel as [|fuel]; [lia|]. change (skip_objects (S fuel) 0 rest) with (Rd tt rest).
    subst rhs. cbv beta iota. apply skip_fuel; lia.
  - intros fuel asz rest _ _. by rewrite Z.sub_0_r.
  - intros v n vs _ IHv _ IHvs fuel asz rest Hn Hf. rewrite <- app_assoc in *. rewrite !length_app in Hf.
    rewrite IHv by (rewrite ?length_app; lia). rewrite IHvs by (rewrite ?length_app; lia). f_equal. lia.
Qed.

Lemma Skip_value v rest : value v -> Skip (v ++ rest) = Rd tt rest.
Proof.
  intros Hv. unfold Skip. rewrite (proj1 skip_values v Hv) by lia. by destruct (length (v ++ rest)).
Qed.

(** A value without parts. *)
Lemma value_flat v : (forall rest, getSize (v ++ rest) = inr (len v, 0)) -> value v.
Proof. intros H. rewrite <- (app_nil_r v). by apply (value_head v 0); [|constructor]. Qed.

(** The length of what follows is in [n] bytes after the prefix. *)
Lemma value_extra p n mode typ s : sizes (bval (to_byte p)) = MkSpec (1 + Z.of_nat n) mode typ ->
  (mode, n) ∈ [(extra8, 1%nat); (extra16, 2%nat); (extra32, 4%nat)] -> len s < 2 ^ (8 * Z.of_nat n) ->
  value (to_byte p :: be n (len s) ++ s).
Proof.
  intros Hp Hm Hs. apply value_flat. intros rest. cbn [app length]. rewrite <- app_assoc, length_app, length_be.
  unfold getSize. rewrite Hp. cbn [sp_size sp_extra length]. rewrite !length_app, length_be.
  rewrite (proj2 (Z.eqb_neq (1 + Z.of_nat n) 0)) by lia.
  rewrite (proj2 (Z.ltb_ge (Z.of_nat (S (n + (length s + length rest)))) (1 + Z.of_nat n))) by lia.
  rewrite !elem_of_cons, elem_of_nil in Hm.
  destruct Hm as [E|[E|[E|[]]]]; injection E as -> ->; rewrite uint_at_be, Z.mod_small by lia; do 2 f_equal; lia.
Qed.

(** The size is that of the prefix. *)
Lemma value_const p typ l : sizes (bval (to_byte p)) = MkSpec (len (to_byte p :: l)) constsize typ -> value (to_byte p :: l).
Proof.
  intros Hp. apply value_flat. intros rest. cbn [app]. unfold getSize. rewrite Hp. cbn [sp_size sp_extra].
  by rewrite (proj2 (Z.eqb_neq _ 0)) by (cbn; lia).
Qed.

Lemma value_String s : len s < 2 ^ 32 -> value (AppendString [] s).
Proof.
  intros Hs. unfold AppendString. cbn zeta. cbn [app raw fmap list_fmap]. destruct (Z.leb_spec (len s) 31) as [H|H].
  - apply (value_const _ StrType). cbn [length].
    destruct (wfixstr_read (len s) ltac:(lia)) as (Hr & Hf & Hv). rewrite (proj2 (lead_raw (wfixstr (len s)) [] Hr)).
    unfold sizes. rewrite Hv.
    pose proof (each_Z (fun n => (0x9f <? wfixstr n) && (wfixstr n <? 0xc0)) 32 eq_refl (len s) ltac:(lia)) as Hb.
    cbv beta in Hb. apply andb_prop in Hb as [Hb1 Hb2]. apply Z.ltb_lt in Hb1. rewrite Hb2.
    rewrite !(proj2 (Z.ltb_ge _ _)) by lia. f_equal. lia.
  - destruct (Z.leb_spec (len s) 255) as [H1|H1]; [|destruct (Z.leb_spec (len s) 65535) as [H2|H2]].
    + by apply (value_extra mstr8 1 extra8 StrType); [|left|cbn; lia].
    + by apply (value_extra mstr16 2 extra16 StrType); [|right; left|cbn; lia].
    + by apply (value_extra mstr32 4 extra32 StrType); [|right; right; left|].
Qed.

Lemma value_Bytes s : len s < 2 ^ 32 -> value (AppendBytes [] s).
Proof.
  intros Hs. unfold AppendBytes. cbn zeta. cbn [app raw fmap list_fmap].
  destruct (Z.leb_spec (len s) 255) as [H1|H1]; [|destruct (Z.leb_spec (len s) 65535) as [H2|H2]].
  - by apply (value_extra mbin8 1 extra8 BinType); [|left|cbn; lia].
  - by apply (value_extra mbin16 2 extra16 BinType); [|right; left|cbn; lia].
  - by apply (value_extra mbin32 4 extra32 BinType); [|right; right; left|].
Qed.

Lemma value_Time t : value (AppendTime [] t).
Proof.
  apply value_flat. intros rest. unfold AppendTime. cbn [app raw fmap list_fmap]. unfold getSize.
  change (sizes (bval (to_byte mext8))) with (MkSpec 3 extra8 ExtensionType). cbn [sp_size sp_extra Z.eqb].
  rewrite (proj2 (Z.ltb_ge _ 3)) by (cbn [length]; lia). rewrite uint_at_byte. cbn [length]. by rewrite length_app, !length_be.
Qed.

Lemma value_Int64 i : value (AppendInt64 [] i).
Proof.
  unfold AppendInt64. destruct (Z.leb_spec 0 i) as [H|H].
  - destruct (Z.leb_spec i 127) as [H0|H0].
    { apply (value_const _ IntType). destruct (wfixint_read i ltac:(lia)) as [-> _]. unfold sizes. by rewrite (proj2 (Z.ltb_lt i 0x80)) by lia. }
    destruct (Z.leb_spec i 32767); [|destruct (Z.leb_spec i 2147483647)]; by apply (value_const _ IntType).
  - destruct (Z.leb_spec (-32) i) as [H0|H0].
    { apply (value_const _ IntType).
      pose proof (each_Z (fun j => 0xdf <? bval (to_byte (wnfixint (-1 - j)))) 32 eq_refl (-1 - i) ltac:(lia)) as Hb.
      cbv beta in Hb. replace (-1 - (-1 - i)) with i in Hb by lia. apply Z.ltb_lt in Hb.
      unfold sizes. by rewrite !(proj2 (Z.ltb_ge _ _)) by lia. }
    destruct (Z.leb_spec (-128) i); [|destruct (Z.leb_spec (-32768) i); [|destruct (Z.leb_spec (-2147483648) i)]]; by apply (value_const _ IntType).
Qed.

Lemma value_Bool t : value (AppendBool [] t).
Proof. by destruct t; apply (value_const _ BoolType). Qed.

Lemma value_Nil : value (AppendNil []).
Proof. by apply (value_const _ NilType). Qed.

Lemma getSize_array n rest : 0 <= n < 2 ^ 32 ->
  getSize (AppendArrayHeader [] n ++ rest) = inr (len (AppendArrayHeader [] n), n).
Proof.
  intros Hn. unfold AppendArrayHeader. destruct (Z.leb_spec n 15) as [H|H].
  - cbn [app raw fmap list_fmap]. unfold getSize.
    assert (sizes (bval (to_byte (wfixarray n))) = MkSpec 1 (objects n) ArrayType) as ->; [|done].
    pose proof (each_Z (fun n => let b := bval (to_byte (wfixarray n)) in (0x8f <? b) && (b <? 0xa0)) 16 eq_refl n ltac:(lia)) as Hb.
    cbn zeta beta in Hb. apply andb_prop in Hb as [Hb1 Hb2]. apply Z.ltb_lt in Hb1.
    unfold sizes. rewrite Hb2, !(proj2 (Z.ltb_ge _ _)) by lia. by destruct (wfixarray_read n ltac:(lia)) as [_ ->].
  - destruct (Z.leb_spec n 65535); cbn [app raw fmap list_fmap]; unfold getSize;
      [change (sizes (bval (to_byte marray16))) with (MkSpec 3 array16v ArrayType)
      |change (sizes (bval (to_byte marray32))) with (MkSpec 5 array32v ArrayType)];
      cbn [sp_size sp_extra Z.eqb]; rewrite (proj2 (Z.ltb_ge _ _)) by (cbn [length]; rewrite length_app, length_be; lia);
      rewrite uint_at_be, Z.mod_small by lia; cbn [length]; by rewrite length_be.
Qed.

Lemma values_app n m a b : values n a -> values m b -> values (n + m) (a ++ b).
Proof. induction 1 as [|v n vs Hv _ IH]; [done|]. intros Hb. rewrite <- app_assoc. cbn. constructor; auto. Qed.

(** The header of a map with more than fifteen fields. *)
Lemma ReadMapHeader_map16 n rest : 0 <= n < 2 ^ 16 -> ReadMapHeaderBytes ((raw [mmap16] ++ be 2 n) ++ rest) = Rd n rest.
Proof. intros Hn. unfold ReadMapHeaderBytes. prefixed. rewrite sized_be. unfold id. by rewrite Z.mod_small by lia. Qed.

Lemma getSize_map16 n rest : 0 <= n < 2 ^ 16 -> getSize ((raw [mmap16] ++ be 2 n) ++ rest) = inr (3, 2 * n).
Proof.
  intros Hn. cbn [app raw fmap list_fmap]. unfold getSize.
  change (sizes (bval (to_byte mmap16))) with (MkSpec 3 map16v MapType). cbn [sp_size sp_extra Z.eqb].
  rewrite (proj2 (Z.ltb_ge _ _)) by (cbn [length]; rewrite length_app, length_be; lia).
  by rewrite uint_at_be, Z.mod_small by lia.
Qed.

(** A map is skipped with its keys and values. *)
Lemma values_entries kvs : Forall (fun kv => len kv.1 < 2 ^ 32 /\ value kv.2) kvs -> values (2 * length kvs) (entries kvs).
Proof.
  induction 1 as [|[k v] kvs [Hk Hv] _ IH]; [constructor|]. unfold entries. rewrite bind_cons. cbn [fst snd length].
  replace (2 * S (length kvs))%nat with (S (S (2 * length kvs))) by lia. rewrite <- app_assoc.
  constructor; [by apply value_String|]. by constructor.
Qed.

Lemma value_map head kvs : (forall rest, getSize (head ++ rest) = inr (len head, 2 * len kvs)) ->
  Forall (fun kv => len kv.1 < 2 ^ 32 /\ value kv.2) kvs -> value (head ++ entries kvs).
Proof.
  intros Hh Hk. apply (value_head head (2 * length kvs)); [|by apply values_entries].
  intros rest. rewrite Hh. do 2 f_equal. lia.
Qed.

(** ** Records *)

(** A record whose fields are read one after the other: [mix P] is its state
    when the fields named in [P] are read. *)
Section record.
Context {S : Type} (field : bytes -> S -> reader S) (mix : list bytes -> S) (ok : bytes -> bytes -> Prop).
Context (mix_step : forall P k v rest, ok k v -> field k (mix P) (v ++ rest) = Rd (mix (k :: P)) rest).

Lemma chain_mix kvs : forall P, Forall (fun kv => len kv.1 < 2 ^ 32 /\ ok kv.1 kv.2) kvs ->
  chain field (mix P) kvs (mix (reverse kvs.*1 ++ P)).
Proof.
  induction kvs as [|[k v] kvs IH]; intros P Hf; [constructor|]. apply Forall_cons in Hf as [[Hk Hv] Hf].
  apply (chain_cons _ _ _ _ (mix (k :: P))); [done|auto|]. cbn [fmap list_fmap fst]. rewrite reverse_cons, <- app_assoc. by apply IH.
Qed.

Lemma read_record head kvs rest (names : list bytes) z :
  (forall r, ReadMapHeaderBytes (head ++ r) = Rd (len kvs) r) ->
  Forall (fun kv => len kv.1 < 2 ^ 32 /\ ok kv.1 kv.2) kvs -> names ⊆ kvs.*1 ->
  (forall P, names ⊆ P -> mix P = z) ->
  read_map field (mix []) (head ++ entries kvs ++ rest) = Rd z rest.
Proof.
  intros Hh Hf Hn Hz. apply read_map_chain; [done|]. rewrite <- (Hz (reverse kvs.*1 ++ [])); [by apply chain_mix|].
  intros k Hk. apply elem_of_app. left. apply elem_of_reverse. by apply Hn.
Qed.
End record.

(** A component that is read, or not yet. *)
Definition pick {A} (P : list bytes) (k : bytes) (x z : A) : A := if decide (k ∈ P) then x else z.

Lemma pick_here {A} P k (x z : A) : pick (k :: P) k x z = x.
Proof. unfold pick. rewrite decide_True by (by left). done. Qed.

Lemma pick_there {A} P k k' (x z : A) : k <> k' -> pick (k' :: P) k x z = pick P k x z.
Proof. intros Hk. unfold pick. apply decide_ext. rewrite elem_of_cons. naive_solver. Qed.

Lemma pick_in {A} P k (x z : A) : k ∈ P -> pick P k x z = x.
Proof. intros. unfold pick. by rewrite decide_True. Qed.

(** A field of the record, or one that its reader does not know. *)
Definition known (fields : list (bytes * bytes)) (k v : bytes) : Prop := (k, v) ∈ fields \/ (k ∉ fields.*1 /\ value v).

Lemma known_self fields : Forall (fun kv => known fields kv.1 kv.2) fields.
Proof. apply Forall_forall. intros [k v] Hin. by left. Qed.

Lemma bind_Rd {A B} (m : reader A) (k : A -> reader B) b x r : m b = Rd x r -> (m ≫= k) b = k x r.
Proof. intros E. unfold mbind, reader_bind. by rewrite E. Qed.

(** What the generated code of a type is made of, and the laws from which its
    correctness follows. *)
Class Generated (S : Type) := {
  marshal : bytes -> S -> bytes;
  gen_field : bytes -> S -> reader S;
  gen_fields : S -> list (bytes * bytes);
  gen_head : bytes;
  mix : S -> S -> list bytes -> S;  (* the state when some fields are read *)
  kept : S -> S -> S;  (* the state when all are *)
  gen_ok : S -> Prop;
  gen_zero : S;  (* the zero value *)
}.

Class GeneratedLaws (S : Type) `{!Generated S} : Prop := {
  gen_step x z P k v rest : gen_ok x -> known (gen_fields x) k v -> gen_field k (mix x z P) (v ++ rest) = Rd (mix x z (k :: P)) rest;
  gen_start x z : mix x z [] = z;
  gen_full x z P : (gen_fields x).*1 ⊆ P -> mix x z P = kept x z;
  gen_header x rest : ReadMapHeaderBytes (gen_head ++ rest) = Rd (len (gen_fields x)) rest;
  gen_size x rest : getSize (gen_head ++ rest) = inr (len gen_head, 2 * len (gen_fields x));
  gen_values x : gen_ok x -> Forall (fun kv => len kv.1 < 2 ^ 32 /\ value kv.2) (gen_fields x);
  gen_shrinks k z : shrinks (gen_field k z);
  gen_marshal b x : marshal b x = b ++ gen_head ++ entries (gen_fields x);
}.

Section generated.
Context {S : Type} `{!Generated S, !GeneratedLaws S}.

Definition unmarshal (z : S) : reader S := read_map gen_field z.

(** Any order of the fields, with others among them, and any header. *)
Lemma unmarshal_any_order x z head kvs rest : gen_ok x ->
  (forall r, ReadMapHeaderBytes (head ++ r) = Rd (len kvs) r) ->
  Forall (fun kv => len kv.1 < 2 ^ 32 /\ known (gen_fields x) kv.1 kv.2) kvs -> (gen_fields x).*1 ⊆ kvs.*1 ->
  unmarshal z (head ++ entries kvs ++ rest) = Rd (kept x z) rest.
Proof.
  intros Hx Hh Hf Hn. unfold unmarshal. rewrite <- (gen_start x z) at 1.
  apply (read_record gen_field (mix x z) (known (gen_fields x)) (fun P k v rest => gen_step x z P k v rest Hx) _ _ _ (gen_fields x).*1);
    [done..|]. intros P. apply gen_full.
Qed.

Lemma unmarshal_marshal x z rest : gen_ok x -> unmarshal z (marshal [] x ++ rest) = Rd (kept x z) rest.
Proof.
  intros Hx. rewrite gen_marshal, app_nil_l, <- app_assoc. apply unmarshal_any_order; [done|apply gen_header| |done].
  apply Forall_and. split; [|apply known_self]. eapply Forall_impl; [exact (gen_values x Hx)|]. by intros kv [].
Qed.

Lemma marshal_app b x : marshal b x = b ++ marshal [] x.
Proof. by rewrite !gen_marshal. Qed.

Lemma value_marshal x : gen_ok x -> value (marshal [] x).
Proof. intros Hx. rewrite gen_marshal. apply value_map; [apply gen_size|by apply gen_values]. Qed.

Lemma consumes_unmarshal z : consumes (unmarshal z).
Proof. apply consumes_read_map, gen_shrinks. Qed.
End generated.

(** ** How the laws are proved *)

Lemma entries_cons k v kvs : entries ((k, v) :: kvs) = AppendString [] k ++ v ++ entries kvs.
Proof. unfold entries. rewrite bind_cons. cbn. by rewrite app_assoc. Qed.

Lemma ReadStringBytes_Append s rest : len s < 2 ^ 32 -> ReadStringBytes (AppendString [] s ++ rest) = Rd s rest.
Proof. apply ReadString_Append. Qed.

Lemma ReadInt_Append i rest : in_int64 i -> ReadIntBytes (AppendInt [] i ++ rest) = Rd i rest.
Proof. apply ReadInt64_Append. Qed.

Lemma AppendInt_app b i : AppendInt b i = b ++ AppendInt [] i.
Proof. apply AppendInt64_app. Qed.

Lemma value_Int i : value (AppendInt [] i).
Proof. apply value_Int64. Qed.

Lemma consumes_ReadStringBytes : consumes ReadStringBytes.
Proof. apply consumes_ReadString. Qed.

Lemma consumes_ReadInt : consumes ReadIntBytes.
Proof. apply consumes_ReadInt64. Qed.

(** The primitives by which the code of a type is checked. *)
Create HintDb msgp.
#[export] Hint Resolve ReadStringBytes_Append ReadBytes_Append ReadTime_Append ReadInt64_Append ReadInt_Append ReadBool_Append : msgp.
#[export] Hint Resolve value_String value_Bytes value_Time value_Int64 value_Int value_Bool : msgp.
#[export] Hint Resolve consumes_ReadStringBytes consumes_ReadBytes consumes_ReadTime consumes_ReadInt64 consumes_ReadInt
  consumes_ReadBool consumes_ReadArrayHeader consumes_shrinks shrinks_Skip shrinks_ret shrinks_bind : msgp.

(** Decide between names of fields. *)
Ltac decide_names :=
  repeat match goal with |- context [decide (bs ?a = bs ?b)] =>
    first [rewrite (decide_True (P := bs a = bs b)) by done | rewrite (decide_False (P := bs a = bs b)) by done] end.

Ltac closed_in := apply (bool_decide_unpack _); by vm_compute.

(** A known field is read, an unknown one is skipped. *)
Ltac step_law ok fields field mix :=
  intros x z P k v rest Hx [Hin|[Hk Hv]]; unfold field;
  [ unfold ok in Hx; destruct_and? Hx; unfold fields in Hin;
    rewrite ?elem_of_cons, elem_of_nil in Hin; destruct_or? Hin; try done; apply pair_eq in Hin as [-> ->]; decide_names;
    match goal with |- (?m ≫= _) _ = _ => erewrite (bind_Rd m) by (auto with msgp) end;
    unfold mret, reader_ret; f_equal; unfold mix; match goal with |- ?set _ _ = _ => unfold set end; cbn; f_equal; first [reflexivity | symmetry; first [apply pick_here | apply pick_there; discriminate]]
  | rewrite !decide_False by (intros ->; apply Hk; closed_in);
    rewrite (bind_Rd Skip _ _ _ _ (Skip_value _ _ Hv)); unfold mret, reader_ret; f_equal; unfold mix;
    rewrite !pick_there by (intros E; apply Hk; rewrite <- E; closed_in); reflexivity ].

Ltac values_law ok fields :=
  intros x Hx; unfold ok in Hx; destruct_and? Hx; unfold fields; rewrite !Forall_cons, Forall_nil;
  split_and?; cbn [fst snd]; first [exact I | cbn; lia | auto with msgp].

Ltac shrinks_law field :=
  intros k z; unfold field; repeat case_decide; (apply shrinks_bind; [auto with msgp|intros; auto with msgp]).

(** The bytes of the names, and the values after them. *)
Ltac marshal_law marsh fields extra :=
  intros b x; unfold marsh, fields; cbv zeta; rewrite !entries_cons; change (entries []) with (@nil byte);
  repeat match goal with |- context [AppendString [] (bs ?k)] => let v := eval vm_compute in (AppendString [] (bs k)) in
    change (AppendString [] (bs k)) with v end;
  repeat match goal with |- context [raw ?l] => let v := eval vm_compute in (raw l) in change (raw l) with v end;
  repeat match goal with
  | |- context [AppendBytes ?o _] => lazymatch o with [] => fail | _ => rewrite (AppendBytes_app o) end
  | |- context [AppendString ?o _] => lazymatch o with [] => fail | _ => rewrite (AppendString_app o) end
  | |- context [AppendInt64 ?o _] => lazymatch o with [] => fail | _ => rewrite (AppendInt64_app o) end
  | |- context [AppendInt ?o _] => lazymatch o with [] => fail | _ => rewrite (AppendInt_app o) end
  | |- context [AppendTime ?o _] => lazymatch o with [] => fail | _ => rewrite (AppendTime_app o) end
  | |- context [AppendBool ?o _] => lazymatch o with [] => fail | _ => rewrite (AppendBool_app o) end
  | _ => extra
  end; rewrite <- ?app_assoc, ?app_nil_r; reflexivity.

(** The header announces the fields. *)
Ltac header_law :=
  intros x rest;
  match goal with |- context [raw [?p; ?a; ?b]] => change (raw [p; a; b]) with (raw [mmap16] ++ be 2 (a * 256 + b)) | _ => idtac end;
  first [reflexivity | rewrite ReadMapHeader_map16 by lia; reflexivity | rewrite getSize_map16 by lia; reflexivity].

Ltac generated inst ok fields field mx marsh extra :=
  split; cbv beta iota delta [marshal gen_field gen_fields gen_head mix kept gen_ok inst];
  [ step_law ok fields field mx
  | by intros x []
  | intros [] z P Hn; unfold mx; cbn; rewrite !pick_in by (apply Hn; closed_in); reflexivity
  | header_law | header_law
  | values_law ok fields
  | shrinks_law field
  | marshal_law marsh fields extra ].

(** The sum of the sizes of the parts. *)
Ltac size_law inst fields size :=
  intros x; rewrite gen_marshal; cbn [gen_head gen_fields inst]; unfold fields, size;
  rewrite !entries_cons; change (entries []) with (@nil byte); rewrite !length_app;
  repeat match goal with
  | |- context [length (AppendString [] (bs ?k))] => let v := eval vm_compute in (length (AppendString [] (bs k))) in
      change (length (AppendString [] (bs k))) with v
  | |- context [length (raw ?l)] => let v := eval vm_compute in (length (raw l)) in change (length (raw l)) with v
  | |- context [length (AppendString [] ?s)] => let H := fresh in pose proof (String_size s) as H; revert H; generalize (length (AppendString [] s)); intros
  | |- context [length (AppendBytes [] ?s)] => let H := fresh in pose proof (Bytes_size s) as H; revert H; generalize (length (AppendBytes [] s)); intros
  | |- context [length (AppendInt64 [] ?s)] => let H := fresh in pose proof (Int64_size s) as H; revert H; generalize (length (AppendInt64 [] s)); intros
  | |- context [length (AppendInt [] ?s)] => let H := fresh in pose proof (Int64_size s) as H; change (AppendInt64 [] s) with (AppendInt [] s) in H;
      revert H; generalize (length (AppendInt [] s)); intros
  | |- context [length (AppendTime [] ?s)] => change (length (AppendTime [] s)) with 15%nat
  | |- context [length (AppendBool [] ?s)] => change (length (AppendBool [] s)) with 1%nat
  end;
  unfold StringPrefixSize, BytesPrefixSize, TimeSize, IntSize, Int64Size, BoolSize, NilSize, ArrayHeaderSize in *; cbn [length]; try lia.

(** ** Errors *)

Definition type_name (t : mtype) : bytes :=
  match t with
  | StrType => bs "str" | BinType => bs "bin" | MapType => bs "map" | ArrayType => bs "array"
  | Float64Type => bs "float64" | Float32Type => bs "float32" | BoolType => bs "bool" | UintType => bs "uint"
  | IntType => bs "int" | ExtensionType => bs "ext" | NilType => bs "nil" | InvalidType | Complex64Type | Complex128Type | TimeType => bs "<invalid>"
  end.

(** [%q] of a name, and [%x] of a byte. *)
Definition quoted (s : bytes) : bytes := ["034"%char] ++ s ++ ["034"%char].
Definition hex_digit (d : Z) : byte := if d <? 10 then to_byte (48 + d) else to_byte (87 + d).
Definition hex_byte (z : Z) : bytes := if z <? 16 then [hex_digit z] else [hex_digit (z / 16); hex_digit (z mod 16)].

(** [Error()]. *)
Definition error_text (e : msgp_error) : bytes :=
  match e with
  | ErrShortBytes => bs "msgp: too few bytes left to read object"
  | TypeError method encoded =>
      bs "msgp: attempted to decode type " ++ quoted (type_name encoded) ++ bs " with method for " ++ quoted (type_name method)
  | InvalidPrefixError lead => bs "msgp: unrecognized type prefix 0x" ++ hex_byte lead
  | ExtensionTypeError got want =>
      bs "msgp: error decoding extension: wanted type " ++ itoa want ++ bs "; got type " ++ itoa got
  end.

(** ** Messages as byte strings *)

(** [x.MarshalMsg(nil)]. *)
Definition MarshalMsg {S} `{!Generated S} (x : S) : bytes := marshal [] x.

(** [UnmarshalMsg] into a new record; what is left over is ignored. *)
Definition UnmarshalMsg {S} `{!Generated S} (b : bytes) : outcome S :=
  match unmarshal gen_zero b with
  | Rd x _ => Ok x
  | Bad e => Fail (error_text e)
  | Spin => Panic
  end.

Lemma Unmarshal_Marshal {S} `{!Generated S, !GeneratedLaws S} (x : S) : gen_ok x -> UnmarshalMsg (MarshalMsg x) = Ok (kept x gen_zero).
Proof. intros Hx. unfold UnmarshalMsg, MarshalMsg. by rewrite <- (app_nil_r (marshal [] x)), unmarshal_marshal. Qed.

Lemma Marshal_nonempty {S} `{!Generated S, !GeneratedLaws S} (x : S) : MarshalMsg x <> [].
Proof.
  unfold MarshalMsg. rewrite gen_marshal. pose proof (gen_header x []) as Hh. by destruct gen_head.
Qed.

(** Decoding inverts encoding, whatever the record that is filled and whatever
    follows in the input. *)
Definition inverts {S} (unmarshal : S -> reader S) (marshal : bytes -> S -> bytes) (ok : S -> Prop) : Prop :=
  forall x z rest, ok x -> unmarshal z (marshal [] x ++ rest) = Rd x rest.

(** A map with the fields of [x] in any order, among others that are well
    formed, is read as [x]. *)
Definition any_order {S} (unmarshal : S -> reader S) (fields : S -> list (bytes * bytes)) (ok : S -> Prop) : Prop :=
  forall x z head kvs rest, ok x ->
  (forall r, ReadMapHeaderBytes (head ++ r) = Rd (len kvs) r) ->
  Forall (fun kv => len kv.1 < 2 ^ 32 /\ known (fields x) kv.1 kv.2) kvs -> (fields x).*1 ⊆ kvs.*1 ->
  unmarshal z (head ++ entries kvs ++ rest) = Rd x rest.
