(* ===== verification/Api.v ===== *)
(** * Api: the messages between peers and their wire format

    [src/peer/api/api.go] and [api_gen.go]: the entries, queries and answers
    that peers exchange, with the generated [MarshalMsg], [UnmarshalMsg] and
    [Msgsize] of each, over the primitives of [Msgp].  An [UnmarshalMsg] is
    the loop of [read_map] over the switch of the type, [..._field], and fills
    the record that it is called on.

    Each pair is an instance of [Generated] with its laws, so decoding inverts
    encoding for records whose lengths and numbers fit their formats, in any
    order of the fields and with fields that the reader does not know. *)

From S2P Require Import Prelude Msgp.
Open Scope Z_scope.

(** ** Data *)

(** An entry of the inventory: a key with its value, and when, by whom and with which checksum it was set. *)
Record KeyInv := MkKeyInv {
  ki_Key : bytes;
  ki_Who : bytes;
  ki_When : Z;
  ki_Size : Z;
  ki_Blake2b : bytes;
  ki_Val : bytes;
}.

(** A query, with the address to which a value is to be sent. *)
Record BcastGetRequest := MkBcastGetRequest {
  gr_FromID : bytes;
  gr_Key : bytes;
  gr_Who : bytes;
  gr_IncludeValue : bool;
  gr_ReplyGrpcHost : bytes;
  gr_ReplyGrpcXPort : Z;
  gr_ReplyGrpcIPort : Z;
}.

(** [Ki] can be nil. *)
Record BcastGetReply := MkBcastGetReply {
  gy_FromID : bytes;
  gy_Ki : option KeyInv;
  gy_Err : bytes;
}.

(** [Ki] can be nil. *)
Record BcastSetRequest := MkBcastSetRequest {
  sr_FromID : bytes;
  sr_Ki : option KeyInv;
}.

(** The answer to a set. *)
Record BcastSetReply := MkBcastSetReply {
  sy_Err : bytes;
}.

(** ** The generated code of [KeyInv] *)

Definition set_ki_Key v (z : KeyInv) : KeyInv := MkKeyInv v (ki_Who z) (ki_When z) (ki_Size z) (ki_Blake2b z) (ki_Val z).
Definition set_ki_Who v (z : KeyInv) : KeyInv := MkKeyInv (ki_Key z) v (ki_When z) (ki_Size z) (ki_Blake2b z) (ki_Val z).
Definition set_ki_When v (z : KeyInv) : KeyInv := MkKeyInv (ki_Key z) (ki_Who z) v (ki_Size z) (ki_Blake2b z) (ki_Val z).
Definition set_ki_Size v (z : KeyInv) : KeyInv := MkKeyInv (ki_Key z) (ki_Who z) (ki_When z) v (ki_Blake2b z) (ki_Val z).
Definition set_ki_Blake2b v (z : KeyInv) : KeyInv := MkKeyInv (ki_Key z) (ki_Who z) (ki_When z) (ki_Size z) v (ki_Val z).
Definition set_ki_Val v (z : KeyInv) : KeyInv := MkKeyInv (ki_Key z) (ki_Who z) (ki_When z) (ki_Size z) (ki_Blake2b z) v.

Definition zero_KeyInv : KeyInv := MkKeyInv [] [] 0 0 [] [].

Definition KeyInv_MarshalMsg (b : bytes) (z : KeyInv) : bytes :=
  let o := b in
  let o := o ++ raw [0x86; 0xa3; 0x4b; 0x65; 0x79] in
  let o := AppendBytes o (ki_Key z) in
  let o := o ++ raw [0xa3; 0x57; 0x68; 0x6f] in
  let o := AppendString o (ki_Who z) in
  let o := o ++ raw [0xa4; 0x57; 0x68; 0x65; 0x6e] in
  let o := AppendTime o (ki_When z) in
  let o := o ++ raw [0xa4; 0x53; 0x69; 0x7a; 0x65] in
  let o := AppendInt64 o (ki_Size z) in
  let o := o ++ raw [0xa7; 0x42; 0x6c; 0x61; 0x6b; 0x65; 0x32; 0x62] in
  let o := AppendBytes o (ki_Blake2b z) in
  let o := o ++ raw [0xa3; 0x56; 0x61; 0x6c] in
  let o := AppendBytes o (ki_Val z) in
  o.

Definition KeyInv_field (field : bytes) (z : KeyInv) : reader KeyInv :=
  if decide (field = bs "Key") then v ← ReadBytesBytes; mret (set_ki_Key v z)
  else if decide (field = bs "Who") then v ← ReadStringBytes; mret (set_ki_Who v z)
  else if decide (field = bs "When") then v ← ReadTimeBytes; mret (set_ki_When v z)
  else if decide (field = bs "Size") then v ← ReadInt64Bytes; mret (set_ki_Size v z)
  else if decide (field = bs "Blake2b") then v ← ReadBytesBytes; mret (set_ki_Blake2b v z)
  else if decide (field = bs "Val") then v ← ReadBytesBytes; mret (set_ki_Val v z)
  else _ ← Skip; mret z.

Definition KeyInv_UnmarshalMsg (z : KeyInv) : reader KeyInv := read_map KeyInv_field z.

Definition KeyInv_Msgsize (z : KeyInv) : nat :=
  (1 + 4 + BytesPrefixSize + length (ki_Key z) + 4 + StringPrefixSize + length (ki_Who z) + 5 + TimeSize + 5 + Int64Size + 8 + BytesPrefixSize + length (ki_Blake2b z) + 4 + BytesPrefixSize + length (ki_Val z))%nat.

(** A pointer to an entry, in the messages that carry one. *)
Definition append_Ki (o : bytes) (Ki : option KeyInv) : bytes :=
  match Ki with None => AppendNil o | Some ki => KeyInv_MarshalMsg o ki end.

Definition read_Ki (Ki : option KeyInv) : reader (option KeyInv) := fun b =>
  if IsNil b then (_ ← ReadNilBytes; mret None) b
  else (ki ← KeyInv_UnmarshalMsg (default zero_KeyInv Ki); mret (Some ki)) b.

Definition Ki_Msgsize (Ki : option KeyInv) : nat :=
  match Ki with None => NilSize | Some ki => KeyInv_Msgsize ki end.

(** ** The generated code of [BcastGetRequest] *)

Definition set_gr_FromID v (z : BcastGetRequest) : BcastGetRequest := MkBcastGetRequest v (gr_Key z) (gr_Who z) (gr_IncludeValue z) (gr_ReplyGrpcHost z) (gr_ReplyGrpcXPort z) (gr_ReplyGrpcIPort z).
Definition set_gr_Key v (z : BcastGetRequest) : BcastGetRequest := MkBcastGetRequest (gr_FromID z) v (gr_Who z) (gr_IncludeValue z) (gr_ReplyGrpcHost z) (gr_ReplyGrpcXPort z) (gr_ReplyGrpcIPort z).
Definition set_gr_Who v (z : BcastGetRequest) : BcastGetRequest := MkBcastGetRequest (gr_FromID z) (gr_Key z) v (gr_IncludeValue z) (gr_ReplyGrpcHost z) (gr_ReplyGrpcXPort z) (gr_ReplyGrpcIPort z).
Definition set_gr_IncludeValue v (z : BcastGetRequest) : BcastGetRequest := MkBcastGetRequest (gr_FromID z) (gr_Key z) (gr_Who z) v (gr_ReplyGrpcHost z) (gr_ReplyGrpcXPort z) (gr_ReplyGrpcIPort z).
Definition set_gr_ReplyGrpcHost v (z : BcastGetRequest) : BcastGetRequest := MkBcastGetRequest (gr_FromID z) (gr_Key z) (gr_Who z) (gr_IncludeValue z) v (gr_ReplyGrpcXPort z) (gr_ReplyGrpcIPort z).
Definition set_gr_ReplyGrpcXPort v (z : BcastGetRequest) : BcastGetRequest := MkBcastGetRequest (gr_FromID z) (gr_Key z) (gr_Who z) (gr_IncludeValue z) (gr_ReplyGrpcHost z) v (gr_ReplyGrpcIPort z).
Definition set_gr_ReplyGrpcIPort v (z : BcastGetRequest) : BcastGetRequest := MkBcastGetRequest (gr_FromID z) (gr_Key z) (gr_Who z) (gr_IncludeValue z) (gr_ReplyGrpcHost z) (gr_ReplyGrpcXPort z) v.

Definition zero_BcastGetRequest : BcastGetRequest := MkBcastGetRequest [] [] [] false [] 0 0.

Definition BcastGetRequest_MarshalMsg (b : bytes) (z : BcastGetRequest) : bytes :=
  let o := b in
  let o := o ++ raw [0x87; 0xa6; 0x46; 0x72; 0x6f; 0x6d; 0x49; 0x44] in
  let o := AppendString o (gr_FromID z) in
  let o := o ++ raw [0xa3; 0x4b; 0x65; 0x79] in
  let o := AppendBytes o (gr_Key z) in
  let o := o ++ raw [0xa3; 0x57; 0x68; 0x6f] in
  let o := AppendString o (gr_Who z) in
  let o := o ++ raw [0xac; 0x49; 0x6e; 0x63; 0x6c; 0x75; 0x64; 0x65; 0x56; 0x61; 0x6c; 0x75; 0x65] in
  let o := AppendBool o (gr_IncludeValue z) in
  let o := o ++ raw [0xad; 0x52; 0x65; 0x70; 0x6c; 0x79; 0x47; 0x72; 0x70; 0x63; 0x48; 0x6f; 0x73; 0x74] in
  let o := AppendString o (gr_ReplyGrpcHost z) in
  let o := o ++ raw [0xae; 0x52; 0x65; 0x70; 0x6c; 0x79; 0x47; 0x72; 0x70; 0x63; 0x58; 0x50; 0x6f; 0x72; 0x74] in
  let o := AppendInt o (gr_ReplyGrpcXPort z) in
  let o := o ++ raw [0xae; 0x52; 0x65; 0x70; 0x6c; 0x79; 0x47; 0x72; 0x70; 0x63; 0x49; 0x50; 0x6f; 0x72; 0x74] in
  let o := AppendInt o (gr_ReplyGrpcIPort z) in
  o.

Definition BcastGetRequest_field (field : bytes) (z : BcastGetRequest) : reader BcastGetRequest :=
  if decide (field = bs "FromID") then v ← ReadStringBytes; mret (set_gr_FromID v z)
  else if decide (field = bs "Key") then v ← ReadBytesBytes; mret (set_gr_Key v z)
  else if decide (field = bs "Who") then v ← ReadStringBytes; mret (set_gr_Who v z)
  else if decide (field = bs "IncludeValue") then v ← ReadBoolBytes; mret (set_gr_IncludeValue v z)
  else if decide (field = bs "ReplyGrpcHost") then v ← ReadStringBytes; mret (set_gr_ReplyGrpcHost v z)
  else if decide (field = bs "ReplyGrpcXPort") then v ← ReadIntBytes; mret (set_gr_ReplyGrpcXPort v z)
  else if decide (field = bs "ReplyGrpcIPort") then v ← ReadIntBytes; mret (set_gr_ReplyGrpcIPort v z)
  else _ ← Skip; mret z.

Definition BcastGetRequest_UnmarshalMsg (z : BcastGetRequest) : reader BcastGetRequest := read_map BcastGetRequest_field z.

Definition BcastGetRequest_Msgsize (z : BcastGetRequest) : nat :=
  (1 + 7 + StringPrefixSize + length (gr_FromID z) + 4 + BytesPrefixSize + length (gr_Key z) + 4 + StringPrefixSize + length (gr_Who z) + 13 + BoolSize + 14 + StringPrefixSize + length (gr_ReplyGrpcHost z) + 15 + IntSize + 15 + IntSize)%nat.

(** ** The generated code of [BcastGetReply] *)

Definition set_gy_FromID v (z : BcastGetReply) : BcastGetReply := MkBcastGetReply v (gy_Ki z) (gy_Err z).
Definition set_gy_Ki v (z : BcastGetReply) : BcastGetReply := MkBcastGetReply (gy_FromID z) v (gy_Err z).
Definition set_gy_Err v (z : BcastGetReply) : BcastGetReply := MkBcastGetReply (gy_FromID z) (gy_Ki z) v.

Definition zero_BcastGetReply : BcastGetReply := MkBcastGetReply [] None [].

Definition BcastGetReply_MarshalMsg (b : bytes) (z : BcastGetReply) : bytes :=
  let o := b in
  let o := o ++ raw [0x83; 0xa6; 0x46; 0x72; 0x6f; 0x6d; 0x49; 0x44] in
  let o := AppendString o (gy_FromID z) in
  let o := o ++ raw [0xa2; 0x4b; 0x69] in
  let o := append_Ki o (gy_Ki z) in
  let o := o ++ raw [0xa3; 0x45; 0x72; 0x72] in
  let o := AppendString o (gy_Err z) in
  o.

Definition BcastGetReply_field (field : bytes) (z : BcastGetReply) : reader BcastGetReply :=
  if decide (field = bs "FromID") then v ← ReadStringBytes; mret (set_gy_FromID v z)
  else if decide (field = bs "Ki") then v ← read_Ki (gy_Ki z); mret (set_gy_Ki v z)
  else if decide (field = bs "Err") then v ← ReadStringBytes; mret (set_gy_Err v z)
  else _ ← Skip; mret z.

Definition BcastGetReply_UnmarshalMsg (z : BcastGetReply) : reader BcastGetReply := read_map BcastGetReply_field z.

Definition BcastGetReply_Msgsize (z : BcastGetReply) : nat :=
  (1 + 7 + StringPrefixSize + length (gy_FromID z) + 3 + Ki_Msgsize (gy_Ki z) + 4 + StringPrefixSize + length (gy_Err z))%nat.

(** ** The generated code of [BcastSetRequest] *)

Definition set_sr_FromID v (z : BcastSetRequest) : BcastSetRequest := MkBcastSetRequest v (sr_Ki z).
Definition set_sr_Ki v (z : BcastSetRequest) : BcastSetRequest := MkBcastSetRequest (sr_FromID z) v.

Definition zero_BcastSetRequest : BcastSetRequest := MkBcastSetRequest [] None.

Definition BcastSetRequest_MarshalMsg (b : bytes) (z : BcastSetRequest) : bytes :=
  let o := b in
  let o := o ++ raw [0x82; 0xa6; 0x46; 0x72; 0x6f; 0x6d; 0x49; 0x44] in
  let o := AppendString o (sr_FromID z) in
  let o := o ++ raw [0xa2; 0x4b; 0x69] in
  let o := append_Ki o (sr_Ki z) in
  o.

Definition BcastSetRequest_field (field : bytes) (z : BcastSetRequest) : reader BcastSetRequest :=
  if decide (field = bs "FromID") then v ← ReadStringBytes; mret (set_sr_FromID v z)
  else if decide (field = bs "Ki") then v ← read_Ki (sr_Ki z); mret (set_sr_Ki v z)
  else _ ← Skip; mret z.

Definition BcastSetRequest_UnmarshalMsg (z : BcastSetRequest) : reader BcastSetRequest := read_map BcastSetRequest_field z.

Definition BcastSetRequest_Msgsize (z : BcastSetRequest) : nat :=
  (1 + 7 + StringPrefixSize + length (sr_FromID z) + 3 + Ki_Msgsize (sr_Ki z))%nat.

(** ** The generated code of [BcastSetReply] *)

Definition set_sy_Err v (z : BcastSetReply) : BcastSetReply := MkBcastSetReply v.

Definition zero_BcastSetReply : BcastSetReply := MkBcastSetReply [].

Definition BcastSetReply_MarshalMsg (b : bytes) (z : BcastSetReply) : bytes :=
  let o := b in
  let o := o ++ raw [0x81; 0xa3; 0x45; 0x72; 0x72] in
  let o := AppendString o (sy_Err z) in
  o.

Definition BcastSetReply_field (field : bytes) (z : BcastSetReply) : reader BcastSetReply :=
  if decide (field = bs "Err") then v ← ReadStringBytes; mret (set_sy_Err v z)
  else _ ← Skip; mret z.

Definition BcastSetReply_UnmarshalMsg (z : BcastSetReply) : reader BcastSetReply := read_map BcastSetReply_field z.

Definition BcastSetReply_Msgsize (z : BcastSetReply) : nat :=
  (1 + 4 + StringPrefixSize + length (sy_Err z))%nat.

(** ** Proofs for [KeyInv] *)

Definition KeyInv_ok (x : KeyInv) : Prop :=
  len (ki_Key x) < 2 ^ 32 /\ len (ki_Who x) < 2 ^ 32 /\ time_ok (ki_When x) /\ in_int64 (ki_Size x) /\ len (ki_Blake2b x) < 2 ^ 32 /\ len (ki_Val x) < 2 ^ 32.

Definition KeyInv_fields (x : KeyInv) : list (bytes * bytes) :=
  [(bs "Key", AppendBytes [] (ki_Key x));
   (bs "Who", AppendString [] (ki_Who x));
   (bs "When", AppendTime [] (ki_When x));
   (bs "Size", AppendInt64 [] (ki_Size x));
   (bs "Blake2b", AppendBytes [] (ki_Blake2b x));
   (bs "Val", AppendBytes [] (ki_Val x))].

Definition KeyInv_mix (x z : KeyInv) (P : list bytes) : KeyInv :=
  MkKeyInv (pick P (bs "Key") (ki_Key x) (ki_Key z))
    (pick P (bs "Who") (ki_Who x) (ki_Who z))
    (pick P (bs "When") (ki_When x) (ki_When z))
    (pick P (bs "Size") (ki_Size x) (ki_Size z))
    (pick P (bs "Blake2b") (ki_Blake2b x) (ki_Blake2b z))
    (pick P (bs "Val") (ki_Val x) (ki_Val z)).

#[export] Instance KeyInv_Generated : Generated KeyInv := {|
  marshal := KeyInv_MarshalMsg; gen_field := KeyInv_field; gen_fields := KeyInv_fields; gen_head := raw [0x86];
  mix := KeyInv_mix; kept x _ := x; gen_ok := KeyInv_ok; gen_zero := zero_KeyInv;
|}.

#[export] Instance KeyInv_GeneratedLaws : GeneratedLaws KeyInv.
Proof. generated KeyInv_Generated KeyInv_ok KeyInv_fields KeyInv_field KeyInv_mix KeyInv_MarshalMsg ltac:(fail). Qed.

Lemma KeyInv_size : forall x, (length (marshal [] x) <= KeyInv_Msgsize x)%nat.
Proof. size_law KeyInv_Generated KeyInv_fields KeyInv_Msgsize. Qed.

(** ** Proofs for a pointer to an entry *)

Definition Ki_ok (Ki : option KeyInv) : Prop := match Ki with None => True | Some ki => KeyInv_ok ki end.

Lemma append_Ki_app o Ki : append_Ki o Ki = o ++ append_Ki [] Ki.
Proof. destruct Ki as [ki|]; [|done]. exact (marshal_app o ki). Qed.

Lemma read_Ki_append z Ki rest : Ki_ok Ki -> read_Ki z (append_Ki [] Ki ++ rest) = Rd Ki rest.
Proof.
  destruct Ki as [ki|]; [|done]. intros Hki. unfold read_Ki, append_Ki.
  assert (IsNil (KeyInv_MarshalMsg [] ki ++ rest) = false) as -> by (change (KeyInv_MarshalMsg [] ki) with (marshal [] ki); by rewrite gen_marshal).
  assert (E : KeyInv_UnmarshalMsg (default zero_KeyInv z) (KeyInv_MarshalMsg [] ki ++ rest) = Rd ki rest)
    by (pose proof (unmarshal_marshal ki (default zero_KeyInv z) rest) as E; exact (E Hki)). by rewrite (bind_Rd _ _ _ _ _ E).
Qed.

Lemma value_Ki Ki : Ki_ok Ki -> value (append_Ki [] Ki).
Proof. destruct Ki as [ki|]; [exact (value_marshal ki)|intros; apply value_Nil]. Qed.

Lemma consumes_read_Ki z : consumes (read_Ki z).
Proof.
  intros b. unfold read_Ki. destruct (IsNil b).
  - apply below_bind; [apply consumes_ReadNil|intros; apply shrinks_ret].
  - apply below_bind; [pose proof (consumes_unmarshal (default zero_KeyInv z)) as Hc; exact (Hc b)|intros; apply shrinks_ret].
Qed.

Lemma Ki_size Ki : (length (append_Ki [] Ki) <= Ki_Msgsize Ki)%nat.
Proof. destruct Ki as [ki|]; [apply (KeyInv_size ki)|done]. Qed.

#[export] Hint Resolve read_Ki_append value_Ki consumes_read_Ki : msgp.

Ltac append_Ki_rewrite :=
  match goal with |- context [append_Ki ?o _] => lazymatch o with [] => fail | _ => rewrite (append_Ki_app o) end end.

(** ** Proofs for [BcastGetRequest] *)

Definition BcastGetRequest_ok (x : BcastGetRequest) : Prop :=
  len (gr_FromID x) < 2 ^ 32 /\ len (gr_Key x) < 2 ^ 32 /\ len (gr_Who x) < 2 ^ 32 /\ len (gr_ReplyGrpcHost x) < 2 ^ 32 /\ in_int64 (gr_ReplyGrpcXPort x) /\ in_int64 (gr_ReplyGrpcIPort x).

Definition BcastGetRequest_fields (x : BcastGetRequest) : list (bytes * bytes) :=
  [(bs "FromID", AppendString [] (gr_FromID x));
   (bs "Key", AppendBytes [] (gr_Key x));
   (bs "Who", AppendString [] (gr_Who x));
   (bs "IncludeValue", AppendBool [] (gr_IncludeValue x));
   (bs "ReplyGrpcHost", AppendString [] (gr_ReplyGrpcHost x));
   (bs "ReplyGrpcXPort", AppendInt [] (gr_ReplyGrpcXPort x));
   (bs "ReplyGrpcIPort", AppendInt [] (gr_ReplyGrpcIPort x))].

Definition BcastGetRequest_mix (x z : BcastGetRequest) (P : list bytes) : BcastGetRequest :=
  MkBcastGetRequest (pick P (bs "FromID") (gr_FromID x) (gr_FromID z))
    (pick P (bs "Key") (gr_Key x) (gr_Key z))
    (pick P (bs "Who") (gr_Who x) (gr_Who z))
    (pick P (bs "IncludeValue") (gr_IncludeValue x) (gr_IncludeValue z))
    (pick P (bs "ReplyGrpcHost") (gr_ReplyGrpcHost x) (gr_ReplyGrpcHost z))
    (pick P (bs "ReplyGrpcXPort") (gr_ReplyGrpcXPort x) (gr_ReplyGrpcXPort z))
    (pick P (bs "ReplyGrpcIPort") (gr_ReplyGrpcIPort x) (gr_ReplyGrpcIPort z)).

#[export] Instance BcastGetRequest_Generated : Generated BcastGetRequest := {|
  marshal := BcastGetRequest_MarshalMsg; gen_field := BcastGetRequest_field; gen_fields := BcastGetRequest_fields; gen_head := raw [0x87];
  mix := BcastGetRequest_mix; kept x _ := x; gen_ok := BcastGetRequest_ok; gen_zero := zero_BcastGetRequest;
|}.

#[export] Instance BcastGetRequest_GeneratedLaws : GeneratedLaws BcastGetRequest.
Proof. generated BcastGetRequest_Generated BcastGetRequest_ok BcastGetRequest_fields BcastGetRequest_field BcastGetRequest_mix BcastGetRequest_MarshalMsg ltac:(fail). Qed.

Lemma BcastGetRequest_size : forall x, (length (marshal [] x) <= BcastGetRequest_Msgsize x)%nat.
Proof. size_law BcastGetRequest_Generated BcastGetRequest_fields BcastGetRequest_Msgsize. Qed.

(** ** Proofs for [BcastGetReply] *)

Definition BcastGetReply_ok (x : BcastGetReply) : Prop :=
  len (gy_FromID x) < 2 ^ 32 /\ Ki_ok (gy_Ki x) /\ len (gy_Err x) < 2 ^ 32.

Definition BcastGetReply_fields (x : BcastGetReply) : list (bytes * bytes) :=
  [(bs "FromID", AppendString [] (gy_FromID x));
   (bs "Ki", append_Ki [] (gy_Ki x));
   (bs "Err", AppendString [] (gy_Err x))].

Definition BcastGetReply_mix (x z : BcastGetReply) (P : list bytes) : BcastGetReply :=
  MkBcastGetReply (pick P (bs "FromID") (gy_FromID x) (gy_FromID z))
    (pick P (bs "Ki") (gy_Ki x) (gy_Ki z))
    (pick P (bs "Err") (gy_Err x) (gy_Err z)).

#[export] Instance BcastGetReply_Generated : Generated BcastGetReply := {|
  marshal := BcastGetReply_MarshalMsg; gen_field := BcastGetReply_field; gen_fields := BcastGetReply_fields; gen_head := raw [0x83];
  mix := BcastGetReply_mix; kept x _ := x; gen_ok := BcastGetReply_ok; gen_zero := zero_BcastGetReply;
|}.

#[export] Instance BcastGetReply_GeneratedLaws : GeneratedLaws BcastGetReply.
Proof. generated BcastGetReply_Generated BcastGetReply_ok BcastGetReply_fields BcastGetReply_field BcastGetReply_mix BcastGetReply_MarshalMsg ltac:(idtac; append_Ki_rewrite). Qed.

Lemma BcastGetReply_size : forall x, (length (marshal [] x) <= BcastGetReply_Msgsize x)%nat.
Proof. size_law BcastGetReply_Generated BcastGetReply_fields BcastGetReply_Msgsize. pose proof (Ki_size (gy_Ki x)). lia. Qed.

(** ** Proofs for [BcastSetRequest] *)

Definition BcastSetRequest_ok (x : BcastSetRequest) : Prop :=
  len (sr_FromID x) < 2 ^ 32 /\ Ki_ok (sr_Ki x).

Definition BcastSetRequest_fields (x : BcastSetRequest) : list (bytes * bytes) :=
  [(bs "FromID", AppendString [] (sr_FromID x));
   (bs "Ki", append_Ki [] (sr_Ki x))].

Definition BcastSetRequest_mix (x z : BcastSetRequest) (P : list bytes) : BcastSetRequest :=
  MkBcastSetRequest (pick P (bs "FromID") (sr_FromID x) (sr_FromID z))
    (pick P (bs "Ki") (sr_Ki x) (sr_Ki z)).

#[export] Instance BcastSetRequest_Generated : Generated BcastSetRequest := {|
  marshal := BcastSetRequest_MarshalMsg; gen_field := BcastSetRequest_field; gen_fields := BcastSetRequest_fields; gen_head := raw [0x82];
  mix := BcastSetRequest_mix; kept x _ := x; gen_ok := BcastSetRequest_ok; gen_zero := zero_BcastSetRequest;
|}.

#[export] Instance BcastSetRequest_GeneratedLaws : GeneratedLaws BcastSetRequest.
Proof. generated BcastSetRequest_Generated BcastSetRequest_ok BcastSetRequest_fields BcastSetRequest_field BcastSetRequest_mix BcastSetRequest_MarshalMsg ltac:(idtac; append_Ki_rewrite). Qed.

Lemma BcastSetRequest_size : forall x, (length (marshal [] x) <= BcastSetRequest_Msgsize x)%nat.
Proof. size_law BcastSetRequest_Generated BcastSetRequest_fields BcastSetRequest_Msgsize. pose proof (Ki_size (sr_Ki x)). lia. Qed.

(** ** Proofs for [BcastSetReply] *)

Definition BcastSetReply_ok (x : BcastSetReply) : Prop :=
  len (sy_Err x) < 2 ^ 32.

Definition BcastSetReply_fields (x : BcastSetReply) : list (bytes * bytes) :=
  [(bs "Err", AppendString [] (sy_Err x))].

Definition BcastSetReply_mix (x z : BcastSetReply) (P : list bytes) : BcastSetReply :=
  MkBcastSetReply (pick P (bs "Err") (sy_Err x) (sy_Err z)).

#[export] Instance BcastSetReply_Generated : Generated BcastSetReply := {|
  marshal := BcastSetReply_MarshalMsg; gen_field := BcastSetReply_field; gen_fields := BcastSetReply_fields; gen_head := raw [0x81];
  mix := BcastSetReply_mix; kept x _ := x; gen_ok := BcastSetReply_ok; gen_zero := zero_BcastSetReply;
|}.

#[export] Instance BcastSetReply_GeneratedLaws : GeneratedLaws BcastSetReply.
Proof. generated BcastSetReply_Generated BcastSetReply_ok BcastSetReply_fields BcastSetReply_field BcastSetReply_mix BcastSetReply_MarshalMsg ltac:(fail). Qed.

Lemma BcastSetReply_size : forall x, (length (marshal [] x) <= BcastSetReply_Msgsize x)%nat.
Proof. size_law BcastSetReply_Generated BcastSetReply_fields BcastSetReply_Msgsize. Qed.

(** ** Properties *)

(** The messages between peers survive the wire: for each of the five types,
    decoding what [MarshalMsg] wrote gives the record back when its lengths are
    below 2^32, its integers have 64 bits and the seconds of its time do. *)
Theorem api_roundtrip :
  inverts KeyInv_UnmarshalMsg KeyInv_MarshalMsg KeyInv_ok /\
  inverts BcastGetRequest_UnmarshalMsg BcastGetRequest_MarshalMsg BcastGetRequest_ok /\
  inverts BcastGetReply_UnmarshalMsg BcastGetReply_MarshalMsg BcastGetReply_ok /\
  inverts BcastSetRequest_UnmarshalMsg BcastSetRequest_MarshalMsg BcastSetRequest_ok /\
  inverts BcastSetReply_UnmarshalMsg BcastSetReply_MarshalMsg BcastSetReply_ok.
Proof. split_and!; intros x; exact (unmarshal_marshal x). Qed.

(** C36. Peers of different versions understand each other: a message with the
    fields in another order, and with fields that the reader does not know
    between them, however nested, is read as the same record. *)
Theorem api_any_order :
  any_order KeyInv_UnmarshalMsg KeyInv_fields KeyInv_ok /\
  any_order BcastGetRequest_UnmarshalMsg BcastGetRequest_fields BcastGetRequest_ok /\
  any_order BcastGetReply_UnmarshalMsg BcastGetReply_fields BcastGetReply_ok /\
  any_order BcastSetRequest_UnmarshalMsg BcastSetRequest_fields BcastSetRequest_ok /\
  any_order BcastSetReply_UnmarshalMsg BcastSetReply_fields BcastSetReply_ok.
Proof. split_and!; intros x z; exact (unmarshal_any_order x z). Qed.

(** The buffer that [MarshalMsg] asks for is large enough: [Msgsize] bounds the
    encoded length of every record. *)
Theorem api_sizes :
  (forall x, (length (KeyInv_MarshalMsg [] x) <= KeyInv_Msgsize x)%nat) /\
  (forall x, (length (BcastGetRequest_MarshalMsg [] x) <= BcastGetRequest_Msgsize x)%nat) /\
  (forall x, (length (BcastGetReply_MarshalMsg [] x) <= BcastGetReply_Msgsize x)%nat) /\
  (forall x, (length (BcastSetRequest_MarshalMsg [] x) <= BcastSetRequest_Msgsize x)%nat) /\
  (forall x, (length (BcastSetReply_MarshalMsg [] x) <= BcastSetReply_Msgsize x)%nat).
Proof.
  split_and!; [exact KeyInv_size|exact BcastGetRequest_size|exact BcastGetReply_size|exact BcastSetRequest_size|exact BcastSetReply_size].
Qed.

(** Whatever bytes arrive, decoding them ends, in a record or in an error:
    the sizes that a message announces do not decide how long it takes, since
    every round of the loops consumes a byte. *)
Theorem api_total (b : bytes) :
  consumes (KeyInv_UnmarshalMsg zero_KeyInv) /\ consumes (BcastGetRequest_UnmarshalMsg zero_BcastGetRequest) /\
  consumes (BcastGetReply_UnmarshalMsg zero_BcastGetReply) /\ consumes (BcastSetRequest_UnmarshalMsg zero_BcastSetRequest) /\
  consumes (BcastSetReply_UnmarshalMsg zero_BcastSetReply) /\
  UnmarshalMsg (S := BcastSetRequest) b <> Panic /\ UnmarshalMsg (S := BcastGetReply) b <> Panic.
Proof.
  assert (Hp : forall (S : Type) (H : Generated S) (HL : GeneratedLaws S), UnmarshalMsg (S := S) b <> Panic).
  { intros S H HL. unfold UnmarshalMsg. pose proof (consumes_unmarshal (gen_zero (S := S)) b) as Hc. by destruct (unmarshal gen_zero b). }
  split_and!; [exact (consumes_unmarshal zero_KeyInv)|exact (consumes_unmarshal zero_BcastGetRequest)|exact (consumes_unmarshal zero_BcastGetReply)
    |exact (consumes_unmarshal zero_BcastSetRequest)|exact (consumes_unmarshal zero_BcastSetReply)|apply Hp; apply _|apply Hp; apply _].
Qed.

Definition ex_entry : KeyInv := MkKeyInv (bs "chk") (bs "hostA") (unix_zero * 10 ^ 9 + 7) 3 [] (bs "new").

(** The bytes of a reply, and a reply with an unknown field. *)
Example reply_bytes : MarshalMsg (MkBcastGetReply (bs "B") None (bs "none")) =
  raw [0x83; 0xa6] ++ bs "FromID" ++ raw [0xa1] ++ bs "B" ++ raw [0xa2] ++ bs "Ki" ++ raw [0xc0; 0xa3] ++ bs "Err" ++ raw [0xa4] ++ bs "none".
Proof. by vm_compute. Qed.

Example newer_reply : UnmarshalMsg (raw [0x84; 0xa3] ++ bs "Err" ++ raw [0xa0; 0xa5] ++ bs "Extra" ++ raw [0x92; 0x01; 0x81; 0xa1] ++ bs "k" ++
    raw [0xc3; 0xa6] ++ bs "FromID" ++ raw [0xa1] ++ bs "B" ++ raw [0xa2] ++ bs "Ki" ++ MarshalMsg ex_entry) =
  Ok (MkBcastGetReply (bs "B") (Some ex_entry) []).
Proof. by vm_compute. Qed.

(** A key that is binary is refused, although the library means to accept it;
    so is an input that is too short. *)
Example binary_key : UnmarshalMsg (S := BcastSetReply) (raw [0x81; 0xc4; 0x03] ++ bs "Err" ++ raw [0xa0]) =
  Fail (bs "msgp: too few bytes left to read object").
Proof. by vm_compute. Qed.
