(* ===== verification/Store.v ===== *)
(** * Store: the checkpoints that a peer keeps

    [src/peer/api/api.go], [boltsaver.go] and [inv.go]: entries with their
    time and place, the two buckets in which a peer keeps them, and the
    sorted inventory of the answers to a query.

    A time is its number of nanoseconds, since all times are converted to UTC
    before they are compared.  The metadata of an entry is stored as the bytes
    of its serialiser ([Api]); blake2b, the errors of a bolt [Put] and those of
    a compaction are parameters; the vendored red-black tree is the class
    [RBTree] with its documented laws. *)

From S2P Require Import Prelude Health Msgp Api.
From stdpp Require Import sorting.
Open Scope Z_scope.

(** ** Data *)

#[export] Instance KeyInv_eq_dec : EqDecision KeyInv.
Proof. solve_decision. Defined.

(** ** The order of entries *)

(** [bytes.Compare], and Go's comparison of strings. *)
Definition bytes_Compare (a b : bytes) : comparison :=
  if decide (a = b) then Eq else if string_lt a b then Lt else Gt.

Definition compare (a b : KeyInv) : comparison :=
  match bytes_Compare (ki_Key a) (ki_Key b) with
  | Eq =>
      if decide (ki_When a <> ki_When b) then if ki_When a <? ki_When b then Lt else Gt
      else bytes_Compare (ki_Who a) (ki_Who b)
  | c => c
  end.

(** The red-black tree: [Insert] does nothing when an equal item is there. *)
Class RBTree (T : Type) := {
  rb_New : T;
  rb_Insert : KeyInv -> T -> T;
  rb_items : T -> list KeyInv;
}.

Abbreviation rising := (StronglySorted (fun a b => compare a b = Lt)).

Class RBTreeLaws (T : Type) `{!RBTree T} : Prop := {
  items_rb_New : rb_items rb_New = [];
  items_rising x t : rising (rb_items t) -> rising (rb_items (rb_Insert x t));
  elem_of_rb_Insert x t y : rising (rb_items t) ->
    y ∈ rb_items (rb_Insert x t) <->
    y ∈ rb_items t \/ (y = x /\ forall z, z ∈ rb_items t -> compare x z <> Eq);
}.

(** ** The saver *)

Record BoltSaver := MkBoltSaver {
  bo_open : bool;              (* b.db is not nil *)
  bo_meta : gmap bytes bytes;  (* the bucket meta *)
  bo_data : gmap bytes bytes;  (* the bucket data *)
  bo_whoami : bytes;
  bo_numSetsBeforeCompact : Z;
  bo_setCount : Z;
}.

Section saver.
Context (blake2b : bytes -> bytes)
        (put_error : bytes -> bytes -> option bytes) (Compact_error : BoltSaver -> option (bytes * bool)).

Definition set_open (open : bool) (b : BoltSaver) : BoltSaver :=
  MkBoltSaver open (bo_meta b) (bo_data b) (bo_whoami b) (bo_numSetsBeforeCompact b) (bo_setCount b).

(** A new saver has its buckets and nothing in them. *)
Definition NewBoltSaver (whoami : bytes) (numSetsBeforeCompact : Z) : BoltSaver :=
  MkBoltSaver true ∅ ∅ whoami numSetsBeforeCompact 0.

(** The fields that [LocalSet] writes into the caller's entry. *)
Definition stamp (whoami : bytes) (ki : KeyInv) : KeyInv :=
  MkKeyInv (ki_Key ki) whoami (ki_When ki) (Z.of_nat (length (ki_Val ki))) (blake2b (ki_Val ki)) (ki_Val ki).

(** The entry without its value. *)
Definition meta_of (ki : KeyInv) : KeyInv :=
  MkKeyInv (ki_Key ki) (ki_Who ki) (ki_When ki) (ki_Size ki) (ki_Blake2b ki) [].

(** [LocalSet]: the saver, the caller's entry and the error.  A failed [Put]
    rolls the transaction back; a compaction copies the buckets, and one that
    fails may leave no database open, on which every operation panics. *)
Definition LocalSet (b : BoltSaver) (ki : KeyInv) : outcome (BoltSaver * KeyInv * option bytes) :=
  if negb (bo_open b) then Panic else
  let ki := stamp (bo_whoami b) ki in
  let metabytes := MarshalMsg (meta_of ki) in
  match put_error (ki_Key ki) metabytes, put_error (ki_Key ki) (ki_Val ki) with
  | Some err, _ => Ok (b, ki, Some err)
  | None, Some err => Ok (b, ki, Some err)
  | None, None =>
      let n := wrap64 (bo_setCount b + 1) in
      let b := MkBoltSaver true (<[ki_Key ki := metabytes]> (bo_meta b)) (<[ki_Key ki := ki_Val ki]> (bo_data b))
                 (bo_whoami b) (bo_numSetsBeforeCompact b) n in
      let failed := if (0 <? bo_numSetsBeforeCompact b) && ((Z.rem n (bo_numSetsBeforeCompact b) =? 0) || (n =? 1))
                    then Compact_error b else None in
      Ok (set_open (match failed with Some (_, open) => open | None => true end) b, ki, fst <$> failed)
  end.

(** [LocalGet]: an empty value in a bucket counts as missing. *)
Definition LocalGet (b : BoltSaver) (key : bytes) (includeValue : bool) : outcome KeyInv :=
  if negb (bo_open b) then Panic else
  match bo_meta b !! key with
  | None | Some [] => Fail (bs "key '" ++ key ++ bs "' in bucket 'meta' does not exist")
  | Some metabytes =>
      meta ← UnmarshalMsg metabytes;
      Ok (MkKeyInv key (bo_whoami b) (ki_When meta) (ki_Size meta) (ki_Blake2b meta)
            (if includeValue then default [] (bo_data b !! key) else []))
  end.
End saver.

(** ** The order is total *)

Lemma bytes_Compare_eq a b : bytes_Compare a b = Eq <-> a = b.
Proof. unfold bytes_Compare. case_decide; [done|]. by destruct (string_lt a b). Qed.

Lemma bytes_Compare_lt a b : bytes_Compare a b = Lt <-> string_lt a b = true.
Proof.
  unfold bytes_Compare. case_decide as E; [subst; by rewrite string_lt_irrefl|]. by destruct (string_lt a b).
Qed.

Lemma bytes_Compare_gt a b : bytes_Compare a b = Gt -> string_lt b a = true.
Proof.
  unfold bytes_Compare. case_decide as E; [done|]. destruct (string_lt a b) eqn:H1; [done|].
  intros _. destruct (string_lt b a) eqn:H2; [done|]. by destruct E; apply string_lt_total.
Qed.

(** Entries under one key compare by time and place. *)
Lemma compare_same_key a b : ki_Key a = ki_Key b ->
  match compare a b with
  | Lt => ki_When a < ki_When b \/ (ki_When a = ki_When b /\ string_lt (ki_Who a) (ki_Who b) = true)
  | Eq => ki_When a = ki_When b /\ ki_Who a = ki_Who b
  | Gt => ki_When b < ki_When a \/ (ki_When a = ki_When b /\ string_lt (ki_Who b) (ki_Who a) = true)
  end.
Proof.
  intros Hk. unfold compare. rewrite (proj2 (bytes_Compare_eq _ _) Hk).
  destruct (decide (ki_When a <> ki_When b)) as [Hw|Hw].
  - destruct (Z.ltb_spec (ki_When a) (ki_When b)); left; lia.
  - assert (ki_When a = ki_When b) by lia. destruct (bytes_Compare (ki_Who a) (ki_Who b)) eqn:E.
    + split; [done|]. by apply bytes_Compare_eq.
    + right. split; [done|]. by apply bytes_Compare_lt.
    + right. split; [done|]. by apply bytes_Compare_gt.
Qed.

Lemma compare_eq_iff a b : compare a b = Eq <-> ki_Key a = ki_Key b /\ ki_When a = ki_When b /\ ki_Who a = ki_Who b.
Proof.
  unfold compare. destruct (bytes_Compare (ki_Key a) (ki_Key b)) eqn:E.
  - apply bytes_Compare_eq in E. destruct (decide (ki_When a <> ki_When b)) as [Hw|Hw].
    + destruct (ki_When a <? ki_When b); split; [done|tauto|done|tauto].
    + rewrite bytes_Compare_eq. split; [|tauto]. intros. split_and!; [done|lia|done].
  - split; [done|]. intros (Hk & _). by rewrite (proj2 (bytes_Compare_eq _ _) Hk) in E.
  - split; [done|]. intros (Hk & _). by rewrite (proj2 (bytes_Compare_eq _ _) Hk) in E.
Qed.

(** ** Setting and getting *)

Section saver_lemmas.
Context (blake2b : bytes -> bytes)
        (put_error : bytes -> bytes -> option bytes) (Compact_error : BoltSaver -> option (bytes * bool)).

(** A set that fails before the compaction changes nothing. *)
Definition put_ok (ki : KeyInv) : Prop := forall meta, put_error (ki_Key ki) meta = None.

(** What a get returns for a key with an entry. *)
Definition stored_entry (whoami : bytes) (ki : KeyInv) (includeValue : bool) : KeyInv :=
  MkKeyInv (ki_Key ki) whoami (ki_When ki) (Z.of_nat (length (ki_Val ki))) (blake2b (ki_Val ki))
    (if includeValue then ki_Val ki else []).

(** The metadata of the entry fits its format. *)
Definition fits (whoami : bytes) (ki : KeyInv) : Prop := KeyInv_ok (meta_of (stamp blake2b whoami ki)).

Lemma LocalSet_get b ki : bo_open b = true -> put_ok ki -> (forall b, Compact_error b = None) -> fits (bo_whoami b) ki -> exists b',
  LocalSet blake2b put_error Compact_error b ki = Ok (b', stamp blake2b (bo_whoami b) ki, None) /\
  bo_open b' = true /\ bo_whoami b' = bo_whoami b /\ bo_numSetsBeforeCompact b' = bo_numSetsBeforeCompact b /\
  (forall iv, LocalGet b' (ki_Key ki) iv = Ok (stored_entry (bo_whoami b) ki iv)) /\
  (forall k iv, k <> ki_Key ki -> LocalGet b' k iv = LocalGet b k iv).
Proof.
  intros Ho Hp Hc Hfit. unfold LocalSet. rewrite Ho. cbn [stamp ki_Key ki_Val negb]. rewrite !Hp, Hc.
  match goal with |- context [if ?x then None else None] => replace (if x then None else None) with (@None (bytes * bool)) by (by destruct x) end.
  eexists. split; [done|]. cbn [set_open bo_open bo_whoami bo_numSetsBeforeCompact].
  split_and!; [done|done|done| |].
  - intros iv. unfold LocalGet. cbn [set_open bo_open bo_meta bo_data bo_whoami negb]. rewrite !lookup_insert_eq.
    pose proof (Marshal_nonempty (meta_of (stamp blake2b (bo_whoami b) ki))) as Hne.
    destruct (MarshalMsg _) as [|x l] eqn:E; [done|]. rewrite <- E, Unmarshal_Marshal by exact Hfit. done.
  - intros k iv Hk. unfold LocalGet. rewrite Ho. cbn [set_open bo_open bo_meta bo_data bo_whoami]. by rewrite !lookup_insert_ne.
Qed.

(** A set that a bolt [Put] refuses leaves the saver as it was. *)
Lemma LocalSet_refused b ki err : bo_open b = true -> put_error (ki_Key ki) (MarshalMsg (meta_of (stamp blake2b (bo_whoami b) ki))) = Some err ->
  LocalSet blake2b put_error Compact_error b ki = Ok (b, stamp blake2b (bo_whoami b) ki, Some err).
Proof. intros Ho He. unfold LocalSet. rewrite Ho. cbn [stamp ki_Key negb] in *. by rewrite He. Qed.
End saver_lemmas.
