(* ===== verification/Compact.v ===== *)
(** * Compact: copying a peer's database

    [src/peer/compact.go]: the walk over the buckets of the database, the copy
    in transactions of bounded size, and the exchange of the files.

    A source database is its tree of buckets in the order in which bolt visits
    it.  A write transaction of the bolt library is the class [BoltTx], with
    what its documentation says of creating a bucket, setting its sequence and
    putting a value; [tx_find] is what a reader finds at a path.  Errors of
    the file system are parameters. *)

From S2P Require Import Prelude Util.
Open Scope Z_scope.

(** ** Databases *)

Inductive dbnode :=
| NVal (v : bytes)
| NBucket (seq : Z) (children : list (bytes * dbnode)).

(** What a path leads to. *)
Inductive entry := EVal (v : bytes) | EBucket (seq : Z).

#[export] Instance entry_eq_dec : EqDecision entry.
Proof. solve_decision. Defined.

Fixpoint find_child {A} (k : bytes) (l : list (bytes * A)) : option A :=
  match l with
  | [] => None
  | (k', n) :: l' => if decide (k' = k) then Some n else find_child k l'
  end.

Fixpoint node_find (p : list bytes) (n : dbnode) : option entry :=
  match p with
  | [] => Some (match n with NVal v => EVal v | NBucket seq _ => EBucket seq end)
  | k :: p' => match n with
               | NVal _ => None
               | NBucket _ ch => match find_child k ch with Some n' => node_find p' n' | None => None end
               end
  end.

Definition db_find (p : list bytes) (db : list (bytes * dbnode)) : option entry :=
  match p with
  | [] => None
  | k :: p' => match find_child k db with Some n => node_find p' n | None => None end
  end.

(** The limits of bolt. *)
Definition MaxKeySize : Z := 32768.
Definition key_ok (k : bytes) : Prop := 0 < Z.of_nat (length k) <= MaxKeySize.
Definition MaxValueSize : Z := 2 ^ 31 - 2.
Definition val_ok (v : bytes) : Prop := Z.of_nat (length v) <= MaxValueSize.

Class BoltTx (X : Type) := {
  tx_empty : X;
  tx_find : list bytes -> X -> option entry;
  tx_CreateBucket : list bytes -> bytes -> X -> outcome X;
  tx_SetSequence : list bytes -> Z -> X -> outcome X;
  tx_Put : list bytes -> bytes -> bytes -> X -> outcome X;
}.

(** The root, or a bucket below it. *)
Definition bucket_at {X} `{BoltTx X} (p : list bytes) (x : X) : Prop :=
  p = [] \/ exists seq, tx_find p x = Some (EBucket seq).

Definition set_at {X} `{BoltTx X} (x x' : X) (p : list bytes) (e : entry) : Prop :=
  forall q, tx_find q x' = if decide (q = p) then Some e else tx_find q x.

Class BoltTxLaws (X : Type) `{!BoltTx X} : Prop := {
  find_empty p : tx_find p tx_empty = None;
  create_bucket p k x : bucket_at p x -> key_ok k -> tx_find (p ++ [k]) x = None ->
    exists x', tx_CreateBucket p k x = Ok x' /\ set_at x x' (p ++ [k]) (EBucket 0);
  set_sequence p seq seq' x : tx_find p x = Some (EBucket seq') ->
    exists x', tx_SetSequence p seq x = Ok x' /\ set_at x x' p (EBucket seq);
  put_value p k v x : p <> [] -> bucket_at p x -> key_ok k -> val_ok v -> tx_find (p ++ [k]) x = None ->
    exists x', tx_Put p k v x = Ok x' /\ set_at x x' (p ++ [k]) (EVal v);
}.

(** ** The walk *)

Section walk.
Context {S : Type} (fn : list bytes -> bytes -> option bytes -> Z -> S -> outcome S).

Definition node_val (n : dbnode) : option bytes := match n with NVal v => Some v | NBucket _ _ => None end.

(** [walkBucket]: a value is visited with the sequence of its bucket. *)
Fixpoint walkBucket (keypath : list bytes) (k : bytes) (n : dbnode) (seq : Z) (s : S) {struct n} : outcome S :=
  s ← fn keypath k (node_val n) seq s;
  match n with
  | NVal _ => Ok s
  | NBucket _ children =>
      (fix each (l : list (bytes * dbnode)) (s : S) : outcome S :=
         match l with
         | [] => Ok s
         | (k', n') :: l' =>
             s ← walkBucket (keypath ++ [k]) k' n' (match n' with NVal _ => seq | NBucket seq' _ => seq' end) s;
             each l' s
         end) children s
  end.

(** The loop over the children of a bucket. *)
Fixpoint walk_children (keypath : list bytes) (seq : Z) (l : list (bytes * dbnode)) (s : S) : outcome S :=
  match l with
  | [] => Ok s
  | (k, n) :: l' =>
      s ← walkBucket keypath k n (match n with NVal _ => seq | NBucket seq' _ => seq' end) s;
      walk_children keypath seq l' s
  end.

Lemma walkBucket_eq keypath k n seq s : walkBucket keypath k n seq s =
  (s ← fn keypath k (node_val n) seq s;
   match n with NVal _ => Ok s | NBucket _ children => walk_children (keypath ++ [k]) seq children s end).
Proof.
  destruct n as [v|sq children]; [done|]. cbn [walkBucket]. destruct (fn keypath k _ seq s) as [s'| |]; [|done..].
  cbn [mbind outcome_bind]. revert s'. induction children as [|[k' n'] l IH]; intros s'; [done|]. cbn [walk_children].
  destruct (walkBucket (keypath ++ [k]) k' n' _ s') as [s''| |]; [|done..]. apply IH.
Qed.

(** [walk], over the buckets of the root. *)
Definition walk (src : list (bytes * dbnode)) (s : S) : outcome S := walk_children [] 0 src s.
End walk.

(** ** The copy *)

Section compact.
Context {X : Type} `{!BoltTx X} (Commit : X -> outcome X) (compactTxMaxSizeBytes : Z).

Definition is_bucket (p : list bytes) (tx : X) : bool :=
  match tx_find p tx with Some (EBucket _) => true | _ => false end.

(** The descent along the keys: every bucket on the way is there. *)
Definition descend (keys : list bytes) (tx : X) : bool := forallb (fun n => is_bucket (take n keys) tx) (seq 1 (length keys)).

(** The callback: the transaction and the size of what it holds.  A bucket
    that is not there is nil, whose methods panic. *)
Definition copy_entry (keys : list bytes) (k : bytes) (v : option bytes) (seq : Z) (st : X * Z) : outcome (X * Z) :=
  let '(tx, size) := st in
  let sz := Z.of_nat (length k + length (default [] v)) in
  '(tx, size) ← (if (compactTxMaxSizeBytes <? wrap64 (size + sz)) && negb (compactTxMaxSizeBytes =? 0)
                 then tx ← Commit tx; Ok (tx, 0) else Ok (tx, size));
  let size := wrap64 (size + sz) in
  match keys with
  | [] => tx ← tx_CreateBucket [] k tx; tx ← tx_SetSequence [k] seq tx; Ok (tx, size)
  | _ =>
      if descend keys tx
      then match v with
           | None => tx ← tx_CreateBucket keys k tx; tx ← tx_SetSequence (keys ++ [k]) seq tx; Ok (tx, size)
           | Some v => tx ← tx_Put keys k v tx; Ok (tx, size)
           end
      else Panic
  end.

Definition compactInBatches (src : list (bytes * dbnode)) : outcome X :=
  '(tx, _) ← walk copy_entry src (tx_empty, 0);
  Commit tx.

(** What the file system answers to each of the steps. *)
Record file_errors := FileErrors {
  fe_stat : option bytes;
  fe_open : option bytes;
  fe_stat2 : option bytes;
  fe_zero : bool;
  fe_rename : option bytes;
  fe_reopen : option bytes;
}.

(** [Compact]: the database that is open afterwards, the old or the new one,
    or none ([b.db] is nil), and the error. *)
Definition Compact (fe : file_errors) (src : list (bytes * dbnode)) : outcome (option (list (bytes * dbnode) + X) * option bytes) :=
  let keep err := Ok (Some (inl src), Some err) in
  match fe_stat fe with Some err => keep err | None =>
  match fe_open fe with Some err => keep err | None =>
  match compactInBatches src with
  | Panic => Panic
  | Fail err => keep err
  | Ok dst =>
      match fe_stat2 fe with Some err => keep err | None =>
      if fe_zero fe then keep (bs "zero db size")
      else match fe_rename fe with
           | Some err =>
               match fe_reopen fe with
               | Some err2 => Ok (None, Some (err ++ bs ". And: " ++ err2))
               | None => keep err
               end
           | None =>
               match fe_reopen fe with
               | Some err => Ok (None, Some err)
               | None => Ok (Some (inr dst), None)
               end
           end
      end
  end end end.

(** What a reader finds in the database that is open. *)
Definition open_find (p : list bytes) (d : list (bytes * dbnode) + X) : option entry :=
  match d with inl src => db_find p src | inr dst => tx_find p dst end.
End compact.

(** ** Well-formed databases *)

(** Names and values within bolt's limits, no name twice in a bucket. *)
Inductive node_wf : dbnode -> Prop :=
| wf_val v : val_ok v -> node_wf (NVal v)
| wf_bucket seq ch : Forall (fun kn => key_ok (fst kn) /\ node_wf (snd kn)) ch -> NoDup (fst <$> ch) -> node_wf (NBucket seq ch).

(** Only buckets at the root. *)
Definition db_wf (db : list (bytes * dbnode)) : Prop :=
  NoDup (fst <$> db) /\ Forall (fun kn => key_ok (fst kn) /\ node_wf (snd kn) /\ node_val (snd kn) = None) db.

Lemma find_child_None {A} k (l : list (bytes * A)) : k ∉ (fst <$> l) -> find_child k l = None.
Proof.
  induction l as [|[k' n] l IH]; [done|]. cbn. rewrite not_elem_of_cons. intros [H1 H2]. rewrite decide_False by congruence. by apply IH.
Qed.

(** ** A copied entry *)

Section copy.
Context {X : Type} `{!BoltTx X, !BoltTxLaws X} (Commit : X -> outcome X) (max : Z) (HC : forall x, Commit x = Ok x).

(** [x'] is [x] with the node [n] at the free name [k] of the bucket [kp]. *)
Definition grafted (kp : list bytes) (k : bytes) (n : dbnode) (x x' : X) : Prop :=
  (forall q, tx_find (kp ++ k :: q) x' = node_find q n) /\
  (forall p, (forall q, p <> kp ++ k :: q) -> tx_find p x' = tx_find p x).

(** Every bucket on the path is there. *)
Definition open_path (kp : list bytes) (x : X) : Prop := forall n, (1 <= n <= length kp)%nat -> is_bucket (take n kp) x = true.

Lemma open_descend kp x : open_path kp x -> descend kp x = true.
Proof. intros Ho. apply forallb_forall. intros n Hn. apply in_seq in Hn. apply Ho. lia. Qed.

Lemma open_bucket kp x : open_path kp x -> bucket_at kp x.
Proof.
  intros Ho. destruct kp as [|k kp]; [by left|right]. specialize (Ho (length (k :: kp)) ltac:(cbn; lia)).
  unfold is_bucket in Ho. rewrite take_ge in Ho by done. destruct (tx_find (k :: kp) x) as [[|seq]|]; [done|by exists seq|done].
Qed.

(** Adding below a bucket keeps the path open. *)
Lemma open_path_set kp k e x x' : open_path kp x -> set_at x x' (kp ++ [k]) e -> open_path kp x'.
Proof.
  intros Ho Hs n Hn. unfold is_bucket. rewrite Hs, decide_False; [by apply Ho|].
  intros E. apply (f_equal length) in E. rewrite length_take, length_app in E. cbn in E. lia.
Qed.

Lemma copy_bucket kp k seq x size : open_path kp x -> key_ok k -> tx_find (kp ++ [k]) x = None ->
  exists x' size', copy_entry Commit max kp k None seq (x, size) = Ok (x', size') /\ set_at x x' (kp ++ [k]) (EBucket seq).
Proof.
  intros Ho Hk Hf. destruct (create_bucket kp k x (open_bucket _ _ Ho) Hk Hf) as (x1 & E1 & S1).
  destruct (set_sequence (kp ++ [k]) seq 0 x1) as (x2 & E2 & S2); [by rewrite S1, decide_True|].
  exists x2, (wrap64 ((if (max <? wrap64 (size + Z.of_nat (length k + 0))) && negb (max =? 0) then 0 else size) + Z.of_nat (length k + 0))).
  split; [|intros q; rewrite S2, S1; by repeat case_decide].
  unfold copy_entry. cbn [default length]. rewrite HC. cbn [mbind outcome_bind].
  destruct ((_ <? _) && _); cbn [mbind outcome_bind]; (destruct kp as [|k0 kp]; [rewrite E1; cbn in E2 |- *; by rewrite E2|]);
    rewrite (open_descend _ _ Ho), E1; cbn [mbind outcome_bind]; by rewrite E2.
Qed.

Lemma copy_value kp k v seq x size : kp <> [] -> open_path kp x -> key_ok k -> val_ok v -> tx_find (kp ++ [k]) x = None ->
  exists x' size', copy_entry Commit max kp k (Some v) seq (x, size) = Ok (x', size') /\ set_at x x' (kp ++ [k]) (EVal v).
Proof.
  intros Hne Ho Hk Hv Hf. destruct (put_value kp k v x Hne (open_bucket _ _ Ho) Hk Hv Hf) as (x1 & E1 & S1).
  exists x1, (wrap64 ((if (max <? wrap64 (size + Z.of_nat (length k + length v))) && negb (max =? 0) then 0 else size) + Z.of_nat (length k + length v))).
  split; [|done]. unfold copy_entry. cbn [default]. rewrite HC. cbn [mbind outcome_bind].
  destruct ((_ <? _) && _); cbn [mbind outcome_bind]; (destruct kp as [|k0 kp]; [done|]);
    rewrite (open_descend _ _ Ho), E1; done.
Qed.

(** The children of a bucket are grafted one after the other. *)
Definition copies (kp : list bytes) (n : dbnode) (k : bytes) : Prop := forall seq x size,
  (node_val n <> None -> kp <> []) -> seq = match n with NVal _ => seq | NBucket s _ => s end ->
  open_path kp x -> key_ok k -> (forall q, tx_find (kp ++ k :: q) x = None) ->
  exists x' size', walkBucket (copy_entry Commit max) kp k n seq (x, size) = Ok (x', size') /\ grafted kp k n x x'.

Lemma open_path_grafted kp k n x x' : open_path kp x -> grafted kp k n x x' -> open_path kp x'.
Proof.
  intros Ho [_ Hg] m Hm. unfold is_bucket. rewrite Hg; [by apply Ho|].
  intros q E. apply (f_equal length) in E. rewrite length_take, length_app in E. cbn in E. lia.
Qed.

Lemma copy_children kp seq ch : Forall (fun kn => copies kp (snd kn) (fst kn) /\ key_ok (fst kn)) ch -> NoDup (fst <$> ch) ->
  (forall kn, kn ∈ ch -> node_val (snd kn) <> None -> kp <> []) ->
  forall x size, open_path kp x -> (forall k q, k ∈ (fst <$> ch) -> tx_find (kp ++ k :: q) x = None) ->
  exists x' size', walk_children (copy_entry Commit max) kp seq ch (x, size) = Ok (x', size') /\
    (forall k q, tx_find (kp ++ k :: q) x' =
      match find_child k ch with Some n => node_find q n | None => tx_find (kp ++ k :: q) x end) /\
    (forall p, (forall k q, p <> kp ++ k :: q) -> tx_find p x' = tx_find p x).
Proof.
  intros Hch. induction Hch as [|[k n] ch (Hc & Hk) _ IH]; intros Hnd Hval x size Ho Hfree.
  { exists x, size. done. }
  cbn in Hnd. apply NoDup_cons in Hnd as [Hnin Hnd]. cbn [fst snd] in *.
  destruct (Hc (match n with NVal _ => seq | NBucket s _ => s end) x size) as (x1 & size1 & E1 & G1);
    [intros Hn; exact (Hval (k, n) ltac:(by left) Hn)|by destruct n|done|done|intros q; apply Hfree; by left|].
  pose proof G1 as [Gk Go].
  assert (Hother : forall k' q, k' <> k -> tx_find (kp ++ k' :: q) x1 = tx_find (kp ++ k' :: q) x).
  { intros k' q Hne. apply Go. intros q' E. apply app_inv_head in E. congruence. }
  destruct (IH Hnd) with (x := x1) (size := size1) as (x2 & size2 & E2 & H2 & H2').
  - intros kn Hkn. apply Hval. by right.
  - by eapply open_path_grafted.
  - intros k' q Hk'. rewrite Hother by congruence. apply Hfree. by right.
  - exists x2, size2. cbn [walk_children]. rewrite E1. split; [done|]. split.
    + intros k' q. rewrite H2. cbn [find_child]. destruct (decide (k = k')) as [<-|Hne].
      * by rewrite (find_child_None k ch Hnin), Gk.
      * by destruct (find_child k' ch); [|apply Hother].
    + intros p Hp. rewrite H2' by done. apply Go. intros q. apply Hp.
Qed.

Lemma open_path_below kp k seq x x' : open_path kp x -> set_at x x' (kp ++ [k]) (EBucket seq) -> open_path (kp ++ [k]) x'.
Proof.
  intros Ho Hs n Hn. rewrite length_app in Hn. cbn in Hn. destruct (decide (n = S (length kp))) as [->|Hne].
  - unfold is_bucket. rewrite take_ge by (rewrite length_app; cbn; lia). by rewrite Hs, decide_True.
  - rewrite take_app_le by lia. by eapply open_path_set; [..|lia].
Qed.

Lemma copy_node n : node_wf n -> forall kp k, copies kp n k.
Proof.
  revert n. fix IH 2. intros n Hwf kp k seq x size Hval Hseq Ho Hk Hfree. destruct Hwf as [v Hv|s ch Hch Hnd].
  - destruct (copy_value kp k v seq x size) as (x' & size' & E & Hs); [apply Hval; done|done..|by apply (Hfree [])|].
    exists x', size'. rewrite walkBucket_eq. cbn [node_val]. rewrite E. split; [done|]. split.
    + intros [|k' q]; rewrite Hs; [by rewrite decide_True|]. rewrite decide_False; [by rewrite Hfree|].
      intros E'. by apply app_inv_head in E'.
    + intros p Hp. rewrite Hs, decide_False; [done|]. apply Hp.
  - subst seq. destruct (copy_bucket kp k s x size) as (x1 & size1 & E1 & S1); [done..|by apply (Hfree [])|].
    assert (Hbelow : forall k' q, tx_find ((kp ++ [k]) ++ k' :: q) x1 = None).
    { intros k' q. rewrite S1, decide_False, <- app_assoc; [apply Hfree|].
      intros E'. apply (f_equal length) in E'. rewrite !length_app in E'. cbn in E'. lia. }
    destruct (copy_children (kp ++ [k]) s ch) with (x := x1) (size := size1) as (x2 & size2 & E2 & H2 & H2').
    + clear - IH Hch. induction Hch as [|kn ch' (Hk & Hn) _ IHch]; constructor; [|exact IHch]. split; [by apply IH|exact Hk].
    + done.
    + intros _ _ _ E'. by destruct kp.
    + by eapply open_path_below.
    + intros k' q _. apply Hbelow.
    + exists x2, size2. rewrite walkBucket_eq. cbn [node_val]. rewrite E1. cbn [mbind outcome_bind]. split; [done|]. split.
      * intros [|k' q].
        -- rewrite H2'; [by rewrite S1, decide_True|]. intros k' q E'. apply (f_equal length) in E'. rewrite !length_app in E'. cbn in E'. lia.
        -- specialize (H2 k' q). rewrite <- app_assoc in H2. cbn [app] in H2. rewrite H2. cbn [node_find].
           destruct (find_child k' ch); [done|]. specialize (Hbelow k' q). by rewrite <- app_assoc in Hbelow.
      * intros p Hp. rewrite H2'; [rewrite S1, decide_False; [done|apply Hp]|].
        intros k' q E'. apply (Hp (k' :: q)). by rewrite E', <- app_assoc.
Qed.

Lemma copy_db src : db_wf src -> exists x, compactInBatches Commit max src = Ok x /\ forall p, tx_find p x = db_find p src.
Proof.
  intros [Hnd Hwf]. destruct (copy_children [] 0 src) with (x := tx_empty) (size := 0) as (x & size & E & H1 & H2).
  - eapply Forall_impl; [exact Hwf|]. intros kn (Hk & Hn & _). split; [by apply copy_node|done].
  - done.
  - intros kn Hkn Hv. rewrite Forall_forall in Hwf. by destruct (Hwf kn Hkn) as (_ & _ & ?).
  - intros n Hn. cbn in Hn. lia.
  - intros k q _. apply find_empty.
  - exists x. unfold compactInBatches, walk. rewrite E. cbn. split; [apply HC|]. intros [|k q].
    + rewrite H2 by done. apply find_empty.
    + specialize (H1 k q). cbn in H1. rewrite H1. cbn. by destruct (find_child k src); [|apply find_empty].
Qed.
End copy.

(** ** Failing commits *)

(** A callback that fails more often makes a walk fail or changes nothing. *)
Section failing.
Context {S : Type} (fn fn' : list bytes -> bytes -> option bytes -> Z -> S -> outcome S).
Hypothesis Hfn : forall kp k v seq s, (exists err, fn kp k v seq s = Fail err) \/ fn kp k v seq s = fn' kp k v seq s.

Lemma walk_children_failing l : Forall (fun kn => forall kp seq s,
    (exists err, walkBucket fn kp (fst kn) (snd kn) seq s = Fail err) \/
    walkBucket fn kp (fst kn) (snd kn) seq s = walkBucket fn' kp (fst kn) (snd kn) seq s) l ->
  forall kp seq s, (exists err, walk_children fn kp seq l s = Fail err) \/ walk_children fn kp seq l s = walk_children fn' kp seq l s.
Proof.
  intros Hl. induction Hl as [|[k n] l Hn _ IH]; intros kp seq s; [by right|]. cbn [walk_children].
  destruct (Hn kp (match n with NVal _ => seq | NBucket s _ => s end) s) as [[err E]|E]; cbn [fst snd] in E.
  - rewrite E. left. by exists err.
  - rewrite E. destruct (walkBucket fn' _ _ _ _ _); [apply IH|by left; eexists|by right].
Qed.

Lemma walkBucket_failing n : forall kp k seq s,
  (exists err, walkBucket fn kp k n seq s = Fail err) \/ walkBucket fn kp k n seq s = walkBucket fn' kp k n seq s.
Proof.
  revert n. fix IH 1. intros n kp k seq s. rewrite !walkBucket_eq.
  destruct (Hfn kp k (node_val n) seq s) as [[err E]|E].
  - rewrite E. left. by exists err.
  - rewrite E. destruct (fn' kp k (node_val n) seq s) as [s'| |]; [|by left; eexists|by right]. cbn [mbind outcome_bind].
    destruct n as [v|sq ch]; [by right|]. apply walk_children_failing.
    clear - IH. induction ch as [|[k n] ch IHch]; constructor; [intros kp seq s; exact (IH n kp k seq s)|exact IHch].
Qed.
End failing.

(** ** A database as a map *)

#[export] Instance gmap_BoltTx : BoltTx (gmap (list bytes) entry) := {|
  tx_empty := ∅;
  tx_find p x := x !! p;
  tx_CreateBucket p k x :=
    match x !! (p ++ [k]) with None => Ok (<[p ++ [k] := EBucket 0]> x) | Some _ => Fail (bs "bucket already exists") end;
  tx_SetSequence p seq x := Ok (<[p := EBucket seq]> x);
  tx_Put p k v x :=
    match x !! (p ++ [k]) with Some (EBucket _) => Fail (bs "incompatible value") | _ => Ok (<[p ++ [k] := EVal v]> x) end;
|}.

Lemma gmap_set_at (x : gmap (list bytes) entry) p e : set_at x (<[p := e]> x) p e.
Proof. intros q. cbn. case_decide as E; [by rewrite E, lookup_insert_eq|by rewrite lookup_insert_ne]. Qed.

#[export] Instance gmap_BoltTxLaws : BoltTxLaws (gmap (list bytes) entry).
Proof.
  split; cbn.
  - intros p. apply lookup_empty.
  - intros p k x _ _ E. rewrite E. eexists. split; [done|apply gmap_set_at].
  - intros. eexists. split; [done|apply gmap_set_at].
  - intros p k v x _ _ _ _ E. rewrite E. eexists. split; [done|apply gmap_set_at].
Qed.

(** ** Properties *)

Definition ex_src : list (bytes * dbnode) :=
  [(bs "data", NBucket 0 [(bs "chk", NVal (bs "state"))]);
   (bs "meta", NBucket 3 [(bs "chk", NVal (bs "m")); (bs "sub", NBucket 1 [(bs "x", NVal [])])]);
   (bs "size", NBucket 0 [])].
Definition ex_files (rename reopen : option bytes) : file_errors := FileErrors None None None false rename reopen.

(** C19. A compaction loses nothing: for a database within bolt's limits and
    any bound on the size of a transaction, whatever step or commit fails,
    [Compact] does not panic, a compaction without an error has put a new
    database in place, and the database that is open afterwards, the new or
    the old one, holds at every path what the old one held; none is open only
    when the file cannot be opened again. *)
Theorem compact_preserves {X : Type} `{!BoltTx X, !BoltTxLaws X} (Commit : X -> outcome X) (max : Z) (fe : file_errors)
  (src : list (bytes * dbnode)) (Hwf : db_wf src) (HC : forall x, Commit x = Ok x \/ exists err, Commit x = Fail err) :
  exists d err, Compact Commit max fe src = Ok (d, err) /\
    (err = None -> exists dst, d = Some (inr dst)) /\
    (d = None -> fe_reopen fe <> None) /\
    (forall db p, d = Some db -> open_find p db = db_find p src).
Proof.
  destruct (copy_db (fun x => Ok x) max (fun x => eq_refl) src Hwf) as (x & Ex & Hx).
  assert (Hb : (exists err, compactInBatches Commit max src = Fail err) \/ compactInBatches Commit max src = Ok x).
  { rewrite <- Ex. unfold compactInBatches, walk.
    destruct (walk_children_failing (copy_entry Commit max) (copy_entry (fun x => Ok x) max) src) with (kp := @nil bytes) (seq := 0) (s := (tx_empty, 0))
      as [[err E]|E].
    - apply Forall_forall. intros kn _ kp seq s. apply walkBucket_failing. clear kp seq s. intros kp k v seq [y size]. unfold copy_entry.
      destruct ((_ <? _) && _); [|by right]. destruct (HC y) as [->|[err ->]]; [by right|left; by exists err].
    - rewrite E. left. by exists err.
    - rewrite E. clear E. destruct (walk_children _ _ _ _ _) as [[tx size]|err|]; [|left; by exists err|by right].
      cbn [mbind outcome_bind]. destruct (HC tx) as [->|[err ->]]; [by right|left; by exists err]. }
  assert (Hkeep : forall err : bytes, exists (d : option (list (bytes * dbnode) + X)) e, Ok (Some (inl src), Some err) = Ok (d, e) /\ (e = None -> exists dst : X, d = Some (inr dst)) /\
    (d = None -> fe_reopen fe <> None) /\ (forall db p, d = Some db -> open_find p db = db_find p src)).
  { intros err. exists (Some (inl src)), (Some err). split_and!; [done..|]. by intros db p [= <-]. }
  unfold Compact. destruct (fe_stat fe); [apply Hkeep|]. destruct (fe_open fe); [apply Hkeep|].
  destruct Hb as [[err ->]| ->]; [apply Hkeep|]. destruct (fe_stat2 fe); [apply Hkeep|]. destruct (fe_zero fe); [apply Hkeep|].
  destruct (fe_rename fe), (fe_reopen fe); [by eexists _, _|apply Hkeep|by eexists _, _|].
  exists (Some (inr x)), None. split_and!; [done|by exists x|done|]. intros db p [= <-]. apply Hx.
Qed.

Lemma compact_preserves_witness : exists d err,
  Compact (fun x : gmap (list bytes) entry => Ok x) 8 (ex_files None None) ex_src = Ok (d, err) /\
  (forall db, d = Some db -> open_find [bs "meta"; bs "sub"; bs "x"] db = Some (EVal [])).
Proof.
  destruct (compact_preserves (fun x : gmap (list bytes) entry => Ok x) 8 (ex_files None None) ex_src) as (d & err & E & _ & _ & H).
  - split; [apply (bool_decide_unpack _); by vm_compute|].
    repeat constructor; cbn; try lia; try set_solver; unfold val_ok, MaxValueSize, MaxKeySize; cbn; lia.
  - by left.
  - exists d, err. split; [exact E|]. intros db Hdb. by rewrite (H db _ Hdb).
Defined.

(** When the file cannot be opened again the saver is left without one. *)
Example reopen_fails :
  Compact (fun x : gmap (list bytes) entry => Ok x) 0 (ex_files None (Some (bs "busy"))) ex_src = Ok (None, Some (bs "busy")).
Proof. by vm_compute. Qed.
