(* ===== verification/Transfer.v ===== *)
(** * Transfer: sending an entry in chunks

    [runSendFile] of [src/peer/gcli/client.go] cuts a message into chunks with
    checksums and puts them on a stream, and [SendFile] of [src/peer/gserv/server.go] checks and
    assembles them.  The stream is the list of the chunks that arrive before
    the end of the file.  blake2b is a parameter; times, dialing and logging
    are left out. *)

From S2P Require Import Prelude Msgp Api Store.
Open Scope Z_scope.

(** A chunk, without the two times that are only printed. *)
Record BigFileChunk := MkBigFileChunk {
  bc_IsBcastSet : bool;
  bc_Filepath : bytes;
  bc_SizeInBytes : Z;
  bc_Blake2B : bytes;
  bc_Blake2BCumulative : bytes;
  bc_Data : bytes;
  bc_ChunkNumber : Z;
  bc_IsLastChunk : bool;
}.

Section transfer.
Context (blake2b : bytes -> bytes).

(** ** The sender *)

Definition numChunk (n maxChunkSize : nat) : nat :=
  (n / maxChunkSize + (if decide (0 < n mod maxChunkSize)%nat then 1 else 0))%nat.

(** The loop: [todo] rounds are left, [i] are done, and [nextByte] bytes are
    sent. *)
Fixpoint send_loop (path data : bytes) (maxChunkSize : nat) (isBcastSet : bool) (todo i nextByte : nat) : list BigFileChunk :=
  match todo with
  | O => []
  | S todo' =>
      let sendLen := Nat.min maxChunkSize (length data - i * maxChunkSize) in
      let chunk := take sendLen (drop nextByte data) in
      let nextByte' := (nextByte + sendLen)%nat in
      MkBigFileChunk isBcastSet path (Z.of_nat sendLen) (blake2b chunk) (blake2b (take nextByte' data)) chunk (Z.of_nat i)
        (bool_decide (todo' = 0%nat))
      :: send_loop path data maxChunkSize isBcastSet todo' (S i) nextByte'
  end.

Definition runSendFile (path data : bytes) (maxChunkSize : nat) (isBcastSet : bool) : list BigFileChunk :=
  send_loop path data maxChunkSize isBcastSet (numChunk (length data) maxChunkSize) 0 0.

(** [ClientSendFile] uses chunks of a megabyte. *)
Definition chunkSz : nat := Z.to_nat (2 ^ 20).

Definition ClientSendFile (path data : bytes) (isBcastSet : bool) : list BigFileChunk := runSendFile path data chunkSz isBcastSet.

(** What becomes of the stream: whether it can be opened, the first [Send]
    that fails and whether with [io.EOF], and the answer of [CloseAndRecv]:
    an error, or whether it reports the size of the message. *)
Record stream := MkStream {
  st_open : bool;
  st_fails : option (nat * bool);
  st_reply : option bool;
}.

(** The chunks that [runSendFile] puts on the stream.  A stream that cannot be
    opened and an error at the end are returned, and the callers ignore them;
    a [Send] that fails panics, but for the end of the file at the last chunk,
    and so does another size. *)
Definition send_chunks (chunks : list BigFileChunk) (st : stream) : outcome (list BigFileChunk) :=
  let close sent := match st_reply st with Some false => Panic | _ => Ok sent end in
  if negb (st_open st) then Ok []
  else
    match st_fails st with
    | Some (i, eof) =>
        if decide (i < length chunks)%nat then
          if eof && bool_decide (S i = length chunks) then close (take i chunks) else Panic
        else close chunks
    | None => close chunks
    end.

Lemma send_chunks_cases chunks st : (exists sent, send_chunks chunks st = Ok sent) \/ send_chunks chunks st = Panic.
Proof. unfold send_chunks. repeat case_match; eauto. Qed.

(** A stream on which nothing panics. *)
Definition steady (st : stream) : Prop := st_open st = true -> st_fails st = None /\ st_reply st <> Some false.

Lemma send_steady chunks st : steady st -> send_chunks chunks st = Ok (if st_open st then chunks else []).
Proof.
  unfold steady, send_chunks. destruct (st_open st); [|done]. intros H. destruct (H eq_refl) as [-> Hr].
  by destruct (st_reply st) as [[]|].
Qed.

(** ** The receiver *)

(** What the receiver hands to the peer. *)
Inductive received :=
| GotNothing
| GotSet (req : BcastSetRequest)
| GotReply (reply : BcastGetReply).

Record rstate := RState {
  rs_path : bytes;
  rs_firstChunkSeen : bool;
  rs_isBcastSet : bool;
  rs_allChunks : bytes;
}.

(** The end of a file: the key of the entry is printed, so it must not be nil. *)
Definition assemble (isBcastSet : bool) (kiBytes : bytes) : outcome received :=
  if isBcastSet then
    req ← UnmarshalMsg kiBytes;
    match sr_Ki req with Some _ => Ok (GotSet req) | None => Panic end
  else
    reply ← UnmarshalMsg kiBytes;
    match gy_Ki reply with Some _ => Ok (GotReply reply) | None => Panic end.

(** One round on a chunk: go on, or the end. *)
Definition recv_chunk (s : rstate) (nk : BigFileChunk) : outcome (rstate + received) :=
  let isBcastSet := if rs_firstChunkSeen s then rs_isBcastSet s else bc_IsBcastSet nk in
  let seen := rs_allChunks s ++ bc_Data nk in
  if decide (blake2b seen <> bc_Blake2BCumulative nk) then Fail (bs "cumulative checksums failed")
  else
    let path := if decide (rs_path s = []) then bc_Filepath nk else rs_path s in
    if decide (path <> [] /\ path <> bc_Filepath nk) then Panic
    else if decide (bc_SizeInBytes nk <> Z.of_nat (length (bc_Data nk))) then Fail (bs "nk.SizeInBytes != int64(len(nk.Data))")
    else if decide (blake2b (bc_Data nk) <> bc_Blake2B nk) then Fail (bs "bad .Data, checksum mismatch!")
    else if bc_IsLastChunk nk then r ← assemble isBcastSet seen; Ok (inr r)
    else Ok (inl (RState path true isBcastSet seen)).

Fixpoint recv_loop (s : rstate) (chunks : list BigFileChunk) : outcome received :=
  match chunks with
  | [] => Ok GotNothing
  | nk :: chunks' =>
      res ← recv_chunk s nk;
      match res with inr r => Ok r | inl s' => recv_loop s' chunks' end
  end.

Definition SendFile (chunks : list BigFileChunk) : outcome received := recv_loop (RState [] false false []) chunks.

(** ** The chunks of the sender *)

Lemma send_loop_spec path data M isSet todo : forall i, (0 < M)%nat ->
  Forall (fun nk => bc_Filepath nk = path /\ bc_IsBcastSet nk = isSet /\
    bc_SizeInBytes nk = Z.of_nat (length (bc_Data nk)) /\ bc_Blake2B nk = blake2b (bc_Data nk) /\
    (bc_IsLastChunk nk = true -> (length data <= (i + todo) * M)%nat -> bc_Blake2BCumulative nk = blake2b data))
    (send_loop path data M isSet todo i (Nat.min (i * M) (length data))).
Proof.
  induction todo as [|todo IH]; intros i HM; [constructor|]. cbn [send_loop].
  replace (Nat.min (i * M) (length data) + Nat.min M (length data - i * M))%nat
    with (Nat.min (S i * M) (length data)) by lia.
  constructor.
  - cbn. split_and!; [done|done| |done|].
    + rewrite length_take, length_drop. lia.
    + rewrite bool_decide_eq_true. intros -> Hl. f_equal. rewrite take_ge; [done|]. lia.
  - eapply Forall_impl; [exact (IH (S i) HM)|]. cbn. intros nk (H1 & H2 & H3 & H4 & H5).
    split_and!; [done..|]. intros Hlast Hl. apply H5; [done|lia].
Qed.

Lemma numChunk_enough n M : (0 < M)%nat -> (n <= numChunk n M * M)%nat.
Proof.
  intros HM. unfold numChunk. pose proof (Nat.div_mod_eq n M) as Hd. pose proof (Nat.mod_upper_bound n M) as Hr.
  set (q := (n / M)%nat) in *. set (r := (n mod M)%nat) in *. clearbody q r. case_decide; nia.
Qed.

Lemma runSendFile_nonempty path data M isSet : (0 < M)%nat -> data <> [] -> runSendFile path data M isSet <> [].
Proof.
  intros HM Hd. pose proof (numChunk_enough (length data) M HM) as Hn. unfold runSendFile.
  destruct (numChunk (length data) M); [|done]. destruct data; [done|]. cbn in Hn. lia.
Qed.

Lemma numChunk_tight n M : (0 < M)%nat -> (0 < n)%nat -> ((numChunk n M - 1) * M < n)%nat.
Proof.
  intros HM Hn. unfold numChunk. pose proof (Nat.div_mod_eq n M) as Hd. pose proof (Nat.mod_upper_bound n M) as Hr.
  set (q := (n / M)%nat) in *. set (r := (n mod M)%nat) in *. clearbody q r. case_decide.
  - replace (q + 1 - 1)%nat with q by lia. lia.
  - destruct q as [|q]; [lia|]. replace (S q + 0 - 1)%nat with q by lia. lia.
Qed.

Lemma sent_before n M i : (0 < M)%nat -> (i < numChunk n M)%nat -> (i * M < n)%nat.
Proof.
  intros HM Hi. destruct (decide (n = 0)%nat) as [->|Hn].
  - unfold numChunk in Hi. rewrite Nat.Div0.div_0_l, Nat.Div0.mod_0_l, decide_False in Hi by lia. lia.
  - pose proof (numChunk_tight n M HM ltac:(lia)) as Ht.
    eapply Nat.le_lt_trans; [|exact Ht]. apply Nat.mul_le_mono_r. lia.
Qed.

Lemma runSendFile_honest path data M isSet : (0 < M)%nat ->
  Forall (fun nk => bc_Filepath nk = path /\ bc_IsBcastSet nk = isSet /\
    (bc_IsLastChunk nk = true -> bc_Blake2BCumulative nk = blake2b data)) (runSendFile path data M isSet).
Proof.
  intros HM. unfold runSendFile. pose proof (send_loop_spec path data M isSet (numChunk (length data) M) 0 HM) as Hf.
  cbn [Nat.mul Nat.min] in Hf. eapply Forall_impl; [exact Hf|]. cbn. intros nk (H1 & H2 & _ & _ & H5).
  split_and!; [done..|]. intros Hl. apply H5; [done|]. by apply numChunk_enough.
Qed.

(** ** A whole file *)

(** The chunk of round [i], when [todo] rounds follow. *)
Definition nth_chunk (path data : bytes) (M : nat) (isSet : bool) (todo i : nat) : BigFileChunk :=
  let sendLen := Nat.min M (length data - i * M) in
  MkBigFileChunk isSet path (Z.of_nat sendLen) (blake2b (take sendLen (drop (i * M) data)))
    (blake2b (take (i * M + sendLen) data)) (take sendLen (drop (i * M) data)) (Z.of_nat i) (bool_decide (todo = 0%nat)).

Lemma recv_nth path data M isSet todo i st : (0 < M)%nat -> (S todo + i = numChunk (length data) M)%nat ->
  rs_allChunks st = take (i * M) data -> (rs_path st = [] \/ rs_path st = path) ->
  (rs_firstChunkSeen st = true -> rs_isBcastSet st = isSet) ->
  recv_chunk st (nth_chunk path data M isSet todo i) =
  if decide (todo = 0%nat) then r ← assemble isSet data; Ok (inr r) else Ok (inl (RState path true isSet (take (S i * M) data))).
Proof.
  intros HM Ht Ha Hpath Hset. assert (Hen := numChunk_enough (length data) M HM).
  assert (Hn := sent_before (length data) M i HM ltac:(lia)).
  unfold recv_chunk, nth_chunk. cbn zeta. cbn [bc_Data bc_Blake2BCumulative bc_Filepath bc_SizeInBytes bc_Blake2B bc_IsLastChunk bc_IsBcastSet].
  set (sl := Nat.min M (length data - i * M)).
  assert (Eseen : rs_allChunks st ++ take sl (drop (i * M) data) = take (i * M + sl) data) by (rewrite Ha; apply take_take_drop).
  rewrite Eseen, (decide_False (P := _ <> _)) by (intros Hc; by apply Hc).
  assert (Epath : (if decide (rs_path st = []) then path else rs_path st) = path) by (case_decide; [done|by destruct Hpath]).
  rewrite Epath, decide_False by (by intros []).
  rewrite decide_False by (rewrite length_take, length_drop; lia). rewrite decide_False by (intros Hc; by apply Hc).
  assert (Eset : (if rs_firstChunkSeen st then rs_isBcastSet st else isSet) = isSet) by (destruct (rs_firstChunkSeen st); auto).
  rewrite Eset. destruct (decide (todo = 0%nat)) as [->|Htodo].
  - rewrite bool_decide_true by done. by rewrite take_ge by lia.
  - rewrite bool_decide_false by done. pose proof (sent_before (length data) M (S i) HM ltac:(lia)).
    do 4 f_equal. lia.
Qed.

Lemma recv_send path data M isSet todo : forall i st, (0 < M)%nat ->
  (S todo + i = numChunk (length data) M)%nat ->
  rs_allChunks st = take (i * M) data -> (rs_path st = [] \/ rs_path st = path) ->
  (rs_firstChunkSeen st = true -> rs_isBcastSet st = isSet) ->
  recv_loop st (send_loop path data M isSet (S todo) i (i * M)) = assemble isSet data.
Proof.
  induction todo as [|todo IH]; intros i st HM Ht Ha Hpath Hset.
  - change (send_loop path data M isSet 1 i (i * M)) with [nth_chunk path data M isSet 0 i]. cbn [recv_loop].
    rewrite recv_nth by done. rewrite decide_True by done. by destruct (assemble isSet data).
  - change (send_loop path data M isSet (S (S todo)) i (i * M)) with (nth_chunk path data M isSet (S todo) i ::
      send_loop path data M isSet (S todo) (S i) (i * M + Nat.min M (length data - i * M))).
    set (rest := send_loop _ _ _ _ (S todo) (S i) _). cbn [recv_loop]. rewrite recv_nth by done. rewrite decide_False by done.
    cbn [mbind outcome_bind]. pose proof (sent_before (length data) M (S i) HM ltac:(lia)).
    replace rest with (send_loop path data M isSet (S todo) (S i) (S i * M)) by (unfold rest; f_equal; lia).
    apply IH; [done|lia|done|by right|done].
Qed.

(** A file that is not empty arrives whole. *)
Lemma SendFile_runSendFile path data M isSet : (0 < M)%nat -> data <> [] ->
  SendFile (runSendFile path data M isSet) = assemble isSet data.
Proof.
  intros HM Hd. assert (Hl : (0 < length data)%nat) by (destruct data; [done|cbn; lia]).
  unfold SendFile, runSendFile. destruct (numChunk (length data) M) as [|k] eqn:E.
  - pose proof (numChunk_enough (length data) M HM). rewrite E in *. lia.
  - apply (recv_send path data M isSet k 0); [done|lia|done|by left|done].
Qed.

(** What the receiver hands to the peer of what the sender marshalled. *)
Lemma set_arrives path M req : (0 < M)%nat -> BcastSetRequest_ok req ->
  SendFile (runSendFile path (MarshalMsg req) M true) = match sr_Ki req with Some _ => Ok (GotSet req) | None => Panic end.
Proof.
  intros HM Hreq. rewrite SendFile_runSendFile by (done || apply Marshal_nonempty). unfold assemble.
  by rewrite Unmarshal_Marshal by exact Hreq.
Qed.

Lemma reply_arrives path M reply : (0 < M)%nat -> BcastGetReply_ok reply ->
  SendFile (runSendFile path (MarshalMsg reply) M false) = match gy_Ki reply with Some _ => Ok (GotReply reply) | None => Panic end.
Proof.
  intros HM Hreply. rewrite SendFile_runSendFile by (done || apply Marshal_nonempty). unfold assemble.
  by rewrite Unmarshal_Marshal by exact Hreply.
Qed.
End transfer.

(** ** Properties *)

Definition ex_req : BcastSetRequest := MkBcastSetRequest (bs "A") (Some (MkKeyInv (bs "k") (bs "A") 7 3 [] (bs "val"))).
Definition ex_err_reply : BcastGetReply := MkBcastGetReply (bs "B") None (bs "no such key").

(** C21. A message arrives whole: what the sender cuts into chunks, of any size,
    the receiver accepts and assembles into the same bytes, from which it
    decodes the request or the reply that was sent; an error reply, which
    carries no entry, makes the receiver panic. *)
Theorem transfer_roundtrip
  (blake2b : bytes -> bytes) (path : bytes) (M : nat) (req : BcastSetRequest) (reply : BcastGetReply) (HM : (0 < M)%nat)
  (Hreq : BcastSetRequest_ok req) (Hreply : BcastGetReply_ok reply) :
  SendFile blake2b (runSendFile blake2b path (MarshalMsg req) M true) =
    match sr_Ki req with Some _ => Ok (GotSet req) | None => Panic end /\
  SendFile blake2b (runSendFile blake2b path (MarshalMsg reply) M false) =
    match gy_Ki reply with Some _ => Ok (GotReply reply) | None => Panic end.
Proof. split; [by apply set_arrives|by apply reply_arrives]. Qed.

Lemma transfer_roundtrip_witness :
  SendFile id (runSendFile id (bs "k") (MarshalMsg ex_req) 5 true) = Ok (GotSet ex_req) /\
  SendFile id (runSendFile id (bs "k") (MarshalMsg ex_err_reply) 5 false) = Panic.
Proof.
  apply (transfer_roundtrip id (bs "k") 5 ex_req ex_err_reply); [lia|split_and!; by vm_compute..].
Defined.

(** C32. Nothing but the message arrives: whatever chunks of a message reach
    the receiver, lost, repeated or out of order, if it hands something to
    the peer then that was decoded from bytes with the checksum of the
    message, hence from the message itself when blake2b has no collisions. *)
Theorem transfer_integrity (blake2b : bytes -> bytes)
  (path data : bytes) (M : nat) (isSet : bool) (chunks : list BigFileChunk) (r : received)
  (HM : (0 < M)%nat) (Hfrom : Forall (fun nk => nk ∈ runSendFile blake2b path data M isSet) chunks)
  (Hr : SendFile blake2b chunks = Ok r) (Hgot : r <> GotNothing) :
  exists seen, blake2b seen = blake2b data /\ assemble isSet seen = Ok r /\
    (Inj (=) (=) blake2b -> assemble isSet data = Ok r).
Proof.
  pose proof (runSendFile_honest blake2b path data M isSet HM) as Hh. rewrite Forall_forall in Hh.
  assert (Hst : rs_firstChunkSeen (RState [] false false []) = true -> rs_isBcastSet (RState [] false false []) = isSet) by done.
  unfold SendFile in Hr. revert Hst Hr. generalize (RState [] false false []).
  induction Hfrom as [|nk chunks Hnk _ IH]; intros st Hst Hr; [by injection Hr as <-|].
  destruct (Hh nk Hnk) as (_ & Hset & Hlast). cbn [recv_loop] in Hr. unfold recv_chunk in Hr. rewrite Hset in Hr.
  assert (Eset : (if rs_firstChunkSeen st then rs_isBcastSet st else isSet) = isSet) by (destruct (rs_firstChunkSeen st); auto).
  rewrite Eset in Hr. destruct (decide (blake2b _ <> _)) as [|Hsum]; [done|].
  do 3 (case_decide; [done|]). destruct (bc_IsLastChunk nk).
  - set (seen := rs_allChunks st ++ bc_Data nk) in *. exists seen.
    assert (Hsum' : blake2b seen = blake2b data) by (rewrite <- Hlast by done; by destruct (decide (blake2b seen = bc_Blake2BCumulative nk))).
    assert (Ha : assemble isSet seen = Ok r) by (destruct (assemble isSet seen); cbn in Hr; [by injection Hr as <-|done..]).
    split_and!; [done|done|]. intros Hinj. by rewrite <- (Hinj _ _ Hsum').
  - cbn in Hr. refine (IH _ _ Hr). done.
Qed.

Lemma transfer_integrity_witness :
  let chunks := runSendFile id (bs "k") (MarshalMsg ex_req) 5 true in
  exists seen, id seen = MarshalMsg ex_req /\ assemble true seen = Ok (GotSet ex_req).
Proof.
  intros chunks.
  destruct (transfer_integrity id (bs "k") (MarshalMsg ex_req) 5 true chunks (GotSet ex_req))
    as (seen & H1 & H2 & _); [lia|apply Forall_forall; by intros|by vm_compute|done|].
  by exists seen.
Defined.
