(* ===== verification/Peer.v ===== *)
(** * Peer: replicated checkpoints

    [src/peer/peer.go] and [bcast.go]: what a peer does with the list of the
    cluster, the queries for the latest checkpoint and the distribution of a
    new one.  The messages between peers are the bytes of their serialisers and
    the chunks of a transfer: a function that waits for answers takes the list
    of what arrives, whose end is the timeout, and one that sends returns what
    it sends.  [Errorf] is [fmt.Errorf] of a format without arguments.  The membership list that a peer receives
    from the health agent is an argument, [None] when none arrives in time. *)

From S2P Require Import Prelude Util Health Msgp Api Store Transfer.
Open Scope Z_scope.

(** ** The list of the cluster *)

Record LeadAndFollowList := MkLeadAndFollowList {
  lf_Members : list AgentLoc;
  lf_LeadID : bytes;
  lf_MyID : bytes;
}.

Record peerDetail := MkPeerDetail { pd_loc : AgentLoc; pd_subj : bytes }.

Record clusterStatus := MkClusterStatus {
  cs_follow : list peerDetail;
  cs_lead : option peerDetail;
  cs_myfollowSubj : bytes;
  cs_amLead : bool;
}.

Definition agentLoc2RecvCpSubj (a : AgentLoc) : bytes :=
  bs "recv-chkpt;id:" ++ al_ID a ++ bs ";nats-host:" ++ al_NatsHost a ++
  bs ";nats-client-port:" ++ itoa (al_NatsClientPort a) ++ bs ";rank:" ++ itoa (al_Rank a) ++
  bs ";pid:" ++ itoa (al_Pid a) ++ bs ";grpc.ext=" ++ hp_Host (ei_External (al_Grpc a)) ++
  bs ":" ++ itoa (hp_Port (ei_External (al_Grpc a))).

(** One round of the loop over the members. *)
Definition status_step (laf : LeadAndFollowList) (cs : clusterStatus) (m : AgentLoc) : clusterStatus :=
  let subj := agentLoc2RecvCpSubj m in
  if decide (al_ID m = lf_LeadID laf) then
    MkClusterStatus (cs_follow cs) (Some (MkPeerDetail m subj)) subj (cs_amLead cs)
  else
    MkClusterStatus (cs_follow cs ++ [MkPeerDetail m subj]) (cs_lead cs)
      (if decide (al_ID m = lf_MyID laf) then subj else cs_myfollowSubj cs) (cs_amLead cs).

Definition list2status (laf : LeadAndFollowList) : clusterStatus :=
  foldl (status_step laf) (MkClusterStatus [] None [] (bool_decide (lf_LeadID laf = lf_MyID laf))) (lf_Members laf).

(** ** Peers *)

(** [pe_seen] is [lastSeenInternalPortAloc]; [pe_dbpath] is the path of the
    SSH host database, to which [Who] is also compared; [pe_grpc] are the
    addresses of [GservCfg]. *)
Record Peer := MkPeer {
  pe_saver : BoltSaver;
  pe_loc : AgentLoc;
  pe_seen : gmap bytes AgentLoc;
  pe_dbpath : bytes;
  pe_grpc : ExtInt;
}.

Definition with_saver (p : Peer) (b : BoltSaver) : Peer := MkPeer b (pe_loc p) (pe_seen p) (pe_dbpath p) (pe_grpc p).

(** ** The membership *)

(** [nats.ServerLoc], of which these fields are read. *)
Record ServerLoc := MkServerLoc { sl_ID : bytes; sl_Host : bytes; sl_NatsPort : Z; sl_Rank : Z; sl_Pid : Z }.

Definition natsLocConvert (loc : ServerLoc) : AgentLoc :=
  let none := MkHostPort [] 0 in
  MkAgentLoc (sl_ID loc) (sl_Host loc) (sl_NatsPort loc) (MkExtInt none none) 0 (sl_Rank loc) (sl_Pid loc).

(** The handlers of the three membership reports: the list is passed on with
    the peer's own name; a full report also updates the peer's location. *)
Definition with_MyID (p : Peer) (laf : LeadAndFollowList) : LeadAndFollowList :=
  MkLeadAndFollowList (lf_Members laf) (lf_LeadID laf) (al_ID (pe_loc p)).

Definition on_membership (p : Peer) (laf : LeadAndFollowList) : Peer * LeadAndFollowList :=
  let loc := match find (fun v => bool_decide (al_ID v = al_ID (pe_loc p))) (lf_Members laf) with
             | Some v => v
             | None => pe_loc p
             end in
  (MkPeer (pe_saver p) loc (pe_seen p) (pe_dbpath p) (pe_grpc p), with_MyID p laf).

(** The answer to [<ID>.grpc-port-query]: the location with the ports of the
    configuration; any other query panics. *)
Definition on_query (p : Peer) (subSubject : bytes) : outcome AgentLoc :=
  if decide (subSubject = bs "grpc-port-query") then
    let a := pe_loc p in
    Ok (MkAgentLoc (al_ID a) (al_NatsHost a) (al_NatsClientPort a) (pe_grpc p) (al_LeaseExpires a) (al_Rank a) (al_Pid a))
  else Panic.

(** A round of [StartPeriodicClusterAgentLocQueries]: [answer] is what a
    request to a member brings, [None] on a timeout. *)
Definition loc_queries (p : Peer) (laf : LeadAndFollowList) (answer : bytes -> option AgentLoc) : Peer :=
  let seen := foldl (fun seen mem => match answer (al_ID mem) with
                                     | Some aloc => <[al_ID mem := aloc]> seen
                                     | None => seen
                                     end) (pe_seen p) (lf_Members laf) in
  MkPeer (pe_saver p) (pe_loc p) seen (pe_dbpath p) (pe_grpc p).

(** [None] is a shutdown. *)
Definition AmFollow (list : option LeadAndFollowList) : bool :=
  match list with Some laf => negb (bool_decide (lf_MyID laf = lf_LeadID laf)) | None => true end.


(** What arrives while a peer waits for answers: the data of a NATS message,
    a reply that came as a file, a file that made the receiver panic, or a
    shutdown. *)
Inductive incoming :=
| InMsg (data : bytes)
| InReply (reply : BcastGetReply)
| InPanic
| InShutdown.

Definition ErrTimedOut : bytes := bs "timed out".
Definition ErrShutdown : bytes := bs "shutting down".
Definition ErrAmFollower : bytes := bs "LeadTransferCheckpoint error: I am follower, not transmitting checkpoint".

Section peer.
Context {T : Type} `{!RBTree T} (Errorf : bytes -> bytes) (blake2b : bytes -> bytes)
        (put_error : bytes -> bytes -> option bytes) (Compact_error : BoltSaver -> option (bytes * bool)) (net : AgentLoc -> stream).

(** [WaitForPeerCount] on the lists that arrive before the timeout. *)
Fixpoint WaitForPeerCount (n : nat) (lists : list LeadAndFollowList) : outcome LeadAndFollowList :=
  match lists with
  | [] => Fail ErrTimedOut
  | laf :: lists' => if decide (n <= length (lf_Members laf))%nat then Ok laf else WaitForPeerCount n lists'
  end.

(** ** Getting *)

(** What is done with a reply; its error is the format of [fmt.Errorf]. *)
Definition take_reply (reply : BcastGetReply) (sorter : T) : outcome T :=
  if decide (gy_Err reply <> []) then Fail (Errorf (gy_Err reply))
  else match gy_Ki reply with Some ki => Ok (rb_Insert ki sorter) | None => Panic end.

(** The loop that waits for [n] answers. *)
Fixpoint collect_replies (n : nat) (events : list incoming) (sorter : T) : outcome T :=
  match n, events with
  | O, _ => Ok sorter
  | S _, [] => Fail ErrTimedOut
  | S n', InMsg data :: events' =>
      if decide (data = []) then Panic
      else
        reply ← UnmarshalMsg data;
        sorter' ← take_reply reply sorter;
        collect_replies n' events' sorter'
  | S n', InReply reply :: events' => sorter' ← take_reply reply sorter; collect_replies n' events' sorter'
  | S _, InPanic :: _ => Panic
  | S _, InShutdown :: _ => Fail ErrShutdown
  end.

Definition ClientInitiateBcastGet (p : Peer) (peers : option LeadAndFollowList) (key : bytes) (includeValue : bool)
    (who : bytes) (events : list incoming) : outcome (list KeyInv) :=
  let local := ki ← LocalGet (pe_saver p) key includeValue; Ok [ki] in
  match peers with
  | None => local
  | Some laf =>
      if decide (length (lf_Members laf) <= 1 \/ who = al_ID (pe_loc p))%nat then local
      else
        let numPeers := if decide (who <> []) then 1%nat else length (lf_Members laf) in
        sorter ← collect_replies numPeers events rb_New;
        Ok (rb_items sorter)
  end.

(** The request that goes out. *)
Definition bcast_get_request (p : Peer) (laf : LeadAndFollowList) (key who : bytes) (includeValue : bool) : BcastGetRequest :=
  MkBcastGetRequest (lf_MyID laf) key who includeValue (hp_Host (ei_External (pe_grpc p)))
    (hp_Port (ei_External (pe_grpc p))) (hp_Port (ei_Internal (pe_grpc p))).

(** The answer of a peer; [None] when another peer is asked. *)
Definition ServerHandleBcastGet (p : Peer) (bgr : BcastGetRequest) : outcome (option BcastGetReply) :=
  let who := gr_Who bgr in
  if decide (who <> [] /\ who <> al_ID (pe_loc p) /\ who <> bo_whoami (pe_saver p)) then Ok None
  else
    let from := al_ID (pe_loc p) in
    match LocalGet (pe_saver p) (gr_Key bgr) (gr_IncludeValue bgr) with
    | Ok ki => Ok (Some (MkBcastGetReply from
        (Some (MkKeyInv (ki_Key ki) from (ki_When ki) (ki_Size ki) (ki_Blake2b ki) (ki_Val ki))) []))
    | Fail err => Ok (Some (MkBcastGetReply from None err))
    | Panic => Panic
    end.

(** How the answer reaches the one who asked: as a message on NATS, or as a
    file when it carries the value. *)
Definition reply_sent (bgr : BcastGetRequest) (reply : BcastGetReply) : list incoming :=
  if gr_IncludeValue bgr then
    match SendFile blake2b (ClientSendFile blake2b (gr_Key bgr) (MarshalMsg reply) false) with
    | Ok (GotReply reply') => [InReply reply']
    | Panic => [InPanic]
    | _ => []
    end
  else [InMsg (MarshalMsg reply)].

(** Two queries: for the times, and for the value of the newest. *)
Definition GetLatest (p : Peer) (peers1 peers2 : option LeadAndFollowList) (key : bytes) (includeValue : bool)
    (events1 events2 : list incoming) : outcome KeyInv :=
  kis ← ClientInitiateBcastGet p peers1 key false [] events1;
  match last kis with
  | None => Panic
  | Some target =>
      if negb includeValue then Ok target
      else
        kisData ← ClientInitiateBcastGet p peers2 key true (ki_Who target) events2;
        match kisData with ki :: _ => Ok ki | [] => Panic end
  end.

(** ** Setting *)

Definition peer_set (p : Peer) (ki : KeyInv) : outcome (Peer * KeyInv * option bytes) :=
  '(b, ki, err) ← LocalSet blake2b put_error Compact_error (pe_saver p) ki; Ok (with_saver p b, ki, err).

(** The handler of [bcast_set], on the request as far as it was decoded: its
    errors are ignored, and the key of its entry is printed. *)
Definition on_bcast_set (p : Peer) (bsr : BcastSetRequest) : outcome (Peer * BcastSetReply) :=
  match sr_Ki bsr with
  | None => Panic
  | Some ki => '(p', _, err) ← peer_set p ki; Ok (p', MkBcastSetReply (default [] err))
  end.

(** The loop of [doGrpcClientSendFileSetRequest] over the followers: a follower
    whose full location is unknown is skipped, the error of a transfer is
    ignored, and a panic ends the loop.  The result is what went out, and where
    to. *)
Fixpoint send_followers (p : Peer) (chunks : list BigFileChunk) (follow : list peerDetail) : outcome (list (AgentLoc * list BigFileChunk)) :=
  match follow with
  | [] => Ok []
  | f :: follow' =>
      match pe_seen p !! al_ID (pd_loc f) with
      | None => send_followers p chunks follow'
      | Some fullLoc =>
          sent ← send_chunks chunks (net fullLoc);
          more ← send_followers p chunks follow';
          Ok ((fullLoc, sent) :: more)
      end
  end.

(** [doGrpcClientSendFileSetRequest] for a request with the entry [ki]. *)
Definition sends_to (p : Peer) (cs : clusterStatus) (FromID : bytes) (ki : KeyInv) : outcome (list (AgentLoc * list BigFileChunk)) :=
  let reqBytes := MarshalMsg (MkBcastSetRequest FromID (Some ki)) in
  send_followers p (ClientSendFile blake2b (ki_Key ki) reqBytes true) (cs_follow cs).

Definition BcastSet (p : Peer) (peers : option LeadAndFollowList) (ki : KeyInv) :
    outcome (Peer * list (AgentLoc * list BigFileChunk)) :=
  '(p', ki', err) ← peer_set p ki;
  match err with
  | Some e => Fail e
  | None =>
      match peers with
      | None => Ok (p', [])
      | Some laf =>
          if decide (length (lf_Members laf) <= 1)%nat then Ok (p', [])
          else sends ← sends_to p' (list2status laf) (lf_MyID laf) ki'; Ok (p', sends)
      end
  end.

(** A round of [BackgroundReceiveBcastSetAndWriteToBolt]; an error is logged. *)
Definition receive_set (p : Peer) (req : BcastSetRequest) : outcome Peer :=
  match sr_Ki req with
  | None => Panic
  | Some ki => if decide (0 < length (ki_Val ki))%nat then '(p', _, _) ← peer_set p ki; Ok p' else Panic
  end.

(** A file that arrives goes to that loop when it is a request; an error ends
    the transfer. *)
Definition receive_file (p : Peer) (chunks : list BigFileChunk) : outcome Peer :=
  match SendFile blake2b chunks with
  | Ok (GotSet req) => receive_set p req
  | Ok _ | Fail _ => Ok p
  | Panic => Panic
  end.

(** ** The lead *)

(** [laf] is the list that arrives first; [peers1], [peers2] and [peers3] are
    those of the queries and of the distribution. *)
Definition LeadTransferCheckpoint (p : Peer) (laf : LeadAndFollowList) (peers1 peers2 peers3 : option LeadAndFollowList)
    (events1 events2 : list incoming) (key chkptData : bytes) (when_ : Z) :
    outcome (Peer * list (AgentLoc * list BigFileChunk)) :=
  if decide (length chkptData = 0)%nat then
    ki ← GetLatest p peers1 peers2 key true events1 events2;
    if decide (ki_Who ki <> al_ID (pe_loc p) /\ ki_Who ki <> pe_dbpath p) then
      '(p', _, err) ← peer_set p ki;
      match err with Some e => Fail e | None => Ok (p', []) end
    else Ok (p, [])
  else if decide (lf_MyID laf <> lf_LeadID laf) then Fail ErrAmFollower
  else BcastSet p peers3 (MkKeyInv key [] when_ 0 [] chkptData).
End peer.
