(* ===== verification/PeerSpec.v ===== *)
(** * PeerSpec: what replication guarantees

    [GetLatest] finds the newest checkpoint of a cluster in whatever order the
    answers arrive; the lead's checkpoint reaches every follower whose location
    is known; a new lead recovers the newest one.  The other direction too: the
    ways in which a checkpoint is lost. *)

From S2P Require Import Prelude Util Health Msgp Api Store Transfer Peer.
From stdpp Require Import sorting.
Open Scope Z_scope.

(** ** The order of entries is a strict order *)

Lemma compare_lt_iff a b : compare a b = Lt <->
  string_lt (ki_Key a) (ki_Key b) = true \/
  (ki_Key a = ki_Key b /\ (ki_When a < ki_When b \/ (ki_When a = ki_When b /\ string_lt (ki_Who a) (ki_Who b) = true))).
Proof.
  destruct (decide (ki_Key a = ki_Key b)) as [Hk|Hk].
  - pose proof (compare_same_key a b Hk) as Hc. rewrite Hk, string_lt_irrefl.
    destruct (compare a b); [|tauto|].
    + destruct Hc as [H1 H2]. rewrite H1, H2, string_lt_irrefl. intuition (congruence || lia).
    + split; [done|]. intros [?|(_ & [?|[H1 H2]])]; [done|lia|].
      destruct Hc as [?|[_ H3]]; [lia|]. pose proof (string_lt_trans _ _ _ H2 H3) as E. by rewrite string_lt_irrefl in E.
  - unfold compare. rewrite <- bytes_Compare_lt. destruct (bytes_Compare _ _) eqn:E; [by apply bytes_Compare_eq in E|intuition..].
Qed.

Lemma compare_trans a b c : compare a b = Lt -> compare b c = Lt -> compare a c = Lt.
Proof.
  rewrite !compare_lt_iff.
  intros [H1|(E1 & H1)] [H2|(E2 & H2)]; rewrite ?E1, <- ?E2 in *; [left; by eapply string_lt_trans|by left..|].
  right. split; [done|]. destruct H1 as [?|[? H1]], H2 as [?|[? H2]]; [left; lia..|].
  right. split; [lia|]. by eapply string_lt_trans.
Qed.

Lemma compare_gt a b : compare a b = Gt -> compare b a = Lt.
Proof.
  intros Hg. rewrite compare_lt_iff. destruct (decide (ki_Key a = ki_Key b)) as [Hk|Hk].
  - pose proof (compare_same_key a b Hk) as Hc. rewrite Hg in Hc. right. intuition congruence.
  - left. apply bytes_Compare_gt. unfold compare in Hg. destruct (bytes_Compare _ _) eqn:E; [by apply bytes_Compare_eq in E|done..].
Qed.

Lemma compare_ne_lt a b : compare a b = Lt -> compare b a <> Eq.
Proof. rewrite compare_eq_iff. intros Hl (H1 & H2 & H3). enough (compare a b = Eq) by congruence. by apply compare_eq_iff. Qed.

(** The last entry of a rising list is the greatest. *)
Lemma rising_last l t y : rising l -> last l = Some t -> y ∈ l -> y = t \/ compare y t = Lt.
Proof.
  induction l as [|x l IH]; intros Hs Hl Hy; [done|]. apply StronglySorted_inv in Hs as [Hs Hx].
  destruct l as [|z l].
  - injection Hl as ->. apply list_elem_of_singleton in Hy. by left.
  - rewrite last_cons_cons in Hl. apply elem_of_cons in Hy as [->|Hy]; [|by apply IH].
    right. rewrite Forall_forall in Hx. apply Hx. by apply last_Some_elem_of.
Qed.

(** ** A sorted list is an inventory *)

Fixpoint sorted_insert (x : KeyInv) (l : list KeyInv) : list KeyInv :=
  match l with
  | [] => [x]
  | y :: l' => match compare x y with Lt => x :: l | Eq => l | Gt => y :: sorted_insert x l' end
  end.

Definition sorted_RBTree : RBTree (list KeyInv) := {| rb_New := []; rb_Insert := sorted_insert; rb_items l := l |}.

Lemma elem_of_inventory_insert x l y : rising l ->
  y ∈ sorted_insert x l <-> y ∈ l \/ (y = x /\ forall z, z ∈ l -> compare x z <> Eq).
Proof.
  induction l as [|z l IH]; intros Hs; cbn.
  - rewrite list_elem_of_singleton. set_solver.
  - apply StronglySorted_inv in Hs as [Hs Hz]. rewrite Forall_forall in Hz. destruct (compare x z) eqn:E.
    + split; [by left|]. intros [?|[-> Hne]]; [done|]. destruct (Hne z); [left|done].
    + rewrite elem_of_cons. split; [|tauto]. intros [->|?]; [|by left]. right. split; [done|].
      intros w Hw. apply elem_of_cons in Hw as [->|Hw]; [congruence|]. by rewrite (compare_trans x z w) by auto.
    + rewrite !elem_of_cons, IH by done. split.
      * intros [?|[?|[-> Hne]]]; [tauto..|]. right. split; [done|]. intros w Hw.
        apply elem_of_cons in Hw as [->|Hw]; [congruence|auto].
      * intros [[?|?]|[-> Hne]]; [tauto..|]. right. right. split; [done|]. intros w Hw. apply Hne. by right.
Qed.

Lemma sorted_RBTreeLaws : @RBTreeLaws (list KeyInv) sorted_RBTree.
Proof.
  split; [done| |exact elem_of_inventory_insert].
  intros x l. cbn. induction l as [|z l IH]; intros Hs; cbn; [by repeat constructor|].
  pose proof Hs as Hs0. apply StronglySorted_inv in Hs as [Hs Hz]. destruct (compare x z) eqn:E; [done| |].
  - constructor; [done|]. constructor; [done|]. eapply Forall_impl; [exact Hz|]. intros w Hw. by eapply compare_trans.
  - constructor; [by apply IH|]. rewrite Forall_forall in *. intros w Hw.
    apply elem_of_inventory_insert in Hw as [Hw|[-> _]]; [auto| |done]. by apply compare_gt.
Qed.

(** ** Collecting answers *)

Section collect.
Context {T : Type} `{!RBTree T, !RBTreeLaws T} (Errorf : bytes -> bytes).

Definition insert_all (kis : list KeyInv) (t : T) : T := foldl (fun t ki => rb_Insert ki t) t kis.

(** The inventory holds every entry, when no two are equal. *)
Lemma insert_all_spec kis : forall t, rising (rb_items t) ->
  (forall x y, x ∈ kis -> y ∈ rb_items t -> compare x y <> Eq) ->
  (forall i j x y, kis !! i = Some x -> kis !! j = Some y -> compare x y = Eq -> i = j) ->
  rising (rb_items (insert_all kis t)) /\ (forall y, y ∈ rb_items (insert_all kis t) <-> y ∈ rb_items t \/ y ∈ kis).
Proof.
  induction kis as [|x kis IH]; intros t Hr Hd Hu; [split; [done|set_solver]|]. cbn [insert_all foldl].
  destruct (IH (rb_Insert x t)) as [H1 H2].
  - by apply items_rising.
  - intros a y Ha. rewrite elem_of_rb_Insert by done. intros [Hy|[-> _]]; [apply Hd; [by right|done]|].
    intros Heq. apply list_elem_of_lookup in Ha as [i Hi]. by specialize (Hu (S i) 0%nat a x Hi eq_refl Heq).
  - intros i j a b Hi Hj Heq. by injection (Hu (S i) (S j) a b Hi Hj Heq).
  - split; [done|]. intros y. unfold insert_all in H2. rewrite H2, elem_of_rb_Insert by done. rewrite elem_of_cons.
    split; [intuition|]. intros [?|[->|?]]; [tauto| |tauto]. left. right. split; [done|]. intros z Hz. apply Hd; [by left|done].
Qed.

Lemma items_one x : rb_items (rb_Insert x rb_New) = [x].
Proof.
  destruct (insert_all_spec [x] rb_New) as [H1 H2]; cbn [insert_all foldl] in *.
  { rewrite items_rb_New. constructor. }
  { rewrite items_rb_New. intros ? ? _ Hy. by apply not_elem_of_nil in Hy. }
  { intros i j a b Hi Hj _. apply list_lookup_singleton_Some in Hi as [-> _], Hj as [-> _]. done. }
  assert (Hall : forall y, y ∈ rb_items (rb_Insert x rb_New) -> y = x).
  { intros y Hy. apply H2 in Hy as [Hy|Hy]; [|by apply list_elem_of_singleton]. rewrite items_rb_New in Hy. by apply not_elem_of_nil in Hy. }
  assert (Hin : x ∈ rb_items (rb_Insert x rb_New)) by (apply H2; right; by left).
  destruct (rb_items (rb_Insert x rb_New)) as [|a [|b r]].
  - by apply not_elem_of_nil in Hin.
  - f_equal. apply Hall. by left.
  - apply StronglySorted_inv in H1 as [_ H1]. apply Forall_cons in H1 as [H1 _].
    rewrite (Hall a), (Hall b) in H1 by (rewrite ?elem_of_cons; auto). by destruct (compare_ne_lt _ _ H1); apply compare_eq_iff.
Qed.

(** An event that brings a reply. *)
Definition brings (e : incoming) (r : BcastGetReply) : Prop :=
  match e with
  | InReply r' => r' = r
  | InMsg data => data <> [] /\ UnmarshalMsg data = Ok r
  | _ => False
  end.

Lemma collect_brings n e r events t : brings e r ->
  collect_replies Errorf (S n) (e :: events) t = t' ← take_reply Errorf r t; collect_replies Errorf n events t'.
Proof.
  destruct e as [data|r'| |]; cbn [brings]; [|by intros ->|done..]. intros [Hd Hu]. cbn [collect_replies].
  by rewrite decide_False, Hu by done.
Qed.

(** An error answer stops the query. *)
Lemma collect_error n l ev reply events t : brings ev reply -> gy_Err reply <> [] ->
  Forall (fun e => exists r, brings e r /\ gy_Err r = [] /\ is_Some (gy_Ki r)) l -> (length l < n)%nat ->
  collect_replies Errorf n (l ++ ev :: events) t = Fail (Errorf (gy_Err reply)).
Proof.
  intros Hev He Hl. revert n t. induction Hl as [|e l (r & Hb & Hr & ki & Hki) _ IH]; intros [|n] t Hn; cbn [length app] in *; try lia.
  - rewrite (collect_brings _ _ _ _ _ Hev). unfold take_reply. by rewrite decide_True.
  - rewrite (collect_brings _ _ _ _ _ Hb). unfold take_reply. rewrite decide_False by (by intros ?). rewrite Hki. apply IH. lia.
Qed.

Lemma collect_all l events t kis : Forall2 (fun e ki => exists r, brings e r /\ gy_Err r = [] /\ gy_Ki r = Some ki) l kis ->
  collect_replies Errorf (length l) (l ++ events) t = Ok (insert_all kis t).
Proof.
  intros Hf. revert t. induction Hf as [|e ki l kis (r & Hb & Hr & Hki) _ IH]; intros t; [done|]. cbn [length app].
  rewrite (collect_brings _ _ _ _ _ Hb). unfold take_reply. rewrite decide_False by (by intros ?). rewrite Hki. apply IH.
Qed.
End collect.

(** ** A cluster *)

Section cluster.
Context {T : Type} `{!RBTree T, !RBTreeLaws T} (Errorf blake2b : bytes -> bytes).

Definition ID (p : Peer) : bytes := al_ID (pe_loc p).

(** [p] keeps the checkpoint [data] of the time [when_] under [key]. *)
Definition holds (p : Peer) (key : bytes) (when_ : Z) (data : bytes) : Prop := forall iv,
  LocalGet (pe_saver p) key iv =
  Ok (MkKeyInv key (bo_whoami (pe_saver p)) when_ (Z.of_nat (length data)) (blake2b data) (if iv then data else [])).

(** The names of the peers are their own. *)
Definition names_ok (ps : list Peer) : Prop :=
  NoDup (ID <$> ps) /\ forall p q, p ∈ ps -> q ∈ ps -> ID p <> [] /\ (bo_whoami (pe_saver q) = ID p -> q = p).

(** The answers of a cluster to a request. *)
Definition answers (ps : list Peer) (req : BcastGetRequest) : list BcastGetReply :=
  omap (fun p => match ServerHandleBcastGet p req with Ok r => r | _ => None end) ps.

(** The entry that [p] sends for its checkpoint. *)
Definition sent_entry (p : Peer) (key : bytes) (iv : bool) (wd : Z * bytes) : KeyInv :=
  MkKeyInv key (ID p) (fst wd) (Z.of_nat (length (snd wd))) (blake2b (snd wd)) (if iv then snd wd else []).

Lemma answer_holds p req when_ data : holds p (gr_Key req) when_ data ->
  gr_Who req = [] \/ gr_Who req = ID p ->
  ServerHandleBcastGet p req =
    Ok (Some (MkBcastGetReply (ID p) (Some (sent_entry p (gr_Key req) (gr_IncludeValue req) (when_, data))) [])).
Proof.
  intros Hh Hw. unfold ServerHandleBcastGet. rewrite decide_False by (intros (H1 & H2 & _); by destruct Hw).
  by rewrite Hh.
Qed.

Lemma answer_other p req : gr_Who req <> [] -> gr_Who req <> ID p -> gr_Who req <> bo_whoami (pe_saver p) ->
  ServerHandleBcastGet p req = Ok None.
Proof. intros. unfold ServerHandleBcastGet. by rewrite decide_True. Qed.

(** The answers to a query of everyone. *)
Lemma answers_all ps ck req : gr_Who req = [] -> (forall p, p ∈ ps -> holds p (gr_Key req) (fst (ck p)) (snd (ck p))) ->
  answers ps req =
    (fun p => MkBcastGetReply (ID p) (Some (sent_entry p (gr_Key req) (gr_IncludeValue req) (ck p))) []) <$> ps.
Proof.
  intros Hw. induction ps as [|p ps IH]; intros Hh; [done|]. cbn.
  rewrite (answer_holds p req _ _ (Hh p ltac:(by left)) (or_introl Hw)). rewrite <- surjective_pairing. f_equal.
  apply IH. intros q Hq. apply Hh. by right.
Qed.

(** The only answer to a query of one peer. *)
Lemma answers_one ps ck req q : names_ok ps -> q ∈ ps -> gr_Who req = ID q -> holds q (gr_Key req) (fst (ck q)) (snd (ck q)) ->
  answers ps req = [MkBcastGetReply (ID q) (Some (sent_entry q (gr_Key req) (gr_IncludeValue req) (ck q))) []].
Proof.
  intros (Hnd & Hn) Hq Hw Hh. destruct (Hn q q Hq Hq) as [Hne _].
  assert (Hoth : forall l, (forall p, p ∈ l -> p ∈ ps /\ ID p <> ID q) -> answers l req = []).
  { induction l as [|p l IH]; intros Hl; [done|]. cbn. destruct (Hl p ltac:(by left)) as [Hp Hpq].
    rewrite answer_other; [apply IH; intros; apply Hl; by right|congruence..|].
    rewrite Hw. intros E. destruct (Hn q p Hq Hp) as [_ H2]. rewrite (H2 (eq_sym E)) in Hpq. done. }
  apply list_elem_of_split in Hq as (l1 & l2 & Hps). rewrite Hps in Hnd. rewrite fmap_app in Hnd. cbn in Hnd.
  apply NoDup_app in Hnd as (_ & Hd & Hnd2). apply NoDup_cons in Hnd2 as [Hd2 _].
  unfold answers in *. rewrite Hps at 1. rewrite omap_app. cbn [omap list_omap]. 
  rewrite (answer_holds q req _ _ Hh (or_intror Hw)), <- surjective_pairing.
  assert (E1 := Hoth l1). assert (E2 := Hoth l2). cbn in E1, E2 |- *. rewrite E1, E2; [done|..].
  - intros p Hp. split; [set_solver|]. intros E. apply Hd2. rewrite <- E. by apply list_elem_of_fmap_2.
  - intros p Hp. split; [set_solver|]. intros E. apply (Hd (ID p)); [by apply list_elem_of_fmap_2|]. rewrite E. by left.
Qed.

(** The lengths and the time of a checkpoint fit the format of the messages. *)
Definition entry_ok (key who : bytes) (wd : Z * bytes) : Prop :=
  len key < 2 ^ 32 /\ len who < 2 ^ 32 /\ time_ok (fst wd) /\ len (snd wd) < 2 ^ 32 /\ len (blake2b (snd wd)) < 2 ^ 32.

Lemma sent_reply_ok p key iv wd : entry_ok key (ID p) wd ->
  BcastGetReply_ok (MkBcastGetReply (ID p) (Some (sent_entry p key iv wd)) []).
Proof.
  intros (Hk & Hw & Ht & Hd & Hb). unfold BcastGetReply_ok, Ki_ok, KeyInv_ok, sent_entry, in_int64. cbn -[Z.lt].
  split_and!; try done; destruct iv; cbn [length]; lia.
Qed.

(** The reply arrives as it was sent. *)
Lemma reply_sent_brings req reply ki : BcastGetReply_ok reply -> gy_Ki reply = Some ki ->
  exists e, reply_sent blake2b req reply = [e] /\ brings e reply.
Proof.
  intros Hok Hki. unfold reply_sent. destruct (gr_IncludeValue req).
  - exists (InReply reply). unfold ClientSendFile. rewrite reply_arrives; [by rewrite Hki|unfold chunkSz; lia|done].
  - exists (InMsg (MarshalMsg reply)). split; [done|]. split; [apply Marshal_nonempty|]. by rewrite Unmarshal_Marshal by exact Hok.
Qed.

(** The replies of [qs] arrive in this order. *)
Lemma replies_arrive req (qs : list Peer) (f : Peer -> KeyInv) (g : Peer -> BcastGetReply) :
  (forall q, q ∈ qs -> BcastGetReply_ok (g q) /\ gy_Ki (g q) = Some (f q) /\ gy_Err (g q) = []) ->
  length ((g <$> qs) ≫= reply_sent blake2b req) = length qs /\
  Forall2 (fun e ki => exists r, brings e r /\ gy_Err r = [] /\ gy_Ki r = Some ki) ((g <$> qs) ≫= reply_sent blake2b req) (f <$> qs).
Proof.
  induction qs as [|q qs IH]; intros Hq; [done|]. destruct (Hq q ltac:(by left)) as (H1 & H2 & H3).
  destruct (reply_sent_brings req (g q) (f q) H1 H2) as (e & He & Hb).
  destruct IH as [IH1 IH2]; [intros q' Hq'; apply Hq; by right|]. rewrite fmap_cons, bind_cons, He. cbn [app length fmap list_fmap].
  split; [by rewrite IH1|]. constructor; [by exists (g q)|done].
Qed.

(** What the asker [p] gets of the checkpoint of [q]. *)
Definition got_entry (p q : Peer) (key : bytes) (wd : Z * bytes) : KeyInv :=
  MkKeyInv key (if decide (ID q = ID p) then bo_whoami (pe_saver p) else ID q) (fst wd)
    (Z.of_nat (length (snd wd))) (blake2b (snd wd)) (snd wd).

Lemma names_inj ps p q : names_ok ps -> p ∈ ps -> q ∈ ps -> ID p = ID q -> p = q.
Proof.
  intros (Hnd & _) Hp Hq E. apply list_elem_of_lookup in Hp as [i Hi], Hq as [j Hj].
  assert (i = j) as ->; [|congruence].
  eapply NoDup_lookup; [exact Hnd|rewrite list_lookup_fmap, Hi; done|rewrite list_lookup_fmap, Hj; cbn; by rewrite E].
Qed.

(** The first query: the entries of all peers, in order. *)
Lemma query_all (p : Peer) (ps : list Peer) (ck : Peer -> Z * bytes) (laf : LeadAndFollowList) (key : bytes)
    (l : list BcastGetReply) (rest : list incoming) :
  names_ok ps -> p ∈ ps -> (2 <= length ps)%nat -> length (lf_Members laf) = length ps ->
  (forall q, q ∈ ps -> holds q key (fst (ck q)) (snd (ck q)) /\ entry_ok key (ID q) (ck q)) ->
  let req := bcast_get_request p laf key [] false in
  l ≡ₚ answers ps req ->
  exists kis, ClientInitiateBcastGet Errorf p (Some laf) key false [] ((l ≫= reply_sent blake2b req) ++ rest) = Ok kis /\
    rising kis /\ forall y, y ∈ kis <-> exists q, q ∈ ps /\ y = sent_entry q key false (ck q).
Proof.
  intros Hn Hp H2 Hlen Hh req Hl. rewrite answers_all with (ck := ck) in Hl by (done || intros; by apply Hh). cbn in Hl.
  destruct (Permutation_map_inv _ _ Hl) as (qs & -> & Hqs). clear Hl.
  assert (Hlq : length qs = length ps) by (by rewrite Hqs). apply Permutation_sym in Hqs.
  assert (Hids : NoDup (ID <$> qs)) by (rewrite Hqs; apply Hn).
  destruct (insert_all_spec (T := T) ((fun q => sent_entry q key false (ck q)) <$> qs) rb_New) as [H3 H4].
  { rewrite items_rb_New. constructor. }
  { rewrite items_rb_New. set_solver. }
  { intros i j x y. rewrite !list_lookup_fmap. intros Hi Hj Heq.
    destruct (qs !! i) as [qi|] eqn:Ei; [|done]. destruct (qs !! j) as [qj|] eqn:Ej; [|done].
    injection Hi as <-. injection Hj as <-. apply compare_eq_iff in Heq as (_ & _ & Hw). cbn in Hw.
    eapply NoDup_lookup; [exact Hids|rewrite list_lookup_fmap, Ei; done|rewrite list_lookup_fmap, Ej; cbn; by rewrite Hw]. }
  destruct (replies_arrive req qs (fun q => sent_entry q key false (ck q))
    (fun q => MkBcastGetReply (ID q) (Some (sent_entry q key false (ck q))) [])) as [Hevl Hev].
  { intros q Hq. split; [|done]. apply sent_reply_ok, Hh. by rewrite <- Hqs. }
  eexists. unfold ClientInitiateBcastGet.
  destruct Hn as [Hnd Hn]. destruct (Hn p p Hp Hp) as [Hne _].
  rewrite decide_False by (intros [?|E]; [lia|by destruct Hne]). rewrite decide_False by (by intros ?).
  change (map ?f qs) with (f <$> qs). rewrite Hlen, <- Hlq, <- Hevl, (collect_all Errorf _ rest rb_New _ Hev).
  split; [done|]. split; [done|]. intros y. rewrite H4, items_rb_New, list_elem_of_fmap. setoid_rewrite Hqs. set_solver.
Qed.

(** The second query: the value that one peer keeps. *)
Lemma query_one (p q : Peer) (ps : list Peer) (ck : Peer -> Z * bytes) (laf : LeadAndFollowList) (key : bytes)
    (l : list BcastGetReply) (rest : list incoming) :
  names_ok ps -> p ∈ ps -> q ∈ ps -> (2 <= length (lf_Members laf))%nat ->
  holds q key (fst (ck q)) (snd (ck q)) -> entry_ok key (ID q) (ck q) ->
  let req := bcast_get_request p laf key (ID q) true in
  l ≡ₚ answers ps req ->
  ClientInitiateBcastGet Errorf p (Some laf) key true (ID q) ((l ≫= reply_sent blake2b req) ++ rest) = Ok [got_entry p q key (ck q)].
Proof.
  intros Hn Hp Hq H2 Hh Hok req Hl. rewrite answers_one with (ck := ck) (q := q) in Hl by done.
  apply Permutation_singleton_r in Hl as ->. unfold ClientInitiateBcastGet, got_entry. case_decide as Hd.
  - destruct Hd as [?|E]; [lia|]. rewrite decide_True by done. assert (q = p) as -> by (by eapply names_inj). by rewrite Hh.
  - rewrite (decide_False (P := ID q = ID p)) by (intros E; apply Hd; by right). destruct Hn as [_ Hn]. destruct (Hn q q Hq Hq) as [Hne _]. rewrite decide_True by done.
    destruct (reply_sent_brings req _ _ (sent_reply_ok q key true (ck q) Hok) eq_refl) as (e & He & Hb).
    rewrite bind_cons. cbn [gr_Key gr_IncludeValue req bcast_get_request]. rewrite He. cbn [app].
    rewrite (collect_brings Errorf _ _ _ _ _ Hb). unfold take_reply. cbn [gy_Err gy_Ki]. rewrite decide_False by (by intros ?).
    cbn [mbind outcome_bind collect_replies]. by rewrite items_one.
Qed.

(** [q] has the newest checkpoint of the cluster. *)
Definition newest (ps : list Peer) (ck : Peer -> Z * bytes) (q : Peer) : Prop :=
  q ∈ ps /\ forall q', q' ∈ ps -> fst (ck q') <= fst (ck q).

Lemma get_latest_of (p : Peer) (ps : list Peer) (ck : Peer -> Z * bytes) (laf1 laf2 : LeadAndFollowList) (key : bytes)
    (l1 : list BcastGetReply) (rest1 : list incoming) :
  names_ok ps -> p ∈ ps -> (2 <= length ps)%nat -> length (lf_Members laf1) = length ps -> (2 <= length (lf_Members laf2))%nat ->
  (forall q, q ∈ ps -> holds q key (fst (ck q)) (snd (ck q)) /\ entry_ok key (ID q) (ck q)) ->
  let req1 := bcast_get_request p laf1 key [] false in
  l1 ≡ₚ answers ps req1 ->
  exists q, newest ps ck q /\
    (forall peers2 events2, GetLatest Errorf p (Some laf1) peers2 key false ((l1 ≫= reply_sent blake2b req1) ++ rest1) events2 =
      Ok (sent_entry q key false (ck q))) /\
    (forall l2 rest2, let req2 := bcast_get_request p laf2 key (ID q) true in l2 ≡ₚ answers ps req2 ->
      GetLatest Errorf p (Some laf1) (Some laf2) key true ((l1 ≫= reply_sent blake2b req1) ++ rest1)
        ((l2 ≫= reply_sent blake2b req2) ++ rest2) = Ok (got_entry p q key (ck q))).
Proof.
  intros Hn Hp H2 Hlen H2' Hh req1 Hl.
  destruct (query_all p ps ck laf1 key l1 rest1 Hn Hp H2 Hlen Hh Hl) as (kis & Hk & Hr & Hin).
  destruct (last kis) as [t|] eqn:Et.
  2: { apply last_None in Et as ->. assert (Hc := proj2 (Hin (sent_entry p key false (ck p))) ltac:(eauto)). by apply not_elem_of_nil in Hc. }
  destruct (proj1 (Hin t) (last_Some_elem_of _ _ Et)) as (q & Hq & ->). destruct (Hh q Hq) as [Hhq Hokq].
  exists q. split_and!.
  - split; [done|]. intros q' Hq'. destruct (rising_last _ _ _ Hr Et (proj2 (Hin _) (ex_intro _ q' (conj Hq' eq_refl)))) as [E|E].
    + injection E. lia.
    + apply compare_lt_iff in E as [E|(_ & E)]; cbn in E; [by rewrite string_lt_irrefl in E|lia].
  - intros peers2 events2. unfold GetLatest. subst req1. rewrite Hk. cbn [mbind outcome_bind negb]. by rewrite Et.
  - intros l2 rest2 req2 Hl2. unfold GetLatest. subst req1. rewrite Hk. cbn [mbind outcome_bind negb]. rewrite Et. cbn [ki_Who sent_entry].
    subst req2. by rewrite (query_one p q ps ck).
Qed.

End cluster.

(** ** Setting *)

Section setting.
Context (blake2b : bytes -> bytes)
        (put_error : bytes -> bytes -> option bytes) (Compact_error : BoltSaver -> option (bytes * bool)).
Abbreviation holds := (holds blake2b).

(** An entry with the time and the value of a checkpoint. *)
Lemma entry_fits key who wd whoami size sum : entry_ok blake2b key whoami wd ->
  fits blake2b whoami (MkKeyInv key who (fst wd) size sum (snd wd)).
Proof.
  intros (Hk & Hw & Ht & Hd & Hb). unfold fits, KeyInv_ok, meta_of, stamp, in_int64. cbn -[Z.lt]. split_and!; try done; lia.
Qed.

Lemma holds_open p key when_ data : holds p key when_ data -> bo_open (pe_saver p) = true.
Proof. intros H. specialize (H true). unfold LocalGet in H. by destruct (bo_open (pe_saver p)). Qed.

Lemma set_holds p ki : bo_open (pe_saver p) = true -> (forall v, put_error (ki_Key ki) v = None) -> (forall b, Compact_error b = None) ->
  fits blake2b (bo_whoami (pe_saver p)) ki -> exists p',
  peer_set blake2b put_error Compact_error p ki = Ok (p', stamp blake2b (bo_whoami (pe_saver p)) ki, None) /\
  holds p' (ki_Key ki) (ki_When ki) (ki_Val ki) /\ pe_seen p' = pe_seen p /\
  (forall k iv, k <> ki_Key ki -> LocalGet (pe_saver p') k iv = LocalGet (pe_saver p) k iv).
Proof.
  intros Hb Hp Hc Hf. destruct (LocalSet_get blake2b put_error Compact_error (pe_saver p) ki Hb Hp Hc Hf) as (b & E & _ & Hw & _ & Hg & Ho).
  exists (with_saver p b). unfold peer_set. rewrite E. split_and!; [done| |done|done].
  intros iv. cbn [pe_saver with_saver]. rewrite Hg, Hw. done.
Qed.

Lemma receive_holds q from ki : bo_open (pe_saver q) = true -> (forall v, put_error (ki_Key ki) v = None) -> (forall b, Compact_error b = None) ->
  fits blake2b (bo_whoami (pe_saver q)) ki -> ki_Val ki <> [] -> exists q',
  receive_set blake2b put_error Compact_error q (MkBcastSetRequest from (Some ki)) = Ok q' /\
  holds q' (ki_Key ki) (ki_When ki) (ki_Val ki) /\
  (forall k iv, k <> ki_Key ki -> LocalGet (pe_saver q') k iv = LocalGet (pe_saver q) k iv).
Proof.
  intros Hb Hp Hc Hf Hv. destruct (set_holds q ki Hb Hp Hc Hf) as (q' & E & Hh & _ & Ho). exists q'.
  unfold receive_set. cbn [sr_Ki]. rewrite decide_True by (destruct (ki_Val _); [done|cbn; lia]). by rewrite E.
Qed.

(** The same for the chunks of the request. *)
Lemma file_holds q from ki : bo_open (pe_saver q) = true -> (forall v, put_error (ki_Key ki) v = None) -> (forall b, Compact_error b = None) ->
  BcastSetRequest_ok (MkBcastSetRequest from (Some ki)) -> fits blake2b (bo_whoami (pe_saver q)) ki -> ki_Val ki <> [] -> exists q',
  receive_file blake2b put_error Compact_error q
    (ClientSendFile blake2b (ki_Key ki) (MarshalMsg (MkBcastSetRequest from (Some ki))) true) = Ok q' /\
  holds q' (ki_Key ki) (ki_When ki) (ki_Val ki) /\
  (forall k iv, k <> ki_Key ki -> LocalGet (pe_saver q') k iv = LocalGet (pe_saver q) k iv).
Proof.
  intros Hb Hp Hc Hok Hf Hv. destruct (receive_holds q from ki Hb Hp Hc Hf Hv) as (q' & E & Hh & Ho). exists q'.
  unfold receive_file, ClientSendFile. rewrite set_arrives; [|unfold chunkSz; lia|done]. cbn [sr_Ki]. by rewrite E.
Qed.

(** The followers of a list. *)
Lemma follow_in laf m : m ∈ lf_Members laf -> al_ID m <> lf_LeadID laf ->
  MkPeerDetail m (agentLoc2RecvCpSubj m) ∈ cs_follow (list2status laf).
Proof.
  intros Hm Hl. unfold list2status. generalize (MkClusterStatus [] None [] (bool_decide (lf_LeadID laf = lf_MyID laf))).
  assert (Hkeep : forall ms cs d, d ∈ cs_follow cs -> d ∈ cs_follow (foldl (status_step laf) cs ms)).
  { induction ms as [|a ms IH]; intros cs d Hd; [done|]. cbn. apply IH. unfold status_step. case_decide; [done|]. cbn.
    apply elem_of_app. by left. }
  induction (lf_Members laf) as [|a ms IH]; intros cs; [by apply not_elem_of_nil in Hm|]. cbn.
  apply elem_of_cons in Hm as [->|Hm]; [|by apply IH]. apply Hkeep. unfold status_step. rewrite decide_False by done. cbn.
  apply elem_of_app. right. by left.
Qed.

(** What a round of queries learns. *)
Lemma follow_of laf f : f ∈ cs_follow (list2status laf) -> pd_loc f ∈ lf_Members laf /\ al_ID (pd_loc f) <> lf_LeadID laf.
Proof.
  unfold list2status. assert (Hg : forall ms cs, f ∈ cs_follow (foldl (status_step laf) cs ms) ->
    f ∈ cs_follow cs \/ (pd_loc f ∈ ms /\ al_ID (pd_loc f) <> lf_LeadID laf)).
  { induction ms as [|a ms IH]; intros cs Hf; [by left|]. cbn in Hf. apply IH in Hf as [Hf|[H1 H2]]; [|right; split; [by right|done]].
    unfold status_step in Hf. case_decide as Hd; [by left|]. cbn in Hf. apply elem_of_app in Hf as [Hf|Hf]; [by left|].
    apply list_elem_of_singleton in Hf as ->. right. split; [by left|done]. }
  intros Hf. apply Hg in Hf as [Hf|Hf]; [by apply not_elem_of_nil in Hf|done].
Qed.

Lemma loc_queries_seen p laf answer m : m ∈ lf_Members laf -> is_Some (answer (al_ID m)) ->
  pe_seen (loc_queries p laf answer) !! al_ID m = answer (al_ID m).
Proof.
  intros Hm [a Ha]. cbn. rewrite Ha. generalize (pe_seen p).
  assert (Hkeep : forall ms (seen : gmap bytes AgentLoc), seen !! al_ID m = Some a ->
    foldl (fun seen mem => match answer (al_ID mem) with Some aloc => <[al_ID mem := aloc]> seen | None => seen end) seen ms
      !! al_ID m = Some a).
  { induction ms as [|x ms IH]; intros seen Hs; [done|]. cbn. apply IH. destruct (answer (al_ID x)) as [b|] eqn:E; [|done].
    destruct (decide (al_ID x = al_ID m)) as [Hx|Hx]; [rewrite Hx in *; rewrite lookup_insert_eq; congruence|by rewrite lookup_insert_ne]. }
  induction (lf_Members laf) as [|x ms IH]; intros seen; [by apply not_elem_of_nil in Hm|]. cbn.
  apply elem_of_cons in Hm as [->|Hm]; [|by apply IH]. apply Hkeep. rewrite Ha. apply lookup_insert_eq.
Qed.
End setting.

(** ** Properties *)

(** The example cluster: three peers, of which two received a checkpoint. *)
Definition ex_loc (id : bytes) (rank : Z) : AgentLoc :=
  MkAgentLoc id (bs "localhost") 4222 (MkExtInt (MkHostPort [] 0) (MkHostPort [] 0)) 0 rank 7.
Definition ex_new_peer (id host : bytes) (rank : Z) : Peer := MkPeer (NewBoltSaver host 1000) (ex_loc id rank) ∅ (bs "hostdb") zero_grpc.
Definition ex_set (p : Peer) (when_ : Z) (data : bytes) : Peer :=
  match peer_set id (fun _ _ => None) (fun _ => None) p (MkKeyInv (bs "chk") [] when_ 0 [] data) with Ok (p', _, _) => p' | _ => p end.
Definition ex_A : Peer := ex_set (ex_new_peer (bs "A") (bs "hostA") 0) 10 (bs "old").
Definition ex_B : Peer := ex_set (ex_new_peer (bs "B") (bs "hostB") 1) 20 (bs "new").
Definition ex_C : Peer := ex_set (ex_new_peer (bs "C") (bs "hostC") 2) 20 (bs "new").
Definition ex_empty : Peer := ex_new_peer (bs "D") (bs "hostD") 3.
Definition ex_cluster : list Peer := [ex_A; ex_B; ex_C].
Definition ex_laf (me : bytes) : LeadAndFollowList := MkLeadAndFollowList (pe_loc <$> ex_cluster) (bs "A") me.
Definition ex_ck (p : Peer) : Z * bytes := if decide (ID p = bs "A") then (10, bs "old") else (20, bs "new").
Definition ex_answers (who : bytes) (iv : bool) : list BcastGetReply :=
  answers ex_cluster (bcast_get_request ex_A (ex_laf (bs "A")) (bs "chk") who iv).
Definition ex_events (who : bytes) (iv : bool) (l : list BcastGetReply) : list incoming :=
  l ≫= reply_sent id (bcast_get_request ex_A (ex_laf (bs "A")) (bs "chk") who iv).

Lemma ex_names : names_ok ex_cluster.
Proof.
  split; [apply (bool_decide_unpack _); by vm_compute|].
  assert (Hd : forall p q, p ∈ ex_cluster -> q ∈ ex_cluster ->
    bool_decide (ID p <> []) && (bool_decide (bo_whoami (pe_saver q) <> ID p)) = true).
  { intros p q Hp Hq. unfold ex_cluster in Hp, Hq. rewrite !elem_of_cons, elem_of_nil in Hp, Hq.
    destruct Hp as [->|[->|[->|[]]]], Hq as [->|[->|[->|[]]]]; by vm_compute. }
  intros p q Hp Hq. specialize (Hd p q Hp Hq). apply andb_prop in Hd as [H1 H2].
  apply bool_decide_eq_true in H1, H2. done.
Qed.

Lemma ex_holds q : q ∈ ex_cluster ->
  holds id q (bs "chk") (fst (ex_ck q)) (snd (ex_ck q)) /\ entry_ok id (bs "chk") (ID q) (ex_ck q).
Proof.
  unfold ex_cluster. rewrite !elem_of_cons, elem_of_nil.
  intros [->|[->|[->|[]]]]; (split; [intros []; by vm_compute|split_and!; by vm_compute]).
Qed.

(** [GetLatest] finds the newest checkpoint: in a cluster whose peers have
    names of their own and all keep a checkpoint under the key, in whatever
    order their answers arrive, it returns the entry of a peer whose time is
    at least that of every other, and with the value when that is asked for
    and the peer that was found answers the second query. *)
Theorem get_latest_newest {T : Type} `{!RBTree T, !RBTreeLaws T} (Errorf blake2b : bytes -> bytes)
  (p : Peer) (ps : list Peer) (ck : Peer -> Z * bytes) (laf1 laf2 : LeadAndFollowList) (key : bytes)
  (l1 : list BcastGetReply) (rest1 : list incoming)
  (Hn : names_ok ps) (Hp : p ∈ ps) (H2 : (2 <= length ps)%nat) (Hlen1 : length (lf_Members laf1) = length ps)
  (Hlen2 : (2 <= length (lf_Members laf2))%nat)
  (Hh : forall q, q ∈ ps -> holds blake2b q key (fst (ck q)) (snd (ck q)) /\ entry_ok blake2b key (ID q) (ck q))
  (Hl1 : l1 ≡ₚ answers ps (bcast_get_request p laf1 key [] false)) :
  let events1 := (l1 ≫= reply_sent blake2b (bcast_get_request p laf1 key [] false)) ++ rest1 in
  exists q, newest ps ck q /\
    (forall peers2 events2, GetLatest Errorf p (Some laf1) peers2 key false events1 events2 = Ok (sent_entry blake2b q key false (ck q))) /\
    (forall l2 rest2, let req2 := bcast_get_request p laf2 key (ID q) true in l2 ≡ₚ answers ps req2 ->
      GetLatest Errorf p (Some laf1) (Some laf2) key true events1 ((l2 ≫= reply_sent blake2b req2) ++ rest2) =
      Ok (got_entry blake2b p q key (ck q))).
Proof. by eapply get_latest_of. Qed.

Lemma get_latest_newest_witness : exists q, newest ex_cluster ex_ck q /\
  @GetLatest (list KeyInv) sorted_RBTree id ex_A (Some (ex_laf (bs "A"))) None (bs "chk") false
    (ex_events [] false (reverse (ex_answers [] false)) ++ []) [] = Ok (sent_entry id q (bs "chk") false (20, bs "new")).
Proof.
  destruct (@get_latest_newest (list KeyInv) sorted_RBTree sorted_RBTreeLaws id id ex_A ex_cluster ex_ck (ex_laf (bs "A")) (ex_laf (bs "A"))
    (bs "chk") (reverse (ex_answers [] false)) [] ex_names) as (q & Hq & H1 & _);
    [by left|cbn; lia|done|cbn; lia|exact ex_holds|apply reverse_Permutation|].
  exists q. split; [exact Hq|]. unfold ex_events. rewrite H1. destruct Hq as [Hin Hq]. specialize (Hq ex_B ltac:(right; by left)).
  unfold ex_ck in *. destruct (decide (ID q = bs "A")) as [E|E]; [exfalso; by vm_compute in Hq|done].
Defined.

(** What the loop over the followers sends when no stream panics: the chunks
    to each location that is known and can be reached. *)
Lemma send_followers_sends (net : AgentLoc -> stream) p chunks follow : (forall loc, steady (net loc)) ->
  send_followers net p chunks follow =
  Ok (omap (fun f => (fun loc => (loc, if st_open (net loc) then chunks else [])) <$> pe_seen p !! al_ID (pd_loc f)) follow).
Proof.
  intros Hnet. induction follow as [|f follow IH]; [done|]. cbn [send_followers omap list_omap].
  destruct (pe_seen p !! _) as [loc|]; cbn [fmap option_fmap option_map]; [|done]. rewrite send_steady, IH by done. done.
Qed.

(** A stream that breaks takes the lead down with it. *)
Lemma send_followers_panics (net : AgentLoc -> stream) p chunks follow f loc : f ∈ follow -> pe_seen p !! al_ID (pd_loc f) = Some loc ->
  send_chunks chunks (net loc) = Panic -> send_followers net p chunks follow = Panic.
Proof.
  intros Hf Hs Hp. induction follow as [|g follow IH]; [by apply not_elem_of_nil in Hf|]. cbn [send_followers].
  apply elem_of_cons in Hf as [->|Hf]; [by rewrite Hs, Hp|].
  destruct (pe_seen p !! al_ID (pd_loc g)) as [l|]; [|by apply IH].
  destruct (send_chunks_cases chunks (net l)) as [(x & ->)| ->]; cbn; [|done]. by rewrite IH.
Qed.

(** C10. The lead's checkpoint reaches its followers: after a round of queries
    for their locations, which some may not answer, the lead keeps its new
    checkpoint and sends it, serialised and cut into chunks, to every follower
    whose location it knows from this round or from before, past those it does
    not know; a follower to which no stream can be opened is sent nothing.
    Whoever all the chunks arrive at assembles and decodes them and then keeps
    that checkpoint, and its other keys as they were.  The local writes
    succeed, and the streams that are opened do not break. *)
Theorem checkpoint_replicated {T : Type} `{!RBTree T} (Errorf blake2b : bytes -> bytes)
  (put_error : bytes -> bytes -> option bytes) (Compact_error : BoltSaver -> option (bytes * bool)) (net : AgentLoc -> stream)
  (p : Peer) (laf : LeadAndFollowList) (answer : bytes -> option AgentLoc) (peers1 peers2 : option LeadAndFollowList)
  (events1 events2 : list incoming) (key data : bytes) (when_ : Z)
  (Hopen : bo_open (pe_saver p) = true) (Hput : forall v, put_error key v = None) (Hcompact : forall b, Compact_error b = None) (Hnet : forall loc, steady (net loc))
  (Hlead : lf_MyID laf = lf_LeadID laf) (H2 : (2 <= length (lf_Members laf))%nat) (Hdata : data <> [])
  (Hok : entry_ok blake2b key (bo_whoami (pe_saver p)) (when_, data)) (Hid : len (lf_MyID laf) < 2 ^ 32) :
  let seen := pe_seen (loc_queries p laf answer) in
  exists p' sends, LeadTransferCheckpoint Errorf blake2b put_error Compact_error net (loc_queries p laf answer) laf peers1 peers2
      (Some laf) events1 events2 key data when_ = Ok (p', sends) /\
    holds blake2b p' key when_ data /\
    (forall m, m ∈ lf_Members laf -> is_Some (answer (al_ID m)) -> seen !! al_ID m = answer (al_ID m)) /\
    (forall m loc, m ∈ lf_Members laf -> al_ID m <> lf_LeadID laf -> seen !! al_ID m = Some loc ->
      exists chunks, (loc, chunks) ∈ sends /\ (st_open (net loc) = true -> chunks <> [])) /\
    (forall loc chunks, (loc, chunks) ∈ sends ->
      (exists m, m ∈ lf_Members laf /\ al_ID m <> lf_LeadID laf /\ seen !! al_ID m = Some loc) /\
      (chunks <> [] -> forall q, bo_open (pe_saver q) = true -> len (bo_whoami (pe_saver q)) < 2 ^ 32 ->
        exists q', receive_file blake2b put_error Compact_error q chunks = Ok q' /\
        holds blake2b q' key when_ data /\
        forall k iv, k <> key -> LocalGet (pe_saver q') k iv = LocalGet (pe_saver q) k iv)).
Proof.
  intros seen. set (p1 := loc_queries p laf answer) in *. set (ki := MkKeyInv key [] when_ 0 [] data).
  destruct (set_holds blake2b put_error Compact_error p1 ki Hopen Hput Hcompact) as (p' & E & Hh & Hseen & _).
  { by apply (entry_fits blake2b key [] (when_, data)). }
  set (ki' := stamp blake2b (bo_whoami (pe_saver p1)) ki).
  set (chunks := ClientSendFile blake2b (ki_Key ki') (MarshalMsg (MkBcastSetRequest (lf_MyID laf) (Some ki'))) true).
  eexists p', _. unfold LeadTransferCheckpoint, BcastSet. rewrite decide_False by (destruct data; [done|cbn; lia]).
  rewrite decide_False by (by intros Hc). fold ki. rewrite E. cbn [mbind outcome_bind]. rewrite decide_False by lia.
  unfold sends_to. fold ki'. fold chunks. rewrite send_followers_sends by done. cbn [mbind outcome_bind].
  assert (Hne : chunks <> []) by (apply runSendFile_nonempty; [unfold chunkSz; lia|apply Marshal_nonempty]). split_and!; [done|done| | |].
  - intros m Hm Ha. by apply loc_queries_seen.
  - intros m loc Hm Hl Hloc. exists (if st_open (net loc) then chunks else []). split; [|intros ->; exact Hne]. apply list_elem_of_omap.
    exists (MkPeerDetail m (agentLoc2RecvCpSubj m)). split; [by apply follow_in|]. cbn [pd_loc]. rewrite Hseen. fold seen. by rewrite Hloc.
  - intros loc cs Hin. apply list_elem_of_omap in Hin as (f & Hf & Hx). rewrite Hseen in Hx. fold seen in Hx.
    destruct (seen !! al_ID (pd_loc f)) as [l|] eqn:El; [|done]. injection Hx as -> <-.
    destruct (follow_of laf f Hf) as [Hm Hl]. split; [by exists (pd_loc f)|]. intros Hc q Hqo Hq. destruct (st_open (net loc)); [|done].
    destruct Hok as (Hk & Hw & Ht & Hd & Hb).
    apply (file_holds blake2b put_error Compact_error q (lf_MyID laf) ki' Hqo Hput Hcompact); [| |done].
    + unfold BcastSetRequest_ok, Ki_ok, KeyInv_ok, in_int64. cbn -[Z.lt] in *. split_and!; try done; lia.
    + apply (entry_fits blake2b key _ (when_, data)). by split_and!.
Qed.

(** [B] answers, [C] does not, and every stream works. *)
Definition ex_answer (id : bytes) : option AgentLoc := if decide (id = bs "B") then Some (ex_loc id 0) else None.
Definition ex_net (loc : AgentLoc) : stream := MkStream true None (Some true).

Lemma ex_net_steady loc : steady (ex_net loc).
Proof. by split. Qed.

Lemma checkpoint_replicated_witness : exists p' sends,
  @LeadTransferCheckpoint (list KeyInv) sorted_RBTree id id (fun _ _ => None) (fun _ => None) ex_net
    (loc_queries ex_A (ex_laf (bs "A")) ex_answer) (ex_laf (bs "A")) None None (Some (ex_laf (bs "A"))) [] [] (bs "chk") (bs "newer") 30
    = Ok (p', sends) /\
  holds id p' (bs "chk") 30 (bs "newer") /\
  exists chunks q', (ex_loc (bs "B") 0, chunks) ∈ sends /\
    receive_file id (fun _ _ => None) (fun _ => None) ex_C chunks = Ok q' /\ holds id q' (bs "chk") 30 (bs "newer").
Proof.
  destruct (@checkpoint_replicated (list KeyInv) sorted_RBTree id id (fun _ _ => None) (fun _ => None) ex_net ex_A (ex_laf (bs "A")) ex_answer
    None None [] [] (bs "chk") (bs "newer") 30) as (p' & sends & H1 & H2 & _ & H3 & H4);
    [done|done|done|exact ex_net_steady|done|cbn; lia|done|split_and!; by vm_compute|by vm_compute|].
  exists p', sends. split; [exact H1|]. split; [exact H2|].
  destruct (H3 (pe_loc ex_B) (ex_loc (bs "B") 0)) as (chunks & Hin & Hne); [right; by left|by vm_compute|by vm_compute|].
  destruct (H4 _ _ Hin) as [_ Hr]. destruct (Hr (Hne eq_refl) ex_C) as (q' & Hq & Hh & _); [done|by vm_compute|].
  exists chunks, q'. split; [exact Hin|]. split; [exact Hq|exact Hh].
Defined.

(** C9. A new lead recovers the newest checkpoint: called without data, in a
    cluster whose peers all keep a checkpoint under the key and all answer both
    questions, in any order, and when the caller can write, it is left by
    [LeadTransferCheckpoint] with a checkpoint that is at least as new as that of
    every peer, and sends nothing. *)
Theorem checkpoint_recovered {T : Type} `{!RBTree T, !RBTreeLaws T} (Errorf blake2b : bytes -> bytes)
  (put_error : bytes -> bytes -> option bytes) (Compact_error : BoltSaver -> option (bytes * bool)) (net : AgentLoc -> stream)
  (p : Peer) (ps : list Peer) (ck : Peer -> Z * bytes) (laf laf1 laf2 : LeadAndFollowList) (peers3 : option LeadAndFollowList)
  (key : bytes) (when_ : Z) (l1 : list BcastGetReply) (rest1 : list incoming)
  (Hput : forall v, put_error key v = None) (Hcompact : forall b, Compact_error b = None)
  (Hn : names_ok ps) (Hp : p ∈ ps) (Hdb : forall q, q ∈ ps -> ID q <> pe_dbpath p)
  (H2 : (2 <= length ps)%nat) (Hlen1 : length (lf_Members laf1) = length ps) (Hlen2 : (2 <= length (lf_Members laf2))%nat)
  (Hh : forall q, q ∈ ps -> holds blake2b q key (fst (ck q)) (snd (ck q)) /\ entry_ok blake2b key (ID q) (ck q))
  (Hwho : len (bo_whoami (pe_saver p)) < 2 ^ 32)
  (Hl1 : l1 ≡ₚ answers ps (bcast_get_request p laf1 key [] false)) :
  exists q, newest ps ck q /\
    forall l2 rest2, let req2 := bcast_get_request p laf2 key (ID q) true in l2 ≡ₚ answers ps req2 ->
    exists p', LeadTransferCheckpoint Errorf blake2b put_error Compact_error net p laf (Some laf1) (Some laf2) peers3
        ((l1 ≫= reply_sent blake2b (bcast_get_request p laf1 key [] false)) ++ rest1)
        ((l2 ≫= reply_sent blake2b req2) ++ rest2) key [] when_ = Ok (p', []) /\
      holds blake2b p' key (fst (ck q)) (snd (ck q)).
Proof.
  destruct (get_latest_of Errorf blake2b p ps ck laf1 laf2 key l1 rest1) as (q & Hq & _ & Hget); [done..|].
  exists q. split; [done|]. intros l2 rest2 req2 Hl2. unfold LeadTransferCheckpoint. rewrite decide_True by done.
  subst req2. rewrite (Hget l2 rest2 Hl2). cbn [mbind outcome_bind].
  destruct Hq as [Hq _]. destruct (Hh q Hq) as [Hhq Hok].
  destruct (decide (ki_Who (got_entry blake2b p q key (ck q)) <> al_ID (pe_loc p) /\ _)) as [Hw|Hw].
  - destruct (set_holds blake2b put_error Compact_error p (got_entry blake2b p q key (ck q)) ltac:(by eapply holds_open, Hh) Hput Hcompact) as (p' & E & Hp' & _).
    { apply entry_fits. destruct Hok as (H1 & _ & H3 & H4 & H5). by split_and!. }
    exists p'. by rewrite E.
  - exists p. split; [done|]. unfold got_entry in Hw. cbn [ki_Who] in Hw.
    destruct (decide (ID q = ID p)) as [E|E]; [|by destruct Hw; auto].
    rewrite (names_inj ps p q) by done. done.
Qed.

Lemma checkpoint_recovered_witness : exists p',
  @LeadTransferCheckpoint (list KeyInv) sorted_RBTree id id (fun _ _ => None) (fun _ => None) ex_net ex_A (ex_laf (bs "A"))
    (Some (ex_laf (bs "A"))) (Some (ex_laf (bs "A"))) None (ex_events [] false (ex_answers [] false) ++ [])
    (ex_events (bs "C") true (ex_answers (bs "C") true) ++ []) (bs "chk") [] 0 = Ok (p', []) /\
  holds id p' (bs "chk") 20 (bs "new").
Proof.
  destruct (@checkpoint_recovered (list KeyInv) sorted_RBTree sorted_RBTreeLaws id id (fun _ _ => None) (fun _ => None) ex_net
    ex_A ex_cluster ex_ck (ex_laf (bs "A")) (ex_laf (bs "A")) (ex_laf (bs "A")) None (bs "chk") 0 (ex_answers [] false) [])
    as (q & (Hin & Hq) & H1);
    [done|done|exact ex_names|by left| |cbn; lia|done|cbn; lia|exact ex_holds|by vm_compute|done|].
  - unfold ex_cluster. intros q. rewrite !elem_of_cons, elem_of_nil. by intros [->|[->|[->|[]]]].
  - unfold ex_cluster in Hin. rewrite !elem_of_cons, elem_of_nil in Hin. destruct Hin as [->|[->|[->|[]]]].
    + by specialize (Hq ex_B ltac:(right; by left)).
    + eexists. split; [by vm_compute|]. by intros []; vm_compute.
    + exact (H1 (ex_answers (bs "C") true) [] ltac:(done)).
Defined.

(** C40. One member without a checkpoint keeps everyone from the latest: when a
    peer of the cluster has nothing under the key, a query of a cluster fails
    with that peer's error in whatever order the answers arrive, and so does
    the recovery of a new lead, although others keep the checkpoint. *)
Theorem empty_member_blocks {T : Type} `{!RBTree T} (Errorf blake2b : bytes -> bytes)
  (put_error : bytes -> bytes -> option bytes) (Compact_error : BoltSaver -> option (bytes * bool)) (net : AgentLoc -> stream)
  (p q : Peer) (ps : list Peer) (ck : Peer -> Z * bytes) (laf laf1 : LeadAndFollowList) (peers2 peers3 : option LeadAndFollowList)
  (key : bytes) (when_ : Z) (l1 : list BcastGetReply) (rest1 events2 : list incoming)
  (Hne : ID p <> []) (H2 : (1 <= length ps)%nat) (Hlen : length (lf_Members laf1) = S (length ps))
  (Herrf : forall s, "%"%char ∉ s -> Errorf s = s) (Hpct : "%"%char ∉ key)
  (Hopen : bo_open (pe_saver q) = true) (Hq : bo_meta (pe_saver q) !! key = None) (Hlq : len (ID q) < 2 ^ 32) (Hlk : len key < 2 ^ 31)
  (Hh : forall q, q ∈ ps -> holds blake2b q key (fst (ck q)) (snd (ck q)) /\ entry_ok blake2b key (ID q) (ck q))
  (Hl1 : l1 ≡ₚ answers (q :: ps) (bcast_get_request p laf1 key [] false)) :
  LeadTransferCheckpoint Errorf blake2b put_error Compact_error net p laf (Some laf1) peers2 peers3
    ((l1 ≫= reply_sent blake2b (bcast_get_request p laf1 key [] false)) ++ rest1) events2 key [] when_ =
  Fail (bs "key '" ++ key ++ bs "' in bucket 'meta' does not exist").
Proof.
  set (err := bs "key '" ++ key ++ bs "' in bucket 'meta' does not exist").
  set (req := bcast_get_request p laf1 key [] false) in *. set (bad := MkBcastGetReply (ID q) None err).
  assert (Ha : answers (q :: ps) req = bad :: answers ps req).
  { unfold answers. cbn [omap list_omap]. unfold ServerHandleBcastGet at 1. rewrite decide_False by (by intros (? & _)).
    unfold LocalGet at 1. cbn [gr_Key req bcast_get_request]. by rewrite Hopen, Hq. }
  rewrite Ha, answers_all with (ck := ck) (blake2b := blake2b) in Hl1 by (done || intros; by apply Hh). cbn in Hl1.
  assert (Hlen1 : length l1 = S (length ps)) by (rewrite Hl1; cbn; by rewrite length_fmap).
  assert (Hin : bad ∈ l1) by (rewrite Hl1; by left). apply list_elem_of_split in Hin as (a & b & ->).
  rewrite <- Permutation_middle in Hl1. apply Permutation_cons_inv in Hl1.
  unfold LeadTransferCheckpoint. rewrite decide_True by done. unfold GetLatest, ClientInitiateBcastGet.
  rewrite decide_False by (intros [?|E]; [lia|by destruct Hne]). rewrite decide_False by (by intros ?).
  rewrite bind_app, bind_cons, <- !app_assoc. cbn [reply_sent gr_IncludeValue req bcast_get_request app].
  rewrite (collect_error Errorf _ _ (InMsg (MarshalMsg bad)) bad); [| |done| |].
  { cbn [gy_Err bad mbind outcome_bind]. rewrite Herrf; [done|]. unfold err. rewrite !elem_of_app.
    intros [Hc|[Hc|Hc]]; [|done|]; apply (bool_decide_pack _) in Hc; by vm_compute in Hc. }
  - split; [apply Marshal_nonempty|]. rewrite Unmarshal_Marshal; [done|].
    unfold gen_ok, BcastGetReply_Generated, BcastGetReply_ok. cbn -[Z.lt]. split_and!; [done|done|].
    unfold err. rewrite !length_app. cbn [length bs String.list_ascii_of_string]. lia.
  - apply Forall_forall. intros e He. apply list_elem_of_bind in He as (r & He & Hr).
    assert (Hr' : r ∈ a ++ b) by (apply elem_of_app; by left). rewrite Hl1 in Hr'.
    apply list_elem_of_fmap in Hr' as (x & -> & Hx). cbn in He. apply list_elem_of_singleton in He as ->.
    exists (MkBcastGetReply (ID x) (Some (sent_entry blake2b x key false (ck x))) []). split; [|by split; [|eexists]].
    change (BcastGetReply_MarshalMsg [] ?r) with (MarshalMsg r). split; [apply Marshal_nonempty|].
    rewrite Unmarshal_Marshal; [done|]. apply (sent_reply_ok blake2b x key false (ck x)), Hh, Hx.
  - assert (length (a ≫= reply_sent blake2b req) = length a) as ->; [|rewrite length_app in Hlen1; cbn in Hlen1; lia].
    clear. induction a as [|r a IH]; [done|]. rewrite bind_cons. cbn. by rewrite IH.
Qed.

Lemma empty_member_blocks_witness :
  @LeadTransferCheckpoint (list KeyInv) sorted_RBTree id id (fun _ _ => None) (fun _ => None) ex_net ex_empty (ex_laf (bs "D"))
    (Some (MkLeadAndFollowList (pe_loc <$> ex_empty :: ex_cluster) (bs "A") (bs "D"))) None None
    ((answers (ex_empty :: ex_cluster) (bcast_get_request ex_empty (ex_laf (bs "D")) (bs "chk") [] false) ≫=
      reply_sent id (bcast_get_request ex_empty (ex_laf (bs "D")) (bs "chk") [] false)) ++ []) []
    (bs "chk") [] 0 = Fail (bs "key 'chk' in bucket 'meta' does not exist").
Proof.
  apply (@empty_member_blocks (list KeyInv) sorted_RBTree id id (fun _ _ => None) (fun _ => None) ex_net ex_empty ex_empty ex_cluster ex_ck
    (ex_laf (bs "D")) (MkLeadAndFollowList (pe_loc <$> ex_empty :: ex_cluster) (bs "A") (bs "D")) None None (bs "chk") 0);
    [done|cbn; lia|done|done|apply (bool_decide_unpack _); by vm_compute|done|done|by vm_compute|by vm_compute|exact ex_holds|done].
Defined.

(** A late checkpoint replaces a newer one: a peer keeps whatever it
    receives last, however old, so the time of what it keeps can go back. *)
Theorem older_checkpoint_wins (blake2b : bytes -> bytes)
  (put_error : bytes -> bytes -> option bytes) (Compact_error : BoltSaver -> option (bytes * bool))
  (q : Peer) (data_new from : bytes) (w_new : Z) (ki : KeyInv)
  (Hput : forall v, put_error (ki_Key ki) v = None) (Hcompact : forall b, Compact_error b = None)
  (Hnew : holds blake2b q (ki_Key ki) w_new data_new) (Hval : ki_Val ki <> []) (Hold : ki_When ki < w_new)
  (Hok : BcastSetRequest_ok (MkBcastSetRequest from (Some ki))) (Hfit : fits blake2b (bo_whoami (pe_saver q)) ki) :
  exists q', receive_file blake2b put_error Compact_error q
      (ClientSendFile blake2b (ki_Key ki) (MarshalMsg (MkBcastSetRequest from (Some ki))) true) = Ok q' /\
    holds blake2b q' (ki_Key ki) (ki_When ki) (ki_Val ki) /\ ~ holds blake2b q' (ki_Key ki) w_new data_new.
Proof.
  destruct (file_holds blake2b put_error Compact_error q from ki) as (q' & E & Hh & _); [by eapply holds_open|done..|].
  exists q'. split_and!; [done|done|]. intros Hc. specialize (Hc true). rewrite Hh in Hc. injection Hc. lia.
Qed.

Lemma older_checkpoint_wins_witness : let ki := MkKeyInv (bs "chk") [] 10 0 [] (bs "old") in exists q',
  receive_file id (fun _ _ => None) (fun _ => None) ex_B
    (ClientSendFile id (bs "chk") (MarshalMsg (MkBcastSetRequest (bs "A") (Some ki))) true) = Ok q' /\
  holds id q' (bs "chk") 10 (bs "old").
Proof.
  intros ki. destruct (older_checkpoint_wins id (fun _ _ => None) (fun _ => None) ex_B (bs "new") (bs "A") 20 ki)
    as (q' & H1 & H2 & _);
    [done|done|apply (ex_holds ex_B); right; by left|done|cbn; lia|split_and!; by vm_compute|split_and!; by vm_compute|].
  exists q'. split; [exact H1|exact H2].
Defined.

(** A lead that knows no location sends nothing, and reports success. *)
Example nothing_sent : exists p',
  @LeadTransferCheckpoint (list KeyInv) sorted_RBTree id id (fun _ _ => None) (fun _ => None) ex_net ex_A (ex_laf (bs "A"))
    None None (Some (ex_laf (bs "A"))) [] [] (bs "chk") (bs "newer") 30 = Ok (p', []).
Proof. eexists. by vm_compute. Qed.
