(* ===== verification/Lex.v ===== *)
(** * Lex: the lexer of the configuration

    [src/conf/lex.go], whole.  A [stateFn] is a constructor of [stateFn],
    [LexSkip] the one that carries the next state; the lexer is the record of
    the code with the items that were sent on its channel, which the reader
    takes one by one.  A state function is a computation of the monad [L];
    its outcome [None] is a run-time panic (an index or a slice out of range).

    Runes are decoded from the bytes of the input as [utf8] does.  The table
    of decimal digits beyond Latin-1, which depends on the version of Go, is
    a parameter. *)

From S2P Require Import Prelude.

(** ** Runes *)

Definition rune := Z.

Definition runeError : rune := 65533%Z.

Definition is_cont (b : Z) : bool := (128 <=? b)%Z && (b <=? 191)%Z.

(** [utf8.DecodeRuneInString] of a string that is not empty. *)
Definition decode_rune (s : bytes) : rune * nat :=
  match bval <$> s with
  | [] => (runeError, 0)
  | b0 :: rest =>
      if (b0 <? 128)%Z then (b0, 1)
      else
        match rest with
        | b1 :: rest1 =>
            if (194 <=? b0)%Z && (b0 <=? 223)%Z && is_cont b1
            then (((b0 - 192) * 64 + (b1 - 128))%Z, 2)
            else
              match rest1 with
              | b2 :: rest2 =>
                  if (224 <=? b0)%Z && (b0 <=? 239)%Z && is_cont b1 && is_cont b2 &&
                     (if (b0 =? 224)%Z then (160 <=? b1)%Z else true) &&
                     (if (b0 =? 237)%Z then (b1 <=? 159)%Z else true)
                  then (((b0 - 224) * 4096 + (b1 - 128) * 64 + (b2 - 128))%Z, 3)
                  else
                    match rest2 with
                    | b3 :: _ =>
                        if (240 <=? b0)%Z && (b0 <=? 244)%Z && is_cont b1 && is_cont b2 && is_cont b3 &&
                           (if (b0 =? 240)%Z then (144 <=? b1)%Z else true) &&
                           (if (b0 =? 244)%Z then (b1 <=? 143)%Z else true)
                        then (((b0 - 240) * 262144 + (b1 - 128) * 4096 + (b2 - 128) * 64 + (b3 - 128))%Z, 4)
                        else (runeError, 1)
                    | [] => (runeError, 1)
                    end
              | [] => (runeError, 1)
              end
        | [] => (runeError, 1)
        end
  end.

(** [string(r)] of a rune that [decode_rune] gives. *)
Definition encode_rune (r : rune) : bytes :=
  if (r <? 128)%Z then [byte_of r]
  else if (r <? 2048)%Z then byte_of <$> [192 + r / 64; 128 + r mod 64]%Z
  else if (r <? 65536)%Z then byte_of <$> [224 + r / 4096; 128 + r / 64 mod 64; 128 + r mod 64]%Z
  else byte_of <$> [240 + r / 262144; 128 + r / 4096 mod 64; 128 + r / 64 mod 64; 128 + r mod 64]%Z.

(** A rune that is written as a character of the source. *)
Definition ch (c : ascii) : rune := bval c.

(** [unicode.IsSpace]. *)
Definition unicode_IsSpace (r : rune) : bool :=
  existsb (Z.eqb r) [9; 10; 11; 12; 13; 32; 133; 160; 5760; 8232; 8233; 8239; 8287; 12288]%Z ||
  ((8192 <=? r)%Z && (r <=? 8202)%Z).

(** ** Data *)

Inductive itemType :=
| itemError | itemNIL | itemEOF | itemKey | itemText | itemString | itemBool | itemInteger
| itemFloat | itemDatetime | itemArrayStart | itemArrayEnd | itemMapStart | itemMapEnd
| itemCommentStart | itemVariable | itemInclude.

#[export] Instance itemType_eq_dec : EqDecision itemType.
Proof. solve_decision. Defined.

Record item := Item { i_typ : itemType; i_val : bytes; i_line : Z }.

#[export] Instance item_eq_dec : EqDecision item.
Proof. solve_decision. Defined.

Definition eof : rune := 0%Z.
Definition mapStart := ch "{".
Definition mapEnd := ch "}".
Definition keySepEqual := ch "=".
Definition keySepColon := ch ":".
Definition arrayStart := ch "[".
Definition arrayEnd := ch "]".
Definition arrayValTerm := ch ",".
Definition mapValTerm := ch ",".
Definition commentHashStart := ch "#".
Definition commentSlashStart := ch "/".
Definition dqStringStart := ch "034".
Definition dqStringEnd := ch "034".
Definition sqStringStart := ch "'".
Definition sqStringEnd := ch "'".
Definition optValTerm := ch ";".
Definition blockStart := ch "(".
Definition blockEnd := ch ")".
Definition backslash := ch "\".

Inductive stateFn :=
| LexTop | LexTopValueEnd | LexKeyStart | LexDubQuotedKey | LexQuotedKey
| LexIncludeStart | LexIncludeQuotedString | LexIncludeDubQuotedString | LexIncludeString | LexInclude
| LexKey | LexKeyEnd | LexValue | LexArrayValue | LexArrayValueEnd | LexArrayEnd
| LexMapKeyStart | LexMapQuotedKey | LexMapDubQuotedKey | LexMapKey | LexMapKeyEnd
| LexMapValue | LexMapValueEnd | LexMapEnd
| LexQuotedString | LexDubQuotedString | LexString | LexBlock | LexStringEscape | LexStringBinary
| LexNumberOrDateOrIPStart | LexNumberOrDateOrIP | LexConvenientNumber | LexDateAfterYear
| LexNegNumberStart | LexNegNumber | LexFloatStart | LexFloat | LexIPAddr
| LexCommentStart | LexComment
| LexSkip (nextState : stateFn).

#[export] Instance stateFn_eq_dec : EqDecision stateFn.
Proof. solve_decision. Defined.

Record lexer := Lexer {
  lx_input : bytes;
  lx_start : nat;
  lx_pos : nat;
  lx_width : nat;
  lx_line : Z;
  lx_items : list item;     (* sent and not yet received *)
  lx_stack : list stateFn;  (* the last one pushed comes first *)
}.

Definition set_start (lx : lexer) x := Lexer (lx_input lx) x (lx_pos lx) (lx_width lx) (lx_line lx) (lx_items lx) (lx_stack lx).
Definition set_pos (lx : lexer) p w l := Lexer (lx_input lx) (lx_start lx) p w l (lx_items lx) (lx_stack lx).
Definition set_items (lx : lexer) x := Lexer (lx_input lx) (lx_start lx) (lx_pos lx) (lx_width lx) (lx_line lx) x (lx_stack lx).
Definition set_stack (lx : lexer) x := Lexer (lx_input lx) (lx_start lx) (lx_pos lx) (lx_width lx) (lx_line lx) (lx_items lx) x.

(** ** The monad *)

Definition L (A : Type) : Type := lexer -> option (lexer * A).

#[export] Instance L_ret : MRet L := fun A x lx => Some (lx, x).
#[export] Instance L_bind : MBind L := fun A B k m lx =>
  match m lx with Some (lx', x) => k x lx' | None => None end.

(** A state function ends with the next state; [None] is [nil]. *)
Abbreviation goto st := (mret (Some st) : L (option stateFn)).

(** ** Primitives *)

Definition lex_new (input : bytes) : lexer := Lexer input 0 0 0 1 [] [].

Definition push (st : stateFn) : L unit := fun lx => Some (set_stack lx (st :: lx_stack lx), tt).

(** [lx.input[lx.start:lx.pos]]. *)
Definition token : L bytes := fun lx =>
  if decide (lx_start lx <= lx_pos lx <= length (lx_input lx))
  then Some (lx, take (lx_pos lx - lx_start lx) (drop (lx_start lx) (lx_input lx)))
  else None.

Definition send (it : item) : L unit := fun lx => Some (set_items lx (lx_items lx ++ [it]), tt).
Definition get_line : L Z := fun lx => Some (lx, lx_line lx).

Definition ignore : L unit := fun lx => Some (set_start lx (lx_pos lx), tt).

Definition emit (typ : itemType) : L unit :=
  v ← token; l ← get_line; send (Item typ v l);; ignore.

Definition next : L rune := fun lx =>
  match lx_input lx !! lx_pos lx with
  | None => Some (set_pos lx (lx_pos lx) 0 (lx_line lx), eof)
  | Some b =>
      let line := if decide (b = LF) then (lx_line lx + 1)%Z else lx_line lx in
      let '(r, w) := decode_rune (drop (lx_pos lx) (lx_input lx)) in
      Some (set_pos lx (lx_pos lx + w) w line, r)
  end.

(** A position below 0 is out of range at once. *)
Definition backup : L unit := fun lx =>
  if decide (lx_pos lx < lx_width lx) then None
  else
    let pos := lx_pos lx - lx_width lx in
    let line := if decide (lx_input lx !! pos = Some LF) then (lx_line lx - 1)%Z else lx_line lx in
    Some (set_pos lx pos (lx_width lx) line, tt).

Definition peek : L rune := r ← next; backup;; mret r.

Definition escapeSpecial (c : rune) : bytes := if (c =? 10)%Z then bs "\n" else encode_rune c.

Definition errorf (msg : bytes) : L (option stateFn) :=
  l ← get_line; send (Item itemError msg l);; mret None.

Definition pop : L (option stateFn) := fun lx =>
  match lx_stack lx with
  | [] => errorf (bs "BUG in lexer: no states to pop.") lx
  | st :: stack => Some (set_stack lx stack, Some st)
  end.

(** The [%v] of a rune between quotes, and the [%q] of a plain character. *)
Definition q1 (r : rune) : bytes := bs "'" ++ escapeSpecial r ++ bs "'".
Definition q2 (r : rune) : bytes := ["034"%char] ++ escapeSpecial r ++ ["034"%char].

(** ** Character classes *)

Definition isNumberSuffix (r : rune) : bool := existsb (Z.eqb r) (ch <$> ["k"; "K"; "m"; "M"; "g"; "G"]%char).
Definition isKeySeparator (r : rune) : bool := (r =? keySepEqual)%Z || (r =? keySepColon)%Z.
Definition isWhitespace (r : rune) : bool := (r =? 9)%Z || (r =? 32)%Z.
Definition isNL (r : rune) : bool := (r =? 10)%Z || (r =? 13)%Z.
Definition isHexadecimal (r : rune) : bool :=
  ((ch "0" <=? r)%Z && (r <=? ch "9")%Z) || ((ch "a" <=? r)%Z && (r <=? ch "f")%Z) ||
  ((ch "A" <=? r)%Z && (r <=? ch "F")%Z).

(** [strings.ToLower] on bytes: the letters of ASCII, and U+0130, the one
    other rune whose lower case is a letter of a keyword below. *)
Fixpoint ToLower (s : bytes) : bytes :=
  match s with
  | b :: s1 =>
      match s1 with
      | c :: s2 => if decide (bval b = 196 /\ bval c = 176)%Z then "i"%char :: ToLower s2 else lower b :: ToLower s1
      | [] => [lower b]
      end
  | [] => []
  end.

Section states.
(** The decimal digits above Latin-1. *)
Context (digitTable : rune -> bool).

Definition IsDigit (r : rune) : bool :=
  if (r <=? 255)%Z then (ch "0" <=? r)%Z && (r <=? ch "9")%Z else digitTable r.

(** ** The top level *)

(** The slash that starts a comment needs a second one; otherwise [k]. *)
Definition slash_comment (ret : stateFn) (k : L (option stateFn)) : L (option stateFn) :=
  rn ← next;
  if (rn =? commentSlashStart)%Z then push ret;; goto LexCommentStart
  else backup;; k.

Definition top_eof : L (option stateFn) := fun lx =>
  if decide (lx_start lx < lx_pos lx) then errorf (bs "Unexpected EOF.") lx
  else (emit itemEOF;; mret None) lx.

Definition lexTop : L (option stateFn) :=
  r ← next;
  if unicode_IsSpace r then goto (LexSkip LexTop)
  else if (r =? commentHashStart)%Z then push LexTop;; goto LexCommentStart
  else if (r =? commentSlashStart)%Z then slash_comment LexTop top_eof
  else if (r =? eof)%Z then top_eof
  else backup;; push LexTopValueEnd;; goto LexKeyStart.

Definition lexTopValueEnd : L (option stateFn) :=
  r ← next;
  if (r =? commentHashStart)%Z then push LexTop;; goto LexCommentStart
  else if (r =? commentSlashStart)%Z then slash_comment LexTop (goto LexTopValueEnd)
  else if isWhitespace r then goto LexTopValueEnd
  else if isNL r || (r =? eof)%Z || (r =? optValTerm)%Z then ignore;; goto LexTop
  else errorf (bs "Expected a top-level value to end with a new line, comment or EOF, but got " ++ q1 r ++ bs " instead.").

(** ** Keys *)

Definition lexKeyStart : L (option stateFn) :=
  r ← peek;
  if isKeySeparator r then errorf (bs "Unexpected key separator " ++ q1 r)
  else if unicode_IsSpace r then next;; goto (LexSkip LexKeyStart)
  else if (r =? dqStringStart)%Z then next;; goto (LexSkip LexDubQuotedKey)
  else if (r =? sqStringStart)%Z then next;; goto (LexSkip LexQuotedKey)
  else ignore;; next;; goto LexKey.

(** The text between quotes, and what follows. *)
Definition quoted_key (quote : rune) (self after : stateFn) : L (option stateFn) :=
  r ← peek;
  if (r =? quote)%Z then emit itemKey;; next;; goto (LexSkip after)
  else next;; goto self.

Definition lexDubQuotedKey := quoted_key dqStringEnd LexDubQuotedKey LexKeyEnd.
Definition lexQuotedKey := quoted_key sqStringEnd LexQuotedKey LexKeyEnd.

Definition keyCheckKeyword (fallThrough : stateFn) (pushed : option stateFn) : L (option stateFn) :=
  t ← token;
  if decide (ToLower t = bs "include") then
    ignore;;
    (match pushed with Some st => push st | None => mret tt end);;
    goto LexIncludeStart
  else emit itemKey;; goto fallThrough.

Definition lexKey : L (option stateFn) :=
  r ← peek;
  if unicode_IsSpace r then keyCheckKeyword LexKeyEnd None
  else if isKeySeparator r || (r =? eof)%Z then emit itemKey;; goto LexKeyEnd
  else next;; goto LexKey.

Definition lexKeyEnd : L (option stateFn) :=
  r ← next;
  if unicode_IsSpace r then goto (LexSkip LexKeyEnd)
  else if isKeySeparator r then goto (LexSkip LexValue)
  else if (r =? eof)%Z then emit itemEOF;; mret None
  else backup;; goto LexValue.

(** ** Includes *)

Definition lexIncludeStart : L (option stateFn) :=
  r ← next;
  if isWhitespace r then goto (LexSkip LexIncludeStart)
  else backup;; goto LexInclude.

(** The end of a quoted text: the quote is dropped. *)
Definition end_quoted (typ : itemType) : L (option stateFn) :=
  backup;; emit typ;; next;; ignore;; pop.

Definition quoted_text (quote : rune) (typ : itemType) (self : stateFn) : L (option stateFn) :=
  r ← next;
  if (r =? quote)%Z then end_quoted typ else goto self.

Definition lexIncludeQuotedString := quoted_text sqStringEnd itemInclude LexIncludeQuotedString.
Definition lexIncludeDubQuotedString := quoted_text dqStringEnd itemInclude LexIncludeDubQuotedString.

Definition lexIncludeString : L (option stateFn) :=
  r ← next;
  if isNL r || (r =? eof)%Z || (r =? optValTerm)%Z || (r =? mapEnd)%Z || isWhitespace r then
    backup;; emit itemInclude;; pop
  else if (r =? sqStringEnd)%Z then end_quoted itemInclude
  else goto LexIncludeString.

Definition lexInclude : L (option stateFn) :=
  let err (what : string) := errorf (bs "Expected include value but found " ++ bs what) in
  r ← next;
  if (r =? sqStringStart)%Z then ignore;; goto LexIncludeQuotedString
  else if (r =? dqStringStart)%Z then ignore;; goto LexIncludeDubQuotedString
  else if (r =? arrayStart)%Z then err "start of an array"
  else if (r =? mapStart)%Z then err "start of a map"
  else if (r =? blockStart)%Z then err "start of a block"
  else if IsDigit r || (r =? ch "-")%Z then err "start of a number"
  else if (r =? backslash)%Z then err "escape sequence"
  else if isNL r then err "new line"
  else backup;; goto LexIncludeString.

(** ** Values *)

Definition lexValue : L (option stateFn) :=
  r ← next;
  if isWhitespace r then goto (LexSkip LexValue)
  else if (r =? arrayStart)%Z then ignore;; emit itemArrayStart;; goto LexArrayValue
  else if (r =? mapStart)%Z then ignore;; emit itemMapStart;; goto LexMapKeyStart
  else if (r =? sqStringStart)%Z then ignore;; goto LexQuotedString
  else if (r =? dqStringStart)%Z then ignore;; goto LexDubQuotedString
  else if (r =? ch "-")%Z then goto LexNegNumberStart
  else if (r =? blockStart)%Z then ignore;; goto LexBlock
  else if IsDigit r then backup;; goto LexNumberOrDateOrIPStart
  else if (r =? ch ".")%Z then errorf (bs "Floats must start with a digit")
  else if isNL r then errorf (bs "Expected value but found new line")
  else backup;; goto LexString.

(** ** Arrays *)

Definition lexArrayValue : L (option stateFn) :=
  let unexpected := errorf (bs "Unexpected array value terminator " ++ q1 arrayValTerm ++ bs ".") in
  r ← next;
  if unicode_IsSpace r then goto (LexSkip LexArrayValue)
  else if (r =? commentHashStart)%Z then push LexArrayValue;; goto LexCommentStart
  else if (r =? commentSlashStart)%Z then slash_comment LexArrayValue unexpected
  else if (r =? arrayValTerm)%Z then unexpected
  else if (r =? arrayEnd)%Z then goto LexArrayEnd
  else backup;; push LexArrayValueEnd;; goto LexValue.

Definition lexArrayValueEnd : L (option stateFn) :=
  r ← next;
  if isWhitespace r then goto (LexSkip LexArrayValueEnd)
  else if (r =? commentHashStart)%Z then push LexArrayValueEnd;; goto LexCommentStart
  else if (r =? commentSlashStart)%Z then slash_comment LexArrayValueEnd (goto (LexSkip LexArrayValue))
  else if (r =? arrayValTerm)%Z || isNL r then goto (LexSkip LexArrayValue)
  else if (r =? arrayEnd)%Z then goto LexArrayEnd
  else errorf (bs "Expected an array value terminator " ++ q2 arrayValTerm ++ bs " or an array terminator " ++
               q2 arrayEnd ++ bs ", but got " ++ q1 r ++ bs " instead.").

Definition lexArrayEnd : L (option stateFn) := ignore;; emit itemArrayEnd;; pop.

(** ** Maps *)

Definition lexMapKeyStart : L (option stateFn) :=
  let key : L (option stateFn) := ignore;; next;; goto LexMapKey in
  r ← peek;
  if isKeySeparator r then errorf (bs "Unexpected key separator " ++ q1 r ++ bs ".")
  else if unicode_IsSpace r then next;; goto (LexSkip LexMapKeyStart)
  else if (r =? mapEnd)%Z then next;; goto (LexSkip LexMapEnd)
  else if (r =? commentHashStart)%Z then next;; push LexMapKeyStart;; goto LexCommentStart
  else if (r =? commentSlashStart)%Z then next;; slash_comment LexMapKeyStart key
  else if (r =? sqStringStart)%Z then next;; goto (LexSkip LexMapQuotedKey)
  else if (r =? dqStringStart)%Z then next;; goto (LexSkip LexMapDubQuotedKey)
  else key.

Definition lexMapQuotedKey := quoted_key sqStringEnd LexMapQuotedKey LexMapKeyEnd.
Definition lexMapDubQuotedKey := quoted_key dqStringEnd LexMapDubQuotedKey LexMapKeyEnd.

Definition lexMapKey : L (option stateFn) :=
  r ← peek;
  if unicode_IsSpace r then keyCheckKeyword LexMapKeyEnd (Some LexMapValueEnd)
  else if isKeySeparator r then emit itemKey;; goto LexMapKeyEnd
  else next;; goto LexMapKey.

Definition lexMapKeyEnd : L (option stateFn) :=
  r ← next;
  if unicode_IsSpace r then goto (LexSkip LexMapKeyEnd)
  else if isKeySeparator r then goto (LexSkip LexMapValue)
  else backup;; goto LexMapValue.

Definition lexMapValue : L (option stateFn) :=
  r ← next;
  if unicode_IsSpace r then goto (LexSkip LexMapValue)
  else if (r =? mapValTerm)%Z then errorf (bs "Unexpected map value terminator " ++ q2 mapValTerm ++ bs ".")
  else if (r =? mapEnd)%Z then goto (LexSkip LexMapEnd)
  else backup;; push LexMapValueEnd;; goto LexValue.

Definition lexMapValueEnd : L (option stateFn) :=
  r ← next;
  if isWhitespace r then goto (LexSkip LexMapValueEnd)
  else if (r =? commentHashStart)%Z then push LexMapValueEnd;; goto LexCommentStart
  else if (r =? commentSlashStart)%Z then slash_comment LexMapValueEnd (goto (LexSkip LexMapKeyStart))
  else if (r =? optValTerm)%Z || (r =? mapValTerm)%Z || isNL r then goto (LexSkip LexMapKeyStart)
  else if (r =? mapEnd)%Z then goto (LexSkip LexMapEnd)
  else errorf (bs "Expected a map value terminator " ++ q2 mapValTerm ++ bs " or a map terminator " ++
               q2 mapEnd ++ bs ", but got " ++ q1 r ++ bs " instead.").

Definition lexMapEnd : L (option stateFn) := ignore;; emit itemMapEnd;; pop.

(** ** Strings *)

Definition bool_words : list bytes := bs <$> ["true"; "false"; "on"; "off"; "yes"; "no"]%string.

Definition isBool : L bool := t ← token; mret (bool_decide (ToLower t ∈ bool_words)).

(** The index [lx.input[lx.start]] can be out of range. *)
Definition isVariable : L bool := fun lx =>
  match lx_input lx !! lx_start lx with
  | None => None
  | Some b => if decide (b = "$"%char) then Some (set_start lx (lx_start lx + 1), true) else Some (lx, false)
  end.

Definition lexQuotedString := quoted_text sqStringEnd itemString LexQuotedString.
Definition lexDubQuotedString := quoted_text dqStringEnd itemString LexDubQuotedString.

Definition lexString : L (option stateFn) :=
  r ← next;
  if (r =? backslash)%Z then goto LexStringEscape
  else if isNL r || (r =? eof)%Z || (r =? optValTerm)%Z || (r =? arrayValTerm)%Z || (r =? arrayEnd)%Z ||
          (r =? mapEnd)%Z || isWhitespace r then
    backup;;
    b ← isBool;
    (if b : bool then emit itemBool
     else v ← isVariable; if v : bool then emit itemVariable else emit itemString);;
    pop
  else if (r =? sqStringEnd)%Z then end_quoted itemString
  else goto LexString.

Definition lexBlock : L (option stateFn) :=
  r ← next;
  if (r =? blockEnd)%Z then
    backup;; backup;;
    r1 ← next;
    if negb (r1 =? 10)%Z then next;; goto LexBlock
    else
      next;;
      r2 ← next;
      if (r2 =? 10)%Z || (r2 =? eof)%Z then backup;; end_quoted itemString
      else backup;; goto LexBlock
  else goto LexBlock.

Definition lexStringEscape : L (option stateFn) :=
  r ← next;
  if (r =? ch "x")%Z then goto LexStringBinary
  else if existsb (Z.eqb r) (ch <$> ["t"; "n"; "r"; "034"; "\"]%char) then goto LexString
  else errorf (bs "Invalid escape character " ++ q1 r ++
         bs ". Only the following escape characters are allowed: \xXX, \t, \n, \r, \" ++ ["034"%char] ++ bs ", \\.").

Definition lexStringBinary : L (option stateFn) :=
  let err r := errorf (bs "Expected two hexadecimal digits after '\x', but got " ++ q1 r ++ bs " instead.") in
  r ← next;
  if negb (isHexadecimal r) then err r
  else
    r ← next;
    if negb (isHexadecimal r) then err r else goto LexString.

(** ** Numbers, dates and addresses *)

Definition number_start (self : stateFn) : L (option stateFn) :=
  r ← next;
  if negb (IsDigit r) then
    if (r =? ch ".")%Z then errorf (bs "Floats must start with a digit, not '.'.")
    else errorf (bs "Expected a digit but got " ++ q1 r ++ bs ".")
  else goto self.

Definition lexNumberOrDateOrIPStart := number_start LexNumberOrDateOrIP.

Definition emit_pop (typ : itemType) : L (option stateFn) := backup;; emit typ;; pop.

(** The year of a date has four digits. *)
Definition date_or_error : L (option stateFn) := fun lx =>
  if decide (lx_pos lx = lx_start lx + 5) then Some (lx, Some LexDateAfterYear)
  else errorf (bs "All ISO8601 dates must be in full Zulu form.") lx.

Definition lexNumberOrDateOrIP : L (option stateFn) :=
  r ← next;
  if (r =? ch "-")%Z then date_or_error
  else if IsDigit r then goto LexNumberOrDateOrIP
  else if (r =? ch ".")%Z then goto LexFloatStart
  else if isNumberSuffix r then goto LexConvenientNumber
  else emit_pop itemInteger.

Definition lexConvenientNumber : L (option stateFn) :=
  r ← next;
  if (r =? ch "b")%Z || (r =? ch "B")%Z then goto LexConvenientNumber
  else emit_pop itemInteger.

Definition date_formats : bytes := bs "00-00T00:00:00Z".

Fixpoint date_loop (formats : bytes) : L (option stateFn) :=
  match formats with
  | [] => emit itemDatetime;; pop
  | f :: formats' =>
      r ← next;
      if decide (f = "0"%char) then
        if negb (IsDigit r)
        then errorf (bs "Expected digit in ISO8601 datetime, but found " ++ q1 r ++ bs " instead.")
        else date_loop formats'
      else if negb (ch f =? r)%Z
      then errorf (bs "Expected " ++ q1 (ch f) ++ bs " in ISO8601 datetime, but found " ++ q1 r ++ bs " instead.")
      else date_loop formats'
  end.

Definition lexDateAfterYear : L (option stateFn) := date_loop date_formats.

Definition lexNegNumberStart := number_start LexNegNumber.

Definition lexNegNumber : L (option stateFn) :=
  r ← next;
  if IsDigit r then goto LexNegNumber
  else if (r =? ch ".")%Z then goto LexFloatStart
  else if isNumberSuffix r then goto LexConvenientNumber
  else emit_pop itemInteger.

Definition lexFloatStart : L (option stateFn) :=
  r ← next;
  if negb (IsDigit r)
  then errorf (bs "Floats must have a digit after the '.', but got " ++ q1 r ++ bs " instead.")
  else goto LexFloat.

Definition lexFloat : L (option stateFn) :=
  r ← next;
  if IsDigit r then goto LexFloat
  else if (r =? ch ".")%Z then goto LexIPAddr
  else emit_pop itemFloat.

Definition lexIPAddr : L (option stateFn) :=
  r ← next;
  if IsDigit r || (r =? ch ".")%Z || (r =? ch ":")%Z then goto LexIPAddr
  else emit_pop itemString.

(** ** Comments *)

Definition lexCommentStart : L (option stateFn) := ignore;; emit itemCommentStart;; goto LexComment.

Definition lexComment : L (option stateFn) :=
  r ← peek;
  if isNL r || (r =? eof)%Z then emit itemText;; pop
  else next;; goto LexComment.

(** ** Running the machine *)

Definition run_state (st : stateFn) : L (option stateFn) :=
  match st with
  | LexTop => lexTop | LexTopValueEnd => lexTopValueEnd
  | LexKeyStart => lexKeyStart | LexDubQuotedKey => lexDubQuotedKey | LexQuotedKey => lexQuotedKey
  | LexIncludeStart => lexIncludeStart | LexIncludeQuotedString => lexIncludeQuotedString
  | LexIncludeDubQuotedString => lexIncludeDubQuotedString | LexIncludeString => lexIncludeString
  | LexInclude => lexInclude | LexKey => lexKey | LexKeyEnd => lexKeyEnd | LexValue => lexValue
  | LexArrayValue => lexArrayValue | LexArrayValueEnd => lexArrayValueEnd | LexArrayEnd => lexArrayEnd
  | LexMapKeyStart => lexMapKeyStart | LexMapQuotedKey => lexMapQuotedKey
  | LexMapDubQuotedKey => lexMapDubQuotedKey | LexMapKey => lexMapKey | LexMapKeyEnd => lexMapKeyEnd
  | LexMapValue => lexMapValue | LexMapValueEnd => lexMapValueEnd | LexMapEnd => lexMapEnd
  | LexQuotedString => lexQuotedString | LexDubQuotedString => lexDubQuotedString
  | LexString => lexString | LexBlock => lexBlock | LexStringEscape => lexStringEscape
  | LexStringBinary => lexStringBinary | LexNumberOrDateOrIPStart => lexNumberOrDateOrIPStart
  | LexNumberOrDateOrIP => lexNumberOrDateOrIP | LexConvenientNumber => lexConvenientNumber
  | LexDateAfterYear => lexDateAfterYear | LexNegNumberStart => lexNegNumberStart
  | LexNegNumber => lexNegNumber | LexFloatStart => lexFloatStart | LexFloat => lexFloat
  | LexIPAddr => lexIPAddr | LexCommentStart => lexCommentStart | LexComment => lexComment
  | LexSkip nextState => ignore;; goto nextState
  end.

(** The lexer with its field [state]; [None] is [nil]. *)
Definition config : Type := lexer * option stateFn.

(** [nextItem]: an item, a panic (also that of calling a nil state), or more
    steps than the fuel. *)
Inductive next_result :=
| GotItem (it : item) (c : config)
| NextPanic
| NextFuel.

Fixpoint nextItem (fuel : nat) (c : config) : next_result :=
  match lx_items c.1 with
  | it :: items => GotItem it (set_items c.1 items, c.2)
  | [] =>
      match fuel with
      | O => NextFuel
      | S fuel' =>
          match c.2 with
          | None => NextPanic
          | Some st =>
              match run_state st c.1 with
              | None => NextPanic
              | Some c' => nextItem fuel' c'
              end
          end
      end
  end.

Definition lex (input : bytes) : config := (lex_new input, Some LexTop).

(** The items of a run, up to the first error or EOF, as the parser reads them. *)
Inductive lex_result :=
| Items (l : list item)
| LexPanic (l : list item)
| LexFuel (l : list item).

Fixpoint lex_items (n fuel : nat) (acc : list item) (c : config) : lex_result :=
  match n with
  | O => LexFuel acc
  | S n' =>
      match nextItem fuel c with
      | GotItem it c' =>
          let acc := acc ++ [it] in
          if decide (i_typ it = itemEOF \/ i_typ it = itemError) then Items acc else lex_items n' fuel acc c'
      | NextPanic => LexPanic acc
      | NextFuel => LexFuel acc
      end
  end.

Definition lex_all (input : bytes) : lex_result :=
  let fuel := 96 * length input + 24 in lex_items fuel fuel [] (lex input).
End states.
