(* ===== verification/LexSafe.v ===== *)
(** * LexSafe: the lexer stays in bounds and moves on

    One invariant of the machine of [src/conf/lex.go] and one measure give
    what every step does: it stays within the input, it panics in one place
    only, and it comes closer to its end, unless it sits at the end of the
    input inside a text that is never closed. *)

From S2P Require Import Prelude Lex.

(** ** The first rune *)

Record rune_at (s : bytes) (b : byte) (r : rune) (w : nat) : Prop := {
  ra_pos : 1 <= w;
  ra_len : w <= length s;
  ra_ascii : (bval b < 128)%Z -> r = bval b /\ w = 1;
  ra_back : (r < 128)%Z -> r = bval b /\ w = 1;
}.

Lemma decode_rune_at b s r w : decode_rune (b :: s) = (r, w) -> rune_at (b :: s) b r w.
Proof.
  unfold decode_rune. rewrite fmap_cons. pose proof (bval_range b) as Hb.
  unfold is_cont, runeError.
  destruct (bval b <? 128)%Z eqn:E0; [intros E; simplify_eq; split; simpl; lia|].
  destruct s as [|b1 s]; rewrite ?fmap_cons, ?fmap_nil; [intros E; simplify_eq; split; simpl; lia|].
  pose proof (bval_range b1).
  lazymatch goal with |- (if ?c then _ else _) = _ -> _ => destruct c eqn:E1 end;
    [repeat case_match; intros E; simplify_eq; split; simpl; lia|].
  destruct s as [|b2 s]; rewrite ?fmap_cons, ?fmap_nil; [intros E; simplify_eq; split; simpl; lia|].
  pose proof (bval_range b2).
  lazymatch goal with |- (if ?c then _ else _) = _ -> _ => destruct c eqn:E2 end;
    [repeat case_match; intros E; simplify_eq; split; simpl; lia|].
  destruct s as [|b3 s]; rewrite ?fmap_cons, ?fmap_nil; [intros E; simplify_eq; split; simpl; lia|].
  pose proof (bval_range b3).
  lazymatch goal with |- (if ?c then _ else _) = _ -> _ => destruct c eqn:E3 end;
    repeat case_match; intros E; simplify_eq; split; simpl; lia.
Qed.

(** ** Weakest preconditions *)

Definition wp {A} (m : L A) (Q : lexer -> A -> Prop) (lx : lexer) : Prop :=
  match m lx with Some (lx', x) => Q lx' x | None => False end.

Lemma wp_bind {A B} (m : L A) (k : A -> L B) Q lx :
  wp m (fun lx' x => wp (k x) Q lx') lx -> wp (m ≫= k) Q lx.
Proof. unfold wp, mbind, L_bind. by destruct (m lx) as [[lx' x]|]. Qed.

Lemma wp_ret {A} (x : A) (Q : lexer -> A -> Prop) lx : Q lx x -> wp (mret x) Q lx.
Proof. done. Qed.

Lemma wp_push st Q lx : Q (set_stack lx (st :: lx_stack lx)) tt -> wp (push st) Q lx.
Proof. done. Qed.

Lemma wp_ignore Q lx : Q (set_start lx (lx_pos lx)) tt -> wp ignore Q lx.
Proof. done. Qed.

Lemma wp_emit typ (Q : lexer -> unit -> Prop) lx :
  lx_start lx <= lx_pos lx <= length (lx_input lx) ->
  (forall it, i_typ it = typ -> Q (set_items (set_start lx (lx_pos lx)) (lx_items lx ++ [it])) tt) ->
  wp (emit typ) Q lx.
Proof.
  intros Hlx HQ. unfold wp, emit, token, get_line, send, ignore, mbind, L_bind.
  rewrite decide_True by done. simpl. by apply HQ.
Qed.

Lemma wp_next (Q : lexer -> rune -> Prop) lx :
  (lx_input lx !! lx_pos lx = None -> Q (set_pos lx (lx_pos lx) 0 (lx_line lx)) eof) ->
  (forall b r w l, lx_input lx !! lx_pos lx = Some b -> lx_pos lx + w <= length (lx_input lx) ->
     1 <= w -> ((bval b < 128)%Z \/ (r < 128)%Z -> r = bval b /\ w = 1) ->
     Q (set_pos lx (lx_pos lx + w) w l) r) ->
  wp next Q lx.
Proof.
  intros H1 H2. unfold wp, next. destruct (lx_input lx !! lx_pos lx) as [b|] eqn:E; [|auto].
  destruct (decode_rune _) as [r w] eqn:Ed. rewrite (drop_S _ b (lx_pos lx)) in Ed by done.
  destruct (decode_rune_at _ _ _ _ Ed) as [A1 A2 A3 A4]. simpl in A2.
  apply (H2 b r w); [done| |done|]; [|tauto].
  apply lookup_lt_Some in E. rewrite length_drop in A2. lia.
Qed.

Lemma wp_backup (Q : lexer -> unit -> Prop) lx :
  lx_width lx <= lx_pos lx ->
  (forall l, Q (set_pos lx (lx_pos lx - lx_width lx) (lx_width lx) l) tt) -> wp backup Q lx.
Proof. intros Hw HQ. unfold wp, backup. rewrite decide_False by lia. apply HQ. Qed.

Lemma wp_peek (Q : lexer -> rune -> Prop) lx :
  (lx_input lx !! lx_pos lx = None -> forall l, Q (set_pos lx (lx_pos lx) 0 l) eof) ->
  (forall b r w l, lx_input lx !! lx_pos lx = Some b -> lx_pos lx + w <= length (lx_input lx) ->
     1 <= w -> ((bval b < 128)%Z \/ (r < 128)%Z -> r = bval b /\ w = 1) ->
     Q (set_pos lx (lx_pos lx) w l) r) ->
  wp peek Q lx.
Proof.
  intros H1 H2. apply wp_bind, wp_next.
  - intros E. apply wp_bind, wp_backup; simpl; [lia|]. intros l. apply wp_ret.
    rewrite Nat.sub_0_r. by apply H1.
  - intros b r w l Hb Hl Hw Hr. apply wp_bind, wp_backup; simpl; [lia|]. intros l'. apply wp_ret.
    replace (lx_pos lx + w - w) with (lx_pos lx) by lia. by apply (H2 b r w).
Qed.

Lemma wp_errorf msg (Q : lexer -> option stateFn -> Prop) lx :
  (forall it, i_typ it = itemError -> Q (set_items lx (lx_items lx ++ [it])) None) -> wp (errorf msg) Q lx.
Proof. intros HQ. by apply HQ. Qed.

Lemma wp_pop (Q : lexer -> option stateFn -> Prop) lx :
  (lx_stack lx = [] -> forall it, i_typ it = itemError -> Q (set_items lx (lx_items lx ++ [it])) None) ->
  (forall st stack, lx_stack lx = st :: stack -> Q (set_stack lx stack) (Some st)) -> wp pop Q lx.
Proof.
  intros H1 H2. unfold wp, pop. destruct (lx_stack lx) as [|st stack] eqn:E; [|by apply H2].
  by apply (H1 eq_refl (Item itemError _ (lx_line lx))).
Qed.

Lemma wp_token (Q : lexer -> bytes -> Prop) lx :
  lx_start lx <= lx_pos lx <= length (lx_input lx) -> (forall t, Q lx t) -> wp token Q lx.
Proof. intros Hlx HQ. unfold wp, token. by rewrite decide_True. Qed.

(** The reader stops after such an item. *)
Definition last_item (typ : itemType) : bool := bool_decide (typ = itemEOF \/ typ = itemError).

Lemma wp_top_eof (Q : lexer -> option stateFn -> Prop) lx :
  lx_start lx <= lx_pos lx <= length (lx_input lx) ->
  (forall st it, st <= lx_pos lx -> last_item (i_typ it) = true ->
     Q (set_items (set_start lx st) (lx_items lx ++ [it])) None) ->
  wp top_eof Q lx.
Proof.
  intros Hr HQ. unfold wp, top_eof. case_decide; [destruct lx; apply (HQ _); simpl in *; (lia || done)|].
  apply (wp_bind (emit itemEOF) (fun _ => mret None)), wp_emit; [done|]. intros it E. apply wp_ret, HQ; [done|by rewrite E].
Qed.

Lemma wp_date_or_error (Q : lexer -> option stateFn -> Prop) lx :
  Q lx (Some LexDateAfterYear) ->
  (forall it, i_typ it = itemError -> Q (set_items lx (lx_items lx ++ [it])) None) ->
  wp date_or_error Q lx.
Proof. intros H1 H2. unfold wp, date_or_error. case_decide; [done|by apply H2]. Qed.

(** ** The invariant and the measure *)

Fixpoint base (st : stateFn) : stateFn := match st with LexSkip st' => base st' | _ => st end.

(** The position is within the input, after the start of the token; a block
    has its parenthesis before it. *)
Record lex_wf (lx : lexer) (o : option stateFn) : Prop := {
  wf_range : lx_start lx <= lx_pos lx <= length (lx_input lx);
  wf_stack : Forall (fun st => base st <> LexBlock) (lx_stack lx);
  wf_block : base <$> o = Some LexBlock -> 1 <= lx_start lx;
}.

Fixpoint rank (at_end : bool) (st : stateFn) : nat :=
  match st with
  | LexTop => if at_end then 0 else 7
  | LexMapKeyStart => 7
  | LexMapKey => 6
  | LexKeyStart | LexMapKeyEnd => 5
  | LexKey | LexMapValue | LexArrayValue => 4
  | LexKeyEnd | LexIncludeStart => 3
  | LexValue | LexInclude | LexCommentStart => 2
  | LexSkip st' => S (rank at_end st')
  | _ => 1
  end.

Fixpoint ranks (at_end : bool) (l : list stateFn) : nat :=
  match l with [] => 0 | st :: l' => rank at_end st + ranks at_end l' end.

Definition phi (lx : lexer) (st : stateFn) : nat :=
  let at_end := bool_decide (lx_pos lx = length (lx_input lx)) in
  32 * (length (lx_input lx) - lx_pos lx) + rank at_end st + ranks at_end (lx_stack lx).

Lemma rank_end st : rank true st <= rank false st.
Proof. induction st; simpl; lia. Qed.

Lemma ranks_end l : ranks true l <= ranks false l.
Proof.
  induction l as [|st l IH]; simpl; [done|]. pose proof (rank_end st). lia.
Qed.

(** The states that read on at the end of the input. *)
Definition open_text (st : stateFn) : bool :=
  match st with
  | LexDubQuotedKey | LexQuotedKey | LexMapQuotedKey | LexMapDubQuotedKey | LexMapKey
  | LexIncludeQuotedString | LexIncludeDubQuotedString | LexQuotedString | LexDubQuotedString | LexBlock => true
  | _ => false
  end.

(** What a step from [st] leads to. *)
Definition good_step (lx : lexer) (st : stateFn) (lx' : lexer) (o : option stateFn) : Prop :=
  (lx_input lx' = lx_input lx /\ length (lx_items lx') <= length (lx_items lx) + 2) /\ lex_wf lx' o /\
  match o with
  | None => exists it, last (lx_items lx') = Some it /\ last_item (i_typ it) = true
  | Some st' =>
      phi lx' st' < phi lx st \/
      (open_text st = true /\ st' = st /\ lx_pos lx = length (lx_input lx) /\
       exists l, lx' = set_pos lx (lx_pos lx) 0 l)
  end.

Section steps.
Context (digitTable : rune -> bool).

(** A branch that the end of the input excludes. *)
Ltac lex_absurd :=
  match goal with
  | H : ?c = true |- _ => assert_fails (is_var c); vm_compute in H; discriminate H
  | H : ?c = false |- _ => assert_fails (is_var c); vm_compute in H; discriminate H
  end.

(** Symbolic execution of a state function. *)
Ltac lex_step :=
  cbv zeta;
  lazymatch goal with
  | |- wp (_ ≫= _) _ _ => apply wp_bind
  | |- wp next _ _ => apply wp_next; cbn; intros
  | |- wp peek _ _ => apply wp_peek; cbn; intros
  | |- wp backup _ _ => apply wp_backup; cbn; [lia|intros]
  | |- wp (push _) _ _ => apply wp_push; cbn
  | |- wp ignore _ _ => apply wp_ignore; cbn
  | |- wp (emit _) _ _ => apply wp_emit; cbn; [lia|intros]
  | |- wp token _ _ => apply wp_token; cbn; [lia|intros]
  | |- wp (errorf _) _ _ => apply wp_errorf; cbn; intros
  | |- wp pop _ _ => apply wp_pop; cbn; intros
  | |- wp top_eof _ _ => apply wp_top_eof; cbn; [lia|intros]
  | |- wp date_or_error _ _ => apply wp_date_or_error; cbn; intros
  | |- wp (mret _) _ _ => apply wp_ret
  | |- wp (if ?c then _ else _) _ _ => destruct c eqn:?; try (lex_absurd; fail)
  | |- wp (match ?c with Some _ => _ | None => _ end) _ _ => destruct c eqn:?
  end.

Ltac lex_bounds :=
  repeat match goal with
  | H : _ !! _ = None |- _ => apply lookup_ge_None in H
  | H : _ !! _ = Some _ |- _ => apply lookup_lt_Some in H
  end;
  try match goal with
  | H : lx_stack _ = _ :: _, Hs : Forall _ (lx_stack _) |- _ => rewrite H in Hs; apply Forall_cons in Hs as [? Hs]
  end.

(** The measure: the position moved, or the rank fell. *)
Ltac lex_phi :=
  left; unfold phi;
  cbn [lx_pos lx_input lx_stack set_pos set_stack set_start set_items];
  repeat match goal with H : lx_stack _ = _ |- _ => rewrite H; clear H end;
  cbn [ranks];
  repeat match goal with
  | |- context [ranks (bool_decide _) ?l] =>
      lazymatch goal with H : ranks true l <= ranks false l |- _ => fail | _ => pose proof (ranks_end l) end
  end;
  repeat match goal with
  | |- context [rank (bool_decide _) ?st] =>
      is_var st;
      lazymatch goal with H : rank true st <= rank false st |- _ => fail | _ => pose proof (rank_end st) end
  end;
  repeat case_bool_decide; cbn [rank]; lia.

Ltac lex_end :=
  lex_bounds; split; [split; [reflexivity|cbn; rewrite ?length_app; cbn; lia]
    |split; [split; cbn; [lia|try done|try (intros [=]; (done || lia))]|]];
  cbn; first [ rewrite last_snoc; eexists; split; [reflexivity|assumption || (unfold last_item; apply bool_decide_true; by (left + right))] | lex_phi
             | right; split_and!; [done|done|lia|by eexists] | by constructor | idtac ].

Ltac lex_run :=
  intros [Hr Hs Hb]; unfold quoted_key, quoted_text, end_quoted, emit_pop, number_start, keyCheckKeyword, slash_comment;
  repeat lex_step; lex_end.

(** The states of a date: [lx'] is the lexer somewhere in it. *)
Lemma date_loop_ok lx formats : forall lx',
  lex_wf lx (Some LexDateAfterYear) -> lx_input lx' = lx_input lx -> lx_stack lx' = lx_stack lx ->
  lx_start lx' = lx_start lx -> lx_items lx' = lx_items lx -> lx_pos lx <= lx_pos lx' <= length (lx_input lx) ->
  wp (date_loop digitTable formats) (good_step lx LexDateAfterYear) lx'.
Proof.
  induction formats as [|f formats IH]; intros lx' Hwf Ei Es Est Eit Hp; pose proof Hwf as [Hr Hs _]; simpl.
  - apply wp_bind, wp_emit; [rewrite Ei; lia|]. intros it _. apply wp_pop; cbn; rewrite ?Es.
    + intros E0 it' Et'. split; [split; [done|cbn; rewrite Eit, !length_app; simpl; lia]|].
      split; [split; cbn; [rewrite Ei; lia|by rewrite Es|done]|].
      exists it'. cbn. rewrite last_snoc. split; [done|]. by rewrite Et'.
    + intros st stack E0. rewrite E0 in Hs. apply Forall_cons in Hs as [Hst Hs].
      split; [split; [done|cbn; rewrite Eit, length_app; simpl; lia]|]. split.
      * split; cbn; [rewrite Ei; lia|done|]. by intros [= ?].
      * left. unfold phi. cbn. rewrite Ei, E0. cbn [ranks].
        pose proof (ranks_end stack). pose proof (rank_end st). repeat case_bool_decide; cbn [rank]; lia.
  - assert (Herr : forall lx2 it, lx_input lx2 = lx_input lx -> lx_stack lx2 = lx_stack lx ->
      lx_start lx2 = lx_start lx -> lx_items lx2 = lx_items lx -> lx_pos lx <= lx_pos lx2 <= length (lx_input lx) ->
      i_typ it = itemError -> good_step lx LexDateAfterYear (set_items lx2 (lx_items lx2 ++ [it])) None).
    { intros lx2 it E1 E2 E3 E4 E5 E6. split; [split; [done|cbn; rewrite E4, length_app; simpl; lia]|].
      split; [split; cbn; [rewrite E1; lia|by rewrite E2|done]|].
      exists it. cbn. rewrite last_snoc. split; [done|]. by rewrite E6. }
    assert (Hgo : forall lx2 r, lx_input lx2 = lx_input lx -> lx_stack lx2 = lx_stack lx ->
      lx_start lx2 = lx_start lx -> lx_items lx2 = lx_items lx -> lx_pos lx <= lx_pos lx2 <= length (lx_input lx) ->
      wp (if decide (f = "0"%char) then
            if negb (IsDigit digitTable r)
            then errorf (bs "Expected digit in ISO8601 datetime, but found " ++ q1 r ++ bs " instead.")
            else date_loop digitTable formats
          else if negb (ch f =? r)%Z
          then errorf (bs "Expected " ++ q1 (ch f) ++ bs " in ISO8601 datetime, but found " ++ q1 r ++ bs " instead.")
          else date_loop digitTable formats) (good_step lx LexDateAfterYear) lx2).
    { intros lx2 r E1 E2 E3 E4 E5. repeat case_match; try (apply wp_errorf; auto); by apply IH. }
    apply wp_bind, wp_next; intros; apply Hgo; cbn; (done || (rewrite ?Ei in *; lia)).
Qed.

(** The test for a variable moves the start past a dollar sign. *)
Lemma wp_isVariable (Q : lexer -> bool -> Prop) lx : lx_start lx < length (lx_input lx) ->
  (forall st b, lx_start lx <= st <= S (lx_start lx) ->
     (st = S (lx_start lx) -> lx_input lx !! lx_start lx = Some "$"%char) -> Q (set_start lx st) b) ->
  wp isVariable Q lx.
Proof.
  intros Hlt HQ. unfold wp, isVariable.
  destruct (lookup_lt_is_Some_2 (lx_input lx) (lx_start lx) Hlt) as [b Eb]. rewrite Eb.
  case_decide as Hd.
  - subst b. apply HQ; [lia|done].
  - destruct lx as [i st p w l its stk]. apply (HQ st); simpl; lia.
Qed.

(** The raw string: at the end of the input with nothing read, [isVariable]
    indexes out of range. *)
Lemma lexString_ok lx : lex_wf lx (Some LexString) -> lx_start lx < length (lx_input lx) ->
  wp lexString (good_step lx LexString) lx.
Proof.
  intros [Hr Hs Hb] Hlt. unfold lexString, end_quoted.
  assert (Hend : forall lx1, lx_input lx1 = lx_input lx -> lx_start lx1 = lx_start lx -> lx_pos lx1 = lx_pos lx ->
    lx_stack lx1 = lx_stack lx -> lx_items lx1 = lx_items lx ->
    (lx_start lx = lx_pos lx -> lx_input lx !! lx_start lx <> Some "$"%char) ->
    wp (b ← isBool;
        (if b : bool then emit itemBool
         else v ← isVariable; if v : bool then emit itemVariable else emit itemString);; pop)
       (good_step lx LexString) lx1).
  { intros [i st p w l its stk] E1 E2 E3 E4 E5 Hd; cbn in E1, E2, E3, E4, E5; subst i st p stk its.
    unfold isBool. do 3 lex_step. apply wp_bind.
    destruct (bool_decide _); [repeat lex_step; lex_end|].
    apply wp_bind, wp_isVariable; [done|]. cbn. intros st v Hst Hd'.
    assert (st <= lx_pos lx).
    { destruct (decide (st = S (lx_start lx))) as [E|]; [|lia].
      destruct (decide (lx_start lx = lx_pos lx)) as [E'|]; [|lia]. exfalso. by apply Hd; [|apply Hd']. }
    repeat lex_step; lex_end. }
  repeat lazymatch goal with |- wp (isBool ≫= _) _ _ => fail | _ => lex_step end;
    lazymatch goal with |- wp (isBool ≫= _) _ _ => apply Hend; cbn; try (done || lia) | _ => lex_end end.
  - intros E. apply lookup_ge_None in H. lia.
  - intros E E'. rewrite E in E'. simplify_eq. destruct H2 as [-> _]; [by left|].
    by vm_compute in Heqb1.
Qed.

(** The block looks back one byte, which is there. *)
Lemma lexBlock_ok lx : lex_wf lx (Some LexBlock) -> wp lexBlock (good_step lx LexBlock) lx.
Proof.
  intros [Hr Hs Hb]. specialize (Hb eq_refl). unfold lexBlock, end_quoted.
  change blockEnd with 41%Z. change eof with 0%Z.
  repeat (lex_step; try (exfalso; lex_bounds; lia)); lex_end.
Qed.


(** The steps of the other states, by the part of the language they belong
    to. *)
Lemma key_states_ok lx st : lex_wf lx (Some st) -> st ∈ [LexTop; LexTopValueEnd; LexKeyStart; LexDubQuotedKey; LexQuotedKey; LexKey; LexKeyEnd] ->
  wp (run_state digitTable st) (good_step lx st) lx.
Proof.
  intros Hwf Hst. repeat (apply elem_of_cons in Hst as [->|Hst]); [..|by apply not_elem_of_nil in Hst]; revert Hwf; cbn [run_state].
  - unfold lexTop. lex_run.
  - unfold lexTopValueEnd. lex_run.
  - unfold lexKeyStart. lex_run.
  - unfold lexDubQuotedKey. lex_run.
  - unfold lexQuotedKey. lex_run.
  - unfold lexKey. lex_run.
  - unfold lexKeyEnd. lex_run.
Qed.

Lemma include_states_ok lx st : lex_wf lx (Some st) -> st ∈ [LexIncludeStart; LexIncludeQuotedString; LexIncludeDubQuotedString; LexIncludeString; LexInclude] ->
  wp (run_state digitTable st) (good_step lx st) lx.
Proof.
  intros Hwf Hst. repeat (apply elem_of_cons in Hst as [->|Hst]); [..|by apply not_elem_of_nil in Hst]; revert Hwf; cbn [run_state].
  - unfold lexIncludeStart. lex_run.
  - unfold lexIncludeQuotedString. lex_run.
  - unfold lexIncludeDubQuotedString. lex_run.
  - unfold lexIncludeString. lex_run.
  - unfold lexInclude. lex_run.
Qed.

Lemma value_states_ok lx st : lex_wf lx (Some st) -> st ∈ [LexValue; LexArrayValue; LexArrayValueEnd; LexArrayEnd; LexQuotedString; LexDubQuotedString; LexStringEscape; LexStringBinary] ->
  wp (run_state digitTable st) (good_step lx st) lx.
Proof.
  intros Hwf Hst. repeat (apply elem_of_cons in Hst as [->|Hst]); [..|by apply not_elem_of_nil in Hst]; revert Hwf; cbn [run_state].
  - unfold lexValue. lex_run.
  - unfold lexArrayValue. lex_run.
  - unfold lexArrayValueEnd. lex_run.
  - unfold lexArrayEnd. lex_run.
  - unfold lexQuotedString. lex_run.
  - unfold lexDubQuotedString. lex_run.
  - unfold lexStringEscape. lex_run.
  - unfold lexStringBinary. lex_run.
Qed.

Lemma map_states_ok lx st : lex_wf lx (Some st) -> st ∈ [LexMapKeyStart; LexMapQuotedKey; LexMapDubQuotedKey; LexMapKey; LexMapKeyEnd; LexMapValue; LexMapValueEnd; LexMapEnd] ->
  wp (run_state digitTable st) (good_step lx st) lx.
Proof.
  intros Hwf Hst. repeat (apply elem_of_cons in Hst as [->|Hst]); [..|by apply not_elem_of_nil in Hst]; revert Hwf; cbn [run_state].
  - unfold lexMapKeyStart. lex_run.
  - unfold lexMapQuotedKey. lex_run.
  - unfold lexMapDubQuotedKey. lex_run.
  - unfold lexMapKey. lex_run.
  - unfold lexMapKeyEnd. lex_run.
  - unfold lexMapValue. lex_run.
  - unfold lexMapValueEnd. lex_run.
  - unfold lexMapEnd. lex_run.
Qed.

Lemma number_states_ok lx st : lex_wf lx (Some st) -> st ∈ [LexNumberOrDateOrIPStart; LexNumberOrDateOrIP; LexConvenientNumber; LexNegNumberStart; LexNegNumber; LexFloatStart; LexFloat; LexIPAddr] ->
  wp (run_state digitTable st) (good_step lx st) lx.
Proof.
  intros Hwf Hst. repeat (apply elem_of_cons in Hst as [->|Hst]); [..|by apply not_elem_of_nil in Hst]; revert Hwf; cbn [run_state].
  - unfold lexNumberOrDateOrIPStart. lex_run.
  - unfold lexNumberOrDateOrIP. lex_run.
  - unfold lexConvenientNumber. lex_run.
  - unfold lexNegNumberStart. lex_run.
  - unfold lexNegNumber. lex_run.
  - unfold lexFloatStart. lex_run.
  - unfold lexFloat. lex_run.
  - unfold lexIPAddr. lex_run.
Qed.

Lemma comment_states_ok lx st : lex_wf lx (Some st) -> st ∈ [LexCommentStart; LexComment] ->
  wp (run_state digitTable st) (good_step lx st) lx.
Proof.
  intros Hwf Hst. repeat (apply elem_of_cons in Hst as [->|Hst]); [..|by apply not_elem_of_nil in Hst]; revert Hwf; cbn [run_state].
  - unfold lexCommentStart. lex_run.
  - unfold lexComment. lex_run.
Qed.

(** Every step of the machine. *)
Lemma run_state_ok lx st : lex_wf lx (Some st) ->
  (st = LexString -> lx_start lx < length (lx_input lx)) ->
  wp (run_state digitTable st) (good_step lx st) lx.
Proof.
  intros Hwf Hstr.
  destruct st;
    try (apply key_states_ok; [done|by repeat constructor]); try (apply include_states_ok; [done|by repeat constructor]);
    try (apply value_states_ok; [done|by repeat constructor]); try (apply map_states_ok; [done|by repeat constructor]);
    try (apply number_states_ok; [done|by repeat constructor]); try (apply comment_states_ok; [done|by repeat constructor]).
  - by apply lexString_ok; [|apply Hstr].
  - by apply lexBlock_ok.
  - apply date_loop_ok; [done..|]. destruct Hwf; lia.
  - destruct Hwf as [Hr Hs Hb]. cbn [run_state]. do 2 lex_step. apply wp_ret. split; [split; [done|cbn; lia]|]. split.
    + split; cbn; [lia|done|]. intros E. specialize (Hb E). lia.
    + left. unfold phi. cbn. lia.
Qed.
End steps.
