(* ===== verification/LexRun.v ===== *)
(** * LexRun: what a run of the lexer comes to

    From the steps of [LexSafe] to whole runs of [nextItem] and of the loop
    that reads the items: the fuel of the model is enough, and what is left
    are the inputs on which the code itself panics or never returns. *)

From S2P Require Import Prelude Lex LexSafe.

(** ** Configurations *)

Definition config_wf (c : config) : Prop := lex_wf c.1 c.2.

(** At the end of the input in a text that is never closed. *)
Definition stuck (c : config) : Prop :=
  lx_items c.1 = [] /\ lx_start c.1 <= lx_pos c.1 /\ lx_pos c.1 = length (lx_input c.1) /\
  exists st, c.2 = Some st /\ open_text st = true.

(** About to look for a variable at the end of the input. *)
Definition at_missing_value (c : config) : Prop :=
  c.2 = Some LexString /\ lx_start c.1 = length (lx_input c.1).

(** More than the items and the steps that are left. *)
Definition weight (c : config) : nat :=
  (match c.2 with None => 0 | Some st => 3 * S (phi c.1 st) end) + length (lx_items c.1).

(** When the machine has stopped, its last item tells so. *)
Definition stopped_ok (c : config) : Prop :=
  c.2 = None -> lx_items c.1 <> [] -> exists it, last (lx_items c.1) = Some it /\ last_item (i_typ it) = true.

(** The reader can go on: no item waits behind a machine that has stopped
    without one. *)
Definition readable (c : config) : Prop :=
  config_wf c /\ stopped_ok c /\ (c.2 = None -> lx_items c.1 <> []).

Section runs.
Context (digitTable : rune -> bool).

(** The configurations of a run: a step when no item waits, or an item read. *)
Inductive reach : config -> config -> Prop :=
| reach_refl c : reach c c
| reach_step c st c' c'' : lx_items c.1 = [] -> c.2 = Some st ->
    run_state digitTable st c.1 = Some c' -> reach c' c'' -> reach c c''
| reach_item c it items c'' : lx_items c.1 = it :: items ->
    reach (set_items c.1 items, c.2) c'' -> reach c c''.

(** ** Texts that are never closed *)

Lemma next_at_end lx : lx_pos lx = length (lx_input lx) ->
  next lx = Some (set_pos lx (lx_pos lx) 0 (lx_line lx), eof).
Proof. intros E. unfold next. by rewrite lookup_ge_None_2 by lia. Qed.

Lemma peek_at_end lx : lx_pos lx = length (lx_input lx) ->
  peek lx = Some (set_pos lx (lx_pos lx) 0 (lx_line lx), eof).
Proof.
  intros E. unfold peek, mbind, L_bind. rewrite next_at_end by done. unfold backup. cbn.
  rewrite decide_False by lia. rewrite Nat.sub_0_r.
  rewrite decide_False; [done|]. by rewrite lookup_ge_None_2 by lia.
Qed.

Lemma open_text_step lx st : lx_pos lx = length (lx_input lx) -> open_text st = true ->
  run_state digitTable st lx = Some (set_pos lx (lx_pos lx) 0 (lx_line lx), Some st).
Proof.
  intros E Ho. destruct st; try done; cbn [run_state];
    unfold lexDubQuotedKey, lexQuotedKey, lexMapQuotedKey, lexMapDubQuotedKey, lexIncludeQuotedString,
      lexIncludeDubQuotedString, lexQuotedString, lexDubQuotedString, lexMapKey, lexBlock, quoted_key, quoted_text, mbind, L_bind;
    rewrite ?peek_at_end, ?next_at_end by done;
    repeat match goal with |- context [if ?c then _ else _] => change c with false; cbv iota beta end;
    rewrite ?next_at_end by done; done.
Qed.

Lemma stuck_forever fuel : forall c, stuck c -> nextItem digitTable fuel c = NextFuel.
Proof.
  induction fuel as [|fuel IH]; intros [lx o] (Hi & Hs & He & st & Ho & Hot); cbn in *; subst o.
  - by rewrite Hi.
  - rewrite Hi, open_text_step by done. apply IH. split_and!; cbn; try done; eauto.
Qed.

(** ** A value that is missing *)

Lemma lexString_missing lx : lx_start lx = length (lx_input lx) /\ lx_pos lx = length (lx_input lx) ->
  run_state digitTable LexString lx = None.
Proof.
  intros [E1 E2]. cbn [run_state]. unfold lexString, mbind, L_bind. rewrite next_at_end by done.
  change (eof =? backslash)%Z with false. cbv iota.
  match goal with |- context [if ?c then _ else _] => change c with true; cbv iota beta end.
  unfold backup. cbn. rewrite decide_False by lia. rewrite Nat.sub_0_r.
  unfold isBool, token, mbind, L_bind. cbn. rewrite decide_True by lia.
  rewrite E1, E2, Nat.sub_diag. rewrite bool_decide_false by (by vm_compute; set_solver).
  cbn. unfold isVariable. cbn. by rewrite E1, lookup_ge_None_2 by lia.
Qed.

(** ** One item *)

Lemma run_state_weight c st c' : config_wf c -> c.2 = Some st -> run_state digitTable st c.1 = Some c' ->
  readable c' /\
  ((weight c' < weight c /\ forall st', c'.2 = Some st' -> phi c'.1 st' < phi c.1 st) \/
   (lx_items c.1 = [] -> stuck c')).
Proof.
  destruct c as [lx o]. intros Hwf Ho E. cbn [fst snd] in *. subst o.
  destruct (decide (st = LexString /\ length (lx_input lx) <= lx_start lx)) as [[-> Hend]|Hn].
  - rewrite lexString_missing in E; [done|]. destruct Hwf as [Hr _ _]. cbn in Hr. lia.
  - pose proof (run_state_ok digitTable lx st Hwf) as Hg. unfold wp in Hg. rewrite E in Hg.
    destruct c' as [lx' o']. destruct Hg as ((Hin & Hlen) & Hwf' & Hm);
      [intros ->; apply Nat.nle_gt; by intros Hle; destruct Hn|].
    destruct o' as [st'|].
    + split; [by split_and!|]. destruct Hm as [Hm|(Hop & -> & He & l & ->)].
      * left. split; [|by intros ? [= <-]]. unfold weight. cbn [fst snd]. lia.
      * right. intros Hi. split_and!; cbn; [done|destruct Hwf as [Hr _ _]; cbn in Hr; lia|done|eauto].
    + split; [split_and!; [done|by intros _ _|]|].
      * intros _ Ei. destruct Hm as (it & Hl & _). cbn in Ei. by rewrite Ei in Hl.
      * left. split; [|done]. unfold weight. cbn [fst snd]. lia.
Qed.

Lemma phi_weight c st : c.2 = Some st -> phi c.1 st < weight c.
Proof. intros E. unfold weight. rewrite E. lia. Qed.

Lemma last_app_cons {A} (x : A) l y : last (x :: l) = Some y -> l <> [] -> last l = Some y.
Proof. destruct l; [done|]. by intros E _. Qed.

(** An item that is read. *)
Lemma readable_item c it items : readable c -> lx_items c.1 = it :: items ->
  let c' := (set_items c.1 items, c.2) : config in
  weight c' < weight c /\ reach c c' /\ (last_item (i_typ it) = false -> readable c').
Proof.
  intros (Hwf & Hst & Hne) Ei c'. destruct c as [lx o]. cbn in Ei. unfold c'. cbn [fst snd] in *.
  assert (Hwf' : config_wf (set_items lx items, o)) by (destruct Hwf; by split).
  assert (Hst' : stopped_ok (set_items lx items, o)).
  { intros Ho Hi. cbn in *. destruct (Hst Ho) as (it' & Hl & Hit); cbn; [by rewrite Ei|].
    exists it'. split; [|done]. cbn in Hl. rewrite Ei in Hl. by eapply last_app_cons. }
  split_and!.
  - unfold weight. cbn [fst snd set_items lx_items]. rewrite Ei. unfold phi. cbn [length lx_input lx_pos lx_stack set_items]. lia.
  - eapply reach_item; [cbn; exact Ei|apply reach_refl].
  - intros Hit. split_and!; [done|done|]. cbn. intros -> ->.
    destruct (Hst eq_refl) as (it' & Hl & Hit'); cbn; [by rewrite Ei|]. cbn in Hl. rewrite Ei in Hl.
    injection Hl as <-. congruence.
Qed.

Lemma run_state_panic c st : config_wf c -> c.2 = Some st -> run_state digitTable st c.1 = None -> at_missing_value c.
Proof.
  destruct c as [lx o]. intros Hwf Ho E. cbn [fst snd] in *. subst o.
  destruct (decide (st = LexString /\ length (lx_input lx) <= lx_start lx)) as [[-> Hend]|Hn].
  - destruct Hwf as [Hr _ _]. cbn in Hr. split; cbn; [done|lia].
  - exfalso. pose proof (run_state_ok digitTable lx st Hwf) as Hg. unfold wp in Hg. rewrite E in Hg.
    apply Hg. intros ->. apply Nat.nle_gt. by intros Hle; destruct Hn.
Qed.

Lemma nextItem_step fuel c st c' : lx_items c.1 = [] -> c.2 = Some st -> run_state digitTable st c.1 = Some c' ->
  nextItem digitTable (S fuel) c = nextItem digitTable fuel c'.
Proof. intros E1 E2 E3. simpl. by rewrite E1, E2, E3. Qed.

Lemma nextItem_outcome fuel : forall c, readable c -> (forall st, c.2 = Some st -> phi c.1 st < fuel) ->
  match nextItem digitTable fuel c with
  | GotItem it c' => exists c1 items, reach c c1 /\ readable c1 /\ lx_items c1.1 = it :: items /\
      c' = (set_items c1.1 items, c1.2) /\ weight c1 <= weight c
  | NextPanic => exists c', reach c c' /\ at_missing_value c'
  | NextFuel => (exists c', reach c c' /\ stuck c') /\ forall fuel', nextItem digitTable fuel' c = NextFuel
  end.
Proof.
  induction fuel as [|fuel IH]; intros c Hr Hw; pose proof Hr as (Hwf & Hst & Hne).
  all: destruct (lx_items c.1) as [|it items] eqn:Ei;
    [|simpl; rewrite Ei; exists c, items; split_and!; [apply reach_refl|done|done|done|lia]].
  all: destruct (c.2) as [st|] eqn:Eo; [|by destruct (Hne eq_refl)].
  { specialize (Hw st eq_refl). lia. }
  destruct (run_state digitTable st c.1) as [c'|] eqn:Es.
  - rewrite (nextItem_step _ _ _ _ Ei Eo Es).
    destruct (run_state_weight c st c' Hwf Eo Es) as (Hr' & Hdec).
    assert (Hreach : forall c2, reach c' c2 -> reach c c2) by (intros c2; by eapply reach_step).
    destruct Hdec as [[Hdec Hphi]|Hstuck].
    + assert (Hw' : forall st', c'.2 = Some st' -> phi c'.1 st' < fuel).
      { intros st' Est. specialize (Hphi st' Est). specialize (Hw st eq_refl). lia. }
      pose proof (IH c' Hr' Hw') as IH'. destruct (nextItem digitTable fuel c') as [it c''| |].
      * destruct IH' as (c1 & items & H1 & H2 & H3 & H4 & H5). exists c1, items. split_and!; auto. lia.
      * destruct IH' as (c2 & ? & ?). eauto.
      * destruct IH' as [(c2 & ? & ?) Hall]. split; [eauto|].
        intros [|f]; [simpl; by rewrite Ei|]. by rewrite (nextItem_step _ _ _ _ Ei Eo Es).
    + specialize (Hstuck Ei). rewrite stuck_forever by done. split; [eauto using reach_refl|].
      intros [|f]; [simpl; by rewrite Ei|]. rewrite (nextItem_step _ _ _ _ Ei Eo Es). by apply stuck_forever.
  - simpl. rewrite Ei, Eo, Es. exists c. split; [apply reach_refl|].
    by apply (run_state_panic c st).
Qed.

(** More fuel gives the same item. *)
Lemma nextItem_mono f : forall c it c', nextItem digitTable f c = GotItem it c' ->
  forall f', nextItem digitTable f' c = GotItem it c' \/ nextItem digitTable f' c = NextFuel.
Proof.
  induction f as [|f IH]; intros c it c' E f'; simpl in E.
  all: destruct (lx_items c.1) as [|x items] eqn:Ei; [|left; destruct f'; simpl; by rewrite Ei].
  { done. }
  destruct (c.2) as [st|] eqn:Eo; [|done]. destruct (run_state digitTable st c.1) as [c1|] eqn:Es; [|done].
  destruct f' as [|f']; [right; simpl; by rewrite Ei|]. rewrite (nextItem_step _ _ _ _ Ei Eo Es). eauto.
Qed.

(** ** All items *)

Lemma reach_trans c1 c2 c3 : reach c1 c2 -> reach c2 c3 -> reach c1 c3.
Proof. induction 1; intros; [done|eapply reach_step; eauto|eapply reach_item; eauto]. Qed.

Lemma lex_items_outcome n fuel : forall acc c, readable c -> weight c <= n -> weight c <= fuel ->
  match lex_items digitTable n fuel acc c with
  | Items l => exists l0 it, l = l0 ++ [it] /\ last_item (i_typ it) = true
  | LexPanic _ => exists c', reach c c' /\ at_missing_value c'
  | LexFuel _ => (exists c', reach c c' /\ stuck c') /\
      forall n' fuel', exists l, lex_items digitTable n' fuel' acc c = LexFuel l
  end.
Proof.
  induction n as [|n IH]; intros acc c Hr Hn Hf.
  { exfalso. destruct Hr as (_ & _ & Hne). unfold weight in Hn. destruct (c.2); [lia|].
    destruct (lx_items c.1); [by apply Hne|simpl in Hn; lia]. }
  assert (Hw : forall st, c.2 = Some st -> phi c.1 st < fuel).
  { intros st E. pose proof (phi_weight c st E). lia. }
  pose proof (nextItem_outcome fuel c Hr Hw) as Ho. simpl.
  destruct (nextItem digitTable fuel c) as [it c'| |] eqn:En.
  - destruct Ho as (c1 & items & R1 & Hr1 & Ei & -> & W1).
    destruct (readable_item c1 it items Hr1 Ei) as (W2 & R2 & Hr2).
    destruct (decide (i_typ it = itemEOF \/ i_typ it = itemError)) as [Hl|Hl].
    { exists acc, it. split; [done|]. by apply bool_decide_eq_true_2. }
    specialize (IH (acc ++ [it]) _ (Hr2 ltac:(by apply bool_decide_eq_false_2)) ltac:(lia) ltac:(lia)).
    assert (R3 : reach c (set_items c1.1 items, c1.2)) by (by eapply reach_trans).
    destruct (lex_items digitTable n fuel (acc ++ [it]) _) as [l|l|l]; [done| |].
    + destruct IH as (c2 & ? & ?). eauto using reach_trans.
    + destruct IH as [(c2 & ? & ?) Hdiv]. split; [eauto using reach_trans|].
      intros [|n'] fuel'; [by eexists|]. simpl.
      destruct (nextItem_mono _ _ _ _ En fuel') as [-> | ->]; [|by eexists].
      rewrite decide_False by done. apply Hdiv.
  - done.
  - destruct Ho as [Hs Hdiv]. split; [done|]. intros [|n'] fuel'; [by eexists|]. simpl. rewrite Hdiv. by eexists.
Qed.

Lemma readable_new input : readable (lex input).
Proof. split_and!; [split; cbn; [lia|constructor|done]|done|done]. Qed.

Lemma weight_new input : weight (lex input) <= 96 * length input + 24.
Proof. unfold weight, phi. cbn -[Nat.mul]. case_bool_decide; lia. Qed.
End runs.

(** ** Several steps at once *)

Section several.
Context (digitTable : rune -> bool).

(** [k] steps during which no item is sent. *)
Fixpoint steps (k : nat) (c : config) : option config :=
  match k with
  | O => Some c
  | S k' =>
      match lx_items c.1, c.2 with
      | [], Some st => c' ← run_state digitTable st c.1; steps k' c'
      | _, _ => None
      end
  end.

Lemma nextItem_steps k f : forall c c', steps k c = Some c' ->
  nextItem digitTable (k + f) c = nextItem digitTable f c'.
Proof.
  induction k as [|k IH]; intros c c' E; simpl in E; [by injection E as ->|].
  destruct (lx_items c.1) eqn:Ei; [|done]. destruct (c.2) as [st|] eqn:Eo; [|done].
  destruct (run_state digitTable st c.1) as [c1|] eqn:Es; [|done]. simpl in E |- *.
  rewrite Ei, Eo, Es. by apply IH.
Qed.

(** Steps that lead to a machine that goes round for ever. *)
Lemma steps_hang k : forall c c', steps k c = Some c' -> (forall f, nextItem digitTable f c' = NextFuel) ->
  forall f, nextItem digitTable f c = NextFuel.
Proof.
  induction k as [|k IH]; intros c c' E Hc f; simpl in E; [injection E as ->; apply Hc|].
  destruct (lx_items c.1) eqn:Ei; [|done]. destruct (c.2) as [st|] eqn:Eo; [|done].
  destruct (run_state digitTable st c.1) as [c1|] eqn:Es; [|done]. simpl in E.
  destruct f as [|f]; simpl; rewrite Ei; [done|]. rewrite Eo, Es. eauto.
Qed.

Lemma lex_items_then_hangs n fuel acc c it c' :
  nextItem digitTable fuel c = GotItem it c' \/ nextItem digitTable fuel c = NextFuel ->
  ~ (i_typ it = itemEOF \/ i_typ it = itemError) -> nextItem digitTable fuel c' = NextFuel ->
  exists l, lex_items digitTable (S n) fuel acc c = LexFuel l.
Proof.
  intros [E|E] Ht Eh; simpl; rewrite E; [|by eexists]. rewrite decide_False by done.
  destruct n; simpl; [by eexists|]. rewrite Eh. by eexists.
Qed.
End several.

(** ** A string that is never closed *)

Section unterminated.
Context (digitTable : rune -> bool).

Lemma quoted_hangs f : forall lx, lx_items lx = [] ->
  lx_pos lx <= length (lx_input lx) -> "034"%char ∉ drop (lx_pos lx) (lx_input lx) ->
  nextItem digitTable f (lx, Some LexDubQuotedString) = NextFuel.
Proof.
  induction f as [|f IH]; intros lx Hi Hp Hq; simpl; rewrite Hi; [done|].
  assert (Hstep : wp lexDubQuotedString (fun lx' o => o = Some LexDubQuotedString /\ lx_items lx' = [] /\
    lx_pos lx' <= length (lx_input lx') /\ "034"%char ∉ drop (lx_pos lx') (lx_input lx')) lx).
  { unfold lexDubQuotedString, quoted_text. apply wp_bind, wp_next.
    - intros E. change (eof =? dqStringEnd)%Z with false. apply wp_ret. done.
    - intros b r w l Eb Hl Hw Hr. destruct (r =? dqStringEnd)%Z eqn:E.
      + apply Z.eqb_eq in E. destruct Hr as [Hr ->]; [right; by rewrite E|]. destruct Hq.
        apply list_elem_of_lookup_2 with 0. rewrite lookup_drop, Nat.add_0_r, Eb. f_equal.
        rewrite E in Hr. clear -Hr. by destruct b as [[] [] [] [] [] [] [] []].
      + apply wp_ret. cbn. split_and!; [done|done|lia|]. intros Hin. apply Hq.
        rewrite <- drop_drop in Hin. by eapply subseteq_drop. }
  unfold wp in Hstep. destruct (lexDubQuotedString lx) as [[lx' o]|]; [|done].
  destruct Hstep as (-> & H1 & H2 & H3). by apply IH.
Qed.
End unterminated.

(** ** What the lexer does with an input *)

Section outcomes.
Context (digitTable : rune -> bool).

(** C25. Reading the items of any input comes to one of three ends, and the
    steps [lex_all] allows, 96 per byte and 24 more, are enough to tell which:
    the items end with the first EOF or error; or the reader panics, and then
    the lexer was looking for a value at the end of the input; or the reader
    never returns, however many steps it takes, and then the lexer had come to
    the end of the input inside a text that is never closed. *)
Theorem lex_outcomes input :
  match lex_all digitTable input with
  | Items l => exists l0 it, l = l0 ++ [it] /\ last_item (i_typ it) = true
  | LexPanic _ => exists c, reach digitTable (lex input) c /\ at_missing_value c
  | LexFuel _ => (exists c, reach digitTable (lex input) c /\ stuck c) /\
      forall n fuel, exists l, lex_items digitTable n fuel [] (lex input) = LexFuel l
  end.
Proof. apply lex_items_outcome; [apply readable_new|apply weight_new..]. Qed.

(** The text of a configuration that opens a string. *)
Definition unterminated (text : bytes) : bytes := bs "k = " ++ "034"%char :: text.

(** An opening quote without a closing one: the lexer goes round at the
    end of the input for ever, and so does whoever reads its items. *)
Theorem unterminated_string_hangs text n fuel :
  "034"%char ∉ text -> exists l, lex_items digitTable n fuel [] (lex (unterminated text)) = LexFuel l.
Proof.
  intros Hq. set (lx1 p w := Lexer (unterminated text) p p w 1 [] [LexTopValueEnd]).
  assert (En : nextItem digitTable 12 (lex (unterminated text)) =
    GotItem (Item itemKey (bs "k") 1) (lx1 1 1, Some LexKeyEnd)) by (vm_compute; reflexivity).
  assert (Ev : steps digitTable 7 (lx1 1 1, Some LexKeyEnd) = Some (lx1 5 1, Some LexDubQuotedString))
    by (vm_compute; reflexivity).
  assert (Eh : nextItem digitTable fuel (lx1 1 1, Some LexKeyEnd) = NextFuel).
  { apply (steps_hang _ _ _ _ Ev). intros f. apply quoted_hangs; [done|simpl; lia|done]. }
  destruct n as [|n]; [by exists []|].
  apply (lex_items_then_hangs _ _ _ _ _ _ _ (nextItem_mono _ _ _ _ _ En fuel)); [by intros [|]|exact Eh].
Qed.
End outcomes.

(** A string of one word. *)
Lemma unterminated_string_hangs_witness :
  "034"%char ∉ bs "word" /\
  exists l, lex_items (fun _ => false) 50 50 [] (lex (unterminated (bs "word"))) = LexFuel l.
Proof.
  assert (H : "034"%char ∉ bs "word") by (apply (bool_decide_unpack _); vm_compute; exact I).
  split; [exact H|]. apply (unterminated_string_hangs (fun _ => false) (bs "word") 50 50 H).
Defined.
