(* ===== verification/ConfParse.v ===== *)
(** * ConfParse: the parser of the configuration

    [src/conf/parse.go], whole.  The values of a configuration are [value];
    contexts are values on a stack, as in the code: a map that is being built
    is only referenced from that stack, and one that is finished is never
    written again, so that sharing does not show.

    Files, the environment and the functions of [strconv] and [time] on
    floats and dates are parameters; errors are their texts. *)

From S2P Require Import Prelude Util Lex.
#[local] Set Warnings "-register-all".

Section parser.
Context {F T : Type}.

(** The types under an [interface{}]. *)
Inductive value :=
| VString (s : bytes)
| VBool (b : bool)
| VInt (n : Z)
| VFloat (f : F)
| VTime (t : T)
| VArray (l : list value)
| VMap (m : gmap bytes value).

(** A context is an array or a map. *)
Inductive context :=
| CArray (l : list value)
| CMap (m : gmap bytes value).

Definition ctx_value (c : context) : value :=
  match c with CArray l => VArray l | CMap m => VMap m end.

(** [p.ctx] is the last element of [p.ctxs]; both stacks start with their
    last element. *)
Record parser := Parser {
  p_ctxs : list context;
  p_keys : list bytes;
}.

Inductive parse_error :=
| PErr (msg : bytes)
| PPanic
| PFuel.

Definition P (A : Type) : Type := A + parse_error.

#[local] Instance P_ret : MRet P := fun A x => inl x.
#[local] Instance P_bind : MBind P := fun A B k m => match m with inl x => k x | inr e => inr e end.

Definition fail {A} (msg : bytes) : P A := inr (PErr msg).
Definition p_panic {A} : P A := inr PPanic.

Definition pushContext (p : parser) (c : context) : parser := Parser (c :: p_ctxs p) (p_keys p).

(** [popContext]: both slices are indexed at their last element. *)
Definition popContext (p : parser) : P (parser * context) :=
  match p_ctxs p with
  | last :: (_ :: _) as rest => mret (Parser (tail (p_ctxs p)) (p_keys p), last)
  | _ => p_panic
  end.

Definition pushKey (p : parser) (k : bytes) : parser := Parser (p_ctxs p) (k :: p_keys p).

Definition popKey (p : parser) : P (parser * bytes) :=
  match p_keys p with
  | [] => p_panic
  | k :: keys => mret (Parser (p_ctxs p) keys, k)
  end.

Definition setValue (p : parser) (v : value) : P parser :=
  match p_ctxs p with
  | CArray l :: ctxs => mret (Parser (CArray (l ++ [v]) :: ctxs) (p_keys p))
  | CMap m :: ctxs =>
      '(p', key) ← popKey p;
      mret (Parser (CMap (<[key := v]> m) :: ctxs) (p_keys p'))
  | [] => mret p
  end.

(** ** Integers *)

Context (digitTable : rune -> bool).

(** The runes of a string, as [range] gives them. *)
Fixpoint runes (fuel : nat) (s : bytes) : list rune :=
  match fuel, s with
  | S fuel', _ :: _ => let '(r, w) := decode_rune s in r :: runes fuel' (drop w s)
  | _, _ => []
  end.

(** How many runes at the start are digits. *)
Fixpoint count_digits (l : list rune) : nat :=
  match l with
  | r :: l' => if IsDigit digitTable r then S (count_digits l') else 0
  | [] => 0
  end.

(** [strconv.ParseInt(s, 10, 64)] of a string without a sign: a syntax error
    ([None]), or the number and whether it is out of range. *)
Definition ParseInt (s : bytes) : option (Z * bool) :=
  if decide (s = []) then None
  else if forallb is_digit s then
    let n := dec_value s in Some (n, bool_decide (2 ^ 63 <= n)%Z)
  else None.

(** [strings.TrimSpace] of a suffix, which is all ASCII. *)
Definition ascii_space (b : byte) : bool := unicode_IsSpace (bval b).

Fixpoint trim_left (s : bytes) : bytes :=
  match s with b :: s' => if ascii_space b then trim_left s' else s | [] => [] end.

Definition TrimSpace (s : bytes) : bytes := reverse (trim_left (reverse (trim_left s))).

(** The factor of a suffix. *)
Definition suffix_factor (suffix : bytes) : option Z :=
  if decide (suffix = []) then Some 1%Z
  else if decide (suffix = bs "k") then Some 1000%Z
  else if decide (suffix = bs "kb") then Some 1024%Z
  else if decide (suffix = bs "m") then Some (1000 * 1000)%Z
  else if decide (suffix = bs "mb") then Some (1024 * 1024)%Z
  else if decide (suffix = bs "g") then Some (1000 * 1000 * 1000)%Z
  else if decide (suffix = bs "gb") then Some (1024 * 1024 * 1024)%Z
  else None.

Definition sq : bytes := bs "'".

Definition process_integer (p : parser) (val : bytes) : P parser :=
  let lastDigit := count_digits (runes (length val) val) in
  if decide (length val < lastDigit) then p_panic
  else
    match ParseInt (take lastDigit val) with
    | None => fail (bs "Expected integer, but got '" ++ val ++ bs "'.")
    | Some (num, true) => fail (bs "Integer '" ++ val ++ bs "' is out of the range.")
    | Some (num, false) =>
        match suffix_factor (ToLower (TrimSpace (drop lastDigit val))) with
        | Some f => setValue p (VInt (wrap64 (num * f)))
        | None => mret p
        end
    end.

(** ** Items *)

(** [strconv.ParseFloat] ([inr true]: out of range), [time.Parse], the
    environment, [ioutil.ReadFile] ([inr]: the text of the error) and
    [filepath]. *)
Context (ParseFloat : bytes -> F + bool) (ParseTime : bytes -> option T)
        (LookupEnv : bytes -> option bytes) (ReadFile : bytes -> bytes + bytes)
        (Join : bytes -> bytes -> bytes) (Dir : bytes -> bytes).

Definition pkey : bytes := bs "pk".
Definition bcryptPrefix : bytes := bs "2a$".

(** The value of a variable in the maps on the stack. *)
Fixpoint lookup_ctxs (ctxs : list context) (k : bytes) : option value :=
  match ctxs with
  | CMap m :: ctxs' => match m !! k with Some v => Some v | None => lookup_ctxs ctxs' k end
  | CArray _ :: ctxs' => lookup_ctxs ctxs' k
  | [] => None
  end.

(** [parse] and [ParseFile] call each other through includes and variables:
    [depth] bounds the nesting, [parse_at] is the parser one level below. *)
Section items.
Context (parse_at : bytes -> bytes -> P (gmap bytes value)).

Definition lookupVariable (p : parser) (ref : bytes) : P (option value) :=
  if decide (take 3 ref = bcryptPrefix) then mret (Some (VString (bs "$" ++ ref)))
  else
    match lookup_ctxs (p_ctxs p) ref with
    | Some v => mret (Some v)
    | None =>
        match LookupEnv ref with
        | None => mret None
        | Some vStr =>
            match parse_at (pkey ++ bs "=" ++ vStr) [] with
            | inl vmap => mret (vmap !! pkey)
            | inr (PErr _) => mret None
            | inr e => inr e
            end
        end
    end.

Definition ParseFile_at (fp : bytes) : P (gmap bytes value) :=
  match ReadFile fp with
  | inr e => fail (bs "error opening config file: " ++ e)
  | inl data => parse_at data (Dir fp)
  end.

(** The loop over an included map; the order of the keys does not matter, for
    they are all different. *)
Fixpoint set_all (p : parser) (l : list (bytes * value)) : P parser :=
  match l with
  | [] => mret p
  | (k, v) :: l' => p' ← setValue (pushKey p k) v; set_all p' l'
  end.

Definition processItem (fp : bytes) (p : parser) (it : item) : P parser :=
  let val := i_val it in
  match i_typ it with
  | itemError => fail (bs "Parse error on line " ++ fmt_d (i_line it) ++ bs ": '" ++ val ++ sq)
  | itemKey => mret (pushKey p val)
  | itemMapStart => mret (pushContext p (CMap ∅))
  | itemMapEnd => '(p', c) ← popContext p; setValue p' (ctx_value c)
  | itemString => setValue p (VString val)
  | itemInteger => process_integer p val
  | itemFloat =>
      match ParseFloat val with
      | inl f => setValue p (VFloat f)
      | inr true => fail (bs "Float '" ++ val ++ bs "' is out of the range.")
      | inr false => fail (bs "Expected float, but got '" ++ val ++ bs "'.")
      end
  | itemBool =>
      let l := ToLower val in
      if decide (l ∈ bs <$> ["true"; "yes"; "on"]%string) then setValue p (VBool true)
      else if decide (l ∈ bs <$> ["false"; "no"; "off"]%string) then setValue p (VBool false)
      else fail (bs "Expected boolean value, but got '" ++ val ++ bs "'.")
  | itemDatetime =>
      match ParseTime val with
      | Some t => setValue p (VTime t)
      | None => fail (bs "Expected Zulu formatted DateTime, but got '" ++ val ++ bs "'.")
      end
  | itemArrayStart => mret (pushContext p (CArray []))
  | itemArrayEnd => '(p', c) ← popContext p; setValue p' (ctx_value c)
  | itemVariable =>
      o ← lookupVariable p val;
      match o with
      | Some v => setValue p v
      | None => fail (bs "Variable reference for '" ++ val ++ bs "' on line " ++ fmt_d (i_line it) ++ bs " can not be found.")
      end
  | itemInclude =>
      match ParseFile_at (Join fp val) with
      | inl m => set_all p (map_to_list m)
      | inr (PErr e) => fail (bs "Error parsing include file '" ++ val ++ bs "', " ++ e ++ bs ".")
      | inr e => inr e
      end
  | itemNIL | itemEOF | itemText | itemCommentStart => mret p
  end.

(** The loop of [parse]. *)
Fixpoint parse_items (n fuel : nat) (fp : bytes) (p : parser) (c : config) : P parser :=
  match n with
  | O => inr PFuel
  | S n' =>
      match nextItem digitTable fuel c with
      | NextPanic => p_panic
      | NextFuel => inr PFuel
      | GotItem it c' =>
          if decide (i_typ it = itemEOF) then mret p
          else p' ← processItem fp p it; parse_items n' fuel fp p' c'
      end
  end.
End items.

(** Enough steps of the lexer and items for an input. *)
Definition fuel_of (data : bytes) : nat := 96 * length data + 24.

(** [p.mapping] is the context at the bottom of the stack. *)
Definition mapping (p : parser) : P (gmap bytes value) :=
  match last (p_ctxs p) with Some (CMap m) => mret m | _ => p_panic end.

Fixpoint conf_parse (depth : nat) (data fp : bytes) : P (gmap bytes value) :=
  match depth with
  | O => inr PFuel
  | S depth' =>
      p ← parse_items (conf_parse depth') (fuel_of data) (fuel_of data) fp (Parser [CMap ∅] []) (lex data);
      mapping p
  end.

Definition Parse (depth : nat) (data : bytes) : P (gmap bytes value) := conf_parse depth data [].

Definition ParseFile (depth : nat) (fp : bytes) : P (gmap bytes value) := ParseFile_at (conf_parse depth) fp.
End parser.

Arguments value : clear implicits.
Arguments context : clear implicits.
Arguments parser : clear implicits.
Arguments P : clear implicits.
