(* ===== verification/ConfText.v ===== *)
(** * ConfText: how the lexer reads the text of a configuration

    Rules that follow the lexer exactly through a text: where it stands
    ([stands]), what each primitive does there, and the items that a run
    sends ([emits]).  With them the tokens of a configuration (gaps, keys,
    strings, numbers, words) are read one by one. *)

From S2P Require Import Prelude Util Lex LexSafe LexRun ConfParse.

(** ** Where the lexer stands *)

(** The token read so far, the rest of the input, what is on the channel and
    on the stack. *)
Definition stands (lx : lexer) (tok rest : bytes) (its : list item) (stk : list stateFn) : Prop :=
  exists pre, lx_input lx = pre ++ tok ++ rest /\ lx_start lx = length pre /\
    lx_pos lx = length pre + length tok /\ lx_items lx = its /\ lx_stack lx = stk.

(** A rune does not reach over an ASCII byte. *)
Lemma decode_rune_stops b s r w d rest :
  decode_rune (b :: s ++ d :: rest) = (r, w) -> (bval d < 128)%Z -> w <= S (length s).
Proof.
  unfold decode_rune. rewrite fmap_cons. unfold is_cont. intros E Hd.
  destruct s as [|b1 [|b2 [|b3 s]]]; simpl in E; repeat case_match; simplify_eq; simpl; lia.
Qed.

Lemma stands_lookup lx tok b rest its stk : stands lx tok (b :: rest) its stk ->
  lx_input lx !! lx_pos lx = Some b /\ drop (lx_pos lx) (lx_input lx) = b :: rest.
Proof.
  intros (pre & -> & _ & -> & _). rewrite <- length_app, app_assoc.
  split; [by apply list_lookup_middle|by rewrite drop_app_length].
Qed.

Lemma stands_end lx tok its stk : stands lx tok [] its stk -> lx_pos lx = length (lx_input lx).
Proof. intros (pre & -> & _ & -> & _). rewrite !length_app. simpl. lia. Qed.

(** ** Primitives *)

Lemma wp_next_text (Q : lexer -> rune -> Prop) lx tok b s d rest its stk :
  stands lx tok (b :: s ++ d :: rest) its stk -> (bval d < 128)%Z ->
  (forall lx' r w, 1 <= w <= S (length s) ->
     stands lx' (tok ++ take w (b :: s)) (drop w (b :: s) ++ d :: rest) its stk ->
     ((r < 128)%Z -> r = bval b) -> Q lx' r) ->
  wp next Q lx.
Proof.
  intros Hs Hd HQ. destruct (stands_lookup _ _ _ _ _ _ Hs) as [Hl Hdr]. unfold wp, next. rewrite Hl, Hdr.
  destruct (decode_rune _) as [r w] eqn:Ed. pose proof (decode_rune_stops _ _ _ _ _ _ Ed Hd) as Hw.
  destruct (decode_rune_at _ _ _ _ Ed) as [A1 A2 A3 A4].
  apply (HQ _ r w); [lia| |by intros ?; apply A4].
  destruct Hs as (pre & Hi & Hst & Hp & His & Hk). exists pre. cbn. split_and!; [|done| |done|done].
  - rewrite Hi. f_equal. rewrite <- app_assoc. f_equal.
    change (b :: s ++ d :: rest) with ((b :: s) ++ d :: rest).
    by rewrite app_assoc, take_drop.
  - rewrite Hp, length_app, length_take. simpl. lia.
Qed.

Lemma wp_next_byte (Q : lexer -> rune -> Prop) lx tok b rest its stk :
  stands lx tok (b :: rest) its stk -> (bval b < 128)%Z ->
  (forall lx', stands lx' (tok ++ [b]) rest its stk -> lx_width lx' = 1 -> Q lx' (bval b)) -> wp next Q lx.
Proof.
  intros Hs Hb HQ. destruct (stands_lookup _ _ _ _ _ _ Hs) as [Hl Hdr]. unfold wp, next. rewrite Hl, Hdr.
  assert (decode_rune (b :: rest) = (bval b, 1)) as ->.
  { unfold decode_rune. rewrite fmap_cons. destruct (Z.ltb_spec (bval b) 128); [done|lia]. }
  apply HQ; [|done]. destruct Hs as (pre & Hi & Hst & Hp & His & Hk). exists pre. cbn.
  split_and!; [by rewrite <- app_assoc|done| |done|done]. rewrite Hp, length_app. simpl. lia.
Qed.

Lemma wp_next_end (Q : lexer -> rune -> Prop) lx tok its stk :
  stands lx tok [] its stk -> (forall lx', stands lx' tok [] its stk -> lx_width lx' = 0 -> Q lx' eof) -> wp next Q lx.
Proof.
  intros Hs HQ. unfold wp. rewrite next_at_end by (by eapply stands_end). by apply HQ.
Qed.

Lemma wp_backup_byte (Q : lexer -> unit -> Prop) lx tok b rest its stk :
  stands lx (tok ++ [b]) rest its stk -> lx_width lx = 1 ->
  (forall lx', stands lx' tok (b :: rest) its stk -> lx_width lx' = 1 -> Q lx' tt) -> wp backup Q lx.
Proof.
  intros (pre & Hi & Hst & Hp & His & Hk) Hw HQ. rewrite length_app in Hp. simpl in Hp.
  apply wp_backup; [lia|]. intros l. apply HQ; [|done]. exists pre. cbn.
  split_and!; [by rewrite Hi, <- app_assoc|done|lia|done|done].
Qed.

Lemma wp_backup_end (Q : lexer -> unit -> Prop) lx tok its stk :
  stands lx tok [] its stk -> lx_width lx = 0 ->
  (forall lx', stands lx' tok [] its stk -> lx_width lx' = 0 -> Q lx' tt) -> wp backup Q lx.
Proof.
  intros (pre & Hi & Hst & Hp & His & Hk) Hw HQ.
  apply wp_backup; [lia|]. intros l. apply HQ; [|done]. exists pre. cbn.
  split_and!; [done|done|lia|done|done].
Qed.

Lemma wp_peek_text (Q : lexer -> rune -> Prop) lx tok b s its stk :
  stands lx tok (b :: s) its stk ->
  (forall lx' r, stands lx' tok (b :: s) its stk -> ((r < 128)%Z -> r = bval b) ->
     ((bval b < 128)%Z -> r = bval b) -> Q lx' r) ->
  wp peek Q lx.
Proof.
  intros Hs HQ. destruct (stands_lookup _ _ _ _ _ _ Hs) as [Hl _].
  apply wp_peek; [by rewrite Hl|]. intros b' r w l Hb _ _ Hr. rewrite Hl in Hb. injection Hb as <-.
  apply HQ; [by destruct Hs as (pre & ? & ? & ? & ? & ?); exists pre|tauto..].
Qed.

Lemma wp_peek_byte (Q : lexer -> rune -> Prop) lx tok b rest its stk :
  stands lx tok (b :: rest) its stk -> (bval b < 128)%Z ->
  (forall lx', stands lx' tok (b :: rest) its stk -> Q lx' (bval b)) -> wp peek Q lx.
Proof. intros Hs Hb HQ. eapply wp_peek_text; [done|]. intros lx' r Hs' _ Hr. rewrite Hr by done. by apply HQ. Qed.

Lemma wp_ignore_stands (Q : lexer -> unit -> Prop) lx tok rest its stk :
  stands lx tok rest its stk -> (forall lx', stands lx' [] rest its stk -> Q lx' tt) -> wp ignore Q lx.
Proof.
  intros (pre & Hi & Hst & Hp & His & Hk) HQ. apply wp_ignore, HQ. exists (pre ++ tok). cbn.
  rewrite length_app. split_and!; [by rewrite Hi, <- app_assoc|done|lia|done|done].
Qed.

Lemma wp_emit_stands (Q : lexer -> unit -> Prop) lx tok rest its stk typ :
  stands lx tok rest its stk ->
  (forall lx' l, stands lx' [] rest (its ++ [Item typ tok l]) stk -> Q lx' tt) -> wp (emit typ) Q lx.
Proof.
  intros (pre & Hi & Hst & Hp & His & Hk) HQ. unfold wp, emit, token, get_line, send, ignore, mbind, L_bind.
  rewrite decide_True by (rewrite Hi, !length_app; lia). cbn.
  eapply HQ. exists (pre ++ tok). cbn. rewrite length_app.
  split_and!; [by rewrite Hi, <- app_assoc|lia|lia| |done].
  rewrite His, Hi, Hst, Hp, drop_app_length, (Nat.add_comm (length pre)), Nat.add_sub, take_app_length. done.
Qed.

Lemma wp_token_stands (Q : lexer -> bytes -> Prop) lx tok rest its stk :
  stands lx tok rest its stk -> Q lx tok -> wp token Q lx.
Proof.
  intros (pre & Hi & Hst & Hp & His & Hk) HQ. unfold wp, token.
  rewrite decide_True by (rewrite Hi, !length_app; lia).
  rewrite Hi, Hst, Hp, drop_app_length, (Nat.add_comm (length pre)), Nat.add_sub, take_app_length. done.
Qed.

Lemma wp_push_stands (Q : lexer -> unit -> Prop) lx tok rest its stk st :
  stands lx tok rest its stk -> (forall lx', stands lx' tok rest its (st :: stk) -> Q lx' tt) -> wp (push st) Q lx.
Proof.
  intros (pre & Hi & Hst & Hp & His & Hk) HQ. apply wp_push, HQ. exists pre. cbn. by rewrite Hk.
Qed.

Lemma wp_pop_stands (Q : lexer -> option stateFn -> Prop) lx tok rest its stk st :
  stands lx tok rest its (st :: stk) -> (forall lx', stands lx' tok rest its stk -> Q lx' (Some st)) -> wp pop Q lx.
Proof.
  intros (pre & Hi & Hst & Hp & His & Hk) HQ. unfold wp, pop. rewrite Hk. apply HQ. by exists pre.
Qed.

(** ** The integers of a configuration *)

Section integers.
Context {F T : Type} (digitTable : rune -> bool).

Lemma decode_rune_ascii b s : (bval b < 128)%Z -> decode_rune (b :: s) = (bval b, 1).
Proof. intros Hb. unfold decode_rune. rewrite fmap_cons. by rewrite (proj2 (Z.ltb_lt _ _)). Qed.

Lemma runes_ascii s : forall n, Forall (fun b => bval b < 128)%Z s -> length s <= n -> runes n s = bval <$> s.
Proof.
  induction s as [|b s IH]; intros [|n] Ha Hn; simpl in Hn; try done; try lia.
  apply Forall_cons in Ha as [Hb Ha]. cbn [runes]. rewrite decode_rune_ascii by done.
  rewrite fmap_cons. f_equal. apply IH; [done|lia].
Qed.

Lemma IsDigit_is_digit b : IsDigit digitTable (bval b) = is_digit b.
Proof. destruct b as [[] [] [] [] [] [] [] []]; reflexivity. Qed.

Lemma count_digits_bytes d s : forallb is_digit d = true ->
  match s with b :: _ => is_digit b = false | [] => True end ->
  count_digits digitTable (bval <$> d ++ s) = length d.
Proof.
  induction d as [|b d IH]; intros Hd Hs; simpl in *.
  - destruct s as [|b s]; [done|]. simpl. by rewrite IsDigit_is_digit, Hs.
  - apply andb_true_iff in Hd as [Hb Hd]. rewrite IsDigit_is_digit, Hb. f_equal. by apply IH.
Qed.

Lemma digits_ascii d : forallb is_digit d = true -> Forall (fun b => bval b < 128)%Z d.
Proof.
  induction d as [|b d IH]; intros H; [done|]. simpl in H. apply andb_true_iff in H as [Hb H].
  constructor; [|by apply IH]. revert Hb. unfold is_digit, asciiZero, asciiNine. lia.
Qed.

Lemma last_digit d s : forallb is_digit d = true -> Forall (fun b => bval b < 128)%Z s ->
  match s with b :: _ => is_digit b = false | [] => True end ->
  count_digits digitTable (runes (length (d ++ s)) (d ++ s)) = length d.
Proof.
  intros Hd Ha Hs. rewrite runes_ascii; [by apply count_digits_bytes| |done].
  apply Forall_app. by split; [apply digits_ascii|].
Qed.

Lemma dec_value_nonneg d : forallb is_digit d = true -> (0 <= dec_value d)%Z.
Proof.
  induction d as [|b d IH] using rev_ind; intros Hd; [done|]. rewrite dec_value_snoc.
  rewrite forallb_app in Hd. simpl in Hd. rewrite andb_true_r in Hd. apply andb_true_iff in Hd as [Hd Hb].
  specialize (IH Hd). revert Hb. unfold is_digit, asciiZero, asciiNine. lia.
Qed.

(** A string of digits with a suffix of ASCII letters. *)
Lemma process_integer_digits (p : parser F T) d s :
  d <> [] -> forallb is_digit d = true -> Forall (fun b => bval b < 128)%Z s ->
  match s with b :: _ => is_digit b = false | [] => True end ->
  process_integer digitTable p (d ++ s) =
    if decide (2 ^ 63 <= dec_value d)%Z then fail (bs "Integer '" ++ (d ++ s) ++ bs "' is out of the range.")
    else match suffix_factor (ToLower (TrimSpace s)) with
         | Some f => setValue p (VInt (wrap64 (dec_value d * f)))
         | None => inl p
         end.
Proof.
  intros Hne Hd Ha Hs. unfold process_integer. rewrite last_digit by done.
  rewrite length_app, decide_False by lia. rewrite take_app_length, drop_app_length.
  unfold ParseInt. rewrite decide_False, Hd by done. case_decide.
  - by rewrite bool_decide_true.
  - by rewrite bool_decide_false.
Qed.

(** A sign is not a digit, so that what is left of a negative number is the
    empty string. *)
Lemma process_integer_negative (p : parser F T) s :
  process_integer digitTable p ("-"%char :: s) = fail (bs "Expected integer, but got '" ++ ("-"%char :: s) ++ bs "'.").
Proof.
  unfold process_integer. simpl length. cbn [runes]. rewrite decode_rune_ascii by done.
  assert (IsDigit digitTable (bval "-") = false) as Hm by reflexivity. cbn [count_digits]. by rewrite Hm.
Qed.
End integers.

(** ** A run of the parser *)

Section text.
Context {F T : Type} (digitTable : rune -> bool)
        (ParseFloat : bytes -> F + bool) (ParseTime : bytes -> option T)
        (LookupEnv : bytes -> option bytes) (ReadFile : bytes -> bytes + bytes)
        (Join : bytes -> bytes -> bytes) (Dir : bytes -> bytes)
        (parse_at : bytes -> bytes -> P (gmap bytes (value F T))) (fp : bytes).

#[local] Abbreviation process := (processItem digitTable ParseFloat ParseTime LookupEnv ReadFile Join Dir parse_at fp).
#[local] Abbreviation parser := (parser F T).

(** From a lexer and a parser to the parser at the EOF. *)
Inductive parses : config -> parser -> parser -> Prop :=
| parses_eof c p it items : lx_items c.1 = it :: items -> i_typ it = itemEOF -> parses c p p
| parses_item c p it items p' r : lx_items c.1 = it :: items -> i_typ it <> itemEOF ->
    process p it = inl p' -> parses (set_items c.1 items, c.2) p' r -> parses c p r
| parses_step c st c' p r : lx_items c.1 = [] -> c.2 = Some st ->
    run_state digitTable st c.1 = Some c' -> parses c' p r -> parses c p r.

(** The next item of such a run. *)
Lemma parses_nextItem c p r : parses c p r -> exists fuel it c', nextItem digitTable fuel c = GotItem it c' /\
  ((i_typ it = itemEOF /\ p = r) \/
   (i_typ it <> itemEOF /\ exists p', process p it = inl p' /\ parses c' p' r)).
Proof.
  induction 1 as [c p it items Hi Ht|c p it items p' r Hi Ht Hp Hr _|c st c' p r Hi Ho Hs Hr IH].
  - exists 0, it, (set_items c.1 items, c.2). simpl. rewrite Hi. auto.
  - exists 0, it, (set_items c.1 items, c.2). simpl. rewrite Hi. eauto 6.
  - destruct IH as (f & it & c1 & E & Hit). exists (S f), it, c1.
    by rewrite (nextItem_step _ _ _ _ _ Hi Ho Hs).
Qed.

(** The loop of [parse], with the fuel of [conf_parse], follows it. *)
Lemma parse_items_parses n fuel : forall c p r, readable c -> weight c <= n -> weight c <= fuel -> parses c p r ->
  parse_items digitTable ParseFloat ParseTime LookupEnv ReadFile Join Dir parse_at n fuel fp p c = inl r.
Proof.
  induction n as [|n IH]; intros c p r Hr Hn Hf Hp.
  { exfalso. destruct Hr as (_ & _ & Hne). unfold weight in Hn. destruct (c.2); [lia|].
    destruct (lx_items c.1); [by apply Hne|simpl in Hn; lia]. }
  assert (Hw : forall st, c.2 = Some st -> phi c.1 st < fuel).
  { intros st E. pose proof (phi_weight c st E). lia. }
  pose proof (nextItem_outcome digitTable fuel c Hr Hw) as Ho.
  destruct (parses_nextItem _ _ _ Hp) as (f & it & c' & En & Hit). simpl.
  destruct (nextItem_mono _ _ _ _ _ En fuel) as [E|E]; rewrite E in Ho |- *.
  2:{ destruct Ho as [_ Ho]. by rewrite Ho in En. }
  destruct Hit as [[Ht ->]|(Ht & p' & Hpr & Hc)]; [by rewrite decide_True|].
  rewrite decide_False, Hpr by done. simpl.
  destruct Ho as (c1 & items & R1 & Hr1 & Ei & -> & W1).
  destruct (readable_item digitTable c1 it items Hr1 Ei) as (W2 & _ & Hr2).
  apply IH; [|lia|lia|done]. apply Hr2, bool_decide_eq_false_2. intros [?|Ht']; [done|].
  destruct it as [typ v l]. simpl in Ht'. subst. done.
Qed.

(** The rules of a run. *)
Lemma parses_run lx tok rest stk st p r : stands lx tok rest [] stk ->
  wp (run_state digitTable st) (fun lx' o => parses (lx', o) p r) lx -> parses (lx, Some st) p r.
Proof.
  intros (pre & _ & _ & _ & Hi & _) Hwp. unfold wp in Hwp.
  destruct (run_state digitTable st lx) as [[lx' o]|] eqn:E; [|done].
  by eapply parses_step.
Qed.

Lemma parses_sent lx tok rest it its stk o p p' r : stands lx tok rest (it :: its) stk ->
  i_typ it <> itemEOF -> process p it = inl p' ->
  (forall lx', stands lx' tok rest its stk -> parses (lx', o) p' r) -> parses (lx, o) p r.
Proof.
  intros (pre & Hi & Hs & Hp & His & Hk) Ht Hpr HK. eapply parses_item; [exact His|done..|].
  apply HK. by exists pre.
Qed.

(** One primitive of a state function, where the lexer [stands]; a condition
    on a known byte is decided. *)
Ltac lx_if :=
  match goal with
  | |- wp (if ?c then _ else _) _ _ =>
      let v := eval vm_compute in c in
      lazymatch v with true => change c with true | false => change c with false end; cbv iota beta
  end.

Ltac lx_prim :=
  lazymatch goal with
  | |- wp (_ ≫= _) _ _ => apply wp_bind
  | |- wp (mret _) _ _ => apply wp_ret
  | Hs : stands ?lx _ [] _ _ |- wp next _ ?lx => eapply wp_next_end; [exact Hs|clear Hs; intros ? Hs ?]
  | Hs : stands ?lx _ _ _ _ |- wp next _ ?lx => eapply wp_next_byte; [exact Hs|done|clear Hs; intros ? Hs ?]
  | Hs : stands ?lx _ _ _ _ |- wp peek _ ?lx => eapply wp_peek_byte; [exact Hs|done|clear Hs; intros ? Hs]
  | Hs : stands ?lx _ [] _ _, Hw : lx_width ?lx = 0 |- wp backup _ ?lx =>
      eapply wp_backup_end; [exact Hs|exact Hw|clear Hs; intros ? Hs ?]
  | Hs : stands ?lx _ _ _ _ |- wp backup _ ?lx => eapply wp_backup_byte; [exact Hs|done|clear Hs; intros ? Hs ?]
  | Hs : stands ?lx _ _ _ _ |- wp ignore _ ?lx => eapply wp_ignore_stands; [exact Hs|clear Hs; intros ? Hs]
  | Hs : stands ?lx _ _ _ _ |- wp (emit _) _ ?lx => eapply wp_emit_stands; [exact Hs|clear Hs; intros ? ? Hs; cbn [app] in Hs]
  | Hs : stands ?lx _ _ _ _ |- wp token _ ?lx => eapply wp_token_stands; [exact Hs|]
  | Hs : stands ?lx _ _ _ _ |- wp (push _) _ ?lx => eapply wp_push_stands; [exact Hs|clear Hs; intros ? Hs]
  | Hs : stands ?lx _ _ _ _ |- wp pop _ ?lx => eapply wp_pop_stands; [exact Hs|clear Hs; intros ? Hs]
  | |- wp (if _ then _ else _) _ _ => lx_if
  end.

(** The body of a state function. *)
Ltac head_of t := lazymatch t with ?f _ => head_of f | _ => t end.
Ltac lx_body := cbn [run_state]; lazymatch goal with |- wp ?m _ _ => let h := head_of m in unfold h end.

Ltac lx_start :=
  match goal with Hs : stands ?lx _ _ [] _ |- parses (?lx, Some ?st) _ _ =>
    eapply parses_run; [exact Hs|]; lx_body end.

Ltac lx_auto := lx_start; repeat lx_prim.

(** The item that was sent is processed. *)
Ltac lx_sent :=
  match goal with Hs : stands ?lx _ _ (_ :: _) _ |- parses (?lx, _) _ _ =>
    eapply parses_sent; [exact Hs|done|try done|clear Hs; intros ? Hs] end.

(** ** Gaps *)

(** Spaces on a line; what may stand between two entries. *)
Definition blank (b : byte) : bool := bool_decide (b ∈ [SPC; TAB]).
Definition space (b : byte) : bool := bool_decide (b ∈ [SPC; TAB; LF; CR]).

Lemma parses_skip lx tok rest stk st p r : stands lx tok rest [] stk ->
  (forall lx', stands lx' [] rest [] stk -> parses (lx', Some st) p r) -> parses (lx, Some (LexSkip st)) p r.
Proof.
  intros Hs HK. eapply parses_run; [exact Hs|]. cbn [run_state]. repeat lx_prim. by apply HK.
Qed.

(** The states that pass over blanks, and those that pass over line ends and
    comments too. *)
Definition skips_blanks (st : stateFn) : bool :=
  bool_decide (st ∈ [LexTop; LexKeyEnd; LexValue; LexArrayValue; LexArrayValueEnd;
                     LexMapKeyStart; LexMapKeyEnd; LexMapValue; LexMapValueEnd]).
Definition skips_gaps (st : stateFn) : bool := bool_decide (st ∈ [LexTop; LexArrayValue; LexMapKeyStart]).

(** Case analysis of a boolean that tells membership in a known list. *)
Ltac cases_in H :=
  apply bool_decide_eq_true in H; rewrite ?elem_of_cons, ?elem_of_nil in H; destruct_or? H; try done; subst.

(** One byte that is passed over. *)
Definition skips (st : stateFn) (b : byte) : Prop := forall lx rest stk,
  stands lx [] (b :: rest) [] stk ->
  wp (run_state digitTable st) (fun lx' o => o = Some (LexSkip st) /\ stands lx' [b] rest [] stk) lx.

Lemma parses_skips lx ws rest stk st p r : (forall b, b ∈ ws -> skips st b) ->
  stands lx [] (ws ++ rest) [] stk ->
  (forall lx', stands lx' [] rest [] stk -> parses (lx', Some st) p r) -> parses (lx, Some st) p r.
Proof.
  revert lx. induction ws as [|b ws IH]; intros lx Hws Hs HK; [by apply HK|].
  pose proof (Hws b ltac:(left) lx _ _ Hs) as Hrun. eapply parses_run; [exact Hs|].
  unfold wp in *. destruct (run_state digitTable st lx) as [[lx' o]|]; [|done].
  destruct Hrun as [-> Hs']. eapply parses_skip; [exact Hs'|]. intros lx2 Hs2.
  apply (IH lx2); [|done|done]. intros b' ?. apply Hws. by right.
Qed.

Lemma blank_skips st b : skips_blanks st = true -> blank b = true -> skips st b.
Proof.
  unfold blank, skips_blanks. intros Hst Hb lx rest stk Hs.
  cases_in Hb; cases_in Hst; lx_body; repeat lx_prim; by split.
Qed.

Lemma space_skips st b : skips_gaps st = true -> space b = true -> skips st b.
Proof.
  unfold space, skips_gaps. intros Hst Hb lx rest stk Hs.
  cases_in Hb; cases_in Hst; lx_body; repeat lx_prim; by split.
Qed.

(** ** Texts up to a byte that ends them *)

(** A state that goes on with itself over a good byte. *)
Definition scans (st : stateFn) (good : byte -> Prop) : Prop := forall lx tok b s d rest stk,
  stands lx tok (b :: s ++ d :: rest) [] stk -> (bval d < 128)%Z -> good b ->
  wp (run_state digitTable st) (fun lx' o => o = Some st /\ exists w, 1 <= w <= S (length s) /\
    stands lx' (tok ++ take w (b :: s)) (drop w (b :: s) ++ d :: rest) [] stk) lx.

Lemma parses_scan st good : scans st good -> forall s lx tok d rest stk p r, Forall good s ->
  stands lx tok (s ++ d :: rest) [] stk -> (bval d < 128)%Z ->
  (forall lx', stands lx' (tok ++ s) (d :: rest) [] stk -> parses (lx', Some st) p r) -> parses (lx, Some st) p r.
Proof.
  intros Hsc s. induction s as [s IH] using (induction_ltof1 _ (@length byte)). unfold ltof in IH.
  intros lx tok d rest stk p r Hg Hs Hd HK. destruct s as [|b s]; [rewrite app_nil_r in HK; by apply HK|].
  pose proof (Forall_inv Hg) as Hb. eapply parses_run; [exact Hs|].
  pose proof (Hsc lx tok b s d rest stk Hs Hd Hb) as Hrun. unfold wp in *.
  destruct (run_state digitTable st lx) as [[lx' o]|]; [|done]. destruct Hrun as (-> & w & Hw & Hs').
  eapply (IH (drop w (b :: s))); [rewrite length_drop; simpl; lia|by apply Forall_drop|exact Hs'|done|].
  intros lx2 Hs2. apply HK. by rewrite <- app_assoc, take_drop in Hs2.
Qed.

Lemma quoted_text_scans st q typ :
  run_state digitTable st = quoted_text (bval q) typ st -> (bval q < 128)%Z -> scans st (fun b => b <> q).
Proof.
  intros Hst Hq lx tok b s d rest stk Hs Hd Hb. rewrite Hst. unfold quoted_text.
  apply wp_bind. eapply wp_next_text; [exact Hs|done|]. intros lx' r w Hw Hs' Hr.
  destruct (Z.eqb_spec r (bval q)) as [E|E].
  - exfalso. apply Hb, bval_inj. rewrite <- Hr; lia.
  - apply wp_ret. eauto.
Qed.

Lemma quoted_key_scans st q after :
  run_state digitTable st = quoted_key (bval q) st after -> (bval q < 128)%Z -> scans st (fun b => b <> q).
Proof.
  intros Hst Hq lx tok b s d rest stk Hs Hd Hb. rewrite Hst. unfold quoted_key.
  apply wp_bind. eapply wp_peek_text; [exact Hs|]. intros lx' r Hs' Hr _.
  destruct (Z.eqb_spec r (bval q)) as [E|E].
  - exfalso. apply Hb, bval_inj. rewrite <- Hr; lia.
  - apply wp_bind. eapply wp_next_text; [exact Hs'|done|]. intros lx2 r2 w Hw Hs2 _. apply wp_ret. eauto.
Qed.

Lemma comment_scans : scans LexComment (fun b => b ∉ [LF; CR; "000"%char]).
Proof.
  intros lx tok b s d rest stk Hs Hd Hb. cbn [run_state]. unfold lexComment.
  apply wp_bind. eapply wp_peek_text; [exact Hs|]. intros lx' r Hs' Hr _.
  destruct (isNL r || (r =? eof)%Z) eqn:E.
  - exfalso. apply Hb. unfold isNL, eof in E.
    assert (Hrb : r = bval b) by (apply Hr; lia). rewrite Hrb in E.
    rewrite !orb_true_iff, !Z.eqb_eq in E. rewrite !elem_of_cons.
    destruct E as [[E|E]|E]; [left|right; left|right; right; left]; by apply bval_inj.
  - apply wp_bind. eapply wp_next_text; [exact Hs'|done|]. intros lx2 r2 w Hw Hs2 _. apply wp_ret. eauto.
Qed.

(** A comment up to the end of its line. *)
Lemma parses_comment lx tok text rest st stk p r :
  stands lx tok (text ++ LF :: rest) [] (st :: stk) -> Forall (fun b => b ∉ [LF; CR; "000"%char]) text ->
  (forall lx', stands lx' [] (LF :: rest) [] stk -> parses (lx', Some st) p r) -> parses (lx, Some LexCommentStart) p r.
Proof.
  intros Hs Ht HK. lx_auto. lx_sent.
  eapply (parses_scan _ _ comment_scans); [exact Ht|exact Hs|done|]. clear Hs. intros ? Hs.
  lx_auto. lx_sent. by apply HK.
Qed.

(** What may stand between two entries: spaces, line ends and comments. *)
Inductive gap : bytes -> Prop :=
| gap_nil : gap []
| gap_space b g : space b = true -> gap g -> gap (b :: g)
| gap_comment text g : Forall (fun b => b ∉ [LF; CR; "000"%char]) text -> gap g ->
    gap ("#"%char :: text ++ LF :: g).

Lemma parses_gap st g : skips_gaps st = true -> gap g -> forall lx rest stk p r,
  stands lx [] (g ++ rest) [] stk ->
  (forall lx', stands lx' [] rest [] stk -> parses (lx', Some st) p r) -> parses (lx, Some st) p r.
Proof.
  intros Hst. induction 1 as [|b g Hb Hg IH|text g Ht Hg IH]; intros lx rest stk p r Hs HK; [by apply HK|..].
  - apply (parses_skips lx [b] (g ++ rest) stk); [|done|].
    + intros b'. rewrite list_elem_of_singleton. intros ->. by apply space_skips.
    + intros lx' Hs'. by apply (IH lx' rest stk).
  - assert (Hnext : forall lx', stands lx' [] (LF :: g ++ rest) [] stk -> parses (lx', Some st) p r).
    { intros lx' Hs'. apply (parses_skips lx' [LF] (g ++ rest) stk); [|done|].
      + intros b'. rewrite list_elem_of_singleton. intros ->. by apply space_skips.
      + intros lx2 Hs2. by apply (IH lx2 rest stk). }
    simpl in Hs. rewrite <- app_assoc in Hs.
    pose proof Hst as Hc. unfold skips_gaps in Hc.
    cases_in Hc; lx_auto; (eapply parses_comment; [exact Hs|exact Ht|exact Hnext]).
Qed.

(** ** Keys *)

Definition DQ : byte := "034"%char.
Definition SQ : byte := "'"%char.

(** The bytes of a name. *)
Definition ident_byte (b : byte) : bool :=
  let v := bval b in
  ((97 <=? v) && (v <=? 122) || (65 <=? v) && (v <=? 90) || (48 <=? v) && (v <=? 57) || (v =? 95) || (v =? 45) || (v =? 46))%Z.

(** A key between quotes, or a name that is not the keyword. *)
Inductive key_text (k : bytes) : bytes -> Prop :=
| key_quoted q : q ∈ [DQ; SQ] -> q ∉ k -> key_text k (q :: k ++ [q])
| key_bare : k <> [] -> Forall (fun b => ident_byte b = true) k -> ToLower k <> bs "include" -> key_text k k.

(** A condition on a byte of a name, decided for all of them. *)
Ltac on_ident Hb :=
  match goal with |- wp (if ?c then _ else _) _ _ =>
    replace c with false by
      (symmetry; revert Hb; clear; match goal with b : ascii |- _ => destruct b as [[] [] [] [] [] [] [] []] end;
       vm_compute; (reflexivity || discriminate)) end.

Lemma ident_ascii b : ident_byte b = true -> (bval b < 128)%Z.
Proof. unfold ident_byte. lia. Qed.

Lemma key_scans st : st ∈ [LexKey; LexMapKey] -> scans st (fun b => ident_byte b = true).
Proof.
  intros Hst lx tok b s d rest stk Hs Hd Hb. pose proof (ident_ascii b Hb).
  rewrite !elem_of_cons, elem_of_nil in Hst. destruct_or? Hst; try done; subst; lx_body.
  all: apply wp_bind; eapply wp_peek_byte; [exact Hs|done|]; clear Hs; intros lx' Hs; repeat on_ident Hb.
  all: apply wp_bind; eapply wp_next_byte; [exact Hs|done|]; clear Hs; intros lx2 Hs _; apply wp_ret.
  all: split; [done|]; exists 1; split; [lia|done].
Qed.

(** The two places where a key is read, with the state after it. *)
Inductive key_place : stateFn -> stateFn -> Prop :=
| key_at_top : key_place LexKeyStart LexKeyEnd
| key_in_map : key_place LexMapKeyStart LexMapKeyEnd.

(** A key ends where a separator or a blank stands. *)
Definition key_stop (c : byte) : bool := bool_decide (c ∈ ["="%char; ":"%char; SPC; TAB]).

Lemma parses_quoted_key st after q k lx rest stk p r :
  run_state digitTable st = quoted_key (bval q) st after -> (bval q < 128)%Z -> q ∉ k ->
  stands lx [] (k ++ q :: rest) [] stk ->
  (forall lx', stands lx' [] rest [] stk -> parses (lx', Some after) (pushKey p k) r) -> parses (lx, Some st) p r.
Proof.
  intros Hst Hq Hk Hs HK.
  assert (Hg : Forall (fun b => b <> q) k) by (apply Forall_forall; intros b Hb ->; done).
  eapply (parses_scan _ _ (quoted_key_scans _ _ _ Hst Hq)); [exact Hg|exact Hs|done|].
  clear Hs. intros lx' Hs. eapply parses_run; [exact Hs|]. rewrite Hst. unfold quoted_key.
  repeat lx_prim. rewrite Z.eqb_refl. repeat lx_prim. lx_sent.
  eapply parses_skip; [exact Hs|]. exact HK.
Qed.

Inductive key_scan : stateFn -> stateFn -> Prop :=
| scan_at_top : key_scan LexKey LexKeyEnd
| scan_in_map : key_scan LexMapKey LexMapKeyEnd.

(** A name that has been read up to its end. *)
Lemma parses_bare_end st after k c lx rest stk p r : key_scan st after -> key_stop c = true ->
  ToLower k <> bs "include" -> stands lx k (c :: rest) [] stk ->
  (forall lx', stands lx' [] (c :: rest) [] stk -> parses (lx', Some after) (pushKey p k) r) ->
  parses (lx, Some st) p r.
Proof.
  unfold key_stop. intros Hsc Hc Hinc Hs HK.
  cases_in Hc; destruct Hsc; lx_auto; unfold keyCheckKeyword; repeat lx_prim; rewrite ?decide_False by done;
    repeat lx_prim; lx_sent; by apply HK.
Qed.

Lemma parses_key start after k kt c lx rest stk p r : key_place start after -> key_text k kt ->
  key_stop c = true -> stands lx [] (kt ++ c :: rest) [] stk ->
  (forall lx', stands lx' [] (c :: rest) [] stk -> parses (lx', Some after) (pushKey p k) r) ->
  parses (lx, Some start) p r.
Proof.
  intros Hpl Hkt Hc Hs HK. destruct Hkt as [q Hq Hk|Hne Hid Hinc].
  - simpl in Hs. rewrite <- app_assoc in Hs. rewrite !elem_of_cons, elem_of_nil in Hq.
    destruct Hpl; destruct_or? Hq; try done; subst; lx_auto; (eapply parses_skip; [exact Hs|]); clear Hs; intros ? Hs;
      (eapply parses_quoted_key; [reflexivity|done|exact Hk|exact Hs|exact HK]).
  - destruct k as [|b k]; [done|]. apply Forall_cons in Hid as [Hb Hid].
    pose proof (ident_ascii b Hb) as Hab. simpl in Hs.
    destruct Hpl; lx_start.
    all: apply wp_bind; (eapply wp_peek_byte; [exact Hs|done|]); clear Hs; intros lx' Hs; repeat on_ident Hb.
    all: apply wp_bind; lx_prim; apply wp_bind; (eapply wp_next_byte; [exact Hs|done|]);
      clear Hs; intros lx2 Hs _; apply wp_ret.
    all: (eapply parses_scan; [by apply key_scans; set_solver|exact Hid|exact Hs| |]).
    1,3: by unfold key_stop in Hc; cases_in Hc.
    all: clear Hs; intros lx3 Hs; (eapply parses_bare_end; [constructor|exact Hc|exact Hinc|exact Hs|exact HK]).
Qed.

(** ** Values *)

(** Where a value that has no quotes ends. *)
Definition stop_byte (d : byte) : bool :=
  bool_decide (d ∈ [SPC; TAB; LF; CR; ";"%char; ","%char; "]"%char; "}"%char]).
Definition ends (rest : bytes) : Prop := match rest with [] => True | d :: _ => stop_byte d = true end.

Lemma parses_quoted q s lx rest st stk p p' r : q ∈ [DQ; SQ] -> q ∉ s -> setValue p (VString s) = inl p' ->
  stands lx [] (q :: s ++ q :: rest) [] (st :: stk) ->
  (forall lx', stands lx' [] rest [] stk -> parses (lx', Some st) p' r) -> parses (lx, Some LexValue) p r.
Proof.
  intros Hq Hk Hv Hs HK. 
  assert (Hg : Forall (fun b => b <> q) s) by (apply Forall_forall; intros b Hb ->; done).
  rewrite !elem_of_cons, elem_of_nil in Hq. destruct_or? Hq; try done; subst; lx_auto.
  all: (eapply parses_scan; [eapply quoted_text_scans; reflexivity|exact Hg|exact Hs|done|]); clear Hs; intros ? Hs.
  all: lx_start; unfold quoted_text, end_quoted; repeat lx_prim; lx_sent; by apply HK.
Qed.

(** A state that goes on with itself over ASCII bytes, to the end of the
    input if need be. *)
Definition scans_ascii (st : stateFn) (good : byte -> bool) : Prop := forall lx tok b rest stk,
  stands lx tok (b :: rest) [] stk -> good b = true ->
  wp (run_state digitTable st) (fun lx' o => o = Some st /\ stands lx' (tok ++ [b]) rest [] stk) lx.

Lemma parses_scan_ascii st good : scans_ascii st good -> forall s lx tok rest stk p r, forallb good s = true ->
  stands lx tok (s ++ rest) [] stk ->
  (forall lx', stands lx' (tok ++ s) rest [] stk -> parses (lx', Some st) p r) -> parses (lx, Some st) p r.
Proof.
  intros Hsc s. induction s as [|b s IH]; intros lx tok rest stk p r Hg Hs HK; [rewrite app_nil_r in HK; by apply HK|].
  simpl in Hg. apply andb_true_iff in Hg as [Hb Hg]. eapply parses_run; [exact Hs|].
  pose proof (Hsc lx tok b _ stk Hs Hb) as Hrun. unfold wp in *.
  destruct (run_state digitTable st lx) as [[lx' o]|]; [|done]. destruct Hrun as (-> & Hs').
  eapply IH; [exact Hg|exact Hs'|]. intros lx2 Hs2. apply HK. by rewrite <- app_assoc in Hs2.
Qed.

Lemma digits_scan : scans_ascii LexNumberOrDateOrIP is_digit.
Proof.
  intros lx tok b rest stk Hs Hb.
  assert (bval b < 128)%Z by (revert Hb; unfold is_digit, asciiZero, asciiNine; lia). lx_body.
  apply wp_bind. eapply wp_next_byte; [exact Hs|done|]. intros lx' Hs' _.
  on_ident Hb. rewrite IsDigit_is_digit, Hb. by apply wp_ret.
Qed.

(** The end of a number. *)
Lemma parses_number_end st lx tok rest st' stk p p' r : st ∈ [LexNumberOrDateOrIP; LexConvenientNumber] -> ends rest ->
  stands lx tok rest [] (st' :: stk) -> process_integer digitTable p tok = inl p' ->
  (forall lx', stands lx' [] rest [] stk -> parses (lx', Some st') p' r) -> parses (lx, Some st) p r.
Proof.
  intros Hst He Hs Hp HK. rewrite !elem_of_cons, elem_of_nil in Hst. destruct rest as [|d rest].
  - destruct_or? Hst; try done; subst; lx_auto; unfold emit_pop; repeat lx_prim; lx_sent; by apply HK.
  - simpl in He. unfold stop_byte in He. destruct_or? Hst; try done; subst; cases_in He.
    all: lx_auto; unfold emit_pop; repeat lx_prim; lx_sent; by apply HK.
Qed.

(** The suffixes of a number and their factors. *)
Definition suffixes : list (bytes * Z) :=
  [([], 1); (bs "k", 1000); (bs "K", 1000); (bs "kb", 1024); (bs "KB", 1024);
   (bs "m", 1000 * 1000); (bs "M", 1000 * 1000); (bs "mb", 1024 * 1024); (bs "MB", 1024 * 1024);
   (bs "g", 1000 * 1000 * 1000); (bs "G", 1000 * 1000 * 1000);
   (bs "gb", 1024 * 1024 * 1024); (bs "GB", 1024 * 1024 * 1024)]%Z.

Lemma suffixes_ok suf f : (suf, f) ∈ suffixes ->
  Forall (fun b => bval b < 128)%Z suf /\ match suf with b :: _ => is_digit b = false | [] => True end /\
  suffix_factor (ToLower (TrimSpace suf)) = Some f /\ (1 <= f)%Z.
Proof.
  unfold suffixes. rewrite !elem_of_cons, elem_of_nil. intros Hs.
  destruct_or? Hs; try done; injection Hs as -> ->; (split_and!; [by repeat constructor|done|done|lia]).
Qed.

Lemma parses_suffix suf f lx tok rest stk p r : (suf, f) ∈ suffixes -> stands lx tok (suf ++ rest) [] stk ->
  (forall st lx', st ∈ [LexNumberOrDateOrIP; LexConvenientNumber] -> stands lx' (tok ++ suf) rest [] stk ->
     parses (lx', Some st) p r) ->
  parses (lx, Some LexNumberOrDateOrIP) p r.
Proof.
  intros Hsuf Hs HK. unfold suffixes in Hsuf. rewrite !elem_of_cons, elem_of_nil in Hsuf.
  destruct_or? Hsuf; try done; injection Hsuf as -> _; rewrite ?app_nil_r in HK; simpl in Hs, HK.
  1: by eapply HK; [|exact Hs]; left.
  all: lx_auto; first [eapply HK; [|exact Hs]|lx_auto; rewrite <- app_assoc in Hs; eapply HK; [|exact Hs]]; right; left.
Qed.

Lemma parses_int d suf f lx rest st stk p p' r : (suf, f) ∈ suffixes -> d <> [] -> forallb is_digit d = true ->
  (dec_value d * f < 2 ^ 63)%Z -> setValue p (VInt (dec_value d * f)) = inl p' -> ends rest ->
  stands lx [] (d ++ suf ++ rest) [] (st :: stk) ->
  (forall lx', stands lx' [] rest [] stk -> parses (lx', Some st) p' r) -> parses (lx, Some LexValue) p r.
Proof.
  intros Hsuf Hne Hd Hr Hv He Hs HK. destruct (suffixes_ok suf f Hsuf) as (Ha & Hnd & Hf & Hf1).
  assert (Hd0 : (0 <= dec_value d)%Z) by (by apply dec_value_nonneg).
  assert (Hp : process_integer digitTable p (d ++ suf) = inl p').
  { rewrite process_integer_digits, decide_False, Hf by (done || nia).
    by rewrite wrap64_id by (unfold in_int64; nia). }
  destruct d as [|b d]; [done|]. simpl in Hd. apply andb_true_iff in Hd as [Hb Hd]. simpl in Hs.
  assert (bval b < 128)%Z by (revert Hb; unfold is_digit, asciiZero, asciiNine; lia).
  lx_start. repeat (lx_prim || on_ident Hb). rewrite IsDigit_is_digit, Hb. repeat lx_prim.
  lx_start. unfold number_start. do 2 lx_prim. rewrite IsDigit_is_digit, Hb. simpl negb. repeat lx_prim.
  eapply (parses_scan_ascii _ _ digits_scan); [exact Hd|exact Hs|]. clear Hs. intros lx1 Hs. simpl in Hs.
  eapply parses_suffix; [exact Hsuf|exact Hs|]. intros st1 lx2 Hst1 Hs2. by eapply parses_number_end.
Qed.

(** The words for the booleans. *)
Definition bool_texts : list (bool * bytes) :=
  [(true, bs "true"); (true, bs "yes"); (true, bs "on"); (false, bs "false"); (false, bs "no"); (false, bs "off")].

Definition letter (b : byte) : bool := ((97 <=? bval b) && (bval b <=? 122))%Z.

Lemma letters_scan : scans_ascii LexString letter.
Proof.
  intros lx tok b rest stk Hs Hb. assert (bval b < 128)%Z by (revert Hb; unfold letter; lia). lx_body.
  apply wp_bind. eapply wp_next_byte; [exact Hs|done|]. intros lx' Hs' _. repeat on_ident Hb. by apply wp_ret.
Qed.

(** The end of a word. *)
Lemma parses_bool_end b w lx rest st stk p p' r : (b, w) ∈ bool_texts -> ends rest ->
  stands lx w rest [] (st :: stk) -> setValue p (VBool b) = inl p' ->
  (forall lx', stands lx' [] rest [] stk -> parses (lx', Some st) p' r) -> parses (lx, Some LexString) p r.
Proof.
  intros Hw He Hs Hp HK.
  assert (Hword : bool_decide (ToLower w ∈ bool_words) = true /\ forall l, process p (Item itemBool w l) = setValue p (VBool b)).
  { unfold bool_texts in Hw. rewrite !elem_of_cons, elem_of_nil in Hw.
    destruct_or? Hw; try done; injection Hw as -> ->; by split. }
  destruct Hword as [Hword Hpr]. destruct rest as [|d rest].
  - lx_auto. unfold isBool. do 3 lx_prim. rewrite Hword. repeat lx_prim. lx_sent; [by rewrite Hpr|by apply HK].
  - simpl in He. unfold stop_byte in He. cases_in He.
    all: lx_auto; unfold isBool; do 3 lx_prim; rewrite Hword; repeat lx_prim; lx_sent; [by rewrite Hpr|by apply HK].
Qed.

Lemma parses_bool b w lx rest st stk p p' r : (b, w) ∈ bool_texts -> ends rest ->
  stands lx [] (w ++ rest) [] (st :: stk) -> setValue p (VBool b) = inl p' ->
  (forall lx', stands lx' [] rest [] stk -> parses (lx', Some st) p' r) -> parses (lx, Some LexValue) p r.
Proof.
  intros Hw He Hs Hp HK.
  assert (Hl : exists c w', w = c :: w' /\ letter c = true /\ forallb letter w' = true).
  { unfold bool_texts in Hw. rewrite !elem_of_cons, elem_of_nil in Hw.
    destruct_or? Hw; try done; injection Hw as -> ->; by do 2 eexists. }
  destruct Hl as (c & w' & -> & Hc & Hl). assert (bval c < 128)%Z by (revert Hc; unfold letter; lia). simpl in Hs.
  lx_start. repeat (lx_prim || on_ident Hc).
  eapply (parses_scan_ascii _ _ letters_scan _ _ _ _ _ _ _ (_ : forallb letter (c :: w') = true)); [exact Hs|].
  clear Hs. intros lx1 Hs. by eapply parses_bool_end.
  Unshelve. simpl. by rewrite Hc.
Qed.

(** ** Between a key and its value *)

(** The first byte of a value. *)
Definition value_byte (b : byte) : bool :=
  bool_decide (b ∈ [DQ; SQ; "["%char; "{"%char]) || is_digit b || letter b.
Definition starts (t : bytes) : Prop := match t with b :: _ => value_byte b = true | [] => False end.

Lemma value_byte_ascii b : value_byte b = true -> (bval b < 128)%Z.
Proof. by destruct b as [[] [] [] [] [] [] [] []]. Qed.

Inductive key_sep : bytes -> Prop :=
| sep_sign ws1 c ws2 : forallb blank ws1 = true -> c ∈ ["="%char; ":"%char] -> forallb blank ws2 = true ->
    key_sep (ws1 ++ c :: ws2)
| sep_blank b ws : blank b = true -> forallb blank ws = true -> key_sep (b :: ws).

Lemma key_sep_stop ks : key_sep ks -> exists c ks', ks = c :: ks' /\ key_stop c = true.
Proof.
  assert (Hb : forall b, blank b = true -> key_stop b = true) by (unfold blank, key_stop; intros b Hb; by cases_in Hb).
  destruct 1 as [ws1 c ws2 H1 Hc H2|b ws H1 H2]; [|eauto].
  destruct ws1 as [|b ws1].
  - exists c, ws2. split; [done|]. rewrite !elem_of_cons, elem_of_nil in Hc. by destruct_or? Hc; subst.
  - exists b, (ws1 ++ c :: ws2). simpl in H1. apply andb_true_iff in H1 as [H1 _]. auto.
Qed.

Lemma parses_blanks st ws lx rest stk p r : skips_blanks st = true -> forallb blank ws = true ->
  stands lx [] (ws ++ rest) [] stk ->
  (forall lx', stands lx' [] rest [] stk -> parses (lx', Some st) p r) -> parses (lx, Some st) p r.
Proof.
  intros Hst Hws. apply parses_skips. intros b Hb. apply blank_skips; [done|].
  by apply (proj1 (forallb_forall _ _) Hws), list_elem_of_In.
Qed.

(** The two places again: in a map the value has a state pushed for its end. *)
Inductive value_place : stateFn -> list stateFn -> Prop :=
| value_at_top : value_place LexKeyEnd []
| value_in_map : value_place LexMapKeyEnd [LexMapValueEnd].

Lemma parses_key_sep st up ks lx t stk p r : value_place st up -> key_sep ks -> starts t ->
  stands lx [] (ks ++ t) [] stk ->
  (forall lx', stands lx' [] t [] (up ++ stk) -> parses (lx', Some LexValue) p r) -> parses (lx, Some st) p r.
Proof.
  intros Hpl Hks Ht Hs HK. destruct t as [|b t]; [done|]. simpl in Ht. pose proof (value_byte_ascii b Ht) as Ha.
  assert (Hmap : st = LexMapKeyEnd -> forall lx', stands lx' [] (b :: t) [] stk -> parses (lx', Some LexMapValue) p r).
  { intros ->. inversion Hpl; subst. intros lx' Hs'. lx_start. repeat (lx_prim || on_ident Ht). by apply HK. }
  destruct Hks as [ws1 c ws2 H1 Hc H2|c ws H1 H2].
  - rewrite <- app_assoc in Hs. eapply parses_blanks; [by destruct Hpl|exact H1|exact Hs|]. clear Hs. intros lx1 Hs.
    simpl in Hs. rewrite !elem_of_cons, elem_of_nil in Hc.
    destruct Hpl; destruct_or? Hc; try done; subst; lx_auto; (eapply parses_skip; [exact Hs|]); clear Hs; intros ? Hs;
      (eapply parses_blanks; [reflexivity|exact H2|exact Hs|]); [exact HK|exact HK|by apply Hmap..].
  - assert (H3 : forallb blank (c :: ws) = true) by (simpl; by rewrite H1).
    eapply (parses_blanks _ (c :: ws)); [by destruct Hpl|exact H3|exact Hs|]. clear Hs. intros lx1 Hs.
    destruct Hpl; lx_start; repeat (lx_prim || on_ident Ht); [by apply HK|by apply Hmap].
Qed.

(** ** The grammar *)

(** Later entries replace earlier ones. *)
Definition entries_map (m : gmap bytes (value F T)) (es : list (bytes * value F T)) : gmap bytes (value F T) :=
  foldl (fun m e => <[e.1 := e.2]> m) m es.

(** The texts of a value, of the elements of an array and of the entries of a
    map.  Elements end with a comma or a line end, entries also with a
    semicolon; after the last one it may be left out. *)
Inductive renders : value F T -> bytes -> Prop :=
| renders_string q s : q ∈ [DQ; SQ] -> q ∉ s -> renders (VString s) (q :: s ++ [q])
| renders_int d suf f : (suf, f) ∈ suffixes -> d <> [] -> forallb is_digit d = true ->
    (dec_value d * f < 2 ^ 63)%Z -> renders (VInt (dec_value d * f)) (d ++ suf)
| renders_bool b w : (b, w) ∈ bool_texts -> renders (VBool b) w
| renders_array l t : renders_elems l t -> renders (VArray l) ("["%char :: t ++ ["]"%char])
| renders_map es t : renders_entries es t -> renders (VMap (entries_map ∅ es)) ("{"%char :: t ++ ["}"%char])
with renders_elems : list (value F T) -> bytes -> Prop :=
| elems_nil g : gap g -> renders_elems [] g
| elems_last g v t ws : gap g -> renders v t -> forallb blank ws = true -> renders_elems [v] (g ++ t ++ ws)
| elems_cons g v t ws c l ts : gap g -> renders v t -> forallb blank ws = true -> c ∈ [","%char; LF] ->
    renders_elems l ts -> renders_elems (v :: l) (g ++ t ++ ws ++ c :: ts)
with renders_entries : list (bytes * value F T) -> bytes -> Prop :=
| entries_nil g : gap g -> renders_entries [] g
| entries_last g k kt ks v t ws : gap g -> key_text k kt -> key_sep ks -> renders v t -> forallb blank ws = true ->
    renders_entries [(k, v)] (g ++ kt ++ ks ++ t ++ ws)
| entries_cons g k kt ks v t ws c es ts : gap g -> key_text k kt -> key_sep ks -> renders v t ->
    forallb blank ws = true -> c ∈ [","%char; ";"%char; LF] -> renders_entries es ts ->
    renders_entries ((k, v) :: es) (g ++ kt ++ ks ++ t ++ ws ++ c :: ts).

Scheme renders_ind' := Induction for renders Sort Prop
  with renders_elems_ind' := Induction for renders_elems Sort Prop
  with renders_entries_ind' := Induction for renders_entries Sort Prop.
Combined Scheme renders_mutind from renders_ind', renders_elems_ind', renders_entries_ind'.

Lemma renders_starts v t rest : renders v t -> starts (t ++ rest).
Proof.
  destruct 1 as [q s Hq|d suf f Hsuf Hne Hd|b w Hw| |]; simpl; [..|done|done].
  - rewrite !elem_of_cons, elem_of_nil in Hq. by destruct_or? Hq; subst.
  - destruct d as [|b d]; [done|]. simpl in *. apply andb_true_iff in Hd as [Hb _].
    unfold value_byte. rewrite Hb. by rewrite orb_true_r.
  - unfold bool_texts in Hw. rewrite !elem_of_cons, elem_of_nil in Hw. by destruct_or? Hw; try done; injection Hw as -> ->.
Qed.

Lemma ends_blanks ws c rest : forallb blank ws = true -> stop_byte c = true -> ends (ws ++ c :: rest).
Proof.
  destruct ws as [|b ws]; [done|]. simpl. intros Hb _. apply andb_true_iff in Hb as [Hb _].
  unfold blank in Hb. by cases_in Hb.
Qed.

(** What the induction shows of a text: the run goes on behind it with the
    value set. *)
Definition reads_value (v : value F T) (t : bytes) : Prop := forall lx rest st stk p p' r,
  p_ctxs p <> [] -> setValue p v = inl p' -> ends rest -> stands lx [] (t ++ rest) [] (st :: stk) ->
  (forall lx', stands lx' [] rest [] stk -> parses (lx', Some st) p' r) -> parses (lx, Some LexValue) p r.

Definition reads_elems (l : list (value F T)) (t : bytes) : Prop := forall lx rest st stk l0 ctxs keys p' r,
  ctxs <> [] -> setValue (Parser ctxs keys) (VArray (l0 ++ l)) = inl p' ->
  stands lx [] (t ++ "]"%char :: rest) [] (st :: stk) ->
  (forall lx', stands lx' [] rest [] stk -> parses (lx', Some st) p' r) ->
  parses (lx, Some LexArrayValue) (Parser (CArray l0 :: ctxs) keys) r.

Definition reads_entries (es : list (bytes * value F T)) (t : bytes) : Prop := forall lx rest st stk m ctxs keys p' r,
  ctxs <> [] -> setValue (Parser ctxs keys) (VMap (entries_map m es)) = inl p' ->
  stands lx [] (t ++ "}"%char :: rest) [] (st :: stk) ->
  (forall lx', stands lx' [] rest [] stk -> parses (lx', Some st) p' r) ->
  parses (lx, Some LexMapKeyStart) (Parser (CMap m :: ctxs) keys) r.

(** The closing of an array and of a map. *)
Lemma parses_array_end lx tok rest st stk l ctxs keys p' r : ctxs <> [] ->
  setValue (Parser ctxs keys) (VArray l) = inl p' -> stands lx tok rest [] (st :: stk) ->
  (forall lx', stands lx' [] rest [] stk -> parses (lx', Some st) p' r) ->
  parses (lx, Some LexArrayEnd) (Parser (CArray l :: ctxs) keys) r.
Proof.
  intros Hne Hv Hs HK. destruct ctxs as [|c ctxs]; [done|]. lx_auto. lx_sent. by apply HK.
Qed.

Lemma parses_map_end lx tok rest st stk m ctxs keys p' r : ctxs <> [] ->
  setValue (Parser ctxs keys) (VMap m) = inl p' -> stands lx tok rest [] (st :: stk) ->
  (forall lx', stands lx' [] rest [] stk -> parses (lx', Some st) p' r) ->
  parses (lx, Some (LexSkip LexMapEnd)) (Parser (CMap m :: ctxs) keys) r.
Proof.
  intros Hne Hv Hs HK. destruct ctxs as [|c ctxs]; [done|]. eapply parses_skip; [exact Hs|].
  clear Hs. intros ? Hs. lx_auto. lx_sent. by apply HK.
Qed.

(** One element, and one entry of a map, up to the byte behind it. *)
Lemma parses_element g v t ws c lx rest stk l0 ctxs keys r :
  gap g -> renders v t -> reads_value v t -> forallb blank ws = true -> stop_byte c = true ->
  stands lx [] (g ++ t ++ ws ++ c :: rest) [] stk ->
  (forall lx', stands lx' [] (c :: rest) [] stk ->
     parses (lx', Some LexArrayValueEnd) (Parser (CArray (l0 ++ [v]) :: ctxs) keys) r) ->
  parses (lx, Some LexArrayValue) (Parser (CArray l0 :: ctxs) keys) r.
Proof.
  intros Hg Hv IH Hws Hc Hs HK. eapply parses_gap; [reflexivity|exact Hg|exact Hs|]. clear Hs. intros lx1 Hs.
  pose proof (renders_starts v t (ws ++ c :: rest) Hv) as Hst. destruct (t ++ ws ++ c :: rest) as [|b t'] eqn:Et; [done|].
  simpl in Hst. pose proof (value_byte_ascii b Hst). lx_start. repeat (lx_prim || on_ident Hst). rewrite <- Et in Hs.
  eapply IH; [done|reflexivity|by apply ends_blanks|exact Hs|]. clear Hs. intros lx2 Hs.
  eapply parses_blanks; [reflexivity|exact Hws|exact Hs|exact HK].
Qed.

Lemma parses_entry g k kt ks v t ws c lx rest stk m ctxs keys r :
  gap g -> key_text k kt -> key_sep ks -> renders v t -> reads_value v t -> forallb blank ws = true -> stop_byte c = true ->
  stands lx [] (g ++ kt ++ ks ++ t ++ ws ++ c :: rest) [] stk ->
  (forall lx', stands lx' [] (c :: rest) [] stk ->
     parses (lx', Some LexMapValueEnd) (Parser (CMap (<[k := v]> m) :: ctxs) keys) r) ->
  parses (lx, Some LexMapKeyStart) (Parser (CMap m :: ctxs) keys) r.
Proof.
  intros Hg Hk Hks Hv IH Hws Hc Hs HK. eapply parses_gap; [reflexivity|exact Hg|exact Hs|]. clear Hs. intros lx1 Hs.
  destruct (key_sep_stop ks Hks) as (c1 & ks' & -> & Hc1). simpl in Hs.
  eapply parses_key; [apply key_in_map|exact Hk|exact Hc1|exact Hs|]. clear Hs. intros lx2 Hs.
  eapply (parses_key_sep _ _ (c1 :: ks')); [apply value_in_map|exact Hks|by eapply renders_starts|exact Hs|].
  clear Hs. intros lx3 Hs. eapply IH; [done|reflexivity|by apply ends_blanks|exact Hs|]. clear Hs. intros lx4 Hs.
  eapply parses_blanks; [reflexivity|exact Hws|exact Hs|exact HK].
Qed.

Lemma renders_reads :
  (forall v t, renders v t -> reads_value v t) /\
  (forall l t, renders_elems l t -> reads_elems l t) /\
  (forall es t, renders_entries es t -> reads_entries es t).
Proof.
  apply renders_mutind.
  - intros q s Hq Hk lx rest st stk p p' r _ Hv _ Hs HK. simpl in Hs. rewrite <- app_assoc in Hs. by eapply parses_quoted.
  - intros d suf f Hsuf Hne Hd Hr lx rest st stk p p' r _ Hv He Hs HK. rewrite <- app_assoc in Hs. by eapply parses_int.
  - intros b w Hw lx rest st stk p p' r _ Hv He Hs HK. by eapply parses_bool.
  - intros l t _ IH lx rest st stk [ctxs keys] p' r Hne Hv _ Hs HK. simpl in Hs. rewrite <- app_assoc in Hs.
    lx_auto. lx_sent. by eapply (IH _ _ _ _ []).
  - intros es t _ IH lx rest st stk [ctxs keys] p' r Hne Hv _ Hs HK. simpl in Hs. rewrite <- app_assoc in Hs.
    lx_auto. lx_sent. by eapply (IH _ _ _ _ ∅).
  - intros g Hg lx rest st stk l0 ctxs keys p' r Hne Hv Hs HK. rewrite app_nil_r in Hv.
    eapply parses_gap; [reflexivity|exact Hg|exact Hs|]. clear Hs. intros lx1 Hs.
    lx_auto. by eapply parses_array_end.
  - intros g v t ws Hg Hv0 IH Hws lx rest st stk l0 ctxs keys p' r Hne Hv Hs HK. rewrite <- !app_assoc in Hs.
    eapply (parses_element _ _ _ _ "]"%char); [exact Hg|exact Hv0|exact IH|exact Hws|reflexivity|exact Hs|]. clear Hs. intros lx1 Hs.
    lx_auto. by eapply parses_array_end.
  - intros g v t ws c l ts Hg Hv0 IH Hws Hc _ IHl lx rest st stk l0 ctxs keys p' r Hne Hv Hs HK.
    rewrite <- !app_assoc in Hs. simpl in Hs. rewrite !elem_of_cons, elem_of_nil in Hc.
    eapply (parses_element _ _ _ _ c); [exact Hg|exact Hv0|exact IH|exact Hws|by destruct_or? Hc; subst|exact Hs|].
    clear Hs. intros lx1 Hs. destruct_or? Hc; try done; subst; lx_auto; (eapply parses_skip; [exact Hs|]); clear Hs; intros lx2 Hs;
      (eapply IHl; [exact Hne| |exact Hs|exact HK]); by rewrite <- app_assoc.
  - intros g Hg lx rest st stk m ctxs keys p' r Hne Hv Hs HK.
    eapply parses_gap; [reflexivity|exact Hg|exact Hs|]. clear Hs. intros lx1 Hs.
    lx_auto. by eapply parses_map_end.
  - intros g k kt ks v t ws Hg Hk Hks Hv0 IH Hws lx rest st stk m ctxs keys p' r Hne Hv Hs HK. rewrite <- !app_assoc in Hs.
    eapply (parses_entry _ _ _ _ _ _ _ "}"%char); [exact Hg|exact Hk|exact Hks|exact Hv0|exact IH|exact Hws|reflexivity|exact Hs|].
    clear Hs. intros lx1 Hs. lx_auto. by eapply parses_map_end.
  - intros g k kt ks v t ws c es ts Hg Hk Hks Hv0 IH Hws Hc _ IHl lx rest st stk m ctxs keys p' r Hne Hv Hs HK.
    rewrite <- !app_assoc in Hs. simpl in Hs. rewrite !elem_of_cons, elem_of_nil in Hc.
    eapply (parses_entry _ _ _ _ _ _ _ c); [exact Hg|exact Hk|exact Hks|exact Hv0|exact IH|exact Hws|by destruct_or? Hc; subst|exact Hs|].
    clear Hs. intros lx1 Hs. destruct_or? Hc; try done; subst; lx_auto; (eapply parses_skip; [exact Hs|]); clear Hs; intros lx2 Hs;
      (eapply IHl; [exact Hne|exact Hv|exact Hs|exact HK]).
Qed.

(** ** A whole configuration *)

(** The end of an entry at the top level. *)
Inductive top_end : bytes -> Prop :=
| end_byte c : c ∈ [LF; CR; ";"%char] -> top_end [c]
| end_comment b text : blank b = true -> Forall (fun b => b ∉ [LF; CR; "000"%char]) text ->
    top_end (b :: "#"%char :: text ++ [LF]).

Inductive renders_top : list (bytes * value F T) -> bytes -> Prop :=
| top_nil g : gap g -> renders_top [] g
| top_last g k kt ks v t ws : gap g -> key_text k kt -> key_sep ks -> renders v t -> forallb blank ws = true ->
    renders_top [(k, v)] (g ++ kt ++ ks ++ t ++ ws)
| top_cons g k kt ks v t ws e es ts : gap g -> key_text k kt -> key_sep ks -> renders v t ->
    forallb blank ws = true -> top_end e -> renders_top es ts ->
    renders_top ((k, v) :: es) (g ++ kt ++ ks ++ t ++ ws ++ e ++ ts).

Lemma top_blanks_scan : scans_ascii LexTopValueEnd blank.
Proof.
  intros lx tok b rest stk Hs Hb. unfold blank in Hb. cases_in Hb; lx_body; repeat lx_prim; done.
Qed.

Lemma parses_top_end e lx tok rest stk p r : top_end e -> stands lx tok (e ++ rest) [] stk ->
  (forall lx', stands lx' [] rest [] stk -> parses (lx', Some LexTop) p r) -> parses (lx, Some LexTopValueEnd) p r.
Proof.
  intros [c Hc|b text Hb Ht] Hs HK.
  - rewrite !elem_of_cons, elem_of_nil in Hc. destruct_or? Hc; try done; subst; lx_auto; by apply HK.
  - simpl in Hs. rewrite <- app_assoc in Hs. simpl in Hs.
    eapply (parses_scan_ascii _ _ top_blanks_scan [b] _ _ ("#"%char :: text ++ LF :: rest)); [simpl; by rewrite Hb|exact Hs|]. clear Hs. intros lx1 Hs.
    lx_auto. eapply parses_comment; [exact Hs|exact Ht|]. clear Hs. intros lx2 Hs.
    apply (parses_skips lx2 [LF] rest stk); [|done|done].
    intros b'. rewrite list_elem_of_singleton. intros ->. by apply space_skips.
Qed.

Definition key_byte (b : byte) : bool := bool_decide (b ∈ [DQ; SQ]) || ident_byte b.

Lemma key_text_starts k kt : key_text k kt -> exists b kt', kt = b :: kt' /\ key_byte b = true.
Proof.
  destruct 1 as [q Hq _|Hne Hid _].
  - do 2 eexists. split; [done|]. unfold key_byte. by rewrite bool_decide_true by (rewrite !elem_of_cons in Hq |- *; tauto).
  - destruct k as [|b k]; [done|]. apply Forall_cons in Hid as [Hb _]. do 2 eexists. split; [done|].
    unfold key_byte. by rewrite Hb, orb_true_r.
Qed.

(** One entry at the top level, up to what is behind its value. *)
Lemma parses_top_entry g k kt ks v t rest lx stk m r :
  gap g -> key_text k kt -> key_sep ks -> renders v t -> ends rest ->
  stands lx [] (g ++ kt ++ ks ++ t ++ rest) [] stk ->
  (forall lx', stands lx' [] rest [] stk -> parses (lx', Some LexTopValueEnd) (Parser [CMap (<[k := v]> m)] []) r) ->
  parses (lx, Some LexTop) (Parser [CMap m] []) r.
Proof.
  intros Hg Hk Hks Hv He Hs HK. eapply parses_gap; [reflexivity|exact Hg|exact Hs|]. clear Hs. intros lx1 Hs.
  destruct (key_text_starts k kt Hk) as (b & kt' & Ekt & Hb). rewrite Ekt in Hs. simpl in Hs.
  assert (bval b < 128)%Z by (revert Hb; clear; by destruct b as [[] [] [] [] [] [] [] []]).
  lx_start. repeat (lx_prim || on_ident Hb). rewrite app_comm_cons, <- Ekt in Hs.
  destruct (key_sep_stop ks Hks) as (c1 & ks' & -> & Hc1). simpl in Hs.
  eapply parses_key; [apply key_at_top|exact Hk|exact Hc1|exact Hs|]. clear Hs. intros lx2 Hs.
  eapply (parses_key_sep _ _ (c1 :: ks')); [apply value_at_top|exact Hks|by eapply renders_starts|exact Hs|].
  clear Hs. intros lx3 Hs. simpl in Hs. by eapply (proj1 renders_reads v t Hv).
Qed.

Lemma parses_top_eof lx m : stands lx [] [] [] [] -> parses (lx, Some LexTop) (Parser [CMap m] []) (Parser [CMap m] []).
Proof.
  intros Hs. lx_auto. unfold wp, top_eof. destruct Hs as (pre & Hi & Hst & Hp & Hits & Hk).
  rewrite decide_False by (simpl in Hp; lia).
  apply (wp_bind (emit itemEOF) (fun _ => mret None)), wp_emit; [rewrite Hi, !length_app; simpl in *; lia|].
  intros it Hit. apply wp_ret. eapply parses_eof; [by cbn; rewrite Hits|done].
Qed.

Lemma renders_top_parses es text : renders_top es text -> forall lx m, stands lx [] text [] [] ->
  parses (lx, Some LexTop) (Parser [CMap m] []) (Parser [CMap (entries_map m es)] []).
Proof.
  induction 1 as [g Hg|g k kt ks v t ws Hg Hk Hks Hv Hws|g k kt ks v t ws e es ts Hg Hk Hks Hv Hws He _ IH]; intros lx m Hs.
  - rewrite <- (app_nil_r g) in Hs. eapply parses_gap; [reflexivity|exact Hg|exact Hs|]. intros lx' Hs'. by apply parses_top_eof.
  - eapply parses_top_entry; [exact Hg|exact Hk|exact Hks|exact Hv| |exact Hs|].
    + destruct ws as [|b ws]; [done|]. simpl in *. apply andb_true_iff in Hws as [Hb _]. unfold blank in Hb. by cases_in Hb.
    + clear Hs. intros lx1 Hs. rewrite <- (app_nil_r ws) in Hs.
      eapply (parses_scan_ascii _ _ top_blanks_scan); [exact Hws|exact Hs|]. clear Hs. intros lx2 Hs. simpl in Hs.
      lx_auto. by apply parses_top_eof.
  - eapply parses_top_entry; [exact Hg|exact Hk|exact Hks|exact Hv| |exact Hs|].
    + destruct He as [c Hc|b text Hb Ht]; simpl; apply ends_blanks; try done.
      * rewrite !elem_of_cons, elem_of_nil in Hc. by destruct_or? Hc; subst.
      * unfold blank in Hb. by cases_in Hb.
    + clear Hs. intros lx1 Hs. eapply (parses_scan_ascii _ _ top_blanks_scan); [exact Hws|exact Hs|]. clear Hs. intros lx2 Hs.
      eapply parses_top_end; [exact He|exact Hs|]. clear Hs. intros lx3 Hs. by apply IH.
Qed.
End text.
