(* ===== verification/ConfRound.v ===== *)
(** * ConfRound: what the parser makes of a configuration

    The contract of [Parse] on the texts of the grammar [renders_top], and
    what it does with the texts that its callers get wrong. *)

From S2P Require Import Prelude Util Lex LexSafe LexRun ConfParse ConfText.

Section conf.
Context {F T : Type} (digitTable : rune -> bool)
        (ParseFloat : bytes -> F + bool) (ParseTime : bytes -> option T)
        (LookupEnv : bytes -> option bytes) (ReadFile : bytes -> bytes + bytes)
        (Join : bytes -> bytes -> bytes) (Dir : bytes -> bytes).

#[local] Abbreviation parse := (conf_parse digitTable ParseFloat ParseTime LookupEnv ReadFile Join Dir).

Lemma conf_parse_parses depth fp data r :
  parses digitTable ParseFloat ParseTime LookupEnv ReadFile Join Dir (parse depth) fp
    (lex data) (Parser [CMap ∅] []) r ->
  parse (S depth) data fp = mapping r.
Proof.
  intros Hp. cbn [conf_parse].
  rewrite (parse_items_parses digitTable ParseFloat ParseTime LookupEnv ReadFile Join Dir (parse depth) fp
    (fuel_of data) (fuel_of data) _ _ r (readable_new data) (weight_new data) (weight_new data) Hp). done.
Qed.

(** C8. Every text of a configuration is read as the map of its entries: the
    entries may stand in any layout of blanks, comments and separators, keys
    may be quoted or bare, and values are strings, integers with their
    suffixes, booleans, and arrays and maps of values nested to any depth; a
    key that is given twice has its last value. *)
Theorem parse_rendering depth fp (es : list (bytes * value F T)) text :
  renders_top es text -> parse (S depth) text fp = inl (entries_map ∅ es).
Proof.
  intros Hr. rewrite (conf_parse_parses depth fp text (Parser [CMap (entries_map ∅ es)] [])); [done|].
  by eapply renders_top_parses; [exact Hr|exists []].
Qed.

(** Letters are a suffix as they are. *)
Lemma letters_plain suf : forallb letter suf = true ->
  Forall (fun b => bval b < 128)%Z suf /\ match suf with b :: _ => is_digit b = false | [] => True end /\
  ToLower (TrimSpace suf) = suf.
Proof.
  intros Hl. assert (Hall : Forall (fun b => letter b = true) suf) by (apply Forall_forall; intros b Hb;
    by apply (proj1 (forallb_forall _ _) Hl), list_elem_of_In).
  assert (Hb : forall b, letter b = true -> ascii_space b = false /\ lower b = b /\ is_digit b = false /\ (bval b < 128)%Z).
  { intros b. destruct b as [[] [] [] [] [] [] [] []]; vm_compute; (discriminate || by auto). }
  split_and!.
  - eapply Forall_impl; [exact Hall|]. intros b Hx. by apply Hb.
  - destruct suf; [done|]. apply Forall_cons in Hall as [? _]. by apply Hb.
  - assert (Htl : forall l, Forall (fun b => letter b = true) l -> trim_left l = l).
    { intros [|b l] Hx; [done|]. apply Forall_cons in Hx as [Hx _]. simpl. by rewrite (proj1 (Hb b Hx)). }
    unfold TrimSpace. rewrite (Htl suf), (Htl (reverse suf)), reverse_involutive by (done || by apply Forall_reverse).
    clear -Hall Hb. induction suf as [|b [|c suf] IH]; [done| |].
    + apply Forall_cons in Hall as [Hx _]. simpl. by rewrite (proj1 (proj2 (Hb b Hx))).
    + apply Forall_cons in Hall as [Hx Hall]. cbn [ToLower]. rewrite decide_False.
      * f_equal; [by apply Hb|by apply IH].
      * pose proof (Hb b Hx). lia.
Qed.

(** An integer item on every branch.  A sign is never accepted, although
    the lexer makes an integer of it.  Digits that do not fit an [int64] are
    out of range; with a known suffix the number is multiplied in 64 bits and
    may wrap around; with another run of letters, such as [kbb], the value
    is dropped without an error. *)
Theorem integer_item (p : parser F T) (d suf : bytes) :
  d <> [] -> forallb is_digit d = true -> forallb letter suf = true ->
  process_integer digitTable p ("-"%char :: d ++ suf) =
    fail (bs "Expected integer, but got '" ++ ("-"%char :: d ++ suf) ++ bs "'.") /\
  process_integer digitTable p (d ++ suf) =
    if decide (2 ^ 63 <= dec_value d)%Z then fail (bs "Integer '" ++ (d ++ suf) ++ bs "' is out of the range.")
    else match suffix_factor suf with
         | Some f => setValue p (VInt (wrap64 (dec_value d * f)))
         | None => inl p
         end.
Proof.
  intros Hne Hd Hl. split; [apply process_integer_negative|].
  destruct (letters_plain suf Hl) as (Ha & Hn & El). by rewrite process_integer_digits, El.
Qed.

(** A key whose value is missing at the end of the configuration makes
    the lexer index its input out of range: the server panics instead of
    reporting an error. *)
Theorem missing_value_panics depth fp : parse (S depth) (bs "foo =") fp = inr PPanic.
Proof. vm_compute. reflexivity. Qed.

(** A value that is missing in a map is not an error: the end of the map
    is taken for the value, and the map is stored under the inner key, while
    the outer key is lost. *)
Theorem missing_map_value_misplaced depth fp :
  parse (S depth) (bs "foo { bar = }") fp = inl {[ bs "bar" := VMap ∅ ]}.
Proof. vm_compute. reflexivity. Qed.
End conf.

(** A configuration with a comment, numbers, strings, a map and an array. *)
Definition sample_text : bytes :=
  bs "# server" ++ [LF] ++ bs "port: 4222; max = 2kb # bytes" ++ [LF] ++
  bs "auth {" ++ [LF] ++ bs " user = 'derek', on: true, ids [1, 'x' ]" ++ [LF] ++ bs "}".

Definition sample_entries : list (bytes * value unit unit) :=
  [(bs "port", VInt 4222); (bs "max", VInt 2048);
   (bs "auth", VMap (entries_map ∅ [(bs "user", VString (bs "derek")); (bs "on", VBool true);
                                    (bs "ids", VArray [VInt 1; VString (bs "x")])]))].

Ltac solve_in := apply (bool_decide_unpack _); vm_compute; exact I.
Ltac solve_bare := apply key_bare; [done|repeat constructor|vm_compute; congruence].
Ltac solve_comment := repeat (constructor; [solve_in|]); constructor.

Lemma sample_int d suf f : (suf, f) ∈ suffixes -> bool_decide (d <> []) && forallb is_digit d = true ->
  (dec_value d * f < 2 ^ 63)%Z -> renders (F := unit) (T := unit) (VInt (dec_value d * f)) (d ++ suf).
Proof. intros Hs Hd. apply andb_true_iff in Hd as [Hne%bool_decide_eq_true Hd]. by apply renders_int. Qed.

Lemma sample_renders : renders_top sample_entries sample_text.
Proof.
  apply (top_cons (bs "# server" ++ [LF]) (bs "port") (bs "port") (bs ": ") (VInt (4222 * 1)) (bs "4222" ++ []) [] (bs ";")
    [_; _] (bs " max = 2kb # bytes" ++ [LF] ++
            bs "auth {" ++ [LF] ++ bs " user = 'derek', on: true, ids [1, 'x' ]" ++ [LF] ++ bs "}")).
  - apply (gap_comment (bs " server")); [solve_comment|constructor].
  - solve_bare.
  - apply (sep_sign [] ":"%char (bs " ")); [done|solve_in|done].
  - apply (sample_int (bs "4222")); [solve_in|done|done].
  - done.
  - constructor. solve_in.
  - apply (top_cons (bs " ") (bs "max") (bs "max") (bs " = ") (VInt (2 * 1024)) (bs "2" ++ bs "kb") []
      (bs " # bytes" ++ [LF]) [_]
      (bs "auth {" ++ [LF] ++ bs " user = 'derek', on: true, ids [1, 'x' ]" ++ [LF] ++ bs "}")).
    + constructor; [done|constructor].
    + solve_bare.
    + apply (sep_sign (bs " ") "="%char (bs " ")); [done|solve_in|done].
    + apply (sample_int (bs "2") (bs "kb")); [solve_in|done|done].
    + done.
    + apply (end_comment SPC (bs " bytes")); [done|solve_comment].
    + apply (top_last [] (bs "auth") (bs "auth") (bs " ") _
        ("{"%char :: ([LF] ++ bs " user = 'derek', on: true, ids [1, 'x' ]" ++ [LF]) ++ bs "}") []);
        [constructor|solve_bare|by constructor| |done]. apply renders_map.
      apply (entries_cons ([LF] ++ bs " ") (bs "user") (bs "user") (bs " = ") (VString (bs "derek")) (bs "'derek'") [] ","%char
        [_; _] (bs " on: true, ids [1, 'x' ]" ++ [LF])).
      * repeat (constructor; [done|]). constructor.
      * solve_bare.
      * apply (sep_sign (bs " ") "="%char (bs " ")); [done|solve_in|done].
      * apply (renders_string SQ (bs "derek")); solve_in.
      * done.
      * solve_in.
      * apply (entries_cons (bs " ") (bs "on") (bs "on") (bs ": ") (VBool true) (bs "true") [] ","%char
          [_] (bs " ids [1, 'x' ]" ++ [LF])).
        -- repeat (constructor; [done|]). constructor.
        -- solve_bare.
        -- apply (sep_sign [] ":"%char (bs " ")); [done|solve_in|done].
        -- apply renders_bool. solve_in.
        -- done.
        -- solve_in.
        -- apply (entries_cons (bs " ") (bs "ids") (bs "ids") (bs " ") _
             ("["%char :: bs "1, 'x' " ++ bs "]") [] LF [] []);
             [by repeat constructor|solve_bare|by constructor| |done|solve_in|by repeat constructor].
           apply renders_array.
           apply (elems_cons [] (VInt (1 * 1)) (bs "1" ++ []) [] ","%char [_] (bs " 'x' "));
             [constructor|by apply (sample_int (bs "1")); [solve_in|..]|done|solve_in|].
           apply (elems_last (bs " ") (VString (bs "x")) (bs "'x'") (bs " "));
             [by repeat constructor|by apply (renders_string SQ (bs "x")); solve_in|done].
Qed.

(** The sample is read as its entries. *)
Lemma parse_rendering_witness :
  conf_parse (fun _ => false) (fun _ => inr false) (fun _ => None) (fun _ => None) (fun _ => inr []) (fun a _ => a) (fun a => a)
    1 sample_text [] = inl (entries_map ∅ sample_entries).
Proof. apply (parse_rendering (F := unit) (T := unit) _ _ _ _ _ _ _ 0 [] sample_entries sample_text), sample_renders. Defined.

(** The number 5kbb, of which nothing is left, and -5kbb, which is refused. *)
Lemma integer_item_witness :
  process_integer (F := unit) (T := unit) (fun _ => false) (Parser [CMap ∅] [bs "k"]) (bs "5" ++ bs "kbb") =
    inl (Parser [CMap ∅] [bs "k"]).
Proof. apply (integer_item (fun _ => false) (Parser [CMap ∅] [bs "k"]) (bs "5") (bs "kbb")); [done|reflexivity..]. Defined.
