(* ===== verification/Options.v ===== *)
(** * Options: from a configuration to the options of the server

    [src/server/opts.go], with the defaults of [const.go], the tables of
    [ciphersuites_1.8.go] and the functions of [src/main.go] that turn flags
    and a configuration file into what the server runs with.

    The values are those that [ConfParse] produces.  Go visits the entries of
    a map in an order of its own at every loop, so the order is a parameter,
    [range], of the place of the map in the configuration.  A failed type
    assertion is a run-time panic.  The code assigns to fields of a struct as
    it goes and returns the struct only when no entry fails; here an entry
    yields the assignments that it makes, and [Assign] says how the struct
    takes them.

    Files, X.509, URLs, interfaces of the machine, floats and the formatting
    of values in error texts are the parameter [Env]. *)

From S2P Require Import Util Subject Parser Lex ConfParse Client Auth Prelude.
From coqutil Require Import Datatypes.RecordSetters.
Import DoubleBraceUpdate.

(** ** Strings and addresses *)

(** [strings.ToLower], compared with ASCII words only: besides the letters of
    ASCII, U+0130 becomes [i] and U+212A becomes [k]. *)
Fixpoint lower_key (s : bytes) : bytes :=
  match s with
  | b :: s1 =>
      match s1 with
      | c :: s2 =>
          if decide (bval b = 196 /\ bval c = 176)%Z then "i"%char :: lower_key s2
          else match s2 with
               | d :: s3 =>
                   if decide (bval b = 226 /\ bval c = 132 /\ bval d = 170)%Z then "k"%char :: lower_key s3
                   else lower b :: lower_key s1
               | [] => lower b :: lower_key s1
               end
      | [] => [lower b]
      end
  | [] => []
  end.

(** The first index of a byte, and the last. *)
Definition index_byte (b : byte) (s : bytes) : option nat := fst <$> list_find (b =.) s.
Definition last_index_byte (b : byte) (s : bytes) : option nat :=
  (fun i => length s - 1 - i) <$> index_byte b (reverse s).

(** [net.SplitHostPort]; [None] is an error. *)
Definition SplitHostPort (hostport : bytes) : option (bytes * bytes) :=
  i ← last_index_byte ":" hostport;
  '(host, j, k) ← (
    if decide (head hostport = Some "["%char) then
      e ← index_byte "]" hostport;
      if decide (e + 1 = i) then Some (take (e - 1) (drop 1 hostport), 1, e + 1) else None
    else
      let host := take i hostport in
      match index_byte ":" host with Some _ => None | None => Some (host, 0, 0) end);
  match index_byte "[" (drop j hostport), index_byte "]" (drop k hostport) with
  | None, None => Some (host, drop (i + 1) hostport)
  | _, _ => None
  end.

(** [strconv.Atoi]. *)
Definition Atoi (s : bytes) : option Z :=
  let '(neg, digits) := match s with
    | "-"%char :: d => (true, d)
    | "+"%char :: d => (false, d)
    | d => (false, d)
    end in
  if bool_decide (digits <> []) && forallb is_digit digits then
    let n := if neg : bool then (- dec_value digits)%Z else dec_value digits in
    if decide (in_int64 n) then Some n else None
  else None.

(** [strings.Split(s, ",")]. *)
Fixpoint split_comma (cur s : bytes) : list bytes :=
  match s with
  | [] => [cur]
  | b :: s' => if decide (b = ","%char) then cur :: split_comma [] s' else split_comma (cur ++ [b]) s'
  end.

(** ** Ciphers and curves *)

Definition cipherMap : list (bytes * Z) :=
  [(bs "TLS_RSA_WITH_RC4_128_SHA", 0x0005); (bs "TLS_RSA_WITH_3DES_EDE_CBC_SHA", 0x000a);
   (bs "TLS_RSA_WITH_AES_128_CBC_SHA", 0x002f); (bs "TLS_RSA_WITH_AES_128_CBC_SHA256", 0x003c);
   (bs "TLS_RSA_WITH_AES_256_CBC_SHA", 0x0035); (bs "TLS_RSA_WITH_AES_256_GCM_SHA384", 0x009d);
   (bs "TLS_ECDHE_ECDSA_WITH_RC4_128_SHA", 0xc007); (bs "TLS_ECDHE_ECDSA_WITH_AES_128_CBC_SHA", 0xc009);
   (bs "TLS_ECDHE_ECDSA_WITH_AES_256_CBC_SHA", 0xc00a); (bs "TLS_ECDHE_RSA_WITH_RC4_128_SHA", 0xc011);
   (bs "TLS_ECDHE_RSA_WITH_3DES_EDE_CBC_SHA", 0xc012); (bs "TLS_ECDHE_RSA_WITH_AES_128_CBC_SHA", 0xc013);
   (bs "TLS_ECDHE_RSA_WITH_AES_128_CBC_SHA256", 0xc027); (bs "TLS_ECDHE_ECDSA_WITH_AES_128_CBC_SHA256", 0xc023);
   (bs "TLS_ECDHE_RSA_WITH_AES_256_CBC_SHA", 0xc014); (bs "TLS_ECDHE_RSA_WITH_AES_128_GCM_SHA256", 0xc02f);
   (bs "TLS_ECDHE_ECDSA_WITH_AES_128_GCM_SHA256", 0xc02b); (bs "TLS_ECDHE_RSA_WITH_AES_256_GCM_SHA384", 0xc030);
   (bs "TLS_ECDHE_ECDSA_WITH_AES_256_GCM_SHA384", 0xc02c); (bs "TLS_ECDHE_RSA_WITH_CHACHA20_POLY1305", 0xcca8);
   (bs "TLS_ECDHE_ECDSA_WITH_CHACHA20_POLY1305", 0xcca9)]%Z.

Definition defaultCipherSuites : list Z := [0xcca9; 0xcca8; 0xc02c; 0xc02b; 0xc030; 0xc02f]%Z.

Definition curvePreferenceMap : list (bytes * Z) :=
  [(bs "CurveP256", 23); (bs "CurveP384", 24); (bs "CurveP521", 25); (bs "X25519", 29)]%Z.

Definition defaultCurvePreferences : list Z := [25; 24; 29; 23]%Z.

Definition assoc_find {A} (k : bytes) (l : list (bytes * A)) : option A :=
  snd ∘ snd <$> list_find (fun kv => kv.1 = k) l.

Definition parseCipher (cipherName : bytes) : outcome Z :=
  match assoc_find cipherName cipherMap with
  | Some cipher => Ok cipher
  | None => Fail (bs "Unrecognized cipher " ++ cipherName)
  end.

Definition parseCurvePreferences (curveName : bytes) : outcome Z :=
  match assoc_find curveName curvePreferenceMap with
  | Some curve => Ok curve
  | None => Fail (bs "Unrecognized curve preference " ++ curveName)
  end.

(** ** Structs that are filled by assignments *)

(** [assign a s] performs an assignment to the field [target a]; assignments
    to different fields commute. *)
Class Assign (A S : Type) := {
  assign : A -> S -> S;
  target : A -> nat;
  assign_comm a b s : target a <> target b -> assign a (assign b s) = assign b (assign a s);
}.

Definition assigns {A S} `{Assign A S} (s : S) (l : list A) : S := foldl (flip assign) s l.

(** A URL, as far as the options read it: [u_user] is the user name and the
    password, when there is one. *)
Record URL := MkURL { u_host : bytes; u_user : option (bytes * option bytes); u_text : bytes }.

(** What the code takes from outside: floats; the formatting of strings ([%q])
    and of values ([%v], [%T]); key pairs, certificates, files and pools (on
    the right the text of an error); URLs; [strings.TrimSpace]; the addresses
    of the machine and of names; the text of an address error; [fmt.Sscan]
    into an integer. *)
Class Env (F T Cert Pool IP : Type) := {
  float64 : Z -> F;
  fdiv : F -> F -> F;
  fzero : F -> bool;
  fmt_q : bytes -> bytes;
  fmt_v : value F T -> bytes;
  fmt_T : value F T -> bytes;
  LoadX509KeyPair : bytes -> bytes -> Cert + bytes;
  ParseCertificate : Cert -> Cert + bytes;
  ReadFile : bytes -> bytes + bytes;
  AppendCertsFromPEM : bytes -> option Pool;
  url_Parse : bytes -> URL + bytes;
  strings_TrimSpace : bytes -> bytes;
  InterfaceAddrs : option (list bytes);
  ParseCIDR : bytes -> option IP;
  ParseIP : bytes -> option IP;
  LookupHost : bytes -> option (list bytes);
  IP_Equal : IP -> IP -> bool;
  addr_error : bytes -> bytes;
  Sscan : bytes -> Z + bytes;
}.

Section options.
Context {F T Cert Pool IP : Type} `{E : !Env F T Cert Pool IP}.

Abbreviation value := (@value F T).

(** ** The structs *)

Inductive ClientAuthType := NoClientCert | RequireAndVerifyClientCert.

(** The fields of [tls.Config] that the code sets. *)
Record tlsConfig := TlsConfig {
  t_CurvePreferences : list Z;
  t_Certificates : list Cert;
  t_CipherSuites : list Z;
  t_ClientAuth : ClientAuthType;
  t_ClientCAs : option Pool;
  t_RootCAs : option Pool;
}.

Record ClusterOpts := MkClusterOpts {
  cl_Host : bytes;
  cl_Port : Z;
  cl_Username : bytes;
  cl_Password : bytes;
  cl_AuthTimeout : F;
  cl_TLSTimeout : F;
  cl_TLSConfig : option tlsConfig;
  cl_ListenStr : bytes;
  cl_NoAdvertise : bool;
  cl_ConnectRetries : Z;
}.

(** [InternalCli], [NoLog] and [NoSigs] are set by programs that embed the
    server, not by its configuration. *)
Record Options := MkOptions {
  op_Host : bytes;
  op_Port : Z;
  op_Trace : bool;
  op_Debug : bool;
  op_Logtime : bool;
  op_MaxConn : Z;
  op_Users : option (list User);
  op_Username : bytes;
  op_Password : bytes;
  op_Authorization : bytes;
  op_PingInterval : Z;
  op_MaxPingsOut : Z;
  op_HTTPHost : bytes;
  op_HTTPPort : Z;
  op_HTTPSPort : Z;
  op_AuthTimeout : F;
  op_MaxControlLine : Z;
  op_MaxPayload : Z;
  op_Cluster : ClusterOpts;
  op_ProfPort : Z;
  op_PidFile : bytes;
  op_LogFile : bytes;
  op_Syslog : bool;
  op_RemoteSyslog : bytes;
  op_Routes : option (list (option URL));
  op_RoutesStr : bytes;
  op_TLSTimeout : F;
  op_TLS : bool;
  op_TLSVerify : bool;
  op_TLSCert : bytes;
  op_TLSKey : bytes;
  op_TLSCaCert : bytes;
  op_TLSConfig : option tlsConfig;
  op_WriteDeadline : Z;
  op_HealthAgent : bool;
  op_HealthRank : Z;
  op_HealthLease : Z;
  op_HealthBeat : Z;
}.

Record authorization := MkAuthorization {
  au_user : bytes;
  au_pass : bytes;
  au_users : option (list User);
  au_timeout : F;
  au_defaultPermissions : option (list bytes * list bytes);
}.

Record TLSConfigOpts := MkTLSConfigOpts {
  tc_CertFile : bytes;
  tc_KeyFile : bytes;
  tc_CaFile : bytes;
  tc_Verify : bool;
  tc_Timeout : F;
  tc_Ciphers : option (list Z);
  tc_CurvePreferences : option (list Z);
}.

(** The zero values. *)
Definition ClusterOpts_zero : ClusterOpts :=
  MkClusterOpts [] 0 [] [] (float64 0) (float64 0) None [] false 0.

Definition Options_zero : Options :=
  MkOptions [] 0 false false false 0 None [] [] [] 0 0 [] 0 0 (float64 0) 0 0 ClusterOpts_zero
    0 [] [] false [] None [] (float64 0) false false [] [] [] None 0 false 0 0 0.

(** ** Type assertions *)

Definition as_int64 (v : value) : outcome Z := match v with VInt n => Ok n | _ => Panic end.
Definition as_string (v : value) : outcome bytes := match v with VString s => Ok s | _ => Panic end.
Definition as_bool (v : value) : outcome bool := match v with VBool b => Ok b | _ => Panic end.
Definition as_map (v : value) : outcome (gmap bytes value) := match v with VMap m => Ok m | _ => Panic end.
Definition as_array (v : value) : outcome (list value) := match v with VArray l => Ok l | _ => Panic end.
(** No value of a configuration is a [time.Duration]. *)
Definition as_duration (v : value) : outcome Z := Panic.

(** ** Loops *)

(** The place of a map in the configuration: the keys and array positions on
    the way to it, innermost first. *)
Abbreviation site := (list (bytes + nat)).

Context (range : site -> gmap bytes value -> list (bytes * value)).

(** [for k, v := range m { switch ... }]. *)
Fixpoint range_loop {A S} `{Assign A S} (entry : bytes -> value -> outcome (list A))
    (l : list (bytes * value)) (s : S) : outcome S :=
  match l with
  | [] => Ok s
  | (k, v) :: l' => a ← entry k v; range_loop entry l' (assigns s a)
  end.

Definition key_in (k : bytes) (names : list bytes) : bool := bool_decide (lower_key k ∈ names).

(** ** Subjects and permissions *)

Definition checkSubjectArray (sa : list bytes) : outcome (list bytes) :=
  traverse (fun s => if IsValidSubject s then Ok s
                     else Fail (bs "Subject " ++ fmt_q s ++ bs " is not a valid subject")) sa.

Definition parseSubjects (v : value) : outcome (list bytes) :=
  subjects ← (match v with
    | VString s => Ok [s]
    | VArray l => traverse (fun i => match i with
        | VString s => Ok s
        | _ => Fail (bs "Subject in permissions array cannot be cast to string")
        end) l
    | _ => Fail (bs "Expected subject permissions to be a subject, or array of subjects, got " ++ fmt_T v)
    end);
  checkSubjectArray subjects.

Inductive perm_assign := PaPublish (l : list bytes) | PaSubscribe (l : list bytes).

#[global] Program Instance perm_Assign : Assign perm_assign (list bytes * list bytes) := {|
  assign a p := match a with PaPublish l => (l, p.2) | PaSubscribe l => (p.1, l) end;
  target a := match a with PaPublish _ => 0 | PaSubscribe _ => 1 end;
|}.
Next Obligation. by intros [] [] [] H. Qed.

Definition perm_entry (k : bytes) (v : value) : outcome (list perm_assign) :=
  if key_in k [bs "pub"; bs "publish"] then subjects ← parseSubjects v; Ok [PaPublish subjects]
  else if key_in k [bs "sub"; bs "subscribe"] then subjects ← parseSubjects v; Ok [PaSubscribe subjects]
  else Fail (bs "Unknown field " ++ k ++ bs " parsing permissions").

Definition parseUserPermissions (at_ : site) (pm : gmap bytes value) : outcome (list bytes * list bytes) :=
  range_loop perm_entry (range at_ pm) ([], []).

(** ** Users *)

Inductive user_assign :=
| UaUsername (s : bytes)
| UaPassword (s : bytes)
| UaPermissions (p : list bytes * list bytes).

#[global] Program Instance user_Assign : Assign user_assign User := {|
  assign a u := match a with
    | UaUsername s => MkUser s (u_password u) (u_permissions u)
    | UaPassword s => MkUser (u_username u) s (u_permissions u)
    | UaPermissions p => MkUser (u_username u) (u_password u) (Some p)
    end;
  target a := match a with UaUsername _ => 0 | UaPassword _ => 1 | UaPermissions _ => 2 end;
|}.
Next Obligation. by intros [] [] [] H. Qed.

Definition user_entry (at_ : site) (k : bytes) (v : value) : outcome (list user_assign) :=
  if key_in k [bs "user"; bs "username"] then s ← as_string v; Ok [UaUsername s]
  else if key_in k [bs "pass"; bs "password"] then s ← as_string v; Ok [UaPassword s]
  else if key_in k [bs "permission"; bs "permissions"; bs "authroization"] then
    match v with
    | VMap pm => p ← parseUserPermissions (inl k :: at_) pm; Ok [UaPermissions p]
    | _ => Fail (bs "Expected user permissions to be a map/struct, got " ++ fmt_v v)
    end
  else Ok [].

(** One round of the loop of [parseUsers]. *)
Definition parse_user (at_ : site) (u : value) : outcome User :=
  match u with
  | VMap um =>
      user ← range_loop (user_entry at_) (range at_ um) (MkUser [] [] None);
      if decide (u_username user = [] \/ u_password user = [])
      then Fail (bs "User entry requires a user and a password") else Ok user
  | _ => Fail (bs "Expected user entry to be a map/struct, got " ++ fmt_v u)
  end.

Definition parseUsers (at_ : site) (mv : value) : outcome (list User) :=
  match mv with
  | VArray uv => traverse (fun iu => parse_user (inr iu.1 :: at_) iu.2) (imap pair uv)
  | _ => Fail (bs "Expected users field to be an array, got " ++ fmt_v mv)
  end.

(** ** Authorization *)

(** [timeout]: an integer, a float, or the default. *)
Definition timeout_of (dflt : Z) (v : value) : F :=
  match v with VInt n => float64 n | VFloat f => f | _ => float64 dflt end.

Inductive auth_assign :=
| AaUser (s : bytes)
| AaPass (s : bytes)
| AaTimeout (f : F)
| AaUsers (l : list User)
| AaDefault (p : list bytes * list bytes).

Definition auth_set (a : auth_assign) (au : authorization) : authorization :=
  match a with
  | AaUser s => au {{ au_user := s }}
  | AaPass s => au {{ au_pass := s }}
  | AaTimeout f => au {{ au_timeout := f }}
  | AaUsers l => au {{ au_users := Some l }}
  | AaDefault p => au {{ au_defaultPermissions := Some p }}
  end.

Definition auth_entry (at_ : site) (k : bytes) (v : value) : outcome (option auth_assign) :=
  if key_in k [bs "user"; bs "username"] then s ← as_string v; Ok (Some (AaUser s))
  else if key_in k [bs "pass"; bs "password"] then s ← as_string v; Ok (Some (AaPass s))
  else if key_in k [bs "timeout"] then Ok (Some (AaTimeout (timeout_of 1 v)))
  else if key_in k [bs "users"] then users ← parseUsers (inl k :: at_) v; Ok (Some (AaUsers users))
  else if key_in k [bs "default_permission"; bs "default_permissions"] then
    match v with
    | VMap pm => p ← parseUserPermissions (inl k :: at_) pm; Ok (Some (AaDefault p))
    | _ => Fail (bs "Expected default permissions to be a map/struct, got " ++ fmt_v v)
    end
  else Ok None.

Definition fill_user (p : list bytes * list bytes) (u : User) : User :=
  match u_permissions u with
  | None => MkUser (u_username u) (u_password u) (Some p)
  | Some _ => u
  end.

(** The defaults are filled in at the end of every round. *)
Definition fill_defaults (au : authorization) : authorization :=
  match au_users au, au_defaultPermissions au with
  | Some users, Some p => au {{ au_users := Some (fill_user p <$> users) }}
  | _, _ => au
  end.

Fixpoint auth_loop (at_ : site) (l : list (bytes * value)) (au : authorization) : outcome authorization :=
  match l with
  | [] => Ok au
  | (k, v) :: l' =>
      a ← auth_entry at_ k v;
      auth_loop at_ l' (fill_defaults (match a with Some a => auth_set a au | None => au end))
  end.

Definition parseAuthorization (at_ : site) (am : gmap bytes value) : outcome authorization :=
  auth_loop at_ (range at_ am) (MkAuthorization [] [] None (float64 0) None).

(** ** TLS *)

Inductive tls_assign :=
| TaCertFile (s : bytes)
| TaKeyFile (s : bytes)
| TaCaFile (s : bytes)
| TaVerify (b : bool)
| TaCiphers (l : list Z)
| TaCurvePreferences (l : list Z)
| TaTimeout (f : F).

#[global] Program Instance tls_Assign : Assign tls_assign TLSConfigOpts := {|
  assign a tc := match a with
    | TaCertFile s => tc {{ tc_CertFile := s }}
    | TaKeyFile s => tc {{ tc_KeyFile := s }}
    | TaCaFile s => tc {{ tc_CaFile := s }}
    | TaVerify b => tc {{ tc_Verify := b }}
    | TaCiphers l => tc {{ tc_Ciphers := Some l }}
    | TaCurvePreferences l => tc {{ tc_CurvePreferences := Some l }}
    | TaTimeout f => tc {{ tc_Timeout := f }}
    end;
  target a := match a with
    | TaCertFile _ => 0 | TaKeyFile _ => 1 | TaCaFile _ => 2 | TaVerify _ => 3
    | TaCiphers _ => 4 | TaCurvePreferences _ => 5 | TaTimeout _ => 6
    end;
|}.
Next Obligation. by intros [] [] [] H. Qed.

Definition tls_expected (field what : string) : bytes :=
  bs "error parsing tls config, expected '" ++ bs field ++ bs "' to be " ++ bs what.

Definition tls_file (field : string) (mk : bytes -> tls_assign) (v : value) : outcome (list tls_assign) :=
  match v with VString s => Ok [mk s] | _ => Fail (tls_expected field "filename") end.

Definition tls_list (field : string) (parse : bytes -> outcome Z) (mk : list Z -> tls_assign) (v : value) :
    outcome (list tls_assign) :=
  ra ← as_array v;
  if decide (length ra = 0) then Fail (bs "error parsing tls config, '" ++ bs field ++ bs "' cannot be empty")
  else l ← traverse (fun r => s ← as_string r; parse s) ra; Ok [mk l].

Definition tls_entry (k : bytes) (v : value) : outcome (list tls_assign) :=
  if key_in k [bs "cert_file"] then tls_file "cert_file" TaCertFile v
  else if key_in k [bs "key_file"] then tls_file "key_file" TaKeyFile v
  else if key_in k [bs "ca_file"] then tls_file "ca_file" TaCaFile v
  else if key_in k [bs "verify"] then
    match v with VBool b => Ok [TaVerify b] | _ => Fail (tls_expected "verify" "a boolean") end
  else if key_in k [bs "cipher_suites"] then tls_list "cipher_suites" parseCipher TaCiphers v
  else if key_in k [bs "curve_preferences"] then
    tls_list "curve_preferences" parseCurvePreferences TaCurvePreferences v
  else if key_in k [bs "timeout"] then Ok [TaTimeout (timeout_of 0 v)]
  else Fail (bs "error parsing tls config, unknown field [" ++ fmt_q k ++ bs "]").

Definition TLSConfigOpts_zero : TLSConfigOpts := MkTLSConfigOpts [] [] [] false (float64 0) None None.

Definition parseTLS (at_ : site) (tlsm : gmap bytes value) : outcome TLSConfigOpts :=
  tc ← range_loop tls_entry (range at_ tlsm) TLSConfigOpts_zero;
  Ok (tc {{ tc_Ciphers := Some (default defaultCipherSuites (tc_Ciphers tc));
            tc_CurvePreferences := Some (default defaultCurvePreferences (tc_CurvePreferences tc)) }}).

Definition GenTLSConfig (tc : TLSConfigOpts) : outcome tlsConfig :=
  match LoadX509KeyPair (tc_CertFile tc) (tc_KeyFile tc) with
  | inr err => Fail (bs "error parsing X509 certificate/key pair: " ++ err)
  | inl cert =>
      match ParseCertificate cert with
      | inr err => Fail (bs "error parsing certificate: " ++ err)
      | inl cert =>
          let config := TlsConfig (default [] (tc_CurvePreferences tc)) [cert] (default [] (tc_Ciphers tc))
            (if tc_Verify tc then RequireAndVerifyClientCert else NoClientCert) None None in
          if decide (tc_CaFile tc = []) then Ok config
          else
            match ReadFile (tc_CaFile tc) with
            | inr err => Fail err
            | inl rootPEM =>
                match AppendCertsFromPEM rootPEM with
                | None => Fail (bs "failed to parse root ca certificate")
                | Some pool => Ok (config {{ t_ClientCAs := Some pool }})
                end
            end
      end
  end.

(** ** The assignments to the options *)

Inductive opt_assign :=
| SHost (s : bytes) | SPort (n : Z) | SDebug (b : bool) | STrace (b : bool) | SLogtime (b : bool)
| SUsername (s : bytes) | SPassword (s : bytes) | SAuthTimeout (f : F) | SUsers (l : list User)
| SHTTPHost (s : bytes) | SHTTPPort (n : Z) | SHTTPSPort (n : Z)
| SLogFile (s : bytes) | SSyslog (b : bool) | SRemoteSyslog (s : bytes) | SPidFile (s : bytes)
| SProfPort (n : Z) | SMaxControlLine (n : Z) | SMaxPayload (n : Z) | SMaxConn (n : Z)
| SPingInterval (n : Z) | SMaxPingsOut (n : Z)
| SHealthRank (n : Z) | SHealthLease (n : Z) | SHealthBeat (n : Z) | SHealthAgent (b : bool)
| STLSConfig (c : tlsConfig) | STLSTimeout (f : F) | SWriteDeadline (n : Z)
| SRoutes (l : list (option URL))
| SCHost (s : bytes) | SCPort (n : Z) | SCUsername (s : bytes) | SCPassword (s : bytes)
| SCAuthTimeout (f : F) | SCTLSConfig (c : tlsConfig) | SCTLSTimeout (f : F)
| SCNoAdvertise (b : bool) | SCConnectRetries (n : Z).

Definition opt_set (a : opt_assign) (o : Options) : Options :=
  match a with
  | SHost s => o {{ op_Host := s }}
  | SPort n => o {{ op_Port := n }}
  | SDebug b => o {{ op_Debug := b }}
  | STrace b => o {{ op_Trace := b }}
  | SLogtime b => o {{ op_Logtime := b }}
  | SUsername s => o {{ op_Username := s }}
  | SPassword s => o {{ op_Password := s }}
  | SAuthTimeout f => o {{ op_AuthTimeout := f }}
  | SUsers l => o {{ op_Users := Some l }}
  | SHTTPHost s => o {{ op_HTTPHost := s }}
  | SHTTPPort n => o {{ op_HTTPPort := n }}
  | SHTTPSPort n => o {{ op_HTTPSPort := n }}
  | SLogFile s => o {{ op_LogFile := s }}
  | SSyslog b => o {{ op_Syslog := b }}
  | SRemoteSyslog s => o {{ op_RemoteSyslog := s }}
  | SPidFile s => o {{ op_PidFile := s }}
  | SProfPort n => o {{ op_ProfPort := n }}
  | SMaxControlLine n => o {{ op_MaxControlLine := n }}
  | SMaxPayload n => o {{ op_MaxPayload := n }}
  | SMaxConn n => o {{ op_MaxConn := n }}
  | SPingInterval n => o {{ op_PingInterval := n }}
  | SMaxPingsOut n => o {{ op_MaxPingsOut := n }}
  | SHealthRank n => o {{ op_HealthRank := n }}
  | SHealthLease n => o {{ op_HealthLease := n }}
  | SHealthBeat n => o {{ op_HealthBeat := n }}
  | SHealthAgent b => o {{ op_HealthAgent := b }}
  | STLSConfig c => o {{ op_TLSConfig := Some c }}
  | STLSTimeout f => o {{ op_TLSTimeout := f }}
  | SWriteDeadline n => o {{ op_WriteDeadline := n }}
  | SRoutes l => o {{ op_Routes := Some l }}
  | SCHost s => o {{ op_Cluster->cl_Host := s }}
  | SCPort n => o {{ op_Cluster->cl_Port := n }}
  | SCUsername s => o {{ op_Cluster->cl_Username := s }}
  | SCPassword s => o {{ op_Cluster->cl_Password := s }}
  | SCAuthTimeout f => o {{ op_Cluster->cl_AuthTimeout := f }}
  | SCTLSConfig c => o {{ op_Cluster->cl_TLSConfig := Some c }}
  | SCTLSTimeout f => o {{ op_Cluster->cl_TLSTimeout := f }}
  | SCNoAdvertise b => o {{ op_Cluster->cl_NoAdvertise := b }}
  | SCConnectRetries n => o {{ op_Cluster->cl_ConnectRetries := n }}
  end.

(** The number of the field. *)
Definition opt_target (a : opt_assign) : nat :=
  match a with
  | SHost _ => 0 | SPort _ => 1 | SDebug _ => 2 | STrace _ => 3 | SLogtime _ => 4
  | SUsername _ => 5 | SPassword _ => 6 | SAuthTimeout _ => 7 | SUsers _ => 8
  | SHTTPHost _ => 9 | SHTTPPort _ => 10 | SHTTPSPort _ => 11
  | SLogFile _ => 12 | SSyslog _ => 13 | SRemoteSyslog _ => 14 | SPidFile _ => 15
  | SProfPort _ => 16 | SMaxControlLine _ => 17 | SMaxPayload _ => 18 | SMaxConn _ => 19
  | SPingInterval _ => 20 | SMaxPingsOut _ => 21
  | SHealthRank _ => 22 | SHealthLease _ => 23 | SHealthBeat _ => 24 | SHealthAgent _ => 25
  | STLSConfig _ => 26 | STLSTimeout _ => 27 | SWriteDeadline _ => 28 | SRoutes _ => 29
  | SCHost _ => 30 | SCPort _ => 31 | SCUsername _ => 32 | SCPassword _ => 33
  | SCAuthTimeout _ => 34 | SCTLSConfig _ => 35 | SCTLSTimeout _ => 36
  | SCNoAdvertise _ => 37 | SCConnectRetries _ => 38
  end.

#[global] Program Instance opt_Assign : Assign opt_assign Options := {| assign := opt_set; target := opt_target |}.
Next Obligation. intros a b o H. destruct a, b; first [done | by destruct H]. Qed.

(** ** [parseListen] *)

Record hostPort := HostPort { hp_host : bytes; hp_port : Z }.

Definition parseListen (v : value) : outcome hostPort :=
  match v with
  | VInt n => Ok (HostPort [] n)
  | VString s =>
      match SplitHostPort s with
      | None => Fail (bs "Could not parse address string " ++ fmt_q s)
      | Some (host, port) =>
          match Atoi port with
          | None => Fail (bs "Could not parse port " ++ fmt_q port)
          | Some n => Ok (HostPort host n)
          end
      end
  | _ => Ok (HostPort [] 0)
  end.

(** ** [parseCluster] *)

Definition parse_route (r : value) : outcome (option URL) :=
  routeURL ← as_string r;
  match url_Parse routeURL with
  | inl url => Ok (Some url)
  | inr _ => Fail (bs "error parsing route url [" ++ fmt_q routeURL ++ bs "]")
  end.

(** The TLS of a cluster verifies strictly and mirrors its pool. *)
Definition cluster_tls (c : tlsConfig) : tlsConfig :=
  c {{ t_ClientAuth := RequireAndVerifyClientCert; t_RootCAs := t_ClientCAs c }}.

Definition cluster_entry (at_ : site) (k : bytes) (v : value) : outcome (list opt_assign) :=
  if key_in k [bs "listen"] then hp ← parseListen v; Ok [SCHost (hp_host hp); SCPort (hp_port hp)]
  else if key_in k [bs "port"] then n ← as_int64 v; Ok [SCPort n]
  else if key_in k [bs "host"; bs "net"] then s ← as_string v; Ok [SCHost s]
  else if key_in k [bs "authorization"] then
    am ← as_map v;
    auth ← parseAuthorization (inl k :: at_) am;
    match au_users auth with
    | Some _ => Fail (bs "Cluster authorization does not allow multiple users")
    | None => Ok [SCUsername (au_user auth); SCPassword (au_pass auth); SCAuthTimeout (au_timeout auth)]
    end
  else if key_in k [bs "routes"] then
    ra ← as_array v; urls ← traverse parse_route ra; Ok [SRoutes urls]
  else if key_in k [bs "tls"] then
    tlsm ← as_map v;
    tc ← parseTLS (inl k :: at_) tlsm;
    c ← GenTLSConfig tc;
    Ok [SCTLSConfig (cluster_tls c); SCTLSTimeout (tc_Timeout tc)]
  else if key_in k [bs "no_advertise"] then b ← as_bool v; Ok [SCNoAdvertise b]
  else if key_in k [bs "connect_retries"] then n ← as_int64 v; Ok [SCConnectRetries n]
  else Ok [].

(** The assignments of [parseCluster]; those of an entry that fails, and what
    was assigned before, are lost with the options. *)
Definition parseCluster (at_ : site) (cm : gmap bytes value) : outcome (list opt_assign) :=
  l ← traverse (fun kv => cluster_entry at_ kv.1 kv.2) (range at_ cm);
  Ok (concat l).

(** ** [ProcessConfigFile] *)

Definition time_Second : Z := 1000000000.

(** [time.Duration(n) * time.Second]. *)
Definition seconds (n : Z) : Z := wrap64 (n * time_Second).

Definition authorization_assigns (auth : authorization) : outcome (list opt_assign) :=
  let base := [SUsername (au_user auth); SPassword (au_pass auth); SAuthTimeout (au_timeout auth)] in
  match au_users auth with
  | None => Ok base
  | Some users =>
      if decide (au_user auth <> []) then Fail (bs "Can not have a single user/pass and a users array")
      else Ok (base ++ [SUsers users])
  end.

Definition config_entry (at_ : site) (k : bytes) (v : value) : outcome (list opt_assign) :=
  let int (mk : Z -> opt_assign) := n ← as_int64 v; Ok [mk n] in
  let str (mk : bytes -> opt_assign) := s ← as_string v; Ok [mk s] in
  let bln (mk : bool -> opt_assign) := b ← as_bool v; Ok [mk b] in
  if key_in k [bs "listen"] then hp ← parseListen v; Ok [SHost (hp_host hp); SPort (hp_port hp)]
  else if key_in k [bs "port"] then int SPort
  else if key_in k [bs "host"; bs "net"] then str SHost
  else if key_in k [bs "debug"] then bln SDebug
  else if key_in k [bs "trace"] then bln STrace
  else if key_in k [bs "logtime"] then bln SLogtime
  else if key_in k [bs "authorization"] then
    am ← as_map v; auth ← parseAuthorization (inl k :: at_) am; authorization_assigns auth
  else if key_in k [bs "http"] then hp ← parseListen v; Ok [SHTTPHost (hp_host hp); SHTTPPort (hp_port hp)]
  else if key_in k [bs "https"] then hp ← parseListen v; Ok [SHTTPHost (hp_host hp); SHTTPSPort (hp_port hp)]
  else if key_in k [bs "http_port"; bs "monitor_port"] then int SHTTPPort
  else if key_in k [bs "https_port"] then int SHTTPSPort
  else if key_in k [bs "cluster"] then cm ← as_map v; parseCluster (inl k :: at_) cm
  else if key_in k [bs "logfile"; bs "log_file"] then str SLogFile
  else if key_in k [bs "syslog"] then bln SSyslog
  else if key_in k [bs "remote_syslog"] then str SRemoteSyslog
  else if key_in k [bs "pidfile"; bs "pid_file"] then str SPidFile
  else if key_in k [bs "prof_port"] then int SProfPort
  else if key_in k [bs "max_control_line"] then int SMaxControlLine
  else if key_in k [bs "max_payload"] then int SMaxPayload
  else if key_in k [bs "max_connections"; bs "max_conn"] then int SMaxConn
  else if key_in k [bs "ping_interval"] then int (SPingInterval ∘ seconds)
  else if key_in k [bs "ping_max"] then int SMaxPingsOut
  else if key_in k [bs "health_rank"] then int SHealthRank
  else if key_in k [bs "health_lease"] then d ← as_duration v; Ok [SHealthLease d]
  else if key_in k [bs "health_beat"] then d ← as_duration v; Ok [SHealthBeat d]
  else if key_in k [bs "health_agent"] then bln SHealthAgent
  else if key_in k [bs "tls"] then
    tlsm ← as_map v;
    tc ← parseTLS (inl k :: at_) tlsm;
    c ← GenTLSConfig tc;
    Ok [STLSConfig c; STLSTimeout (tc_Timeout tc)]
  else if key_in k [bs "write_deadline"] then int (SWriteDeadline ∘ seconds)
  else Ok [].

(** The loop over the configuration. *)
Definition process_config (m : gmap bytes value) : outcome Options :=
  range_loop (config_entry []) (range [] m) Options_zero.

(** [ParseFile] is what [conf.ParseFile] returns for a file. *)
Definition ProcessConfigFile (ParseFile : bytes -> outcome (gmap bytes value)) (configFile : bytes) : outcome Options :=
  if decide (configFile = []) then Ok Options_zero
  else m ← ParseFile configFile; process_config m.

(** ** Routes *)

(** [strings.Split] never returns an empty slice; the error of [url.Parse] is
    dropped, which leaves a nil URL. *)
Definition RoutesFromStr (routesStr : bytes) : list (option URL) :=
  (fun r => match url_Parse (strings_TrimSpace r) with inl u => Some u | inr _ => None end) <$> split_comma [] routesStr.

Definition mergeRoutes (opts flagOpts : Options) : Options :=
  opts {{ op_Routes := Some (RoutesFromStr (op_RoutesStr flagOpts)); op_RoutesStr := op_RoutesStr flagOpts }}.

Definition getInterfaceIPs : list IP :=
  match InterfaceAddrs with None => [] | Some addrs => omap ParseCIDR addrs end.

Definition getURLIP (ipStr : bytes) : list IP :=
  match ParseIP ipStr with
  | Some ip => [ip]
  | None => match LookupHost ipStr with None => [] | Some addrs => omap ParseIP addrs end
  end.

Definition isIPInList (list1 list2 : list IP) : bool :=
  existsb (fun ip1 => existsb (IP_Equal ip1) list2) list1.

(** A nil URL is dereferenced. *)
Fixpoint remove_self (cport : bytes) (selfIPs : list IP) (routes : list (option URL)) : outcome (list (option URL)) :=
  match routes with
  | [] => Ok []
  | None :: _ => Panic
  | Some r :: routes' =>
      match SplitHostPort (u_host r) with
      | None => Fail (addr_error (u_host r))
      | Some (host, port) =>
          rest ← remove_self cport selfIPs routes';
          if bool_decide (cport = port) && isIPInList selfIPs (getURLIP host) then Ok rest else Ok (Some r :: rest)
      end
  end.

(** The result is nil when nothing remains. *)
Definition RemoveSelfReference (clusterPort : Z) (routes : option (list (option URL))) :
    outcome (option (list (option URL))) :=
  clean ← remove_self (itoa clusterPort) getInterfaceIPs (default [] routes);
  Ok (if decide (length clean = 0) then None else Some clean).

(** ** [MergeOptions] *)

(** Neither pointer is nil where it is called. *)
Definition MergeOptions (fileOpts flagOpts : Options) : Options :=
  let str (s old : bytes) := if decide (s <> []) then s else old in
  let int (n old : Z) := if decide (n <> 0)%Z then n else old in
  let f := flagOpts in
  let o := fileOpts {{
    op_Port := int (op_Port f) (op_Port fileOpts);
    op_Host := str (op_Host f) (op_Host fileOpts);
    op_Username := str (op_Username f) (op_Username fileOpts);
    op_Password := str (op_Password f) (op_Password fileOpts);
    op_Authorization := str (op_Authorization f) (op_Authorization fileOpts);
    op_HTTPPort := int (op_HTTPPort f) (op_HTTPPort fileOpts);
    op_Debug := op_Debug f || op_Debug fileOpts;
    op_Trace := op_Trace f || op_Trace fileOpts;
    op_Logtime := op_Logtime f || op_Logtime fileOpts;
    op_LogFile := str (op_LogFile f) (op_LogFile fileOpts);
    op_PidFile := str (op_PidFile f) (op_PidFile fileOpts);
    op_ProfPort := int (op_ProfPort f) (op_ProfPort fileOpts);
    op_Cluster->cl_ListenStr := str (cl_ListenStr (op_Cluster f)) (cl_ListenStr (op_Cluster fileOpts));
    op_Cluster->cl_NoAdvertise := cl_NoAdvertise (op_Cluster f) || cl_NoAdvertise (op_Cluster fileOpts);
    op_Cluster->cl_ConnectRetries := int (cl_ConnectRetries (op_Cluster f)) (cl_ConnectRetries (op_Cluster fileOpts))
  }} in
  if decide (op_RoutesStr f <> []) then mergeRoutes o f else o.

(** ** [processOptions] *)

Definition DEFAULT_PORT : Z := 4222.
Definition RANDOM_PORT : Z := -1.
Definition DEFAULT_HOST : bytes := bs "0.0.0.0".
Definition MAX_PAYLOAD_SIZE : Z := 1024 * 1024 * 1030.
Definition DEFAULT_MAX_CONNECTIONS : Z := 64 * 1024.
Definition TLS_TIMEOUT : Z := 500 * 1000000.
Definition AUTH_TIMEOUT : Z := 2 * TLS_TIMEOUT.
Definition DEFAULT_PING_INTERVAL : Z := 2 * 60 * time_Second.
Definition DEFAULT_PING_MAX_OUT : Z := 2.
Definition DEFAULT_FLUSH_DEADLINE : Z := 2 * time_Second.

Definition in_seconds (d : Z) : F := fdiv (float64 d) (float64 time_Second).

Definition processOptions (o : Options) : Options :=
  let str (s dflt : bytes) := if decide (s = []) then dflt else s in
  let int (n dflt : Z) := if decide (n = 0)%Z then dflt else n in
  let flt (f : F) (dflt : Z) := if fzero f then in_seconds dflt else f in
  let host := str (op_Host o) DEFAULT_HOST in
  o {{
    op_Host := host;
    op_HTTPHost := str (op_HTTPHost o) host;
    op_Port := (if decide (op_Port o = 0)%Z then DEFAULT_PORT
                else if decide (op_Port o = RANDOM_PORT) then 0%Z else op_Port o);
    op_MaxConn := int (op_MaxConn o) DEFAULT_MAX_CONNECTIONS;
    op_PingInterval := int (op_PingInterval o) DEFAULT_PING_INTERVAL;
    op_MaxPingsOut := int (op_MaxPingsOut o) DEFAULT_PING_MAX_OUT;
    op_TLSTimeout := flt (op_TLSTimeout o) TLS_TIMEOUT;
    op_AuthTimeout := flt (op_AuthTimeout o) AUTH_TIMEOUT;
    op_Cluster->cl_Host := str (cl_Host (op_Cluster o)) DEFAULT_HOST;
    op_Cluster->cl_TLSTimeout := flt (cl_TLSTimeout (op_Cluster o)) TLS_TIMEOUT;
    op_Cluster->cl_AuthTimeout := flt (cl_AuthTimeout (op_Cluster o)) AUTH_TIMEOUT;
    op_MaxControlLine := int (op_MaxControlLine o) MAX_CONTROL_LINE_SIZE;
    op_MaxPayload := int (op_MaxPayload o) MAX_PAYLOAD_SIZE;
    op_WriteDeadline := int (op_WriteDeadline o) DEFAULT_FLUSH_DEADLINE
  }}.

(** ** [main.go] *)

(** [PrintAndDie] ends the process with a message. *)
Definition configureTLS (opts : Options) : outcome Options :=
  if negb (op_TLS opts) && negb (op_TLSVerify opts) then Ok opts
  else if decide (op_TLSCert opts = []) then Fail (bs "TLS Server certificate must be present and valid.")
  else if decide (op_TLSKey opts = []) then Fail (bs "TLS Server private key must be present and valid.")
  else
    c ← GenTLSConfig (MkTLSConfigOpts (op_TLSCert opts) (op_TLSKey opts) (op_TLSCaCert opts)
                        (op_TLSVerify opts) (float64 0) None None);
    Ok (opts {{ op_TLSConfig := Some c }}).

(** The override of the cluster's address by the flag. *)
Definition cluster_override (opts : Options) : outcome Options :=
  match url_Parse (cl_ListenStr (op_Cluster opts)) with
  | inr err => Fail err
  | inl clusterURL =>
      match SplitHostPort (u_host clusterURL) with
      | None => Fail (addr_error (u_host clusterURL))
      | Some (h, p) =>
          match Sscan p with
          | inr err => Fail err
          | inl n =>
              let opts := opts {{ op_Cluster->cl_Host := h; op_Cluster->cl_Port := n }} in
              match u_user clusterURL with
              | Some (_, None) => Fail (bs "Expected cluster password to be set.")
              | Some (user, Some pass) =>
                  Ok (opts {{ op_Cluster->cl_Password := pass; op_Cluster->cl_Username := user }})
              | None => Ok (opts {{ op_Cluster->cl_Username := []; op_Cluster->cl_Password := [] }})
              end
          end
      end
  end.

Definition configureClusterOpts (opts : Options) : outcome Options :=
  let cl := op_Cluster opts in
  if decide (cl_ListenStr cl = [] /\ cl_Host cl = [] /\ cl_Port cl = 0%Z) then
    if decide (op_RoutesStr opts <> []) then Fail (bs "Solicited routes require cluster capabilities, e.g. --cluster.")
    else Ok opts
  else
    opts ← (if decide (cl_ListenStr cl <> []) then cluster_override opts else Ok opts);
    match op_Routes opts with
    | None => if decide (op_RoutesStr opts <> []) then Ok (opts {{ op_Routes := Some (RoutesFromStr (op_RoutesStr opts)) }}) else Ok opts
    | Some _ => Ok opts
    end.

(** The part of [main] between the flags and [server.New]. *)
Definition main_options (ParseFile : bytes -> outcome (gmap bytes value)) (configFile : bytes) (flags : Options) :
    outcome Options :=
  opts ← (if decide (configFile <> []) then
            fileOpts ← ProcessConfigFile ParseFile configFile; Ok (MergeOptions fileOpts flags)
          else Ok flags);
  newroutes ← RemoveSelfReference (cl_Port (op_Cluster opts)) (op_Routes opts);
  opts ← configureTLS (opts {{ op_Routes := newroutes }});
  configureClusterOpts opts.

(** [configureAuth]: the authenticators of clients and of routes. *)
Definition configureAuth (CompareHashAndPassword : bytes -> bytes -> bool) (opts : Options) :
    option (clientOpts -> option (option User)) * option (clientOpts -> option (option User)) :=
  (match op_Users opts with
   | Some users => Some (MultiUser_Check CompareHashAndPassword (NewMultiUser users))
   | None =>
       if decide (op_Username opts <> []) then
         Some (Plain_Check CompareHashAndPassword (MkPlain (op_Username opts) (op_Password opts)))
       else if decide (op_Authorization opts <> []) then
         Some (Token_Check CompareHashAndPassword (op_Authorization opts))
       else None
   end,
   if decide (cl_Username (op_Cluster opts) <> []) then
     Some (Plain_Check CompareHashAndPassword
             (MkPlain (cl_Username (op_Cluster opts)) (cl_Password (op_Cluster opts))))
   else None).

End options.
