(* ===== verification/OptionsSpec.v ===== *)
(** * OptionsSpec: what a configuration means

    Theorems about [Options].  The entries of a map are visited in an unknown
    order: a configuration in which no two keys write the same field gives
    the same options in every order.  Its type assertions are exactly a typing
    of the configuration: a typed one never panics, and one that is accepted
    is typed.  The last part follows the flags through [main]. *)

From S2P Require Import Prelude Util Subject Lex ConfParse Client Auth Options.
From coqutil Require Import Datatypes.RecordSetters.
Import DoubleBraceUpdate.

(** The cases of a switch on the key. *)
Ltac key_cases := repeat match goal with |- context [key_in ?k ?l] => destruct (key_in k l); cbn [orb] end.

(** One step of an entry that is known to succeed. *)
Ltac ok_step := match goal with
  | |- (?x ≫= _) = Ok _ -> _ => let y := fresh "y" in let Hy := fresh "Hy" in destruct x as [y| |] eqn:Hy; cbn [mbind outcome_bind]; [|done..]
  | |- Ok _ = Ok _ -> _ => intros [= <-]
  end.

(** ** Outcomes that agree *)

(** Both succeed with related results, or neither succeeds: which of several
    errors is reported first depends on the order. *)
Definition agree {A B} (R : A -> B -> Prop) (x : outcome A) (y : outcome B) : Prop :=
  match x, y with
  | Ok a, Ok b => R a b
  | Ok _, _ | _, Ok _ => False
  | _, _ => True
  end.

Lemma agree_bind {A B C D} (R : A -> B -> Prop) (S : C -> D -> Prop) x y (f : A -> outcome C) (g : B -> outcome D) :
  agree R x y -> (forall a b, R a b -> agree S (f a) (g b)) -> agree S (x ≫= f) (y ≫= g).
Proof. destruct x, y; cbn; auto; done. Qed.

Lemma agree_refl {A} (R : A -> A -> Prop) `{!Reflexive R} x : agree R x x.
Proof. by destruct x; cbn. Qed.

Lemma agree_impl {A B} (R S : A -> B -> Prop) x y : (forall a b, R a b -> S a b) -> agree R x y -> agree S x y.
Proof. destruct x, y; cbn; auto. Qed.

Lemma agree_eq_bind {A B C} (S : B -> C -> Prop) (x y : outcome A) (f : A -> outcome B) (g : A -> outcome C) :
  agree eq x y -> (forall a, agree S (f a) (g a)) -> agree S (x ≫= f) (y ≫= g).
Proof. intros H Hf. eapply agree_bind; [exact H|]. by intros a ? <-. Qed.

Lemma traverse_agree {A B C} (R : B -> C -> Prop) (f : A -> outcome B) (g : A -> outcome C) l :
  (forall x, x ∈ l -> agree R (f x) (g x)) -> agree (Forall2 R) (traverse f l) (traverse g l).
Proof.
  induction l as [|x l IH]; intros H; cbn; [constructor|].
  eapply agree_bind; [apply H; left|]. intros a b Hab.
  eapply agree_bind; [apply IH; intros; apply H; by right|]. intros ys zs Hyz. by constructor.
Qed.

Lemma traverse_perm {A B} (f : A -> outcome B) l l' : l ≡ₚ l' -> agree (≡ₚ) (traverse f l) (traverse f l').
Proof.
  induction 1 as [|x l l' _ IH|x y l|l1 l2 l3 _ IH1 _ IH2]; cbn; [done| | |].
  - eapply agree_eq_bind; [apply agree_refl, _|]. intros a. eapply agree_bind; [exact IH|].
    intros ys zs H. cbn. by f_equiv.
  - destruct (f x), (f y); cbn; try done; destruct (traverse f l); cbn; try done. constructor.
  - destruct (traverse f l1), (traverse f l2), (traverse f l3); cbn in *; try done. by etrans.
Qed.

(** ** Exact typing *)

(** The condition [b] rules out a panic, and success shows that it holds. *)
Definition exact {A} (b : bool) (x : outcome A) : Prop :=
  (b = true -> x <> Panic) /\ (forall y, x = Ok y -> b = true).

Lemma exact_bind {A B} b c (x : outcome A) (f : A -> outcome B) :
  exact b x -> (forall y, x = Ok y -> exact c (f y)) -> exact (b && c) (x ≫= f).
Proof.
  intros [H1 H2] Hf. split.
  - intros [Hb Hc]%andb_prop. destruct x as [y| |] eqn:Ex; cbn; [by apply (Hf y)|done|by destruct (H1 Hb)].
  - intros z Hz. destruct x as [y| |] eqn:Ex; cbn in Hz; [|done..].
    apply andb_true_intro. split; [by apply (H2 y)|by apply (proj2 (Hf y eq_refl) z)].
Qed.

Lemma exact_bind_safe {A B} b (x : outcome A) (f : A -> outcome B) :
  exact b x -> (forall y, x = Ok y -> exact true (f y)) -> exact b (x ≫= f).
Proof. intros Hx Hf. rewrite <- (andb_true_r b). by apply exact_bind. Qed.

Lemma exact_ok {A} (x : A) : exact true (Ok x).
Proof. done. Qed.

Lemma exact_fail {A} msg : exact true (Fail msg : outcome A).
Proof. done. Qed.

Lemma exact_panic {A} : exact false (Panic : outcome A).
Proof. done. Qed.

Lemma exact_traverse {A B} (b : A -> bool) (f : A -> outcome B) l :
  (forall x, x ∈ l -> exact (b x) (f x)) -> exact (forallb b l) (traverse f l).
Proof.
  induction l as [|x l IH]; intros H; cbn; [apply exact_ok|].
  apply exact_bind; [apply H; left|]. intros y _.
  apply exact_bind_safe; [apply IH; intros; apply H; by right|]. intros. apply exact_ok.
Qed.

Lemma traverse_Forall {A B} (P : B -> Prop) (f : A -> outcome B) l : forall ys,
  traverse f l = Ok ys -> (forall x y, x ∈ l -> f x = Ok y -> P y) -> Forall P ys.
Proof.
  induction l as [|x l IH]; intros ys Ht HP; cbn in Ht; [by injection Ht as <-|].
  destruct (f x) as [y| |] eqn:Ex; cbn in Ht; [|done..].
  destruct (traverse f l) as [ys'| |] eqn:El; cbn in Ht; [|done..]. injection Ht as <-.
  constructor; [apply (HP x); [left|done]|]. apply IH; [done|]. intros x' y' Hx'. apply HP. by right.
Qed.

Lemma forallb_Permutation {A} (b : A -> bool) l l' : l ≡ₚ l' -> forallb b l = forallb b l'.
Proof.
  induction 1; cbn; [done|by f_equal|by rewrite !andb_assoc, (andb_comm (b _))|congruence].
Qed.

Lemma forallb_true_const {A} (l : list A) : forallb (fun _ => true) l = true.
Proof. by induction l. Qed.

(** ** Assignments in any order *)

Section assignments.
Context {A S : Type} `{Assign A S}.

Lemma assigns_perm (l l' : list A) : l ≡ₚ l' -> forall s, NoDup (target <$> l) -> assigns s l = assigns s l'.
Proof.
  induction 1 as [|x l l' _ IH|x y l|l1 l2 l3 P1 IH1 _ IH2]; intros s Hn; cbn in *; [done| | |].
  - apply NoDup_cons in Hn as [_ Hn]. by apply IH.
  - apply NoDup_cons in Hn as [Hy _]. f_equal. apply assign_comm. set_solver.
  - rewrite IH1 by done. apply IH2. by rewrite <- P1.
Qed.

Lemma assigns_app s (l l' : list A) : assigns s (l ++ l') = assigns (assigns s l) l'.
Proof. apply foldl_app. Qed.
End assignments.

Lemma submseteq_NoDup_l {A} (l k : list A) : l ⊆+ k -> NoDup k -> NoDup l.
Proof. intros [r Hr]%submseteq_Permutation Hk. rewrite Hr in Hk. by apply NoDup_app in Hk as []. Qed.

Section loops.
Context {F T : Type} {A S : Type} `{Assign A S}.
Implicit Types (l : list (bytes * value F T)) (fields : bytes -> list nat).

(** The fields that the keys of a list write. *)
Definition writes fields l : list nat := l ≫= (fun kv => fields kv.1).

(** The loop as one list of assignments. *)
Lemma range_loop_collect (entry : bytes -> value F T -> outcome (list A)) l : forall s,
  range_loop entry l s = (ls ← traverse (fun kv => entry kv.1 kv.2) l; Ok (assigns s (concat ls))).
Proof.
  induction l as [|[k v] l IH]; intros s; [done|]. cbn. destruct (entry k v) as [a| |]; cbn; [|done..].
  rewrite IH. destruct (traverse _ l); cbn; [|done..]. f_equal. symmetry. apply assigns_app.
Qed.

Lemma concat_Forall2_perm (ls ls' : list (list A)) : Forall2 (≡ₚ) ls ls' -> concat ls ≡ₚ concat ls'.
Proof. induction 1 as [|x y ls ls' E _ IH]; cbn; [done|]. by rewrite E, IH. Qed.

(** What a list of entries writes, when each entry writes fields of its key. *)
Lemma collect_writes (entry : bytes -> value F T -> outcome (list A)) fields l : forall ls,
  (forall k v a, (k, v) ∈ l -> entry k v = Ok a -> target <$> a ⊆+ fields k) ->
  traverse (fun kv => entry kv.1 kv.2) l = Ok ls -> target <$> concat ls ⊆+ writes fields l.
Proof.
  induction l as [|[k v] l IH]; intros ls Hf E; cbn in E; [by injection E as <-|].
  destruct (entry k v) as [a| |] eqn:Ea; cbn in E; [|done..].
  destruct (traverse _ l) as [ls'| |] eqn:El; cbn in E; [|done..]. injection E as <-.
  cbn. rewrite fmap_app. apply submseteq_app; [eapply Hf; [by left|done]|].
  apply IH; [|done]. intros k' v' a' Hin. apply Hf. by right.
Qed.

(** The collected assignments of two orders agree up to their order. *)
Lemma collect_agree (f g : bytes -> value F T -> outcome (list A)) l l' :
  l ≡ₚ l' -> (forall k v, (k, v) ∈ l -> agree (≡ₚ) (f k v) (g k v)) ->
  agree (fun x y => concat x ≡ₚ concat y)
    (traverse (fun kv => f kv.1 kv.2) l) (traverse (fun kv => g kv.1 kv.2) l').
Proof.
  intros Hl Hfg.
  assert (H1 := traverse_agree (≡ₚ) (fun kv => f kv.1 kv.2) (fun kv => g kv.1 kv.2) l (fun kv Hin =>
    Hfg kv.1 kv.2 (eq_ind _ (fun z => z ∈ l) Hin _ (surjective_pairing kv)))).
  assert (H2 := traverse_perm (fun kv => g kv.1 kv.2) l l' Hl).
  destruct (traverse (fun kv => f kv.1 kv.2) l), (traverse (fun kv => g kv.1 kv.2) l),
    (traverse (fun kv => g kv.1 kv.2) l'); cbn in *; try done.
  rewrite (concat_Forall2_perm _ _ H1). by rewrite H2.
Qed.

Lemma range_loop_exact (b : bytes -> value F T -> bool) (entry : bytes -> value F T -> outcome (list A)) l s :
  (forall k v, (k, v) ∈ l -> exact (b k v) (entry k v)) ->
  exact (forallb (fun kv => b kv.1 kv.2) l) (range_loop entry l s).
Proof.
  intros H0. rewrite range_loop_collect. apply exact_bind_safe; [|intros; apply exact_ok].
  apply exact_traverse. intros [k v]. apply H0.
Qed.

Lemma assigns_inv (P : S -> Prop) (Q : A -> Prop) (a : list A) s :
  (forall a s, Q a -> P s -> P (assign a s)) -> Forall Q a -> P s -> P (assigns s a).
Proof. intros Hpres Ha. revert s. induction Ha as [|x l Hx _ IH]; intros s Hs; [done|]. apply IH. by apply Hpres. Qed.

Lemma range_loop_inv (P : S -> Prop) (Q : A -> Prop) (entry : bytes -> value F T -> outcome (list A)) l : forall s s',
  (forall k v a, entry k v = Ok a -> Forall Q a) -> (forall a s, Q a -> P s -> P (assign a s)) ->
  P s -> range_loop entry l s = Ok s' -> P s'.
Proof.
  induction l as [|[k v] l IH]; intros s s' He Hpres Hs Hl; cbn in Hl; [by injection Hl as <-|].
  destruct (entry k v) as [a| |] eqn:Ea; cbn in Hl; [|done..].
  eapply IH; [done|done| |exact Hl]. eapply assigns_inv; eauto.
Qed.

(** A loop over entries that write different fields ends in the same struct in
    every order. *)
Lemma range_loop_agree (f g : bytes -> value F T -> outcome (list A)) fields l l' s :
  l ≡ₚ l' -> NoDup (writes fields l) ->
  (forall k v, (k, v) ∈ l -> agree (≡ₚ) (f k v) (g k v)) ->
  (forall k v a, (k, v) ∈ l -> f k v = Ok a -> target <$> a ⊆+ fields k) ->
  agree eq (range_loop f l s) (range_loop g l' s).
Proof.
  intros Hl Hn Hfg Hw. rewrite !range_loop_collect. pose proof (collect_agree f g l l' Hl Hfg) as HA.
  destruct (traverse (fun kv => f kv.1 kv.2) l) as [ls| |] eqn:E, (traverse (fun kv => g kv.1 kv.2) l'); cbn in *; try done.
  apply assigns_perm; [done|]. eapply submseteq_NoDup_l; [|exact Hn]. by eapply collect_writes.
Qed.
End loops.

(** ** Clean configurations *)

Section config.
Context {F T Cert Pool IP : Type} `{E : !Env F T Cert Pool IP}.
Abbreviation value := (value F T).
Abbreviation site := (list (bytes + nat)).
Abbreviation visit := (site -> gmap bytes value -> list (bytes * value)).

(** A loop over a map visits each entry once. *)
Definition lawful (range : visit) : Prop := forall at_ m, range at_ m ≡ₚ map_to_list m.

(** The fields that a key may write. *)
Definition perm_fields (k : bytes) : list nat :=
  if key_in k [bs "pub"; bs "publish"] then [0]
  else if key_in k [bs "sub"; bs "subscribe"] then [1] else [].

Definition user_fields (k : bytes) : list nat :=
  if key_in k [bs "user"; bs "username"] then [0]
  else if key_in k [bs "pass"; bs "password"] then [1]
  else if key_in k [bs "permission"; bs "permissions"; bs "authroization"] then [2] else [].

Definition auth_fields (k : bytes) : list nat :=
  if key_in k [bs "user"; bs "username"] then [0]
  else if key_in k [bs "pass"; bs "password"] then [1]
  else if key_in k [bs "timeout"] then [2]
  else if key_in k [bs "users"] then [3]
  else if key_in k [bs "default_permission"; bs "default_permissions"] then [4] else [].

Definition tls_fields (k : bytes) : list nat :=
  if key_in k [bs "cert_file"] then [0]
  else if key_in k [bs "key_file"] then [1]
  else if key_in k [bs "ca_file"] then [2]
  else if key_in k [bs "verify"] then [3]
  else if key_in k [bs "cipher_suites"] then [4]
  else if key_in k [bs "curve_preferences"] then [5]
  else if key_in k [bs "timeout"] then [6] else [].

Definition cluster_fields (k : bytes) : list nat :=
  if key_in k [bs "listen"] then [30; 31]
  else if key_in k [bs "port"] then [31]
  else if key_in k [bs "host"; bs "net"] then [30]
  else if key_in k [bs "authorization"] then [32; 33; 34]
  else if key_in k [bs "routes"] then [29]
  else if key_in k [bs "tls"] then [35; 36]
  else if key_in k [bs "no_advertise"] then [37]
  else if key_in k [bs "connect_retries"] then [38] else [].

Definition config_fields (k : bytes) : list nat :=
  if key_in k [bs "listen"] then [0; 1]
  else if key_in k [bs "port"] then [1]
  else if key_in k [bs "host"; bs "net"] then [0]
  else if key_in k [bs "debug"] then [2]
  else if key_in k [bs "trace"] then [3]
  else if key_in k [bs "logtime"] then [4]
  else if key_in k [bs "authorization"] then [5; 6; 7; 8]
  else if key_in k [bs "http"] then [9; 10]
  else if key_in k [bs "https"] then [9; 11]
  else if key_in k [bs "http_port"; bs "monitor_port"] then [10]
  else if key_in k [bs "https_port"] then [11]
  else if key_in k [bs "cluster"] then seq 29 10
  else if key_in k [bs "logfile"; bs "log_file"] then [12]
  else if key_in k [bs "syslog"] then [13]
  else if key_in k [bs "remote_syslog"] then [14]
  else if key_in k [bs "pidfile"; bs "pid_file"] then [15]
  else if key_in k [bs "prof_port"] then [16]
  else if key_in k [bs "max_control_line"] then [17]
  else if key_in k [bs "max_payload"] then [18]
  else if key_in k [bs "max_connections"; bs "max_conn"] then [19]
  else if key_in k [bs "ping_interval"] then [20]
  else if key_in k [bs "ping_max"] then [21]
  else if key_in k [bs "health_rank"] then [22]
  else if key_in k [bs "health_lease"] then [23]
  else if key_in k [bs "health_beat"] then [24]
  else if key_in k [bs "health_agent"] then [25]
  else if key_in k [bs "tls"] then [26; 27]
  else if key_in k [bs "write_deadline"] then [28] else [].

(** No two keys of a map write the same field. *)
Definition separate (fields : bytes -> list nat) (m : gmap bytes value) : bool :=
  bool_decide (NoDup (writes fields (map_to_list m))).

Definition on_map (f : gmap bytes value -> bool) (v : value) : bool :=
  match v with VMap m => f m | _ => true end.

Definition all_entries (f : bytes -> value -> bool) (m : gmap bytes value) : bool :=
  forallb (fun kv => f kv.1 kv.2) (map_to_list m).

Definition clean_user (v : value) : bool :=
  on_map (fun um => separate user_fields um && all_entries (fun k v =>
    if key_in k [bs "permission"; bs "permissions"; bs "authroization"]
    then on_map (separate perm_fields) v else true) um) v.

Definition clean_auth (am : gmap bytes value) : bool :=
  separate auth_fields am && all_entries (fun k v =>
    if key_in k [bs "users"] then match v with VArray l => forallb clean_user l | _ => true end
    else if key_in k [bs "default_permission"; bs "default_permissions"]
    then on_map (separate perm_fields) v else true) am.

Definition clean_cluster (cm : gmap bytes value) : bool :=
  separate cluster_fields cm && all_entries (fun k v =>
    if key_in k [bs "authorization"] then on_map clean_auth v
    else if key_in k [bs "tls"] then on_map (separate tls_fields) v else true) cm.

(** A configuration in which no field is written twice. *)
Definition clean_config (m : gmap bytes value) : bool :=
  separate config_fields m && all_entries (fun k v =>
    if key_in k [bs "authorization"] then on_map clean_auth v
    else if key_in k [bs "cluster"] then on_map clean_cluster v
    else if key_in k [bs "tls"] then on_map (separate tls_fields) v else true) m.

(** ** Authorization *)

(** The same assignments without the defaults. *)
#[global] Program Instance auth_Assign : Assign auth_assign (@authorization F) := {|
  assign := auth_set;
  target a := match a with AaUser _ => 0 | AaPass _ => 1 | AaTimeout _ => 2 | AaUsers _ => 3 | AaDefault _ => 4 end;
|}.
Next Obligation. by intros [] [] [] H. Qed.

Definition auth_step (au : @authorization F) (a : option auth_assign) : authorization :=
  fill_defaults (match a with Some a => auth_set a au | None => au end).

Definition auth_zero : @authorization F := MkAuthorization [] [] None (float64 0) None.

Lemma fill_user_idemp d (l : list User) : fill_user d <$> (fill_user d <$> l) = fill_user d <$> l.
Proof.
  rewrite <- list_fmap_compose. apply list_fmap_ext. intros _ x _. unfold fill_user; cbn.
  by destruct (u_permissions x) eqn:Ex; cbn; rewrite ?Ex.
Qed.

Lemma fill_idemp (au : @authorization F) : fill_defaults (fill_defaults au) = fill_defaults au.
Proof.
  destruct au as [u p [us|] t [d|]]; cbn; try done. by rewrite fill_user_idemp.
Qed.

Lemma no_default (as_ : list (@auth_assign F)) : 4 ∉ target <$> as_ ->
  au_defaultPermissions (assigns auth_zero as_) = None.
Proof.
  induction as_ as [|a as_ IH] using rev_ind; [done|]. rewrite fmap_app, not_elem_of_app, assigns_app.
  intros [Hn Ha]. destruct a; cbn in *; auto. by destruct Ha; left.
Qed.

(** With every field written once, filling in the defaults in each round is
    filling them in at the end. *)
Lemma auth_steps (as_ : list (option (@auth_assign F))) : NoDup (target <$> omap id as_) ->
  foldl auth_step auth_zero as_ = fill_defaults (assigns auth_zero (omap id as_)).
Proof.
  induction as_ as [|a as_ IH] using rev_ind; [done|].
  rewrite foldl_app, omap_app, fmap_app. cbn [foldl]. intros (Hn & Hd & _)%NoDup_app. rewrite IH by done.
  destruct a as [a|]; cbn [omap list_omap id] in *; [|by rewrite app_nil_r; cbn; apply fill_idemp].
  rewrite assigns_app. set (X := assigns auth_zero _) in *.
  assert (H4 : target a = 4 -> au_defaultPermissions X = None).
  { intros Ha. apply no_default. rewrite <- Ha. intros Hin. apply (Hd _ Hin). cbn. left. }
  unfold auth_step. cbn [assigns foldl flip assign auth_Assign].
  destruct a as [| | | |d]; destruct X as [u p [us|] t [d0|]]; try done; try (by rewrite H4);
    try (specialize (H4 eq_refl); done); cbn; by rewrite ?fill_user_idemp.
Qed.

Lemma auth_loop_collect (range : visit) at_ l : forall au,
  auth_loop range at_ l au = (as_ ← traverse (fun kv => auth_entry range at_ kv.1 kv.2) l; Ok (foldl auth_step au as_)).
Proof.
  induction l as [|[k v] l IH]; intros au; [done|]. cbn. destruct (auth_entry range at_ k v); cbn; [|done..].
  rewrite IH. by destruct (traverse _ l).
Qed.

(** ** Two orders *)

Section orders.
Context (range1 range2 : visit) (H1 : lawful range1) (H2 : lawful range2).

Lemma ranges_perm at_ at_' m : range1 at_ m ≡ₚ range2 at_' m.
Proof. by rewrite (H1 at_ m), (H2 at_' m). Qed.

Lemma separate_range fields at_ m : separate fields m = true -> NoDup (writes fields (range1 at_ m)).
Proof. intros H%bool_decide_eq_true. unfold writes in *. by rewrite (H1 at_ m). Qed.

Lemma all_entries_elem f at_ m k v : all_entries f m = true -> (k, v) ∈ range1 at_ m -> f k v = true.
Proof. rewrite (H1 at_ m). intros H Hin. unfold all_entries in H. rewrite forallb_forall in H. apply (H (k, v)). by apply list_elem_of_In. Qed.

(** An outcome of a few steps that do not depend on the order. *)
Lemma agree_self {A} (x : outcome (list A)) : agree (≡ₚ) x x.
Proof. apply agree_refl, _. Qed.

Lemma parseUserPermissions_agree at_ at_' pm : separate perm_fields pm = true ->
  agree eq (parseUserPermissions range1 at_ pm) (parseUserPermissions range2 at_' pm).
Proof.
  intros Hs. apply (range_loop_agree _ _ perm_fields); [apply ranges_perm|by apply separate_range|intros; apply agree_self|].
  intros k v a _. unfold perm_entry, perm_fields.
  key_cases; (destruct (parseSubjects v); cbn; [intros [= <-]; done|done..]) || done.
Qed.

Lemma user_entry_agree at_ at_' k v :
  (if key_in k [bs "permission"; bs "permissions"; bs "authroization"] then on_map (separate perm_fields) v else true) = true ->
  agree (≡ₚ) (user_entry range1 at_ k v) (user_entry range2 at_' k v).
Proof.
  unfold user_entry. key_cases; intros Hc; try apply agree_self.
  destruct v; try done. eapply agree_eq_bind; [by apply parseUserPermissions_agree|]. intros; apply agree_self.
Qed.

Lemma user_entry_writes at_ k v a : user_entry range1 at_ k v = Ok a -> target <$> a ⊆+ user_fields k.
Proof.
  unfold user_entry, user_fields. key_cases.
  - destruct v; cbn; by intros [= <-].
  - destruct v; cbn; by intros [= <-].
  - destruct v as [| | | | | |m]; cbn; [done..|]. destruct (parseUserPermissions _ _ _); cbn; by intros [= <-].
  - by intros [= <-].
Qed.

Lemma parse_user_agree at_ at_' u : clean_user u = true -> agree eq (parse_user range1 at_ u) (parse_user range2 at_' u).
Proof.
  unfold clean_user, parse_user. destruct u as [| | | | | |um]; try done. cbn [on_map]. intros [Hs Ha]%andb_prop.
  eapply agree_eq_bind; [|intros; apply agree_refl, _].
  apply (range_loop_agree _ _ user_fields); [apply ranges_perm|by apply separate_range| |].
  - intros k v Hin. apply user_entry_agree. exact (all_entries_elem _ at_ um k v Ha Hin).
  - intros k v a _. apply user_entry_writes.
Qed.

Lemma Forall2_eq {A} (l l' : list A) : Forall2 eq l l' -> l = l'.
Proof. by induction 1; subst. Qed.

Lemma parseUsers_agree at_ at_' v : match v with VArray l => forallb clean_user l | _ => true end = true ->
  agree eq (parseUsers range1 at_ v) (parseUsers range2 at_' v).
Proof.
  destruct v as [| | | | |l|]; try done. intros Hl. cbn. eapply agree_impl; [apply Forall2_eq|].
  apply traverse_agree. intros [i u] Hin. apply parse_user_agree. cbn.
  apply elem_of_lookup_imap in Hin as (j & y & [= -> ->] & Hy). rewrite forallb_forall in Hl. apply Hl.
  by apply list_elem_of_In, (list_elem_of_lookup_2 _ j).
Qed.

Lemma auth_entry_agree at_ at_' k v :
  (if key_in k [bs "users"] then match v with VArray l => forallb clean_user l | _ => true end
   else if key_in k [bs "default_permission"; bs "default_permissions"]
   then on_map (separate perm_fields) v else true) = true ->
  agree eq (auth_entry range1 at_ k v) (auth_entry range2 at_' k v).
Proof.
  unfold auth_entry. key_cases; intros Hc; try (apply agree_refl, _).
  - eapply agree_eq_bind; [by apply parseUsers_agree|]. intros. apply agree_refl, _.
  - destruct v; try done. eapply agree_eq_bind; [by apply parseUserPermissions_agree|]. intros; apply agree_refl, _.
Qed.

Lemma auth_entry_writes at_ k v a : auth_entry range1 at_ k v = Ok a -> target <$> omap id [a] ⊆+ auth_fields k.
Proof.
  unfold auth_entry, auth_fields. key_cases.
  - destruct v; cbn; by intros [= <-].
  - destruct v; cbn; by intros [= <-].
  - cbn. by intros [= <-].
  - destruct (parseUsers _ _ _); cbn; by intros [= <-].
  - destruct v; cbn; try done. destruct (parseUserPermissions _ _ _); cbn; by intros [= <-].
  - by intros [= <-].
Qed.

Lemma auth_writes at_ l : forall as_, traverse (fun kv => auth_entry range1 at_ kv.1 kv.2) l = Ok as_ ->
  target <$> omap id as_ ⊆+ writes auth_fields l.
Proof.
  induction l as [|[k v] l IH]; intros as_ Ht; cbn in Ht; [by injection Ht as <-|].
  destruct (auth_entry range1 at_ k v) as [a| |] eqn:Ea; cbn in Ht; [|done..].
  destruct (traverse _ l) as [as'| |] eqn:El; cbn in Ht; [|done..]. injection Ht as <-.
  change (a :: as') with ([a] ++ as'). rewrite omap_app, fmap_app. unfold writes. rewrite bind_cons.
  apply submseteq_app; [by apply (auth_entry_writes at_ k v)|by apply IH].
Qed.

Lemma parseAuthorization_agree at_ at_' am : clean_auth am = true ->
  agree eq (parseAuthorization range1 at_ am) (parseAuthorization range2 at_' am).
Proof.
  unfold clean_auth, parseAuthorization. intros [Hs Ha]%andb_prop. rewrite !auth_loop_collect. fold auth_zero.
  assert (P := traverse_perm (fun kv => auth_entry range2 at_' kv.1 kv.2) _ _ (ranges_perm at_ at_' am)).
  assert (Q := traverse_agree eq (fun kv => auth_entry range1 at_ kv.1 kv.2) (fun kv => auth_entry range2 at_' kv.1 kv.2) (range1 at_ am)).
  specialize (Q ltac:(intros [k v] Hin; apply auth_entry_agree; exact (all_entries_elem _ at_ am k v Ha Hin))).
  pose proof (auth_writes at_ (range1 at_ am)) as W.
  destruct (traverse (fun kv => auth_entry range1 at_ kv.1 kv.2) (range1 at_ am)) as [as1| |],
    (traverse (fun kv => auth_entry range2 at_' kv.1 kv.2) (range1 at_ am)) as [as1'| |],
    (traverse (fun kv => auth_entry range2 at_' kv.1 kv.2) (range2 at_' am)) as [as2| |]; cbn in P, Q |- *; try done.
  apply Forall2_eq in Q as <-.
  assert (Hn : NoDup (target <$> omap id as1)).
  { eapply submseteq_NoDup_l; [by apply W|by apply separate_range]. }
  rewrite !auth_steps by (by rewrite <- ?P). f_equal. apply assigns_perm; [by rewrite P|done].
Qed.

Lemma tls_entry_writes k v a : tls_entry k v = Ok a -> target <$> a ⊆+ tls_fields k.
Proof.
  unfold tls_entry, tls_fields, tls_file, tls_list. key_cases.
  5-6: destruct v; cbn; try done; case_decide; [done|]; destruct (traverse _ _); cbn; by intros [= <-].
  all: try (destruct v; cbn; by intros [= <-]).
Qed.

Lemma parseTLS_agree at_ at_' m : separate tls_fields m = true ->
  agree eq (parseTLS range1 at_ m) (parseTLS range2 at_' m).
Proof.
  intros Hs. eapply agree_eq_bind; [|intros; apply agree_refl, _].
  apply (range_loop_agree _ _ tls_fields); [apply ranges_perm|by apply separate_range|intros; apply agree_self|].
  intros k v a _. apply tls_entry_writes.
Qed.

(** The parts of [authorization] and [tls] in both switches. *)
Lemma auth_part_agree {B} at_ at_' v (f : authorization -> outcome (list B)) : on_map clean_auth v = true ->
  agree (≡ₚ) (am ← as_map v; auth ← parseAuthorization range1 at_ am; f auth)
    (am ← as_map v; auth ← parseAuthorization range2 at_' am; f auth).
Proof.
  destruct v as [| | | | | |m]; try done. intros Hc. cbn [as_map mbind outcome_bind].
  eapply agree_eq_bind; [by apply parseAuthorization_agree|]. intros. apply agree_self.
Qed.

Lemma tls_part_agree {B} at_ at_' v (f : TLSConfigOpts -> outcome (list B)) : on_map (separate tls_fields) v = true ->
  agree (≡ₚ) (m ← as_map v; tc ← parseTLS range1 at_ m; f tc) (m ← as_map v; tc ← parseTLS range2 at_' m; f tc).
Proof.
  destruct v as [| | | | | |m]; try done. intros Hc. cbn [as_map mbind outcome_bind].
  eapply agree_eq_bind; [by apply parseTLS_agree|]. intros. apply agree_self.
Qed.

Lemma cluster_entry_agree at_ at_' k v :
  (if key_in k [bs "authorization"] then on_map clean_auth v
   else if key_in k [bs "tls"] then on_map (separate tls_fields) v else true) = true ->
  agree (≡ₚ) (cluster_entry range1 at_ k v) (cluster_entry range2 at_' k v).
Proof.
  unfold cluster_entry. key_cases; intros Hc; try apply agree_self; [by apply auth_part_agree|by apply tls_part_agree].
Qed.

Lemma cluster_entry_writes at_ k v a : cluster_entry range1 at_ k v = Ok a -> target <$> a ⊆+ cluster_fields k.
Proof.
  unfold cluster_entry, cluster_fields. key_cases; repeat ok_step; try done.
  destruct (au_users y0); [done|]. by ok_step.
Qed.

Lemma parseCluster_agree at_ at_' m : clean_cluster m = true ->
  agree (≡ₚ) (parseCluster range1 at_ m) (parseCluster range2 at_' m).
Proof.
  intros [Hs Ha]%andb_prop. unfold parseCluster. eapply agree_bind; [|intros x y Hxy; exact Hxy].
  apply collect_agree; [apply ranges_perm|]. intros k v Hin. apply cluster_entry_agree. exact (all_entries_elem _ at_ m k v Ha Hin).
Qed.

Lemma parseCluster_writes at_ m a : clean_cluster m = true -> parseCluster range1 at_ m = Ok a ->
  target <$> a ⊆+ seq 29 10.
Proof.
  intros [Hs _]%andb_prop. unfold parseCluster. destruct (traverse _ _) as [ls| |] eqn:El; cbn [mbind outcome_bind]; [|done..].
  intros [= <-]. pose proof (collect_writes (cluster_entry range1 at_) cluster_fields _ _
    (fun k v a _ => cluster_entry_writes at_ k v a) El) as Hw.
  apply NoDup_submseteq; [eapply submseteq_NoDup_l; [exact Hw|by apply separate_range]|].
  intros n Hn. apply (elem_of_submseteq _ _ _ Hn) in Hw. unfold writes in Hw. apply list_elem_of_bind in Hw as ([k v] & Hk & _).
  unfold cluster_fields in Hk. revert Hk. cbn [fst]. key_cases; set_solver.
Qed.

Lemma config_entry_agree at_ at_' k v :
  (if key_in k [bs "authorization"] then on_map clean_auth v
   else if key_in k [bs "cluster"] then on_map clean_cluster v
   else if key_in k [bs "tls"] then on_map (separate tls_fields) v else true) = true ->
  agree (≡ₚ) (config_entry range1 at_ k v) (config_entry range2 at_' k v).
Proof.
  unfold config_entry. key_cases; intros Hc; try apply agree_self; [by apply auth_part_agree| |by apply tls_part_agree].
  destruct v; try done. by apply parseCluster_agree.
Qed.

Lemma config_entry_writes at_ k v a :
  (if key_in k [bs "authorization"] then on_map clean_auth v
   else if key_in k [bs "cluster"] then on_map clean_cluster v
   else if key_in k [bs "tls"] then on_map (separate tls_fields) v else true) = true ->
  config_entry range1 at_ k v = Ok a -> target <$> a ⊆+ config_fields k.
Proof.
  unfold config_entry, config_fields, as_duration. key_cases; intros Hc; repeat ok_step; try done.
  - unfold authorization_assigns. destruct (au_users y0); [case_decide; [done|]|]; ok_step; [done|].
    by apply (submseteq_skips_l [_; _; _]), submseteq_nil_l.
  - destruct v; try done. injection Hy as <-. by apply parseCluster_writes.
Qed.

Lemma process_config_agree m : clean_config m = true ->
  agree eq (process_config range1 m) (process_config range2 m).
Proof.
  intros [Hs Ha]%andb_prop. apply (range_loop_agree _ _ config_fields); [apply ranges_perm|by apply separate_range| |].
  - intros k v Hin. apply config_entry_agree. exact (all_entries_elem _ [] m k v Ha Hin).
  - intros k v a Hin. apply config_entry_writes. exact (all_entries_elem _ [] m k v Ha Hin).
Qed.
End orders.

(** ** The types of a configuration *)

Definition is_VString (v : value) : bool := match v with VString _ => true | _ => false end.
Definition is_VInt (v : value) : bool := match v with VInt _ => true | _ => false end.
Definition is_VBool (v : value) : bool := match v with VBool _ => true | _ => false end.

(** A map whose entries have their types. *)
Definition typed_map (f : bytes -> value -> bool) (v : value) : bool :=
  match v with VMap m => all_entries f m | _ => false end.

(** An array whose elements have their type. *)
Definition typed_array (f : value -> bool) (v : value) : bool :=
  match v with VArray l => forallb f l | _ => false end.

Definition user_typed (k : bytes) (v : value) : bool :=
  if key_in k [bs "user"; bs "username"] || key_in k [bs "pass"; bs "password"] then is_VString v else true.

(** Users, permissions and most of TLS are checked without a panic. *)
Definition auth_typed (k : bytes) (v : value) : bool :=
  if key_in k [bs "user"; bs "username"] || key_in k [bs "pass"; bs "password"] then is_VString v
  else if key_in k [bs "timeout"] then true
  else if key_in k [bs "users"] then
    match v with VArray l => forallb (on_map (all_entries user_typed)) l | _ => true end
  else true.

Definition tls_typed (k : bytes) (v : value) : bool :=
  if key_in k [bs "cipher_suites"] || key_in k [bs "curve_preferences"] then typed_array is_VString v else true.

Definition cluster_typed (k : bytes) (v : value) : bool :=
  if key_in k [bs "listen"] then true
  else if key_in k [bs "port"] then is_VInt v
  else if key_in k [bs "host"; bs "net"] then is_VString v
  else if key_in k [bs "authorization"] then typed_map auth_typed v
  else if key_in k [bs "routes"] then typed_array is_VString v
  else if key_in k [bs "tls"] then typed_map tls_typed v
  else if key_in k [bs "no_advertise"] then is_VBool v
  else if key_in k [bs "connect_retries"] then is_VInt v else true.

(** The type of a key; no value has the type of a lease or a beat. *)
Definition config_typed (k : bytes) (v : value) : bool :=
  if key_in k [bs "listen"] then true
  else if key_in k [bs "port"] then is_VInt v
  else if key_in k [bs "host"; bs "net"] then is_VString v
  else if key_in k [bs "debug"] then is_VBool v
  else if key_in k [bs "trace"] then is_VBool v
  else if key_in k [bs "logtime"] then is_VBool v
  else if key_in k [bs "authorization"] then typed_map auth_typed v
  else if key_in k [bs "http"] then true
  else if key_in k [bs "https"] then true
  else if key_in k [bs "http_port"; bs "monitor_port"] then is_VInt v
  else if key_in k [bs "https_port"] then is_VInt v
  else if key_in k [bs "cluster"] then typed_map cluster_typed v
  else if key_in k [bs "logfile"; bs "log_file"] then is_VString v
  else if key_in k [bs "syslog"] then is_VBool v
  else if key_in k [bs "remote_syslog"] then is_VString v
  else if key_in k [bs "pidfile"; bs "pid_file"] then is_VString v
  else if key_in k [bs "prof_port"] then is_VInt v
  else if key_in k [bs "max_control_line"] then is_VInt v
  else if key_in k [bs "max_payload"] then is_VInt v
  else if key_in k [bs "max_connections"; bs "max_conn"] then is_VInt v
  else if key_in k [bs "ping_interval"] then is_VInt v
  else if key_in k [bs "ping_max"] then is_VInt v
  else if key_in k [bs "health_rank"] then is_VInt v
  else if key_in k [bs "health_lease"] then false
  else if key_in k [bs "health_beat"] then false
  else if key_in k [bs "health_agent"] then is_VBool v
  else if key_in k [bs "tls"] then typed_map tls_typed v
  else if key_in k [bs "write_deadline"] then is_VInt v else true.

Section typing.
Context (range : visit) (Hrange : lawful range).

Lemma all_entries_range f at_ m : all_entries f m = forallb (fun kv => f kv.1 kv.2) (range at_ m).
Proof. unfold all_entries. by apply forallb_Permutation. Qed.

Lemma exact_string v : exact (is_VString v) (as_string v).
Proof. by destruct v. Qed.

Lemma exact_int v : exact (is_VInt v) (as_int64 v).
Proof. by destruct v. Qed.

Lemma exact_bool v : exact (is_VBool v) (as_bool v).
Proof. by destruct v. Qed.

Lemma parseSubjects_exact (v : value) : exact true (parseSubjects v).
Proof.
  assert (Hc : forall l, exact true (checkSubjectArray l)).
  { intros l. unfold checkSubjectArray. rewrite <- (forallb_true_const l) at 1.
    apply exact_traverse. intros x _. by destruct (IsValidSubject x). }
  unfold parseSubjects. apply exact_bind_safe; [|intros; apply Hc].
  destruct v as [| | | | |l|]; try done. rewrite <- (forallb_true_const l).
  apply exact_traverse. by intros [] _.
Qed.

Lemma parseUserPermissions_exact at_ pm : exact true (parseUserPermissions range at_ pm).
Proof.
  unfold parseUserPermissions. rewrite <- (forallb_true_const (range at_ pm)).
  apply (range_loop_exact (fun _ _ => true)). intros k v _. unfold perm_entry.
  key_cases; try (apply exact_bind_safe; [apply parseSubjects_exact|intros; apply exact_ok]). apply exact_fail.
Qed.

Lemma user_entry_exact at_ k v : exact (user_typed k v) (user_entry range at_ k v).
Proof.
  unfold user_typed, user_entry. key_cases;
    try (apply exact_bind_safe; [apply exact_string|intros; apply exact_ok]); [|apply exact_ok].
  destruct v; try apply exact_fail. apply exact_bind_safe; [apply parseUserPermissions_exact|intros; apply exact_ok].
Qed.

Lemma parse_user_exact at_ u : exact (on_map (all_entries user_typed) u) (parse_user range at_ u).
Proof.
  unfold parse_user. destruct u as [| | | | | |um]; try apply exact_fail. cbn [on_map].
  rewrite (all_entries_range _ at_). apply exact_bind_safe; [|intros; by case_decide].
  apply range_loop_exact. intros. apply user_entry_exact.
Qed.

Lemma forallb_imap {A} (b : A -> bool) (l : list A) : forallb (fun p => b p.2) (imap pair l) = forallb b l.
Proof.
  assert (H : forall (f : nat -> nat), forallb (fun p => b p.2) (imap (fun i x => (f i, x)) l) = forallb b l); [|apply (H id)].
  induction l as [|x l IH]; intros f; cbn; [done|]. f_equal. apply (IH (f ∘ S)).
Qed.

Lemma parseUsers_exact at_ v :
  exact (match v with VArray l => forallb (on_map (all_entries user_typed)) l | _ => true end) (parseUsers range at_ v).
Proof.
  unfold parseUsers. destruct v as [| | | | |l|]; try apply exact_fail.
  rewrite <- forallb_imap. apply exact_traverse. intros [i u] _. apply parse_user_exact.
Qed.

Lemma auth_entry_exact at_ k v : exact (auth_typed k v) (auth_entry range at_ k v).
Proof.
  unfold auth_typed, auth_entry. key_cases;
    try (apply exact_bind_safe; [apply exact_string|intros; apply exact_ok]); try apply exact_ok.
  - apply exact_bind_safe; [apply parseUsers_exact|intros; apply exact_ok].
  - destruct v; try apply exact_fail. apply exact_bind_safe; [apply parseUserPermissions_exact|intros; apply exact_ok].
Qed.

Lemma parseAuthorization_exact at_ m : exact (all_entries auth_typed m) (parseAuthorization range at_ m).
Proof.
  unfold parseAuthorization. rewrite (all_entries_range _ at_), auth_loop_collect.
  apply exact_bind_safe; [|intros; apply exact_ok]. apply exact_traverse. intros [k v] _. apply auth_entry_exact.
Qed.

Lemma string_array_exact {B} (f : bytes -> outcome B) l : (forall s, exact true (f s)) ->
  exact (forallb is_VString l) (traverse (fun r => s ← as_string r; f s) l).
Proof. intros Hf. apply exact_traverse. intros x _. apply exact_bind_safe; [apply exact_string|auto]. Qed.

Lemma tls_list_exact field parse mk v : (forall s, exact true (parse s)) ->
  exact (typed_array is_VString v) (tls_list field parse mk v).
Proof.
  intros Hp. unfold tls_list. destruct v as [| | | | |l|]; try done. cbn [as_array mbind outcome_bind typed_array].
  case_decide as Hl; [destruct l; [apply exact_fail|done]|].
  apply exact_bind_safe; [by apply string_array_exact|intros; apply exact_ok].
Qed.

Lemma tls_entry_exact k v : exact (tls_typed k v) (tls_entry k v).
Proof.
  assert (Hc : forall s, exact true (parseCipher s)) by (intros s; unfold parseCipher; by destruct (assoc_find _ _)).
  assert (Hv : forall s, exact true (parseCurvePreferences s)) by (intros s; unfold parseCurvePreferences; by destruct (assoc_find _ _)).
  unfold tls_typed, tls_entry, tls_file.
  destruct (key_in k [bs "cipher_suites"]) eqn:K1; [|destruct (key_in k [bs "curve_preferences"]) eqn:K2]; cbn [orb];
    unfold key_in in *; try apply bool_decide_eq_true in K1; try apply bool_decide_eq_true in K2.
  - apply list_elem_of_singleton in K1. rewrite K1. by apply tls_list_exact.
  - apply list_elem_of_singleton in K2. rewrite K2. by apply tls_list_exact.
  - repeat (case_bool_decide; [first [by destruct v | done]|]). apply exact_fail.
Qed.

Lemma parseTLS_exact at_ m : exact (all_entries tls_typed m) (parseTLS range at_ m).
Proof.
  unfold parseTLS. rewrite (all_entries_range _ at_). apply exact_bind_safe; [|intros; apply exact_ok].
  apply range_loop_exact. intros. apply tls_entry_exact.
Qed.

Lemma GenTLSConfig_exact tc : exact true (GenTLSConfig tc).
Proof.
  unfold GenTLSConfig. destruct (LoadX509KeyPair _ _) as [cert|]; [|done]. destruct (ParseCertificate cert); [|done].
  case_decide; [done|]. destruct (ReadFile _) as [pem|]; [|done]. by destruct (AppendCertsFromPEM pem).
Qed.

Lemma parseListen_exact (v : value) : exact true (parseListen v).
Proof. unfold parseListen. destruct v; try done. destruct (SplitHostPort _) as [[h p]|]; [|done]. by destruct (Atoi p). Qed.

Lemma tls_part_exact {B} at_ v (mk : _ -> _ -> B) :
  exact (typed_map tls_typed v) (m ← as_map v; tc ← parseTLS range at_ m; c ← GenTLSConfig tc; Ok (mk tc c)).
Proof.
  destruct v as [| | | | | |m]; try done. cbn [as_map mbind outcome_bind typed_map].
  apply exact_bind_safe; [apply parseTLS_exact|]. intros tc _.
  apply exact_bind_safe; [apply GenTLSConfig_exact|intros; apply exact_ok].
Qed.

Lemma auth_part_exact {B} at_ v (f : _ -> outcome B) : (forall auth, exact true (f auth)) ->
  exact (typed_map auth_typed v) (m ← as_map v; auth ← parseAuthorization range at_ m; f auth).
Proof.
  intros Hf. destruct v as [| | | | | |m]; try done. cbn [as_map mbind outcome_bind typed_map].
  apply exact_bind_safe; [apply parseAuthorization_exact|auto].
Qed.

(** The entries that assert a type and assign. *)
Ltac exact_leaf := first
  [ apply exact_ok
  | apply exact_bind_safe; [first [apply exact_string | apply exact_int | apply exact_bool | apply parseListen_exact]|intros; apply exact_ok]
  | apply tls_part_exact ].

Lemma cluster_entry_exact at_ k v : exact (cluster_typed k v) (cluster_entry range at_ k v).
Proof.
  unfold cluster_typed, cluster_entry. key_cases; try exact_leaf.
  - apply auth_part_exact. intros auth. by destruct (au_users auth).
  - destruct v as [| | | | |l|]; try done. cbn [as_array mbind outcome_bind typed_array].
    apply exact_bind_safe; [|intros; apply exact_ok]. apply string_array_exact. intros s. by destruct (url_Parse s).
Qed.

Lemma parseCluster_exact at_ m : exact (all_entries cluster_typed m) (parseCluster range at_ m).
Proof.
  unfold parseCluster. rewrite (all_entries_range _ at_). apply exact_bind_safe; [|intros; apply exact_ok].
  apply exact_traverse. intros [k v] _. apply cluster_entry_exact.
Qed.

Lemma config_entry_exact at_ k v : exact (config_typed k v) (config_entry range at_ k v).
Proof.
  unfold config_typed, config_entry, as_duration. key_cases; try exact_leaf; try done.
  - apply auth_part_exact. intros auth. unfold authorization_assigns. destruct (au_users auth); [by case_decide|done].
  - destruct v as [| | | | | |m]; try done. cbn [as_map mbind outcome_bind typed_map]. apply parseCluster_exact.
Qed.

Lemma process_config_exact m : exact (all_entries config_typed m) (process_config range m).
Proof.
  unfold process_config. rewrite (all_entries_range _ []). apply range_loop_exact. intros. apply config_entry_exact.
Qed.
End typing.

(** ** What an accepted configuration guarantees *)

Definition perms_valid (p : list bytes * list bytes) : Prop :=
  Forall (fun s => IsValidSubject s = true) p.1 /\ Forall (fun s => IsValidSubject s = true) p.2.

Definition user_valid (u : User) : Prop :=
  u_username u <> [] /\ u_password u <> [] /\
  match u_permissions u with None => True | Some p => perms_valid p end.

(** Users are valid; a lease or a beat is never assigned. *)
Definition assign_valid (a : @opt_assign F Cert Pool) : Prop :=
  match a with SUsers l => Forall user_valid l | SHealthLease _ | SHealthBeat _ => False | _ => True end.

Section accepted.
Context (range : visit).

Lemma parseSubjects_valid (v : value) l : parseSubjects v = Ok l -> Forall (fun s => IsValidSubject s = true) l.
Proof.
  unfold parseSubjects. ok_step. intros Hl. eapply (traverse_Forall _ _ _ _ Hl). intros x z _.
  destruct (IsValidSubject x) eqn:Ex; [|done]. by intros [= <-].
Qed.

Lemma parseUserPermissions_valid at_ pm p : parseUserPermissions range at_ pm = Ok p -> perms_valid p.
Proof.
  apply (range_loop_inv perms_valid (fun a => match a with PaPublish l | PaSubscribe l =>
    Forall (fun s => IsValidSubject s = true) l end)); [|by intros [] ? ? []|done].
  intros k v a. unfold perm_entry. key_cases; [| |done]; destruct (parseSubjects v) eqn:Es; try done;
    cbn [mbind outcome_bind]; intros [= <-]; constructor; auto; by eapply parseSubjects_valid.
Qed.

Lemma parse_user_valid at_ u x : parse_user range at_ u = Ok x -> user_valid x.
Proof.
  unfold parse_user. destruct u as [| | | | | |um]; try done.
  destruct (range_loop _ _ _) as [user| |] eqn:Eu; cbn [mbind outcome_bind]; [|done..].
  case_decide as Hd; [done|]. intros [= <-].
  assert (Hp : match u_permissions user with None => True | Some p => perms_valid p end); [|split_and!; tauto].
  revert Eu. apply (range_loop_inv (fun u => match u_permissions u with None => True | Some p => perms_valid p end)
    (fun a => match a with UaPermissions p => perms_valid p | _ => True end)); [|by intros [] ?|done].
  intros k v a. unfold user_entry. key_cases; try (ok_step; intros [= <-]; by repeat constructor); [|by intros [= <-]].
  destruct v as [| | | | | |m]; try done. ok_step. intros [= <-]. constructor; [|done]. by eapply parseUserPermissions_valid.
Qed.

Lemma parseUsers_valid at_ v l : parseUsers range at_ v = Ok l -> Forall user_valid l.
Proof.
  unfold parseUsers. destruct v; try done. intros Hl. eapply (traverse_Forall _ _ _ _ Hl). intros x y _. apply parse_user_valid.
Qed.

Definition auth_valid (au : @authorization F) : Prop :=
  (forall us, au_users au = Some us -> Forall user_valid us) /\
  (forall p, au_defaultPermissions au = Some p -> perms_valid p).

Lemma fill_valid au : auth_valid au -> auth_valid (fill_defaults au).
Proof.
  destruct au as [u p [us|] t [d|]]; cbn; try done. intros [Hu Hd]. split; [|done]. intros ? [= <-].
  specialize (Hu _ eq_refl). specialize (Hd _ eq_refl). apply Forall_fmap. eapply Forall_impl; [exact Hu|].
  intros x (Hx1 & Hx2 & Hx3). unfold compose, fill_user.
  destruct (u_permissions x) eqn:Ex; unfold user_valid; cbn; by rewrite ?Ex.
Qed.

Lemma parseAuthorization_valid at_ m au : parseAuthorization range at_ m = Ok au -> auth_valid au.
Proof.
  unfold parseAuthorization. generalize (range at_ m). intros l.
  assert (H0 : auth_valid auth_zero) by done. fold auth_zero. revert H0. generalize auth_zero.
  induction l as [|[k v] l IH]; intros au0 H0; cbn; [by intros [= <-]|].
  destruct (auth_entry range at_ k v) as [a| |] eqn:Ea; cbn [mbind outcome_bind]; [|done..].
  apply IH, fill_valid. destruct a as [a|]; [|done]. revert Ea. unfold auth_entry.
  key_cases; try done; try (ok_step; by intros [= <-]); try (by intros [= <-]).
  - destruct (parseUsers _ _ _) eqn:Eu; try done. intros [= <-]. split; [|by destruct H0].
    cbn. intros us [= <-]. by eapply parseUsers_valid.
  - destruct v; try done. ok_step. intros [= <-]. split; [by destruct H0|]. cbn. intros p [= <-].
    by eapply parseUserPermissions_valid.
Qed.

Lemma config_entry_valid at_ k v a : config_entry range at_ k v = Ok a -> Forall assign_valid a.
Proof.
  unfold config_entry, as_duration. key_cases; repeat ok_step; try (by repeat constructor).
  - apply parseAuthorization_valid in Hy0 as [Hu _]. unfold authorization_assigns.
    destruct (au_users y0) as [us|]; [case_decide; [done|]|]; ok_step; repeat constructor. cbn. auto.
  - unfold parseCluster. destruct (traverse _ _) as [ls| |] eqn:El; cbn [mbind outcome_bind]; [|done..]. intros [= <-].
    apply Forall_concat. eapply (traverse_Forall _ _ _ _ El). intros [k' v'] b _. unfold cluster_entry. cbn [fst snd].
    key_cases; repeat ok_step; try (by repeat constructor). destruct (au_users y1); [done|]. ok_step. by repeat constructor.
Qed.

Lemma process_config_valid m o : process_config range m = Ok o ->
  (forall us, op_Users o = Some us -> Forall user_valid us) /\
  op_TLS o = false /\ op_TLSVerify o = false /\ op_HealthLease o = 0%Z /\ op_HealthBeat o = 0%Z.
Proof.
  apply (range_loop_inv (fun o => (forall us, op_Users o = Some us -> Forall user_valid us) /\
    op_TLS o = false /\ op_TLSVerify o = false /\ op_HealthLease o = 0%Z /\ op_HealthBeat o = 0%Z) assign_valid);
    [apply config_entry_valid| |done].
  intros [] o' Ha Ho'; try done. split; [|apply Ho']. by intros us [= <-].
Qed.
End accepted.
End config.

(** ** From the flags to the server *)

Section flags.
Context {F T Cert Pool IP : Type} `{E : !Env F T Cert Pool IP}.

(** [configureClusterOpts] only changes the cluster and the routes. *)
Lemma configureClusterOpts_frame (opts o : @Options F Cert Pool) : configureClusterOpts opts = Ok o ->
  exists cl rs, o = opts {{ op_Cluster := cl; op_Routes := rs }}.
Proof.
  assert (Hid : forall x : @Options F Cert Pool, x = x {{ op_Cluster := op_Cluster x; op_Routes := op_Routes x }}) by (by intros []).
  unfold configureClusterOpts. case_decide; [case_decide; [done|]; intros [= <-]; eauto|].
  assert (Hov : forall x, (if decide (cl_ListenStr (op_Cluster opts) <> []) then cluster_override opts else Ok opts) = Ok x ->
    exists cl, x = opts {{ op_Cluster := cl }}).
  { intros x. case_decide; [|intros [= <-]; exists (op_Cluster opts); by destruct opts].
    unfold cluster_override. destruct (url_Parse _) as [u|]; [|done]. destruct (SplitHostPort _) as [[h p]|]; [|done].
    destruct (Sscan p) as [n|]; [|done]. destruct (u_user u) as [[? [?|]]|]; intros [= <-]; by eexists. }
  destruct (if decide (cl_ListenStr (op_Cluster opts) <> []) then cluster_override opts else Ok opts) as [x| |]; cbn; [|done..].
  destruct (Hov x eq_refl) as [cl ->]. destruct opts as [??????????????????? ????? [rs|]]; cbn;
    [intros [= <-]; by eexists cl, (Some rs)|].
  case_decide; intros [= <-]; by eexists cl, _.
Qed.

(** What the options of the server keep from those of the file. *)
Definition kept_from_file (o fo : @Options F Cert Pool) : Prop :=
  op_TLSConfig o = op_TLSConfig fo /\ op_Users o = op_Users fo /\
  op_HTTPSPort o = op_HTTPSPort fo /\ op_Syslog o = op_Syslog fo /\ op_RemoteSyslog o = op_RemoteSyslog fo /\
  op_HealthAgent o = op_HealthAgent fo /\ op_HealthRank o = op_HealthRank fo /\
  op_HealthLease o = 0%Z /\ op_HealthBeat o = 0%Z.

Lemma MergeOptions_kept (fo flags : @Options F Cert Pool) :
  op_HealthLease fo = 0%Z -> op_HealthBeat fo = 0%Z ->
  kept_from_file (MergeOptions fo flags) fo /\ op_TLS (MergeOptions fo flags) = op_TLS fo /\
  op_TLSVerify (MergeOptions fo flags) = op_TLSVerify fo /\
  op_Logtime (MergeOptions fo flags) = op_Logtime flags || op_Logtime fo.
Proof.
  intros Hl Hb. unfold MergeOptions, mergeRoutes, kept_from_file.
  destruct (decide (op_RoutesStr flags <> [])); cbn; by split_and!.
Qed.
End flags.

(** ** Properties *)

(** An order of visiting maps. *)
Abbreviation visits F T := (list (bytes + nat) -> gmap bytes (value F T) -> list (bytes * value F T)).

(** An environment in which certificates and files are always there, URLs are
    host and port, and floats are integers. *)
Definition ex_env : Env Z unit unit unit bytes := {|
  float64 z := z; fdiv a b := (a / b)%Z; fzero f := bool_decide (f = 0%Z);
  fmt_q s := s; fmt_v _ := []; fmt_T _ := [];
  LoadX509KeyPair _ _ := inl tt; ParseCertificate c := inl c; ReadFile f := inl f; AppendCertsFromPEM _ := Some tt;
  url_Parse s := inl (MkURL s None s); strings_TrimSpace s := s;
  InterfaceAddrs := None; ParseCIDR := Some; ParseIP := Some; LookupHost _ := None; IP_Equal a b := bool_decide (a = b);
  addr_error s := s; Sscan s := match Atoi s with Some n => inl n | None => inr s end;
|}.
#[local] Existing Instance ex_env.

Abbreviation ex_value := (value Z unit).

Definition ex_map (l : list (string * ex_value)) : gmap bytes ex_value :=
  list_to_map ((fun kv => (bs kv.1, kv.2)) <$> l).

(** Two orders. *)
Definition forwards : visits Z unit := fun _ m => map_to_list m.
Definition backwards : visits Z unit := fun _ m => reverse (map_to_list m).

Lemma forwards_lawful : lawful forwards.
Proof. by intros at_ m. Qed.

Lemma backwards_lawful : lawful backwards.
Proof. intros at_ m. unfold backwards. by rewrite reverse_Permutation. Qed.

Definition ex_user (name : string) (perms : list (string * ex_value)) : ex_value :=
  VMap (ex_map ([("user", VString (bs name)); ("password", VString (bs "pw"))] ++ perms)).

Definition ex_config : gmap bytes ex_value :=
  ex_map [("Listen", VString (bs "[::1]:4242"));
          ("ping_interval", VInt 60);
          ("authorization", VMap (ex_map
             [("timeout", VFloat 2%Z);
              ("default_permissions", VMap (ex_map [("publish", VString (bs "a.*"))]));
              ("users", VArray [ex_user "alice" [("permissions", VMap (ex_map [("subscribe", VArray [VString (bs "b.>")])]))];
                                ex_user "bob" []])]));
          ("cluster", VMap (ex_map [("port", VInt 5222); ("routes", VArray [VString (bs "h1:5222"); VString (bs "h2:5222")])]))].

(** C16. The order in which Go visits the maps of a configuration does not
    matter when no two keys write the same field: for any two orders of
    every map in it, at any place, either both give the same options or both
    fail. *)
Theorem config_order_irrelevant {F T Cert Pool IP : Type} `{!Env F T Cert Pool IP} (range1 range2 : visits F T) (m : gmap bytes (value F T))
  (H1 : lawful range1) (H2 : lawful range2) (Hclean : clean_config m = true) :
  agree eq (process_config range1 m) (process_config range2 m).
Proof. by apply process_config_agree. Qed.

Lemma config_order_irrelevant_witness :
  agree eq (process_config forwards ex_config) (process_config backwards ex_config).
Proof.
  apply (config_order_irrelevant forwards backwards ex_config); [exact forwards_lawful|exact backwards_lawful|].
  by vm_compute.
Defined.

(** The example is accepted, and the users without permissions of their own
    have the default. *)
Example ex_config_accepted :
  match process_config forwards ex_config with
  | Ok o => op_Host o = bs "::1" /\ op_Port o = 4242%Z /\ op_AuthTimeout o = 2%Z /\
      option_map (fmap u_permissions) (op_Users o) = Some [Some ([], [bs "b.>"]); Some ([bs "a.*"], [])]
  | _ => False
  end.
Proof. by vm_compute. Qed.

(** Where two keys write the same field, the order shows: the port is 1 or 2. *)
Example config_order_shows :
  let m := ex_map [("listen", VString (bs "h:1")); ("port", VInt 2)] in
  clean_config m = false /\
  match process_config forwards m, process_config backwards m with
  | Ok o1, Ok o2 => op_Port o1 <> op_Port o2
  | _, _ => False
  end.
Proof. by vm_compute. Qed.

(** C17. The type assertions of the code are a type system for configurations,
    and an exact one: in whatever order the maps are visited, a configuration
    whose entries have the types of their keys never makes the server panic,
    and one that is accepted has these types.  Since no value has the type of
    [health_lease] and [health_beat], a configuration with one of these keys
    is never accepted. *)
Theorem config_types_exact {F T Cert Pool IP : Type} `{!Env F T Cert Pool IP} (range : visits F T) (m : gmap bytes (value F T))
  (Hrange : lawful range) :
  (all_entries config_typed m = true -> process_config range m <> Panic) /\
  (forall o, process_config range m = Ok o -> all_entries config_typed m = true).
Proof. apply process_config_exact, Hrange. Qed.

Lemma config_types_exact_witness :
  process_config backwards ex_config <> Panic /\
  forall o, process_config backwards (ex_map [("health_lease", VInt 12)]) <> Ok o.
Proof.
  split; [apply (config_types_exact backwards ex_config backwards_lawful); by vm_compute|].
  intros o Ho. apply (config_types_exact backwards _ backwards_lawful) in Ho. by vm_compute in Ho.
Defined.

(** What the server gets from an accepted configuration file.  Every user
    has a name, a password and valid subjects; the users, the TLS settings,
    the HTTPS port, the logging and the health agent are those of the file
    whatever the flags say, so that the flags for TLS, for a single user and
    for the health agent have no effect; the lease and the beat are zero; the
    time stamps of the log cannot be switched off when the flag is on; and if
    the file lists users, clients are checked against exactly that list. *)
Theorem config_file_decides {F T Cert Pool IP : Type} `{!Env F T Cert Pool IP} (range : visits F T)
  (ParseFile : bytes -> outcome (gmap bytes (value F T))) (file : bytes) (flags o : @Options F Cert Pool)
  (m : gmap bytes (value F T)) (CompareHashAndPassword : bytes -> bytes -> bool)
  (Hfile : file <> []) (Hparse : ParseFile file = Ok m)
  (Hmain : main_options range ParseFile file flags = Ok o) :
  exists fo, process_config range m = Ok fo /\ kept_from_file o fo /\
    (op_Logtime flags = true -> op_Logtime o = true) /\
    forall us, op_Users fo = Some us -> Forall user_valid us /\
      fst (configureAuth CompareHashAndPassword o) = Some (MultiUser_Check CompareHashAndPassword (NewMultiUser us)).
Proof.
  unfold main_options, ProcessConfigFile in Hmain. rewrite decide_True, decide_False, Hparse in Hmain by done.
  cbn [mbind outcome_bind] in Hmain. destruct (process_config range m) as [fo| |] eqn:Efo; cbn [mbind outcome_bind] in Hmain; [|done..].
  exists fo. split; [done|]. destruct (process_config_valid range m fo Efo) as (Hus & Ht & Hv & Hl & Hb).
  destruct (MergeOptions_kept fo flags Hl Hb) as (Hk & Ht' & Hv' & Hlog). set (mo := MergeOptions fo flags) in *.
  destruct (RemoveSelfReference _ _) as [rs| |]; cbn [mbind outcome_bind] in Hmain; [|done..].
  assert (Etls : configureTLS (mo {{ op_Routes := rs }}) = Ok (mo {{ op_Routes := rs }})).
  { unfold configureTLS. replace (op_TLS (mo {{ op_Routes := rs }})) with (op_TLS mo) by done.
    replace (op_TLSVerify (mo {{ op_Routes := rs }})) with (op_TLSVerify mo) by done. by rewrite Ht', Hv', Ht, Hv. }
  rewrite Etls in Hmain. cbn [mbind outcome_bind] in Hmain.
  apply configureClusterOpts_frame in Hmain as (cl & rs' & ->). split_and!; [exact Hk| |].
  - intros Hf. transitivity (op_Logtime mo); [done|]. by rewrite Hlog, Hf.
  - intros us Hu. split; [by apply Hus|]. unfold configureAuth. cbn [fst].
    match goal with |- context [op_Users ?x] => replace (op_Users x) with (op_Users mo) by done end.
    destruct Hk as (_ & Hku & _). by rewrite Hku, Hu.
Qed.

Lemma config_file_decides_witness :
  let flags := Options_zero {{ op_TLS := true; op_TLSCert := bs "c"; op_TLSKey := bs "k"; op_HealthAgent := true;
                               op_Username := bs "root"; op_Password := bs "pw" }} in
  exists o fo, main_options forwards (fun _ => Ok ex_config) (bs "f") flags = Ok o /\
    process_config forwards ex_config = Ok fo /\ kept_from_file o fo /\
    op_TLSConfig fo = None /\ op_HealthAgent fo = false.
Proof.
  intros flags. eexists _. destruct (process_config forwards ex_config) as [fo'| |] eqn:Efo; [|by vm_compute in Efo..].
  exists fo'. split; [vm_compute; reflexivity|].
  destruct (config_file_decides forwards (fun _ => Ok ex_config) (bs "f") flags _ ex_config ex_bcrypt
    ltac:(done) eq_refl ltac:(vm_compute; reflexivity)) as (fo & E1 & Hk & _).
  rewrite Efo in E1. injection E1 as <-. split_and!; [done|exact Hk|..]; revert Efo; vm_compute; by intros [= <-].
Defined.
