(* ===== verification/Monitor.v ===== *)
(** * Monitor: the pages of the HTTP monitor

    [src/server/monitor.go] and [monitor_sort_opts.go]: [HandleConnz] with
    its sorting and paging, [HandleRoutez], [ResponseHandler] and [myUptime].
    A handler takes the parameters of the request and what it reads of the
    connections, in the order in which Go visits their map, and yields the
    value that is turned into JSON.  [sort.Sort] is the class [GoSort] with its
    documented law.  A panic of a handler does not end the server, since
    [net/http] recovers it, but a mutex that is held then stays locked: the
    outcome says which one. *)

From S2P Require Import Prelude Util Options.
From stdpp Require Import sorting.
Open Scope Z_scope.

(** ** Sorting *)

(** [sort.Sort]: the elements in an order that [less] agrees with. *)
Class GoSort := {
  go_sort {A : Type} : (A -> A -> bool) -> list A -> list A;
  go_sort_Permutation {A} (less : A -> A -> bool) l : go_sort less l ≡ₚ l;
  go_sort_Sorted {A} (less : A -> A -> bool) (f : A -> Z) l :
    (forall a b, less a b = (f a <? f b)) -> StronglySorted (fun a b => f a <= f b) (go_sort less l);
}.

(** ** Requests *)

(** The value that [strconv.Atoi] returns beside its error. *)
Definition atoi_value (s : bytes) : Z :=
  let '(neg, digits) := match s with
    | "-"%char :: d => (true, d)
    | "+"%char :: d => (false, d)
    | d => (false, d)
    end in
  if bool_decide (digits <> []) && forallb is_digit digits then
    let n := if neg : bool then - dec_value digits else dec_value digits in
    Z.max (- 2 ^ 63) (Z.min n (2 ^ 63 - 1))
  else 0.

Record query := Query {
  q_sort : bytes;
  q_auth : bytes;
  q_subs : bytes;
  q_offset : bytes;
  q_limit : bytes;
  q_callback : bytes;
}.

(** ** Sort options *)

Definition byCid : bytes := bs "cid".
Definition bySubs : bytes := bs "subs".
Definition byPending : bytes := bs "pending".
Definition byOutMsgs : bytes := bs "msgs_to".
Definition byInMsgs : bytes := bs "msgs_from".
Definition byOutBytes : bytes := bs "bytes_to".
Definition byInBytes : bytes := bs "bytes_from".
Definition byLast : bytes := bs "last".
Definition byIdle : bytes := bs "idle".
Definition byUptime : bytes := bs "uptime".

Definition IsValid (s : bytes) : bool :=
  bool_decide (s ∈ [[]; byCid; bySubs; byPending; byOutMsgs; byInMsgs; byOutBytes; byInBytes; byLast; byIdle; byUptime]).

(** ** Connections *)

(** [client.nc]: nil, a TCP or TLS connection with its address, or that of an
    internal client. *)
Inductive net_conn :=
| NoConn
| TCPConn (ip : bytes) (port : Z)
| TLSConn (ip : bytes) (port : Z) (version cipher : Z)
| InternalConn.

(** What the handlers read of a client. *)
Record mclient := MClient {
  mc_cid : Z;
  mc_subs : list bytes;     (* the subjects of client.subs *)
  mc_buffered : Z;
  mc_outMsgs : Z;
  mc_inMsgs : Z;
  mc_outBytes : Z;
  mc_inBytes : Z;
  mc_start : Z;
  mc_last : Z;
  mc_name : bytes;
  mc_lang : bytes;
  mc_version : bytes;
  mc_username : bytes;
  mc_nc : net_conn;
}.

Record ConnInfo := MkConnInfo {
  ci_Cid : Z;
  ci_IP : bytes;
  ci_Port : Z;
  ci_Start : Z;
  ci_LastActivity : Z;
  ci_Uptime : bytes;
  ci_Idle : bytes;
  ci_Pending : Z;
  ci_InMsgs : Z;
  ci_OutMsgs : Z;
  ci_InBytes : Z;
  ci_OutBytes : Z;
  ci_NumSubs : Z;
  ci_Name : bytes;
  ci_Lang : bytes;
  ci_Version : bytes;
  ci_TLS : option (bytes * bytes);   (* TLSVersion, TLSCipher *)
  ci_AuthorizedUser : bytes;
  ci_Subs : list bytes;
}.

Record Connz := MkConnz {
  cz_NumConns : Z;
  cz_Total : Z;
  cz_Offset : Z;
  cz_Limit : Z;
  cz_Conns : list ConnInfo;
}.

Definition DefaultConnListSize : Z := 1024.

(** The outcome of a handler: a bad request, a value, or a panic with the
    client whose mutex stays locked. *)
Inductive handled (A : Type) :=
| BadRequest (msg : bytes)
| Page (x : A)
| Panicked (locked : option Z).
Arguments BadRequest {A} msg.
Arguments Page {A} x.
Arguments Panicked {A} locked.

(** ** Durations *)

(** Division and remainder of [time.Duration] round towards zero. *)
Definition fmt_int (n : Z) : bytes := itoa n.

Definition myUptime (d : Z) : bytes :=
  let tsecs := Z.quot d 1000000000 in
  let tmins := Z.quot tsecs 60 in
  let thrs := Z.quot tmins 60 in
  let tdays := Z.quot thrs 24 in
  let tyrs := Z.quot tdays 365 in
  let unit (n : Z) (u : string) := fmt_int n ++ bs u in
  if 0 <? tyrs then
    unit tyrs "y" ++ unit (Z.rem tdays 365) "d" ++ unit (Z.rem thrs 24) "h" ++ unit (Z.rem tmins 60) "m" ++ unit (Z.rem tsecs 60) "s"
  else if 0 <? tdays then
    unit tdays "d" ++ unit (Z.rem thrs 24) "h" ++ unit (Z.rem tmins 60) "m" ++ unit (Z.rem tsecs 60) "s"
  else if 0 <? thrs then unit thrs "h" ++ unit (Z.rem tmins 60) "m" ++ unit (Z.rem tsecs 60) "s"
  else if 0 <? tmins then unit tmins "m" ++ unit (Z.rem tsecs 60) "s"
  else unit tsecs "s".

(** ** TLS *)

(** [%x] of a [uint16]; the fuel is enough for its four digits. *)
Fixpoint hex_digits (fuel : nat) (n : Z) (acc : bytes) : bytes :=
  match fuel with
  | O => acc
  | S fuel' =>
      let d := Z.to_nat (Z.land n 15) in
      let acc := default "0"%char (bs "0123456789abcdef" !! d) :: acc in
      if Z.shiftr n 4 =? 0 then acc else hex_digits fuel' (Z.shiftr n 4) acc
  end.

Definition fmt_x (n : Z) : bytes := hex_digits 4 n [].
Definition unknown (n : Z) : bytes := bs "Unknown [" ++ fmt_x n ++ bs "]".

Definition tlsVersion (ver : Z) : bytes :=
  if ver =? 0x0301 then bs "1.0" else if ver =? 0x0302 then bs "1.1" else if ver =? 0x0303 then bs "1.2" else unknown ver.

Definition tlsCipher_table : list (Z * bytes) :=
  [(0x0005, bs "TLS_RSA_WITH_RC4_128_SHA"); (0x000a, bs "TLS_RSA_WITH_3DES_EDE_CBC_SHA");
   (0x002f, bs "TLS_RSA_WITH_AES_128_CBC_SHA"); (0x0035, bs "TLS_RSA_WITH_AES_256_CBC_SHA");
   (0xc007, bs "TLS_ECDHE_ECDSA_WITH_RC4_128_SHA"); (0xc009, bs "TLS_ECDHE_ECDSA_WITH_AES_128_CBC_SHA");
   (0xc00a, bs "TLS_ECDHE_ECDSA_WITH_AES_256_CBC_SHA"); (0xc011, bs "TLS_ECDHE_RSA_WITH_RC4_128_SHA");
   (0xc012, bs "TLS_ECDHE_RSA_WITH_3DES_EDE_CBC_SHA"); (0xc013, bs "TLS_ECDHE_RSA_WITH_AES_128_CBC_SHA");
   (0xc014, bs "TLS_ECDHE_RSA_WITH_AES_256_CBC_SHA"); (0xc02f, bs "TLS_ECDHE_RSA_WITH_AES_128_GCM_SHA256");
   (0xc02b, bs "TLS_ECDHE_ECDSA_WITH_AES_128_GCM_SHA256"); (0xc030, bs "TLS_ECDHE_RSA_WITH_AES_256_GCM_SHA384");
   (0xc02c, bs "TLS_ECDHE_ECDSA_WITH_AES_256_GCM_SHA384")].

Definition tlsCipher (cs : Z) : bytes :=
  match find (fun e => fst e =? cs) tlsCipher_table with Some e => snd e | None => unknown cs end.

(** ** [HandleConnz] *)

Record Pair := MkPair { pr_Key : mclient; pr_Val : Z }.

Definition sort_value (now : Z) (sortOpt : bytes) (c : mclient) : Z :=
  if decide (sortOpt = byCid) then mc_cid c
  else if decide (sortOpt = bySubs) then Z.of_nat (length (mc_subs c))
  else if decide (sortOpt = byPending) then mc_buffered c
  else if decide (sortOpt = byOutMsgs) then mc_outMsgs c
  else if decide (sortOpt = byInMsgs) then mc_inMsgs c
  else if decide (sortOpt = byOutBytes) then mc_outBytes c
  else if decide (sortOpt = byInBytes) then mc_inBytes c
  else if decide (sortOpt = byLast) then mc_last c
  else if decide (sortOpt = byIdle) then now - mc_last c
  else 0.

(** [pairs[minoff:maxoff]]; the capacity is the length. *)
Definition slice_pairs {A} (l : list A) (minoff maxoff : Z) : option (list A) :=
  if decide (0 <= minoff /\ minoff <= maxoff /\ maxoff <= Z.of_nat (length l))
  then Some (take (Z.to_nat (maxoff - minoff)) (drop (Z.to_nat minoff) l)) else None.

(** One round of the loop that fills [c.Conns]: [None] is a panic while the
    client is locked.  The field that was sorted by keeps the value it had. *)
Definition conn_info (tlsRequired : bool) (now : Z) (sortOpt : bytes) (subs auth : Z) (p : Pair) : option ConnInfo :=
  let c := pr_Key p in
  let v (opt : bytes) (current : Z) := if decide (sortOpt = opt) then pr_Val p else current in
  let last := v byLast (mc_last c) in
  tls ← (if tlsRequired then
           match mc_nc c with
           | NoConn => Some None
           | TLSConn _ _ version cipher => Some (Some (tlsVersion version, tlsCipher cipher))
           | _ => None
           end
         else Some None);
  let '(ip, port) := match mc_nc c with
    | TCPConn ip port | TLSConn ip port _ _ => (ip, port)
    | _ => ([], 0)
    end in
  Some (MkConnInfo (mc_cid c) ip port (mc_start c) last (myUptime (now - mc_start c))
    (if decide (sortOpt = byIdle) then myUptime (pr_Val p) else myUptime (now - mc_last c))
    (v byPending (mc_buffered c)) (v byInMsgs (mc_inMsgs c)) (v byOutMsgs (mc_outMsgs c))
    (v byInBytes (mc_inBytes c)) (v byOutBytes (mc_outBytes c))
    (wrapu32 (v bySubs (Z.of_nat (length (mc_subs c)))))
    (mc_name c) (mc_lang c) (mc_version c) tls
    (if decide (auth = 1) then mc_username c else [])
    (if decide (subs = 1) then mc_subs c else [])).

Fixpoint conn_infos (tlsRequired : bool) (now : Z) (sortOpt : bytes) (subs auth : Z) (ps : list Pair) : list ConnInfo + Z :=
  match ps with
  | [] => inl []
  | p :: ps' =>
      match conn_info tlsRequired now sortOpt subs auth p with
      | None => inr (mc_cid (pr_Key p))
      | Some ci =>
          match conn_infos tlsRequired now sortOpt subs auth ps' with
          | inl cis => inl (ci :: cis)
          | inr cid => inr cid
          end
      end
  end.

Section handlers.
Context `{GoSort}.

(** [sort.Sort], or [sort.Sort(sort.Reverse)] unless by cid. *)
Definition sort_pairs (sortOpt : bytes) (ps : list Pair) : list Pair :=
  if decide (sortOpt = byCid) then go_sort (fun a b => pr_Val a <? pr_Val b) ps
  else go_sort (fun a b => pr_Val b <? pr_Val a) ps.

Definition sort_option (q : query) : bytes :=
  if decide (q_sort q = [] \/ q_sort q = byUptime) then byCid else q_sort q.

(** The clients are given in the order in which the map is visited. *)
Definition HandleConnz (tlsRequired : bool) (now : Z) (clients : list mclient) (q : query) : handled Connz :=
  let sortOpt := sort_option q in
  if negb (IsValid sortOpt) then BadRequest (bs "Invalid sorting option: " ++ sortOpt)
  else
    let auth := atoi_value (q_auth q) in
    let subs := atoi_value (q_subs q) in
    let offset := atoi_value (q_offset q) in
    let limit := if decide (atoi_value (q_limit q) = 0) then DefaultConnListSize else atoi_value (q_limit q) in
    let totalClients := Z.of_nat (length clients) in
    let pairs := (fun c => MkPair c (sort_value now sortOpt c)) <$> clients in
    let pairs := if 0 <? totalClients then sort_pairs sortOpt pairs else pairs in
    let minoff := if totalClients <? offset then totalClients else offset in
    let maxoff := wrap64 (offset + limit) in
    let maxoff := if totalClients <? maxoff then totalClients else maxoff in
    match slice_pairs pairs minoff maxoff with
    | None => Panicked None
    | Some pairs =>
        match conn_infos tlsRequired now sortOpt subs auth pairs with
        | inr cid => Panicked (Some cid)
        | inl conns => Page (MkConnz (Z.of_nat (length pairs)) totalClients offset limit conns)
        end
    end.

End handlers.

(** ** [HandleRoutez] *)

(** What is read of a route: the client, its remote and how it was made. *)
Record mroute := MRoute {
  mr_client : mclient;
  mr_remoteID : bytes;
  mr_didSolicit : bool;
  mr_explicit : bool;
}.

(** [Pending] is never set. *)
Record RouteInfo := MkRouteInfo {
  ri_Rid : Z;
  ri_RemoteID : bytes;
  ri_DidSolicit : bool;
  ri_IsConfigured : bool;
  ri_IP : bytes;
  ri_Port : Z;
  ri_InMsgs : Z;
  ri_OutMsgs : Z;
  ri_InBytes : Z;
  ri_OutBytes : Z;
  ri_NumSubs : Z;
  ri_Subs : list bytes;
}.

(** Only a plain TCP connection has its address reported. *)
Definition HandleRoutez (routes : list mroute) (q : query) : Z * list RouteInfo :=
  let subs := atoi_value (q_subs q) in
  (Z.of_nat (length routes),
   (fun r =>
      let c := mr_client r in
      let '(ip, port) := match mc_nc c with TCPConn ip port => (ip, port) | _ => ([], 0) end in
      MkRouteInfo (mc_cid c) (mr_remoteID r) (mr_didSolicit r) (mr_explicit r) ip port
        (mc_inMsgs c) (mc_outMsgs c) (mc_inBytes c) (mc_outBytes c) (wrapu32 (Z.of_nat (length (mc_subs c))))
        (if decide (subs = 1) then mc_subs c else [])) <$> routes).

(** [ResponseHandler]: the content type and the body. *)
Definition ResponseHandler (q : query) (data : bytes) : bytes * bytes :=
  if decide (q_callback q <> []) then (bs "application/javascript", q_callback q ++ bs "(" ++ data ++ bs ")")
  else (bs "application/json", data).

(** ** A page *)

Definition page_cids (h : handled Connz) : list Z :=
  match h with Page cz => ci_Cid <$> cz_Conns cz | _ => [] end.

(** A connection that the handler can report. *)
Definition reportable (tlsRequired : bool) (c : mclient) : bool :=
  negb tlsRequired || match mc_nc c with NoConn | TLSConn _ _ _ _ => true | _ => false end.

Lemma conn_info_spec tlsR now so subs auth p :
  match conn_info tlsR now so subs auth p with
  | Some ci => reportable tlsR (pr_Key p) = true /\ ci_Cid ci = mc_cid (pr_Key p)
  | None => reportable tlsR (pr_Key p) = false
  end.
Proof.
  unfold conn_info, reportable. destruct tlsR; cbn; destruct (mc_nc (pr_Key p)); by cbn.
Qed.

Lemma conn_infos_ok tlsR now so subs auth ps : Forall (fun p => reportable tlsR (pr_Key p) = true) ps ->
  exists cis, conn_infos tlsR now so subs auth ps = inl cis /\ ci_Cid <$> cis = mc_cid ∘ pr_Key <$> ps.
Proof.
  induction 1 as [|p ps Hp _ (cis & IH & Hc)]; [by exists []|]. cbn.
  pose proof (conn_info_spec tlsR now so subs auth p) as Hs. destruct (conn_info _ _ _ _ _ _) as [ci|]; [|congruence].
  rewrite IH. exists (ci :: cis). split; [done|]. cbn. f_equal; [apply Hs|done].
Qed.

Lemma conn_infos_panic tlsR now so subs auth ps cid : conn_infos tlsR now so subs auth ps = inr cid ->
  exists p, p ∈ ps /\ mc_cid (pr_Key p) = cid /\ reportable tlsR (pr_Key p) = false.
Proof.
  induction ps as [|p ps IH]; cbn; [done|]. pose proof (conn_info_spec tlsR now so subs auth p) as Hs.
  destruct (conn_info _ _ _ _ _ _) as [ci|].
  - destruct (conn_infos _ _ _ _ _ ps) as [|cid'] eqn:E; [done|]. intros [= ->]. destruct (IH eq_refl) as (x & ? & ?).
    exists x. split; [by right|done].
  - intros [= <-]. exists p. split_and!; [left|done|done].
Qed.

(** ** Numbers in a request *)

Lemma atoi_value_itoa n : 0 <= n < 2 ^ 63 -> atoi_value (itoa n) = n.
Proof.
  intros Hn. unfold atoi_value, itoa. rewrite decide_False by lia.
  destruct (fmt_d_ok n) as (Hd & Hv & Hne); [lia|]. destruct (fmt_d n) as [|b d] eqn:E; [done|].
  assert (Hb : is_digit b = true) by (cbn in Hd; by apply andb_prop in Hd as []).
  assert (Hm : match b with "-"%char => (true, d) | "+"%char => (false, d) | _ => (false, b :: d) end = (false, b :: d)).
  { revert Hb. clear. destruct b as [[] [] [] [] [] [] [] []]; done. }
  rewrite Hm.
  cbv beta iota zeta. rewrite bool_decide_true, Hd, Hv by done. cbn. lia.
Qed.

(** ** Pages side by side *)

Lemma chunks {A} (L : nat) (l : list A) n :
  concat ((fun i => take L (drop (i * L) l)) <$> seq 0 n) = take (n * L) l.
Proof.
  induction n as [|n IH]; [done|]. rewrite seq_S, fmap_app, concat_app, IH. cbn [fmap list_fmap concat]. rewrite app_nil_r.
  replace (S n * L)%nat with (n * L + L)%nat by lia. cbn [Nat.add]. apply take_take_drop.
Qed.

Section paging.
Context `{GoSort}.

Lemma sort_pairs_perm so ps : sort_pairs so ps ≡ₚ ps.
Proof. unfold sort_pairs. case_decide; apply go_sort_Permutation. Qed.

Lemma sort_pairs_cid ps : StronglySorted (fun a b => pr_Val a <= pr_Val b) (sort_pairs byCid ps).
Proof. unfold sort_pairs. rewrite decide_True by done. by apply (go_sort_Sorted _ pr_Val). Qed.

(** The sorted cids do not depend on the order of the map. *)
Definition sorted_cids (clients : list mclient) : list Z :=
  mc_cid ∘ pr_Key <$> sort_pairs byCid ((fun c => MkPair c (mc_cid c)) <$> clients).

Lemma sorted_cids_perm clients : sorted_cids clients ≡ₚ mc_cid <$> clients.
Proof. unfold sorted_cids. rewrite sort_pairs_perm, <- list_fmap_compose. done. Qed.

Lemma sorted_cids_sorted clients : StronglySorted Z.le (sorted_cids clients).
Proof.
  unfold sorted_cids. set (ps := _ <$> clients).
  assert (Hv : Forall (fun p => pr_Val p = mc_cid (pr_Key p)) (sort_pairs byCid ps)).
  { rewrite (sort_pairs_perm byCid ps). unfold ps. apply Forall_fmap, Forall_true. done. }
  pose proof (sort_pairs_cid ps) as Hs. induction Hs as [|p l _ IH Hp]; cbn; [constructor|].
  apply Forall_cons in Hv as [Hvp Hv]. constructor; [by apply IH|].
  apply Forall_fmap. eapply Forall_impl; [exact (proj2 (Forall_and _ _) (conj Hp Hv))|].
  intros x [Hx Hxv]. cbn. lia.
Qed.

Lemma sorted_cids_unique clients clients' : clients ≡ₚ clients' -> sorted_cids clients = sorted_cids clients'.
Proof.
  intros Hp. apply (StronglySorted_unique Z.le); [apply sorted_cids_sorted..|].
  by rewrite !sorted_cids_perm, Hp.
Qed.

(** A request for a page by cid. *)
Definition page_query (offset limit : Z) : query := Query [] [] [] (itoa offset) (itoa limit) [].

Lemma HandleConnz_page tlsR now clients offset limit :
  Forall (fun c => reportable tlsR c = true) clients -> 0 <= offset -> 0 < limit -> offset + limit < 2 ^ 63 ->
  page_cids (HandleConnz tlsR now clients (page_query offset limit)) =
  take (Z.to_nat limit) (drop (Z.to_nat offset) (sorted_cids clients)).
Proof.
  intros Hr Ho Hl Hm. unfold HandleConnz. replace (sort_option (page_query offset limit)) with byCid by done.
  replace (IsValid byCid) with true by done. cbn [negb page_query q_auth q_subs q_offset q_limit].
  rewrite !atoi_value_itoa by lia. rewrite decide_False by lia. rewrite wrap64_id by (unfold in_int64; lia).
  set (ps := _ <$> clients).
  assert (Hps : (if 0 <? Z.of_nat (length clients) then sort_pairs byCid ps else ps) = sort_pairs byCid ps).
  { destruct clients as [|c cs]; [|done]. cbn. symmetry. apply Permutation_nil_r. by rewrite sort_pairs_perm. }
  rewrite Hps. set (sp := sort_pairs byCid ps).
  assert (Hlen : length sp = length clients) by (unfold sp, ps; by rewrite sort_pairs_perm, length_fmap).
  assert (Hsl : slice_pairs sp (if Z.of_nat (length clients) <? offset then Z.of_nat (length clients) else offset)
      (if Z.of_nat (length clients) <? offset + limit then Z.of_nat (length clients) else offset + limit) =
    Some (take (Z.to_nat limit) (drop (Z.to_nat offset) sp))).
  { unfold slice_pairs. rewrite Hlen. destruct (Z.ltb_spec (Z.of_nat (length clients)) offset), (Z.ltb_spec (Z.of_nat (length clients)) (offset + limit));
      rewrite decide_True by lia; f_equal.
    - rewrite !drop_ge by lia. by rewrite !take_nil.
    - lia.
    - rewrite !take_ge; [done|rewrite length_drop; lia..].
    - do 2 f_equal. lia. }
  rewrite Hsl. destruct (conn_infos_ok tlsR now byCid (atoi_value []) (atoi_value []) (take (Z.to_nat limit) (drop (Z.to_nat offset) sp)))
    as (cis & -> & Hc).
  { apply Forall_take, Forall_drop. unfold sp. rewrite (sort_pairs_perm byCid ps).
    unfold ps. by apply Forall_fmap. }
  cbn. rewrite Hc, fmap_take, fmap_drop. done.
Qed.
End paging.

(** ** Properties *)

(** Insertion sort is a [sort.Sort]. *)
Fixpoint insert_sorted {A} (less : A -> A -> bool) (x : A) (l : list A) : list A :=
  match l with
  | [] => [x]
  | y :: l' => if less y x then y :: insert_sorted less x l' else x :: l
  end.

Lemma insert_sorted_perm {A} (less : A -> A -> bool) x l : insert_sorted less x l ≡ₚ x :: l.
Proof.
  induction l as [|y l IH]; cbn; [done|]. destruct (less y x); [|done]. rewrite IH. constructor.
Qed.

Lemma insert_sorted_sorted {A} (less : A -> A -> bool) (f : A -> Z) x l :
  (forall a b, less a b = (f a <? f b)) -> StronglySorted (fun a b => f a <= f b) l ->
  StronglySorted (fun a b => f a <= f b) (insert_sorted less x l).
Proof.
  intros Hless. induction 1 as [|y l Hl IH Hy]; cbn; [by repeat constructor|]. rewrite Hless.
  destruct (Z.ltb_spec (f y) (f x)).
  - constructor; [done|]. rewrite insert_sorted_perm. constructor; [lia|done].
  - constructor; [by constructor|]. constructor; [lia|]. eapply Forall_impl; [exact Hy|]. cbn. lia.
Qed.

#[export] Program Instance insertion_sort : GoSort := {| go_sort _ less l := foldr (insert_sorted less) [] l |}.
Next Obligation. intros A less l. induction l as [|x l IH]; cbn; [done|]. by rewrite insert_sorted_perm, IH. Qed.
Next Obligation.
  intros A less f l Hless. induction l as [|x l IH]; cbn; [constructor|]. by apply insert_sorted_sorted.
Qed.

(** C31. Walking through the pages of /connz shows every client once, in the
    order of the cids: while the set of clients stays the same and each of them
    can be reported (on a server with TLS, none is an internal client or
    another connection without TLS, on which a page panics), with pages of [L]
    clients and enough of them, at times and in orders of the map that differ
    from request to request, the cids of the pages one after the other are
    sorted and are those of the clients. *)
Theorem connz_walk `{!GoSort} tlsR (L n : nat) (now : nat -> Z) (order : nat -> list mclient) clients
  (Horder : forall i, order i ≡ₚ clients) (Hrep : Forall (fun c => reportable tlsR c = true) clients)
  (HL : (0 < L)%nat) (Hn : (length clients <= n * L)%nat) (Hmax : Z.of_nat (n * L) < 2 ^ 63) :
  let page i := HandleConnz tlsR (now i) (order i) (page_query (Z.of_nat (i * L)) (Z.of_nat L)) in
  let walk := concat ((fun i => page_cids (page i)) <$> seq 0 n) in
  StronglySorted Z.le walk /\ walk ≡ₚ mc_cid <$> clients.
Proof.
  intros page walk. assert (Hwalk : walk = sorted_cids clients).
  { unfold walk. transitivity (concat ((fun i => take L (drop (i * L) (sorted_cids clients))) <$> seq 0 n)).
    - f_equal. apply list_fmap_ext. intros k i [Hk Hi]%lookup_seq. unfold page.
      assert (Z.of_nat (i * L) + Z.of_nat L <= Z.of_nat (n * L)) by (rewrite <- Nat2Z.inj_add; apply inj_le; nia).
      rewrite HandleConnz_page; [|by rewrite Horder|lia..]. rewrite !Nat2Z.id. by rewrite (sorted_cids_unique _ _ (Horder i)).
    - rewrite chunks, take_ge; [done|]. by rewrite sorted_cids_perm, length_fmap. }
  rewrite Hwalk. split; [apply sorted_cids_sorted|apply sorted_cids_perm].
Qed.

Definition ex_mclient (cid : Z) (nc : net_conn) : mclient := MClient cid [bs "a"; bs "b"] 0 1 2 3 4 0 0 [] [] [] [] nc.

Lemma connz_walk_witness :
  let clients := (fun i => ex_mclient i (TCPConn (bs "1.2.3.4") 5)) <$> [3; 9; 1; 7; 5] in
  let page i := HandleConnz false 0 (if Nat.even i then clients else reverse clients) (page_query (Z.of_nat (i * 2)) 2) in
  StronglySorted Z.le (concat ((fun i => page_cids (page i)) <$> seq 0 3)) /\
  concat ((fun i => page_cids (page i)) <$> seq 0 3) ≡ₚ [3; 9; 1; 7; 5].
Proof.
  intros clients page.
  apply (connz_walk false 2 3 (fun _ => 0) (fun i => if Nat.even i then clients else reverse clients) clients);
    [|by repeat constructor|lia|by vm_compute; lia|done].
  intros i. destruct (Nat.even i); [done|]. by rewrite reverse_Permutation.
Defined.

(** What a request to /connz does.  An unknown sort option is a bad
    request.  The handler panics on the slice exactly when the offset is
    negative or the sum of offset and limit, wrapped, is below the offset and
    the number of clients.  It panics with a client locked only on a TLS
    server, at a client whose connection is not a TLS connection, as that of
    an internal client; then it never unlocks it.  Otherwise it reports the
    number of clients and one entry for each in the page. *)
Theorem connz_outcomes `{!GoSort} tlsR now clients q :
  let total := Z.of_nat (length clients) in
  let offset := atoi_value (q_offset q) in
  let limit := if decide (atoi_value (q_limit q) = 0) then DefaultConnListSize else atoi_value (q_limit q) in
  let bad_slice := offset < 0 \/ wrap64 (offset + limit) < Z.min offset total in
  match HandleConnz tlsR now clients q with
  | BadRequest _ => IsValid (sort_option q) = false
  | Panicked None => IsValid (sort_option q) = true /\ bad_slice
  | Panicked (Some cid) => ~ bad_slice /\ tlsR = true /\ exists c, c ∈ clients /\ mc_cid c = cid /\
      match mc_nc c with NoConn | TLSConn _ _ _ _ => False | _ => True end
  | Page cz => ~ bad_slice /\ cz_Total cz = total /\ cz_NumConns cz = Z.of_nat (length (cz_Conns cz)) /\
      cz_NumConns cz = Z.min total (wrap64 (offset + limit)) - Z.min total offset
  end.
Proof.
  intros total offset limit bad. unfold HandleConnz. destruct (IsValid (sort_option q)); [|done]. cbn [negb].
  fold total offset limit. set (ps := _ <$> clients). set (sp := if 0 <? total then _ else _).
  assert (Hsp : sp ≡ₚ ps) by (unfold sp; destruct (0 <? total); [apply sort_pairs_perm|done]).
  assert (Hlen : Z.of_nat (length sp) = total) by (rewrite Hsp; unfold ps; by rewrite length_fmap).
  assert (Hcond : ~ bad <-> 0 <= (if total <? offset then total else offset) /\
    (if total <? offset then total else offset) <= (if total <? wrap64 (offset + limit) then total else wrap64 (offset + limit)) /\
    (if total <? wrap64 (offset + limit) then total else wrap64 (offset + limit)) <= Z.of_nat (length sp)).
  { unfold bad. rewrite Hlen. destruct (Z.ltb_spec total offset), (Z.ltb_spec total (wrap64 (offset + limit))); lia. }
  unfold slice_pairs. case_decide as Hd; [|split; [done|]; destruct (decide bad) as [|Hb]; [done|by apply Hcond in Hb]].
  set (page := take _ _). destruct (conn_infos _ _ _ _ _ page) as [cis|cid] eqn:Ec.
  - assert (Hl : length cis = length page).
    { revert cis Ec. induction page as [|p l IH]; intros cis; cbn; [by intros [= <-]|].
      destruct (conn_info _ _ _ _ _ p); [|done]. destruct (conn_infos _ _ _ _ _ l); [|done].
      intros [= <-]. cbn. by rewrite (IH _ eq_refl). }
    cbn [cz_Total cz_NumConns cz_Conns]. split_and!; [by apply Hcond|done|by rewrite Hl|].
    unfold page. rewrite length_take, length_drop.
    destruct (Z.ltb_spec total offset), (Z.ltb_spec total (wrap64 (offset + limit))); lia.
  - split; [by apply Hcond|]. apply conn_infos_panic in Ec as (p & Hp & Hcid & Hr). unfold reportable in Hr.
    destruct tlsR; [|done]. split; [done|]. exists (pr_Key p). split_and!; [|done|by destruct (mc_nc (pr_Key p))].
    unfold page in Hp. apply (subseteq_take _ _), (subseteq_drop _ _) in Hp. rewrite Hsp in Hp.
    unfold ps in Hp. by apply list_elem_of_fmap in Hp as (c & -> & Hc).
Qed.

(** On a TLS server with a health agent, which is an internal client, every
    request to /connz panics and leaves the agent's mutex locked; on any
    server an offset of -1 panics. *)
Example connz_locks_internal_client :
  HandleConnz true 0 [ex_mclient 1 InternalConn] (Query [] [] [] [] [] []) = Panicked (Some 1) /\
  HandleConnz false 0 [ex_mclient 1 InternalConn] (Query [] [] [] (bs "-1") [] []) = Panicked None.
Proof. by vm_compute. Qed.

(** A cipher of a configuration is reported under its name, except for six of
    them, among which the two that are preferred by default. *)
Example cipher_names :
  forallb (fun e => bool_decide (tlsCipher (snd e) = fst e)) cipherMap = false /\
  (fst <$> filter (fun e => tlsCipher (snd e) <> fst e) cipherMap) =
    [bs "TLS_RSA_WITH_AES_128_CBC_SHA256"; bs "TLS_RSA_WITH_AES_256_GCM_SHA384"; bs "TLS_ECDHE_RSA_WITH_AES_128_CBC_SHA256";
     bs "TLS_ECDHE_ECDSA_WITH_AES_128_CBC_SHA256"; bs "TLS_ECDHE_RSA_WITH_CHACHA20_POLY1305"; bs "TLS_ECDHE_ECDSA_WITH_CHACHA20_POLY1305"] /\
  tlsCipher <$> take 2 defaultCipherSuites = [bs "Unknown [cca9]"; bs "Unknown [cca8]"].
Proof. split_and!; by vm_compute. Qed.
