(* ===== verification/SwpTcp.v ===== *)
(** * SwpTcp: the connection states of a sliding-window session

    [src/swp/tcp.go], whole: the states, events and actions, and [UpdateTcp],
    the simplified TCP machine that both ends of a session run.  The theorem
    follows two machines that face each other over a channel that loses,
    repeats and reorders what they send. *)

From S2P Require Import Prelude.

Inductive TcpState :=
| Fresh | Closed | Listen | SynReceived | SynSent | Established
| CloseInitiatorHasSentFin | CloseResponderGotFin.

#[export] Instance TcpState_eq_dec : EqDecision TcpState.
Proof. solve_decision. Defined.

(** The number of a state; it is compared with that of [Established]. *)
Definition state_num (s : TcpState) : Z :=
  match s with
  | Fresh => 0 | Closed => 1 | Listen => 2 | SynReceived => 3 | SynSent => 4 | Established => 5
  | CloseInitiatorHasSentFin => 6 | CloseResponderGotFin => 7
  end.

Inductive TcpEvent :=
| EventNil | EventStartListen | EventStartConnect | EventSyn | EventSynAck | EventEstabAck
| EventStartClose | EventApplicationClosed | EventFin | EventFinAck | EventDataAck | EventData
| EventKeepAlive
| EventOther (n : Z).  (* a number without a name, as a message can carry it *)

#[export] Instance TcpEvent_eq_dec : EqDecision TcpEvent.
Proof. solve_decision. Defined.

Inductive TcpAction :=
| NoAction | SendSyn | SendSynAck | SendEstabAck | SendFin | SendFinAck | DoAppClose | SendDataAck.

#[export] Instance TcpAction_eq_dec : EqDecision TcpAction.
Proof. solve_decision. Defined.

(** [UpdateTcp]: the next state and the action. *)
Definition UpdateTcp (s : TcpState) (e : TcpEvent) (fromState : TcpState) : TcpState * TcpAction :=
  match s with
  | Closed => (Closed, SendFinAck)
  | Fresh =>
      match e with
      | EventStartListen => (Listen, NoAction)
      | EventStartConnect => (SynSent, SendSyn)
      | _ => (s, NoAction)
      end
  | Listen =>
      match e with
      | EventSyn => (SynReceived, SendSynAck)
      | EventFin => (CloseResponderGotFin, DoAppClose)
      | _ => (s, NoAction)
      end
  | SynReceived =>
      match e with
      | EventEstabAck => (Established, NoAction)
      | EventKeepAlive => if decide (fromState = Established) then (Established, NoAction) else (s, NoAction)
      | EventFin => (CloseResponderGotFin, DoAppClose)
      | _ => (s, NoAction)
      end
  | SynSent =>
      match e with
      | EventSynAck => (Established, SendEstabAck)
      | EventSyn => (SynReceived, SendEstabAck)
      | EventFin => (CloseResponderGotFin, DoAppClose)
      | _ => (s, NoAction)
      end
  | Established =>
      match e with
      | EventKeepAlive => (s, SendDataAck)
      | EventStartClose => (CloseInitiatorHasSentFin, SendFin)
      | EventFin => (CloseResponderGotFin, DoAppClose)
      | _ => (s, NoAction)
      end
  | CloseInitiatorHasSentFin =>
      match e with
      | EventFinAck => (Closed, NoAction)
      | EventFin => (Closed, NoAction)
      | _ => (s, NoAction)
      end
  | CloseResponderGotFin =>
      match e with
      | EventApplicationClosed => (Closed, NoAction)
      | _ => (s, NoAction)
      end
  end.

(** How far a connection has come. *)
Definition rank (s : TcpState) : nat :=
  match s with
  | Fresh => 0 | Listen => 1 | SynSent => 2 | SynReceived => 3 | Established => 4
  | CloseInitiatorHasSentFin => 5 | CloseResponderGotFin => 5 | Closed => 6
  end.

Lemma UpdateTcp_rank s e f : (UpdateTcp s e f).1 = s \/ rank s < rank (UpdateTcp s e f).1.
Proof.
  destruct s, e; cbn; try (by left); try (right; lia); destruct (decide (f = Established)); cbn; (by left) || (right; lia).
Qed.
