(* ===== verification/Swp.v ===== *)
(** * Swp: one end of a sliding-window session

    [src/swp/recv.go], [src/swp/sender.go], [src/swp/flow.go],
    [src/swp/retry.go] and [src/swp/retree.go]: the receiver and the sender of
    a session and what each case of their two select loops does.  The loops
    talk over unbuffered channels, so that a message between them is handled
    where it is sent, and over the buffered [SendAck], which is a queue here.

    The time of the clock is an argument of the operations, and so is the
    duration until a retry, which the code estimates with floats; the fields
    of a packet that carry these estimates, the ASAP channel, the test hooks
    and the bookkeeping for [Write] ([CliAcked], [Accounting]) are left out.
    [Net.Send] copies a packet: what is sent is its value at that moment.
    Counters are integers: none of them comes near the range of an [int64].
    A result [None] is a panic. *)

From S2P Require Import Prelude SwpTcp.

(** ** Packets *)

(** Times are in nanoseconds. *)
Record Packet := MkPacket {
  pk_From : bytes;
  pk_Dest : bytes;
  pk_FromSessNonce : bytes;
  pk_DestSessNonce : bytes;
  pk_ArrivedAtDestTm : Z;
  pk_DataSendTm : Z;
  pk_SeqNum : Z;
  pk_SeqRetry : Z;
  pk_AckNum : Z;
  pk_AckRetry : Z;
  pk_AckReplyTm : Z;
  pk_TcpEvent : TcpEvent;
  pk_FromTcpState : TcpState;
  pk_AvailReaderBytesCap : Z;
  pk_AvailReaderMsgCap : Z;
  pk_CumulBytesTransmitted : Z;
  pk_Data : bytes;
  pk_DataOffset : nat;
  pk_Blake2bChecksum : bytes;
}.

Definition set_pk_From v x := MkPacket v (pk_Dest x) (pk_FromSessNonce x) (pk_DestSessNonce x) (pk_ArrivedAtDestTm x) (pk_DataSendTm x) (pk_SeqNum x) (pk_SeqRetry x) (pk_AckNum x) (pk_AckRetry x) (pk_AckReplyTm x) (pk_TcpEvent x) (pk_FromTcpState x) (pk_AvailReaderBytesCap x) (pk_AvailReaderMsgCap x) (pk_CumulBytesTransmitted x) (pk_Data x) (pk_DataOffset x) (pk_Blake2bChecksum x).
Definition set_pk_FromSessNonce v x := MkPacket (pk_From x) (pk_Dest x) v (pk_DestSessNonce x) (pk_ArrivedAtDestTm x) (pk_DataSendTm x) (pk_SeqNum x) (pk_SeqRetry x) (pk_AckNum x) (pk_AckRetry x) (pk_AckReplyTm x) (pk_TcpEvent x) (pk_FromTcpState x) (pk_AvailReaderBytesCap x) (pk_AvailReaderMsgCap x) (pk_CumulBytesTransmitted x) (pk_Data x) (pk_DataOffset x) (pk_Blake2bChecksum x).
Definition set_pk_DestSessNonce v x := MkPacket (pk_From x) (pk_Dest x) (pk_FromSessNonce x) v (pk_ArrivedAtDestTm x) (pk_DataSendTm x) (pk_SeqNum x) (pk_SeqRetry x) (pk_AckNum x) (pk_AckRetry x) (pk_AckReplyTm x) (pk_TcpEvent x) (pk_FromTcpState x) (pk_AvailReaderBytesCap x) (pk_AvailReaderMsgCap x) (pk_CumulBytesTransmitted x) (pk_Data x) (pk_DataOffset x) (pk_Blake2bChecksum x).
Definition set_pk_ArrivedAtDestTm v x := MkPacket (pk_From x) (pk_Dest x) (pk_FromSessNonce x) (pk_DestSessNonce x) v (pk_DataSendTm x) (pk_SeqNum x) (pk_SeqRetry x) (pk_AckNum x) (pk_AckRetry x) (pk_AckReplyTm x) (pk_TcpEvent x) (pk_FromTcpState x) (pk_AvailReaderBytesCap x) (pk_AvailReaderMsgCap x) (pk_CumulBytesTransmitted x) (pk_Data x) (pk_DataOffset x) (pk_Blake2bChecksum x).
Definition set_pk_DataSendTm v x := MkPacket (pk_From x) (pk_Dest x) (pk_FromSessNonce x) (pk_DestSessNonce x) (pk_ArrivedAtDestTm x) v (pk_SeqNum x) (pk_SeqRetry x) (pk_AckNum x) (pk_AckRetry x) (pk_AckReplyTm x) (pk_TcpEvent x) (pk_FromTcpState x) (pk_AvailReaderBytesCap x) (pk_AvailReaderMsgCap x) (pk_CumulBytesTransmitted x) (pk_Data x) (pk_DataOffset x) (pk_Blake2bChecksum x).
Definition set_pk_SeqNum v x := MkPacket (pk_From x) (pk_Dest x) (pk_FromSessNonce x) (pk_DestSessNonce x) (pk_ArrivedAtDestTm x) (pk_DataSendTm x) v (pk_SeqRetry x) (pk_AckNum x) (pk_AckRetry x) (pk_AckReplyTm x) (pk_TcpEvent x) (pk_FromTcpState x) (pk_AvailReaderBytesCap x) (pk_AvailReaderMsgCap x) (pk_CumulBytesTransmitted x) (pk_Data x) (pk_DataOffset x) (pk_Blake2bChecksum x).
Definition set_pk_SeqRetry v x := MkPacket (pk_From x) (pk_Dest x) (pk_FromSessNonce x) (pk_DestSessNonce x) (pk_ArrivedAtDestTm x) (pk_DataSendTm x) (pk_SeqNum x) v (pk_AckNum x) (pk_AckRetry x) (pk_AckReplyTm x) (pk_TcpEvent x) (pk_FromTcpState x) (pk_AvailReaderBytesCap x) (pk_AvailReaderMsgCap x) (pk_CumulBytesTransmitted x) (pk_Data x) (pk_DataOffset x) (pk_Blake2bChecksum x).
Definition set_pk_FromTcpState v x := MkPacket (pk_From x) (pk_Dest x) (pk_FromSessNonce x) (pk_DestSessNonce x) (pk_ArrivedAtDestTm x) (pk_DataSendTm x) (pk_SeqNum x) (pk_SeqRetry x) (pk_AckNum x) (pk_AckRetry x) (pk_AckReplyTm x) (pk_TcpEvent x) v (pk_AvailReaderBytesCap x) (pk_AvailReaderMsgCap x) (pk_CumulBytesTransmitted x) (pk_Data x) (pk_DataOffset x) (pk_Blake2bChecksum x).
Definition set_pk_AvailReaderBytesCap v x := MkPacket (pk_From x) (pk_Dest x) (pk_FromSessNonce x) (pk_DestSessNonce x) (pk_ArrivedAtDestTm x) (pk_DataSendTm x) (pk_SeqNum x) (pk_SeqRetry x) (pk_AckNum x) (pk_AckRetry x) (pk_AckReplyTm x) (pk_TcpEvent x) (pk_FromTcpState x) v (pk_AvailReaderMsgCap x) (pk_CumulBytesTransmitted x) (pk_Data x) (pk_DataOffset x) (pk_Blake2bChecksum x).
Definition set_pk_AvailReaderMsgCap v x := MkPacket (pk_From x) (pk_Dest x) (pk_FromSessNonce x) (pk_DestSessNonce x) (pk_ArrivedAtDestTm x) (pk_DataSendTm x) (pk_SeqNum x) (pk_SeqRetry x) (pk_AckNum x) (pk_AckRetry x) (pk_AckReplyTm x) (pk_TcpEvent x) (pk_FromTcpState x) (pk_AvailReaderBytesCap x) v (pk_CumulBytesTransmitted x) (pk_Data x) (pk_DataOffset x) (pk_Blake2bChecksum x).
Definition set_pk_CumulBytesTransmitted v x := MkPacket (pk_From x) (pk_Dest x) (pk_FromSessNonce x) (pk_DestSessNonce x) (pk_ArrivedAtDestTm x) (pk_DataSendTm x) (pk_SeqNum x) (pk_SeqRetry x) (pk_AckNum x) (pk_AckRetry x) (pk_AckReplyTm x) (pk_TcpEvent x) (pk_FromTcpState x) (pk_AvailReaderBytesCap x) (pk_AvailReaderMsgCap x) v (pk_Data x) (pk_DataOffset x) (pk_Blake2bChecksum x).
Definition set_pk_Data v x := MkPacket (pk_From x) (pk_Dest x) (pk_FromSessNonce x) (pk_DestSessNonce x) (pk_ArrivedAtDestTm x) (pk_DataSendTm x) (pk_SeqNum x) (pk_SeqRetry x) (pk_AckNum x) (pk_AckRetry x) (pk_AckReplyTm x) (pk_TcpEvent x) (pk_FromTcpState x) (pk_AvailReaderBytesCap x) (pk_AvailReaderMsgCap x) (pk_CumulBytesTransmitted x) v (pk_DataOffset x) (pk_Blake2bChecksum x).
Definition set_pk_DataOffset v x := MkPacket (pk_From x) (pk_Dest x) (pk_FromSessNonce x) (pk_DestSessNonce x) (pk_ArrivedAtDestTm x) (pk_DataSendTm x) (pk_SeqNum x) (pk_SeqRetry x) (pk_AckNum x) (pk_AckRetry x) (pk_AckReplyTm x) (pk_TcpEvent x) (pk_FromTcpState x) (pk_AvailReaderBytesCap x) (pk_AvailReaderMsgCap x) (pk_CumulBytesTransmitted x) (pk_Data x) v (pk_Blake2bChecksum x).
Definition set_pk_Blake2bChecksum v x := MkPacket (pk_From x) (pk_Dest x) (pk_FromSessNonce x) (pk_DestSessNonce x) (pk_ArrivedAtDestTm x) (pk_DataSendTm x) (pk_SeqNum x) (pk_SeqRetry x) (pk_AckNum x) (pk_AckRetry x) (pk_AckReplyTm x) (pk_TcpEvent x) (pk_FromTcpState x) (pk_AvailReaderBytesCap x) (pk_AvailReaderMsgCap x) (pk_CumulBytesTransmitted x) (pk_Data x) (pk_DataOffset x) v.

(** The [Packet] of a composite literal with the fields that are not given. *)
Definition zero_packet : Packet :=
  MkPacket [] [] [] [] 0 0 0 0 0 0 0 EventNil Fresh 0 0 0 [] 0 [].

(** [InWindow]. *)
Definition InWindow (seqno min max : Z) : bool :=
  if (seqno <? min)%Z then false else if (max <? seqno)%Z then false else true.

Definition CopyPacketSansData (p : Packet) : Packet := set_pk_Data [] p.

(** ** Flow control *)

Record Flow := MkFlow { fl_AvailReaderBytesCap : Z; fl_AvailReaderMsgCap : Z }.

(** [UpdateFlow]: a negative capacity asks for no change. *)
Definition UpdateFlow (f : Flow) (availReaderMsgCap availReaderBytesCap : Z) : Flow :=
  let m := if (0 <=? availReaderMsgCap)%Z then availReaderMsgCap else fl_AvailReaderMsgCap f in
  let b := if (0 <=? availReaderBytesCap)%Z then availReaderBytesCap else fl_AvailReaderBytesCap f in
  MkFlow b m.

(** ** The state of the receiver *)

(** A slot of the receiver's window: [Received] and the packet. *)
Record RxqSlot := MkRxqSlot { rx_Received : bool; rx_Pack : option Packet }.

(** [timerSet] tells whether [retryTimerCh] is a running timer. *)
Record tcpRetryLogic := MkRetry {
  rt_curState : TcpState;
  rt_inUse : bool;
  rt_lastAttemptAt : Z;
  rt_firstStateAction : TcpAction;
  rt_attemptCount : Z;
  rt_causalPacket : option Packet;
  rt_timerSet : bool;
}.

(** [delivery] is the local variable of the loop; a pending connection is
    only known to be there.  [RecvHistory] and the map keep the packets as
    they came. *)
Record RecvState := MkRecvState {
  rv_Inbox : bytes;
  rv_RemoteInbox : bytes;
  rv_NextFrameExpected : Z;
  rv_LastFrameClientConsumed : Z;
  rv_Rxq : list RxqSlot;
  rv_RecvWindowSize : Z;
  rv_RecvWindowSizeBytes : Z;
  rv_RecvHistory : list Packet;
  rv_DiscardCount : Z;
  rv_LastMsgConsumed : Z;
  rv_LargestSeqnoRcvd : Z;
  rv_MaxCumulBytesTrans : Z;
  rv_LastByteConsumed : Z;
  rv_LastAvailReaderBytesCap : Z;
  rv_LastAvailReaderMsgCap : Z;
  rv_RcvdButNotConsumed : gmap Z Packet;
  rv_ReadyForDelivery : list Packet;
  rv_TcpState : TcpState;
  rv_retry : tcpRetryLogic;
  rv_AppCloseCallback : bool;
  rv_LocalSessNonce : bytes;
  rv_RemoteSessNonce : bytes;
  rv_connReqPending : option bool;  (* whether its [Done] is closed already *)
  rv_delivery : list Packet;
}.

Definition set_rv_RemoteInbox v x := MkRecvState (rv_Inbox x) v (rv_NextFrameExpected x) (rv_LastFrameClientConsumed x) (rv_Rxq x) (rv_RecvWindowSize x) (rv_RecvWindowSizeBytes x) (rv_RecvHistory x) (rv_DiscardCount x) (rv_LastMsgConsumed x) (rv_LargestSeqnoRcvd x) (rv_MaxCumulBytesTrans x) (rv_LastByteConsumed x) (rv_LastAvailReaderBytesCap x) (rv_LastAvailReaderMsgCap x) (rv_RcvdButNotConsumed x) (rv_ReadyForDelivery x) (rv_TcpState x) (rv_retry x) (rv_AppCloseCallback x) (rv_LocalSessNonce x) (rv_RemoteSessNonce x) (rv_connReqPending x) (rv_delivery x).
Definition set_rv_NextFrameExpected v x := MkRecvState (rv_Inbox x) (rv_RemoteInbox x) v (rv_LastFrameClientConsumed x) (rv_Rxq x) (rv_RecvWindowSize x) (rv_RecvWindowSizeBytes x) (rv_RecvHistory x) (rv_DiscardCount x) (rv_LastMsgConsumed x) (rv_LargestSeqnoRcvd x) (rv_MaxCumulBytesTrans x) (rv_LastByteConsumed x) (rv_LastAvailReaderBytesCap x) (rv_LastAvailReaderMsgCap x) (rv_RcvdButNotConsumed x) (rv_ReadyForDelivery x) (rv_TcpState x) (rv_retry x) (rv_AppCloseCallback x) (rv_LocalSessNonce x) (rv_RemoteSessNonce x) (rv_connReqPending x) (rv_delivery x).
Definition set_rv_LastFrameClientConsumed v x := MkRecvState (rv_Inbox x) (rv_RemoteInbox x) (rv_NextFrameExpected x) v (rv_Rxq x) (rv_RecvWindowSize x) (rv_RecvWindowSizeBytes x) (rv_RecvHistory x) (rv_DiscardCount x) (rv_LastMsgConsumed x) (rv_LargestSeqnoRcvd x) (rv_MaxCumulBytesTrans x) (rv_LastByteConsumed x) (rv_LastAvailReaderBytesCap x) (rv_LastAvailReaderMsgCap x) (rv_RcvdButNotConsumed x) (rv_ReadyForDelivery x) (rv_TcpState x) (rv_retry x) (rv_AppCloseCallback x) (rv_LocalSessNonce x) (rv_RemoteSessNonce x) (rv_connReqPending x) (rv_delivery x).
Definition set_rv_Rxq v x := MkRecvState (rv_Inbox x) (rv_RemoteInbox x) (rv_NextFrameExpected x) (rv_LastFrameClientConsumed x) v (rv_RecvWindowSize x) (rv_RecvWindowSizeBytes x) (rv_RecvHistory x) (rv_DiscardCount x) (rv_LastMsgConsumed x) (rv_LargestSeqnoRcvd x) (rv_MaxCumulBytesTrans x) (rv_LastByteConsumed x) (rv_LastAvailReaderBytesCap x) (rv_LastAvailReaderMsgCap x) (rv_RcvdButNotConsumed x) (rv_ReadyForDelivery x) (rv_TcpState x) (rv_retry x) (rv_AppCloseCallback x) (rv_LocalSessNonce x) (rv_RemoteSessNonce x) (rv_connReqPending x) (rv_delivery x).
Definition set_rv_RecvHistory v x := MkRecvState (rv_Inbox x) (rv_RemoteInbox x) (rv_NextFrameExpected x) (rv_LastFrameClientConsumed x) (rv_Rxq x) (rv_RecvWindowSize x) (rv_RecvWindowSizeBytes x) v (rv_DiscardCount x) (rv_LastMsgConsumed x) (rv_LargestSeqnoRcvd x) (rv_MaxCumulBytesTrans x) (rv_LastByteConsumed x) (rv_LastAvailReaderBytesCap x) (rv_LastAvailReaderMsgCap x) (rv_RcvdButNotConsumed x) (rv_ReadyForDelivery x) (rv_TcpState x) (rv_retry x) (rv_AppCloseCallback x) (rv_LocalSessNonce x) (rv_RemoteSessNonce x) (rv_connReqPending x) (rv_delivery x).
Definition set_rv_DiscardCount v x := MkRecvState (rv_Inbox x) (rv_RemoteInbox x) (rv_NextFrameExpected x) (rv_LastFrameClientConsumed x) (rv_Rxq x) (rv_RecvWindowSize x) (rv_RecvWindowSizeBytes x) (rv_RecvHistory x) v (rv_LastMsgConsumed x) (rv_LargestSeqnoRcvd x) (rv_MaxCumulBytesTrans x) (rv_LastByteConsumed x) (rv_LastAvailReaderBytesCap x) (rv_LastAvailReaderMsgCap x) (rv_RcvdButNotConsumed x) (rv_ReadyForDelivery x) (rv_TcpState x) (rv_retry x) (rv_AppCloseCallback x) (rv_LocalSessNonce x) (rv_RemoteSessNonce x) (rv_connReqPending x) (rv_delivery x).
Definition set_rv_LastMsgConsumed v x := MkRecvState (rv_Inbox x) (rv_RemoteInbox x) (rv_NextFrameExpected x) (rv_LastFrameClientConsumed x) (rv_Rxq x) (rv_RecvWindowSize x) (rv_RecvWindowSizeBytes x) (rv_RecvHistory x) (rv_DiscardCount x) v (rv_LargestSeqnoRcvd x) (rv_MaxCumulBytesTrans x) (rv_LastByteConsumed x) (rv_LastAvailReaderBytesCap x) (rv_LastAvailReaderMsgCap x) (rv_RcvdButNotConsumed x) (rv_ReadyForDelivery x) (rv_TcpState x) (rv_retry x) (rv_AppCloseCallback x) (rv_LocalSessNonce x) (rv_RemoteSessNonce x) (rv_connReqPending x) (rv_delivery x).
Definition set_rv_LargestSeqnoRcvd v x := MkRecvState (rv_Inbox x) (rv_RemoteInbox x) (rv_NextFrameExpected x) (rv_LastFrameClientConsumed x) (rv_Rxq x) (rv_RecvWindowSize x) (rv_RecvWindowSizeBytes x) (rv_RecvHistory x) (rv_DiscardCount x) (rv_LastMsgConsumed x) v (rv_MaxCumulBytesTrans x) (rv_LastByteConsumed x) (rv_LastAvailReaderBytesCap x) (rv_LastAvailReaderMsgCap x) (rv_RcvdButNotConsumed x) (rv_ReadyForDelivery x) (rv_TcpState x) (rv_retry x) (rv_AppCloseCallback x) (rv_LocalSessNonce x) (rv_RemoteSessNonce x) (rv_connReqPending x) (rv_delivery x).
Definition set_rv_MaxCumulBytesTrans v x := MkRecvState (rv_Inbox x) (rv_RemoteInbox x) (rv_NextFrameExpected x) (rv_LastFrameClientConsumed x) (rv_Rxq x) (rv_RecvWindowSize x) (rv_RecvWindowSizeBytes x) (rv_RecvHistory x) (rv_DiscardCount x) (rv_LastMsgConsumed x) (rv_LargestSeqnoRcvd x) v (rv_LastByteConsumed x) (rv_LastAvailReaderBytesCap x) (rv_LastAvailReaderMsgCap x) (rv_RcvdButNotConsumed x) (rv_ReadyForDelivery x) (rv_TcpState x) (rv_retry x) (rv_AppCloseCallback x) (rv_LocalSessNonce x) (rv_RemoteSessNonce x) (rv_connReqPending x) (rv_delivery x).
Definition set_rv_LastByteConsumed v x := MkRecvState (rv_Inbox x) (rv_RemoteInbox x) (rv_NextFrameExpected x) (rv_LastFrameClientConsumed x) (rv_Rxq x) (rv_RecvWindowSize x) (rv_RecvWindowSizeBytes x) (rv_RecvHistory x) (rv_DiscardCount x) (rv_LastMsgConsumed x) (rv_LargestSeqnoRcvd x) (rv_MaxCumulBytesTrans x) v (rv_LastAvailReaderBytesCap x) (rv_LastAvailReaderMsgCap x) (rv_RcvdButNotConsumed x) (rv_ReadyForDelivery x) (rv_TcpState x) (rv_retry x) (rv_AppCloseCallback x) (rv_LocalSessNonce x) (rv_RemoteSessNonce x) (rv_connReqPending x) (rv_delivery x).
Definition set_rv_LastAvailReaderBytesCap v x := MkRecvState (rv_Inbox x) (rv_RemoteInbox x) (rv_NextFrameExpected x) (rv_LastFrameClientConsumed x) (rv_Rxq x) (rv_RecvWindowSize x) (rv_RecvWindowSizeBytes x) (rv_RecvHistory x) (rv_DiscardCount x) (rv_LastMsgConsumed x) (rv_LargestSeqnoRcvd x) (rv_MaxCumulBytesTrans x) (rv_LastByteConsumed x) v (rv_LastAvailReaderMsgCap x) (rv_RcvdButNotConsumed x) (rv_ReadyForDelivery x) (rv_TcpState x) (rv_retry x) (rv_AppCloseCallback x) (rv_LocalSessNonce x) (rv_RemoteSessNonce x) (rv_connReqPending x) (rv_delivery x).
Definition set_rv_LastAvailReaderMsgCap v x := MkRecvState (rv_Inbox x) (rv_RemoteInbox x) (rv_NextFrameExpected x) (rv_LastFrameClientConsumed x) (rv_Rxq x) (rv_RecvWindowSize x) (rv_RecvWindowSizeBytes x) (rv_RecvHistory x) (rv_DiscardCount x) (rv_LastMsgConsumed x) (rv_LargestSeqnoRcvd x) (rv_MaxCumulBytesTrans x) (rv_LastByteConsumed x) (rv_LastAvailReaderBytesCap x) v (rv_RcvdButNotConsumed x) (rv_ReadyForDelivery x) (rv_TcpState x) (rv_retry x) (rv_AppCloseCallback x) (rv_LocalSessNonce x) (rv_RemoteSessNonce x) (rv_connReqPending x) (rv_delivery x).
Definition set_rv_RcvdButNotConsumed v x := MkRecvState (rv_Inbox x) (rv_RemoteInbox x) (rv_NextFrameExpected x) (rv_LastFrameClientConsumed x) (rv_Rxq x) (rv_RecvWindowSize x) (rv_RecvWindowSizeBytes x) (rv_RecvHistory x) (rv_DiscardCount x) (rv_LastMsgConsumed x) (rv_LargestSeqnoRcvd x) (rv_MaxCumulBytesTrans x) (rv_LastByteConsumed x) (rv_LastAvailReaderBytesCap x) (rv_LastAvailReaderMsgCap x) v (rv_ReadyForDelivery x) (rv_TcpState x) (rv_retry x) (rv_AppCloseCallback x) (rv_LocalSessNonce x) (rv_RemoteSessNonce x) (rv_connReqPending x) (rv_delivery x).
Definition set_rv_ReadyForDelivery v x := MkRecvState (rv_Inbox x) (rv_RemoteInbox x) (rv_NextFrameExpected x) (rv_LastFrameClientConsumed x) (rv_Rxq x) (rv_RecvWindowSize x) (rv_RecvWindowSizeBytes x) (rv_RecvHistory x) (rv_DiscardCount x) (rv_LastMsgConsumed x) (rv_LargestSeqnoRcvd x) (rv_MaxCumulBytesTrans x) (rv_LastByteConsumed x) (rv_LastAvailReaderBytesCap x) (rv_LastAvailReaderMsgCap x) (rv_RcvdButNotConsumed x) v (rv_TcpState x) (rv_retry x) (rv_AppCloseCallback x) (rv_LocalSessNonce x) (rv_RemoteSessNonce x) (rv_connReqPending x) (rv_delivery x).
Definition set_rv_TcpState v x := MkRecvState (rv_Inbox x) (rv_RemoteInbox x) (rv_NextFrameExpected x) (rv_LastFrameClientConsumed x) (rv_Rxq x) (rv_RecvWindowSize x) (rv_RecvWindowSizeBytes x) (rv_RecvHistory x) (rv_DiscardCount x) (rv_LastMsgConsumed x) (rv_LargestSeqnoRcvd x) (rv_MaxCumulBytesTrans x) (rv_LastByteConsumed x) (rv_LastAvailReaderBytesCap x) (rv_LastAvailReaderMsgCap x) (rv_RcvdButNotConsumed x) (rv_ReadyForDelivery x) v (rv_retry x) (rv_AppCloseCallback x) (rv_LocalSessNonce x) (rv_RemoteSessNonce x) (rv_connReqPending x) (rv_delivery x).
Definition set_rv_retry v x := MkRecvState (rv_Inbox x) (rv_RemoteInbox x) (rv_NextFrameExpected x) (rv_LastFrameClientConsumed x) (rv_Rxq x) (rv_RecvWindowSize x) (rv_RecvWindowSizeBytes x) (rv_RecvHistory x) (rv_DiscardCount x) (rv_LastMsgConsumed x) (rv_LargestSeqnoRcvd x) (rv_MaxCumulBytesTrans x) (rv_LastByteConsumed x) (rv_LastAvailReaderBytesCap x) (rv_LastAvailReaderMsgCap x) (rv_RcvdButNotConsumed x) (rv_ReadyForDelivery x) (rv_TcpState x) v (rv_AppCloseCallback x) (rv_LocalSessNonce x) (rv_RemoteSessNonce x) (rv_connReqPending x) (rv_delivery x).
Definition set_rv_AppCloseCallback v x := MkRecvState (rv_Inbox x) (rv_RemoteInbox x) (rv_NextFrameExpected x) (rv_LastFrameClientConsumed x) (rv_Rxq x) (rv_RecvWindowSize x) (rv_RecvWindowSizeBytes x) (rv_RecvHistory x) (rv_DiscardCount x) (rv_LastMsgConsumed x) (rv_LargestSeqnoRcvd x) (rv_MaxCumulBytesTrans x) (rv_LastByteConsumed x) (rv_LastAvailReaderBytesCap x) (rv_LastAvailReaderMsgCap x) (rv_RcvdButNotConsumed x) (rv_ReadyForDelivery x) (rv_TcpState x) (rv_retry x) v (rv_LocalSessNonce x) (rv_RemoteSessNonce x) (rv_connReqPending x) (rv_delivery x).
Definition set_rv_RemoteSessNonce v x := MkRecvState (rv_Inbox x) (rv_RemoteInbox x) (rv_NextFrameExpected x) (rv_LastFrameClientConsumed x) (rv_Rxq x) (rv_RecvWindowSize x) (rv_RecvWindowSizeBytes x) (rv_RecvHistory x) (rv_DiscardCount x) (rv_LastMsgConsumed x) (rv_LargestSeqnoRcvd x) (rv_MaxCumulBytesTrans x) (rv_LastByteConsumed x) (rv_LastAvailReaderBytesCap x) (rv_LastAvailReaderMsgCap x) (rv_RcvdButNotConsumed x) (rv_ReadyForDelivery x) (rv_TcpState x) (rv_retry x) (rv_AppCloseCallback x) (rv_LocalSessNonce x) v (rv_connReqPending x) (rv_delivery x).
Definition set_rv_connReqPending v x := MkRecvState (rv_Inbox x) (rv_RemoteInbox x) (rv_NextFrameExpected x) (rv_LastFrameClientConsumed x) (rv_Rxq x) (rv_RecvWindowSize x) (rv_RecvWindowSizeBytes x) (rv_RecvHistory x) (rv_DiscardCount x) (rv_LastMsgConsumed x) (rv_LargestSeqnoRcvd x) (rv_MaxCumulBytesTrans x) (rv_LastByteConsumed x) (rv_LastAvailReaderBytesCap x) (rv_LastAvailReaderMsgCap x) (rv_RcvdButNotConsumed x) (rv_ReadyForDelivery x) (rv_TcpState x) (rv_retry x) (rv_AppCloseCallback x) (rv_LocalSessNonce x) (rv_RemoteSessNonce x) v (rv_delivery x).
Definition set_rv_delivery v x := MkRecvState (rv_Inbox x) (rv_RemoteInbox x) (rv_NextFrameExpected x) (rv_LastFrameClientConsumed x) (rv_Rxq x) (rv_RecvWindowSize x) (rv_RecvWindowSizeBytes x) (rv_RecvHistory x) (rv_DiscardCount x) (rv_LastMsgConsumed x) (rv_LargestSeqnoRcvd x) (rv_MaxCumulBytesTrans x) (rv_LastByteConsumed x) (rv_LastAvailReaderBytesCap x) (rv_LastAvailReaderMsgCap x) (rv_RcvdButNotConsumed x) (rv_ReadyForDelivery x) (rv_TcpState x) (rv_retry x) (rv_AppCloseCallback x) (rv_LocalSessNonce x) (rv_RemoteSessNonce x) (rv_connReqPending x) v.

(** ** The state of the sender *)

Record TxqSlot := MkTxqSlot {
  sl_OrigSendTime : Z;
  sl_RetryDeadline : Z;
  sl_RetryDur : Z;
  sl_Pack : option Packet;
}.

(** The trees hold pointers to the slots of [Txq], which are their positions;
    [SendHistory] keeps the packets as they were first sent. *)
Record SenderState := MkSenderState {
  sd_Inbox : bytes;
  sd_Dest : bytes;
  sd_LastAckRec : Z;
  sd_LastFrameSent : Z;
  sd_Txq : list TxqSlot;
  sd_SenderWindowSize : Z;
  sd_SendHistory : list Packet;
  sd_SendAck : list Packet;
  sd_DiscardCount : Z;
  sd_LastSendTime : Z;
  sd_LastHeardFromDownstream : Z;
  sd_KeepAliveInterval : Z;
  sd_NumFailedKeepAlivesBeforeClosing : Z;
  sd_ByDeadline : list nat;
  sd_BySeqNum : list nat;
  sd_LastSeenAvailReaderBytesCap : Z;
  sd_LastSeenAvailReaderMsgCap : Z;
  sd_FlowCt : Flow;
  sd_TotalBytesSent : Z;
  sd_recvLastFrameClientConsumed : Z;
  sd_LocalSessNonce : bytes;
  sd_RemoteSessNonce : bytes;
}.

Definition set_sd_LastFrameSent v x := MkSenderState (sd_Inbox x) (sd_Dest x) (sd_LastAckRec x) v (sd_Txq x) (sd_SenderWindowSize x) (sd_SendHistory x) (sd_SendAck x) (sd_DiscardCount x) (sd_LastSendTime x) (sd_LastHeardFromDownstream x) (sd_KeepAliveInterval x) (sd_NumFailedKeepAlivesBeforeClosing x) (sd_ByDeadline x) (sd_BySeqNum x) (sd_LastSeenAvailReaderBytesCap x) (sd_LastSeenAvailReaderMsgCap x) (sd_FlowCt x) (sd_TotalBytesSent x) (sd_recvLastFrameClientConsumed x) (sd_LocalSessNonce x) (sd_RemoteSessNonce x).
Definition set_sd_Txq v x := MkSenderState (sd_Inbox x) (sd_Dest x) (sd_LastAckRec x) (sd_LastFrameSent x) v (sd_SenderWindowSize x) (sd_SendHistory x) (sd_SendAck x) (sd_DiscardCount x) (sd_LastSendTime x) (sd_LastHeardFromDownstream x) (sd_KeepAliveInterval x) (sd_NumFailedKeepAlivesBeforeClosing x) (sd_ByDeadline x) (sd_BySeqNum x) (sd_LastSeenAvailReaderBytesCap x) (sd_LastSeenAvailReaderMsgCap x) (sd_FlowCt x) (sd_TotalBytesSent x) (sd_recvLastFrameClientConsumed x) (sd_LocalSessNonce x) (sd_RemoteSessNonce x).
Definition set_sd_SendHistory v x := MkSenderState (sd_Inbox x) (sd_Dest x) (sd_LastAckRec x) (sd_LastFrameSent x) (sd_Txq x) (sd_SenderWindowSize x) v (sd_SendAck x) (sd_DiscardCount x) (sd_LastSendTime x) (sd_LastHeardFromDownstream x) (sd_KeepAliveInterval x) (sd_NumFailedKeepAlivesBeforeClosing x) (sd_ByDeadline x) (sd_BySeqNum x) (sd_LastSeenAvailReaderBytesCap x) (sd_LastSeenAvailReaderMsgCap x) (sd_FlowCt x) (sd_TotalBytesSent x) (sd_recvLastFrameClientConsumed x) (sd_LocalSessNonce x) (sd_RemoteSessNonce x).
Definition set_sd_SendAck v x := MkSenderState (sd_Inbox x) (sd_Dest x) (sd_LastAckRec x) (sd_LastFrameSent x) (sd_Txq x) (sd_SenderWindowSize x) (sd_SendHistory x) v (sd_DiscardCount x) (sd_LastSendTime x) (sd_LastHeardFromDownstream x) (sd_KeepAliveInterval x) (sd_NumFailedKeepAlivesBeforeClosing x) (sd_ByDeadline x) (sd_BySeqNum x) (sd_LastSeenAvailReaderBytesCap x) (sd_LastSeenAvailReaderMsgCap x) (sd_FlowCt x) (sd_TotalBytesSent x) (sd_recvLastFrameClientConsumed x) (sd_LocalSessNonce x) (sd_RemoteSessNonce x).
Definition set_sd_DiscardCount v x := MkSenderState (sd_Inbox x) (sd_Dest x) (sd_LastAckRec x) (sd_LastFrameSent x) (sd_Txq x) (sd_SenderWindowSize x) (sd_SendHistory x) (sd_SendAck x) v (sd_LastSendTime x) (sd_LastHeardFromDownstream x) (sd_KeepAliveInterval x) (sd_NumFailedKeepAlivesBeforeClosing x) (sd_ByDeadline x) (sd_BySeqNum x) (sd_LastSeenAvailReaderBytesCap x) (sd_LastSeenAvailReaderMsgCap x) (sd_FlowCt x) (sd_TotalBytesSent x) (sd_recvLastFrameClientConsumed x) (sd_LocalSessNonce x) (sd_RemoteSessNonce x).
Definition set_sd_LastSendTime v x := MkSenderState (sd_Inbox x) (sd_Dest x) (sd_LastAckRec x) (sd_LastFrameSent x) (sd_Txq x) (sd_SenderWindowSize x) (sd_SendHistory x) (sd_SendAck x) (sd_DiscardCount x) v (sd_LastHeardFromDownstream x) (sd_KeepAliveInterval x) (sd_NumFailedKeepAlivesBeforeClosing x) (sd_ByDeadline x) (sd_BySeqNum x) (sd_LastSeenAvailReaderBytesCap x) (sd_LastSeenAvailReaderMsgCap x) (sd_FlowCt x) (sd_TotalBytesSent x) (sd_recvLastFrameClientConsumed x) (sd_LocalSessNonce x) (sd_RemoteSessNonce x).
Definition set_sd_LastHeardFromDownstream v x := MkSenderState (sd_Inbox x) (sd_Dest x) (sd_LastAckRec x) (sd_LastFrameSent x) (sd_Txq x) (sd_SenderWindowSize x) (sd_SendHistory x) (sd_SendAck x) (sd_DiscardCount x) (sd_LastSendTime x) v (sd_KeepAliveInterval x) (sd_NumFailedKeepAlivesBeforeClosing x) (sd_ByDeadline x) (sd_BySeqNum x) (sd_LastSeenAvailReaderBytesCap x) (sd_LastSeenAvailReaderMsgCap x) (sd_FlowCt x) (sd_TotalBytesSent x) (sd_recvLastFrameClientConsumed x) (sd_LocalSessNonce x) (sd_RemoteSessNonce x).
Definition set_sd_ByDeadline v x := MkSenderState (sd_Inbox x) (sd_Dest x) (sd_LastAckRec x) (sd_LastFrameSent x) (sd_Txq x) (sd_SenderWindowSize x) (sd_SendHistory x) (sd_SendAck x) (sd_DiscardCount x) (sd_LastSendTime x) (sd_LastHeardFromDownstream x) (sd_KeepAliveInterval x) (sd_NumFailedKeepAlivesBeforeClosing x) v (sd_BySeqNum x) (sd_LastSeenAvailReaderBytesCap x) (sd_LastSeenAvailReaderMsgCap x) (sd_FlowCt x) (sd_TotalBytesSent x) (sd_recvLastFrameClientConsumed x) (sd_LocalSessNonce x) (sd_RemoteSessNonce x).
Definition set_sd_BySeqNum v x := MkSenderState (sd_Inbox x) (sd_Dest x) (sd_LastAckRec x) (sd_LastFrameSent x) (sd_Txq x) (sd_SenderWindowSize x) (sd_SendHistory x) (sd_SendAck x) (sd_DiscardCount x) (sd_LastSendTime x) (sd_LastHeardFromDownstream x) (sd_KeepAliveInterval x) (sd_NumFailedKeepAlivesBeforeClosing x) (sd_ByDeadline x) v (sd_LastSeenAvailReaderBytesCap x) (sd_LastSeenAvailReaderMsgCap x) (sd_FlowCt x) (sd_TotalBytesSent x) (sd_recvLastFrameClientConsumed x) (sd_LocalSessNonce x) (sd_RemoteSessNonce x).
Definition set_sd_LastSeenAvailReaderBytesCap v x := MkSenderState (sd_Inbox x) (sd_Dest x) (sd_LastAckRec x) (sd_LastFrameSent x) (sd_Txq x) (sd_SenderWindowSize x) (sd_SendHistory x) (sd_SendAck x) (sd_DiscardCount x) (sd_LastSendTime x) (sd_LastHeardFromDownstream x) (sd_KeepAliveInterval x) (sd_NumFailedKeepAlivesBeforeClosing x) (sd_ByDeadline x) (sd_BySeqNum x) v (sd_LastSeenAvailReaderMsgCap x) (sd_FlowCt x) (sd_TotalBytesSent x) (sd_recvLastFrameClientConsumed x) (sd_LocalSessNonce x) (sd_RemoteSessNonce x).
Definition set_sd_LastSeenAvailReaderMsgCap v x := MkSenderState (sd_Inbox x) (sd_Dest x) (sd_LastAckRec x) (sd_LastFrameSent x) (sd_Txq x) (sd_SenderWindowSize x) (sd_SendHistory x) (sd_SendAck x) (sd_DiscardCount x) (sd_LastSendTime x) (sd_LastHeardFromDownstream x) (sd_KeepAliveInterval x) (sd_NumFailedKeepAlivesBeforeClosing x) (sd_ByDeadline x) (sd_BySeqNum x) (sd_LastSeenAvailReaderBytesCap x) v (sd_FlowCt x) (sd_TotalBytesSent x) (sd_recvLastFrameClientConsumed x) (sd_LocalSessNonce x) (sd_RemoteSessNonce x).
Definition set_sd_FlowCt v x := MkSenderState (sd_Inbox x) (sd_Dest x) (sd_LastAckRec x) (sd_LastFrameSent x) (sd_Txq x) (sd_SenderWindowSize x) (sd_SendHistory x) (sd_SendAck x) (sd_DiscardCount x) (sd_LastSendTime x) (sd_LastHeardFromDownstream x) (sd_KeepAliveInterval x) (sd_NumFailedKeepAlivesBeforeClosing x) (sd_ByDeadline x) (sd_BySeqNum x) (sd_LastSeenAvailReaderBytesCap x) (sd_LastSeenAvailReaderMsgCap x) v (sd_TotalBytesSent x) (sd_recvLastFrameClientConsumed x) (sd_LocalSessNonce x) (sd_RemoteSessNonce x).
Definition set_sd_TotalBytesSent v x := MkSenderState (sd_Inbox x) (sd_Dest x) (sd_LastAckRec x) (sd_LastFrameSent x) (sd_Txq x) (sd_SenderWindowSize x) (sd_SendHistory x) (sd_SendAck x) (sd_DiscardCount x) (sd_LastSendTime x) (sd_LastHeardFromDownstream x) (sd_KeepAliveInterval x) (sd_NumFailedKeepAlivesBeforeClosing x) (sd_ByDeadline x) (sd_BySeqNum x) (sd_LastSeenAvailReaderBytesCap x) (sd_LastSeenAvailReaderMsgCap x) (sd_FlowCt x) v (sd_recvLastFrameClientConsumed x) (sd_LocalSessNonce x) (sd_RemoteSessNonce x).
Definition set_sd_recvLastFrameClientConsumed v x := MkSenderState (sd_Inbox x) (sd_Dest x) (sd_LastAckRec x) (sd_LastFrameSent x) (sd_Txq x) (sd_SenderWindowSize x) (sd_SendHistory x) (sd_SendAck x) (sd_DiscardCount x) (sd_LastSendTime x) (sd_LastHeardFromDownstream x) (sd_KeepAliveInterval x) (sd_NumFailedKeepAlivesBeforeClosing x) (sd_ByDeadline x) (sd_BySeqNum x) (sd_LastSeenAvailReaderBytesCap x) (sd_LastSeenAvailReaderMsgCap x) (sd_FlowCt x) (sd_TotalBytesSent x) v (sd_LocalSessNonce x) (sd_RemoteSessNonce x).
Definition set_sd_RemoteSessNonce v x := MkSenderState (sd_Inbox x) (sd_Dest x) (sd_LastAckRec x) (sd_LastFrameSent x) (sd_Txq x) (sd_SenderWindowSize x) (sd_SendHistory x) (sd_SendAck x) (sd_DiscardCount x) (sd_LastSendTime x) (sd_LastHeardFromDownstream x) (sd_KeepAliveInterval x) (sd_NumFailedKeepAlivesBeforeClosing x) (sd_ByDeadline x) (sd_BySeqNum x) (sd_LastSeenAvailReaderBytesCap x) (sd_LastSeenAvailReaderMsgCap x) (sd_FlowCt x) (sd_TotalBytesSent x) (sd_recvLastFrameClientConsumed x) (sd_LocalSessNonce x) v.

Record endpoint := MkEndpoint { ep_rcv : RecvState; ep_snd : SenderState }.

Definition set_rcv r e := MkEndpoint r (ep_snd e).
Definition set_snd s e := MkEndpoint (ep_rcv e) s.
Definition on_rcv (f : RecvState -> RecvState) e := set_rcv (f (ep_rcv e)) e.
Definition on_snd (f : SenderState -> SenderState) e := set_snd (f (ep_snd e)) e.

(** ** The retry trees *)

(** A red-black tree is the sequence of its items in order.  While the items
    are in the order of [compare], as [SwpSend] shows for sessions whose ends
    have windows of the same size, the linear search finds what the binary
    search of the tree finds; a slot that is reused while it is in a tree
    breaks that order, and then the list is not exact. *)
Section tree.
Context (compare : nat -> nat -> Z).

Fixpoint tree_insert (j : nat) (t : list nat) : list nat :=
  match t with
  | [] => [j]
  | k :: t' =>
      if (compare j k <? 0)%Z then j :: t
      else if (compare j k =? 0)%Z then t
      else k :: tree_insert j t'
  end.

Fixpoint tree_delete (j : nat) (t : list nat) : list nat :=
  match t with
  | [] => []
  | k :: t' => if (compare j k =? 0)%Z then t' else k :: tree_delete j t'
  end.
End tree.

(** The items from the smallest on that are to go, and the rest. *)
Fixpoint delete_while (goner : nat -> bool) (t : list nat) : list nat * list nat :=
  match t with
  | [] => ([], [])
  | j :: t' => if goner j then let '(gs, rest) := delete_while goner t' in (j :: gs, rest) else ([], t)
  end.

Definition slot_seq (txq : list TxqSlot) (j : nat) : Z :=
  match txq !! j with Some (MkTxqSlot _ _ _ (Some p)) => pk_SeqNum p | _ => 0 end.
Definition slot_deadline (txq : list TxqSlot) (j : nat) : Z :=
  match txq !! j with Some sl => sl_RetryDeadline sl | None => 0 end.
Definition slot_len (txq : list TxqSlot) (j : nat) : Z :=
  match txq !! j with Some (MkTxqSlot _ _ _ (Some p)) => Z.of_nat (length (pk_Data p)) | _ => 0 end.

Definition compareRetryDeadline (txq : list TxqSlot) (a b : nat) : Z :=
  let at_ := slot_deadline txq a in
  let bt := slot_deadline txq b in
  if negb (at_ =? bt)%Z then (at_ - bt)%Z else (slot_seq txq a - slot_seq txq b)%Z.

Definition compareSeqNum (txq : list TxqSlot) (a b : nat) : Z := (slot_seq txq a - slot_seq txq b)%Z.

(** The slots up to a deadline, up to a sequence number. *)
Definition deleteThroughDeadline (txq : list TxqSlot) (x : Z) (t : list nat) : list nat * list nat :=
  delete_while (fun j => negb (x <? slot_deadline txq j)%Z) t.
Definition deleteThroughSeqNum (txq : list TxqSlot) (seqnum : Z) (t : list nat) : list nat * list nat :=
  delete_while (fun j => (slot_seq txq j <=? seqnum)%Z) t.

(** The callback of the two: every goner leaves the other tree. *)
Definition delete_all (compare : nat -> nat -> Z) (goners t : list nat) : list nat :=
  foldl (fun t j => tree_delete compare j t) t goners.

(** ** The sender *)

Section swp.
(** The checksum of the vendored library. *)
Context (Blake2bOfBytes : bytes -> bytes).

Definition ComputeInflight (s : SenderState) : Z * Z :=
  foldl (fun '(b, m) j => ((b + slot_len (sd_Txq s) j)%Z, (m + 1)%Z)) (0%Z, 0%Z) (sd_ByDeadline s).

(** The guard of [acceptSend]. *)
Definition can_send (s : SenderState) : bool :=
  let '(bytesInflight, msgInflight) := ComputeInflight s in
  ((0 <? sd_LastSeenAvailReaderMsgCap s - msgInflight) && (0 <? sd_LastSeenAvailReaderBytesCap s - bytesInflight))%Z.

Definition insert_slot (j : nat) (s : SenderState) : SenderState :=
  set_sd_BySeqNum (tree_insert (compareSeqNum (sd_Txq s)) j (sd_BySeqNum s))
    (set_sd_ByDeadline (tree_insert (compareRetryDeadline (sd_Txq s)) j (sd_ByDeadline s)) s).

(** [doOrigDataSend]: the sender and the packet that goes out. *)
Definition doOrigDataSend (s : SenderState) (now dur : Z) (pack : Packet) : SenderState * Packet :=
  let lfs := (sd_LastFrameSent s + 1)%Z in
  let total := (sd_TotalBytesSent s + Z.of_nat (length (pk_Data pack)))%Z in
  let flow := UpdateFlow (sd_FlowCt s) (-1) (-1) in
  let pos := Z.to_nat (Z.rem lfs (sd_SenderWindowSize s)) in
  let pack := set_pk_CumulBytesTransmitted total pack in
  let pack := if decide (pk_Data pack = []) then pack
              else set_pk_Blake2bChecksum (Blake2bOfBytes (pk_Data pack)) pack in
  let pack := set_pk_From (sd_Inbox s) (set_pk_SeqNum lfs pack) in
  let pack := set_pk_AvailReaderMsgCap (fl_AvailReaderMsgCap flow)
                (set_pk_AvailReaderBytesCap (fl_AvailReaderBytesCap flow) pack) in
  let pack := set_pk_DataSendTm now pack in
  let pack := set_pk_DestSessNonce (sd_RemoteSessNonce s) (set_pk_FromSessNonce (sd_LocalSessNonce s) pack) in
  let slot := MkTxqSlot now (now + dur) dur (Some pack) in
  let s := set_sd_TotalBytesSent total (set_sd_LastFrameSent lfs s) in
  let s := set_sd_FlowCt flow (set_sd_LastSendTime now s) in
  let s := set_sd_SendHistory (sd_SendHistory s ++ [pack]) (set_sd_Txq (<[pos := slot]> (sd_Txq s)) s) in
  (insert_slot pos s, pack).

(** The packet that [Session.Write] pushes for a piece of its payload. *)
Definition data_packet (s : SenderState) (data : bytes) : Packet :=
  MkPacket (sd_Inbox s) (sd_Dest s) [] [] 0 0 0 0 0 0 0 EventData Fresh 0 0 0 data 0 [].

(** The body of the loop over the slots that timed out. *)
Definition resend (s : SenderState) (now dur : Z) (j : nat) : SenderState * list Packet :=
  let flow := UpdateFlow (sd_FlowCt s) (-1) (-1) in
  match sd_Txq s !! j with
  | Some (MkTxqSlot orig _ _ (Some pack)) =>
      let pack := set_pk_DataSendTm now (set_pk_SeqRetry (pk_SeqRetry pack + 1) pack) in
      let pack := set_pk_AvailReaderMsgCap (fl_AvailReaderMsgCap flow)
                    (set_pk_AvailReaderBytesCap (fl_AvailReaderBytesCap flow) pack) in
      let pack := set_pk_DestSessNonce (sd_RemoteSessNonce s) (set_pk_FromSessNonce (sd_LocalSessNonce s) pack) in
      let slot := MkTxqSlot orig (now + dur) dur (Some pack) in
      (insert_slot j (set_sd_Txq (<[j := slot]> (sd_Txq s)) (set_sd_FlowCt flow s)), [pack])
  | _ => (s, [])
  end.

Fixpoint resend_all (s : SenderState) (clock : nat -> Z * Z) (js : list nat) : SenderState * list Packet :=
  match js with
  | [] => (s, [])
  | j :: js' =>
      let '(s1, out) := resend s (clock 0).1 (clock 0).2 j in
      let '(s2, outs) := resend_all s1 (fun i => clock (S i)) js' in
      (s2, out ++ outs)
  end.

(** The wake-up: [None] when the other end has been silent for too long. *)
Definition wakeup (s : SenderState) (now : Z) (clock : nat -> Z * Z) : option (SenderState * list Packet) :=
  if (0 <? sd_NumFailedKeepAlivesBeforeClosing s)%Z &&
     (sd_KeepAliveInterval s * sd_NumFailedKeepAlivesBeforeClosing s <? now - sd_LastHeardFromDownstream s)%Z
  then None
  else
    let '(retry, rest) := deleteThroughDeadline (sd_Txq s) now (sd_ByDeadline s) in
    let s := set_sd_ByDeadline rest s in
    let s := set_sd_BySeqNum (delete_all (compareSeqNum (sd_Txq s)) retry (sd_BySeqNum s)) s in
    Some (resend_all s clock retry).

(** The case [GotPack]. *)
Definition gotPack (s : SenderState) (a : Packet) : option SenderState :=
  let s := set_sd_LastHeardFromDownstream (pk_ArrivedAtDestTm a) s in
  let s := set_sd_LastSeenAvailReaderMsgCap (pk_AvailReaderMsgCap a)
             (set_sd_LastSeenAvailReaderBytesCap (pk_AvailReaderBytesCap a) s) in
  let '(goners, rest) := deleteThroughSeqNum (sd_Txq s) (pk_AckNum a) (sd_BySeqNum s) in
  let s := set_sd_BySeqNum rest s in
  let s := set_sd_ByDeadline (delete_all (compareRetryDeadline (sd_Txq s)) goners (sd_ByDeadline s)) s in
  if decide (length (sd_BySeqNum s) <> length (sd_ByDeadline s)) then None
  else if bool_decide (pk_TcpEvent a <> EventDataAck) || (pk_AckNum a <? 0)%Z then Some s
  else if negb (InWindow (pk_AckNum a) (sd_LastAckRec s + 1) (sd_LastFrameSent s))
  then Some (set_sd_DiscardCount (sd_DiscardCount s + 1) s)
  else Some s.

Definition doKeepAlive (s : SenderState) (now : Z) (state : TcpState) : SenderState * list Packet :=
  if bool_decide (sd_Dest s = []) || bool_decide (sd_RemoteSessNonce s = []) then (s, [])
  else if (now - sd_LastSendTime s <? sd_KeepAliveInterval s)%Z then (s, [])
  else
    let flow := UpdateFlow (sd_FlowCt s) (-1) (-1) in
    (set_sd_LastSendTime now (set_sd_FlowCt flow s),
     [MkPacket (sd_Inbox s) (sd_Dest s) (sd_LocalSessNonce s) (sd_RemoteSessNonce s) 0 now (-777) (-777)
        (sd_recvLastFrameClientConsumed s) (-777) 0 EventKeepAlive state
        (fl_AvailReaderBytesCap flow) (fl_AvailReaderMsgCap flow) 0 [] 0 []]).

Definition doSendClosing (s : SenderState) (now : Z) : SenderState * list Packet :=
  let flow := UpdateFlow (sd_FlowCt s) (-1) (-1) in
  (set_sd_LastSendTime now (set_sd_FlowCt flow s),
   [MkPacket (sd_Inbox s) (sd_Dest s) (sd_LocalSessNonce s) (sd_RemoteSessNonce s) 0 now (-888) (-888)
      0 (-888) 0 EventFin Fresh
      (fl_AvailReaderBytesCap flow) (fl_AvailReaderMsgCap flow) 0 [] 0 []]).

(** The case [SendAck]: the oldest ack of the queue goes out. *)
Definition sendAck (s : SenderState) : SenderState * list Packet :=
  match sd_SendAck s with
  | [] => (s, [])
  | ackPack :: acks =>
      let s := set_sd_SendAck acks s in
      (if bool_decide (sd_RemoteSessNonce s = []) && bool_decide (pk_DestSessNonce ackPack <> [])
       then set_sd_RemoteSessNonce (pk_DestSessNonce ackPack) s else s,
       [ackPack])
  end.

(** ** The receiver *)

Definition UpdateControl (e : endpoint) : endpoint :=
  let r := ep_rcv e in
  let msgs := (rv_RecvWindowSize r - (rv_LargestSeqnoRcvd r - rv_LastMsgConsumed r))%Z in
  let bytes := (rv_RecvWindowSizeBytes r - (rv_MaxCumulBytesTrans r - (rv_LastByteConsumed r + 1)))%Z in
  MkEndpoint (set_rv_LastAvailReaderBytesCap bytes (set_rv_LastAvailReaderMsgCap msgs r))
    (set_sd_FlowCt (UpdateFlow (sd_FlowCt (ep_snd e)) msgs bytes) (ep_snd e)).

(** The capacity of [SendAck]; when it is full the oldest ack is dropped. *)
Definition ack_cap : nat := 5.

Definition push_ack (ack : Packet) (q : list Packet) : list Packet :=
  (if decide (length q = ack_cap) then tail q else q) ++ [ack].

Definition ack (e : endpoint) (now seqno : Z) (pack : option Packet) (event : TcpEvent) : endpoint :=
  let e := match pack with Some _ => UpdateControl e | None => e end in
  let r := ep_rcv e in
  let a := MkPacket (rv_Inbox r) (rv_RemoteInbox r) (rv_LocalSessNonce r) (rv_RemoteSessNonce r) 0
             (match pack with Some p => pk_DataSendTm p | None => now end) (-99) (-99) seqno
             (match pack with Some p => pk_SeqRetry p | None => -1 end) now event Fresh
             (rv_LastAvailReaderBytesCap r) (rv_LastAvailReaderMsgCap r) 0 [] 0 [] in
  on_snd (fun s => set_sd_SendAck (push_ack a (sd_SendAck s)) s) e.

(** [doTcpAction]; the event that follows. *)
Definition doTcpAction (e : endpoint) (now : Z) (act : TcpAction) (pack : option Packet) : option (endpoint * TcpEvent) :=
  let r := ep_rcv e in
  let say ev e := Some (ack e now (rv_LastFrameClientConsumed r) pack ev, EventNil) in
  match act with
  | NoAction => Some (e, EventNil)
  | SendDataAck => say EventDataAck e
  | SendSyn => say EventSyn e
  | SendSynAck =>
      match pack with
      | None => None
      | Some p =>
          if bool_decide (rv_RemoteSessNonce r <> []) && bool_decide (rv_RemoteSessNonce r <> pk_FromSessNonce p) then None
          else say EventSynAck (on_rcv (set_rv_RemoteSessNonce (pk_FromSessNonce p)) e)
      end
  | SendEstabAck =>
      match pack with
      | None => None
      | Some p =>
          if bool_decide (rv_RemoteSessNonce r <> []) then None
          else match rv_connReqPending r with
               | None | Some true => None  (* nothing is pending, or [Done] is closed twice *)
               | Some false => say EventEstabAck
                   (on_rcv (fun r => set_rv_connReqPending None (set_rv_RemoteSessNonce (pk_FromSessNonce p) r)) e)
               end
      end
  | SendFin => say EventFin e
  | SendFinAck => say EventFinAck e
  | DoAppClose =>
      Some (ack (on_rcv (set_rv_AppCloseCallback false) e) now (rv_LastFrameClientConsumed r) pack EventFinAck,
            EventApplicationClosed)
  end.

Definition isRetryState (state : TcpState) : bool :=
  match state with SynSent | SynReceived | CloseInitiatorHasSentFin => true | _ => false end.

(** [setupRetry], after a change of state. *)
Definition setupRetry (r : RecvState) (now : Z) (post : TcpState) (pack : Packet) (act : TcpAction) : RecvState :=
  let t := rv_retry r in
  if isRetryState (rv_TcpState r)
  then set_rv_retry (MkRetry post true now act (rt_attemptCount t) (Some pack) true) r
  else set_rv_retry (MkRetry (rt_curState t) false (rt_lastAttemptAt t) (rt_firstStateAction t) (rt_attemptCount t) None false) r.

(** [retryCheck]: the flag tells that the receiver asks to halt. *)
Definition retryCheck (e : endpoint) (now : Z) : option (endpoint * bool) :=
  let r := ep_rcv e in
  let t := rv_retry r in
  let stop_timer t := MkRetry (rt_curState t) (rt_inUse t) (rt_lastAttemptAt t) (rt_firstStateAction t) (rt_attemptCount t) (rt_causalPacket t) false in
  if negb (rt_inUse t) then Some (on_rcv (set_rv_retry (stop_timer t)) e, false)
  else if negb (bool_decide (rt_curState t = rv_TcpState r)) then
    Some (on_rcv (set_rv_retry (MkRetry (rt_curState t) false (rt_lastAttemptAt t) (rt_firstStateAction t) (rt_attemptCount t) None false)) e, false)
  else if (1000000000 <? now - rt_lastAttemptAt t)%Z then
    let n := (rt_attemptCount t + 1)%Z in
    if (10 <? n)%Z then
      Some (on_rcv (set_rv_retry (MkRetry (rt_curState t) false (rt_lastAttemptAt t) (rt_firstStateAction t) n (rt_causalPacket t) false)) e, true)
    else
      match doTcpAction e now (rt_firstStateAction t) (rt_causalPacket t) with
      | None => None
      | Some (e', _) =>
          Some (on_rcv (set_rv_retry (MkRetry (rt_curState t) true now (rt_firstStateAction t) n (rt_causalPacket t) true)) e', false)
      end
  else Some (on_rcv (set_rv_retry (stop_timer t)) e, false).

(** The events of a packet, with the [goto doNextEvent]. *)
Fixpoint tcp_events (fuel : nat) (e : endpoint) (now : Z) (event : TcpEvent) (pack : Packet) : option endpoint :=
  match fuel with
  | O => None
  | S fuel' =>
      let preUpdate := rv_TcpState (ep_rcv e) in
      let '(st, act) := UpdateTcp preUpdate event (pk_FromTcpState pack) in
      let e := on_rcv (set_rv_TcpState st) e in
      let e := if decide (preUpdate = st) then e else on_rcv (fun r => setupRetry r now st pack act) e in
      match doTcpAction e now act (Some pack) with
      | None => None
      | Some (e, eventNext) =>
          if decide (eventNext = EventNil) then Some e else tcp_events fuel' e now eventNext pack
      end
  end.

(** The first remote that sends a SYN. *)
Definition lock_on (r : RecvState) (pack : Packet) : RecvState :=
  if bool_decide (pk_TcpEvent pack = EventSyn) && (bool_decide (rv_TcpState r = Fresh) || bool_decide (rv_TcpState r = Listen)) &&
     bool_decide (rv_RemoteInbox r = []) && bool_decide (pk_From pack <> [])
  then set_rv_RemoteSessNonce (pk_FromSessNonce pack) (set_rv_RemoteInbox (pk_From pack) r)
  else r.

(** The packet is of this session and intact. *)
Definition wanted (r : RecvState) (pack : Packet) : bool :=
  negb (bool_decide (rv_RemoteInbox r <> []) && bool_decide (pk_From pack <> rv_RemoteInbox r)) &&
  negb ((bool_decide (pk_DestSessNonce pack <> []) || (state_num Established <=? state_num (rv_TcpState r))%Z) &&
        bool_decide (pk_DestSessNonce pack <> rv_LocalSessNonce r)) &&
  negb (bool_decide (rv_RemoteSessNonce r <> []) && bool_decide (pk_FromSessNonce pack <> rv_RemoteSessNonce r)) &&
  (bool_decide (pk_Data pack = []) || bool_decide (pk_Blake2bChecksum pack = Blake2bOfBytes (pk_Data pack))).

(** The largest sequence number, and the two checks that panic. *)
Definition track_seq (r : RecvState) (pack : Packet) : option RecvState :=
  let next :=
    if (rv_LargestSeqnoRcvd r <? pk_SeqNum pack)%Z then
      if (pk_CumulBytesTransmitted pack <? rv_MaxCumulBytesTrans r)%Z then None
      else Some (set_rv_MaxCumulBytesTrans (pk_CumulBytesTransmitted pack) (set_rv_LargestSeqnoRcvd (pk_SeqNum pack) r))
    else Some r in
  r ← next;
  if (rv_MaxCumulBytesTrans r <? pk_CumulBytesTransmitted pack)%Z then None else Some r.

(** The index [n % r.RecvWindowSize]; a negative one is out of range. *)
Definition rxq_index (r : RecvState) (n : Z) : option nat :=
  if (rv_RecvWindowSize r =? 0)%Z || (Z.rem n (rv_RecvWindowSize r) <? 0)%Z then None
  else Some (Z.to_nat (Z.rem n (rv_RecvWindowSize r))).

(** The loop over the frames that are in order. *)
Fixpoint in_order (fuel : nat) (r : RecvState) : option RecvState :=
  match fuel with
  | O => None
  | S fuel' =>
      i ← rxq_index r (rv_NextFrameExpected r);
      slot ← rv_Rxq r !! i;
      match slot with
      | MkRxqSlot true (Some p) =>
          let r := set_rv_ReadyForDelivery (rv_ReadyForDelivery r ++ [p]) r in
          let r := set_rv_RecvHistory (rv_RecvHistory r ++ [p]) r in
          let r := set_rv_Rxq (<[i := MkRxqSlot false None]> (rv_Rxq r)) r in
          in_order fuel' (set_rv_NextFrameExpected (rv_NextFrameExpected r + 1) r)
      | MkRxqSlot true None => None
      | MkRxqSlot false _ => Some r
      end
  end.

(** A data packet. *)
Definition recv_data (e : endpoint) (now : Z) (pack : Packet) : option endpoint :=
  let r := ep_rcv e in
  let r := if (rv_NextFrameExpected r <=? pk_SeqNum pack)%Z
           then set_rv_RcvdButNotConsumed (<[pk_SeqNum pack := pack]> (rv_RcvdButNotConsumed r)) r else r in
  let e := set_rcv r e in
  i ← rxq_index r (pk_SeqNum pack);
  if negb (InWindow (pk_SeqNum pack) (rv_NextFrameExpected r) (rv_NextFrameExpected r + rv_RecvWindowSize r - 1)) then
    let e := on_rcv (fun r => set_rv_DiscardCount (rv_DiscardCount r + 1) r) e in
    Some (ack e now (rv_LastFrameClientConsumed r) (Some pack) EventDataAck)
  else
    let r := set_rv_Rxq (<[i := MkRxqSlot true (Some pack)]> (rv_Rxq r)) r in
    if (pk_SeqNum pack =? rv_NextFrameExpected r)%Z then
      r ← in_order (S (length (rv_Rxq r))) r;
      Some (MkEndpoint r (set_sd_recvLastFrameClientConsumed (rv_LastFrameClientConsumed r) (ep_snd e)))
    else Some (set_rcv r e).

(** The case [MsgRecv]; the flag tells that the loop returns. *)
Definition recv_packet (e : endpoint) (now : Z) (pack : Packet) : option (endpoint * bool) :=
  let e := on_rcv (fun r => lock_on r pack) e in
  if negb (wanted (ep_rcv e) pack) then Some (e, false)
  else
    let pack := set_pk_ArrivedAtDestTm now pack in
    r ← track_seq (ep_rcv e) pack;
    let e := UpdateControl (set_rcv r e) in
    s ← gotPack (ep_snd e) (CopyPacketSansData pack);
    let e := set_snd s e in
    if decide (pk_TcpEvent pack <> EventData) then
      e ← tcp_events 3 e now (pk_TcpEvent pack) pack;
      Some (e, bool_decide (rv_TcpState (ep_rcv e) = Closed))
    else
      e ← recv_data e now pack;
      Some (e, false).

(** The top of the loop. *)
Definition loop_top (r : RecvState) : RecvState :=
  match rv_ReadyForDelivery r with [] => r | ps => set_rv_delivery ps r end.

(** The case [deliverToConsumer], which is there when a packet is ready. *)
Definition deliver (e : endpoint) (now : Z) : option (endpoint * list Packet) :=
  let r := ep_rcv e in
  let seq := rv_delivery r in
  match rv_ReadyForDelivery r, last seq with
  | [], _ => Some (e, [])
  | _, None => None
  | _, Some lastPack =>
      let held := foldl (fun m p => delete (pk_SeqNum p) m) (rv_RcvdButNotConsumed r) seq in
      let r := set_rv_LastMsgConsumed (pk_SeqNum lastPack) (set_rv_RcvdButNotConsumed held r) in
      let r := set_rv_LastByteConsumed (pk_CumulBytesTransmitted lastPack) r in
      let r := set_rv_LastFrameClientConsumed (pk_SeqNum lastPack) (set_rv_ReadyForDelivery [] r) in
      let e := ack (set_rcv r e) now (rv_LastFrameClientConsumed r) (Some lastPack) EventDataAck in
      Some (on_rcv (set_rv_delivery []) e, seq)
  end.

(** The loop of [fillAsMuchAsPossible] over the packets that are ready, with
    the room that is left in the buffer; [lastPack] is the last packet that
    was consumed whole. *)
Fixpoint fill (r : RecvState) (room : nat) (ready : list Packet) (lastPack : option Packet) :
    RecvState * bytes * option Packet :=
  match ready with
  | [] => (r, [], lastPack)
  | pk :: ready' =>
      let data := drop (pk_DataOffset pk) (pk_Data pk) in
      let got := take room data in
      let m := length got in
      let '(r, lastPack) :=
        if decide (m = length data) then
          let r := set_rv_ReadyForDelivery (tail (rv_ReadyForDelivery r)) r in
          let r := set_rv_RcvdButNotConsumed (delete (pk_SeqNum pk) (rv_RcvdButNotConsumed r)) r in
          let r := set_rv_LastFrameClientConsumed (pk_SeqNum pk) (set_rv_LastMsgConsumed (pk_SeqNum pk) r) in
          (set_rv_LastByteConsumed (pk_CumulBytesTransmitted pk) r, Some pk)
        else
          let r := set_rv_ReadyForDelivery (set_pk_DataOffset (pk_DataOffset pk + m) pk :: tail (rv_ReadyForDelivery r)) r in
          (set_rv_LastByteConsumed (pk_CumulBytesTransmitted pk - Z.of_nat (length data) + Z.of_nat m) r, lastPack) in
      if decide (room - m = 0) then (r, got, lastPack)
      else
        let '(r, more, lastPack) := fill r (room - m) ready' lastPack in
        (r, got ++ more, lastPack)
  end.

(** The case [AcceptReadRequest] with a buffer of [lenp] bytes. *)
Definition read (e : endpoint) (now : Z) (lenp : nat) : endpoint * bytes :=
  let r := ep_rcv e in
  if decide (rv_delivery r = []) then (e, [])
  else if decide (lenp = 0) then (e, [])
  else
    let '(r, got, lastPack) := fill r lenp (rv_ReadyForDelivery r) None in
    let e := set_rcv r e in
    match lastPack with
    | Some pk => (ack e now (rv_LastFrameClientConsumed r) (Some pk) EventDataAck, got)
    | None => (e, got)
    end.

(** The case [ConnectCh] with its SYN, unless the request is refused.  The
    sender takes the SYN at once; when [Net.Send] fails ([ok] is false) it
    closes the channel [Done] of the request, which stays pending. *)
Definition connect (e : endpoint) (DestInbox : bytes) (ok : bool) : endpoint * list Packet :=
  let r := ep_rcv e in
  if bool_decide (rv_RemoteInbox r <> []) && bool_decide (rv_RemoteInbox r <> DestInbox) then (e, [])
  else
    let r := if decide (rv_RemoteInbox r = []) then set_rv_RemoteInbox DestInbox r else r in
    if negb (bool_decide (rv_TcpState r = Listen)) && negb (bool_decide (rv_TcpState r = SynSent)) then (set_rcv r e, [])
    else
      (set_rcv (set_rv_TcpState SynSent (set_rv_connReqPending (Some (negb ok)) r)) e,
       if ok then [MkPacket (rv_Inbox r) DestInbox (rv_LocalSessNonce r) [] 0 0 (-98) (-98) 0 0 0 EventSyn Fresh 0 0 0 [] 0 []] else []).
End swp.

(** ** New sessions *)

Definition NewRecvState (recvSz recvSzBytes : Z) (inbox nonce destInbox : bytes) (callback : bool) : RecvState :=
  MkRecvState inbox destInbox 0 0 (replicate (Z.to_nat recvSz) (MkRxqSlot false None)) recvSz recvSzBytes [] 0
    (-1) (-1) 0 (-1) 0 0 ∅ [] Listen (MkRetry Fresh false 0 NoAction 0 None false) callback nonce [] None [].

Definition NewSenderState (sendSz : Z) (inbox destInbox : bytes) (now keepAliveInterval numFailed : Z) (nonce : bytes) : SenderState :=
  MkSenderState inbox destInbox (-1) (-1) (replicate (Z.to_nat sendSz) (MkTxqSlot 0 0 0 None)) sendSz [] [] 0 0 now
    keepAliveInterval numFailed [] [] (1024 * 1024) sendSz (MkFlow 0 0) 0 0 nonce [].

(** [NewSession]; [None] is its error. *)
Definition NewSession (WindowMsgCount WindowByteSz : Z) (inbox destInbox nonce : bytes) (now keepAliveInterval numFailed : Z)
    (callback : bool) : option endpoint :=
  if (WindowMsgCount <? 1)%Z then None
  else
    let WindowByteSz := if (WindowByteSz <? WindowMsgCount)%Z then (WindowMsgCount * 10 * 1024)%Z else WindowByteSz in
    let numFailed := if (numFailed =? 0)%Z then 50%Z else numFailed in
    let keepAliveInterval := if (keepAliveInterval =? 0)%Z then 500000000%Z else keepAliveInterval in
    Some (MkEndpoint (NewRecvState WindowMsgCount WindowByteSz inbox nonce destInbox callback)
            (NewSenderState WindowMsgCount inbox destInbox now keepAliveInterval numFailed nonce)).
