(* ===== verification/SwpNet.v ===== *)
(** * SwpNet: two ends of a session over a network

    The two ends run the loops of [Swp] and share a network that may lose,
    delay, repeat and reorder packets: a packet that was sent once can arrive at
    any later time, any number of times, or never.  The simulated network hands
    it over unchanged; the serialiser of the NATS network drops the field
    [FromTcpState] ([SwpGen]), so it can also arrive without it. *)

From S2P Require Import Prelude SwpTcp Swp.

Section net.
Context (Blake2bOfBytes : bytes -> bytes).

(** The cases of the two select loops, with what the environment chooses: the
    time, the durations until a retry, and whether [Net.Send] works. *)
Inductive event :=
| EvRecv (now : Z) (pack : Packet)
| EvDeliver (now : Z)
| EvRead (now : Z) (lenp : nat)
| EvConnect (dest : bytes) (ok : bool)
| EvRetryTimer (now : Z)
| EvKeepAlive (now : Z)
| EvClose (now : Z)
| EvPush (now dur : Z) (data : bytes)
| EvWakeup (now : Z) (clock : nat -> Z * Z)
| EvSendAck (ok : bool).

(** What an event does: the end, whether its loops go on, the packets it
    sends and the bytes it hands to the application. *)
Record effect := MkEffect { ef_end : endpoint; ef_run : bool; ef_sent : list Packet; ef_out : bytes }.

(** The bytes of a packet that are still to be read. *)
Definition unread (p : Packet) : bytes := drop (pk_DataOffset p) (pk_Data p).

Definition handle (e : endpoint) (ev : event) : option effect :=
  let e := on_rcv loop_top e in
  match ev with
  | EvRecv now pack => '(e, stop) ← recv_packet Blake2bOfBytes e now pack; Some (MkEffect e (negb stop) [] [])
  | EvDeliver now => '(e, ps) ← deliver e now; Some (MkEffect e true [] (ps ≫= unread))
  | EvRead now lenp => let '(e, got) := read e now lenp in Some (MkEffect e true [] got)
  | EvConnect dest ok => let '(e, out) := connect e dest ok in Some (MkEffect e true out [])
  | EvRetryTimer now => '(e, stop) ← retryCheck e now; Some (MkEffect e (negb stop) [] [])
  | EvKeepAlive now =>
      let '(s, out) := doKeepAlive (ep_snd e) now (rv_TcpState (ep_rcv e)) in Some (MkEffect (set_snd s e) true out [])
  | EvClose now => let '(s, out) := doSendClosing (ep_snd e) now in Some (MkEffect (set_snd s e) true out [])
  | EvPush now dur data =>
      if can_send (ep_snd e) then
        let '(s, p) := doOrigDataSend Blake2bOfBytes (ep_snd e) now dur (data_packet (ep_snd e) data) in
        Some (MkEffect (set_snd s e) true [p] [])
      else Some (MkEffect e true [] [])
  | EvWakeup now clock =>
      match wakeup (ep_snd e) now clock with
      | None => Some (MkEffect e false [] [])
      | Some (s, out) => Some (MkEffect (set_snd s e) true out [])
      end
  | EvSendAck ok =>
      let '(s, out) := sendAck (ep_snd e) in
      Some (MkEffect (set_snd s e) ok (if ok then out else []) [])
  end.

(** ** The pair *)

Inductive side := A | B.

#[global] Instance side_eq_dec : EqDecision side.
Proof. solve_decision. Defined.

Definition other (x : side) : side := match x with A => B | B => A end.

(** The ends, whether their loops run, all that was ever sent, and the bytes
    that the applications have got. *)
Record world := MkWorld {
  w_end : side -> endpoint;
  w_run : side -> bool;
  w_net : list Packet;
  w_out : side -> bytes;
}.

Definition upd {T} (f : side -> T) (x : side) (v : T) : side -> T := fun y => if decide (y = x) then v else f y.

(** What arrives of a packet. *)
Definition arrives_as (p p' : Packet) : Prop := p' = p \/ p' = set_pk_FromTcpState Fresh p.

(** An end takes an event; a packet must have been sent to its inbox, and the
    application connects to the other end. *)
Inductive wstep (w : world) : world -> Prop :=
| wstep_event x ev ef : w_run w x = true -> handle (w_end w x) ev = Some ef ->
    (forall now pack, ev = EvRecv now pack ->
      (exists p, p ∈ w_net w /\ arrives_as p pack) /\ pk_Dest pack = rv_Inbox (ep_rcv (w_end w x))) ->
    (forall dest ok, ev = EvConnect dest ok -> dest = rv_Inbox (ep_rcv (w_end w (other x)))) ->
    wstep w (MkWorld (upd (w_end w) x (ef_end ef)) (upd (w_run w) x (ef_run ef)) (w_net w ++ ef_sent ef)
                     (upd (w_out w) x (w_out w x ++ ef_out ef))).

Definition wsteps : relation world := rtc wstep.

(** A new pair: each is the destination of the other, or waits for the first
    that connects. *)
Record starts_with (inbox nonce : side -> bytes) (size : Z) (w : world) : Prop := {
  st_inbox : inbox A <> inbox B;
  st_named : forall x, inbox x <> [];
  st_nonce : forall x, nonce x <> [];
  st_size : (1 <= size)%Z;
  st_end : forall x, exists bytesz dest now interval failed callback,
    (dest = inbox (other x) \/ dest = []) /\
    NewSession size bytesz (inbox x) dest (nonce x) now interval failed callback = Some (w_end w x);
  st_run : forall x, w_run w x = true;
  st_net : w_net w = [];
  st_out : forall x, w_out w x = [];
}.
End net.
