(* ===== verification/SwpGen.v ===== *)
(** * SwpGen: packets on the NATS network

    [src/swp/swp_gen.go], the serialisers of [tcp_gen.go]'s [TcpEvent] as they
    are used in them, and [NatsNet] of [natsnet.go], which sends a packet as
    the bytes of its [MarshalMsg] and panics on bytes it cannot decode.

    A packet arrives as it was sent, but for one field: [FromTcpState] was
    added to [Packet] and not to the generated code, so every packet arrives
    with the state [Fresh], and what a keepalive says about the state of its
    sender is lost. *)

From S2P Require Import Prelude Msgp SwpTcp Swp SwpNet.
Open Scope Z_scope.

(** ** Data *)

(** [Packet], with every field of the source that is serialised or meant to be;
    a [Packet] of the session model leaves the round trip estimates out. *)
Record PacketMsg := MkPacketMsg {
  pm_From : bytes;
  pm_Dest : bytes;
  pm_FromSessNonce : bytes;
  pm_DestSessNonce : bytes;
  pm_ArrivedAtDestTm : Z;
  pm_DataSendTm : Z;
  pm_SeqNum : Z;
  pm_SeqRetry : Z;
  pm_AckNum : Z;
  pm_AckRetry : Z;
  pm_AckReplyTm : Z;
  pm_TcpEvent : TcpEvent;
  pm_FromTcpState : TcpState;
  pm_AvailReaderBytesCap : Z;
  pm_AvailReaderMsgCap : Z;
  pm_FromRttEstNsec : Z;
  pm_FromRttSdNsec : Z;
  pm_FromRttN : Z;
  pm_CumulBytesTransmitted : Z;
  pm_Data : bytes;
  pm_DataOffset : Z;
  pm_Blake2bChecksum : bytes;
}.

(** How many bytes were acknowledged. *)
Record ByteAccount := MkByteAccount {
  ba_NumBytesAcked : Z;
}.

(** A file with its checksum. *)
Record BigFile := MkBigFile {
  bf_Filepath : bytes;
  bf_SizeInBytes : Z;
  bf_Blake2b : bytes;
  bf_SendTime : Z;
  bf_Data : bytes;
}.

(** What the packets that open a session carry. *)
Record SynAckAck := MkSynAckAck {
  sk_TcpEvent : TcpEvent;
  sk_SessionNonce : bytes;
  sk_NextExpected : Z;
  sk_NackList : list Z;
}.

(** Why a session ended. *)
Record TerminatedError := MkTerminatedError {
  te_Msg : bytes;
}.

(** ** Events and lists of integers *)

(** [int(z.TcpEvent)] and [TcpEvent(n)]. *)
Definition event_num (e : TcpEvent) : Z :=
  match e with
  | EventNil => 0 | EventStartListen => 1 | EventStartConnect => 2 | EventSyn => 3 | EventSynAck => 4
  | EventEstabAck => 5 | EventStartClose => 6 | EventApplicationClosed => 7 | EventFin => 8 | EventFinAck => 9
  | EventDataAck => 10 | EventData => 11 | EventKeepAlive => 12
  | EventOther n => n
  end.

Definition event_of (n : Z) : TcpEvent :=
  match n with
  | 0 => EventNil | 1 => EventStartListen | 2 => EventStartConnect | 3 => EventSyn | 4 => EventSynAck
  | 5 => EventEstabAck | 6 => EventStartClose | 7 => EventApplicationClosed | 8 => EventFin | 9 => EventFinAck
  | 10 => EventDataAck | 11 => EventData | 12 => EventKeepAlive
  | n => EventOther n
  end.

Definition read_tcp_event : reader TcpEvent := n ← ReadIntBytes; mret (event_of n).

(** The header of an array and its elements. *)
Definition append_ints (o : bytes) (l : list Z) : bytes := foldl AppendInt64 (AppendArrayHeader o (wrapu32 (len l))) l.

Fixpoint ints_loop (fuel : nat) (n : Z) : reader (list Z) := fun b =>
  if n <=? 0 then Rd [] b
  else
    match fuel with
    | O => Spin
    | S fuel => (v ← ReadInt64Bytes; vs ← ints_loop fuel (n - 1); mret (v :: vs)) b
    end.

Definition read_ints : reader (list Z) := fun b => (n ← ReadArrayHeaderBytes; ints_loop (length b) n) b.

(** ** The generated code of [Packet] *)

Definition set_pm_From v (z : PacketMsg) : PacketMsg := MkPacketMsg v (pm_Dest z) (pm_FromSessNonce z) (pm_DestSessNonce z) (pm_ArrivedAtDestTm z) (pm_DataSendTm z) (pm_SeqNum z) (pm_SeqRetry z) (pm_AckNum z) (pm_AckRetry z) (pm_AckReplyTm z) (pm_TcpEvent z) (pm_FromTcpState z) (pm_AvailReaderBytesCap z) (pm_AvailReaderMsgCap z) (pm_FromRttEstNsec z) (pm_FromRttSdNsec z) (pm_FromRttN z) (pm_CumulBytesTransmitted z) (pm_Data z) (pm_DataOffset z) (pm_Blake2bChecksum z).
Definition set_pm_Dest v (z : PacketMsg) : PacketMsg := MkPacketMsg (pm_From z) v (pm_FromSessNonce z) (pm_DestSessNonce z) (pm_ArrivedAtDestTm z) (pm_DataSendTm z) (pm_SeqNum z) (pm_SeqRetry z) (pm_AckNum z) (pm_AckRetry z) (pm_AckReplyTm z) (pm_TcpEvent z) (pm_FromTcpState z) (pm_AvailReaderBytesCap z) (pm_AvailReaderMsgCap z) (pm_FromRttEstNsec z) (pm_FromRttSdNsec z) (pm_FromRttN z) (pm_CumulBytesTransmitted z) (pm_Data z) (pm_DataOffset z) (pm_Blake2bChecksum z).
Definition set_pm_FromSessNonce v (z : PacketMsg) : PacketMsg := MkPacketMsg (pm_From z) (pm_Dest z) v (pm_DestSessNonce z) (pm_ArrivedAtDestTm z) (pm_DataSendTm z) (pm_SeqNum z) (pm_SeqRetry z) (pm_AckNum z) (pm_AckRetry z) (pm_AckReplyTm z) (pm_TcpEvent z) (pm_FromTcpState z) (pm_AvailReaderBytesCap z) (pm_AvailReaderMsgCap z) (pm_FromRttEstNsec z) (pm_FromRttSdNsec z) (pm_FromRttN z) (pm_CumulBytesTransmitted z) (pm_Data z) (pm_DataOffset z) (pm_Blake2bChecksum z).
Definition set_pm_DestSessNonce v (z : PacketMsg) : PacketMsg := MkPacketMsg (pm_From z) (pm_Dest z) (pm_FromSessNonce z) v (pm_ArrivedAtDestTm z) (pm_DataSendTm z) (pm_SeqNum z) (pm_SeqRetry z) (pm_AckNum z) (pm_AckRetry z) (pm_AckReplyTm z) (pm_TcpEvent z) (pm_FromTcpState z) (pm_AvailReaderBytesCap z) (pm_AvailReaderMsgCap z) (pm_FromRttEstNsec z) (pm_FromRttSdNsec z) (pm_FromRttN z) (pm_CumulBytesTransmitted z) (pm_Data z) (pm_DataOffset z) (pm_Blake2bChecksum z).
Definition set_pm_ArrivedAtDestTm v (z : PacketMsg) : PacketMsg := MkPacketMsg (pm_From z) (pm_Dest z) (pm_FromSessNonce z) (pm_DestSessNonce z) v (pm_DataSendTm z) (pm_SeqNum z) (pm_SeqRetry z) (pm_AckNum z) (pm_AckRetry z) (pm_AckReplyTm z) (pm_TcpEvent z) (pm_FromTcpState z) (pm_AvailReaderBytesCap z) (pm_AvailReaderMsgCap z) (pm_FromRttEstNsec z) (pm_FromRttSdNsec z) (pm_FromRttN z) (pm_CumulBytesTransmitted z) (pm_Data z) (pm_DataOffset z) (pm_Blake2bChecksum z).
Definition set_pm_DataSendTm v (z : PacketMsg) : PacketMsg := MkPacketMsg (pm_From z) (pm_Dest z) (pm_FromSessNonce z) (pm_DestSessNonce z) (pm_ArrivedAtDestTm z) v (pm_SeqNum z) (pm_SeqRetry z) (pm_AckNum z) (pm_AckRetry z) (pm_AckReplyTm z) (pm_TcpEvent z) (pm_FromTcpState z) (pm_AvailReaderBytesCap z) (pm_AvailReaderMsgCap z) (pm_FromRttEstNsec z) (pm_FromRttSdNsec z) (pm_FromRttN z) (pm_CumulBytesTransmitted z) (pm_Data z) (pm_DataOffset z) (pm_Blake2bChecksum z).
Definition set_pm_SeqNum v (z : PacketMsg) : PacketMsg := MkPacketMsg (pm_From z) (pm_Dest z) (pm_FromSessNonce z) (pm_DestSessNonce z) (pm_ArrivedAtDestTm z) (pm_DataSendTm z) v (pm_SeqRetry z) (pm_AckNum z) (pm_AckRetry z) (pm_AckReplyTm z) (pm_TcpEvent z) (pm_FromTcpState z) (pm_AvailReaderBytesCap z) (pm_AvailReaderMsgCap z) (pm_FromRttEstNsec z) (pm_FromRttSdNsec z) (pm_FromRttN z) (pm_CumulBytesTransmitted z) (pm_Data z) (pm_DataOffset z) (pm_Blake2bChecksum z).
Definition set_pm_SeqRetry v (z : PacketMsg) : PacketMsg := MkPacketMsg (pm_From z) (pm_Dest z) (pm_FromSessNonce z) (pm_DestSessNonce z) (pm_ArrivedAtDestTm z) (pm_DataSendTm z) (pm_SeqNum z) v (pm_AckNum z) (pm_AckRetry z) (pm_AckReplyTm z) (pm_TcpEvent z) (pm_FromTcpState z) (pm_AvailReaderBytesCap z) (pm_AvailReaderMsgCap z) (pm_FromRttEstNsec z) (pm_FromRttSdNsec z) (pm_FromRttN z) (pm_CumulBytesTransmitted z) (pm_Data z) (pm_DataOffset z) (pm_Blake2bChecksum z).
Definition set_pm_AckNum v (z : PacketMsg) : PacketMsg := MkPacketMsg (pm_From z) (pm_Dest z) (pm_FromSessNonce z) (pm_DestSessNonce z) (pm_ArrivedAtDestTm z) (pm_DataSendTm z) (pm_SeqNum z) (pm_SeqRetry z) v (pm_AckRetry z) (pm_AckReplyTm z) (pm_TcpEvent z) (pm_FromTcpState z) (pm_AvailReaderBytesCap z) (pm_AvailReaderMsgCap z) (pm_FromRttEstNsec z) (pm_FromRttSdNsec z) (pm_FromRttN z) (pm_CumulBytesTransmitted z) (pm_Data z) (pm_DataOffset z) (pm_Blake2bChecksum z).
Definition set_pm_AckRetry v (z : PacketMsg) : PacketMsg := MkPacketMsg (pm_From z) (pm_Dest z) (pm_FromSessNonce z) (pm_DestSessNonce z) (pm_ArrivedAtDestTm z) (pm_DataSendTm z) (pm_SeqNum z) (pm_SeqRetry z) (pm_AckNum z) v (pm_AckReplyTm z) (pm_TcpEvent z) (pm_FromTcpState z) (pm_AvailReaderBytesCap z) (pm_AvailReaderMsgCap z) (pm_FromRttEstNsec z) (pm_FromRttSdNsec z) (pm_FromRttN z) (pm_CumulBytesTransmitted z) (pm_Data z) (pm_DataOffset z) (pm_Blake2bChecksum z).
Definition set_pm_AckReplyTm v (z : PacketMsg) : PacketMsg := MkPacketMsg (pm_From z) (pm_Dest z) (pm_FromSessNonce z) (pm_DestSessNonce z) (pm_ArrivedAtDestTm z) (pm_DataSendTm z) (pm_SeqNum z) (pm_SeqRetry z) (pm_AckNum z) (pm_AckRetry z) v (pm_TcpEvent z) (pm_FromTcpState z) (pm_AvailReaderBytesCap z) (pm_AvailReaderMsgCap z) (pm_FromRttEstNsec z) (pm_FromRttSdNsec z) (pm_FromRttN z) (pm_CumulBytesTransmitted z) (pm_Data z) (pm_DataOffset z) (pm_Blake2bChecksum z).
Definition set_pm_TcpEvent v (z : PacketMsg) : PacketMsg := MkPacketMsg (pm_From z) (pm_Dest z) (pm_FromSessNonce z) (pm_DestSessNonce z) (pm_ArrivedAtDestTm z) (pm_DataSendTm z) (pm_SeqNum z) (pm_SeqRetry z) (pm_AckNum z) (pm_AckRetry z) (pm_AckReplyTm z) v (pm_FromTcpState z) (pm_AvailReaderBytesCap z) (pm_AvailReaderMsgCap z) (pm_FromRttEstNsec z) (pm_FromRttSdNsec z) (pm_FromRttN z) (pm_CumulBytesTransmitted z) (pm_Data z) (pm_DataOffset z) (pm_Blake2bChecksum z).
Definition set_pm_FromTcpState v (z : PacketMsg) : PacketMsg := MkPacketMsg (pm_From z) (pm_Dest z) (pm_FromSessNonce z) (pm_DestSessNonce z) (pm_ArrivedAtDestTm z) (pm_DataSendTm z) (pm_SeqNum z) (pm_SeqRetry z) (pm_AckNum z) (pm_AckRetry z) (pm_AckReplyTm z) (pm_TcpEvent z) v (pm_AvailReaderBytesCap z) (pm_AvailReaderMsgCap z) (pm_FromRttEstNsec z) (pm_FromRttSdNsec z) (pm_FromRttN z) (pm_CumulBytesTransmitted z) (pm_Data z) (pm_DataOffset z) (pm_Blake2bChecksum z).
Definition set_pm_AvailReaderBytesCap v (z : PacketMsg) : PacketMsg := MkPacketMsg (pm_From z) (pm_Dest z) (pm_FromSessNonce z) (pm_DestSessNonce z) (pm_ArrivedAtDestTm z) (pm_DataSendTm z) (pm_SeqNum z) (pm_SeqRetry z) (pm_AckNum z) (pm_AckRetry z) (pm_AckReplyTm z) (pm_TcpEvent z) (pm_FromTcpState z) v (pm_AvailReaderMsgCap z) (pm_FromRttEstNsec z) (pm_FromRttSdNsec z) (pm_FromRttN z) (pm_CumulBytesTransmitted z) (pm_Data z) (pm_DataOffset z) (pm_Blake2bChecksum z).
Definition set_pm_AvailReaderMsgCap v (z : PacketMsg) : PacketMsg := MkPacketMsg (pm_From z) (pm_Dest z) (pm_FromSessNonce z) (pm_DestSessNonce z) (pm_ArrivedAtDestTm z) (pm_DataSendTm z) (pm_SeqNum z) (pm_SeqRetry z) (pm_AckNum z) (pm_AckRetry z) (pm_AckReplyTm z) (pm_TcpEvent z) (pm_FromTcpState z) (pm_AvailReaderBytesCap z) v (pm_FromRttEstNsec z) (pm_FromRttSdNsec z) (pm_FromRttN z) (pm_CumulBytesTransmitted z) (pm_Data z) (pm_DataOffset z) (pm_Blake2bChecksum z).
Definition set_pm_FromRttEstNsec v (z : PacketMsg) : PacketMsg := MkPacketMsg (pm_From z) (pm_Dest z) (pm_FromSessNonce z) (pm_DestSessNonce z) (pm_ArrivedAtDestTm z) (pm_DataSendTm z) (pm_SeqNum z) (pm_SeqRetry z) (pm_AckNum z) (pm_AckRetry z) (pm_AckReplyTm z) (pm_TcpEvent z) (pm_FromTcpState z) (pm_AvailReaderBytesCap z) (pm_AvailReaderMsgCap z) v (pm_FromRttSdNsec z) (pm_FromRttN z) (pm_CumulBytesTransmitted z) (pm_Data z) (pm_DataOffset z) (pm_Blake2bChecksum z).
Definition set_pm_FromRttSdNsec v (z : PacketMsg) : PacketMsg := MkPacketMsg (pm_From z) (pm_Dest z) (pm_FromSessNonce z) (pm_DestSessNonce z) (pm_ArrivedAtDestTm z) (pm_DataSendTm z) (pm_SeqNum z) (pm_SeqRetry z) (pm_AckNum z) (pm_AckRetry z) (pm_AckReplyTm z) (pm_TcpEvent z) (pm_FromTcpState z) (pm_AvailReaderBytesCap z) (pm_AvailReaderMsgCap z) (pm_FromRttEstNsec z) v (pm_FromRttN z) (pm_CumulBytesTransmitted z) (pm_Data z) (pm_DataOffset z) (pm_Blake2bChecksum z).
Definition set_pm_FromRttN v (z : PacketMsg) : PacketMsg := MkPacketMsg (pm_From z) (pm_Dest z) (pm_FromSessNonce z) (pm_DestSessNonce z) (pm_ArrivedAtDestTm z) (pm_DataSendTm z) (pm_SeqNum z) (pm_SeqRetry z) (pm_AckNum z) (pm_AckRetry z) (pm_AckReplyTm z) (pm_TcpEvent z) (pm_FromTcpState z) (pm_AvailReaderBytesCap z) (pm_AvailReaderMsgCap z) (pm_FromRttEstNsec z) (pm_FromRttSdNsec z) v (pm_CumulBytesTransmitted z) (pm_Data z) (pm_DataOffset z) (pm_Blake2bChecksum z).
Definition set_pm_CumulBytesTransmitted v (z : PacketMsg) : PacketMsg := MkPacketMsg (pm_From z) (pm_Dest z) (pm_FromSessNonce z) (pm_DestSessNonce z) (pm_ArrivedAtDestTm z) (pm_DataSendTm z) (pm_SeqNum z) (pm_SeqRetry z) (pm_AckNum z) (pm_AckRetry z) (pm_AckReplyTm z) (pm_TcpEvent z) (pm_FromTcpState z) (pm_AvailReaderBytesCap z) (pm_AvailReaderMsgCap z) (pm_FromRttEstNsec z) (pm_FromRttSdNsec z) (pm_FromRttN z) v (pm_Data z) (pm_DataOffset z) (pm_Blake2bChecksum z).
Definition set_pm_Data v (z : PacketMsg) : PacketMsg := MkPacketMsg (pm_From z) (pm_Dest z) (pm_FromSessNonce z) (pm_DestSessNonce z) (pm_ArrivedAtDestTm z) (pm_DataSendTm z) (pm_SeqNum z) (pm_SeqRetry z) (pm_AckNum z) (pm_AckRetry z) (pm_AckReplyTm z) (pm_TcpEvent z) (pm_FromTcpState z) (pm_AvailReaderBytesCap z) (pm_AvailReaderMsgCap z) (pm_FromRttEstNsec z) (pm_FromRttSdNsec z) (pm_FromRttN z) (pm_CumulBytesTransmitted z) v (pm_DataOffset z) (pm_Blake2bChecksum z).
Definition set_pm_DataOffset v (z : PacketMsg) : PacketMsg := MkPacketMsg (pm_From z) (pm_Dest z) (pm_FromSessNonce z) (pm_DestSessNonce z) (pm_ArrivedAtDestTm z) (pm_DataSendTm z) (pm_SeqNum z) (pm_SeqRetry z) (pm_AckNum z) (pm_AckRetry z) (pm_AckReplyTm z) (pm_TcpEvent z) (pm_FromTcpState z) (pm_AvailReaderBytesCap z) (pm_AvailReaderMsgCap z) (pm_FromRttEstNsec z) (pm_FromRttSdNsec z) (pm_FromRttN z) (pm_CumulBytesTransmitted z) (pm_Data z) v (pm_Blake2bChecksum z).
Definition set_pm_Blake2bChecksum v (z : PacketMsg) : PacketMsg := MkPacketMsg (pm_From z) (pm_Dest z) (pm_FromSessNonce z) (pm_DestSessNonce z) (pm_ArrivedAtDestTm z) (pm_DataSendTm z) (pm_SeqNum z) (pm_SeqRetry z) (pm_AckNum z) (pm_AckRetry z) (pm_AckReplyTm z) (pm_TcpEvent z) (pm_FromTcpState z) (pm_AvailReaderBytesCap z) (pm_AvailReaderMsgCap z) (pm_FromRttEstNsec z) (pm_FromRttSdNsec z) (pm_FromRttN z) (pm_CumulBytesTransmitted z) (pm_Data z) (pm_DataOffset z) v.

Definition zero_PacketMsg : PacketMsg := MkPacketMsg [] [] [] [] 0 0 0 0 0 0 0 EventNil Fresh 0 0 0 0 0 0 [] 0 [].

Definition Packet_MarshalMsg (b : bytes) (z : PacketMsg) : bytes :=
  let o := b in
  let o := o ++ raw [0xde; 0x0; 0x15; 0xa4; 0x46; 0x72; 0x6f; 0x6d] in
  let o := AppendString o (pm_From z) in
  let o := o ++ raw [0xa4; 0x44; 0x65; 0x73; 0x74] in
  let o := AppendString o (pm_Dest z) in
  let o := o ++ raw [0xad; 0x46; 0x72; 0x6f; 0x6d; 0x53; 0x65; 0x73; 0x73; 0x4e; 0x6f; 0x6e; 0x63; 0x65] in
  let o := AppendString o (pm_FromSessNonce z) in
  let o := o ++ raw [0xad; 0x44; 0x65; 0x73; 0x74; 0x53; 0x65; 0x73; 0x73; 0x4e; 0x6f; 0x6e; 0x63; 0x65] in
  let o := AppendString o (pm_DestSessNonce z) in
  let o := o ++ raw [0xaf; 0x41; 0x72; 0x72; 0x69; 0x76; 0x65; 0x64; 0x41; 0x74; 0x44; 0x65; 0x73; 0x74; 0x54; 0x6d] in
  let o := AppendTime o (pm_ArrivedAtDestTm z) in
  let o := o ++ raw [0xaa; 0x44; 0x61; 0x74; 0x61; 0x53; 0x65; 0x6e; 0x64; 0x54; 0x6d] in
  let o := AppendTime o (pm_DataSendTm z) in
  let o := o ++ raw [0xa6; 0x53; 0x65; 0x71; 0x4e; 0x75; 0x6d] in
  let o := AppendInt64 o (pm_SeqNum z) in
  let o := o ++ raw [0xa8; 0x53; 0x65; 0x71; 0x52; 0x65; 0x74; 0x72; 0x79] in
  let o := AppendInt64 o (pm_SeqRetry z) in
  let o := o ++ raw [0xa6; 0x41; 0x63; 0x6b; 0x4e; 0x75; 0x6d] in
  let o := AppendInt64 o (pm_AckNum z) in
  let o := o ++ raw [0xa8; 0x41; 0x63; 0x6b; 0x52; 0x65; 0x74; 0x72; 0x79] in
  let o := AppendInt64 o (pm_AckRetry z) in
  let o := o ++ raw [0xaa; 0x41; 0x63; 0x6b; 0x52; 0x65; 0x70; 0x6c; 0x79; 0x54; 0x6d] in
  let o := AppendTime o (pm_AckReplyTm z) in
  let o := o ++ raw [0xa8; 0x54; 0x63; 0x70; 0x45; 0x76; 0x65; 0x6e; 0x74] in
  let o := AppendInt o (event_num (pm_TcpEvent z)) in
  let o := o ++ raw [0xb3; 0x41; 0x76; 0x61; 0x69; 0x6c; 0x52; 0x65; 0x61; 0x64; 0x65; 0x72; 0x42; 0x79; 0x74; 0x65; 0x73; 0x43; 0x61; 0x70] in
  let o := AppendInt64 o (pm_AvailReaderBytesCap z) in
  let o := o ++ raw [0xb1; 0x41; 0x76; 0x61; 0x69; 0x6c; 0x52; 0x65; 0x61; 0x64; 0x65; 0x72; 0x4d; 0x73; 0x67; 0x43; 0x61; 0x70] in
  let o := AppendInt64 o (pm_AvailReaderMsgCap z) in
  let o := o ++ raw [0xae; 0x46; 0x72; 0x6f; 0x6d; 0x52; 0x74; 0x74; 0x45; 0x73; 0x74; 0x4e; 0x73; 0x65; 0x63] in
  let o := AppendInt64 o (pm_FromRttEstNsec z) in
  let o := o ++ raw [0xad; 0x46; 0x72; 0x6f; 0x6d; 0x52; 0x74; 0x74; 0x53; 0x64; 0x4e; 0x73; 0x65; 0x63] in
  let o := AppendInt64 o (pm_FromRttSdNsec z) in
  let o := o ++ raw [0xa8; 0x46; 0x72; 0x6f; 0x6d; 0x52; 0x74; 0x74; 0x4e] in
  let o := AppendInt64 o (pm_FromRttN z) in
  let o := o ++ raw [0xb5; 0x43; 0x75; 0x6d; 0x75; 0x6c; 0x42; 0x79; 0x74; 0x65; 0x73; 0x54; 0x72; 0x61; 0x6e; 0x73; 0x6d; 0x69; 0x74; 0x74; 0x65; 0x64] in
  let o := AppendInt64 o (pm_CumulBytesTransmitted z) in
  let o := o ++ raw [0xa4; 0x44; 0x61; 0x74; 0x61] in
  let o := AppendBytes o (pm_Data z) in
  let o := o ++ raw [0xaa; 0x44; 0x61; 0x74; 0x61; 0x4f; 0x66; 0x66; 0x73; 0x65; 0x74] in
  let o := AppendInt o (pm_DataOffset z) in
  let o := o ++ raw [0xaf; 0x42; 0x6c; 0x61; 0x6b; 0x65; 0x32; 0x62; 0x43; 0x68; 0x65; 0x63; 0x6b; 0x73; 0x75; 0x6d] in
  let o := AppendBytes o (pm_Blake2bChecksum z) in
  o.

Definition Packet_field (field : bytes) (z : PacketMsg) : reader PacketMsg :=
  if decide (field = bs "From") then v ← ReadStringBytes; mret (set_pm_From v z)
  else if decide (field = bs "Dest") then v ← ReadStringBytes; mret (set_pm_Dest v z)
  else if decide (field = bs "FromSessNonce") then v ← ReadStringBytes; mret (set_pm_FromSessNonce v z)
  else if decide (field = bs "DestSessNonce") then v ← ReadStringBytes; mret (set_pm_DestSessNonce v z)
  else if decide (field = bs "ArrivedAtDestTm") then v ← ReadTimeBytes; mret (set_pm_ArrivedAtDestTm v z)
  else if decide (field = bs "DataSendTm") then v ← ReadTimeBytes; mret (set_pm_DataSendTm v z)
  else if decide (field = bs "SeqNum") then v ← ReadInt64Bytes; mret (set_pm_SeqNum v z)
  else if decide (field = bs "SeqRetry") then v ← ReadInt64Bytes; mret (set_pm_SeqRetry v z)
  else if decide (field = bs "AckNum") then v ← ReadInt64Bytes; mret (set_pm_AckNum v z)
  else if decide (field = bs "AckRetry") then v ← ReadInt64Bytes; mret (set_pm_AckRetry v z)
  else if decide (field = bs "AckReplyTm") then v ← ReadTimeBytes; mret (set_pm_AckReplyTm v z)
  else if decide (field = bs "TcpEvent") then v ← read_tcp_event; mret (set_pm_TcpEvent v z)
  else if decide (field = bs "AvailReaderBytesCap") then v ← ReadInt64Bytes; mret (set_pm_AvailReaderBytesCap v z)
  else if decide (field = bs "AvailReaderMsgCap") then v ← ReadInt64Bytes; mret (set_pm_AvailReaderMsgCap v z)
  else if decide (field = bs "FromRttEstNsec") then v ← ReadInt64Bytes; mret (set_pm_FromRttEstNsec v z)
  else if decide (field = bs "FromRttSdNsec") then v ← ReadInt64Bytes; mret (set_pm_FromRttSdNsec v z)
  else if decide (field = bs "FromRttN") then v ← ReadInt64Bytes; mret (set_pm_FromRttN v z)
  else if decide (field = bs "CumulBytesTransmitted") then v ← ReadInt64Bytes; mret (set_pm_CumulBytesTransmitted v z)
  else if decide (field = bs "Data") then v ← ReadBytesBytes; mret (set_pm_Data v z)
  else if decide (field = bs "DataOffset") then v ← ReadIntBytes; mret (set_pm_DataOffset v z)
  else if decide (field = bs "Blake2bChecksum") then v ← ReadBytesBytes; mret (set_pm_Blake2bChecksum v z)
  else _ ← Skip; mret z.

Definition Packet_UnmarshalMsg (z : PacketMsg) : reader PacketMsg := read_map Packet_field z.

Definition Packet_Msgsize (z : PacketMsg) : nat :=
  (3 + 5 + StringPrefixSize + length (pm_From z) + 5 + StringPrefixSize + length (pm_Dest z) + 14 + StringPrefixSize + length (pm_FromSessNonce z) + 14 + StringPrefixSize + length (pm_DestSessNonce z) + 16 + TimeSize + 11 + TimeSize + 7 + Int64Size + 9 + Int64Size + 7 + Int64Size + 9 + Int64Size + 11 + TimeSize + 9 + IntSize + 20 + Int64Size + 18 + Int64Size + 15 + Int64Size + 14 + Int64Size + 9 + Int64Size + 22 + Int64Size + 5 + BytesPrefixSize + length (pm_Data z) + 11 + IntSize + 16 + BytesPrefixSize + length (pm_Blake2bChecksum z))%nat.

(** ** The generated code of [ByteAccount] *)

Definition set_ba_NumBytesAcked v (z : ByteAccount) : ByteAccount := MkByteAccount v.

Definition zero_ByteAccount : ByteAccount := MkByteAccount 0.

Definition ByteAccount_MarshalMsg (b : bytes) (z : ByteAccount) : bytes :=
  let o := b in
  let o := o ++ raw [0x81; 0xad; 0x4e; 0x75; 0x6d; 0x42; 0x79; 0x74; 0x65; 0x73; 0x41; 0x63; 0x6b; 0x65; 0x64] in
  let o := AppendInt64 o (ba_NumBytesAcked z) in
  o.

Definition ByteAccount_field (field : bytes) (z : ByteAccount) : reader ByteAccount :=
  if decide (field = bs "NumBytesAcked") then v ← ReadInt64Bytes; mret (set_ba_NumBytesAcked v z)
  else _ ← Skip; mret z.

Definition ByteAccount_UnmarshalMsg (z : ByteAccount) : reader ByteAccount := read_map ByteAccount_field z.

Definition ByteAccount_Msgsize (z : ByteAccount) : nat :=
  (1 + 14 + Int64Size)%nat.

(** ** The generated code of [BigFile] *)

Definition set_bf_Filepath v (z : BigFile) : BigFile := MkBigFile v (bf_SizeInBytes z) (bf_Blake2b z) (bf_SendTime z) (bf_Data z).
Definition set_bf_SizeInBytes v (z : BigFile) : BigFile := MkBigFile (bf_Filepath z) v (bf_Blake2b z) (bf_SendTime z) (bf_Data z).
Definition set_bf_Blake2b v (z : BigFile) : BigFile := MkBigFile (bf_Filepath z) (bf_SizeInBytes z) v (bf_SendTime z) (bf_Data z).
Definition set_bf_SendTime v (z : BigFile) : BigFile := MkBigFile (bf_Filepath z) (bf_SizeInBytes z) (bf_Blake2b z) v (bf_Data z).
Definition set_bf_Data v (z : BigFile) : BigFile := MkBigFile (bf_Filepath z) (bf_SizeInBytes z) (bf_Blake2b z) (bf_SendTime z) v.

Definition zero_BigFile : BigFile := MkBigFile [] 0 [] 0 [].

Definition BigFile_MarshalMsg (b : bytes) (z : BigFile) : bytes :=
  let o := b in
  let o := o ++ raw [0x85; 0xa8; 0x46; 0x69; 0x6c; 0x65; 0x70; 0x61; 0x74; 0x68] in
  let o := AppendString o (bf_Filepath z) in
  let o := o ++ raw [0xab; 0x53; 0x69; 0x7a; 0x65; 0x49; 0x6e; 0x42; 0x79; 0x74; 0x65; 0x73] in
  let o := AppendInt64 o (bf_SizeInBytes z) in
  let o := o ++ raw [0xa7; 0x42; 0x6c; 0x61; 0x6b; 0x65; 0x32; 0x62] in
  let o := AppendBytes o (bf_Blake2b z) in
  let o := o ++ raw [0xa8; 0x53; 0x65; 0x6e; 0x64; 0x54; 0x69; 0x6d; 0x65] in
  let o := AppendTime o (bf_SendTime z) in
  let o := o ++ raw [0xa4; 0x44; 0x61; 0x74; 0x61] in
  let o := AppendBytes o (bf_Data z) in
  o.

Definition BigFile_field (field : bytes) (z : BigFile) : reader BigFile :=
  if decide (field = bs "Filepath") then v ← ReadStringBytes; mret (set_bf_Filepath v z)
  else if decide (field = bs "SizeInBytes") then v ← ReadInt64Bytes; mret (set_bf_SizeInBytes v z)
  else if decide (field = bs "Blake2b") then v ← ReadBytesBytes; mret (set_bf_Blake2b v z)
  else if decide (field = bs "SendTime") then v ← ReadTimeBytes; mret (set_bf_SendTime v z)
  else if decide (field = bs "Data") then v ← ReadBytesBytes; mret (set_bf_Data v z)
  else _ ← Skip; mret z.

Definition BigFile_UnmarshalMsg (z : BigFile) : reader BigFile := read_map BigFile_field z.

Definition BigFile_Msgsize (z : BigFile) : nat :=
  (1 + 9 + StringPrefixSize + length (bf_Filepath z) + 12 + Int64Size + 8 + BytesPrefixSize + length (bf_Blake2b z) + 9 + TimeSize + 5 + BytesPrefixSize + length (bf_Data z))%nat.

(** ** The generated code of [SynAckAck] *)

Definition set_sk_TcpEvent v (z : SynAckAck) : SynAckAck := MkSynAckAck v (sk_SessionNonce z) (sk_NextExpected z) (sk_NackList z).
Definition set_sk_SessionNonce v (z : SynAckAck) : SynAckAck := MkSynAckAck (sk_TcpEvent z) v (sk_NextExpected z) (sk_NackList z).
Definition set_sk_NextExpected v (z : SynAckAck) : SynAckAck := MkSynAckAck (sk_TcpEvent z) (sk_SessionNonce z) v (sk_NackList z).
Definition set_sk_NackList v (z : SynAckAck) : SynAckAck := MkSynAckAck (sk_TcpEvent z) (sk_SessionNonce z) (sk_NextExpected z) v.

Definition zero_SynAckAck : SynAckAck := MkSynAckAck EventNil [] 0 [].

Definition SynAckAck_MarshalMsg (b : bytes) (z : SynAckAck) : bytes :=
  let o := b in
  let o := o ++ raw [0x84; 0xa8; 0x54; 0x63; 0x70; 0x45; 0x76; 0x65; 0x6e; 0x74] in
  let o := AppendInt o (event_num (sk_TcpEvent z)) in
  let o := o ++ raw [0xac; 0x53; 0x65; 0x73; 0x73; 0x69; 0x6f; 0x6e; 0x4e; 0x6f; 0x6e; 0x63; 0x65] in
  let o := AppendString o (sk_SessionNonce z) in
  let o := o ++ raw [0xac; 0x4e; 0x65; 0x78; 0x74; 0x45; 0x78; 0x70; 0x65; 0x63; 0x74; 0x65; 0x64] in
  let o := AppendInt64 o (sk_NextExpected z) in
  let o := o ++ raw [0xa8; 0x4e; 0x61; 0x63; 0x6b; 0x4c; 0x69; 0x73; 0x74] in
  let o := append_ints o (sk_NackList z) in
  o.

Definition SynAckAck_field (field : bytes) (z : SynAckAck) : reader SynAckAck :=
  if decide (field = bs "TcpEvent") then v ← read_tcp_event; mret (set_sk_TcpEvent v z)
  else if decide (field = bs "SessionNonce") then v ← ReadStringBytes; mret (set_sk_SessionNonce v z)
  else if decide (field = bs "NextExpected") then v ← ReadInt64Bytes; mret (set_sk_NextExpected v z)
  else if decide (field = bs "NackList") then v ← read_ints; mret (set_sk_NackList v z)
  else _ ← Skip; mret z.

Definition SynAckAck_UnmarshalMsg (z : SynAckAck) : reader SynAckAck := read_map SynAckAck_field z.

Definition SynAckAck_Msgsize (z : SynAckAck) : nat :=
  (1 + 9 + IntSize + 13 + StringPrefixSize + length (sk_SessionNonce z) + 13 + Int64Size + 9 + ArrayHeaderSize + (length (sk_NackList z) * (Int64Size)))%nat.

(** ** The generated code of [TerminatedError] *)

Definition set_te_Msg v (z : TerminatedError) : TerminatedError := MkTerminatedError v.

Definition zero_TerminatedError : TerminatedError := MkTerminatedError [].

Definition TerminatedError_MarshalMsg (b : bytes) (z : TerminatedError) : bytes :=
  let o := b in
  let o := o ++ raw [0x81; 0xa3; 0x4d; 0x73; 0x67] in
  let o := AppendString o (te_Msg z) in
  o.

Definition TerminatedError_field (field : bytes) (z : TerminatedError) : reader TerminatedError :=
  if decide (field = bs "Msg") then v ← ReadStringBytes; mret (set_te_Msg v z)
  else _ ← Skip; mret z.

Definition TerminatedError_UnmarshalMsg (z : TerminatedError) : reader TerminatedError := read_map TerminatedError_field z.

Definition TerminatedError_Msgsize (z : TerminatedError) : nat :=
  (1 + 4 + StringPrefixSize + length (te_Msg z))%nat.

(** ** Proofs for events and lists of integers *)

(** The events whose numbers are their own. *)
Definition event_ok (e : TcpEvent) : Prop := in_int64 (event_num e) /\ event_of (event_num e) = e.

Definition ints_ok (l : list Z) : Prop := len l < 2 ^ 32 /\ Forall in_int64 l.

Definition ints (l : list Z) : bytes := l ≫= AppendInt64 [].

Lemma foldl_ints l : forall o, foldl AppendInt64 o l = o ++ ints l.
Proof.
  induction l as [|i l IH]; intros o; [by rewrite app_nil_r|]. cbn [foldl]. rewrite IH, AppendInt64_app.
  unfold ints. by rewrite bind_cons, app_assoc.
Qed.

Lemma append_ints_app o l : append_ints o l = o ++ append_ints [] l.
Proof. unfold append_ints. rewrite !foldl_ints, AppendArrayHeader_app. by rewrite app_assoc. Qed.

Lemma length_ints l : (length l <= length (ints l) <= 9 * length l)%nat.
Proof.
  induction l as [|i l IH]; [cbn; lia|]. unfold ints in *. rewrite bind_cons, length_app. cbn [length].
  pose proof (Int64_size i). assert (0 < length (AppendInt64 [] i))%nat; [|lia].
  unfold AppendInt64. repeat case_match; cbn; lia.
Qed.

Lemma append_ints_size l : (length (append_ints [] l) <= 5 + length l * 9)%nat.
Proof. unfold append_ints. rewrite foldl_ints, length_app. pose proof (ArrayHeader_size (wrapu32 (len l))). pose proof (length_ints l). lia. Qed.

Lemma ints_loop_ints l : forall fuel rest, Forall in_int64 l -> (length l <= fuel)%nat ->
  ints_loop fuel (len l) (ints l ++ rest) = Rd l rest.
Proof.
  induction l as [|i l IH]; intros fuel rest Hl Hf; [by destruct fuel|]. apply Forall_cons in Hl as [Hi Hl].
  destruct fuel as [|fuel]; cbn in Hf; [lia|]. cbn [ints_loop length]. rewrite (proj2 (Z.leb_gt _ 0)) by lia.
  unfold ints. rewrite bind_cons, <- app_assoc. rewrite (bind_Rd _ _ _ _ _ (ReadInt64_Append i _ Hi)).
  replace (Z.of_nat (S (length l)) - 1) with (len l) by lia. by rewrite (bind_Rd _ _ _ _ _ (IH fuel rest Hl ltac:(lia))).
Qed.

Lemma read_ints_append l rest : ints_ok l -> read_ints (append_ints [] l ++ rest) = Rd l rest.
Proof.
  intros [Hlen Hl]. unfold read_ints, append_ints, wrapu32. rewrite Z.mod_small by lia. rewrite foldl_ints, <- app_assoc.
  rewrite (bind_Rd _ _ _ _ _ (ReadArrayHeader_Append (len l) _ ltac:(lia))). apply ints_loop_ints; [done|].
  rewrite !length_app. pose proof (length_ints l). lia.
Qed.

Lemma below_ints_loop fuel : forall n b, (length b < fuel)%nat -> below (S (length b)) (ints_loop fuel n b).
Proof.
  induction fuel as [|fuel IH]; intros n b Hf; [lia|]. cbn [ints_loop]. destruct (n <=? 0); [cbn; lia|].
  unfold mbind, reader_bind. pose proof (consumes_ReadInt64 b) as Hc. destruct (ReadInt64Bytes b) as [v r|e|]; [|done..].
  cbn in Hc. pose proof (IH (n - 1) r ltac:(lia)) as Hr. destruct (ints_loop fuel (n - 1) r) as [vs r'|e|]; [|done..].
  cbn in Hr |- *. lia.
Qed.

Lemma consumes_read_ints : consumes read_ints.
Proof.
  intros b. unfold read_ints, mbind, reader_bind. pose proof (consumes_ReadArrayHeader b) as Hc.
  destruct (ReadArrayHeaderBytes b) as [n r|e|]; [|done..]. cbn in Hc.
  eapply (below_le (S (length r))); [lia|]. apply below_ints_loop. lia.
Qed.

Lemma values_ints l : values (length l) (ints l).
Proof. induction l as [|i l IH]; [constructor|]. unfold ints. rewrite bind_cons. cbn. constructor; [apply value_Int64|done]. Qed.

Lemma value_ints l : ints_ok l -> value (append_ints [] l).
Proof.
  intros [Hlen _]. unfold append_ints, wrapu32. rewrite Z.mod_small, foldl_ints by lia.
  apply (value_head _ (length l)); [|apply values_ints]. intros rest. apply getSize_array. lia.
Qed.

Lemma read_tcp_event_append e rest : event_ok e -> read_tcp_event (AppendInt [] (event_num e) ++ rest) = Rd e rest.
Proof. intros [He Ee]. unfold read_tcp_event. rewrite (bind_Rd _ _ _ _ _ (ReadInt_Append _ rest He)). by rewrite Ee. Qed.

Lemma consumes_read_tcp_event : consumes read_tcp_event.
Proof. intros b. apply below_bind; [apply consumes_ReadInt|intros; apply shrinks_ret]. Qed.

#[export] Hint Resolve read_tcp_event_append consumes_read_tcp_event read_ints_append consumes_read_ints value_ints : msgp.

Ltac append_ints_rewrite :=
  match goal with |- context [append_ints ?o _] => lazymatch o with [] => fail | _ => rewrite (append_ints_app o) end end.

(** ** Proofs for [PacketMsg] *)

Definition PacketMsg_ok (x : PacketMsg) : Prop :=
  len (pm_From x) < 2 ^ 32 /\ len (pm_Dest x) < 2 ^ 32 /\ len (pm_FromSessNonce x) < 2 ^ 32 /\ len (pm_DestSessNonce x) < 2 ^ 32 /\ time_ok (pm_ArrivedAtDestTm x) /\ time_ok (pm_DataSendTm x) /\ in_int64 (pm_SeqNum x) /\ in_int64 (pm_SeqRetry x) /\ in_int64 (pm_AckNum x) /\ in_int64 (pm_AckRetry x) /\ time_ok (pm_AckReplyTm x) /\ event_ok (pm_TcpEvent x) /\ in_int64 (pm_AvailReaderBytesCap x) /\ in_int64 (pm_AvailReaderMsgCap x) /\ in_int64 (pm_FromRttEstNsec x) /\ in_int64 (pm_FromRttSdNsec x) /\ in_int64 (pm_FromRttN x) /\ in_int64 (pm_CumulBytesTransmitted x) /\ len (pm_Data x) < 2 ^ 32 /\ in_int64 (pm_DataOffset x) /\ len (pm_Blake2bChecksum x) < 2 ^ 32.

Definition PacketMsg_fields (x : PacketMsg) : list (bytes * bytes) :=
  [(bs "From", AppendString [] (pm_From x));
   (bs "Dest", AppendString [] (pm_Dest x));
   (bs "FromSessNonce", AppendString [] (pm_FromSessNonce x));
   (bs "DestSessNonce", AppendString [] (pm_DestSessNonce x));
   (bs "ArrivedAtDestTm", AppendTime [] (pm_ArrivedAtDestTm x));
   (bs "DataSendTm", AppendTime [] (pm_DataSendTm x));
   (bs "SeqNum", AppendInt64 [] (pm_SeqNum x));
   (bs "SeqRetry", AppendInt64 [] (pm_SeqRetry x));
   (bs "AckNum", AppendInt64 [] (pm_AckNum x));
   (bs "AckRetry", AppendInt64 [] (pm_AckRetry x));
   (bs "AckReplyTm", AppendTime [] (pm_AckReplyTm x));
   (bs "TcpEvent", AppendInt [] (event_num (pm_TcpEvent x)));
   (bs "AvailReaderBytesCap", AppendInt64 [] (pm_AvailReaderBytesCap x));
   (bs "AvailReaderMsgCap", AppendInt64 [] (pm_AvailReaderMsgCap x));
   (bs "FromRttEstNsec", AppendInt64 [] (pm_FromRttEstNsec x));
   (bs "FromRttSdNsec", AppendInt64 [] (pm_FromRttSdNsec x));
   (bs "FromRttN", AppendInt64 [] (pm_FromRttN x));
   (bs "CumulBytesTransmitted", AppendInt64 [] (pm_CumulBytesTransmitted x));
   (bs "Data", AppendBytes [] (pm_Data x));
   (bs "DataOffset", AppendInt [] (pm_DataOffset x));
   (bs "Blake2bChecksum", AppendBytes [] (pm_Blake2bChecksum x))].

Definition PacketMsg_mix (x z : PacketMsg) (P : list bytes) : PacketMsg :=
  MkPacketMsg (pick P (bs "From") (pm_From x) (pm_From z))
    (pick P (bs "Dest") (pm_Dest x) (pm_Dest z))
    (pick P (bs "FromSessNonce") (pm_FromSessNonce x) (pm_FromSessNonce z))
    (pick P (bs "DestSessNonce") (pm_DestSessNonce x) (pm_DestSessNonce z))
    (pick P (bs "ArrivedAtDestTm") (pm_ArrivedAtDestTm x) (pm_ArrivedAtDestTm z))
    (pick P (bs "DataSendTm") (pm_DataSendTm x) (pm_DataSendTm z))
    (pick P (bs "SeqNum") (pm_SeqNum x) (pm_SeqNum z))
    (pick P (bs "SeqRetry") (pm_SeqRetry x) (pm_SeqRetry z))
    (pick P (bs "AckNum") (pm_AckNum x) (pm_AckNum z))
    (pick P (bs "AckRetry") (pm_AckRetry x) (pm_AckRetry z))
    (pick P (bs "AckReplyTm") (pm_AckReplyTm x) (pm_AckReplyTm z))
    (pick P (bs "TcpEvent") (pm_TcpEvent x) (pm_TcpEvent z))
    (pm_FromTcpState z)
    (pick P (bs "AvailReaderBytesCap") (pm_AvailReaderBytesCap x) (pm_AvailReaderBytesCap z))
    (pick P (bs "AvailReaderMsgCap") (pm_AvailReaderMsgCap x) (pm_AvailReaderMsgCap z))
    (pick P (bs "FromRttEstNsec") (pm_FromRttEstNsec x) (pm_FromRttEstNsec z))
    (pick P (bs "FromRttSdNsec") (pm_FromRttSdNsec x) (pm_FromRttSdNsec z))
    (pick P (bs "FromRttN") (pm_FromRttN x) (pm_FromRttN z))
    (pick P (bs "CumulBytesTransmitted") (pm_CumulBytesTransmitted x) (pm_CumulBytesTransmitted z))
    (pick P (bs "Data") (pm_Data x) (pm_Data z))
    (pick P (bs "DataOffset") (pm_DataOffset x) (pm_DataOffset z))
    (pick P (bs "Blake2bChecksum") (pm_Blake2bChecksum x) (pm_Blake2bChecksum z)).

#[export] Instance PacketMsg_Generated : Generated PacketMsg := {|
  marshal := Packet_MarshalMsg; gen_field := Packet_field; gen_fields := PacketMsg_fields; gen_head := raw [0xde; 0x0; 0x15];
  mix := PacketMsg_mix; kept x z := set_pm_FromTcpState (pm_FromTcpState z) x; gen_ok := PacketMsg_ok; gen_zero := zero_PacketMsg;
|}.

#[export] Instance PacketMsg_GeneratedLaws : GeneratedLaws PacketMsg.
Proof. generated PacketMsg_Generated PacketMsg_ok PacketMsg_fields Packet_field PacketMsg_mix Packet_MarshalMsg ltac:(fail). Qed.

Lemma PacketMsg_size : forall x, (length (marshal [] x) <= Packet_Msgsize x)%nat.
Proof. size_law PacketMsg_Generated PacketMsg_fields Packet_Msgsize. Qed.

(** ** Proofs for [ByteAccount] *)

Definition ByteAccount_ok (x : ByteAccount) : Prop :=
  in_int64 (ba_NumBytesAcked x).

Definition ByteAccount_fields (x : ByteAccount) : list (bytes * bytes) :=
  [(bs "NumBytesAcked", AppendInt64 [] (ba_NumBytesAcked x))].

Definition ByteAccount_mix (x z : ByteAccount) (P : list bytes) : ByteAccount :=
  MkByteAccount (pick P (bs "NumBytesAcked") (ba_NumBytesAcked x) (ba_NumBytesAcked z)).

#[export] Instance ByteAccount_Generated : Generated ByteAccount := {|
  marshal := ByteAccount_MarshalMsg; gen_field := ByteAccount_field; gen_fields := ByteAccount_fields; gen_head := raw [0x81];
  mix := ByteAccount_mix; kept x _ := x; gen_ok := ByteAccount_ok; gen_zero := zero_ByteAccount;
|}.

#[export] Instance ByteAccount_GeneratedLaws : GeneratedLaws ByteAccount.
Proof. generated ByteAccount_Generated ByteAccount_ok ByteAccount_fields ByteAccount_field ByteAccount_mix ByteAccount_MarshalMsg ltac:(fail). Qed.

Lemma ByteAccount_size : forall x, (length (marshal [] x) <= ByteAccount_Msgsize x)%nat.
Proof. size_law ByteAccount_Generated ByteAccount_fields ByteAccount_Msgsize. Qed.

(** ** Proofs for [BigFile] *)

Definition BigFile_ok (x : BigFile) : Prop :=
  len (bf_Filepath x) < 2 ^ 32 /\ in_int64 (bf_SizeInBytes x) /\ len (bf_Blake2b x) < 2 ^ 32 /\ time_ok (bf_SendTime x) /\ len (bf_Data x) < 2 ^ 32.

Definition BigFile_fields (x : BigFile) : list (bytes * bytes) :=
  [(bs "Filepath", AppendString [] (bf_Filepath x));
   (bs "SizeInBytes", AppendInt64 [] (bf_SizeInBytes x));
   (bs "Blake2b", AppendBytes [] (bf_Blake2b x));
   (bs "SendTime", AppendTime [] (bf_SendTime x));
   (bs "Data", AppendBytes [] (bf_Data x))].

Definition BigFile_mix (x z : BigFile) (P : list bytes) : BigFile :=
  MkBigFile (pick P (bs "Filepath") (bf_Filepath x) (bf_Filepath z))
    (pick P (bs "SizeInBytes") (bf_SizeInBytes x) (bf_SizeInBytes z))
    (pick P (bs "Blake2b") (bf_Blake2b x) (bf_Blake2b z))
    (pick P (bs "SendTime") (bf_SendTime x) (bf_SendTime z))
    (pick P (bs "Data") (bf_Data x) (bf_Data z)).

#[export] Instance BigFile_Generated : Generated BigFile := {|
  marshal := BigFile_MarshalMsg; gen_field := BigFile_field; gen_fields := BigFile_fields; gen_head := raw [0x85];
  mix := BigFile_mix; kept x _ := x; gen_ok := BigFile_ok; gen_zero := zero_BigFile;
|}.

#[export] Instance BigFile_GeneratedLaws : GeneratedLaws BigFile.
Proof. generated BigFile_Generated BigFile_ok BigFile_fields BigFile_field BigFile_mix BigFile_MarshalMsg ltac:(fail). Qed.

Lemma BigFile_size : forall x, (length (marshal [] x) <= BigFile_Msgsize x)%nat.
Proof. size_law BigFile_Generated BigFile_fields BigFile_Msgsize. Qed.

(** ** Proofs for [SynAckAck] *)

Definition SynAckAck_ok (x : SynAckAck) : Prop :=
  event_ok (sk_TcpEvent x) /\ len (sk_SessionNonce x) < 2 ^ 32 /\ in_int64 (sk_NextExpected x) /\ ints_ok (sk_NackList x).

Definition SynAckAck_fields (x : SynAckAck) : list (bytes * bytes) :=
  [(bs "TcpEvent", AppendInt [] (event_num (sk_TcpEvent x)));
   (bs "SessionNonce", AppendString [] (sk_SessionNonce x));
   (bs "NextExpected", AppendInt64 [] (sk_NextExpected x));
   (bs "NackList", append_ints [] (sk_NackList x))].

Definition SynAckAck_mix (x z : SynAckAck) (P : list bytes) : SynAckAck :=
  MkSynAckAck (pick P (bs "TcpEvent") (sk_TcpEvent x) (sk_TcpEvent z))
    (pick P (bs "SessionNonce") (sk_SessionNonce x) (sk_SessionNonce z))
    (pick P (bs "NextExpected") (sk_NextExpected x) (sk_NextExpected z))
    (pick P (bs "NackList") (sk_NackList x) (sk_NackList z)).

#[export] Instance SynAckAck_Generated : Generated SynAckAck := {|
  marshal := SynAckAck_MarshalMsg; gen_field := SynAckAck_field; gen_fields := SynAckAck_fields; gen_head := raw [0x84];
  mix := SynAckAck_mix; kept x _ := x; gen_ok := SynAckAck_ok; gen_zero := zero_SynAckAck;
|}.

#[export] Instance SynAckAck_GeneratedLaws : GeneratedLaws SynAckAck.
Proof. generated SynAckAck_Generated SynAckAck_ok SynAckAck_fields SynAckAck_field SynAckAck_mix SynAckAck_MarshalMsg ltac:(idtac; append_ints_rewrite). Qed.

Lemma SynAckAck_size : forall x, (length (marshal [] x) <= SynAckAck_Msgsize x)%nat.
Proof. size_law SynAckAck_Generated SynAckAck_fields SynAckAck_Msgsize. pose proof (append_ints_size (sk_NackList x)). lia. Qed.

(** ** Proofs for [TerminatedError] *)

Definition TerminatedError_ok (x : TerminatedError) : Prop :=
  len (te_Msg x) < 2 ^ 32.

Definition TerminatedError_fields (x : TerminatedError) : list (bytes * bytes) :=
  [(bs "Msg", AppendString [] (te_Msg x))].

Definition TerminatedError_mix (x z : TerminatedError) (P : list bytes) : TerminatedError :=
  MkTerminatedError (pick P (bs "Msg") (te_Msg x) (te_Msg z)).

#[export] Instance TerminatedError_Generated : Generated TerminatedError := {|
  marshal := TerminatedError_MarshalMsg; gen_field := TerminatedError_field; gen_fields := TerminatedError_fields; gen_head := raw [0x81];
  mix := TerminatedError_mix; kept x _ := x; gen_ok := TerminatedError_ok; gen_zero := zero_TerminatedError;
|}.

#[export] Instance TerminatedError_GeneratedLaws : GeneratedLaws TerminatedError.
Proof. generated TerminatedError_Generated TerminatedError_ok TerminatedError_fields TerminatedError_field TerminatedError_mix TerminatedError_MarshalMsg ltac:(fail). Qed.

Lemma TerminatedError_size : forall x, (length (marshal [] x) <= TerminatedError_Msgsize x)%nat.
Proof. size_law TerminatedError_Generated TerminatedError_fields TerminatedError_Msgsize. Qed.

(** ** The NATS network *)

(** A packet of the session model with the round trip estimates of its sender,
    and back. *)
Definition packet_msg (p : Packet) (rtt : Z * Z * Z) : PacketMsg :=
  MkPacketMsg (pk_From p) (pk_Dest p) (pk_FromSessNonce p) (pk_DestSessNonce p) (pk_ArrivedAtDestTm p) (pk_DataSendTm p)
    (pk_SeqNum p) (pk_SeqRetry p) (pk_AckNum p) (pk_AckRetry p) (pk_AckReplyTm p) (pk_TcpEvent p) (pk_FromTcpState p)
    (pk_AvailReaderBytesCap p) (pk_AvailReaderMsgCap p) (fst (fst rtt)) (snd (fst rtt)) (snd rtt) (pk_CumulBytesTransmitted p)
    (pk_Data p) (Z.of_nat (pk_DataOffset p)) (pk_Blake2bChecksum p).

Definition msg_packet (m : PacketMsg) : Packet :=
  MkPacket (pm_From m) (pm_Dest m) (pm_FromSessNonce m) (pm_DestSessNonce m) (pm_ArrivedAtDestTm m) (pm_DataSendTm m)
    (pm_SeqNum m) (pm_SeqRetry m) (pm_AckNum m) (pm_AckRetry m) (pm_AckReplyTm m) (pm_TcpEvent m) (pm_FromTcpState m)
    (pm_AvailReaderBytesCap m) (pm_AvailReaderMsgCap m) (pm_CumulBytesTransmitted m)
    (pm_Data m) (Z.to_nat (pm_DataOffset m)) (pm_Blake2bChecksum m).

(** [Send]: the subject and the data of the message that is published. *)
Definition NatsNet_Send (pack : PacketMsg) : bytes * bytes := (pm_Dest pack, MarshalMsg pack).

(** The callback of [Listen]: data that cannot be decoded is a panic. *)
Definition NatsNet_Listen (data : bytes) : outcome PacketMsg :=
  match UnmarshalMsg data with Ok pack => Ok pack | Fail _ | Panic => Panic end.

(** A packet whose numbers and lengths fit their formats. *)
Definition packet_fits (p : Packet) (rtt : Z * Z * Z) : Prop := PacketMsg_ok (packet_msg p rtt).

(** ** Properties *)

(** C30. What a packet is after the NATS network: [Send] publishes it to the inbox
    of its destination, and there it arrives with every field as it was, but
    with [Fresh] for the state of its sender, which is not serialised; so
    sessions over NATS are among those of [SwpNet]. *)
Theorem natsnet_packet (p : Packet) (rtt : Z * Z * Z) (Hfits : packet_fits p rtt) :
  let '(subject, data) := NatsNet_Send (packet_msg p rtt) in
  subject = pk_Dest p /\
  exists m, NatsNet_Listen data = Ok m /\ msg_packet m = set_pk_FromTcpState Fresh p /\ arrives_as p (msg_packet m).
Proof.
  cbn [NatsNet_Send]. split; [done|]. exists (set_pm_FromTcpState Fresh (packet_msg p rtt)). unfold NatsNet_Listen.
  rewrite (Unmarshal_Marshal (packet_msg p rtt)) by exact Hfits. split; [done|].
  assert (E : msg_packet (set_pm_FromTcpState Fresh (packet_msg p rtt)) = set_pk_FromTcpState Fresh p);
    [|by split; [|right]].
  unfold msg_packet, packet_msg. cbn. rewrite Nat2Z.id. by destruct p.
Qed.

(** The keepalive of an established end. *)
Definition ex_keepalive : Packet :=
  MkPacket (bs "a") (bs "b") (bs "na") (bs "nb") 0 5 (-777) (-777) 3 (-777) 0 EventKeepAlive Established 0 10 0 [] 0 [].

Lemma natsnet_packet_witness : exists m, NatsNet_Listen (snd (NatsNet_Send (packet_msg ex_keepalive (1, 2, 3)))) = Ok m /\
  msg_packet m = set_pk_FromTcpState Fresh ex_keepalive.
Proof.
  destruct (natsnet_packet ex_keepalive (1, 2, 3)) as (_ & m & H1 & H2 & _); [split_and!; by vm_compute|].
  exists m. split; [exact H1|exact H2].
Defined.

(** C37. A keepalive does not do over NATS what it is for: when the last packet of
    the handshake is lost, an end in [SynReceived] becomes [Established] on the
    keepalive of an established one, but not on what the NATS network makes of
    that keepalive, however often it is sent. *)
Theorem natsnet_keepalive (p : Packet) (rtt : Z * Z * Z) (Hfits : packet_fits p rtt)
  (Hka : pk_TcpEvent p = EventKeepAlive) (Hest : pk_FromTcpState p = Established) :
  UpdateTcp SynReceived (pk_TcpEvent p) (pk_FromTcpState p) = (Established, NoAction) /\
  exists m, NatsNet_Listen (snd (NatsNet_Send (packet_msg p rtt))) = Ok m /\
    UpdateTcp SynReceived (pm_TcpEvent m) (pm_FromTcpState m) = (SynReceived, NoAction).
Proof.
  split; [by rewrite Hka, Hest|]. cbn [NatsNet_Send snd]. unfold NatsNet_Listen.
  rewrite (Unmarshal_Marshal (packet_msg p rtt)) by exact Hfits. eexists. split; [reflexivity|]. cbn. by rewrite Hka.
Qed.

Lemma natsnet_keepalive_witness : exists m, NatsNet_Listen (snd (NatsNet_Send (packet_msg ex_keepalive (1, 2, 3)))) = Ok m /\
  UpdateTcp SynReceived (pm_TcpEvent m) (pm_FromTcpState m) = (SynReceived, NoAction).
Proof. apply (natsnet_keepalive ex_keepalive (1, 2, 3)); [split_and!; by vm_compute|done|done]. Defined.

(** The other types of the package: decoding inverts encoding, in any order of
    the fields and with unknown ones, and [Msgsize] bounds the length. *)
Theorem swp_gen_correct :
  (inverts ByteAccount_UnmarshalMsg ByteAccount_MarshalMsg ByteAccount_ok /\
   inverts BigFile_UnmarshalMsg BigFile_MarshalMsg BigFile_ok /\
   inverts SynAckAck_UnmarshalMsg SynAckAck_MarshalMsg SynAckAck_ok /\
   inverts TerminatedError_UnmarshalMsg TerminatedError_MarshalMsg TerminatedError_ok) /\
  (any_order ByteAccount_UnmarshalMsg ByteAccount_fields ByteAccount_ok /\
   any_order BigFile_UnmarshalMsg BigFile_fields BigFile_ok /\
   any_order SynAckAck_UnmarshalMsg SynAckAck_fields SynAckAck_ok /\
   any_order TerminatedError_UnmarshalMsg TerminatedError_fields TerminatedError_ok) /\
  (forall x, (length (Packet_MarshalMsg [] x) <= Packet_Msgsize x)%nat) /\
  (forall x, (length (ByteAccount_MarshalMsg [] x) <= ByteAccount_Msgsize x)%nat) /\
  (forall x, (length (BigFile_MarshalMsg [] x) <= BigFile_Msgsize x)%nat) /\
  (forall x, (length (SynAckAck_MarshalMsg [] x) <= SynAckAck_Msgsize x)%nat) /\
  (forall x, (length (TerminatedError_MarshalMsg [] x) <= TerminatedError_Msgsize x)%nat).
Proof.
  split_and!; try (intros x; exact (unmarshal_marshal x)); try (intros x z; exact (unmarshal_any_order x z));
    [exact PacketMsg_size|exact ByteAccount_size|exact BigFile_size|exact SynAckAck_size|exact TerminatedError_size].
Qed.

(** Anyone who can publish to an inbox can stop the process behind it: data
    that is no packet, and a packet that is cut short, make the callback
    panic; so does every other message that does not decode. *)
Theorem natsnet_garbage (data : bytes) :
  (exists m, NatsNet_Listen data = Ok m) \/ (NatsNet_Listen data = Panic /\ exists e, Packet_UnmarshalMsg zero_PacketMsg data = Bad e).
Proof.
  unfold NatsNet_Listen, UnmarshalMsg. pose proof (consumes_unmarshal zero_PacketMsg data) as Hc.
  change (unmarshal gen_zero data) with (Packet_UnmarshalMsg zero_PacketMsg data).
  change (unmarshal zero_PacketMsg data) with (Packet_UnmarshalMsg zero_PacketMsg data) in Hc.
  destruct (Packet_UnmarshalMsg zero_PacketMsg data) as [m r|e|]; [left; by eexists|right; split; [done|by eexists]|done].
Qed.

Example empty_message : NatsNet_Listen [] = Panic /\ NatsNet_Listen (bs "hello") = Panic.
Proof. split; by vm_compute. Qed.
