(* ===== verification/SwpRecv.v ===== *)
(** * SwpRecv: the receiver keeps the order

    The invariant of [RecvState] relative to the payloads that the other end
    has sent: the frames in the window, the frames that are ready and the
    bytes the application has got are those payloads, in order and without
    gaps. *)

From S2P Require Import Prelude SwpTcp Swp SwpNet.
Local Open Scope Z_scope.

(** The bytes of the first [n] payloads. *)
Definition cumul (D : list bytes) (n : nat) : Z := Z.of_nat (length (concat (take n D))).

Lemma cumul_0 D : cumul D 0 = 0.
Proof. done. Qed.

Lemma cumul_S D n d : D !! n = Some d -> cumul D (S n) = cumul D n + Z.of_nat (length d).
Proof. intros E. unfold cumul. rewrite (take_S_r _ _ _ E), concat_app, length_app. simpl. rewrite app_nil_r. lia. Qed.

Lemma cumul_mono D n m : (n <= m)%nat -> cumul D n <= cumul D m.
Proof.
  intros Hle. unfold cumul. replace (take n D) with (take n (take m D)) by (rewrite take_take; f_equal; lia).
  rewrite <- (take_drop n (take m D)) at 2. rewrite concat_app, length_app. lia.
Qed.

Lemma cumul_app D D' n : (n <= length D)%nat -> cumul (D ++ D') n = cumul D n.
Proof. intros Hn. unfold cumul. by rewrite take_app_le. Qed.

(** A packet that carries one of the payloads. *)
Record carries (D : list bytes) (p : Packet) : Prop := {
  ca_pos : 0 <= pk_SeqNum p;
  ca_data : D !! Z.to_nat (pk_SeqNum p) = Some (pk_Data p);
  ca_cumul : pk_CumulBytesTransmitted p = cumul D (S (Z.to_nat (pk_SeqNum p)));
  ca_offset : pk_DataOffset p = 0%nat;
}.

Lemma carries_app D D' p : carries D p -> carries (D ++ D') p.
Proof.
  intros [H1 H2 H3 H4]. split; [done|by apply lookup_app_l_Some| |done].
  rewrite cumul_app; [done|]. apply lookup_lt_Some in H2. lia.
Qed.

(** A packet that is ready, possibly read in part. *)
Record ready_at (D : list bytes) (n : nat) (p : Packet) : Prop := {
  re_seq : pk_SeqNum p = Z.of_nat n;
  re_data : D !! n = Some (pk_Data p);
  re_cumul : pk_CumulBytesTransmitted p = cumul D (S n);
  re_offset : (pk_DataOffset p <= length (pk_Data p))%nat;
}.

Lemma ready_at_app D D' n p : ready_at D n p -> ready_at (D ++ D') n p.
Proof.
  intros [H1 H2 H3 H4]. split; [done|by apply lookup_app_l_Some| |done].
  rewrite cumul_app; [done|]. apply lookup_lt_Some in H2. lia.
Qed.

Lemma carries_ready D p : carries D p -> ready_at D (Z.to_nat (pk_SeqNum p)) p.
Proof. intros [H1 H2 H3 H4]. split; [lia|done|done|lia]. Qed.

(** The window holds packet [n] only in the slot of [n], between the bounds. *)
Definition window_ok (D : list bytes) (r : RecvState) : Prop := forall i sl,
  rv_Rxq r !! i = Some sl -> rx_Received sl = true ->
  exists p, rx_Pack sl = Some p /\ carries D p /\ i = Z.to_nat (pk_SeqNum p mod rv_RecvWindowSize r) /\
    rv_NextFrameExpected r <= pk_SeqNum p < rv_NextFrameExpected r + rv_RecvWindowSize r /\
    pk_SeqNum p <= rv_LargestSeqnoRcvd r.

(** The invariant, with the number [c] of frames consumed, the number [n] of
    frames in order and the bytes [out] the application has got. *)
Record rcv_ok (D : list bytes) (out : bytes) (c n : nat) (r : RecvState) : Prop := {
  ro_size : 1 <= rv_RecvWindowSize r;
  ro_rxq : length (rv_Rxq r) = Z.to_nat (rv_RecvWindowSize r);
  ro_next : rv_NextFrameExpected r = Z.of_nat n;
  ro_sent : (n <= length D)%nat;
  ro_window : window_ok D r;
  ro_consumed : (c + length (rv_ReadyForDelivery r) = n)%nat;
  ro_ready : forall i p, rv_ReadyForDelivery r !! i = Some p -> ready_at D (c + i) p;
  ro_out : out ++ (rv_ReadyForDelivery r ≫= unread) = concat (take n D);
  ro_last : rv_LastMsgConsumed r = Z.of_nat c - 1;
  ro_frame : rv_LastFrameClientConsumed r = Z.max 0 (Z.of_nat c - 1);
  ro_largest : -1 <= rv_LargestSeqnoRcvd r < Z.of_nat (length D);
  ro_covers : Z.of_nat n - 1 <= rv_LargestSeqnoRcvd r;
  ro_bytes : rv_MaxCumulBytesTrans r = cumul D (Z.to_nat (rv_LargestSeqnoRcvd r + 1));
}.

(** More payloads of the sender change nothing. *)
Lemma window_ok_app D D' r : window_ok D r -> window_ok (D ++ D') r.
Proof. intros H i sl Hi Hr. destruct (H i sl Hi Hr) as (p & ? & ? & ?). eauto using carries_app. Qed.

Lemma rcv_ok_app D D' out c n r : rcv_ok D out c n r -> rcv_ok (D ++ D') out c n r.
Proof.
  intros []. split; try done; rewrite ?length_app; try lia.
  - by apply window_ok_app.
  - eauto using ready_at_app.
  - by rewrite take_app_le.
  - rewrite cumul_app by lia. done.
Qed.

(** ** The index of a slot *)

Lemma rxq_index_ok r n : 1 <= rv_RecvWindowSize r -> 0 <= n ->
  rxq_index r n = Some (Z.to_nat (n mod rv_RecvWindowSize r)).
Proof.
  intros Hw Hn. unfold rxq_index. rewrite Z.rem_mod_nonneg by lia.
  pose proof (Z.mod_pos_bound n (rv_RecvWindowSize r)).
  destruct (Z.eqb_spec (rv_RecvWindowSize r) 0); [lia|]. by destruct (Z.ltb_spec (n mod rv_RecvWindowSize r) 0); [lia|].
Qed.

(** Two numbers of one window with the same slot are the same. *)
Lemma same_slot W base a b : 1 <= W -> base <= a < base + W -> base <= b < base + W ->
  Z.to_nat (a mod W) = Z.to_nat (b mod W) -> a = b.
Proof.
  intros HW Ha Hb E. pose proof (Z.mod_pos_bound a W). pose proof (Z.mod_pos_bound b W).
  assert (E' : a mod W = b mod W) by lia.
  pose proof (Z.div_mod a W). pose proof (Z.div_mod b W). assert (a / W = b / W) by nia. nia.
Qed.

(** ** Tracking and flow control *)

Lemma track_seq_data D out c n r p : rcv_ok D out c n r -> carries D p ->
  exists r', track_seq r p = Some r' /\ rcv_ok D out c n r' /\ pk_SeqNum p <= rv_LargestSeqnoRcvd r'.
Proof.
  intros Hr [H1 H2 H3 H4]. pose proof Hr as []. pose proof (lookup_lt_Some _ _ _ H2). unfold track_seq.
  destruct (Z.ltb_spec (rv_LargestSeqnoRcvd r) (pk_SeqNum p)) as [Hl|Hl].
  - pose proof (cumul_mono D (Z.to_nat (rv_LargestSeqnoRcvd r + 1)) (S (Z.to_nat (pk_SeqNum p)))).
    rewrite (proj2 (Z.ltb_ge _ _)) by lia. simpl. cbn. rewrite Z.ltb_irrefl. eexists. split; [done|].
    split; [|cbn; lia]. split; cbn; try done; try lia; [|rewrite H3; f_equal; lia].
    intros i sl Hi Hrx. destruct (ro_window0 i sl Hi Hrx) as (q & ? & ? & ? & ? & ?). exists q. cbn. split_and!; (done || lia).
  - pose proof (cumul_mono D (S (Z.to_nat (pk_SeqNum p))) (Z.to_nat (rv_LargestSeqnoRcvd r + 1))).
    simpl. rewrite (proj2 (Z.ltb_ge _ _)) by lia. eauto.
Qed.

Lemma track_seq_control D out c n r p : rcv_ok D out c n r -> pk_SeqNum p < 0 -> pk_CumulBytesTransmitted p = 0 ->
  track_seq r p = Some r.
Proof.
  intros [] H1 H2. unfold track_seq. rewrite (proj2 (Z.ltb_ge _ _)) by lia. simpl.
  pose proof (cumul_mono D 0 (Z.to_nat (rv_LargestSeqnoRcvd r + 1))). rewrite cumul_0 in *.
  rewrite (proj2 (Z.ltb_ge _ _)) by lia. done.
Qed.

(** ** The loop over the frames in order *)

(** What the invariant looks at. *)
Definition core (r : RecvState) :=
  (rv_RecvWindowSize r, rv_Rxq r, rv_NextFrameExpected r, rv_ReadyForDelivery r, rv_LastMsgConsumed r,
   rv_LastFrameClientConsumed r, rv_LargestSeqnoRcvd r, rv_MaxCumulBytesTrans r).

Lemma rcv_ok_core D out c n r r' : core r' = core r -> rcv_ok D out c n r -> rcv_ok D out c n r'.
Proof.
  unfold core. intros E [H1 H2 H3 H4 H5 H6 H7 H8 H9 H10 H11 H12 H13].
  injection E as E1 E2 E3 E4 E5 E6 E7 E8.
  split; rewrite ?E1, ?E2, ?E3, ?E4, ?E5, ?E6, ?E7, ?E8; try done.
  intros i sl Hi Hrx. rewrite E2 in Hi. rewrite E1, E3, E7. by apply (H5 i sl).
Qed.

(** The slots that are taken. *)
Definition taken (q : list RxqSlot) : nat := length (filter (fun sl => rx_Received sl = true) q).

Lemma taken_insert_free q i sl : q !! i = Some sl -> rx_Received sl = true ->
  S (taken (<[i := MkRxqSlot false None]> q)) = taken q.
Proof.
  unfold taken. intros Hi Hrx. rewrite insert_take_drop by (by eapply lookup_lt_Some).
  rewrite <- (take_drop_middle q i sl Hi) at 3. rewrite !filter_app, !filter_cons.
  rewrite decide_False by done. rewrite decide_True by done. rewrite !length_app. simpl. lia.
Qed.

Lemma taken_length q : (taken q <= length q)%nat.
Proof. unfold taken. apply length_filter. Qed.

(** Taking the next frame out of the window. *)
Lemma take_frame D out c n r p i : rcv_ok D out c n r ->
  rxq_index r (rv_NextFrameExpected r) = Some i -> rv_Rxq r !! i = Some (MkRxqSlot true (Some p)) ->
  forall h, rcv_ok D out c (S n)
    (set_rv_NextFrameExpected (rv_NextFrameExpected r + 1)
       (set_rv_Rxq (<[i := MkRxqSlot false None]> (rv_Rxq r))
          (set_rv_RecvHistory h (set_rv_ReadyForDelivery (rv_ReadyForDelivery r ++ [p]) r)))).
Proof.
  intros Hr Hidx Hi h. pose proof Hr as []. rewrite rxq_index_ok in Hidx by lia. injection Hidx as <-.
  destruct (ro_window0 _ _ Hi eq_refl) as (q & [= <-] & Hc & Hslot & Hin & Hlarge).
  assert (Hseq : pk_SeqNum p = rv_NextFrameExpected r).
  { symmetry. apply (same_slot (rv_RecvWindowSize r) (rv_NextFrameExpected r)); [lia..|exact Hslot]. }
  assert (Hn : Z.to_nat (pk_SeqNum p) = n) by lia. pose proof (ca_data _ _ Hc) as Hd. rewrite Hn in Hd.
  pose proof (lookup_lt_Some _ _ _ Hd).
  split; cbn; try done; try lia.
  - by rewrite length_insert.
  - intros j sl Hj Hrx. cbn in Hj |- *. destruct (decide (j = Z.to_nat (rv_NextFrameExpected r mod rv_RecvWindowSize r))) as [->|Hne].
    + rewrite list_lookup_insert_eq in Hj by (by eapply lookup_lt_Some). by injection Hj as <-.
    + rewrite list_lookup_insert_ne in Hj by done.
      destruct (ro_window0 j sl Hj Hrx) as (p' & ? & ? & Hj' & ? & ?). exists p'. split_and!; try done; try lia.
      enough (pk_SeqNum p' <> rv_NextFrameExpected r) by lia. intros E. apply Hne. by rewrite Hj', E.
  - rewrite length_app. simpl. lia.
  - intros j q Hj. apply lookup_app_Some in Hj as [Hj|[Hge Hj]]; [by apply ro_ready0|].
    apply list_lookup_singleton_Some in Hj as [Hz <-]. replace (c + j)%nat with n by lia.
    rewrite <- Hn. by apply carries_ready.
  - rewrite bind_app, app_assoc, ro_out0, (take_S_r _ _ _ Hd), concat_app. f_equal. simpl.
    unfold unread. rewrite (ca_offset _ _ Hc). by rewrite !app_nil_r.
Qed.

Lemma in_order_ok D out c fuel : forall n r, rcv_ok D out c n r -> (taken (rv_Rxq r) < fuel)%nat ->
  exists r' n', in_order fuel r = Some r' /\ rcv_ok D out c n' r' /\
    rv_LastFrameClientConsumed r' = rv_LastFrameClientConsumed r.
Proof.
  induction fuel as [|fuel IH]; intros n r Hr Hf; [lia|]. pose proof Hr as [Hsize Hlen Hnext _ Hwin _ _ _ _ _ _ _ _].
  assert (Hidx := rxq_index_ok r (rv_NextFrameExpected r) Hsize ltac:(lia)).
  cbn [in_order]. rewrite Hidx. cbn [mbind option_bind].
  set (i := Z.to_nat (rv_NextFrameExpected r mod rv_RecvWindowSize r)) in *.
  destruct (lookup_lt_is_Some_2 (rv_Rxq r) i) as [sl Hi].
  { rewrite Hlen. pose proof (Z.mod_pos_bound (rv_NextFrameExpected r) (rv_RecvWindowSize r)). lia. }
  rewrite Hi. cbn [mbind option_bind]. destruct sl as [[] [p|]]; [|by destruct (Hwin _ _ Hi eq_refl) as (q & ? & _)|eauto..].
  destruct (IH (S n) _ (take_frame D out c n r p i Hr Hidx Hi (rv_RecvHistory r ++ [p]))) as (r' & n' & E & Hr' & Hl).
  - change (taken (<[i := MkRxqSlot false None]> (rv_Rxq r)) < fuel)%nat.
    pose proof (taken_insert_free _ _ _ Hi eq_refl). lia.
  - exists r', n'. split_and!; [|done|done]. exact E.
Qed.

(** ** Data packets *)

(** Putting a frame of the window into its slot. *)
Lemma put_frame D out c n r p : rcv_ok D out c n r -> carries D p -> pk_SeqNum p <= rv_LargestSeqnoRcvd r ->
  InWindow (pk_SeqNum p) (rv_NextFrameExpected r) (rv_NextFrameExpected r + rv_RecvWindowSize r - 1) = true ->
  rcv_ok D out c n
    (set_rv_Rxq (<[Z.to_nat (pk_SeqNum p mod rv_RecvWindowSize r) := MkRxqSlot true (Some p)]> (rv_Rxq r)) r).
Proof.
  intros [] Hc Hl Hin. assert (Hrange : rv_NextFrameExpected r <= pk_SeqNum p < rv_NextFrameExpected r + rv_RecvWindowSize r).
  { revert Hin. unfold InWindow. destruct (Z.ltb_spec (pk_SeqNum p) (rv_NextFrameExpected r)); [done|].
    destruct (Z.ltb_spec (rv_NextFrameExpected r + rv_RecvWindowSize r - 1) (pk_SeqNum p)); [done|]. lia. }
  split; cbn; try done; [by rewrite length_insert|].
  intros j sl Hj Hrx. cbn in Hj |- *. apply list_lookup_insert_Some in Hj as [(<- & <- & _)|[_ Hj]].
  - exists p. split_and!; (done || lia).
  - by apply (ro_window0 j sl).
Qed.

Lemma recv_data_ok D out c n e now p :
  rcv_ok D out c n (ep_rcv e) -> carries D p -> pk_SeqNum p <= rv_LargestSeqnoRcvd (ep_rcv e) ->
  exists e' n', recv_data e now p = Some e' /\ rcv_ok D out c n' (ep_rcv e').
Proof.
  intros Hr Hc Hl. unfold recv_data.
  set (r := if (_ <=? _) then _ else _).
  assert (Hcore : core r = core (ep_rcv e)) by (unfold r; by destruct (_ <=? _)).
  pose proof (rcv_ok_core _ _ _ _ _ _ Hcore Hr) as Hr'. pose proof Hr' as [Hsize Hlen _ _ _ _ _ _ _ _ _ _ _].
  assert (Hl' : pk_SeqNum p <= rv_LargestSeqnoRcvd r) by (injection Hcore as _ _ _ _ _ _ -> _; done).
  rewrite rxq_index_ok by (try done; by destruct Hc). cbn [mbind option_bind].
  destruct (InWindow _ _ _) eqn:Hin; cbn [negb].
  - pose proof (put_frame _ _ _ _ _ _ Hr' Hc Hl' Hin) as Hput.
    destruct (pk_SeqNum p =? rv_NextFrameExpected _).
    + set (q := set_rv_Rxq _ r) in *.
      destruct (in_order_ok D out c (S (length (rv_Rxq q))) n q Hput) as (r' & n' & E & Hr2 & _).
      { pose proof (taken_length (rv_Rxq q)). lia. }
      rewrite E. cbn [mbind option_bind]. by exists (MkEndpoint r' (set_sd_recvLastFrameClientConsumed (rv_LastFrameClientConsumed r') (ep_snd e))), n'.
    + by eexists _, n.
  - eexists _, n. split; [done|]. by eapply rcv_ok_core; [|exact Hr'].
Qed.

(** ** Consumption *)

Lemma ready_unread_nil (l : list Packet) : l = [] -> l ≫= unread = [].
Proof. by intros ->. Qed.

Lemma rcv_ok_consume_all D out c n r held lastb p : rcv_ok D out c n r -> last (rv_ReadyForDelivery r) = Some p ->
  pk_SeqNum p = Z.of_nat n - 1 /\
  rcv_ok D (out ++ (rv_ReadyForDelivery r ≫= unread)) n n
    (set_rv_LastFrameClientConsumed (pk_SeqNum p) (set_rv_ReadyForDelivery []
       (set_rv_LastByteConsumed lastb (set_rv_LastMsgConsumed (pk_SeqNum p) (set_rv_RcvdButNotConsumed held r))))).
Proof.
  intros [] Hlast. rewrite last_lookup in Hlast. pose proof (lookup_lt_Some _ _ _ Hlast) as Hlt.
  destruct (ro_ready0 _ _ Hlast) as [Hseq _ _ _].
  assert (Hs : pk_SeqNum p = Z.of_nat n - 1) by lia. split; [done|].
  split; cbn; try done; try lia; try (by intros ? ?; rewrite lookup_nil).
  rewrite app_nil_r. by rewrite ro_out0.
Qed.

(** One packet that is read whole, and one that is read in part. *)
Lemma rcv_ok_read_whole D out c n r pk ready held lastb : rcv_ok D out c n r -> rv_ReadyForDelivery r = pk :: ready ->
  pk_SeqNum pk = Z.of_nat c /\
  rcv_ok D (out ++ unread pk) (S c) n
    (set_rv_LastByteConsumed lastb (set_rv_LastFrameClientConsumed (pk_SeqNum pk) (set_rv_LastMsgConsumed (pk_SeqNum pk)
       (set_rv_RcvdButNotConsumed held (set_rv_ReadyForDelivery ready r))))).
Proof.
  intros [] E. rewrite E in *. simpl in ro_consumed0. destruct (ro_ready0 0%nat pk eq_refl) as [Hseq _ _ _].
  rewrite Nat.add_0_r in Hseq. split; [done|]. split; cbn; try done; try lia.
  - intros i p Hi. rewrite <- Nat.add_succ_r. by apply ro_ready0.
  - rewrite <- app_assoc. exact ro_out0.
Qed.

Lemma rcv_ok_read_part D out c n r pk ready lastb m : rcv_ok D out c n r -> rv_ReadyForDelivery r = pk :: ready ->
  (m <= length (unread pk))%nat ->
  rcv_ok D (out ++ take m (unread pk)) c n
    (set_rv_LastByteConsumed lastb (set_rv_ReadyForDelivery (set_pk_DataOffset (pk_DataOffset pk + m) pk :: ready) r)).
Proof.
  intros [] E Hm. rewrite E in *. simpl in ro_consumed0. unfold unread in Hm. rewrite length_drop in Hm.
  split; cbn; try done; try lia.
  - intros [|i] p Hi; [|by apply (ro_ready0 (S i))]. injection Hi as <-.
    destruct (ro_ready0 0%nat pk eq_refl). split; cbn; (done || lia).
  - rewrite <- ro_out0. rewrite <- app_assoc. f_equal. simpl. rewrite app_assoc. f_equal.
    unfold unread. cbn. rewrite <- drop_drop. apply take_drop.
Qed.

(** What a read does not touch. *)
Definition untouched (r r' : RecvState) : Prop :=
  (rv_Inbox r', rv_RemoteInbox r', rv_RecvWindowSize r', rv_LocalSessNonce r', rv_RemoteSessNonce r', rv_TcpState r',
   rv_retry r', rv_connReqPending r', rv_LargestSeqnoRcvd r', rv_LastAvailReaderMsgCap r') =
  (rv_Inbox r, rv_RemoteInbox r, rv_RecvWindowSize r, rv_LocalSessNonce r, rv_RemoteSessNonce r, rv_TcpState r,
   rv_retry r, rv_connReqPending r, rv_LargestSeqnoRcvd r, rv_LastAvailReaderMsgCap r).

Lemma fill_ok D n ready : forall room out c r lp r' got lp', rcv_ok D out c n r -> rv_ReadyForDelivery r = ready ->
  fill r room ready lp = (r', got, lp') ->
  exists c', rcv_ok D (out ++ got) c' n r' /\ (c <= c')%nat /\ untouched r r'.
Proof.
  induction ready as [|pk ready IH]; intros room out c r lp r' got lp' Hr Hready E; cbn [fill] in E.
  { injection E as <- <- <-. rewrite app_nil_r. by exists c. }
  fold (unread pk) in E. set (m := length (take room (unread pk))) in *. rewrite Hready in E. cbn [tail] in E.
  destruct (decide (m = length (unread pk))) as [Hm|Hm].
  - assert (Hall : take room (unread pk) = unread pk).
    { apply take_ge. unfold m in Hm. rewrite length_take in Hm. lia. }
    rewrite Hall in E.
    destruct (rcv_ok_read_whole D out c n r pk ready (delete (pk_SeqNum pk) (rv_RcvdButNotConsumed r))
      (pk_CumulBytesTransmitted pk) Hr Hready) as [_ Hr1].
    destruct (decide (room - m = 0)%nat).
    + injection E as <- <- <-. exists (S c). split_and!; [exact Hr1|lia|done].
    + destruct (fill _ (room - m) ready (Some pk)) as [[r1 more] lp1] eqn:Ef.
      destruct (IH _ _ _ _ _ _ _ _ Hr1 eq_refl Ef) as (c' & Hr2 & Hc & Hu).
      injection E as <- <- <-. exists c'. rewrite app_assoc. split_and!; [done|lia|exact Hu].
  - assert (Hroom : (room - m = 0)%nat). { unfold m in *. rewrite length_take in *. lia. }
    rewrite decide_True in E by done. injection E as <- <- <-. exists c. split_and!; [|lia|done].
    pose proof (rcv_ok_read_part D out c n r pk ready (pk_CumulBytesTransmitted pk - Z.of_nat (length (unread pk)) + Z.of_nat m) m Hr Hready) as Hp.
    assert (Hle : (m <= length (unread pk))%nat) by (unfold m; rewrite length_take; lia).
    specialize (Hp Hle). replace (take m (unread pk)) with (take room (unread pk)) in Hp; [exact Hp|].
    unfold m in *. rewrite length_take in *. f_equal. lia.
Qed.
