(* ===== verification/SwpSend.v ===== *)
(** * SwpSend: the sender keeps what is not acknowledged

    The invariant of [SenderState]: the two retry trees hold the same slots,
    those of the frames from some [base] on, in the order of their sequence
    numbers and of their deadlines, and each slot holds the packet of its
    frame.  A send, an ack and a wake-up keep it. *)

From S2P Require Import Prelude SwpTcp Swp SwpNet SwpRecv.
From Stdlib Require Import Sorting.Sorted.

(** ** Ordered lists as trees *)

Section tree.
Context (cmp : nat -> nat -> Z).
Context (cmp_anti : forall a b, cmp b a = (- cmp a b)%Z).
Context (cmp_trans : forall a b c, (cmp a b < 0)%Z -> (cmp b c < 0)%Z -> (cmp a c < 0)%Z).

Abbreviation ordered := (StronglySorted (fun a b => (cmp a b < 0)%Z)).

Lemma tree_insert_perm j t : (forall k, k ∈ t -> cmp j k <> 0%Z) -> tree_insert cmp j t ≡ₚ j :: t.
Proof.
  induction t as [|k t IH]; intros Hne; simpl; [done|]. destruct (Z.ltb_spec (cmp j k) 0); [done|].
  destruct (Z.eqb_spec (cmp j k) 0) as [E|E]; [by destruct (Hne k); [left|]|].
  rewrite IH; [apply Permutation_swap|]. intros k' ?. apply Hne. by right.
Qed.

Lemma tree_insert_ordered j t : ordered t -> ordered (tree_insert cmp j t).
Proof.
  induction 1 as [|k t Ht IH Hk]; simpl; [by repeat constructor|].
  destruct (Z.ltb_spec (cmp j k) 0).
  - constructor; [by constructor|]. constructor; [done|]. eapply Forall_impl; [exact Hk|]. intros a Ha. by eapply cmp_trans.
  - destruct (Z.eqb_spec (cmp j k) 0); [by constructor|]. constructor; [done|].
    assert (Hkj : (cmp k j < 0)%Z) by (rewrite cmp_anti; lia).
    clear -Hk Hkj. induction t as [|a t IH]; simpl; [by repeat constructor|]. apply Forall_cons in Hk as [Ha Hk].
    destruct (cmp j a <? 0)%Z; [by repeat constructor|]. destruct (cmp j a =? 0)%Z; [by repeat constructor|].
    constructor; [done|by apply IH].
Qed.

Lemma tree_delete_perm j t : j ∈ t -> (forall k, k ∈ t -> cmp j k = 0%Z -> k = j) -> t ≡ₚ j :: tree_delete cmp j t.
Proof.
  induction t as [|k t IH]; intros Hj Heq; simpl; [by apply not_elem_of_nil in Hj|].
  destruct (Z.eqb_spec (cmp j k) 0) as [E|E]; [by rewrite (Heq k) by (done || left)|].
  apply elem_of_cons in Hj as [->|Hj]; [pose proof (cmp_anti k k); lia|].
  rewrite Permutation_swap, <- IH; [done|done|]. intros k' Hk'. apply Heq. by right.
Qed.

Lemma tree_delete_ordered j t : ordered t -> ordered (tree_delete cmp j t).
Proof.
  induction 1 as [|k t Ht IH Hk]; simpl; [constructor|]. destruct (cmp j k =? 0)%Z; [done|]. constructor; [done|].
  clear -Hk. induction t as [|a t IH]; simpl; [done|]. apply Forall_cons in Hk as [Ha Hk].
  destruct (cmp j a =? 0)%Z; [done|]. constructor; [done|by apply IH].
Qed.

Lemma delete_all_perm gs : forall t rest, t ≡ₚ gs ++ rest ->
  (forall j k, j ∈ t -> k ∈ t -> cmp j k = 0%Z -> k = j) -> delete_all cmp gs t ≡ₚ rest.
Proof.
  induction gs as [|g gs IH]; intros t rest Ht Heq; simpl; [done|].
  assert (Hg : g ∈ t) by (rewrite Ht; left).
  assert (Hd : t ≡ₚ g :: tree_delete cmp g t) by (apply tree_delete_perm; eauto).
  apply IH.
  - apply (Permutation_cons_inv (a := g)). by rewrite <- Hd.
  - intros j k Hj Hk. apply Heq; rewrite Hd; by right.
Qed.

Lemma delete_all_ordered gs : forall t, ordered t -> ordered (delete_all cmp gs t).
Proof. induction gs as [|g gs IH]; intros t Ht; simpl; [done|]. by apply IH, tree_delete_ordered. Qed.
End tree.

Lemma ordered_ext (R R' : nat -> nat -> Prop) t : StronglySorted R t ->
  (forall a b, a ∈ t -> b ∈ t -> R a b -> R' a b) -> StronglySorted R' t.
Proof.
  induction 1 as [|a t Ht IH Ha]; intros HR; constructor.
  - apply IH. intros x y Hx Hy. apply HR; by right.
  - apply Forall_forall. intros b Hb. apply HR; [left|by right|]. by apply (proj1 (Forall_forall _ _) Ha).
Qed.

Lemma ordered_app R (l k : list nat) : StronglySorted R (l ++ k) -> StronglySorted R k.
Proof. induction l as [|a l IH]; simpl; [done|]. intros H. apply IH. by inversion H. Qed.

Lemma filter_none {A} (P : A -> Prop) `{forall x, Decision (P x)} (l : list A) :
  (forall x, x ∈ l -> ~ P x) -> filter P l = [].
Proof. induction l as [|x l IH]; intros Hn; [done|]. rewrite filter_cons_False; [|by apply Hn; left]. apply IH. intros y ?. apply Hn. by right. Qed.

Lemma filter_all {A} (P : A -> Prop) `{forall x, Decision (P x)} (l : list A) :
  (forall x, x ∈ l -> P x) -> filter P l = l.
Proof. induction l as [|x l IH]; intros Hn; [done|]. rewrite filter_cons_True by (by apply Hn; left). f_equal. apply IH. intros y ?. apply Hn. by right. Qed.

(** What a scan from the smallest on takes. *)
Lemma delete_while_app goner t gs rest : delete_while goner t = (gs, rest) -> t = gs ++ rest.
Proof.
  revert gs rest. induction t as [|j t IH]; intros gs rest E; simpl in E; [by injection E as <- <-|].
  destruct (goner j); [|by injection E as <- <-]. destruct (delete_while goner t) as [gs' rest'].
  injection E as <- <-. simpl. f_equal. by apply IH.
Qed.

Lemma delete_while_filter goner t gs rest (R : nat -> nat -> Prop) : delete_while goner t = (gs, rest) ->
  StronglySorted R t -> (forall a b, R a b -> goner b = true -> goner a = true) ->
  gs = filter (fun j => goner j = true) t /\ rest = filter (fun j => goner j = false) t.
Proof.
  intros E Ht Hmono. revert gs rest E. induction Ht as [|j t Ht IH Hj]; intros gs rest E; simpl in E; [by injection E as <- <-|].
  rewrite !filter_cons. destruct (goner j) eqn:Ej.
  - destruct (delete_while goner t) as [gs' rest']. injection E as <- <-. destruct (IH _ _ eq_refl) as [-> ->]. by simpl.
  - injection E as <- <-. simpl.
    assert (Hall : forall k, k ∈ t -> goner k = false).
    { intros k Hk. destruct (goner k) eqn:Ek; [|done]. rewrite (Hmono j k) in Ej; [done| |done].
      by apply (proj1 (Forall_forall _ _) Hj). }
    split.
    + symmetry. apply filter_none. intros k Hk. by rewrite (Hall k Hk).
    + f_equal. symmetry. by apply filter_all.
Qed.

(** ** The slots of the frames that are not acknowledged *)

(** The position of frame [n]. *)
Definition pos_of (W : Z) (n : nat) : nat := Z.to_nat (Z.of_nat n mod W).

Definition live (W : Z) (base n : nat) : list nat := pos_of W <$> seq base (n - base).

Lemma pos_of_inj W base a b : (1 <= W)%Z -> base <= a -> base <= b -> (Z.of_nat a < Z.of_nat base + W)%Z ->
  (Z.of_nat b < Z.of_nat base + W)%Z -> pos_of W a = pos_of W b -> a = b.
Proof.
  unfold pos_of. intros HW Ha Hb Ha' Hb' E.
  enough (Z.of_nat a = Z.of_nat b) by lia. apply (same_slot W (Z.of_nat base)); [lia..|exact E].
Qed.

Lemma elem_of_live W base n j : j ∈ live W base n <-> exists k, base <= k < n /\ j = pos_of W k.
Proof.
  unfold live. rewrite list_elem_of_fmap. split.
  - intros (k & -> & Hk). apply elem_of_seq in Hk. exists k. split; [lia|done].
  - intros (k & Hk & ->). exists k. split; [done|]. apply elem_of_seq. lia.
Qed.

Lemma live_NoDup W base n : (1 <= W)%Z -> (Z.of_nat n - Z.of_nat base <= W)%Z -> NoDup (live W base n).
Proof.
  intros HW Hn. unfold live. apply NoDup_fmap_2_strong; [|apply NoDup_seq].
  intros a b Ha Hb E. apply elem_of_seq in Ha, Hb. apply (pos_of_inj W base); (lia || done).
Qed.

Lemma live_snoc W base n : base <= n -> live W base (S n) = live W base n ++ [pos_of W n].
Proof.
  intros Hn. unfold live. replace (S n - base) with (S (n - base)) by lia.
  rewrite seq_S, fmap_app. simpl. repeat f_equal. lia.
Qed.

Lemma live_split W base mid n : base <= mid <= n -> live W base n = live W base mid ++ live W mid n.
Proof.
  intros Hm. unfold live. rewrite <- fmap_app. f_equal.
  replace (n - base) with ((mid - base) + (n - mid)) by lia. rewrite seq_app. f_equal. f_equal. lia.
Qed.

(** ** The invariant *)

Lemma compareSeqNum_anti q a b : compareSeqNum q b a = (- compareSeqNum q a b)%Z.
Proof. unfold compareSeqNum. lia. Qed.

Lemma compareSeqNum_trans q a b c :
  (compareSeqNum q a b < 0)%Z -> (compareSeqNum q b c < 0)%Z -> (compareSeqNum q a c < 0)%Z.
Proof. unfold compareSeqNum. lia. Qed.

Lemma compareRetryDeadline_anti q a b : compareRetryDeadline q b a = (- compareRetryDeadline q a b)%Z.
Proof.
  unfold compareRetryDeadline. rewrite (Z.eqb_sym (slot_deadline q b)). destruct (_ =? _)%Z; simpl; lia.
Qed.

Lemma compareRetryDeadline_trans q a b c :
  (compareRetryDeadline q a b < 0)%Z -> (compareRetryDeadline q b c < 0)%Z -> (compareRetryDeadline q a c < 0)%Z.
Proof.
  unfold compareRetryDeadline.
  destruct (Z.eqb_spec (slot_deadline q a) (slot_deadline q b)), (Z.eqb_spec (slot_deadline q b) (slot_deadline q c)),
    (Z.eqb_spec (slot_deadline q a) (slot_deadline q c)); simpl; lia.
Qed.

#[local] Hint Resolve compareSeqNum_anti compareSeqNum_trans compareRetryDeadline_anti compareRetryDeadline_trans : core.

Abbreviation by_seq q := (StronglySorted (fun a b => (compareSeqNum q a b < 0)%Z)).
Abbreviation by_deadline q := (StronglySorted (fun a b => (compareRetryDeadline q a b < 0)%Z)).

(** A packet of the sender's own data. *)
Record own_packet (inbox dest : bytes) (D : list bytes) (p : Packet) : Prop := {
  op_carries : carries D p;
  op_event : pk_TcpEvent p = EventData;
  op_from : pk_From p = inbox;
  op_dest : pk_Dest p = dest;
  op_ack : pk_AckNum p = 0%Z;
}.

(** The two trees hold the slots [T]. *)
Record trees_ok (s : SenderState) (T : list nat) : Prop := {
  to_seq : sd_BySeqNum s ≡ₚ T;
  to_deadline : sd_ByDeadline s ≡ₚ T;
  to_seq_order : by_seq (sd_Txq s) (sd_BySeqNum s);
  to_deadline_order : by_deadline (sd_Txq s) (sd_ByDeadline s);
}.

Record snd_ok (D : list bytes) (base : nat) (T : list nat) (s : SenderState) : Prop := {
  so_size : (1 <= sd_SenderWindowSize s)%Z;
  so_txq : length (sd_Txq s) = Z.to_nat (sd_SenderWindowSize s);
  so_sent : pk_Data <$> sd_SendHistory s = D;
  so_last : sd_LastFrameSent s = (Z.of_nat (length D) - 1)%Z;
  so_total : sd_TotalBytesSent s = cumul D (length D);
  so_base : base <= length D;
  so_room : (Z.of_nat (length D) - Z.of_nat base <= sd_SenderWindowSize s)%Z;
  so_slots : forall n, base <= n < length D -> exists sl p,
    sd_Txq s !! pos_of (sd_SenderWindowSize s) n = Some sl /\ sl_Pack sl = Some p /\ pk_SeqNum p = Z.of_nat n /\
    own_packet (sd_Inbox s) (sd_Dest s) D p;
  so_part : T ⊆ live (sd_SenderWindowSize s) base (length D);
  so_nodup : NoDup T;
  so_trees : trees_ok s T;
}.

Abbreviation frames s base D := (live (sd_SenderWindowSize s) base (length D)).

Lemma slot_seq_frame D base T s n : snd_ok D base T s -> base <= n < length D ->
  slot_seq (sd_Txq s) (pos_of (sd_SenderWindowSize s) n) = Z.of_nat n.
Proof.
  intros Hs Hn. destruct (so_slots _ _ _ _ Hs n Hn) as (sl & p & E & Ep & Hp & _). unfold slot_seq.
  rewrite E. destruct sl as [? ? ? o]. simpl in Ep. by rewrite Ep.
Qed.

(** Slots with the same number are the same. *)
Lemma slot_seq_inj D base T s j k : snd_ok D base T s -> j ∈ frames s base D -> k ∈ frames s base D ->
  slot_seq (sd_Txq s) j = slot_seq (sd_Txq s) k -> j = k.
Proof.
  intros Hs Hj Hk. apply elem_of_live in Hj as (a & Ha & ->), Hk as (b & Hb & ->).
  rewrite !(slot_seq_frame D base T) by done. intros E. f_equal. lia.
Qed.

Lemma compareSeqNum_inj D base T s j k : snd_ok D base T s -> j ∈ frames s base D -> k ∈ frames s base D ->
  compareSeqNum (sd_Txq s) j k = 0%Z -> k = j.
Proof. intros Hs Hj Hk E. eapply slot_seq_inj; [done..|]. unfold compareSeqNum in E. lia. Qed.

Lemma compareRetryDeadline_inj D base T s j k : snd_ok D base T s -> j ∈ frames s base D -> k ∈ frames s base D ->
  compareRetryDeadline (sd_Txq s) j k = 0%Z -> k = j.
Proof.
  intros Hs Hj Hk E. eapply slot_seq_inj; [done..|]. unfold compareRetryDeadline in E.
  destruct (Z.eqb_spec (slot_deadline (sd_Txq s) j) (slot_deadline (sd_Txq s) k)); simpl in E; lia.
Qed.

(** What the invariant looks at. *)
Definition snd_core (s : SenderState) :=
  (sd_SenderWindowSize s, sd_Txq s, sd_SendHistory s, sd_LastFrameSent s, sd_TotalBytesSent s, sd_Inbox s, sd_Dest s,
   sd_BySeqNum s, sd_ByDeadline s).

Lemma snd_ok_core D base T s s' : snd_core s' = snd_core s -> snd_ok D base T s -> snd_ok D base T s'.
Proof.
  unfold snd_core. intros E [H1 H2 H3 H4 H5 H6 H7 H8 H9 H10 [H11 H12 H13 H14]].
  injection E as E1 E2 E3 E4 E5 E6 E7 E8 E9.
  split; rewrite ?E1, ?E2, ?E3, ?E4, ?E5, ?E6, ?E7; try done. split; by rewrite ?E2, ?E8, ?E9.
Qed.

(** ** An ack *)

Lemma live_filter D base T s k : snd_ok D base T s -> exists mid, base <= mid <= length D /\
  (Z.of_nat mid <= Z.max (Z.of_nat base) (k + 1))%Z /\
  filter (fun j => (slot_seq (sd_Txq s) j <=? k)%Z = false) (frames s base D) = frames s mid D /\
  filter (fun j => (slot_seq (sd_Txq s) j <=? k)%Z = true) (frames s base D) = live (sd_SenderWindowSize s) base mid.
Proof.
  intros Hs. pose proof (so_base _ _ _ _ Hs).
  exists (Nat.max base (Nat.min (length D) (Z.to_nat (k + 1)))). set (mid := Nat.max _ _).
  assert (Hm : base <= mid <= length D) by lia. split_and!; [lia|lia|lia|..].
  all: rewrite (live_split _ base mid (length D)) by done; rewrite filter_app.
  - rewrite filter_none, filter_all; [done|..].
    + intros j Hj. apply elem_of_live in Hj as (n & Hn & ->). rewrite (slot_seq_frame D base T) by (done || lia). lia.
    + intros j Hj. apply elem_of_live in Hj as (n & Hn & ->). rewrite (slot_seq_frame D base T) by (done || lia). lia.
  - rewrite filter_all, filter_none; [by rewrite app_nil_r|..].
    + intros j Hj. apply elem_of_live in Hj as (n & Hn & ->). rewrite (slot_seq_frame D base T) by (done || lia). lia.
    + intros j Hj. apply elem_of_live in Hj as (n & Hn & ->). rewrite (slot_seq_frame D base T) by (done || lia). lia.
Qed.

(** The rest of the state of a sender, which its own data operations leave. *)
Definition snd_ctl (s : SenderState) :=
  (sd_Inbox s, sd_Dest s, sd_SenderWindowSize s, sd_SendAck s, sd_recvLastFrameClientConsumed s, sd_LocalSessNonce s,
   sd_RemoteSessNonce s).

(** Dropping the frames below [mid] from both trees. *)
Lemma drop_frames D base mid s gs rest : snd_ok D base (frames s base D) s -> base <= mid <= length D ->
  sd_BySeqNum s = gs ++ rest -> gs ≡ₚ live (sd_SenderWindowSize s) base mid -> rest ≡ₚ frames s mid D ->
  let s' := set_sd_ByDeadline (delete_all (compareRetryDeadline (sd_Txq s)) gs (sd_ByDeadline s)) (set_sd_BySeqNum rest s) in
  snd_ok D mid (frames s mid D) s'.
Proof.
  intros Hs Hm Eseq Hgs Hrest s'. pose proof Hs as [H1 H2 H3 H4 H5 H6 H7 H8 H9 H10 [H11 H12 H13 H14]].
  assert (Hinj : forall j k, j ∈ sd_ByDeadline s -> k ∈ sd_ByDeadline s -> compareRetryDeadline (sd_Txq s) j k = 0%Z -> k = j).
  { intros j k Hj Hk. rewrite H12 in Hj, Hk. by eapply compareRetryDeadline_inj. }
  split; cbn; try done; try lia.
  - intros n Hn. apply H8. lia.
  - apply live_NoDup; [done|lia].
  - split; cbn; [done| | |].
    + eapply delete_all_perm; [auto| |exact Hinj]. rewrite Hgs, <- live_split by done. exact H12.
    + rewrite Eseq in H13. by eapply ordered_app.
    + by apply delete_all_ordered.
Qed.

Lemma gotPack_ok D base s a : snd_ok D base (frames s base D) s -> exists s' base',
  gotPack s a = Some s' /\ snd_ok D base' (frames s' base' D) s' /\ base <= base' /\
  (Z.of_nat base' <= Z.max (Z.of_nat base) (pk_AckNum a + 1))%Z /\
  sd_LastSeenAvailReaderMsgCap s' = pk_AvailReaderMsgCap a /\ snd_ctl s' = snd_ctl s /\ sd_FlowCt s' = sd_FlowCt s.
Proof.
  intros Hs. destruct (live_filter D base _ s (pk_AckNum a) Hs) as (mid & Hm & Hmax & Hrest & Hgs).
  unfold gotPack. cbn [sd_Txq sd_BySeqNum set_sd_LastHeardFromDownstream set_sd_LastSeenAvailReaderMsgCap
    set_sd_LastSeenAvailReaderBytesCap]. unfold deleteThroughSeqNum.
  destruct (delete_while _ (sd_BySeqNum s)) as [gs rest] eqn:Ed.
  pose proof (so_trees _ _ _ _ Hs) as [H11 H12 H13 H14].
  destruct (delete_while_filter _ _ _ _ _ Ed H13) as [Egs Erest].
  { intros x y Hxy Hy. unfold compareSeqNum in Hxy. lia. }
  set (s1 := set_sd_LastSeenAvailReaderMsgCap (pk_AvailReaderMsgCap a) (set_sd_LastSeenAvailReaderBytesCap (pk_AvailReaderBytesCap a)
    (set_sd_LastHeardFromDownstream (pk_ArrivedAtDestTm a) s))) in *.
  assert (Hs1 : snd_ok D base (frames s1 base D) s1) by (by eapply snd_ok_core; [|exact Hs]).
  pose proof (drop_frames D base mid s1 gs rest Hs1 Hm (delete_while_app _ _ _ _ Ed)) as Hd. cbn zeta in Hd.
  specialize (Hd ltac:(by rewrite Egs, H11, Hgs) ltac:(by rewrite Erest, H11, Hrest)).
  set (s2 := set_sd_ByDeadline _ (set_sd_BySeqNum rest s1)) in *.
  assert (Hlen : length (sd_BySeqNum s2) = length (sd_ByDeadline s2)).
  { destruct (so_trees _ _ _ _ Hd) as [E1 E2 _ _]. by rewrite E1, E2. }
  rewrite decide_False by (intros Hn; by apply Hn).
  destruct (bool_decide _ || _); [exists s2, mid; split_and!; (done || lia)|].
  destruct (negb _); [|exists s2, mid; split_and!; (done || lia)].
  exists (set_sd_DiscardCount (sd_DiscardCount s2 + 1) s2), mid.
  split_and!; try done; try lia. by eapply snd_ok_core; [|exact Hd].
Qed.

(** ** A first send *)

Section sends.
Context (Blake2bOfBytes : bytes -> bytes).

(** Changing a slot that is not in a tree. *)
Lemma slot_seq_insert_ne q i j sl : i <> j -> slot_seq (<[i := sl]> q) j = slot_seq q j.
Proof. intros Hne. unfold slot_seq. by rewrite list_lookup_insert_ne. Qed.

Lemma slot_deadline_insert_ne q i j sl : i <> j -> slot_deadline (<[i := sl]> q) j = slot_deadline q j.
Proof. intros Hne. unfold slot_deadline. by rewrite list_lookup_insert_ne. Qed.

Lemma trees_ok_slot s i sl T : trees_ok s T -> i ∉ T -> trees_ok (set_sd_Txq (<[i := sl]> (sd_Txq s)) s) T.
Proof.
  intros [H1 H2 H3 H4] Hi. split; cbn; [done|done|..].
  - eapply ordered_ext; [exact H3|]. intros a b Ha Hb. rewrite H1 in Ha, Hb.
    unfold compareSeqNum. rewrite !slot_seq_insert_ne by (by intros ->). done.
  - eapply ordered_ext; [exact H4|]. intros a b Ha Hb. rewrite H2 in Ha, Hb. unfold compareRetryDeadline.
    rewrite !slot_seq_insert_ne, !slot_deadline_insert_ne by (by intros ->). done.
Qed.

(** A slot that is not yet in the trees is put into both. *)
Lemma trees_ok_insert s j T : trees_ok s T -> (forall k, k ∈ T -> slot_seq (sd_Txq s) j <> slot_seq (sd_Txq s) k) ->
  trees_ok (insert_slot j s) (j :: T).
Proof.
  intros [H1 H2 H3 H4] Hj. split; cbn.
  - rewrite tree_insert_perm, H1; [done|]. intros k Hk. rewrite H1 in Hk. specialize (Hj k Hk). unfold compareSeqNum. lia.
  - rewrite tree_insert_perm, H2; [done|]. intros k Hk. rewrite H2 in Hk. specialize (Hj k Hk). unfold compareRetryDeadline.
    destruct (Z.eqb_spec (slot_deadline (sd_Txq s) j) (slot_deadline (sd_Txq s) k)); simpl; lia.
  - apply tree_insert_ordered; auto. intros a b c. apply compareSeqNum_trans.
  - apply tree_insert_ordered; auto. intros a b c. apply compareRetryDeadline_trans.
Qed.

Lemma UpdateFlow_query f : UpdateFlow f (-1) (-1) = f.
Proof. by destruct f. Qed.

Lemma own_packet_app inbox dest D D' p : own_packet inbox dest D p -> own_packet inbox dest (D ++ D') p.
Proof. intros []. split; try done. by apply carries_app. Qed.

(** The packet of a first send. *)
Lemma orig_packet D base T s now dur data : snd_ok D base T s ->
  let p := (doOrigDataSend Blake2bOfBytes s now dur (data_packet s data)).2 in
  own_packet (sd_Inbox s) (sd_Dest s) (D ++ [data]) p /\ pk_SeqNum p = Z.of_nat (length D) /\ pk_Data p = data /\
  pk_FromSessNonce p = sd_LocalSessNonce s /\ pk_AvailReaderMsgCap p = fl_AvailReaderMsgCap (sd_FlowCt s).
Proof.
  intros [H1 H2 H3 H4 H5 H6 H7 H8 H9 H10 _] p.
  assert (Hseq : pk_SeqNum p = Z.of_nat (length D)) by (unfold p; destruct data; cbn; lia).
  assert (Hdata : pk_Data p = data) by (unfold p; by destruct data).
  split_and!; try done; [|unfold p; by destruct data..].
  split; [|unfold p; by destruct data..].
  split; [lia| | |unfold p; by destruct data].
  - rewrite Hseq, Hdata, Nat2Z.id. by apply list_lookup_middle.
  - rewrite Hseq, Nat2Z.id, (cumul_S _ _ data) by (by apply list_lookup_middle).
    rewrite cumul_app, <- H5 by done. unfold p. by destruct data.
Qed.

Lemma doOrigDataSend_ok D base s now dur data s' p : snd_ok D base (frames s base D) s ->
  (Z.of_nat (length D) - Z.of_nat base < sd_SenderWindowSize s)%Z ->
  doOrigDataSend Blake2bOfBytes s now dur (data_packet s data) = (s', p) ->
  snd_ok (D ++ [data]) base (frames s' base (D ++ [data])) s' /\ own_packet (sd_Inbox s) (sd_Dest s) (D ++ [data]) p /\
  pk_FromSessNonce p = sd_LocalSessNonce s /\ pk_AvailReaderMsgCap p = fl_AvailReaderMsgCap (sd_FlowCt s) /\
  snd_ctl s' = snd_ctl s /\ sd_FlowCt s' = sd_FlowCt s /\ sd_LastSeenAvailReaderMsgCap s' = sd_LastSeenAvailReaderMsgCap s.
Proof.
  intros Hs Hroom E. pose proof (orig_packet D base _ s now dur data Hs) as Hp. rewrite E in Hp. cbn [snd] in Hp.
  destruct Hp as (Hown & Hseq & Hdata & Hnonce & Hcap). pose proof Hs as [H1 H2 H3 H4 H5 H6 H7 H8 H9 H10 H11].
  set (W := sd_SenderWindowSize s) in *. set (n := length D) in *.
  assert (Hlfs : (sd_LastFrameSent s + 1)%Z = Z.of_nat n) by lia.
  assert (Hpos : Z.to_nat (Z.rem (sd_LastFrameSent s + 1) W) = pos_of W n).
  { rewrite Hlfs, Z.rem_mod_nonneg by lia. done. }
  assert (Hlt : pos_of W n < length (sd_Txq s)).
  { rewrite H2. unfold pos_of. pose proof (Z.mod_pos_bound (Z.of_nat n) W). lia. }
  assert (Hfresh : pos_of W n ∉ live W base n).
  { intros Hin. apply elem_of_live in Hin as (k & Hk & Ek). apply (pos_of_inj W base) in Ek; lia. }
  unfold doOrigDataSend in E. cbv zeta in E. fold W in E. rewrite Hpos, UpdateFlow_query in E. injection E as Es' Ep.
  rewrite Ep in Es'.
  set (s1 := set_sd_SendHistory _ _) in Es'.
  assert (Htxq : sd_Txq s1 = <[pos_of W n := MkTxqSlot now (now + dur) dur (Some p)]> (sd_Txq s)) by done.
  assert (Hnew : slot_seq (sd_Txq s1) (pos_of W n) = Z.of_nat n).
  { unfold slot_seq. rewrite Htxq, list_lookup_insert_eq by done. done. }
  assert (Htrees : trees_ok s' (pos_of W n :: live W base n)).
  { rewrite <- Es'. apply trees_ok_insert.
    - pose proof (trees_ok_slot s (pos_of W n) (MkTxqSlot now (now + dur) dur (Some p)) _ H11 Hfresh) as [G1 G2 G3 G4]. by split.
    - intros k Hk. rewrite Hnew, Htxq, slot_seq_insert_ne by (by intros <-).
      apply elem_of_live in Hk as (m & Hm & ->). unfold W. rewrite (slot_seq_frame D base (live W base n)) by done. lia. }
  assert (Hlen : length (D ++ [data]) = S n) by (rewrite length_app; simpl; lia).
  rewrite <- Es' in Htrees |- *. split_and!; try done.
  split; cbn; rewrite ?Hlen; try done; try lia.
  - by rewrite length_insert.
  - rewrite fmap_app, H3. simpl. by rewrite Hdata.
  - rewrite (cumul_S _ _ data) by (by apply list_lookup_middle). rewrite cumul_app by done. lia.
  - intros m Hm. fold W. destruct (decide (m = n)) as [->|Hne].
    + exists (MkTxqSlot now (now + dur) dur (Some p)), p. rewrite list_lookup_insert_eq by done. done.
    + rewrite list_lookup_insert_ne.
      * destruct (H8 m ltac:(lia)) as (sl & q & ? & ? & ? & ?). exists sl, q. split_and!; try done. by apply own_packet_app.
      * intros Eq. apply (pos_of_inj W base) in Eq; lia.
  - apply live_NoDup; [done|lia].
  - fold W. rewrite live_snoc by done. destruct Htrees as [G1 G2 G3 G4]. split; [|  |done|done].
    + rewrite G1. by rewrite Permutation_app_comm.
    + rewrite G2. by rewrite Permutation_app_comm.
Qed.

(** ** Retries *)

(** A packet that the sender puts on the network for its data. *)
Record data_out (s : SenderState) (D : list bytes) (p : Packet) : Prop := {
  do_own : own_packet (sd_Inbox s) (sd_Dest s) D p;
  do_nonce : pk_FromSessNonce p = sd_LocalSessNonce s;
  do_cap : pk_AvailReaderMsgCap p = fl_AvailReaderMsgCap (sd_FlowCt s);
}.

(** What a retry leaves alone. *)
Definition retry_ctl (s : SenderState) := (snd_ctl s, sd_FlowCt s, sd_LastSeenAvailReaderMsgCap s).

Lemma data_out_ctl s s' D p : retry_ctl s' = retry_ctl s -> data_out s' D p -> data_out s D p.
Proof.
  unfold retry_ctl, snd_ctl. intros E [H1 H2 H3]. injection E as E1 E2 _ _ _ E6 _ E8 _. split; congruence.
Qed.

Lemma resend_ok D base T s now dur j s' out : snd_ok D base T s -> j ∈ frames s base D -> j ∉ T ->
  resend s now dur j = (s', out) ->
  snd_ok D base (j :: T) s' /\ retry_ctl s' = retry_ctl s /\
  (forall k, slot_seq (sd_Txq s') k = slot_seq (sd_Txq s) k) /\
  exists p, out = [p] /\ data_out s D p /\ pk_SeqNum p = slot_seq (sd_Txq s) j.
Proof.
  intros Hs Hj HjT E. pose proof Hs as [H1 H2 H3 H4 H5 H6 H7 H8 H9 H10 H11].
  pose proof Hj as Hj'. apply elem_of_live in Hj' as (n & Hn & ->).
  destruct (H8 n Hn) as (sl & p & Esl & Ep & Hseq & Hown). destruct sl as [orig dl d o]. simpl in Ep. subst o.
  unfold resend in E. rewrite Esl, UpdateFlow_query in E. cbv zeta in E. injection E as Es Eo.
  set (q := set_pk_DestSessNonce _ _) in Es, Eo. set (j := pos_of (sd_SenderWindowSize s) n) in *.
  assert (Hq : own_packet (sd_Inbox s) (sd_Dest s) D q).
  { destruct Hown as [[] ? ? ? ?]. split; [|done..]. by split. }
  assert (Hqs : pk_SeqNum q = Z.of_nat n) by done.
  set (s1 := set_sd_Txq _ _) in Es.
  assert (Htxq : sd_Txq s1 = <[j := MkTxqSlot orig (now + dur) dur (Some q)]> (sd_Txq s)) by done.
  assert (Hlt : j < length (sd_Txq s)) by (by eapply lookup_lt_Some).
  assert (Hsame : forall k, slot_seq (sd_Txq s1) k = slot_seq (sd_Txq s) k).
  { intros k. rewrite Htxq. destruct (decide (j = k)) as [<-|]; [|by apply slot_seq_insert_ne].
    unfold slot_seq. rewrite list_lookup_insert_eq, Esl by done. by rewrite Hseq. }
  split_and!.
  - rewrite <- Es. split; cbn; try done.
    + by rewrite length_insert.
    + intros m Hm. destruct (decide (m = n)) as [->|Hne].
      * exists (MkTxqSlot orig (now + dur) dur (Some q)), q. fold j. rewrite list_lookup_insert_eq by done. done.
      * rewrite list_lookup_insert_ne; [by apply H8|]. intros Eq. apply (pos_of_inj (sd_SenderWindowSize s) base) in Eq; lia.
    + intros k Hk. apply elem_of_cons in Hk as [->|Hk]; [done|by apply H9].
    + by constructor.
    + apply trees_ok_insert.
      * pose proof (trees_ok_slot s j (MkTxqSlot orig (now + dur) dur (Some q)) _ H11 HjT) as [G1 G2 G3 G4]. by split.
      * intros k Hk. rewrite !Hsame. intros Eq. apply HjT.
        rewrite (slot_seq_inj D base T s j k Hs Hj ltac:(by apply H9) Eq). done.
  - rewrite <- Es. done.
  - intros k. rewrite <- Es. apply Hsame.
  - exists q. split_and!; [done| |rewrite Hqs; unfold slot_seq; by rewrite Esl, Hseq]. by split.
Qed.

Lemma resend_all_ok D base js : forall clock T s s' outs, snd_ok D base T s -> js ⊆ frames s base D -> NoDup (js ++ T) ->
  resend_all s clock js = (s', outs) ->
  snd_ok D base (reverse js ++ T) s' /\ retry_ctl s' = retry_ctl s /\
  Forall (data_out s D) outs /\ pk_SeqNum <$> outs = slot_seq (sd_Txq s) <$> js.
Proof.
  induction js as [|j js IH]; intros clock T s s' outs Hs Hsub Hnd E; simpl in E.
  { injection E as <- <-. by split_and!. }
  destruct (resend s _ _ j) as [s1 out] eqn:Er. destruct (resend_all s1 _ js) as [s2 outs2] eqn:Ea. injection E as <- <-.
  apply NoDup_cons in Hnd as [Hj Hnd].
  destruct (resend_ok D base T s _ _ j s1 out Hs ltac:(apply Hsub; left) ltac:(set_solver) Er)
    as (Hs1 & Hctl & Hsame & p & -> & Hp & Hps).
  assert (Hw : sd_SenderWindowSize s1 = sd_SenderWindowSize s) by (unfold retry_ctl, snd_ctl in Hctl; congruence).
  destruct (IH _ _ _ _ _ Hs1 ltac:(rewrite Hw; set_solver) ltac:(by rewrite <- Permutation_middle; constructor) Ea)
    as (Hs2 & Hctl2 & Houts & Hseqs).
  split_and!.
  - rewrite reverse_cons, <- app_assoc. exact Hs2.
  - by rewrite Hctl2.
  - constructor; [done|]. eapply Forall_impl; [exact Houts|]. intros q. by apply data_out_ctl.
  - change ([p] ++ outs2) with (p :: outs2). rewrite !fmap_cons, Hps, Hseqs. f_equal. apply list_fmap_ext. intros i k _. apply Hsame.
Qed.

Lemma snd_ok_perm D base T T' s : T ≡ₚ T' -> snd_ok D base T s -> snd_ok D base T' s.
Proof.
  intros HT [H1 H2 H3 H4 H5 H6 H7 H8 H9 H10 [H11 H12 H13 H14]]. split; try done; try by rewrite <- HT.
  split; try done; by rewrite <- HT.
Qed.

(** The wake-up retries every frame whose deadline has passed. *)
Lemma wakeup_ok D base s now clock s' outs : snd_ok D base (frames s base D) s -> wakeup s now clock = Some (s', outs) ->
  snd_ok D base (frames s' base D) s' /\ retry_ctl s' = retry_ctl s /\ Forall (data_out s D) outs /\
  forall n, base <= n < length D -> (slot_deadline (sd_Txq s) (pos_of (sd_SenderWindowSize s) n) <= now)%Z ->
    exists p, p ∈ outs /\ pk_SeqNum p = Z.of_nat n /\ D !! n = Some (pk_Data p).
Proof.
  intros Hs E. unfold wakeup in E. destruct (_ && _); [done|]. unfold deleteThroughDeadline in E.
  destruct (delete_while _ _) as [gs rest] eqn:Ed. injection E as E.
  pose proof Hs as [H1 H2 H3 H4 H5 H6 H7 H8 H9 H10 [H11 H12 H13 H14]].
  pose proof (delete_while_app _ _ _ _ Ed) as Eapp.
  destruct (delete_while_filter _ _ _ _ _ Ed H14) as [Egs _].
  { intros x y Hxy Hy. unfold compareRetryDeadline in Hxy.
    destruct (Z.eqb_spec (slot_deadline (sd_Txq s) x) (slot_deadline (sd_Txq s) y)); simpl in Hxy; lia. }
  assert (Hperm : frames s base D ≡ₚ gs ++ rest) by (by rewrite <- Eapp).
  set (s1 := set_sd_BySeqNum _ _) in E.
  assert (Hs1 : snd_ok D base rest s1).
  { split; cbn; try done.
    - rewrite Hperm. set_solver.
    - rewrite Hperm in H10. by apply NoDup_app in H10 as (_ & _ & ?).
    - split; cbn; [|done| |].
      + eapply delete_all_perm; [auto|by rewrite H11|]. intros j k Hj Hk. rewrite H11 in Hj, Hk. by eapply compareSeqNum_inj.
      + by apply delete_all_ordered.
      + rewrite Eapp in H14. by eapply ordered_app. }
  assert (Hsub : gs ⊆ frames s1 base D) by (change (frames s1 base D) with (frames s base D); rewrite Hperm; set_solver).
  assert (Hnd : NoDup (gs ++ rest)) by (by rewrite <- Hperm).
  destruct (resend_all_ok D base gs clock rest s1 s' outs Hs1 Hsub Hnd E) as (Hs' & Hctl & Houts & Hseqs).
  assert (Hw : sd_SenderWindowSize s' = sd_SenderWindowSize s) by (unfold retry_ctl, snd_ctl in Hctl; cbn in Hctl; congruence).
  split_and!; [|exact Hctl|eapply Forall_impl; [exact Houts|]; intros p; by apply data_out_ctl|].
  - eapply snd_ok_perm; [|exact Hs']. rewrite reverse_Permutation, Hw. by symmetry.
  - intros n Hn Hdl. set (j := pos_of (sd_SenderWindowSize s) n) in *.
    assert (Hj : j ∈ gs).
    { rewrite Egs. apply list_elem_of_filter. split; [lia|]. rewrite H12. apply elem_of_live. by exists n. }
    assert (Hin : Z.of_nat n ∈ pk_SeqNum <$> outs).
    { rewrite Hseqs. apply list_elem_of_fmap. exists j. split; [|done]. symmetry. exact (slot_seq_frame D base _ s n Hs Hn). }
    apply list_elem_of_fmap in Hin as (p & Hp & Hin). exists p. split_and!; [done|done|].
    destruct (proj1 (Forall_forall _ _) Houts p Hin) as [[[? Hc _ _] _ _ _ _] _ _]. rewrite <- Hp, Nat2Z.id in Hc. done.
Qed.
End sends.
