(* ===== verification/SwpSafe.v ===== *)
(** * SwpSafe: what a session guarantees

    The invariant of the two ends and the network between them, and the
    contract of a session: the application reads a prefix of what the other
    one wrote, whatever the network does; nothing but a retry timer panics;
    every frame but the first stays with its sender until it was consumed. *)

From S2P Require Import Prelude SwpTcp Swp SwpNet SwpRecv SwpSend.
Local Open Scope Z_scope.

Section safe.
Context (Blake2bOfBytes : bytes -> bytes).
Context (inbox nonce : side -> bytes) (size : Z).

(** The payloads an end has sent. *)
Definition sent (e : endpoint) : list bytes := pk_Data <$> sd_SendHistory (ep_snd e).
Definition consumed (e : endpoint) : Z := rv_LastFrameClientConsumed (ep_rcv e).
Definition state (e : endpoint) : TcpState := rv_TcpState (ep_rcv e).

(** A packet of end [x], which has sent [D], consumed up to [lfcc] and is in
    state [st]. *)
Record packet_ok (x : side) (D : list bytes) (lfcc : Z) (st : TcpState) (p : Packet) : Prop := {
  po_from : pk_From p = inbox x;
  po_dest : pk_Dest p = [] \/ pk_Dest p = inbox (other x);
  po_nonce : pk_FromSessNonce p = nonce x;
  po_ack : pk_AckNum p <= lfcc;
  po_cap : pk_AvailReaderMsgCap p <= size;
  po_data : pk_TcpEvent p = EventData -> carries D p;
  po_ctl : pk_TcpEvent p <> EventData -> pk_SeqNum p < 0 /\ pk_CumulBytesTransmitted p = 0 /\ pk_Data p = [];
  po_close : pk_TcpEvent p <> EventStartClose;
  po_syn : pk_TcpEvent p = EventSyn -> pk_DestSessNonce p = [];
  po_est : pk_TcpEvent p = EventSynAck \/ pk_TcpEvent p = EventEstabAck -> (3 <= rank st)%nat;
  po_keep : pk_TcpEvent p = EventKeepAlive -> pk_FromTcpState p = Established -> (4 <= rank st)%nat;
}.

Lemma packet_ok_later x D D' lfcc lfcc' st st' p : packet_ok x D lfcc st p ->
  lfcc <= lfcc' -> (rank st <= rank st')%nat -> packet_ok x (D ++ D') lfcc' st' p.
Proof.
  intros []. split; try done; try lia.
  - intros. apply carries_app. auto.
  - intros. etrans; [by apply po_est0|done].
  - intros. etrans; [by apply po_keep0|done].
Qed.

(** Nothing depends on a field that is lost. *)
Lemma packet_ok_arrives x D lfcc st p p' : packet_ok x D lfcc st p -> arrives_as p p' -> packet_ok x D lfcc st p'.
Proof. intros Hp [->| ->]; [done|]. destruct Hp. split; try done. intros E. by destruct (po_data0 E). Qed.

(** The part of an end that opens, closes and answers. *)
Record ctl_ok (x : side) (e : endpoint) : Prop := {
  co_inbox : rv_Inbox (ep_rcv e) = inbox x;
  co_local : rv_LocalSessNonce (ep_rcv e) = nonce x;
  co_remote : rv_RemoteInbox (ep_rcv e) = [] \/ rv_RemoteInbox (ep_rcv e) = inbox (other x);
  co_size : rv_RecvWindowSize (ep_rcv e) = size;
  co_cap : rv_LastAvailReaderMsgCap (ep_rcv e) <= size;
  co_state : state e <> Fresh /\ state e <> CloseInitiatorHasSentFin;
  co_rnonce : rv_RemoteSessNonce (ep_rcv e) = [] \/ rv_RemoteSessNonce (ep_rcv e) = nonce (other x);
  co_pending : state e = SynSent -> is_Some (rv_connReqPending (ep_rcv e));
  co_retry : rt_inUse (rv_retry (ep_rcv e)) = true ->
    rt_curState (rv_retry (ep_rcv e)) = SynReceived /\
    (rt_firstStateAction (rv_retry (ep_rcv e)) = SendSynAck \/ rt_firstStateAction (rv_retry (ep_rcv e)) = SendEstabAck) /\
    exists p, rt_causalPacket (rv_retry (ep_rcv e)) = Some p /\ pk_FromSessNonce p = nonce (other x);
  cs_inbox : sd_Inbox (ep_snd e) = inbox x;
  cs_dest : sd_Dest (ep_snd e) = [] \/ sd_Dest (ep_snd e) = inbox (other x);
  cs_local : sd_LocalSessNonce (ep_snd e) = nonce x;
  cs_size : sd_SenderWindowSize (ep_snd e) = size;
  cs_flow : fl_AvailReaderMsgCap (sd_FlowCt (ep_snd e)) <= size;
  cs_seen : sd_LastSeenAvailReaderMsgCap (ep_snd e) <= size;
  cs_lfcc : 0 <= sd_recvLastFrameClientConsumed (ep_snd e) <= consumed e;
  cs_queue : Forall (fun p => packet_ok x [] (consumed e) (state e) p /\ pk_TcpEvent p <> EventData) (sd_SendAck (ep_snd e));
}.

(** The receiver consumed no more than it got. *)
Definition caught_up (e : endpoint) : Prop := rv_LastMsgConsumed (ep_rcv e) <= rv_LargestSeqnoRcvd (ep_rcv e).

Lemma packet_ok_ctl x D lfcc st p : pk_TcpEvent p <> EventData -> packet_ok x [] lfcc st p -> packet_ok x D lfcc st p.
Proof. intros Hne []. by split. Qed.

Lemma rcv_ok_caught_up D out c n e : rcv_ok D out c n (ep_rcv e) -> caught_up e.
Proof. intros []. unfold caught_up. lia. Qed.

Lemma rcv_ok_lfcc D out c n r : rcv_ok D out c n r -> 0 <= rv_LastFrameClientConsumed r.
Proof. intros []. lia. Qed.

Lemma UpdateFlow_cap f m b : fl_AvailReaderMsgCap f <= size -> m <= size -> fl_AvailReaderMsgCap (UpdateFlow f m b) <= size.
Proof. intros H1 H2. unfold UpdateFlow. cbn. by destruct (0 <=? m). Qed.

Lemma UpdateControl_ok x e : ctl_ok x e -> caught_up e -> ctl_ok x (UpdateControl e).
Proof.
  intros [] Hc. unfold caught_up in Hc.
  assert (Hm : rv_RecvWindowSize (ep_rcv e) - (rv_LargestSeqnoRcvd (ep_rcv e) - rv_LastMsgConsumed (ep_rcv e)) <= size) by lia.
  split; try done. by apply UpdateFlow_cap.
Qed.

(** The events that [ack] is called with. *)
Definition ack_event (st : TcpState) (ev : TcpEvent) : Prop :=
  ev ∈ [EventDataAck; EventFinAck] \/ (ev ∈ [EventSynAck; EventEstabAck] /\ (3 <= rank st)%nat).

Lemma push_ack_ok (P : Packet -> Prop) a q : Forall P q -> P a -> Forall P (push_ack a q).
Proof.
  intros Hq Ha. unfold push_ack. apply Forall_app. split; [|by constructor].
  destruct (decide _); [|done]. destruct Hq; [done|]. done.
Qed.

Lemma ack_ok x e now seqno pack ev : ctl_ok x e -> caught_up e -> seqno <= consumed e -> ack_event (state e) ev ->
  ctl_ok x (ack e now seqno pack ev).
Proof.
  intros Hctl Hc Hs Hev.
  assert (H : ctl_ok x (match pack with Some _ => UpdateControl e | None => e end)).
  { destruct pack; [by apply UpdateControl_ok|done]. }
  assert (Hcons : consumed (match pack with Some _ => UpdateControl e | None => e end) = consumed e) by by destruct pack.
  assert (Hst : state (match pack with Some _ => UpdateControl e | None => e end) = state e) by by destruct pack.
  unfold ack. set (e1 := match pack with Some _ => UpdateControl e | None => e end) in *.
  destruct H. rewrite <- Hst in Hev. split; try done. cbn. apply push_ack_ok; [done|].
  assert (Hne : ev <> EventData /\ ev <> EventStartClose /\ ev <> EventSyn /\ ev <> EventKeepAlive /\
    (ev = EventSynAck \/ ev = EventEstabAck -> (3 <= rank (state e1))%nat)).
  { unfold ack_event in Hev. rewrite !elem_of_cons, elem_of_nil in Hev. destruct Hev as [Hev|[Hev Hr]]; destruct_or? Hev; subst;
      split_and!; try done; naive_solver. }
  destruct Hne as (? & ? & ? & ? & Hrank). split; [|done]. split; cbn; try done; try lia; try tauto.
  by rewrite <- Hcons in Hs.
Qed.

(** Nothing is known of the other end before the handshake. *)
Definition open_ok (e : endpoint) : Prop := (rank (state e) < 3)%nat -> rv_RemoteSessNonce (ep_rcv e) = [].

(** What the connection leaves alone. *)
Definition calm (e e' : endpoint) : Prop :=
  core (ep_rcv e') = core (ep_rcv e) /\ snd_core (ep_snd e') = snd_core (ep_snd e).

Lemma calm_trans e1 e2 e3 : calm e1 e2 -> calm e2 e3 -> calm e1 e3.
Proof. intros [H1 H2] [H3 H4]. split; congruence. Qed.

Lemma calm_ack e now seqno pack ev : calm e (ack e now seqno pack ev).
Proof. by destruct pack. Qed.

Lemma calm_caught_up e e' : calm e e' -> caught_up e -> caught_up e'.
Proof. unfold calm, core, caught_up. intros [E _] H. injection E as _ _ _ _ -> _ -> _. done. Qed.

Lemma calm_consumed e e' : calm e e' -> consumed e' = consumed e.
Proof. unfold calm, core, consumed. intros [E _]. congruence. Qed.

Lemma calm_sent e e' : calm e e' -> sent e' = sent e.
Proof. unfold calm, snd_core, sent. intros [_ E]. congruence. Qed.

(** ** The connection *)

Lemma queue_later x lfcc lfcc' st st' q : lfcc <= lfcc' -> (rank st <= rank st')%nat ->
  Forall (fun p => packet_ok x [] lfcc st p /\ pk_TcpEvent p <> EventData) q ->
  Forall (fun p => packet_ok x [] lfcc' st' p /\ pk_TcpEvent p <> EventData) q.
Proof.
  intros Hl Hr Hq. eapply Forall_impl; [exact Hq|]. intros p [Hp Hne]. split; [|done].
  by apply (packet_ok_later x [] [] lfcc lfcc' st st' p).
Qed.

Lemma set_state_ok x e st : ctl_ok x e -> (rank (state e) <= rank st)%nat -> st <> Fresh -> st <> CloseInitiatorHasSentFin ->
  (st = SynSent -> state e = SynSent) -> ctl_ok x (on_rcv (set_rv_TcpState st) e).
Proof.
  intros [] Hr H1 H2 H3. split; try done.
  - intros E. apply co_pending0. by apply H3.
  - eapply queue_later; [| |exact cs_queue0]; done.
Qed.

Lemma setupRetry_ok x e now p act : ctl_ok x e -> pk_FromSessNonce p = nonce (other x) ->
  (isRetryState (state e) = true -> state e = SynReceived /\ (act = SendSynAck \/ act = SendEstabAck)) ->
  ctl_ok x (on_rcv (fun r => setupRetry r now (state e) p act) e).
Proof.
  intros [] Hp Hact. unfold setupRetry, on_rcv, state in *. destruct (isRetryState (rv_TcpState (ep_rcv e))) eqn:E.
  - destruct (Hact eq_refl) as [E' Ha]. split; try done. cbn. intros _. split_and!; eauto.
  - split; try done.
Qed.

(** What [UpdateTcp] does in the states and on the events that occur. *)
Inductive tcp_case (s : TcpState) (ev : TcpEvent) : TcpState -> TcpAction -> Prop :=
| tc_stay : tcp_case s ev s NoAction
| tc_move st : st = Established \/ st = Closed -> (3 <= rank s)%nat -> (rank s < rank st)%nat -> tcp_case s ev st NoAction
| tc_data : s = Established -> tcp_case s ev Established SendDataAck
| tc_closed : s = Closed -> tcp_case s ev Closed SendFinAck
| tc_synack : s = Listen -> ev = EventSyn -> tcp_case s ev SynReceived SendSynAck
| tc_estab st : s = SynSent -> st = Established \/ st = SynReceived -> tcp_case s ev st SendEstabAck
| tc_fin : (rank s < 5)%nat -> tcp_case s ev CloseResponderGotFin DoAppClose.

Lemma UpdateTcp_case s ev from : s <> Fresh -> s <> CloseInitiatorHasSentFin -> ev <> EventStartClose ->
  tcp_case s ev (UpdateTcp s ev from).1 (UpdateTcp s ev from).2.
Proof.
  intros H1 H2 H3. destruct s, ev; cbn; try done; try (by constructor); try (constructor; cbn; (by auto || lia)).
  case_decide; cbn; constructor; cbn; by auto || lia.
Qed.

Lemma UpdateTcp_established s ev from : (UpdateTcp s ev from).1 = Established ->
  s = Established \/ ev = EventSynAck \/ ev = EventEstabAck \/ (ev = EventKeepAlive /\ from = Established).
Proof. destruct s, ev; cbn; try done; auto; case_decide; cbn; auto; done. Qed.

(** The end after the change of state. *)
Definition moved (e : endpoint) (now : Z) (st : TcpState) (p : Packet) (act : TcpAction) : endpoint :=
  let e1 := on_rcv (set_rv_TcpState st) e in
  if decide (state e = st) then e1 else on_rcv (fun r => setupRetry r now st p act) e1.

Lemma moved_same e now st p act :
  calm e (moved e now st p act) /\ state (moved e now st p act) = st /\
  rv_RemoteSessNonce (ep_rcv (moved e now st p act)) = rv_RemoteSessNonce (ep_rcv e) /\
  rv_connReqPending (ep_rcv (moved e now st p act)) = rv_connReqPending (ep_rcv e).
Proof. unfold moved. case_decide; [done|]. unfold on_rcv, setupRetry. by destruct (isRetryState _). Qed.

Lemma moved_ok x e now ev st p act : ctl_ok x e -> pk_FromSessNonce p = nonce (other x) ->
  tcp_case (state e) ev st act -> ctl_ok x (moved e now st p act).
Proof.
  intros Hc Hp Ht. pose proof (co_state _ _ Hc) as [Hf Hi]. unfold moved.
  assert (Hset : ctl_ok x (on_rcv (set_rv_TcpState st) e)).
  { apply set_state_ok; [done|..]; inversion Ht; subst; cbn in *;
      repeat match goal with H : _ \/ _ |- _ => destruct H; subst end;
      repeat match goal with H : state e = _ |- _ => rewrite H in * end; cbn in *; try done; try lia. }
  case_decide as Hd; [done|].
  pose proof (setupRetry_ok x (on_rcv (set_rv_TcpState st) e) now p act Hset Hp) as Hr. apply Hr.
  change (state (on_rcv (set_rv_TcpState st) e)) with st.
  inversion Ht; subst; try done; repeat match goal with H : _ \/ _ |- _ => destruct H; subst end; try done; auto.
Qed.

Lemma set_nonce_ok x e v b : ctl_ok x e -> v = nonce (other x) -> (state e = SynSent -> is_Some b) ->
  ctl_ok x (on_rcv (fun r => set_rv_connReqPending b (set_rv_RemoteSessNonce v r)) e).
Proof. intros [] -> Hb. split; try done. by right. Qed.

Lemma set_rnonce_ok x e v : ctl_ok x e -> v = nonce (other x) -> ctl_ok x (on_rcv (set_rv_RemoteSessNonce v) e).
Proof. intros [] ->. split; try done. by right. Qed.

(** The request that an end waits for was answered with an error. *)
Definition refused (e : endpoint) : Prop := rv_connReqPending (ep_rcv e) = Some true.

(** One event: no panic unless the pending request was refused, and the rest
    of the end stays. *)
Lemma tcp_once x e now ev p : ctl_ok x e -> caught_up e -> ev <> EventStartClose -> pk_FromSessNonce p = nonce (other x) ->
  ((rank (state e) < 3)%nat -> rv_RemoteSessNonce (ep_rcv e) = [] \/ (ev = EventSyn /\ state e = Listen)) ->
  let '(st, act) := UpdateTcp (state e) ev (pk_FromTcpState p) in
  (doTcpAction (moved e now st p act) now act (Some p) = None /\ refused e /\ state e = SynSent) \/
  exists e' evn, doTcpAction (moved e now st p act) now act (Some p) = Some (e', evn) /\ ctl_ok x e' /\ calm e e' /\
    state e' = st /\ ((rank st < 3)%nat -> rv_RemoteSessNonce (ep_rcv e') = rv_RemoteSessNonce (ep_rcv e) /\ st = state e) /\
    (evn = EventNil \/ (evn = EventApplicationClosed /\ st = CloseResponderGotFin)).
Proof.
  intros Hc Hu Hev Hp Hopen. pose proof (co_state _ _ Hc) as [Hf Hi].
  pose proof (UpdateTcp_case (state e) ev (pk_FromTcpState p) Hf Hi Hev) as Ht.
  destruct (UpdateTcp (state e) ev (pk_FromTcpState p)) as [st act]. cbn [fst snd] in Ht.
  pose proof (moved_ok x e now ev st p act Hc Hp Ht) as Hm.
  destruct (moved_same e now st p act) as (Hcalm & Hst & Hn & Hpend). set (e1 := moved e now st p act) in *. clearbody e1.
  assert (Hu1 : caught_up e1) by (by eapply calm_caught_up).
  assert (Hcons : consumed e1 = consumed e) by (by apply calm_consumed).
  assert (Hack : forall e2 ev2, ctl_ok x e2 -> calm e1 e2 -> state e2 = st -> ack_event st ev2 ->
    ctl_ok x (ack e2 now (rv_LastFrameClientConsumed (ep_rcv e1)) (Some p) ev2) /\
    calm e (ack e2 now (rv_LastFrameClientConsumed (ep_rcv e1)) (Some p) ev2)).
  { intros e2 ev2 H2 Hc2 Hs2 Ha. split.
    - apply ack_ok; [done|by eapply calm_caught_up| |by rewrite Hs2].
      rewrite (calm_consumed _ _ Hc2). unfold consumed. done.
    - eapply calm_trans; [|apply calm_ack]. by eapply calm_trans. }
  destruct Ht as [|st Hor Hr3 Hlt|Hs|Hs|Hs He|st Hs Hor|Hlt]; cbn [doTcpAction].
  - right. exists e1, EventNil. split_and!; auto.
  - right. exists e1, EventNil. split_and!; auto. intros; lia.
  - right. destruct (Hack e1 EventDataAck) as [A1 A2]; [done|done|done|by left; left|].
    eexists _, EventNil. split_and!; [done|exact A1|exact A2|done| |by left]. cbn. lia.
  - right. destruct (Hack e1 EventFinAck) as [A1 A2]; [done|done|done|by left; right; left|].
    eexists _, EventNil. split_and!; [done|exact A1|exact A2|done| |by left]. cbn. lia.
  - right. rewrite Hn. destruct (co_rnonce _ _ Hc) as [E|E].
    + rewrite bool_decide_eq_false_2 by (rewrite E; by intros []). cbn [andb].
      destruct (Hack (on_rcv (set_rv_RemoteSessNonce (pk_FromSessNonce p)) e1) EventSynAck) as [A1 A2];
        [by apply set_rnonce_ok|done|done|right; split; [left|done]|].
      eexists _, EventNil. split_and!; [done|exact A1|exact A2|done| |by left]. cbn. lia.
    + rewrite (bool_decide_eq_false_2 (rv_RemoteSessNonce (ep_rcv e) <> pk_FromSessNonce p)) by (rewrite E, Hp; by intros []).
      rewrite andb_false_r.
      destruct (Hack (on_rcv (set_rv_RemoteSessNonce (pk_FromSessNonce p)) e1) EventSynAck) as [A1 A2];
        [by apply set_rnonce_ok|done|done|right; split; [left|done]|].
      eexists _, EventNil. split_and!; [done|exact A1|exact A2|done| |by left]. cbn. lia.
  - rename Hs into Hsyn.
    assert (Hnil : rv_RemoteSessNonce (ep_rcv e) = []).
    { destruct Hopen as [?|[_ ?]]; [rewrite Hsyn; cbn; lia|done|congruence]. }
    rewrite Hn, Hnil, Hpend. rewrite bool_decide_eq_false_2 by (by intros []).
    destruct (co_pending _ _ Hc Hsyn) as [b Hb]. rewrite Hb. destruct b; [left; by split_and!|right].
    assert (Hrank : (3 <= rank st)%nat) by (destruct_or!; subst; cbn; lia).
    destruct (Hack (on_rcv (fun r => set_rv_connReqPending None (set_rv_RemoteSessNonce (pk_FromSessNonce p) r)) e1) EventEstabAck) as [A1 A2].
    + apply set_nonce_ok; [done|done|]. rewrite Hst. destruct_or!; subst; done.
    + done.
    + done.
    + right. split; [right; left|done].
    + eexists _, EventNil. split_and!; [done|exact A1|exact A2|done| |by left]. lia.
  - right. destruct (Hack (on_rcv (set_rv_AppCloseCallback false) e1) EventFinAck) as [A1 A2];
      [by destruct Hm; split|done|done|by left; right; left|].
    eexists _, EventApplicationClosed. split_and!; [done|exact A1|exact A2|done| |by right]. cbn. lia.
Qed.

Lemma tcp_events_unfold fuel e now ev p :
  tcp_events (S fuel) e now ev p =
  let '(st, act) := UpdateTcp (state e) ev (pk_FromTcpState p) in
  match doTcpAction (moved e now st p act) now act (Some p) with
  | None => None
  | Some (e', evn) => if decide (evn = EventNil) then Some e' else tcp_events fuel e' now evn p
  end.
Proof. cbn [tcp_events]. unfold moved, state. by destruct (UpdateTcp _ _ _). Qed.

Lemma tcp_events_ok x e now ev p : ctl_ok x e -> caught_up e -> ev <> EventStartClose -> pk_FromSessNonce p = nonce (other x) ->
  ((rank (state e) < 3)%nat -> rv_RemoteSessNonce (ep_rcv e) = [] \/ (ev = EventSyn /\ state e = Listen)) ->
  (tcp_events 3 e now ev p = None /\ refused e) \/
  exists e', tcp_events 3 e now ev p = Some e' /\ ctl_ok x e' /\ open_ok e' /\ calm e e' /\
    (rank (state e) <= rank (state e'))%nat /\
    (state e' = Established -> state e = Established \/ ev = EventSynAck \/ ev = EventEstabAck \/
       (ev = EventKeepAlive /\ pk_FromTcpState p = Established)).
Proof.
  intros Hc Hu Hev Hp Hopen. rewrite tcp_events_unfold.
  pose proof (tcp_once x e now ev p Hc Hu Hev Hp Hopen) as H1.
  pose proof (UpdateTcp_rank (state e) ev (pk_FromTcpState p)) as Hrank.
  pose proof (UpdateTcp_established (state e) ev (pk_FromTcpState p)) as Hest.
  destruct (UpdateTcp (state e) ev (pk_FromTcpState p)) as [st act] eqn:Eu. cbn [fst] in Hrank, Hest.
  destruct H1 as [(E1 & Hr & _)|(e1 & evn & E1 & Hc1 & Hcalm1 & Hst1 & Hn1 & Hnext)]; rewrite E1; [by left|right].
  assert (Hle : (rank (state e) <= rank st)%nat) by (destruct Hrank as [->|?]; lia).
  destruct Hnext as [->|[-> Hfin]].
  - rewrite decide_True by done. exists e1. rewrite Hst1. split_and!; try done.
    unfold open_ok. rewrite Hst1. intros Hlt. destruct (Hn1 Hlt) as [-> Hs].
    destruct Hopen as [?|[-> HL]]; [by rewrite <- Hs|done|]. rewrite HL in Eu. injection Eu as <- _. cbn in Hlt. lia.
  - rewrite decide_False by done. rewrite tcp_events_unfold, Hst1, Hfin. rewrite Hfin in Hst1, Hle. cbn [UpdateTcp].
    pose proof (tcp_once x e1 now EventApplicationClosed p Hc1) as H2. rewrite Hst1 in H2. cbn [UpdateTcp] in H2.
    destruct H2 as [(_ & _ & H2)|(e2 & evn2 & E2 & Hc2 & Hcalm2 & Hst2 & Hn2 & Hnext2)]; [by eapply calm_caught_up|done|done|cbn; lia|congruence|].
    rewrite E2. destruct Hnext2 as [->|[_ ?]]; [|done]. rewrite decide_True by done.
    exists e2. rewrite Hst2. split_and!; try done.
    + unfold open_ok. rewrite Hst2. cbn. lia.
    + by eapply calm_trans.
    + etrans; [exact Hle|]. cbn. lia.
Qed.

(** ** Packets that arrive *)

(** An end, with the payloads [Do] of the other one and the bytes it handed
    over. *)
Record end_ok (x : side) (Do : list bytes) (out : bytes) (base : nat) (e : endpoint) : Prop := {
  eo_ctl : ctl_ok x e;
  eo_open : open_ok e;
  eo_rcv : exists c n, rcv_ok Do out c n (ep_rcv e);
  eo_snd : snd_ok (sent e) base (live size base (length (sent e))) (ep_snd e);
}.

(** What no event takes back. *)
Definition advances (e e' : endpoint) : Prop :=
  consumed e <= consumed e' /\ (rank (state e) <= rank (state e'))%nat /\ exists D, sent e' = sent e ++ D.

Lemma lock_on_same r p :
  core (lock_on r p) = core r /\ rv_TcpState (lock_on r p) = rv_TcpState r /\ rv_LocalSessNonce (lock_on r p) = rv_LocalSessNonce r.
Proof. unfold lock_on. by destruct (_ && _ && _ && _). Qed.

Lemma lock_on_ok x e p : ctl_ok x e -> open_ok e -> pk_From p = inbox (other x) -> pk_FromSessNonce p = nonce (other x) ->
  let e1 := on_rcv (fun r => lock_on r p) e in
  ctl_ok x e1 /\
  ((rank (state e1) < 3)%nat -> rv_RemoteSessNonce (ep_rcv e1) = [] \/ (pk_TcpEvent p = EventSyn /\ state e1 = Listen)).
Proof.
  intros Hc Ho Hf Hn e1. destruct (lock_on_same (ep_rcv e) p) as (Hcore & Hst & Hl).
  unfold e1, on_rcv, lock_on in *. destruct (_ && _ && _ && _) eqn:E; cbn [state ep_rcv set_rcv].
  - rewrite !andb_true_iff, orb_true_iff, !bool_decide_eq_true in E. destruct E as [[[Es Et] Er] _].
    split; [destruct Hc; split; try done; cbn; rewrite ?Hf, ?Hn; auto|].
    intros _. right. split; [done|]. destruct Et as [Et|Et]; [|done].
    destruct (co_state _ _ Hc) as [Hx _]. done.
  - split; [by destruct Hc; split|]. intros Hlt. left. by apply Ho.
Qed.

(** The fields of the receiver that [ctl_ok] looks at. *)
Definition rcv_ctl (r : RecvState) :=
  (rv_Inbox r, rv_RemoteInbox r, rv_RecvWindowSize r, rv_LocalSessNonce r, rv_RemoteSessNonce r, rv_TcpState r, rv_retry r,
   rv_connReqPending r, rv_LastAvailReaderMsgCap r, rv_LastFrameClientConsumed r).

Lemma ctl_ok_rcv x e r lfcc : ctl_ok x e -> rcv_ctl r = rcv_ctl (ep_rcv e) -> 0 <= lfcc <= consumed e ->
  ctl_ok x (MkEndpoint r (set_sd_recvLastFrameClientConsumed lfcc (ep_snd e))).
Proof.
  intros [] E Hl. unfold rcv_ctl in E. injection E as E1 E2 E3 E4 E5 E6 E7 E8 E9 E10.
  unfold state, consumed in *. split; unfold state, consumed; cbn; rewrite ?E1, ?E2, ?E3, ?E4, ?E5, ?E6, ?E7, ?E8, ?E9, ?E10; done.
Qed.

Lemma ctl_ok_set_rcv x e r : ctl_ok x e -> rcv_ctl r = rcv_ctl (ep_rcv e) -> ctl_ok x (set_rcv r e).
Proof.
  intros Hc E. pose proof (ctl_ok_rcv x e r (sd_recvLastFrameClientConsumed (ep_snd e)) Hc E) as H.
  destruct (ep_snd e) eqn:Es. unfold set_rcv. rewrite Es. apply H. pose proof (cs_lfcc _ _ Hc) as Hl. by rewrite Es in Hl.
Qed.

Lemma in_order_ctl fuel : forall r r', in_order fuel r = Some r' ->
  rcv_ctl r' = rcv_ctl r /\ rv_LastMsgConsumed r' = rv_LastMsgConsumed r /\ rv_LargestSeqnoRcvd r' = rv_LargestSeqnoRcvd r.
Proof.
  induction fuel as [|fuel IH]; intros r r' E; [done|]. cbn [in_order] in E.
  destruct (rxq_index r (rv_NextFrameExpected r)) as [i|]; [|done]. cbn [mbind option_bind] in E.
  destruct (rv_Rxq r !! i) as [[[] [p|]]|]; cbn [mbind option_bind] in E; try done; [|by injection E as <-..].
  apply IH in E as (E1 & E2 & E3). rewrite E1, E2, E3. done.
Qed.

(** What a data packet leaves alone. *)
Definition same_ctl (e e' : endpoint) : Prop :=
  state e' = state e /\ consumed e' = consumed e /\ rv_RemoteSessNonce (ep_rcv e') = rv_RemoteSessNonce (ep_rcv e).

Lemma rcv_ctl_same e e' : rcv_ctl (ep_rcv e') = rcv_ctl (ep_rcv e) -> same_ctl e e'.
Proof. unfold rcv_ctl, same_ctl, state, consumed. intros E. split_and!; congruence. Qed.

Lemma recv_data_ctl x e now p e' : ctl_ok x e -> caught_up e -> 0 <= consumed e -> recv_data e now p = Some e' ->
  ctl_ok x e' /\ same_ctl e e'.
Proof.
  intros Hc Hu H0 E. unfold recv_data in E.
  set (r := if (_ <=? _) then _ else _) in E.
  assert (Hr : rcv_ctl r = rcv_ctl (ep_rcv e)) by (unfold r; by destruct (_ <=? _)).
  assert (Hur : caught_up (set_rcv r e)) by (unfold r, caught_up, set_rcv in *; by destruct (_ <=? _)).
  pose proof (ctl_ok_set_rcv x e r Hc Hr) as Hcr.
  destruct (rxq_index r (pk_SeqNum p)) as [i|]; [|done]. cbn [mbind option_bind] in E.
  destruct (negb _).
  - injection E as <-. split.
    + apply ack_ok; [by destruct Hcr; split|done| |by left; left]. done.
    + pose proof (rcv_ctl_same e (set_rcv r e) Hr) as (H1 & H2 & H3). by split_and!.
  - destruct (_ =? _).
    + set (q := set_rv_Rxq _ r) in E. destruct (in_order _ q) as [r'|] eqn:Ei; [|done]. cbn [mbind option_bind] in E.
      injection E as <-. apply in_order_ctl in Ei as (E1 & _).
      assert (E2 : rcv_ctl r' = rcv_ctl (ep_rcv e)) by (by rewrite E1). split; [|by apply rcv_ctl_same].
      apply ctl_ok_rcv; [done|done|]. unfold rcv_ctl, consumed in *. split; by injection E2 as _ _ _ _ _ _ _ _ _ ->.
    + injection E as <-. split; [|by apply rcv_ctl_same]. apply (ctl_ok_set_rcv x (set_rcv r e) _ Hcr). done.
Qed.

Lemma recv_data_snd e now p e' : recv_data e now p = Some e' -> snd_core (ep_snd e') = snd_core (ep_snd e).
Proof.
  unfold recv_data. intros E. set (r := if (_ <=? _) then _ else _) in E.
  destruct (rxq_index r (pk_SeqNum p)) as [i|]; [|done]. cbn [mbind option_bind] in E.
  destruct (negb _); [by injection E as <-|]. destruct (_ =? _); [|by injection E as <-].
  destruct (in_order _ _); [|done]. by injection E as <-.
Qed.

(** A SYN that is locked onto is also wanted. *)
Lemma lock_on_wanted x D lfcc st e p : ctl_ok x e -> packet_ok (other x) D lfcc st p ->
  lock_on (ep_rcv e) p = ep_rcv e \/ wanted Blake2bOfBytes (lock_on (ep_rcv e) p) p = true.
Proof.
  intros Hc Hp. unfold lock_on. destruct (_ && _ && _ && _) eqn:E; [|by left]. right.
  rewrite !andb_true_iff, orb_true_iff, !bool_decide_eq_true in E. destruct E as [[[Es Et] Er] Hne].
  destruct Hp as [_ _ _ _ _ _ Hctl _ Hsyn _ _]. destruct Hctl as (_ & _ & Hd); [by rewrite Es|].
  unfold wanted. cbn. rewrite Hd, (Hsyn Es). cbn.
  rewrite (bool_decide_eq_false_2 (pk_From p <> pk_From p)) by (by intros []).
  rewrite (bool_decide_eq_false_2 (pk_FromSessNonce p <> pk_FromSessNonce p)) by (by intros []).
  rewrite !andb_false_r. cbn. destruct Et as [Et|Et]; rewrite Et; done.
Qed.

Lemma gotPack_end x base e p lfcc : ctl_ok x e -> 0 <= consumed e ->
  snd_ok (sent e) base (live size base (length (sent e))) (ep_snd e) ->
  pk_AckNum p <= lfcc -> pk_AvailReaderMsgCap p <= size ->
  exists s' base', gotPack (ep_snd e) p = Some s' /\ ctl_ok x (set_snd s' e) /\
    snd_ok (sent e) base' (live size base' (length (sent e))) s' /\ sent (set_snd s' e) = sent e /\ (base <= base')%nat /\
    Z.of_nat base' <= Z.max (Z.of_nat base) (lfcc + 1).
Proof.
  intros Hc H0 Hs Hack Hcap. pose proof (cs_size _ _ Hc) as Hsz.
  rewrite <- Hsz in Hs. destruct (gotPack_ok _ _ _ p Hs) as (s' & base' & E & Hs' & Hb & Hmax & Hseen & Hctl & Hflow).
  assert (Hw : sd_SenderWindowSize s' = size) by (unfold snd_ctl in Hctl; congruence). rewrite Hw in Hs'.
  exists s', base'. split_and!; [done| |done| |done|lia].
  - destruct Hc. unfold snd_ctl in Hctl. injection Hctl as C1 C2 C3 C4 C5 C6 C7.
    split; unfold set_snd, state, consumed in *; cbn; rewrite ?C1, ?C2, ?C3, ?C4, ?C5, ?C6, ?Hflow, ?Hseen; done.
  - unfold sent. cbn. apply (so_sent _ _ _ _ Hs').
Qed.

(** Tracking a packet of the other end, up to the flow control. *)
Lemma track_end x Do out c n lo so e p : ctl_ok x e -> rcv_ok Do out c n (ep_rcv e) -> packet_ok (other x) Do lo so p ->
  exists r, track_seq (ep_rcv e) p = Some r /\ rcv_ok Do out c n r /\ rcv_ctl r = rcv_ctl (ep_rcv e) /\
    (pk_TcpEvent p = EventData -> pk_SeqNum p <= rv_LargestSeqnoRcvd r).
Proof.
  intros Hc Hr Hp. assert (Hctl : forall r, track_seq (ep_rcv e) p = Some r -> rcv_ctl r = rcv_ctl (ep_rcv e)).
  { intros r. unfold track_seq. destruct (_ <? _); [destruct (_ <? _); [done|]|]; cbn [mbind option_bind];
      (destruct (_ <? _); [done|]); by intros [= <-]. }
  destruct (decide (pk_TcpEvent p = EventData)) as [Hd|Hd].
  - destruct (track_seq_data _ _ _ _ _ _ Hr (po_data _ _ _ _ _ Hp Hd)) as (r & E & Hr' & Hl). exists r. auto.
  - destruct (po_ctl _ _ _ _ _ Hp Hd) as (H1 & H2 & _). pose proof (track_seq_control _ _ _ _ _ _ Hr H1 H2) as E.
    exists (ep_rcv e). split_and!; auto. done.
Qed.

Lemma recv_packet_ok x Do out base e now p lo so : end_ok x Do out base e -> packet_ok (other x) Do lo so p ->
  (recv_packet Blake2bOfBytes e now p = None /\ refused e) \/
  exists e' stop base', recv_packet Blake2bOfBytes e now p = Some (e', stop) /\ end_ok x Do out base' e' /\ advances e e' /\
    (base <= base')%nat /\ Z.of_nat base' <= Z.max (Z.of_nat base) (lo + 1) /\
    (state e' = Established -> state e = Established \/ (3 <= rank so)%nat).
Proof.
  intros [Hc Ho (c & n & Hr) Hs] Hp. unfold recv_packet.
  destruct (lock_on_ok x e p Hc Ho (po_from _ _ _ _ _ Hp) (po_nonce _ _ _ _ _ Hp)) as [Hc1 Ho1].
  destruct (lock_on_same (ep_rcv e) p) as (Hcore & Hst & _).
  pose proof (lock_on_wanted x _ _ _ e p Hc Hp) as Hlw.
  set (e1 := on_rcv (fun r => lock_on r p) e) in *.
  assert (Hs1 : state e1 = state e) by exact Hst.
  assert (Hr1 : rcv_ok Do out c n (ep_rcv e1)) by (by eapply rcv_ok_core; [exact Hcore|]).
  assert (Hcn1 : consumed e1 = consumed e) by (unfold consumed, core in *; cbn; congruence).
  destruct (wanted Blake2bOfBytes (ep_rcv e1) p) eqn:Ew; cbn [negb].
  2:{ destruct Hlw as [Hlw|Hlw]; [|change (ep_rcv e1) with (lock_on (ep_rcv e) p) in Ew; congruence].
      assert (He1 : e1 = e) by (unfold e1, on_rcv, set_rcv; rewrite Hlw; by destruct e). rewrite He1.
      right. exists e, false, base. split_and!; [done| |by split_and!; [lia|lia|exists []; by rewrite app_nil_r]|lia|lia|by left].
      split; [done|done|eauto|done]. }
  set (q := set_pk_ArrivedAtDestTm now p).
  assert (Hq : packet_ok (other x) Do lo so q) by (destruct Hp as [? ? ? ? ? Hd]; split; try done; intros Hev; destruct (Hd Hev); by split).
  destruct (track_end x Do out c n lo so e1 q Hc1 Hr1 Hq) as (r & Et & Hr2 & Hctl2 & Hlarge).
  cbv zeta. fold q. rewrite Et. cbn [mbind option_bind].
  pose proof (ctl_ok_set_rcv x e1 r Hc1 Hctl2) as Hc2.
  set (e2 := UpdateControl (set_rcv r e1)).
  assert (Hc3 : ctl_ok x e2) by (apply UpdateControl_ok; [done|exact (rcv_ok_caught_up _ _ _ _ (set_rcv r e1) Hr2)]).
  assert (Hr3 : rcv_ok Do out c n (ep_rcv e2)) by (by eapply rcv_ok_core; [|exact Hr2]).
  assert (Hsent2 : sent e2 = sent e) by done.
  assert (Hsame2 : same_ctl e1 e2) by (destruct (rcv_ctl_same e1 (set_rcv r e1) Hctl2) as (? & ? & ?); by split_and!).
  destruct (gotPack_end x base e2 (CopyPacketSansData q) lo Hc3) as (s' & base' & Eg & Hc4 & Hs4 & Hsent4 & Hb & Hmax);
    [exact (rcv_ok_lfcc _ _ _ _ _ Hr3)|by eapply snd_ok_core; [|exact Hs]|apply Hp|apply Hp|].
  rewrite Eg. cbn [mbind option_bind]. set (e3 := set_snd s' e2) in *.
  assert (Hsame3 : same_ctl e1 e3) by exact Hsame2. destruct Hsame3 as (Hst3 & Hcn3 & Hn3).
  assert (Hu3 : caught_up e3) by exact (rcv_ok_caught_up _ _ _ _ e3 Hr3).
  destruct (decide (pk_TcpEvent q <> EventData)) as [Hd|Hd].
  - destruct (tcp_events_ok x e3 now (pk_TcpEvent q) q Hc4 Hu3) as [[E4 Href]|(e4 & E4 & Hc5 & Ho5 & [Hcr Hcs] & Hrk & Hest)];
      [apply Hq|apply Hq|rewrite Hst3, Hn3; exact Ho1|rewrite E4; left; split; [done|]|].
    { revert Href. unfold refused. change (rv_connReqPending (ep_rcv e3)) with (rv_connReqPending r).
      injection Hctl2 as _ _ _ _ _ _ _ -> _ _. cbn. unfold lock_on. by destruct (_ && _ && _ && _). }
    right. rewrite E4. cbn [mbind option_bind]. eexists e4, _, base'.
    assert (Hse : sent e4 = sent e) by (rewrite (calm_sent e3 e4) by done; by rewrite Hsent4).
    split_and!; [done| | |done|done|].
    + split; [done|done|exists c, n; by eapply rcv_ok_core; [|exact Hr3]|].
      rewrite Hse. eapply snd_ok_core; [exact Hcs|]. exact Hs4.
    + split_and!; [rewrite (calm_consumed e3 e4) by done; rewrite Hcn3, Hcn1; lia|by rewrite <- Hs1, <- Hst3|exists []; by rewrite app_nil_r].
    + intros HE. destruct (Hest HE) as [He|Hev]; [left; congruence|right].
      destruct Hev as [Hev|[Hev|[Hev Hfr]]]; [apply (po_est _ _ _ _ _ Hq); auto..|].
      pose proof (po_keep _ _ _ _ _ Hq Hev Hfr). lia.
  - apply dec_stable in Hd. pose proof (po_data _ _ _ _ _ Hq Hd) as Hcar.
    destruct (recv_data_ok Do out c n e3 now q Hr3 Hcar (Hlarge Hd)) as (e4 & n' & E4 & Hr4).
    rewrite E4. cbn [mbind option_bind].
    destruct (recv_data_ctl x e3 now q e4 Hc4 Hu3 (rcv_ok_lfcc _ _ _ _ _ Hr3) E4) as (Hc5 & Hst5 & Hcn5 & Hn5).
    pose proof (recv_data_snd e3 now q e4 E4) as Hcs.
    assert (Hse : sent e4 = sent e) by (unfold sent, snd_core in *; cbn in *; congruence).
    right. exists e4, false, base'. split_and!; [done| | |done|done|by left; congruence].
    + split; [done| |by eauto|rewrite Hse; eapply snd_ok_core; [exact Hcs|exact Hs4]].
      unfold open_ok. rewrite Hst5, Hn5, Hst3, Hn3. intros Hlt. destruct (Ho1 Hlt) as [?|[Hsyn _]]; [done|].
      change (pk_TcpEvent q) with (pk_TcpEvent p) in Hd. congruence.
    + split_and!; [lia|by rewrite Hst5, Hst3, Hs1|exists []; by rewrite app_nil_r].
Qed.

(** ** The other events *)

Lemma advances_refl e : advances e e.
Proof. split_and!; [lia|lia|exists []; by rewrite app_nil_r]. Qed.

Lemma loop_top_ok x Do out base e : end_ok x Do out base e ->
  end_ok x Do out base (on_rcv loop_top e) /\ advances e (on_rcv loop_top e) /\ state (on_rcv loop_top e) = state e /\
  (rv_ReadyForDelivery (ep_rcv e) <> [] -> rv_delivery (ep_rcv (on_rcv loop_top e)) = rv_ReadyForDelivery (ep_rcv e)) /\
  rv_ReadyForDelivery (ep_rcv (on_rcv loop_top e)) = rv_ReadyForDelivery (ep_rcv e).
Proof.
  intros [Hc Ho (c & n & Hr) Hs].
  assert (Hctl : rcv_ctl (loop_top (ep_rcv e)) = rcv_ctl (ep_rcv e)) by (unfold loop_top; by destruct (rv_ReadyForDelivery (ep_rcv e))).
  assert (Hcore : core (loop_top (ep_rcv e)) = core (ep_rcv e)) by (unfold loop_top; by destruct (rv_ReadyForDelivery (ep_rcv e))).
  pose proof (rcv_ctl_same e (on_rcv loop_top e) Hctl) as (H1 & H2 & H3).
  split_and!; [|split_and!; [lia|by rewrite H1|exists []; by rewrite app_nil_r]|done| |].
  - split; [by apply ctl_ok_set_rcv|unfold open_ok; by rewrite H1, H3|exists c, n; by eapply rcv_ok_core|done].
  - intros Hne. cbn. unfold loop_top. by destruct (rv_ReadyForDelivery (ep_rcv e)).
  - cbn. unfold loop_top. by destruct (rv_ReadyForDelivery (ep_rcv e)) eqn:E.
Qed.

(** The application has consumed more. *)
Lemma ctl_ok_consume x e r : ctl_ok x e -> consumed e <= rv_LastFrameClientConsumed r -> untouched (ep_rcv e) r ->
  ctl_ok x (set_rcv r e).
Proof.
  intros [] Hl E. unfold untouched in E. injection E as E1 E2 E3 E4 E5 E6 E7 E8 E9 E10.
  unfold state, consumed in *. split; unfold state, consumed; cbn; rewrite ?E1, ?E2, ?E3, ?E4, ?E5, ?E6, ?E7, ?E8, ?E10; try done.
  - lia.
  - eapply queue_later; [| |exact cs_queue0]; done.
Qed.

(** An ack for what was consumed. *)
Lemma consume_end x Do out out' base e r c c' n n' now pack : end_ok x Do out base e ->
  rcv_ok Do out c n (ep_rcv e) -> rcv_ok Do out' c' n' r -> (c <= c')%nat -> untouched (ep_rcv e) r ->
  let e1 := set_rcv r e in
  let e2 := ack e1 now (rv_LastFrameClientConsumed r) (Some pack) EventDataAck in
  (end_ok x Do out' base e1 /\ advances e e1 /\ state e1 = state e) /\ (end_ok x Do out' base e2 /\ advances e e2 /\ state e2 = state e).
Proof.
  intros [Hc Ho _ Hs] Hr Hr' Hcc Hu e1 e2.
  assert (Hl : consumed e <= rv_LastFrameClientConsumed r).
  { unfold consumed. rewrite (ro_frame _ _ _ _ _ Hr), (ro_frame _ _ _ _ _ Hr'). lia. }
  assert (Hst : state e1 = state e) by (unfold untouched, state in *; cbn; congruence).
  assert (Hn : rv_RemoteSessNonce (ep_rcv e1) = rv_RemoteSessNonce (ep_rcv e)) by (unfold untouched in *; cbn; congruence).
  assert (Hc1 : ctl_ok x e1) by (by apply ctl_ok_consume).
  assert (Hc2 : ctl_ok x e2).
  { apply ack_ok; [done|exact (rcv_ok_caught_up _ _ _ _ e1 Hr')|done|by left; left]. }
  split; (split_and!; [|split_and!; [done|by rewrite <- Hst|exists []; by rewrite app_nil_r]|done]).
  - split; [done|unfold open_ok; by rewrite Hst, Hn|by eauto|done].
  - split; [done|unfold open_ok, state in *; cbn in *; by rewrite Hst, Hn|exists c', n'; by eapply rcv_ok_core; [|exact Hr']|
      by eapply snd_ok_core; [|exact Hs]].
Qed.

(** The variable of the loop does not matter. *)
Lemma delivery_ok x Do out base e e1 d : end_ok x Do out base e1 /\ advances e e1 /\ state e1 = state e ->
  end_ok x Do out base (on_rcv (set_rv_delivery d) e1) /\ advances e (on_rcv (set_rv_delivery d) e1) /\
  state (on_rcv (set_rv_delivery d) e1) = state e.
Proof.
  intros ([Hc Ho (c & n & Hr) Hs] & Ha & Hst). split_and!; [|exact Ha|exact Hst].
  split; [by destruct Hc; split|exact Ho|exists c, n; by eapply rcv_ok_core; [|exact Hr]|exact Hs].
Qed.

Lemma deliver_ok x Do out base e now : end_ok x Do out base e ->
  (rv_ReadyForDelivery (ep_rcv e) <> [] -> rv_delivery (ep_rcv e) = rv_ReadyForDelivery (ep_rcv e)) ->
  exists e' ps, deliver e now = Some (e', ps) /\ end_ok x Do (out ++ (ps ≫= unread)) base e' /\ advances e e' /\ state e' = state e.
Proof.
  intros He Hd. pose proof He as [_ _ (c & n & Hr) _]. unfold deliver.
  destruct (rv_ReadyForDelivery (ep_rcv e)) as [|p0 ps0] eqn:Er.
  { exists e, []. simpl. rewrite app_nil_r. split_and!; [done|done|apply advances_refl|done]. }
  rewrite Hd by done. rewrite <- Er. destruct (last (rv_ReadyForDelivery (ep_rcv e))) as [lp|] eqn:El.
  2:{ apply last_None in El. congruence. }
  destruct (rcv_ok_consume_all Do out c n (ep_rcv e)
    (foldl (fun m p => delete (pk_SeqNum p) m) (rv_RcvdButNotConsumed (ep_rcv e)) (rv_ReadyForDelivery (ep_rcv e)))
    (pk_CumulBytesTransmitted lp) lp Hr El) as [_ Hr'].
  assert (Hcn : (c <= n)%nat) by (clear -Hr; pose proof (ro_consumed _ _ _ _ _ Hr); lia).
  destruct (consume_end x Do out _ base e _ c n n n now lp He Hr Hr' Hcn) as [_ He2]; [done|].
  set (r' := set_rv_LastFrameClientConsumed _ _) in *. cbv zeta in He2.
  change (rv_LastFrameClientConsumed r') with (pk_SeqNum lp) in *.
  eexists _, _. split; [reflexivity|]. by apply delivery_ok.
Qed.

Lemma read_ok x Do out base e now lenp e' got : end_ok x Do out base e -> read e now lenp = (e', got) ->
  end_ok x Do (out ++ got) base e' /\ advances e e' /\ state e' = state e.
Proof.
  intros He E. unfold read in E. pose proof He as [_ _ (c & n & Hr) _].
  destruct (decide _); [injection E as <- <-; rewrite app_nil_r; split_and!; [done|apply advances_refl|done]|].
  destruct (decide _); [injection E as <- <-; rewrite app_nil_r; split_and!; [done|apply advances_refl|done]|].
  destruct (fill _ _ _ _) as [[r g] lp] eqn:Ef.
  destruct (fill_ok _ _ _ _ _ _ _ _ _ _ _ Hr eq_refl Ef) as (c' & Hr' & Hcc & Hu).
  destruct lp as [pk|]; injection E as <- <-.
  - by apply (consume_end x Do out (out ++ g) base e r c c' n n now pk He Hr Hr' Hcc Hu).
  - by apply (consume_end x Do out (out ++ g) base e r c c' n n now zero_packet He Hr Hr' Hcc Hu).
Qed.

(** What an event makes of an end and sends. *)
Definition outcome (x : side) (Do : list bytes) (out : bytes) (base : nat) (e e' : endpoint) (ps : list Packet) : Prop :=
  end_ok x Do out base e' /\ advances e e' /\ Forall (packet_ok x (sent e') (consumed e') (state e')) ps.

Lemma connect_ok x Do out base e ok e' ps : 0 <= size -> end_ok x Do out base e -> connect e (inbox (other x)) ok = (e', ps) ->
  outcome x Do out base e e' ps /\ (state e' = Established -> state e = Established).
Proof.
  intros Hz He E. pose proof He as [Hc Ho (c & n & Hr) Hs]. unfold connect in E.
  destruct (_ && _); [injection E as <- <-; split; [split_and!; [done|apply advances_refl|done]|done]|].
  set (r := if decide _ then _ else _) in E.
  assert (Hrr : core r = core (ep_rcv e) /\ rv_TcpState r = state e /\ rv_RemoteSessNonce r = rv_RemoteSessNonce (ep_rcv e) /\
    rv_Inbox r = inbox x /\ rv_LocalSessNonce r = nonce x).
  { destruct Hc. unfold r. destruct (decide _); by split_and!. }
  destruct Hrr as (Hcore & Hst & Hn & Hin & Hlo).
  assert (Hcr : ctl_ok x (set_rcv r e)).
  { unfold r. destruct (decide _); [|by destruct Hc; split]. destruct Hc. split; try done. by right. }
  assert (Her : end_ok x Do out base (set_rcv r e)).
  { split; [done|unfold open_ok, state; cbn; rewrite Hst, Hn; exact Ho|exists c, n; by eapply rcv_ok_core|done]. }
  assert (Hcn : rv_LastFrameClientConsumed r = consumed e) by (unfold core, consumed in *; congruence).
  assert (Har : advances e (set_rcv r e)).
  { split_and!; [unfold consumed at 2; cbn; lia|unfold state at 2; cbn; by rewrite Hst|exists []; by rewrite app_nil_r]. }
  clearbody r. destruct (_ && _) eqn:Es; injection E as <- <-.
  - split; [by split_and!|]. unfold state at 1. cbn. by rewrite Hst.
  - rewrite andb_false_iff, !negb_false_iff, !bool_decide_eq_true, Hst in Es.
    assert (Hrank : (rank (state e) <= 2)%nat) by (destruct Es as [->| ->]; cbn; lia).
    split; [|done]. pose proof (rcv_ok_lfcc _ _ _ _ _ Hr) as H0. split_and!.
    + split; [|unfold open_ok; intros _; cbn; rewrite Hn; apply Ho; lia|exists c, n; by eapply rcv_ok_core; [|exact Hr]|done].
      destruct Hcr. split; try done. cbn. eapply queue_later; [| |exact cs_queue0]; [done|].
      unfold state. cbn. rewrite Hst. done.
    + split_and!; [unfold consumed at 2; cbn; lia|done|exists []; by rewrite app_nil_r].
    + destruct ok; [|done]. constructor; [|done]. split; cbn; try done; try lia; auto.
      * unfold consumed. cbn. rewrite Hcn. exact H0.
      * by intros [].
Qed.

(** The sender changes its own bookkeeping only. *)
Lemma snd_end x Do out base base' e s : end_ok x Do out base e -> snd_ctl s = snd_ctl (ep_snd e) ->
  fl_AvailReaderMsgCap (sd_FlowCt s) <= size -> sd_LastSeenAvailReaderMsgCap s <= size ->
  snd_ok (sent (set_snd s e)) base' (live size base' (length (sent (set_snd s e)))) s ->
  end_ok x Do out base' (set_snd s e).
Proof.
  intros [Hc Ho Hr Hs] E Hf Hl Hs'. split; [|done|done|done]. destruct Hc. unfold snd_ctl in E.
  injection E as C1 C2 C3 C4 C5 C6 C7.
  split; unfold set_snd, state, consumed in *; cbn; rewrite ?C1, ?C2, ?C3, ?C4, ?C5, ?C6; done.
Qed.

Lemma same_rcv_advances e s D : sent (set_snd s e) = sent e ++ D -> advances e (set_snd s e).
Proof. intros E. split_and!; [done|done|eauto]. Qed.

Lemma keepalive_ok x Do out base e now s ps : 0 <= size -> end_ok x Do out base e ->
  doKeepAlive (ep_snd e) now (state e) = (s, ps) -> outcome x Do out base e (set_snd s e) ps.
Proof.
  intros Hz He E. pose proof He as [Hc Ho Hr Hs]. unfold doKeepAlive in E. rewrite UpdateFlow_query in E.
  assert (Hid : set_snd (ep_snd e) e = e) by by destruct e.
  destruct (_ || _); [injection E as <- <-; rewrite Hid; split_and!; [done|apply advances_refl|done]|].
  destruct (_ <? _); [injection E as <- <-; rewrite Hid; split_and!; [done|apply advances_refl|done]|].
  injection E as <- <-. pose proof Hc as []. split_and!.
  - eapply snd_end; [exact He|done|done|done|]. by eapply snd_ok_core; [|exact Hs].
  - apply (same_rcv_advances _ _ []). by rewrite app_nil_r.
  - constructor; [|done]. split; cbn; try done; try lia; try (by intros []).
    + apply cs_lfcc0.
    + intros _ Est. change (4 <= rank (state e))%nat. by rewrite Est.
Qed.

Lemma closing_ok x Do out base e now s ps : 0 <= size -> end_ok x Do out base e ->
  doSendClosing (ep_snd e) now = (s, ps) -> outcome x Do out base e (set_snd s e) ps.
Proof.
  intros Hz He E. pose proof He as [Hc Ho (c & n & Hr) Hs]. unfold doSendClosing in E. rewrite UpdateFlow_query in E.
  injection E as <- <-. pose proof Hc as []. pose proof (rcv_ok_lfcc _ _ _ _ _ Hr). split_and!.
  - eapply snd_end; [exact He|done|done|done|]. by eapply snd_ok_core; [|exact Hs].
  - apply (same_rcv_advances _ _ []). by rewrite app_nil_r.
  - constructor; [|done]. split; cbn; try done; try lia; try (by intros []).
Qed.

(** A packet of data on the network. *)
Lemma data_out_packet x Do out base e e' D p : end_ok x Do out base e -> consumed e' = consumed e ->
  data_out (ep_snd e) D p -> packet_ok x D (consumed e') (state e') p.
Proof.
  intros [Hc _ (c & n & Hr) _] Hcn [[Hcar Hev Hf Hd Ha] Hno Hcap]. pose proof Hc as [].
  pose proof (rcv_ok_lfcc _ _ _ _ _ Hr) as H0. fold (consumed e) in H0.
  split; rewrite ?Hf, ?Hd, ?Hev, ?Hno, ?Hcap, ?Ha; try done; try lia; by intros [].
Qed.

Lemma inflight_count s : (ComputeInflight s).2 = Z.of_nat (length (sd_ByDeadline s)).
Proof.
  unfold ComputeInflight. enough (forall l a b, (foldl (fun '(b, m) j => (b + slot_len (sd_Txq s) j, m + 1)) (a, b) l).2 = b + Z.of_nat (length l))
    as -> by done.
  induction l as [|j l IH]; intros a b; simpl; [lia|]. rewrite IH. lia.
Qed.

Lemma push_ok x Do out base e now dur data s p : end_ok x Do out base e -> can_send (ep_snd e) = true ->
  doOrigDataSend Blake2bOfBytes (ep_snd e) now dur (data_packet (ep_snd e) data) = (s, p) ->
  outcome x Do out base e (set_snd s e) [p] /\ sent (set_snd s e) = sent e ++ [data].
Proof.
  intros He Hcan E. pose proof He as [Hc Ho Hr Hs]. pose proof (cs_size _ _ Hc) as Hsz. pose proof (cs_seen _ _ Hc) as Hseen.
  assert (Hroom : Z.of_nat (length (sent e)) - Z.of_nat base < sd_SenderWindowSize (ep_snd e)).
  { unfold can_send in Hcan. pose proof (inflight_count (ep_snd e)) as Hi. destruct (ComputeInflight _) as [bi mi]. cbn in Hi.
    rewrite andb_true_iff, !Z.ltb_lt in Hcan. destruct Hcan as [Hm _].
    pose proof (to_deadline _ _ (so_trees _ _ _ _ Hs)) as Hp. apply Permutation_length in Hp.
    unfold live in Hp. rewrite length_fmap, length_seq in Hp. pose proof (so_base _ _ _ _ Hs). lia. }
  rewrite <- Hsz in Hs.
  destruct (doOrigDataSend_ok Blake2bOfBytes _ base _ now dur data s p Hs Hroom E) as (Hs' & Hown & Hn & Hcap & Hctl & Hflow & Hls).
  assert (Hw : sd_SenderWindowSize s = size) by (unfold snd_ctl in Hctl; congruence). rewrite Hw in Hs'.
  assert (Hsent : sent (set_snd s e) = sent e ++ [data]) by (apply (so_sent _ _ _ _ Hs')).
  split; [|done]. split_and!.
  - eapply snd_end; [exact He|exact Hctl| | |by rewrite Hsent]; [rewrite Hflow|rewrite Hls]; by destruct Hc.
  - by eapply same_rcv_advances.
  - constructor; [|done]. rewrite Hsent. eapply data_out_packet; [exact He|done|]. by split.
Qed.

Lemma wakeup_end x Do out base e now clock s ps : end_ok x Do out base e -> wakeup (ep_snd e) now clock = Some (s, ps) ->
  outcome x Do out base e (set_snd s e) ps.
Proof.
  intros He E. pose proof He as [Hc Ho Hr Hs]. pose proof (cs_size _ _ Hc) as Hsz. rewrite <- Hsz in Hs.
  destruct (wakeup_ok _ _ _ _ _ _ _ Hs E) as (Hs' & Hctl & Houts & _). unfold retry_ctl in Hctl. injection Hctl as C1 C2 C3 C4 C5 C6 C7 C8 C9.
  assert (Hsent : sent (set_snd s e) = sent e) by (apply (so_sent _ _ _ _ Hs')). rewrite C3, Hsz in Hs'.
  split_and!.
  - eapply snd_end; [exact He|unfold snd_ctl; congruence| | |by rewrite Hsent]; [rewrite C8|rewrite C9]; by destruct Hc.
  - apply (same_rcv_advances _ _ []). by rewrite app_nil_r.
  - rewrite Hsent. eapply Forall_impl; [exact Houts|]. intros p Hp. by eapply data_out_packet; [exact He| |exact Hp].
Qed.

Lemma sendAck_ok x Do out base e s ps : end_ok x Do out base e -> sendAck (ep_snd e) = (s, ps) ->
  outcome x Do out base e (set_snd s e) ps.
Proof.
  intros He E. pose proof He as [Hc Ho Hr Hs]. unfold sendAck in E.
  destruct (sd_SendAck (ep_snd e)) as [|a acks] eqn:Eq.
  { injection E as <- <-. replace (set_snd (ep_snd e) e) with e by (by destruct e). split_and!; [done|apply advances_refl|done]. }
  injection E as Es <-. pose proof (cs_queue _ _ Hc) as Hq. rewrite Eq in Hq. apply Forall_cons in Hq as [[Ha Hne] Hq].
  assert (Hs' : ctl_ok x (set_snd s e) /\ snd_core s = snd_core (ep_snd e)).
  { destruct (_ && _); subst s; (split; [destruct Hc; by split|done]). }
  destruct Hs' as [Hc' Hcore]. assert (Hsent : sent (set_snd s e) = sent e) by (unfold sent, snd_core in *; cbn; congruence).
  split_and!.
  - split; [done|done|done|]. rewrite Hsent. by eapply snd_ok_core.
  - apply (same_rcv_advances _ _ []). by rewrite app_nil_r.
  - constructor; [|done]. by apply packet_ok_ctl.
Qed.

Lemma end_ok_calm x Do out base e e' : end_ok x Do out base e -> ctl_ok x e' -> open_ok e' -> calm e e' -> end_ok x Do out base e'.
Proof.
  intros [_ _ (c & n & Hr) Hs] Hc Ho Hcalm. pose proof Hcalm as [Hcr Hcs].
  split; [done|done|exists c, n; by eapply rcv_ok_core|]. rewrite (calm_sent _ _ Hcalm). by eapply snd_ok_core.
Qed.

Lemma retryCheck_ok x Do out base e now e' stop : end_ok x Do out base e -> retryCheck e now = Some (e', stop) ->
  end_ok x Do out base e' /\ advances e e' /\ state e' = state e.
Proof.
  intros He E. pose proof He as [Hc Ho (c & n & Hr) Hs]. unfold retryCheck in E.
  assert (Hset : forall e1 t, ctl_ok x e1 -> calm e e1 -> state e1 = state e ->
      ((rank (state e1) < 3)%nat -> rv_RemoteSessNonce (ep_rcv e1) = rv_RemoteSessNonce (ep_rcv e)) ->
      (rt_inUse t = true -> rt_curState t = SynReceived /\ (rt_firstStateAction t = SendSynAck \/ rt_firstStateAction t = SendEstabAck) /\
         exists p, rt_causalPacket t = Some p /\ pk_FromSessNonce p = nonce (other x)) ->
      end_ok x Do out base (on_rcv (set_rv_retry t) e1) /\ advances e (on_rcv (set_rv_retry t) e1) /\ state (on_rcv (set_rv_retry t) e1) = state e).
  { intros e1 t Hc1 Hcalm Hst Hn Ht. split_and!; [|split_and!; [|by rewrite <- Hst|exists []; rewrite app_nil_r; by apply (calm_sent e e1)]|done].
    - eapply end_ok_calm; [exact He|destruct Hc1; by split| |exact Hcalm]. unfold open_ok. intros Hlt.
      change (rv_RemoteSessNonce (ep_rcv e1) = []). rewrite (Hn Hlt). apply Ho. by rewrite <- Hst.
    - change (consumed e <= consumed e1). by rewrite (calm_consumed _ _ Hcalm). }
  pose proof (co_retry _ _ Hc) as Hret.
  destruct (rt_inUse (rv_retry (ep_rcv e))) eqn:Eu; cbn [negb] in E.
  2:{ injection E as <- <-. by apply Hset. }
  destruct (Hret eq_refl) as (Hcur & Hact & p & Hcausal & Hpn).
  destruct (bool_decide _) eqn:Eb; cbn [negb] in E; [|injection E as <- <-; by apply Hset].
  apply bool_decide_eq_true in Eb. rewrite Hcur in Eb.
  destruct (_ <? _); [|injection E as <- <-; by apply Hset].
  destruct (_ <? _); [injection E as <- <-; by apply Hset|].
  destruct (doTcpAction _ _ _ _) as [[e1 evn]|] eqn:Ed; [|done]. injection E as <- <-.
  assert (Hst : state e = SynReceived) by done.
  assert (Hev : forall ev, ev ∈ [EventSynAck; EventEstabAck] -> ack_event SynReceived ev) by (intros ev Hev; by right).
  assert (H1 : ctl_ok x e1 /\ calm e e1 /\ state e1 = state e).
  { rewrite Hcausal in Ed. destruct Hact as [Ha|Ha]; rewrite Ha in Ed; cbn [doTcpAction] in Ed.
    - destruct (_ && _); [done|]. injection Ed as <- _. split_and!; [|by eapply calm_trans; [|apply calm_ack]|done].
      apply ack_ok; [by apply set_rnonce_ok|exact (rcv_ok_caught_up _ _ _ _ e Hr)|done|rewrite <- Hst in Hev; apply Hev; left].
    - destruct (bool_decide _); [done|]. destruct (rv_connReqPending _) as [[]|]; [done| |done]. injection Ed as <- _. split_and!; [|by eapply calm_trans; [|apply calm_ack]|done].
      apply ack_ok; [apply set_nonce_ok; [done|done|by rewrite Hst]|exact (rcv_ok_caught_up _ _ _ _ e Hr)|done|
        rewrite <- Hst in Hev; apply Hev; right; left]. }
  destruct H1 as (Hc1 & Hcalm1 & Hst1). apply Hset; [done|done|done|rewrite Hst1, Hst; cbn; lia|]. cbn. eauto.
Qed.

Lemma advances_trans e1 e2 e3 : advances e1 e2 -> advances e2 e3 -> advances e1 e3.
Proof.
  intros (A1 & A2 & D1 & A3) (B1 & B2 & D2 & B3). split_and!; [lia|lia|]. exists (D1 ++ D2). by rewrite B3, A3, app_assoc.
Qed.

(** ** Any event *)

Definition is_retry_timer (ev : event) : bool := match ev with EvRetryTimer _ => true | _ => false end.

Lemma handle_ok x Do out base e ev lo so : 0 <= size -> end_ok x Do out base e ->
  (forall now p, ev = EvRecv now p -> packet_ok (other x) Do lo so p) ->
  (forall dest ok, ev = EvConnect dest ok -> dest = inbox (other x)) ->
  (is_retry_timer ev = false -> ~ refused e -> handle Blake2bOfBytes e ev <> None) /\
  forall ef, handle Blake2bOfBytes e ev = Some ef -> exists base',
    outcome x Do (out ++ ef_out ef) base' e (ef_end ef) (ef_sent ef) /\ (base <= base')%nat /\
    Z.of_nat base' <= Z.max (Z.of_nat base) (lo + 1) /\
    (state (ef_end ef) = Established -> state e = Established \/ (3 <= rank so)%nat).
Proof.
  intros Hz He0 Hrecv Hconn. destruct (loop_top_ok x Do out base e He0) as (He & Ha0 & Hst0 & Hdel & Hready).
  unfold handle. assert (Hpend : refused (on_rcv loop_top e) -> refused e).
  { unfold refused. cbn. unfold loop_top. by destruct (rv_ReadyForDelivery (ep_rcv e)). }
  set (e1 := on_rcv loop_top e) in *. clearbody e1.
  assert (Hcalm : forall out' e' ps, outcome x Do out' base e1 e' ps -> (state e' = Established -> state e1 = Established) ->
    exists base', outcome x Do out' base' e e' ps /\ (base <= base')%nat /\ Z.of_nat base' <= Z.max (Z.of_nat base) (lo + 1) /\
      (state e' = Established -> state e = Established \/ (3 <= rank so)%nat)).
  { intros out' e' ps (H1 & H2 & H3) H4. exists base. split_and!; [split_and!; [done|by eapply advances_trans|done]|lia|lia|].
    intros H. left. rewrite <- Hst0. auto. }
  assert (Hq : forall out' e', end_ok x Do out' base e' /\ advances e1 e' /\ state e' = state e1 -> outcome x Do out' base e1 e' [] /\
      (state e' = Established -> state e1 = Established)).
  { intros out' e' (H1 & H2 & H3). split; [by split_and!|congruence]. }
  destruct ev as [now p|now|now lenp|dest ok|now|now|now|now dur data|now clock|ok].
  - destruct (recv_packet_ok x Do out base e1 now p lo so He (Hrecv now p eq_refl))
      as [[E Href]|(e' & stop & base' & E & He' & Ha' & Hb & Hmax & Hest)]; rewrite E; cbn [mbind option_bind].
    { split; [|done]. intros _ Hn. by destruct Hn; apply Hpend. }
    split; [done|]. intros ef [= <-]. cbn [ef_end ef_sent ef_out]. rewrite app_nil_r.
    exists base'. rewrite <- Hst0. split_and!; [split_and!; [done|by eapply advances_trans|done]|done|done|done].
  - destruct (deliver_ok x Do out base e1 now He) as (e' & ps & E & H).
    { rewrite Hready. exact Hdel. }
    rewrite E. cbn [mbind option_bind]. split; [done|]. intros ef [= <-]. cbn [ef_end ef_sent ef_out].
    apply Hq in H as [H1 H2]. by apply Hcalm.
  - destruct (read e1 now lenp) as [e' got] eqn:E. split; [done|]. intros ef [= <-]. cbn [ef_end ef_sent ef_out].
    apply (read_ok x Do out base) in E; [|done]. apply Hq in E as [H1 H2]. by apply Hcalm.
  - destruct (connect e1 dest ok) as [e' ps] eqn:E. split; [done|]. intros ef [= <-]. cbn [ef_end ef_sent ef_out]. rewrite app_nil_r.
    rewrite (Hconn dest ok eq_refl) in E. apply (connect_ok x Do out base) in E as [H1 H2]; [|done|done]. by apply Hcalm.
  - split; [done|]. destruct (retryCheck e1 now) as [[e' stop]|] eqn:E; [|done]. cbn [mbind option_bind].
    intros ef [= <-]. cbn [ef_end ef_sent ef_out]. rewrite app_nil_r.
    apply (retryCheck_ok x Do out base) in E; [|done]. apply Hq in E as [H1 H2]. by apply Hcalm.
  - destruct (doKeepAlive (ep_snd e1) now _) as [s ps] eqn:E. split; [done|]. intros ef [= <-]. cbn [ef_end ef_sent ef_out].
    rewrite app_nil_r. apply (keepalive_ok x Do out base) in E; [|done|done]. by apply Hcalm.
  - destruct (doSendClosing (ep_snd e1) now) as [s ps] eqn:E. split; [done|]. intros ef [= <-]. cbn [ef_end ef_sent ef_out].
    rewrite app_nil_r. apply (closing_ok x Do out base) in E; [|done|done]. by apply Hcalm.
  - destruct (can_send (ep_snd e1)) eqn:Ec.
    + destruct (doOrigDataSend Blake2bOfBytes (ep_snd e1) now dur _) as [s p] eqn:E. split; [done|]. intros ef [= <-].
      cbn [ef_end ef_sent ef_out]. rewrite app_nil_r. apply (push_ok x Do out base) in E as [H1 _]; [|done|done]. by apply Hcalm.
    + split; [done|]. intros ef [= <-]. cbn [ef_end ef_sent ef_out]. rewrite app_nil_r.
      apply Hcalm; [|done]. split_and!; [done|apply advances_refl|done].
  - destruct (wakeup (ep_snd e1) now clock) as [[s ps]|] eqn:E; (split; [done|]); intros ef [= <-];
      cbn [ef_end ef_sent ef_out]; rewrite app_nil_r.
    + apply (wakeup_end x Do out base) in E; [|done]. by apply Hcalm.
    + apply Hcalm; [|done]. split_and!; [done|apply advances_refl|done].
  - destruct (sendAck (ep_snd e1)) as [s ps] eqn:E. split; [done|]. intros ef [= <-]. cbn [ef_end ef_sent ef_out].
    rewrite app_nil_r. apply (sendAck_ok x Do out base) in E as (H1 & H2 & H3); [|done].
    apply Hcalm; [|done]. split_and!; [done|done|by destruct ok].
Qed.
End safe.
