(* ===== verification/SwpContract.v ===== *)
(** * SwpContract: the guarantees of a session

    The invariant of [SwpSafe] carried over all runs of two ends and a network
    that loses, repeats and reorders packets, the theorems it gives, and the
    runs that show what the code does not guarantee. *)

From S2P Require Import Prelude SwpTcp Swp SwpNet SwpRecv SwpSend SwpSafe.
Local Open Scope Z_scope.

Section contract.
Context (Blake2bOfBytes : bytes -> bytes).
Context (inbox nonce : side -> bytes) (size : Z).

#[local] Abbreviation steps := (wsteps Blake2bOfBytes).
#[local] Abbreviation packet_ok := (packet_ok inbox nonce size).
#[local] Abbreviation end_ok := (end_ok inbox nonce size).

(** ** The invariant of the pair *)

Record winv (base : side -> nat) (w : world) : Prop := {
  wi_end : forall x, end_ok x (sent (w_end w (other x))) (w_out w x) (base x) (w_end w x);
  wi_net : forall p, p ∈ w_net w -> exists x, packet_ok x (sent (w_end w x)) (consumed (w_end w x)) (state (w_end w x)) p;
  wi_acked : forall x, Z.of_nat (base x) <= consumed (w_end w (other x)) + 1;
  wi_open : forall x, state (w_end w x) = Established -> (3 <= rank (state (w_end w (other x))))%nat;
}.

Lemma upd_eq {T} (f : side -> T) x v : upd f x v x = v.
Proof. unfold upd. by rewrite decide_True. Qed.

Lemma upd_other {T} (f : side -> T) x v : upd f x v (other x) = f (other x).
Proof. unfold upd. rewrite decide_False; [done|]. by destruct x. Qed.

Lemma other_other x : other (other x) = x.
Proof. by destruct x. Qed.

Lemma side_cases (P : side -> Prop) x : P x -> P (other x) -> forall y, P y.
Proof. intros H1 H2 y. by destruct x, y. Qed.

(** A packet that arrives is of the other end. *)
Lemma arrives base w x p : inbox A <> inbox B -> (forall y, inbox y <> []) -> winv base w ->
  (exists p0, p0 ∈ w_net w /\ arrives_as p0 p) -> pk_Dest p = inbox x -> packet_ok (other x) (sent (w_end w (other x))) (consumed (w_end w (other x))) (state (w_end w (other x))) p.
Proof.
  intros Hne Hnil Hw (p0 & Hp & Ha) Hd. destruct (wi_net _ _ Hw p0 Hp) as [z Hz].
  apply (packet_ok_arrives _ _ _ _ _ _ _ p0 p) in Hz; [|done].
  assert (z = other x) as ->; [|done]. destruct (po_dest _ _ _ _ _ _ _ _ Hz) as [E|E]; rewrite Hd in E.
  - by destruct (Hnil x).
  - destruct x, z; try done; by destruct Hne.
Qed.

Lemma winv_step base w w' : inbox A <> inbox B -> (forall y, inbox y <> []) -> 0 <= size -> winv base w ->
  wstep Blake2bOfBytes w w' -> exists base', winv base' w'.
Proof.
  intros Hne Hnil Hz Hw [x ev ef _ Hh Hrecv Hconn].
  pose proof (wi_end _ _ Hw x) as Hx. pose proof (wi_end _ _ Hw (other x)) as Hy. rewrite other_other in Hy.
  destruct (handle_ok Blake2bOfBytes inbox nonce size x _ _ (base x) (w_end w x) ev (consumed (w_end w (other x)))
    (state (w_end w (other x))) Hz Hx) as [_ Hok].
  { intros now p ->. destruct (Hrecv now p eq_refl) as [Hp Hd]. eapply arrives; [done..|].
    rewrite Hd. apply (eo_ctl _ _ _ _ _ _ _ _ Hx). }
  { intros dest ok ->. rewrite (Hconn dest ok eq_refl). apply (eo_ctl _ _ _ _ _ _ _ _ Hy). }
  destruct (Hok ef Hh) as (b & (He & (Ha1 & Ha2 & D & Ha3) & Hps) & Hb & Hmax & Hest).
  set (e' := ef_end ef) in *.
  exists (fun y => if decide (y = x) then b else base y). split; cbn.
  - intros y. pattern y. apply (side_cases _ x); cbv beta.
    + rewrite !upd_eq, upd_other, decide_True by done. done.
    + rewrite other_other, !upd_other, upd_eq. rewrite decide_False by (by destruct x).
      destruct Hy as [H1 H2 (c & n & H3) H4]. split; [done|done| |done]. exists c, n. rewrite Ha3. by apply rcv_ok_app.
  - intros p Hp. apply elem_of_app in Hp as [Hp|Hp].
    + destruct (wi_net _ _ Hw p Hp) as [z Hp']. exists z. destruct (decide (z = x)) as [->|Hzx].
      * rewrite upd_eq, Ha3. by eapply packet_ok_later.
      * assert (z = other x) as -> by (by destruct x, z). by rewrite upd_other.
    + exists x. rewrite upd_eq. by apply (proj1 (Forall_forall _ _) Hps).
  - intros y. pattern y. apply (side_cases _ x); cbv beta.
    + rewrite upd_other, decide_True by done. pose proof (wi_acked _ _ Hw x). lia.
    + rewrite other_other, upd_eq, decide_False by (by destruct x).
      pose proof (wi_acked _ _ Hw (other x)) as H. rewrite other_other in H. lia.
  - intros y. pattern y. apply (side_cases _ x); cbv beta.
    + rewrite upd_eq, upd_other. intros HE. destruct (Hest HE) as [HE'|?]; [|done]. by apply (wi_open _ _ Hw x).
    + rewrite other_other, upd_other, upd_eq. intros HE. pose proof (wi_open _ _ Hw _ HE) as H. rewrite other_other in H. lia.
Qed.

(** A new end. *)
Lemma new_end x dest bytesz now interval failed callback e : 1 <= size -> dest = inbox (other x) \/ dest = [] ->
  NewSession size bytesz (inbox x) dest (nonce x) now interval failed callback = Some e -> 
  end_ok x [] [] 0 e /\ sent e = [] /\ consumed e = 0 /\ state e = Listen.
Proof.
  intros Hz Hd E. unfold NewSession in E. destruct (_ <? 1); [done|]. injection E as <-. split_and!; [|done..].
  split.
  - split; cbn; try done; try lia; try tauto.
  - done.
  - exists 0%nat, 0%nat. split; cbn; try done; try lia.
    + by rewrite length_replicate.
    + intros i sl Hi Hrx. cbn in Hi. apply lookup_replicate in Hi as [-> _]. done.
  - split; cbn; try done; try lia.
    + by rewrite length_replicate.
    + constructor.
    + split; cbn; try done; constructor.
Qed.

Lemma winv_start w : starts_with inbox nonce size w -> winv (fun _ => 0%nat) w.
Proof.
  intros [H1 H2 H3 H4 H5 H6 H7 H8].
  assert (Hnew : forall x, end_ok x [] [] 0 (w_end w x) /\ sent (w_end w x) = [] /\ consumed (w_end w x) = 0 /\ state (w_end w x) = Listen).
  { intros x. destruct (H5 x) as (bytesz & dest & now & interval & failed & callback & Hd & E). by eapply new_end. }
  split.
  - intros x. destruct (Hnew x) as [He _]. destruct (Hnew (other x)) as (_ & -> & _). rewrite H8. done.
  - rewrite H7. intros p Hp. by apply not_elem_of_nil in Hp.
  - intros x. destruct (Hnew (other x)) as (_ & _ & -> & _). lia.
  - intros x. destruct (Hnew x) as (_ & _ & _ & ->). done.
Qed.

Lemma winv_reach w0 w : starts_with inbox nonce size w0 -> steps w0 w -> exists base, winv base w.
Proof.
  intros Hs Hr. assert (H : exists base, winv base w0) by (eexists; by apply winv_start).
  destruct Hs as [H1 H2 _ H4 _ _ _ _]. clear -H Hr H1 H2 H4. induction Hr as [w|w w1 w2 Hw _ IH]; [done|]. apply IH.
  destruct H as [base H]. eapply winv_step; [exact H1|exact H2|lia|exact H|exact Hw].
Qed.

(** ** What a session guarantees *)

Lemma out_prefix base w x : winv base w -> w_out w x `prefix_of` concat (sent (w_end w (other x))).
Proof.
  intros Hw. destruct (wi_end _ _ Hw x) as [_ _ (c & n & Hrcv) _]. pose proof (ro_out _ _ _ _ _ Hrcv) as Ho.
  exists ((rv_ReadyForDelivery (ep_rcv (w_end w x)) ≫= unread) ++ concat (drop n (sent (w_end w (other x))))).
  rewrite app_assoc, Ho, <- concat_app. by rewrite take_drop.
Qed.

(** C4. Reliable order: between two ends with windows of the same size,
    whatever the network loses, repeats, reorders or refuses to send, and
    in whatever order the two ends run their loops, the bytes that the
    application of one end has got (as packets or through [Read], in pieces
    of any size) are a prefix of the bytes the other end has sent: nothing is
    lost in between, repeated or out of order. *)
Theorem session_in_order w0 w x : starts_with inbox nonce size w0 -> steps w0 w ->
  w_out w x `prefix_of` concat (sent (w_end w (other x))).
Proof. intros Hs Hr. destruct (winv_reach w0 w Hs Hr) as [base Hw]. by eapply out_prefix. Qed.

(** C23. No panic: in a session between two ends with windows of the same size
    that run this code, no packet, timer or request of the application makes
    either loop of an end panic, with two exceptions: the timer that repeats an
    action of the handshake, and an end that waits on a request to connect
    whose SYN the network refused to send. *)
Theorem session_no_panic w0 w x ev : starts_with inbox nonce size w0 -> steps w0 w ->
  (forall now p, ev = EvRecv now p -> (exists p0, p0 ∈ w_net w /\ arrives_as p0 p) /\ pk_Dest p = rv_Inbox (ep_rcv (w_end w x))) ->
  (forall dest ok, ev = EvConnect dest ok -> dest = rv_Inbox (ep_rcv (w_end w (other x)))) ->
  is_retry_timer ev = false -> ~ refused (w_end w x) -> handle Blake2bOfBytes (w_end w x) ev <> None.
Proof.
  intros Hs Hr Hrecv Hconn. destruct (winv_reach w0 w Hs Hr) as [base Hw]. destruct Hs as [H1 H2 _ H4 _ _ _ _].
  pose proof (wi_end _ _ Hw x) as Hx. pose proof (wi_end _ _ Hw (other x)) as Hy.
  apply (handle_ok Blake2bOfBytes inbox nonce size x _ _ (base x) (w_end w x) ev (consumed (w_end w (other x)))
    (state (w_end w (other x))) ltac:(lia) Hx).
  - intros now p ->. destruct (Hrecv now p eq_refl) as [Hp Hd]. eapply arrives; [done..|].
    rewrite Hd. apply (eo_ctl _ _ _ _ _ _ _ _ Hx).
  - intros dest ok ->. rewrite (Hconn dest ok eq_refl). apply (eo_ctl _ _ _ _ _ _ _ _ Hy).
Qed.

(** The slot of a frame in the two trees. *)
Definition queued (s : SenderState) (n : nat) : Prop := exists j,
  j ∈ sd_BySeqNum s /\ j ∈ sd_ByDeadline s /\ slot_seq (sd_Txq s) j = Z.of_nat n.

(** C22. Frames are kept until they are consumed: in a session whose ends have
    windows of the same size, a frame other than the first
    that was sent and that the application of the other end has not consumed
    is in both retry trees of its sender, and a wake-up of the sender after its
    deadline sends it again, with the payload it had. *)
Theorem session_keeps_frames w0 w x n : starts_with inbox nonce size w0 -> steps w0 w ->
  (1 <= n < length (sent (w_end w x)))%nat ->
  rv_LastMsgConsumed (ep_rcv (w_end w (other x))) < Z.of_nat n ->
  queued (ep_snd (w_end w x)) n /\
  forall now clock s out, wakeup (ep_snd (w_end w x)) now clock = Some (s, out) ->
    slot_deadline (sd_Txq (ep_snd (w_end w x))) (pos_of size n) <= now ->
    exists p, p ∈ out /\ pk_SeqNum p = Z.of_nat n /\ sent (w_end w x) !! n = Some (pk_Data p).
Proof.
  intros Hs Hr Hn Hc. destruct (winv_reach w0 w Hs Hr) as [base Hw].
  pose proof (wi_acked _ _ Hw x) as Hb. destruct (wi_end _ _ Hw (other x)) as [_ _ (c & m & Hrcv) _].
  unfold consumed in Hb. rewrite (ro_frame _ _ _ _ _ Hrcv) in Hb. rewrite (ro_last _ _ _ _ _ Hrcv) in Hc.
  destruct (wi_end _ _ Hw x) as [Hctl _ _ Hsnd]. pose proof (cs_size _ _ _ _ _ Hctl) as Hsz. rewrite <- Hsz in Hsnd |- *.
  assert (Hin : (base x <= n < length (sent (w_end w x)))%nat) by lia. split.
  - exists (pos_of (sd_SenderWindowSize (ep_snd (w_end w x))) n). destruct (so_trees _ _ _ _ Hsnd) as [T1 T2 _ _].
    rewrite T1, T2. split_and!; [apply elem_of_live; by exists n..|]. by eapply slot_seq_frame.
  - intros now clock s out E Hdl. destruct (wakeup_ok _ _ _ _ _ _ _ Hsnd E) as (_ & _ & _ & H). by apply H.
Qed.

(** No half-open connection: when one end is established, the other one has
    at least received its SYN; and an end that closes a session never enters
    the state that [tcp.go] has for it. *)
Theorem session_handshake w0 w x : starts_with inbox nonce size w0 -> steps w0 w ->
  (state (w_end w x) = Established -> (rank SynReceived <= rank (state (w_end w (other x))))%nat) /\
  state (w_end w x) <> CloseInitiatorHasSentFin.
Proof.
  intros Hs Hr. destruct (winv_reach w0 w Hs Hr) as [base Hw]. split; [by apply (wi_open _ _ Hw)|].
  destruct (wi_end _ _ Hw x) as [Hctl _ _ _]. apply (co_state _ _ _ _ _ Hctl).
Qed.
End contract.

(** ** Runs *)

(** The steps of a run by number: an event of an end, or the arrival of the
    [i]-th packet that was ever sent. *)
Inductive move := Do (x : side) (ev : event) | Arrive (x : side) (now : Z) (i : nat).

Section runs.
Context (Blake2bOfBytes : bytes -> bytes).

(** The event of a move, when the network and the application allow it. *)
Definition allowed (w : world) (m : move) : option (side * event) :=
  match m with
  | Do x (EvRecv _ _) => None
  | Do x (EvConnect dest ok) =>
      if decide (dest = rv_Inbox (ep_rcv (w_end w (other x)))) then Some (x, EvConnect dest ok) else None
  | Do x ev => Some (x, ev)
  | Arrive x now i =>
      p ← w_net w !! i;
      if decide (pk_Dest p = rv_Inbox (ep_rcv (w_end w x))) then Some (x, EvRecv now p) else None
  end.

Definition wmove (w : world) (m : move) : option world :=
  '(x, ev) ← allowed w m;
  if w_run w x then
    ef ← handle Blake2bOfBytes (w_end w x) ev;
    Some (MkWorld (upd (w_end w) x (ef_end ef)) (upd (w_run w) x (ef_run ef)) (w_net w ++ ef_sent ef)
                  (upd (w_out w) x (w_out w x ++ ef_out ef)))
  else None.

Fixpoint wrun (w : world) (ms : list move) : option world :=
  match ms with [] => Some w | m :: ms => w ← wmove w m; wrun w ms end.

Lemma allowed_ok w m x ev : allowed w m = Some (x, ev) ->
  (forall now p, ev = EvRecv now p -> (exists p0, p0 ∈ w_net w /\ arrives_as p0 p) /\ pk_Dest p = rv_Inbox (ep_rcv (w_end w x))) /\
  (forall dest ok, ev = EvConnect dest ok -> dest = rv_Inbox (ep_rcv (w_end w (other x)))).
Proof.
  destruct m as [y []|y now i]; cbn; intros E; simplify_option_eq; split; intros; simplify_eq; try done.
  split; [|done]. eexists. split; [by eapply list_elem_of_lookup_2|by left].
Qed.

Lemma wmove_step w m w' : wmove w m = Some w' -> wstep Blake2bOfBytes w w'.
Proof.
  unfold wmove. destruct (allowed w m) as [[x ev]|] eqn:E; cbn; [|done]. destruct (allowed_ok _ _ _ _ E) as [H1 H2].
  destruct (w_run w x) eqn:R; [|done]. destruct (handle _ _ _) as [ef|] eqn:H; cbn; intros; simplify_eq. by econstructor.
Qed.

Lemma wrun_steps ms w w' : wrun w ms = Some w' -> wsteps Blake2bOfBytes w w'.
Proof.
  revert w. induction ms as [|m ms IH]; cbn; intros w E; simplify_eq; [done|].
  destruct (wmove w m) as [w1|] eqn:Hm; [|done]. eapply rtc_l; [by apply wmove_step in Hm|]. by apply IH.
Qed.
End runs.

(** A pair to run; the checksum of a text is the text itself. *)
Definition sample_inbox (x : side) : bytes := match x with A => bs "a" | B => bs "b" end.
Definition sample_nonce (x : side) : bytes := match x with A => bs "na" | B => bs "nb" end.
Definition sample_end (x : side) : endpoint :=
  default (MkEndpoint (NewRecvState 0 0 [] [] [] false) (NewSenderState 0 [] [] 0 0 0 []))
    (NewSession 4 0 (sample_inbox x) (sample_inbox (other x)) (sample_nonce x) 0 0 0 false).
Definition sample_world : world := MkWorld sample_end (fun _ => true) [] (fun _ => []).

Lemma sample_starts : starts_with sample_inbox sample_nonce 4 sample_world.
Proof.
  split; try done; try (by intros []).
  intros x. exists 0, (sample_inbox (other x)), 0, 0, 0, false. split; [by left|by destruct x].
Qed.

Definition after (ms : list move) : world := default sample_world (wrun id sample_world ms).

Lemma after_steps ms : is_Some (wrun id sample_world ms) -> wsteps id sample_world (after ms).
Proof. intros [w E]. unfold after. rewrite E. by eapply wrun_steps. Qed.

(** [A] connects, and the ends are established; two frames follow. *)
Definition opening : list move :=
  [Do A (EvConnect (bs "b") true); Arrive B 1 0; Do B (EvSendAck true); Arrive A 2 1; Do A (EvSendAck true); Arrive B 3 2].
Definition two_frames : list move := opening ++ [Do A (EvPush 4 10 (bs "hi")); Do A (EvPush 5 10 (bs " you"))].
(** The frames arrive in the wrong order and twice; [B] reads in pieces. *)
Definition conversation : list move :=
  two_frames ++ [Arrive B 6 4; Arrive B 7 4; Arrive B 8 3; Do B (EvRead 9 3); Arrive B 10 3; Do B (EvDeliver 11)].

Lemma session_in_order_witness : w_out (after conversation) B = bs "hi you" /\
  w_out (after conversation) B `prefix_of` concat (sent (w_end (after conversation) A)).
Proof.
  split; [vm_compute; reflexivity|].
  apply (session_in_order id sample_inbox sample_nonce 4 sample_world (after conversation) B sample_starts).
  apply after_steps. vm_compute. by eexists.
Defined.

Definition late_frame : Packet := default zero_packet (w_net (after two_frames) !! 4%nat).

Lemma late_frame_sent : late_frame ∈ w_net (after two_frames) /\ pk_Dest late_frame = rv_Inbox (ep_rcv (w_end (after two_frames) B)).
Proof. split; [apply (list_elem_of_lookup_2 _ 4)|]; vm_compute; reflexivity. Qed.

Lemma session_no_panic_witness : late_frame ∈ w_net (after two_frames) /\
  handle id (w_end (after two_frames) B) (EvRecv 6 late_frame) <> None.
Proof.
  split; [apply late_frame_sent|].
  apply (session_no_panic id sample_inbox sample_nonce 4 sample_world (after two_frames) B (EvRecv 6 late_frame) sample_starts).
  - apply after_steps. vm_compute. by eexists.
  - pose proof late_frame_sent as H. generalize dependent late_frame. intros q [H Hd] now p E. injection E as <- <-. split; [|exact Hd]. exists q. split; [exact H|by left].
  - by intros dest ok E.
  - reflexivity.
  - by vm_compute.
Defined.

Lemma session_keeps_frames_witness :
  slot_deadline (sd_Txq (ep_snd (w_end (after two_frames) A))) (pos_of 4 1) <= 100 /\
  queued (ep_snd (w_end (after two_frames) A)) 1 /\
  forall now clock s out, wakeup (ep_snd (w_end (after two_frames) A)) now clock = Some (s, out) ->
    slot_deadline (sd_Txq (ep_snd (w_end (after two_frames) A))) (pos_of 4 1) <= now ->
    exists p, p ∈ out /\ pk_SeqNum p = Z.of_nat 1 /\ sent (w_end (after two_frames) A) !! 1%nat = Some (pk_Data p).
Proof.
  split; [vm_compute; done|].
  apply (session_keeps_frames id sample_inbox sample_nonce 4 sample_world (after two_frames) A 1 sample_starts).
  - apply after_steps. vm_compute. by eexists.
  - vm_compute. lia.
  - vm_compute. done.
Defined.

Lemma session_handshake_witness : state (w_end (after opening) A) = Established /\
  (rank SynReceived <= rank (state (w_end (after opening) B)))%nat.
Proof.
  split; [vm_compute; reflexivity|].
  apply (session_handshake id sample_inbox sample_nonce 4 sample_world (after opening) A sample_starts).
  - apply after_steps. vm_compute. by eexists.
  - vm_compute. reflexivity.
Defined.

(** The first frame is lost, and then a keep-alive of [B] arrives, which
    says that [B] has consumed up to frame 0. *)
Definition lost_first : list move := opening ++
  [Do A (EvPush 4 10 (bs "hi")); Do B (EvKeepAlive 1000000000); Arrive A 1000000001 4].

Lemma wakeup_nothing s now clock s' out : sd_ByDeadline s = [] -> wakeup s now clock = Some (s', out) -> out = [].
Proof. unfold wakeup. intros ->. destruct (_ && _); [done|]. cbn. by intros [= _ <-]. Qed.

(** A repeated [SendEstabAck]. *)
Lemma retry_estab_ack e t0 now : let t := rv_retry (ep_rcv e) in rt_inUse t = true -> rt_curState t = rv_TcpState (ep_rcv e) ->
  rt_firstStateAction t = SendEstabAck -> rv_RemoteSessNonce (ep_rcv e) <> [] -> rt_attemptCount t < 10 ->
  rt_lastAttemptAt t <= t0 -> 1000000000 < now - t0 -> handle id e (EvRetryTimer now) = None.
Proof.
  intros t H1 H2 H3 H4 H5 H6 H7. cbn. unfold loop_top.
  assert (forall e', rv_retry (ep_rcv e') = t -> rv_TcpState (ep_rcv e') = rv_TcpState (ep_rcv e) ->
    rv_RemoteSessNonce (ep_rcv e') = rv_RemoteSessNonce (ep_rcv e) -> retryCheck e' now = None) as H.
  { intros e' E1 E2 E3. unfold retryCheck. rewrite E1, E2, H1, H2, H3, bool_decide_true by done. cbn.
    rewrite (proj2 (Z.ltb_lt _ _)) by lia. rewrite (proj2 (Z.ltb_ge _ _)) by lia.
    rewrite E3. rewrite bool_decide_true by done. by destruct (rt_causalPacket t). }
  rewrite H; [done|..]; cbn; by destruct (rv_ReadyForDelivery _).
Qed.

(** The first frame is not kept: [LastFrameClientConsumed] starts at 0,
    so an end that has consumed nothing acknowledges frame 0.  Here the
    frame is lost, a keep-alive of the other end removes it from both retry
    trees, the other end still waits for it, and no wake-up ever sends it
    again. *)
Theorem first_frame_forgotten :
  wsteps id sample_world (after lost_first) /\
  sent (w_end (after lost_first) A) = [bs "hi"] /\
  rv_NextFrameExpected (ep_rcv (w_end (after lost_first) B)) = 0 /\
  sd_BySeqNum (ep_snd (w_end (after lost_first) A)) = [] /\
  forall now clock s out, wakeup (ep_snd (w_end (after lost_first) A)) now clock = Some (s, out) -> out = [].
Proof.
  split; [apply after_steps; vm_compute; by eexists|].
  split; [vm_compute; reflexivity|]. split; [vm_compute; reflexivity|]. split; [vm_compute; reflexivity|].
  intros now clock s out. apply wakeup_nothing. vm_compute. reflexivity.
Qed.

(** Both ends connect at once, and each gets the SYN of the other. *)
Definition crossing : list move :=
  [Do A (EvConnect (bs "b") true); Do B (EvConnect (bs "a") true); Arrive A 1 1; Arrive B 2 0].

(** A simultaneous open panics: when both ends connect at once and the
    acknowledgement of the SYN is lost, the retry a second later repeats
    [SendEstabAck], which panics because the first try has already set the
    nonce of the other end.  So the exception in [session_no_panic] is needed. *)
Theorem retry_estab_ack_panics x now : 1000000002 < now ->
  wsteps id sample_world (after crossing) /\
  state (w_end (after crossing) x) = SynReceived /\
  handle id (w_end (after crossing) x) (EvRetryTimer now) = None.
Proof.
  intros Hnow. split; [apply after_steps; vm_compute; by eexists|]. split; [destruct x; vm_compute; reflexivity|].
  apply (retry_estab_ack _ 2); [..|lia]; destruct x; vm_compute; done.
Qed.

(** The network refuses the SYN of [A], and that of [B] arrives. *)
Definition refused_syn : list move := [Do A (EvConnect (bs "b") false); Do B (EvConnect (bs "a") true)].

(** A refused SYN can panic: the sender of [A] closes the channel [Done] of the
    request and leaves the request pending, and the handshake that the SYN of
    the other end brings about closes the channel again.  So the second
    exception in [session_no_panic] is needed, too. *)
Theorem refused_syn_panics : exists p, wsteps id sample_world (after refused_syn) /\ w_net (after refused_syn) = [p] /\
  pk_Dest p = rv_Inbox (ep_rcv (w_end (after refused_syn) A)) /\
  forall now, handle id (w_end (after refused_syn) A) (EvRecv now p) = None.
Proof.
  destruct (w_net (after refused_syn)) as [|p [|]] eqn:E; try by vm_compute in E.
  exists p. split; [apply after_steps; vm_compute; by eexists|]. vm_compute in E. injection E as <-.
  split; [done|]. split; [by vm_compute|]. intros now. vm_compute. reflexivity.
Qed.

Lemma retry_estab_ack_panics_witness : wsteps id sample_world (after crossing) /\
  state (w_end (after crossing) A) = SynReceived /\
  handle id (w_end (after crossing) A) (EvRetryTimer 2000000000) = None.
Proof. apply (retry_estab_ack_panics A 2000000000). lia. Defined.
