(* ===== verification/SwpWrite.v ===== *)
(** * SwpWrite: the stream that an application writes

    [Session.Write] of [src/swp/swp.go], which cuts a payload into frames, and
    what the reader of the other end sees of it. *)

From S2P Require Import Prelude SwpTcp Swp SwpNet SwpRecv SwpSend SwpSafe SwpContract.
Local Open Scope Z_scope.

Definition int64Min (a b : Z) : Z := if a <? b then a else b.

(** The size of a piece. *)
Definition maxSz : Z := Z.shiftl 1 19.

Definition write_sz (WindowByteSz : Z) : Z :=
  let sz := int64Min WindowByteSz maxSz in
  if sz <? 0 then maxSz else sz.

(** The number of pieces; [sz] is not 0. *)
Definition write_npack (lenp sz : Z) : Z :=
  let npack := Z.quot lenp sz in
  if 0 <? lenp - npack * sz then npack + 1 else npack.

(** [payload[i:j]]. *)
Definition cut (i j : Z) (payload : bytes) : bytes := take (Z.to_nat (j - i)) (drop (Z.to_nat i) payload).

(** The payloads of the packets that [Write] pushes; a [None] is the panic of
    a division by zero. *)
Definition write_pieces (WindowByteSz : Z) (payload : bytes) : option (list bytes) :=
  let lenp := Z.of_nat (length payload) in
  if lenp =? 0 then Some []
  else
    let sz := write_sz WindowByteSz in
    if sz =? 0 then None
    else Some (map (fun i => cut (Z.of_nat i * sz) (int64Min ((Z.of_nat i + 1) * sz) lenp) payload)
                   (seq 0 (Z.to_nat (write_npack lenp sz)))).

(** The frames of a window's session after [NewSession] has set the size. *)
Definition written (WindowByteSz : Z) (payloads : list bytes) : list bytes :=
  payloads ≫= fun p => default [] (write_pieces WindowByteSz p).

(** ** The pieces are the payload *)

Lemma write_sz_pos W : 1 <= W -> 1 <= write_sz W <= Z.min W maxSz.
Proof. unfold write_sz, int64Min. change maxSz with 524288. intros. repeat case_match; lia. Qed.

Lemma write_npack_ceil lenp sz : 1 <= sz -> 0 <= lenp ->
  (write_npack lenp sz - 1) * sz < lenp <= write_npack lenp sz * sz.
Proof.
  intros Hs Hl. unfold write_npack. rewrite Z.quot_div_nonneg by lia.
  pose proof (Z.div_mod lenp sz ltac:(lia)). pose proof (Z.mod_pos_bound lenp sz ltac:(lia)).
  destruct (Z.ltb_spec 0 (lenp - lenp / sz * sz)); nia.
Qed.

(** The pieces in front of an index make up the front of the payload. *)
Lemma pieces_prefix (payload : bytes) (sz : Z) (n : nat) : 1 <= sz ->
  concat (map (fun i => cut (Z.of_nat i * sz) (int64Min ((Z.of_nat i + 1) * sz) (Z.of_nat (length payload))) payload) (seq 0 n)) =
  take (Z.to_nat (Z.of_nat n * sz)) payload.
Proof.
  intros Hs. induction n as [|n IH]; [done|].
  rewrite seq_S, map_app, concat_app, IH. cbn. rewrite app_nil_r. unfold cut, int64Min.
  replace (Z.to_nat (Z.of_nat (S n) * sz)) with (Z.to_nat (Z.of_nat n * sz) + Z.to_nat sz)%nat by lia.
  rewrite <- take_take_drop. f_equal.
  destruct (Z.ltb_spec ((Z.of_nat n + 1) * sz) (Z.of_nat (length payload))).
  - f_equal. lia.
  - rewrite !take_ge; [done|rewrite length_drop; lia..].
Qed.

Lemma piece_length (payload : bytes) (sz : Z) (i : nat) : 1 <= sz -> Z.of_nat i * sz < Z.of_nat (length payload) ->
  (1 <= Z.of_nat (length (cut (Z.of_nat i * sz) (int64Min ((Z.of_nat i + 1) * sz) (Z.of_nat (length payload))) payload)) <= sz).
Proof.
  intros Hs Hi. unfold cut. rewrite length_take, length_drop. unfold int64Min.
  destruct (Z.ltb_spec ((Z.of_nat i + 1) * sz) (Z.of_nat (length payload))); nia.
Qed.

Lemma write_pieces_ok W payload : 1 <= W -> exists pieces, write_pieces W payload = Some pieces /\ concat pieces = payload /\
  Forall (fun d => 1 <= Z.of_nat (length d) <= write_sz W) pieces.
Proof.
  intros HW. pose proof (write_sz_pos W HW) as Hsz. unfold write_pieces.
  destruct (Z.eqb_spec (Z.of_nat (length payload)) 0) as [E|E].
  { exists []. destruct payload; [done|cbn in E; lia]. }
  rewrite (proj2 (Z.eqb_neq _ _)) by lia. eexists. split; [done|].
  pose proof (write_npack_ceil (Z.of_nat (length payload)) (write_sz W) ltac:(lia) ltac:(lia)) as Hn. split.
  - rewrite pieces_prefix by lia. apply take_ge. nia.
  - apply Forall_forall. intros d Hd. apply list_elem_of_In, in_map_iff in Hd as (i & <- & Hi). apply in_seq in Hi.
    apply piece_length; nia.
Qed.

Lemma written_concat W payloads : 1 <= W -> concat (written W payloads) = concat payloads.
Proof.
  intros HW. unfold written. induction payloads as [|p ps IH]; [done|]. cbn. rewrite concat_app, IH.
  destruct (write_pieces_ok W p HW) as (pieces & E & Hc & _). by rewrite E, <- Hc.
Qed.

(** C35. A stream of writes: [Write] never panics in a session, it cuts its
    payload into frames of at most 512 KiB (and of the size of the window in
    bytes) whose concatenation is the payload; and when the frames that an
    end has sent are those of some writes, or the first of them, then the
    other end reads a prefix of the bytes written. *)
Theorem write_then_read Blake2bOfBytes inbox nonce size W w0 w x payloads :
  1 <= W -> starts_with inbox nonce size w0 -> wsteps Blake2bOfBytes w0 w ->
  sent (w_end w (other x)) `prefix_of` written W payloads ->
  (forall p, exists pieces, write_pieces W p = Some pieces /\ concat pieces = p /\
    Forall (fun d => 1 <= Z.of_nat (length d) <= Z.min W (512 * 1024)) pieces) /\
  w_out w x `prefix_of` concat payloads.
Proof.
  intros HW Hs Hr [rest Hp]. split.
  - intros p. destruct (write_pieces_ok W p HW) as (pieces & E & Hc & Hf). exists pieces. split_and!; [done..|].
    eapply Forall_impl; [exact Hf|]. pose proof (write_sz_pos W HW) as H. change maxSz with (512 * 1024) in H. intros d Hd. cbv beta in *. lia.
  - destruct (winv_reach _ _ _ _ w0 w Hs Hr) as [base Hw]. etrans; [by eapply out_prefix|].
    rewrite <- (written_concat W payloads HW), Hp, concat_app. by apply prefix_app_r.
Qed.

Lemma write_then_read_witness :
  (forall p, exists pieces, write_pieces 4 p = Some pieces /\ concat pieces = p /\
    Forall (fun d => 1 <= Z.of_nat (length d) <= Z.min 4 (512 * 1024)) pieces) /\
  w_out (after conversation) B `prefix_of` concat [bs "hi"; bs " you, and me"].
Proof.
  apply (write_then_read id sample_inbox sample_nonce 4 4 sample_world (after conversation) B [bs "hi"; bs " you, and me"]).
  - lia.
  - apply sample_starts.
  - apply after_steps. vm_compute. by eexists.
  - exists [bs ", an"; bs "d me"]. vm_compute. reflexivity.
Defined.

(** A payload of eleven bytes in frames of four. *)
Example pieces_of_four : write_pieces 4 (bs "hello world") = Some [bs "hell"; bs "o wo"; bs "rld"].
Proof. reflexivity. Qed.
